(* ===== verification/_CoqProject ===== *)
-Q . S2P
Prelude.v
Words.v
Params.v
CString.v
Locks.v
Ring.v
BufIface.v
Bio.v
BioLaws.v
Redo.v
Log.v
LogCrash.v
LogInv.v
Fs.v
FsRules.v
FsBlocks.v
FsFile.v
FsFileProps.v
FsInode.v
FsDir.v
Mkfs.v
MkfsFile.v
MkfsSpec.v
MkfsProps.v
Spinlock.v
SpinStep.v
Kalloc.v
Vm.v
VmRules.v
VmMap.v
VmUser.v
VmGrow.v
VmFork.v
Pipe.v
PipeStep.v
File.v
FileProps.v
Proc.v
ProcStep.v
ProcProps.v
Kern.v
Syscall.v
Exec.v
Sysfile.v
Trap.v
Format.v
Console.v
ConsoleSpec.v
Ports.v
Ata.v
Ide.v
IdeSpec.v
IdeStep.v
Boot.v
Kbd.v
Mp.v
Apic.v
Messages.v
ApicSpec.v
Cmos.v
Uart.v
Segs.v
X86.v
TrapAsm.v
UsysAsm.v
EntryAsm.v
MpMain.v
Printf.v
Uprog.v
UprogSpec.v
Tui.v
TuiSpec.v
Umalloc.v
UmallocInv.v
UmallocProps.v
Shell.v
ShellGrammar.v
ShellRun.v
ShellMain.v
Grep.v
