(* ===== verification/Prelude.v ===== *)
(** * BOSS-OS: a verification development

    BOSS-OS is a small Unix-like kernel for the x86 with its user programs.  This
    library models its kernel from the boot sector to the scheduler, its drivers,
    the tool that builds its file system, its user library, its shell, its text
    interface and its programs, and proves the theorems that make them correct.

    ** How the code is modelled

    C code is translated function by function into a state monad [M S A] (this
    file).  A computation ends in one of four ways: it returns ([Ok]), it panics
    with the message of the source ([Panic]), it goes to sleep ([Sleep]), or it
    does what C leaves undefined ([Fault]: a null or wild pointer, a loop that runs
    out of fuel).  [wp c Q s] says that [c] returns from [s] in a state that
    satisfies [Q]; every theorem stated with [wp] is therefore also a theorem that
    the code neither panics, sleeps nor faults.  Integers are [Z] with the wrap-around
    of their C type written out ([u32], [i32], [u8] ... of [Words]); memory is
    bytes, pages or arrays, as the code at hand uses it; a lock is a flag to the one
    thread that holds it.  Where other processors or processes can interfere, the code is
    cut at the points where they can and becomes a step relation ([SpinStep],
    [PipeStep], [ProcStep], [IdeStep]), and the theorems hold in every reachable state.

    Assembly is a list of instructions ([X86]) that run on registers, a stack,
    segments and gates.  Devices are type classes of port and memory accesses
    ([PortIO] of [Ports], [MMIO] of [Apic]): the code runs over any instance, and
    the theorems assume classes of laws that state what the data sheet of the
    device says ([LocalApic], [IoApic], [A20Gate] and the like), each with an
    instance that shows the laws can hold.  User programs run over the classes
    [UserOS] and [ProcOS] of their system calls in the same way.

    ** The parts and their files

    Basics:
    - [Words], [Params], [CString], [Format]: machine words and their bytes, the
      constants of param.h, fs.h, mmu.h, memlayout.h, stat.h, traps.h and fcntl.h and the
      headers of elf.h, the routines of string.c and ulib.c, and the printing of numbers.

    From power-on to the first process:
    - [X86]: the processor, its instructions and the rules to reason about them.
    - [EntryAsm]: bootasm.S, entry.S and entryother.S, with the entry page directory.
    - [Ports], [Ata], [Boot]: x86.h's port instructions, the ATA disk as its standard
      describes it, and bootmain.c, which loads the kernel from it.
    - [Mp], [Apic], [ApicSpec], [Cmos]: mp.c, ioapic.c, picirq.c and lapic.c.
    - [MpMain]: startothers, mpenter and mpmain of main.c, and kvmalloc; the other
      processors execute entryother.S on what startothers left for them.
    - [Segs]: descriptors of mmu.h, seginit, tvinit and idtinit.
    - [TrapAsm], [UsysAsm]: swtch.S, trapasm.S, the entry points of vectors.pl, usys.S and
      initcode.S, from user mode through the kernel and back.

    The kernel:
    - [Locks], [Spinlock], [SpinStep]: sleeplock.c; spinlock.c with mycpu; and several
      processors that run acquire and release interleaved at their accesses to the
      lock word.
    - [Ring], [BufIface], [Bio], [BioLaws]: the buffer cache of bio.c over the memory
      disk of memide.c.  [BufIface] is the contract a cache owes to its clients, a
      type class; [BioLaws] proves that bio.c keeps it.
    - [Ide], [IdeSpec], [IdeStep]: ide.c over a disk with the laws of [Ata], its queue of
      requests, and its interrupts interleaved with callers.
    - [Redo], [Log], [LogCrash], [LogInv]: log.c over any cache with that contract.
      A crash may happen after any disk write; [Redo] is the abstract redo log.
    - [Fs], [FsRules], [FsBlocks], [FsFile], [FsFileProps], [FsInode], [FsDir]: all of
      fs.c.  Block allocation, the table of in-core inodes, file content through
      direct and indirect blocks with the number of log slots used, directories
      and path names.
    - [Mkfs], [MkfsFile], [MkfsSpec], [MkfsProps]: mkfs.c, and that the image it builds is
      one that fs.c can use, with the files it was given.
    - [Kalloc], [Vm], [VmRules], [VmMap], [VmUser], [VmGrow], [VmFork]: kalloc.c and the page
      tables of vm.c over physical memory, with frame conditions for everything a
      routine does not touch.
    - [Pipe], [PipeStep]: pipe.c, its critical sections and their interleavings.
    - [File], [FileProps]: file.c over the file system and the pipes; [filewrite]
      splits a write into transactions that fit the log.
    - [Proc], [ProcStep], [ProcProps]: the process table of proc.c with fork, exit,
      wait, sleep, wakeup, kill and the scheduler as steps of several processors.
    - [Kern], [Syscall], [Exec], [Sysfile], [Trap]: the state of the whole kernel; process
      creation; the checks on system call arguments; exec.c; sysfile.c; sysproc.c and
      the dispatch of traps and system calls.
    - [Console], [ConsoleSpec], [Kbd], [Uart], [Messages]: console.c, kbd.c and uart.c.
      [ConsoleSpec] is the abstract line editor that the ring buffer of the keyboard
      input refines; [Messages] has panic, procdump and consoleinit.

    User programs:
    - [Printf], [Umalloc], [UmallocInv], [UmallocProps]: the output of printf.c; the allocator
      of umalloc.c, whose heap is tiled by free and used blocks.
    - [Uprog], [UprogSpec], [Tui], [TuiSpec]: the small programs; tui.c and init.c, with the
      picture on the terminal.
    - [Shell], [ShellGrammar], [ShellRun], [ShellMain]: the parser of sh.c with
      [nulterminate], its grammar, the execution of commands and the command loop.
    - [Grep]: the matcher, the line loop and main of grep.c.

    The layers are composed as in the kernel: [trap] calls [syscall], the system
    calls run on [kern], which contains the file table, which contains the file
    system, which contains the log, which contains the cache, each reached with
    [zoom].  The assembly around them takes the C functions it calls as parameters
    that keep the calling convention.

    ** What the theorems show

    The theorems marked C1, C2, ... in the files are the properties of the
    development.  They cover
    - start-up: the boot sector's loader leaves the kernel's segments where its headers
      say; every processor is found and comes up on a stack of its own;
    - traps: a trap hands the kernel all registers and returns to exactly the
      registers the frame holds, a system call returns its result, a context switch
      resumes, a new process starts, and user mode enters the kernel through one gate only;
    - crash safety of the log, functional correctness of block allocation, file
      reads and writes, and that mkfs and fs.c agree on the format;
    - the disk driver: requests are served in some sequential order, all of them, and the
      clock is read consistently;
    - mutual exclusion; the allocator, the page tables and the isolation of address
      spaces; order and absence of lost wakeups for pipes and for wait; one processor
      per process and fairness of the scheduler; safety of user pointers;
    - the console as a refinement of a line editor, from scan codes to the line read;
    - user programs: malloc hands out disjoint blocks and loses none, the shell runs a
      session as its grammar says, grep prints the lines its pattern denotes, wc
      counts, the text interface starts what was chosen and draws its menu.
    A theorem with hypotheses is followed by a [_witness] that applies it to a
    concrete state.  Theorems without a number state what else the parts promise; they
    are what the numbered ones build on, or boundary cases.

    Some theorems record where the code does not do what it means to:
    [PipeStep.killed_writer_leaves_reader_asleep],
    [ProcProps.kill_zero_kills_next_child], [UmallocProps.malloc_too_large] and
    [Grep.grep_short_read].

    ** Bounds and fuel

    Loops over tables have the bounds of the tables.  Other loops are structural on
    the data they consume, or take fuel that the definition itself computes from its
    arguments ([write_fuel], [parse_fuel], [heap_fuel], the number of blocks, pages or
    characters left).  Running out of it is [Fault], or the end of the loop where
    the fuel counts the bytes left to do; the theorems on the results prove that it is
    enough.  Loops that wait for a device or another processor take the number of reads
    as an argument ([polls], [fuel]); the laws of the device bound how long it is busy, and
    the theorems ask for one more.  User programs that read a file to its end take fuel
    greater than the length of the files.  The string routines of ulib.c take the fuel as
    an argument, a bound on the length of the string; the theorem on [atoi] runs it with
    33, more than a printed number needs.  A printed number has at most 32 digits in
    any base, since it is 32 bits wide.

    ** Not modelled

    [main] of main.c, a list of calls of the initialisation routines.  The lines of
    assembly behind calls that do not return.  The console routines are modelled without
    the inode lock that they give up while they wait, and messages on the console from
    drivers and traps are left out.  A process that gives up the processor ends its
    computation in [sched], and continues as a separate step.  The shell is modelled with
    a malloc that succeeds.  Physical memory is modelled as the kernel sees it through
    its own mapping; the effect of the page tables on user instructions is that of
    [Syscall.vload] and [Syscall.vstore], and caches and the TLB are transparent.  usertests.c
    is a suite of tests against a running system; the linker script and the build scripts
    only choose addresses, which are parameters here. *)

From stdpp Require Export base list numbers strings gmap.
From Stdlib Require Export ZArith Lia.

#[global] Open Scope Z_scope.
#[global] Open Scope list_scope.

(** ** The kernel monad

    Kernel code runs to one of four ends: it returns a value, it calls
    [panic], it calls [sleep] (and gives up the CPU in the state it has
    reached), or it commits an access that C leaves undefined (a null
    dereference, an index outside its array). *)

Inductive outcome (S A : Type) : Type :=
| Ok (a : A) (s : S)
| Panic (msg : string)
| Sleep (s : S)
| Fault.
Arguments Ok {S A} a s.
Arguments Panic {S A} msg.
Arguments Sleep {S A} s.
Arguments Fault {S A}.

Definition M (S A : Type) : Type := S → outcome S A.

Definition ret {S A} (a : A) : M S A := λ s, Ok a s.
Definition bind {S A B} (m : M S A) (f : A → M S B) : M S B := λ s,
  match m s with
  | Ok a s' => f a s'
  | Panic msg => Panic msg
  | Sleep s' => Sleep s'
  | Fault => Fault
  end.

Declare Scope kernel_scope.
Delimit Scope kernel_scope with K.
Notation "x ← y ; z" := (bind y (λ x, z))
  (at level 20, y at level 100, z at level 200, only parsing) : kernel_scope.
Notation "y ;; z" := (bind y (λ _, z))
  (at level 100, z at level 200, only parsing, right associativity) : kernel_scope.
#[global] Open Scope kernel_scope.

Definition panic {S A} (msg : string) : M S A := λ _, Panic msg.
Definition fault {S A} : M S A := λ _, Fault.
Definition sleeping {S A} : M S A := λ s, Sleep s.
Definition getS {S} : M S S := λ s, Ok s s.
Definition gets {S A} (f : S → A) : M S A := λ s, Ok (f s) s.
Definition putS {S} (s : S) : M S unit := λ _, Ok tt s.
Definition modify {S} (f : S → S) : M S unit := λ s, Ok tt (f s).
Definition whenM {S} (b : bool) (c : M S unit) : M S unit :=
  if b then c else ret tt.

(** Run a computation on a part of a larger state. *)
Definition zoom {S T A} (get : T → S) (set : S → T → T) (c : M S A) : M T A :=
  λ t, match c (get t) with
       | Ok a s => Ok a (set s t)
       | Panic msg => Panic msg
       | Sleep s => Sleep (set s t)
       | Fault => Fault
       end.

(** [for(i = i0; n more iterations; i++) body(i)] *)
Fixpoint for_loop {S} (n : nat) (i : Z) (body : Z → M S unit) : M S unit :=
  match n with
  | O => ret tt
  | Datatypes.S n' => bind (body i) (λ _, for_loop n' (i + 1) body)
  end.

(** [wp c Q s]: [c] started in [s] returns, and the value and the state it
    returns satisfy [Q].  A computation that panics, sleeps or faults has no
    [wp], so every theorem stated with [wp] is a total correctness theorem. *)
Definition wp {S A} (c : M S A) (Q : A → S → Prop) (s : S) : Prop :=
  match c s with
  | Ok a s' => Q a s'
  | _ => False
  end.

Section wp.
Context {S : Type}.
Implicit Types s : S.

Lemma wp_ret {A} (a : A) Q s : Q a s → wp (ret a) Q s.
Proof. done. Qed.

Lemma wp_bind {A B} (c : M S A) (f : A → M S B) Q s :
  wp c (λ a, wp (f a) Q) s → wp (bind c f) Q s.
Proof. unfold wp, bind. by destruct (c s). Qed.

Lemma wp_bind_inv {A B} (c : M S A) (f : A → M S B) Q s :
  wp (bind c f) Q s → wp c (λ a, wp (f a) Q) s.
Proof. unfold wp, bind. by destruct (c s). Qed.

Lemma wp_mono {A} (c : M S A) (P Q : A → S → Prop) s :
  wp c P s → (∀ a s', P a s' → Q a s') → wp c Q s.
Proof. unfold wp. destruct (c s); auto. Qed.

Lemma wp_both {A} (c : M S A) (P Q : A → S → Prop) s :
  wp c P s → wp c Q s → wp c (λ a s', P a s' ∧ Q a s') s.
Proof. unfold wp. destruct (c s); auto. Qed.

Lemma wp_modify f (Q : unit → S → Prop) s : Q tt (f s) → wp (modify f) Q s.
Proof. done. Qed.

Lemma wp_gets {A} (f : S → A) Q s : Q (f s) s → wp (gets f) Q s.
Proof. done. Qed.

Lemma wp_getS (Q : S → S → Prop) s : Q s s → wp getS Q s.
Proof. done. Qed.

Lemma wp_ok {A} (c : M S A) Q s : wp c Q s ↔ ∃ a s', c s = Ok a s' ∧ Q a s'.
Proof.
  unfold wp. split.
  - destruct (c s) as [a s'| | |] eqn:E; naive_solver.
  - by intros (a & s' & -> & HQ).
Qed.

Lemma wp_eq {A} (c c' : M S A) Q s : c s = c' s → wp c' Q s → wp c Q s.
Proof. unfold wp. by intros ->. Qed.

(** Loop rule: an invariant indexed by the number of iterations done. *)
Lemma wp_for_loop (I : Z → S → Prop) n i0 body s :
  I i0 s →
  (∀ i s, i0 ≤ i < i0 + Z.of_nat n → I i s → wp (body i) (λ _, I (i + 1)) s) →
  wp (for_loop n i0 body) (λ _, I (i0 + Z.of_nat n)) s.
Proof.
  revert i0 s. induction n as [|n IH]; intros i0 s HI Hbody; simpl.
  - apply wp_ret. by replace (i0 + Z.of_nat 0) with i0 by lia.
  - apply wp_bind. eapply wp_mono; [apply Hbody; [lia|done]|].
    intros [] s' HI'. eapply wp_mono.
    + apply (IH (i0 + 1)); [done|]. intros j t Hj. apply Hbody. lia.
    + intros [] t. by replace (i0 + 1 + Z.of_nat n) with (i0 + Z.of_nat (Datatypes.S n)) by lia.
Qed.
End wp.

Lemma wp_returns {S A} (c : M S A) Q s : wp c Q s → ∃ a s', c s = Ok a s'.
Proof. unfold wp. destruct (c s) as [a s'| | |]; naive_solver. Qed.

Lemma bind_assoc {S A B C} (m : M S A) (f : A → M S B) (g : B → M S C) s :
  bind (bind m f) g s = bind m (λ a, bind (f a) g) s.
Proof. unfold bind. by destruct (m s). Qed.

Lemma bind_ext {S A B} (m : M S A) (f g : A → M S B) s : (∀ a s', f a s' = g a s') → bind m f s = bind m g s.
Proof. intros E. unfold bind. destruct (m s); [apply E|done..]. Qed.

Lemma wp_zoom {S T A} (get : T → S) (set : S → T → T) (c : M S A) Q t :
  wp c (λ a s, Q a (set s t)) (get t) → wp (zoom get set c) Q t.
Proof. unfold wp, zoom. by destruct (c (get t)). Qed.

(** ** Automation *)

Create HintDb kernel.
#[export] Hint Resolve wp_ret wp_modify wp_gets wp_getS : kernel.

(** One symbolic step of a monadic program. *)
Ltac wp_step :=
  lazymatch goal with
  | |- wp (bind _ _) _ _ => apply wp_bind
  | |- wp (ret _) _ _ => apply wp_ret
  | |- wp (modify _) _ _ => apply wp_modify
  | |- wp (gets _) _ _ => apply wp_gets
  | |- wp getS _ _ => apply wp_getS
  | |- wp (whenM ?b _) _ _ => unfold whenM; destruct b eqn:?
  | |- wp (if ?b then _ else _) _ _ => destruct b eqn:?
  end; cbn beta.
Ltac wp_steps := repeat wp_step.

(** Turn boolean comparisons in the context into propositions. *)
Ltac bool_props :=
  repeat match goal with
  | H : _ && _ = true |- _ => apply andb_true_iff in H as [? ?]
  | H : _ || _ = false |- _ => apply orb_false_iff in H as [? ?]
  | H : _ && _ = false |- _ => apply andb_false_iff in H as [H|H]
  | H : _ || _ = true |- _ => apply orb_true_iff in H as [H|H]
  | H : negb _ = true |- _ => apply negb_true_iff in H
  | H : negb _ = false |- _ => apply negb_false_iff in H
  | H : (_ =? _) = true |- _ => apply Z.eqb_eq in H
  | H : (_ =? _) = false |- _ => apply Z.eqb_neq in H
  | H : (_ <? _) = true |- _ => apply Z.ltb_lt in H
  | H : (_ <? _) = false |- _ => apply Z.ltb_ge in H
  | H : (_ <=? _) = true |- _ => apply Z.leb_le in H
  | H : (_ <=? _) = false |- _ => apply Z.leb_gt in H
  | H : bool_decide _ = true |- _ => apply bool_decide_eq_true in H
  | H : bool_decide _ = false |- _ => apply bool_decide_eq_false in H
  end.

(** Split the goal on the boolean test of an [if] it contains. *)
Ltac case_if :=
  match goal with
  | |- context [if ?b then _ else _] => destruct b eqn:?; bool_props
  end.

(** ** Generic lemmas on lists *)

Section lists.
Context {A : Type}.
Implicit Types l : list A.

(** Replace the [length new] elements of [l] from [off] on. *)
Definition splice (off : nat) (new l : list A) : list A :=
  take off l ++ new ++ drop (off + length new) l.

Definition slice (off n : nat) (l : list A) : list A := take n (drop off l).

Lemma length_splice off new l :
  (off + length new ≤ length l)%nat → length (splice off new l) = length l.
Proof. intros. unfold splice. rewrite !length_app, length_take, length_drop. lia. Qed.

Lemma length_slice off n l :
  (off + n ≤ length l)%nat → length (slice off n l) = n.
Proof. intros. unfold slice. rewrite length_take, length_drop. lia. Qed.

Lemma lookup_splice_in off new l i :
  (off ≤ i < off + length new)%nat → (off ≤ length l)%nat →
  splice off new l !! i = new !! (i - off)%nat.
Proof.
  intros. unfold splice.
  rewrite lookup_app_r by (rewrite length_take; lia).
  rewrite length_take, Nat.min_l by lia. rewrite lookup_app_l by lia. done.
Qed.

Lemma lookup_splice_out off new l i :
  (i < off ∨ off + length new ≤ i)%nat → (off + length new ≤ length l)%nat →
  splice off new l !! i = l !! i.
Proof.
  intros [?|?] ?; unfold splice.
  - rewrite lookup_app_l by (rewrite length_take; lia). by rewrite lookup_take_lt.
  - rewrite lookup_app_r by (rewrite length_take; lia).
    rewrite length_take, Nat.min_l by lia.
    rewrite lookup_app_r by lia. rewrite lookup_drop. f_equal. lia.
Qed.

Lemma slice_splice_same off new l :
  (off + length new ≤ length l)%nat →
  slice off (length new) (splice off new l) = new.
Proof.
  intros. unfold slice, splice.
  rewrite drop_app_length' by (rewrite length_take; lia).
  by rewrite take_app_length.
Qed.

Lemma slice_splice_disjoint off off' n new l :
  (off + length new ≤ length l)%nat →
  (off' + n ≤ off ∨ off + length new ≤ off')%nat →
  slice off' n (splice off new l) = slice off' n l.
Proof.
  intros Hl Hd. apply list_eq. intros i. unfold slice.
  destruct (decide (i < n)%nat) as [Hi|Hi].
  - rewrite !lookup_take_lt, !lookup_drop by lia. apply lookup_splice_out; lia.
  - rewrite (lookup_take_ge (drop off' (splice off new l))), lookup_take_ge by lia. done.
Qed.

Lemma splice_slice_id off n l :
  (off + n ≤ length l)%nat → splice off (slice off n l) l = l.
Proof.
  intros. unfold splice. rewrite length_slice by done. unfold slice.
  rewrite <- drop_drop, take_drop, take_drop. done.
Qed.

Lemma splice_splice off new new' l :
  length new = length new' → (off + length new ≤ length l)%nat →
  splice off new' (splice off new l) = splice off new' l.
Proof.
  intros Hn Hl. unfold splice at 1 3. f_equal; [|f_equal].
  - unfold splice. rewrite take_app_length' by (rewrite length_take; lia). done.
  - unfold splice. rewrite <- drop_drop.
    rewrite drop_app_length' by (rewrite length_take; lia).
    rewrite drop_app_length' by lia. by rewrite Hn.
Qed.

Lemma slice_all l : slice 0 (length l) l = l.
Proof. unfold slice. by rewrite drop_0, firstn_all. Qed.

Lemma splice_all new l : length new = length l → splice 0 new l = new.
Proof.
  intros H. unfold splice. simpl. rewrite H, drop_all. by rewrite app_nil_r.
Qed.

Lemma lookup_slice off n l i :
  (i < n)%nat → slice off n l !! i = l !! (off + i)%nat.
Proof. intros. unfold slice. by rewrite lookup_take_lt, lookup_drop. Qed.

Lemma list_insert_total_lookup `{!Inhabited A} l i x :
  (i < length l)%nat → <[i:=x]> l !!! i = x.
Proof. intros. by apply list_lookup_total_insert_eq. Qed.
End lists.

Lemma find_ext_eq {A} (f g : A → bool) (l : list A) :
  (∀ x, f x = g x) → List.find f l = List.find g l.
Proof. intros H. induction l as [|x l IH]; simpl; [done|]. by rewrite H, IH. Qed.

Lemma find_unique {A} (p : A → bool) (l : list A) x :
  x ∈ l → p x = true → (∀ y, y ∈ l → p y = true → y = x) → List.find p l = Some x.
Proof.
  intros Hx Hp Hu. destruct (List.find p l) as [y|] eqn:E.
  - apply find_some in E as [Hy Hpy]. f_equal. apply Hu; [by apply list_elem_of_In|done].
  - apply list_elem_of_In in Hx. pose proof (find_none _ _ E x Hx). congruence.
Qed.

Lemma find_none_iff {A} (p : A → bool) (l : list A) :
  (∀ y, y ∈ l → p y = false) → List.find p l = None.
Proof.
  intros H. destruct (List.find p l) as [y|] eqn:E; [|done].
  apply find_some in E as [Hy Hp]. apply list_elem_of_In in Hy. by rewrite H in Hp.
Qed.

Lemma find_is_Some {A} (p : A → bool) (l : list A) x :
  x ∈ l → p x = true → ∃ y, List.find p l = Some y ∧ y ∈ l ∧ p y = true.
Proof.
  intros Hx Hp. destruct (List.find p l) as [y|] eqn:E.
  - apply find_some in E as [Hy Hpy]. exists y. by rewrite list_elem_of_In.
  - apply list_elem_of_In in Hx. pose proof (find_none _ _ E x Hx). congruence.
Qed.

Lemma splice_nil {A} off (l : list A) : splice off [] l = l.
Proof. unfold splice. simpl. by rewrite Nat.add_0_r, take_drop. Qed.

Lemma splice_cons {A} i (x : A) new l :
  (i + S (length new) ≤ length l)%nat →
  splice (S i) new (<[i:=x]> l) = splice i (x :: new) l.
Proof.
  intros Hl. apply list_eq. intros j.
  destruct (decide (i ≤ j < i + S (length new))%nat) as [Hin|Hout].
  - rewrite (lookup_splice_in i) by (simpl; lia).
    destruct (decide (j = i)) as [->|].
    + rewrite lookup_splice_out by (rewrite ?length_insert; lia).
      rewrite list_lookup_insert_eq by lia. by rewrite Nat.sub_diag.
    + rewrite lookup_splice_in by (rewrite ?length_insert; lia).
      replace (j - i)%nat with (S (j - S i)) by lia. done.
  - rewrite !lookup_splice_out by (rewrite ?length_insert; simpl; lia).
    rewrite list_lookup_insert_ne by lia. done.
Qed.

Lemma Forall_splice {A} (P : A → Prop) off new (l : list A) :
  Forall P l → Forall P new → Forall P (splice off new l).
Proof.
  intros Hl Hnew. unfold splice. apply Forall_app; split; [by apply Forall_take|].
  apply Forall_app; split; [done|by apply Forall_drop].
Qed.

Lemma Forall_slice {A} (P : A → Prop) off n (l : list A) :
  Forall P l → Forall P (slice off n l).
Proof. intros. unfold slice. by apply Forall_take, Forall_drop. Qed.
#[export] Hint Resolve Forall_splice Forall_slice : kernel.

Lemma find_app_none {A} (p : A → bool) l1 l2 :
  (∀ x, x ∈ l1 → p x = false) → List.find p (l1 ++ l2) = List.find p l2.
Proof.
  induction l1 as [|x l1 IH]; intros Hn; simpl; [done|].
  rewrite Hn by by left. apply IH. intros y Hy. apply Hn. by right.
Qed.

(** The state a computation leaves when it returns. *)
Definition exec {S A} (c : M S A) (s : S) : S :=
  match c s with Ok _ s' => s' | _ => s end.

Lemma wp_exec {S A} (c : M S A) (P : S → Prop) s : wp c (λ _, P) s → P (exec c s).
Proof. unfold wp, exec. by destruct (c s). Qed.

(** A computation that panics after a part that returns. *)
Lemma panic_bind {S A B} (c : M S A) (k : A → M S B) (Q : A → S → Prop) msg s :
  wp c Q s → (∀ a s', Q a s' → k a s' = Panic msg) → bind c k s = Panic msg.
Proof. unfold wp, bind. destruct (c s); naive_solver. Qed.
