(* ===== verification/Words.v ===== *)
(** * Machine integers and byte buffers

    The C integer types of types.h as [Z] with their wrap-around written out,
    and the little-endian layout in which structures live in disk blocks and
    in memory. *)

From S2P Require Import Prelude.

(** ** Widths *)

Definition u8 (z : Z) : Z := z mod 2 ^ 8.
Definition u16 (z : Z) : Z := z mod 2 ^ 16.
Definition u32 (z : Z) : Z := z mod 2 ^ 32.
Definition i16 (z : Z) : Z := (z + 2 ^ 15) mod 2 ^ 16 - 2 ^ 15.
Definition i32 (z : Z) : Z := (z + 2 ^ 31) mod 2 ^ 32 - 2 ^ 31.
Definition i8 (z : Z) : Z := (z + 2 ^ 7) mod 2 ^ 8 - 2 ^ 7.

Definition is_byte (z : Z) : Prop := 0 ≤ z < 256.
Definition is_u32 (z : Z) : Prop := 0 ≤ z < 2 ^ 32.
Definition is_i16 (z : Z) : Prop := - 2 ^ 15 ≤ z < 2 ^ 15.
Definition is_i32 (z : Z) : Prop := - 2 ^ 31 ≤ z < 2 ^ 31.

Lemma u32_id z : is_u32 z → u32 z = z.
Proof. apply Z.mod_small. Qed.

Lemma u32_range z : is_u32 (u32 z).
Proof. apply Z.mod_pos_bound. lia. Qed.

Lemma i32_id z : is_i32 z → i32 z = z.
Proof. unfold is_i32, i32. intros. rewrite Z.mod_small; lia. Qed.

Lemma i32_range z : is_i32 (i32 z).
Proof.
  unfold is_i32, i32. pose proof (Z.mod_pos_bound (z + 2 ^ 31) (2 ^ 32)). lia.
Qed.

Lemma i32_u32 z : is_i32 z → i32 (u32 z) = z.
Proof.
  unfold is_i32, i32, u32. intros.
  rewrite Zplus_mod_idemp_l, Z.mod_small; lia.
Qed.

Lemma u32_i32 z : is_u32 z → u32 (i32 z) = z.
Proof.
  unfold is_u32, i32, u32. intros.
  rewrite Zminus_mod_idemp_l. rewrite Z.mod_small; lia.
Qed.

Lemma i16_mod z : is_i16 z → i16 (z mod 2 ^ 16) = z.
Proof.
  unfold is_i16, i16. intros. rewrite Zplus_mod_idemp_l, Z.mod_small; lia.
Qed.

Lemma u32_add_idemp_l a b : u32 (u32 a + b) = u32 (a + b).
Proof. apply Zplus_mod_idemp_l. Qed.

Lemma u32_sub_idemp_l a b : u32 (u32 a - b) = u32 (a - b).
Proof. apply Zminus_mod_idemp_l. Qed.

Lemma u8_range z : is_byte (u8 z).
Proof. apply (Z.mod_pos_bound z 256). lia. Qed.
#[export] Hint Resolve u32_range i32_range u8_range : kernel.

(** ** Little-endian encoding *)

Fixpoint le (n : nat) (z : Z) : list Z :=
  match n with
  | O => []
  | S n' => z mod 256 :: le n' (z / 256)
  end.

Fixpoint le_val (bs : list Z) : Z :=
  match bs with
  | [] => 0
  | b :: bs' => b + 256 * le_val bs'
  end.

Lemma length_le n z : length (le n z) = n.
Proof. revert z; induction n; intros z; simpl; auto. Qed.

Lemma le_bytes n z : Forall is_byte (le n z).
Proof.
  revert z; induction n; intros z; simpl; constructor; auto.
  apply (Z.mod_pos_bound z 256). lia.
Qed.

Lemma le_val_le n z : le_val (le n z) = z mod 256 ^ Z.of_nat n.
Proof.
  revert z; induction n as [|n IH]; intros z; cbn [le le_val].
  - by rewrite Z.mod_1_r.
  - rewrite IH, Nat2Z.inj_succ, Z.pow_succ_r by lia.
    rewrite Z.rem_mul_r by lia. done.
Qed.

Lemma le_le_val bs : Forall is_byte bs → le (length bs) (le_val bs) = bs.
Proof.
  induction 1 as [|b bs Hb _ IH]; [done|]. unfold is_byte in Hb. cbn [le le_val length].
  f_equal.
  - rewrite Z.mul_comm, Z.mod_add, Z.mod_small; lia.
  - rewrite Z.mul_comm, Z.div_add, Z.div_small by lia. by rewrite Z.add_0_l.
Qed.

Lemma le_val_range bs : Forall is_byte bs → 0 ≤ le_val bs < 256 ^ Z.of_nat (length bs).
Proof.
  induction 1 as [|b bs Hb _ IH]; cbn [le_val length]; [simpl; lia|].
  unfold is_byte in Hb. rewrite Nat2Z.inj_succ, Z.pow_succ_r by lia. nia.
Qed.

Lemma le_val_zeros n : le_val (replicate n 0) = 0.
Proof. induction n; simpl; lia. Qed.

Lemma le_zero n : le n 0 = replicate n 0.
Proof. induction n as [|n IH]; [done|]. cbn [le replicate]. by rewrite <- IH. Qed.

(** ** Fields of a buffer *)

Definition get_le (n off : nat) (data : list Z) : Z := le_val (slice off n data).
Definition put_le (n off : nat) (v : Z) (data : list Z) : list Z :=
  splice off (le n v) data.

Definition get_u32 := get_le 4.
Definition put_u32 := put_le 4.
Definition get_i32 (off : nat) (data : list Z) : Z := i32 (get_le 4 off data).
Definition get_u16 := get_le 2.
Definition put_u16 := put_le 2.
Definition get_i16 (off : nat) (data : list Z) : Z := i16 (get_le 2 off data).

Lemma length_put_le n off v data :
  (off + n ≤ length data)%nat → length (put_le n off v data) = length data.
Proof. intros. apply length_splice. by rewrite length_le. Qed.

Lemma get_put_le n off v data :
  (off + n ≤ length data)%nat →
  get_le n off (put_le n off v data) = v mod 256 ^ Z.of_nat n.
Proof.
  intros. unfold get_le, put_le.
  rewrite <- (length_le n v) at 1. rewrite slice_splice_same by (by rewrite length_le).
  apply le_val_le.
Qed.

Lemma get_put_le_disjoint n off n' off' v data :
  (off + n ≤ length data)%nat → (off' + n' ≤ off ∨ off + n ≤ off')%nat →
  get_le n' off' (put_le n off v data) = get_le n' off' data.
Proof.
  intros. unfold get_le, put_le. rewrite slice_splice_disjoint; rewrite ?length_le; done.
Qed.

Lemma get_le_range n off data :
  Forall is_byte data → 0 ≤ get_le n off data < 256 ^ Z.of_nat n.
Proof.
  intros Hb. unfold get_le.
  pose proof (le_val_range (slice off n data) (Forall_slice _ _ _ _ Hb)) as [? Hlt].
  split; [done|]. eapply Z.lt_le_trans; [done|].
  apply Z.pow_le_mono_r; [lia|]. unfold slice. rewrite length_take. lia.
Qed.

Lemma put_le_bytes n off v data :
  Forall is_byte data → Forall is_byte (put_le n off v data).
Proof. intros. apply Forall_splice; [done|apply le_bytes]. Qed.
#[export] Hint Resolve le_bytes put_le_bytes : kernel.

(** ** Bit masks *)

Lemma land_ones_low a n : 0 ≤ n → Z.land a (2 ^ n - 1) = a mod 2 ^ n.
Proof. intros. rewrite <- Z.land_ones by done. by rewrite Z.ones_equiv, <- Z.sub_1_r. Qed.

(** Clearing the [n] low bits: [a & ~(2^n - 1)] in 32-bit arithmetic. *)
Lemma land_lnot_low a n : 0 ≤ n → Z.land a (Z.lnot (2 ^ n - 1)) = a - a mod 2 ^ n.
Proof.
  intros Hn.
  assert (Z.land a (Z.lnot (Z.ones n)) = Z.ldiff a (Z.ones n)) as E.
  { apply Z.bits_inj'. intros i Hi. by rewrite Z.land_spec, Z.lnot_spec, Z.ldiff_spec. }
  replace (2 ^ n - 1) with (Z.ones n) by (rewrite Z.ones_equiv; lia).
  rewrite E, Z.ldiff_ones_r, Z.shiftl_mul_pow2, Z.shiftr_div_pow2 by done.
  pose proof (Z.div_mod a (2 ^ n)). lia.
Qed.
