(* ===== verification/Params.v ===== *)
(** * Constants of param.h, fs.h, mmu.h, memlayout.h, stat.h and fcntl.h; the format of an executable (elf.h) *)

From S2P Require Import Prelude Words.

(** ** param.h *)
Definition NPROC : Z := 64.
Definition KSTACKSIZE : Z := 4096.
Definition NCPU : Z := 8.
Definition NOFILE : Z := 16.
Definition NFILE : Z := 100.
Definition NINODE : Z := 50.
Definition NDEV : Z := 10.
Definition ROOTDEV : Z := 1.
Definition MAXARG : Z := 32.
Definition MAXOPBLOCKS : Z := 10.
Definition LOGSIZE : Z := MAXOPBLOCKS * 3.
Definition NBUF : Z := MAXOPBLOCKS * 3.
Definition FSSIZE : Z := 1000.

(** ** fs.h *)
Definition ROOTINO : Z := 1.
Definition BSIZE : Z := 512.
Definition NDIRECT : Z := 12.
Definition NINDIRECT : Z := BSIZE / 4.
Definition MAXFILE : Z := NDIRECT + NINDIRECT.
Definition sizeof_dinode : Z := 64.
Definition IPB : Z := BSIZE / sizeof_dinode.
Definition BPB : Z := BSIZE * 8.
Definition DIRSIZ : Z := 14.

Record superblock := Superblock {
  sb_size : Z;        (* size of file system image (blocks) *)
  sb_nblocks : Z;     (* number of data blocks *)
  sb_ninodes : Z;     (* number of inodes *)
  sb_nlog : Z;        (* number of log blocks *)
  sb_logstart : Z;    (* first log block *)
  sb_inodestart : Z;  (* first inode block *)
  sb_bmapstart : Z    (* first free-map block *)
}.

Definition IBLOCK (i : Z) (sb : superblock) : Z := u32 (i / IPB + sb_inodestart sb).
Definition BBLOCK (b : Z) (sb : superblock) : Z := u32 (b / BPB + sb_bmapstart sb).

(** ** stat.h *)
Definition T_DIR : Z := 1.
Definition T_FILE : Z := 2.
Definition T_DEV : Z := 3.

(** ** mmu.h *)
Definition PGSIZE : Z := 4096.
Definition NPDENTRIES : Z := 1024.
Definition NPTENTRIES : Z := 1024.
Definition PTXSHIFT : Z := 12.
Definition PDXSHIFT : Z := 22.
Definition PDX (va : Z) : Z := Z.land (Z.shiftr va PDXSHIFT) 1023.
Definition PTX (va : Z) : Z := Z.land (Z.shiftr va PTXSHIFT) 1023.
Definition PGADDR (d t o : Z) : Z :=
  u32 (Z.lor (Z.lor (Z.shiftl d PDXSHIFT) (Z.shiftl t PTXSHIFT)) o).
Definition PGROUNDUP (sz : Z) : Z := Z.land (u32 (sz + PGSIZE - 1)) (Z.lnot (PGSIZE - 1)).
Definition PGROUNDDOWN (a : Z) : Z := Z.land a (Z.lnot (PGSIZE - 1)).
Definition PTE_P : Z := 1.
Definition PTE_W : Z := 2.
Definition PTE_U : Z := 4.
Definition PTE_PS : Z := 128.
Definition PTE_ADDR (pte : Z) : Z := Z.land pte (Z.lnot 4095).
Definition PTE_FLAGS (pte : Z) : Z := Z.land pte 4095.
Definition FL_IF : Z := 512.

(** ** memlayout.h *)
Definition EXTMEM : Z := 0x100000.
Definition PHYSTOP : Z := 0xE000000.
Definition DEVSPACE : Z := 0xFE000000.
Definition KERNBASE : Z := 0x80000000.
Definition KERNLINK : Z := KERNBASE + EXTMEM.
Definition V2P (a : Z) : Z := u32 (a - KERNBASE).
Definition P2V (a : Z) : Z := u32 (a + KERNBASE).

(** Page rounding in closed form. *)

Lemma PGROUNDDOWN_eq a : PGROUNDDOWN a = a - a mod PGSIZE.
Proof. apply (land_lnot_low a 12). lia. Qed.

Lemma PGROUNDUP_eq sz :
  0 ≤ sz ≤ 2 ^ 32 - PGSIZE → PGROUNDUP sz = (sz + PGSIZE - 1) / PGSIZE * PGSIZE.
Proof.
  intros H. unfold PGROUNDUP, PGSIZE in *.
  rewrite u32_id by (unfold is_u32; lia).
  rewrite (land_lnot_low _ 12) by lia.
  change (2 ^ 12) with 4096. pose proof (Z.div_mod (sz + 4096 - 1) 4096). lia.
Qed.

Lemma PDX_eq va : 0 ≤ va → PDX va = (va / 2 ^ 22) mod 1024.
Proof. intros. unfold PDX. rewrite (land_ones_low _ 10), Z.shiftr_div_pow2 by done. done. Qed.

Lemma PTX_eq va : 0 ≤ va → PTX va = (va / 2 ^ 12) mod 1024.
Proof. intros. unfold PTX. rewrite (land_ones_low _ 10), Z.shiftr_div_pow2 by done. done. Qed.

Lemma V2P_P2V a : is_u32 a → V2P (P2V a) = a.
Proof.
  intros. unfold V2P, P2V. rewrite u32_sub_idemp_l.
  replace (a + KERNBASE - KERNBASE) with a by lia. by apply u32_id.
Qed.

Lemma P2V_V2P a : is_u32 a → P2V (V2P a) = a.
Proof.
  intros. unfold V2P, P2V. rewrite u32_add_idemp_l.
  replace (a - KERNBASE + KERNBASE) with a by lia. by apply u32_id.
Qed.

(** ** Segments and traps (mmu.h, traps.h) *)

Definition SEG_UCODE : Z := 3.
Definition SEG_UDATA : Z := 4.
Definition DPL_USER : Z := 3.
Definition T_SYSCALL : Z := 64.
Definition T_IRQ0 : Z := 32.
Definition IRQ_TIMER : Z := 0.
Definition IRQ_KBD : Z := 1.
Definition IRQ_COM1 : Z := 4.
Definition IRQ_IDE : Z := 14.
Definition IRQ_SPURIOUS : Z := 31.

(** ** The modes of [open] (fcntl.h) and the choice of a descriptor (sysfile.c) *)

Definition O_RDONLY : Z := 0.
Definition O_WRONLY : Z := 1.
Definition O_RDWR : Z := 2.
Definition O_CREATE : Z := 512.

(** The loop of [fdalloc]: the first free descriptor, counting from [fd]. *)
Fixpoint free_fd {A} (l : list (option A)) (fd : nat) : option nat :=
  match l with
  | [] => None
  | None :: _ => Some fd
  | Some _ :: l' => free_fd l' (S fd)
  end.

Lemma free_fd_app {A} (l : list (option A)) k fd : Forall is_Some l → free_fd (l ++ None :: k) fd = Some (fd + length l)%nat.
Proof.
  intros Hl. revert fd. induction Hl as [|x l [y ->] Hl IH]; intros fd; simpl; [f_equal; lia|]. rewrite IH. f_equal. lia.
Qed.

(** It is free, and every lower one is in use. *)
Lemma free_fd_spec {A} (l : list (option A)) : ∀ fd n, free_fd l fd = Some n →
  ∃ p k, l = p ++ None :: k ∧ Forall is_Some p ∧ n = (fd + length p)%nat.
Proof.
  induction l as [|[x|] l IH]; intros fd n E; simpl in E; [done| |].
  - destruct (IH _ _ E) as (p & k & -> & Hp & ->). exists (Some x :: p), k. split_and!; [done|by constructor|simpl; lia].
  - injection E as <-. exists [], l. split_and!; [done|done|simpl; lia].
Qed.

(** ** The format of an executable (elf.h)

    The fields of the headers that exec.c and bootmain.c use, at their offsets. *)

Definition ELF_MAGIC : Z := 0x464C457F.
Definition ELF_PROG_LOAD : Z := 1.

Record elfhdr := Elfhdr { elf_magic : Z; elf_entry : Z; elf_phoff : Z; elf_phnum : Z }.
Definition sizeof_elfhdr : Z := 52.
Definition get_elfhdr (b : list Z) : elfhdr := Elfhdr (get_u32 0 b) (get_u32 24 b) (get_u32 28 b) (get_u16 44 b).

Record proghdr := Proghdr { ph_type : Z; ph_off : Z; ph_vaddr : Z; ph_paddr : Z; ph_filesz : Z; ph_memsz : Z }.
Definition sizeof_proghdr : Z := 32.
Definition get_proghdr (b : list Z) : proghdr :=
  Proghdr (get_u32 0 b) (get_u32 4 b) (get_u32 8 b) (get_u32 12 b) (get_u32 16 b) (get_u32 20 b).
