(* ===== verification/CString.v ===== *)
(** * Strings and memory (string.c, ulib.c, the string instructions of x86.h)

    Writable memory is a byte store [mem] over 32-bit addresses, so that the
    overlap of source and destination is visible to [memmove].  Routines that
    only read take a [cptr], the bytes found from a pointer on; routines that
    fill one C array take that array as a list of bytes. *)

From S2P Require Import Prelude Words.

Definition mem := Z → Z.
Definition mset (m : mem) (a v : Z) : mem := λ x, if x =? a then v else m x.

Definition cptr := nat → Z.
Definition shift (p : cptr) (k : nat) : cptr := λ i, p (k + i)%nat.
(** The bytes of an array followed by a NUL for ever (reads past the end of
    an array do not occur in the routines below when the array holds a NUL). *)
Definition ptr_of (l : list Z) : cptr := λ i, nth i l 0.

(** ** x86.h: rep stosb / rep stosl *)

Fixpoint stosb (m : mem) (addr data : Z) (cnt : nat) : mem :=
  match cnt with
  | O => m
  | S c => stosb (mset m addr (u8 data)) (u32 (addr + 1)) data c
  end.

Definition store32 (m : mem) (a v : Z) : mem :=
  mset (mset (mset (mset m a (u8 v)) (u32 (a + 1)) (u8 (Z.shiftr v 8)))
    (u32 (a + 2)) (u8 (Z.shiftr v 16))) (u32 (a + 3)) (u8 (Z.shiftr v 24)).

Definition load32 (m : mem) (a : Z) : Z :=
  m a + 256 * m (u32 (a + 1)) + 65536 * m (u32 (a + 2)) + 16777216 * m (u32 (a + 3)).

Fixpoint stosl (m : mem) (addr data : Z) (cnt : nat) : mem :=
  match cnt with
  | O => m
  | S c => stosl (store32 m addr data) (u32 (addr + 4)) data c
  end.

(** ** string.c *)

Definition memset (m : mem) (dst c n : Z) : mem :=
  if (Z.rem (i32 dst) 4 =? 0) && (n mod 4 =? 0) then
    let c := Z.land c 255 in
    stosl m dst
      (Z.lor (Z.lor (Z.lor (Z.shiftl c 24) (Z.shiftl c 16)) (Z.shiftl c 8)) c)
      (Z.to_nat (n / 4))
  else stosb m dst c (Z.to_nat n).

Fixpoint memcmp (s1 s2 : cptr) (n : nat) : Z :=
  match n with
  | O => 0
  | S n' => if s1 0%nat =? s2 0%nat then memcmp (shift s1 1) (shift s2 1) n'
            else s1 0%nat - s2 0%nat
  end.

Fixpoint copy_back (m : mem) (d s : Z) (n : nat) : mem :=
  match n with
  | O => m
  | S n' => let d' := u32 (d - 1) in let s' := u32 (s - 1) in
            copy_back (mset m d' (m s')) d' s' n'
  end.

Fixpoint copy_fwd (m : mem) (d s : Z) (n : nat) : mem :=
  match n with
  | O => m
  | S n' => copy_fwd (mset m d (m s)) (u32 (d + 1)) (u32 (s + 1)) n'
  end.

Definition memmove (m : mem) (dst src n : Z) : mem :=
  let s := src in
  let d := dst in
  if (s <? d) && (d <? u32 (s + n)) then
    copy_back m (u32 (d + n)) (u32 (s + n)) (Z.to_nat n)
  else copy_fwd m d s (Z.to_nat n).

Definition memcpy (m : mem) (dst src n : Z) : mem := memmove m dst src n.

Fixpoint strncmp (p q : cptr) (n : nat) : Z :=
  match n with
  | O => 0
  | S n' => if negb (p 0%nat =? 0) && (p 0%nat =? q 0%nat)
            then strncmp (shift p 1) (shift q 1) n'
            else u8 (p 0%nat) - u8 (q 0%nat)
  end.

(** First loop of [strncpy]: the array, the next index and what is left of n. *)
Fixpoint strncpy_copy (s : list Z) (i : nat) (t : cptr) (n : nat) : list Z * nat * nat :=
  match n with
  | O => (s, i, O)
  | S n' => let s' := <[i := t 0%nat]> s in
            if t 0%nat =? 0 then (s', S i, n')
            else strncpy_copy s' (S i) (shift t 1) n'
  end.

Fixpoint strncpy_pad (s : list Z) (i : nat) (n : nat) : list Z :=
  match n with
  | O => s
  | S n' => strncpy_pad (<[i := 0]> s) (S i) n'
  end.

Definition strncpy (s : list Z) (t : cptr) (n : Z) : list Z :=
  let '(s', i, rest) := strncpy_copy s 0 t (Z.to_nat n) in strncpy_pad s' i rest.

Fixpoint safestrcpy_copy (s : list Z) (i : nat) (t : cptr) (n : nat) : list Z * nat :=
  match n with
  | O => (s, i)
  | S n' => let s' := <[i := t 0%nat]> s in
            if t 0%nat =? 0 then (s', S i) else safestrcpy_copy s' (S i) (shift t 1) n'
  end.

Definition safestrcpy (s : list Z) (t : cptr) (n : Z) : list Z :=
  if n <=? 0 then s
  else let '(s', i) := safestrcpy_copy s 0 t (Z.to_nat (n - 1)) in <[i := 0]> s'.

(** [for(n = 0; s[n]; n++)], at most [fuel] iterations. *)
Fixpoint strlen_from (fuel : nat) (s : cptr) (n : nat) : option nat :=
  match fuel with
  | O => None
  | S f => if s n =? 0 then Some n else strlen_from f s (S n)
  end.
Definition strlen (fuel : nat) (s : cptr) : option nat := strlen_from fuel s 0.

(** ** ulib.c *)

Fixpoint strcpy_from (fuel : nat) (s : list Z) (i : nat) (t : cptr) : option (list Z) :=
  match fuel with
  | O => None
  | S f => let s' := <[i := t 0%nat]> s in
           if t 0%nat =? 0 then Some s' else strcpy_from f s' (S i) (shift t 1)
  end.
Definition strcpy (fuel : nat) (s : list Z) (t : cptr) : option (list Z) :=
  strcpy_from fuel s 0 t.

Fixpoint strcmp (fuel : nat) (p q : cptr) : option Z :=
  match fuel with
  | O => None
  | S f => if negb (p 0%nat =? 0) && (p 0%nat =? q 0%nat)
           then strcmp f (shift p 1) (shift q 1)
           else Some (u8 (p 0%nat) - u8 (q 0%nat))
  end.

(** The index of the first [c] before the NUL, if there is one. *)
Fixpoint strchr_from (fuel : nat) (s : cptr) (c : Z) (i : nat) : option (option nat) :=
  match fuel with
  | O => None
  | S f => if s i =? 0 then Some None
           else if s i =? c then Some (Some i) else strchr_from f s c (S i)
  end.
Definition strchr (fuel : nat) (s : cptr) (c : Z) : option (option nat) :=
  strchr_from fuel s c 0.

Fixpoint atoi_from (fuel : nat) (s : cptr) (n : Z) : option Z :=
  match fuel with
  | O => None
  | S f => if (48 <=? s 0%nat) && (s 0%nat <=? 57)
           then atoi_from f (shift s 1) (i32 (n * 10 + s 0%nat - 48))
           else Some n
  end.
Definition atoi (fuel : nat) (s : cptr) : option Z := atoi_from fuel s 0.

(** The user library's [memset] and [memmove]. *)
Definition umemset (m : mem) (dst c n : Z) : mem := stosb m dst c (Z.to_nat n).
Definition umemmove (m : mem) (dst src n : Z) : mem := copy_fwd m dst src (Z.to_nat n).

(** ** What a C string means: its bytes before the NUL, at most [n] of them *)

Fixpoint cpre (t : cptr) (n : nat) : list Z :=
  match n with
  | O => []
  | S n' => if t 0%nat =? 0 then [] else t 0%nat :: cpre (shift t 1) n'
  end.

(** ** Lemmas *)

Lemma mset_eq m a v : mset m a v a = v.
Proof. unfold mset. by rewrite Z.eqb_refl. Qed.

Lemma mset_ne m a v x : x ≠ a → mset m a v x = m x.
Proof. unfold mset. intros ?%Z.eqb_neq. by rewrite H. Qed.

(** Effect of the byte loop, pointwise. *)
Lemma stosb_spec m addr data cnt x :
  0 ≤ addr → addr + Z.of_nat cnt ≤ 2 ^ 32 →
  stosb m addr data cnt x =
    if (addr <=? x) && (x <? addr + Z.of_nat cnt) then u8 data else m x.
Proof.
  revert m addr. induction cnt as [|c IH]; intros m addr H0 H1.
  - simpl. repeat case_if; bool_props; auto; lia.
  - cbn [stosb]. destruct c as [|c'].
    + simpl. unfold mset. repeat case_if; bool_props; auto; lia.
    + rewrite u32_id by (unfold is_u32; lia). rewrite IH by lia.
      unfold mset. repeat case_if; bool_props; auto; lia.
Qed.

(** Four copies of a byte in a word, as the aligned path of [memset] builds it. *)
Definition replicated (c : Z) : Z :=
  Z.lor (Z.lor (Z.lor (Z.shiftl c 24) (Z.shiftl c 16)) (Z.shiftl c 8)) c.

Lemma replicated_bytes c k :
  is_byte c → k ∈ [0; 8; 16; 24] → u8 (Z.shiftr (replicated c) k) = c.
Proof.
  intros Hc Hk.
  assert (Hall : forallb (λ c, forallb (λ k, u8 (Z.shiftr (replicated c) k) =? c)
    [0; 8; 16; 24]) (seqZ 0 256) = true) by (vm_compute; reflexivity).
  rewrite forallb_forall in Hall. specialize (Hall c).
  rewrite <- list_elem_of_In, elem_of_seqZ, forallb_forall in Hall.
  specialize (Hall Hc k). rewrite <- list_elem_of_In, Z.eqb_eq in Hall. auto.
Qed.

Lemma store32_replicated m a c x :
  is_byte c → 0 ≤ a → a + 4 ≤ 2 ^ 32 →
  store32 m a (replicated c) x = if (a <=? x) && (x <? a + 4) then c else m x.
Proof.
  intros Hc Ha Hb. unfold store32.
  pose proof (replicated_bytes c 0 Hc ltac:(set_solver)) as H0. rewrite Z.shiftr_0_r in H0.
  rewrite H0, !replicated_bytes by set_solver.
  rewrite !u32_id by (unfold is_u32; lia). unfold mset.
  repeat case_if; bool_props; auto; lia.
Qed.

Lemma stosl_replicated m addr c cnt x :
  is_byte c → 0 ≤ addr → addr + 4 * Z.of_nat cnt ≤ 2 ^ 32 →
  stosl m addr (replicated c) cnt x =
    if (addr <=? x) && (x <? addr + 4 * Z.of_nat cnt) then c else m x.
Proof.
  intros Hc. revert m addr. induction cnt as [|n IH]; intros m addr H0 H1.
  - simpl. repeat case_if; bool_props; auto; lia.
  - cbn [stosl]. destruct n as [|n'].
    + simpl. rewrite store32_replicated by (auto; lia).
      repeat case_if; bool_props; auto; lia.
    + rewrite u32_id by (unfold is_u32; lia). rewrite IH by lia.
      rewrite store32_replicated by (auto; lia).
      repeat case_if; bool_props; auto; lia.
Qed.

Lemma copy_fwd_spec m d s n x :
  0 ≤ d → 0 ≤ s → d + Z.of_nat n ≤ 2 ^ 32 → s + Z.of_nat n ≤ 2 ^ 32 →
  (d ≤ s ∨ s + Z.of_nat n ≤ d) →
  copy_fwd m d s n x =
    if (d <=? x) && (x <? d + Z.of_nat n) then m (s + (x - d)) else m x.
Proof.
  revert m d s. induction n as [|n IH]; intros m d s Hd Hs Hd' Hs' Hov.
  - simpl. repeat case_if; bool_props; auto; lia.
  - cbn [copy_fwd]. destruct n as [|n'].
    + simpl. unfold mset. repeat case_if; bool_props; subst; try lia; auto.
      f_equal; lia.
    + rewrite !u32_id by (unfold is_u32; lia). rewrite IH by lia. unfold mset.
      repeat case_if; bool_props; subst; try lia; auto; f_equal; lia.
Qed.

Lemma copy_back_spec m d s n x :
  s ≤ d → Z.of_nat n ≤ s → d < 2 ^ 32 →
  copy_back m d s n x =
    if (d - Z.of_nat n <=? x) && (x <? d) then m (s - (d - x)) else m x.
Proof.
  revert m d s. induction n as [|n IH]; intros m d s Hsd Hs Hd.
  - simpl. repeat case_if; bool_props; auto; lia.
  - cbn [copy_back]. cbv zeta. rewrite !u32_id by (unfold is_u32; lia).
    rewrite IH by lia. unfold mset.
    repeat case_if; bool_props; subst; try lia; auto; f_equal; lia.
Qed.

Section cpre_lemmas.
Implicit Types t p q : cptr.

Lemma length_cpre t n : (length (cpre t n) ≤ n)%nat.
Proof.
  revert t; induction n as [|n IH]; intros t; simpl; [lia|].
  case_if; simpl; [lia|]. specialize (IH (shift t 1)). lia.
Qed.

Lemma cpre_nonzero t n : Forall (λ c, c ≠ 0) (cpre t n).
Proof.
  revert t; induction n as [|n IH]; intros t; simpl; [constructor|].
  case_if; constructor; auto.
Qed.

Lemma cpre_lookup t n i : (i < length (cpre t n))%nat → cpre t n !! i = Some (t i).
Proof.
  revert t i; induction n as [|n IH]; intros t i Hi; simpl in *; [lia|].
  destruct (t 0%nat =? 0); simpl in *; [lia|].
  destruct i as [|i]; [done|]. simpl. rewrite IH by lia. done.
Qed.

Lemma cpre_end t n : (length (cpre t n) < n)%nat → t (length (cpre t n)) = 0.
Proof.
  revert t; induction n as [|n IH]; intros t Hn; simpl in *; [lia|].
  destruct (t 0%nat =? 0) eqn:E; simpl in *; [by apply Z.eqb_eq|].
  apply (IH (shift t 1)). lia.
Qed.

(** A list without NULs, read back through a pointer to an array it starts. *)
Lemma cpre_ptr_of l rest n :
  Forall (λ c, c ≠ 0) l → (length l ≤ n)%nat →
  (length l = n ∨ rest !! 0%nat = Some 0 ∨ rest = []) →
  cpre (ptr_of (l ++ rest)) n = l.
Proof.
  revert n. induction l as [|c l IH]; intros n Hl Hn Hend.
  - destruct n as [|n]; [done|]. simpl. unfold ptr_of. simpl.
    destruct Hend as [?|[Hr|Hr]]; [done| |].
    + destruct rest; naive_solver.
    + by subst.
  - destruct n as [|n]; [simpl in Hn; lia|]. inversion Hl as [|?? Hc Hl']; subst.
    simpl. unfold ptr_of at 1. simpl. apply Z.eqb_neq in Hc. rewrite Hc.
    unfold ptr_of at 1. simpl. f_equal.
    change (shift (ptr_of (c :: l ++ rest)) 1) with (ptr_of (l ++ rest)).
    apply IH; [done|simpl in Hn; lia|]. destruct Hend as [H|H]; [simpl in H; left; lia|by right].
Qed.
End cpre_lemmas.

Lemma Z_rem_i32_4 a : is_u32 a → (Z.rem (i32 a) 4 =? 0) = (a mod 4 =? 0).
Proof.
  intros Ha. apply eq_bool_prop_intro. rewrite !Is_true_true, !Z.eqb_eq.
  assert (i32 a = a ∨ i32 a = a - 2 ^ 32) as [-> | ->].
  { unfold i32, is_u32 in *. destruct (decide (a < 2 ^ 31)).
    - left. rewrite Z.mod_small; lia.
    - right. replace (a + 2 ^ 31) with (a - 2 ^ 31 + 1 * 2 ^ 32) by lia.
      rewrite Z.mod_add, Z.mod_small; lia. }
  - by rewrite Z.rem_mod_nonneg by (unfold is_u32 in Ha; lia).
  - rewrite Z.rem_divide, <- Z.mod_divide by lia.
    replace (a - 2 ^ 32) with (a + (- 2 ^ 30) * 4) by lia. by rewrite Z.mod_add by lia.
Qed.

Lemma memset_spec m dst c n x :
  0 ≤ dst → 0 ≤ n → dst + n ≤ 2 ^ 32 →
  memset m dst c n x = if (dst <=? x) && (x <? dst + n) then u8 c else m x.
Proof.
  intros Hd Hn Hb. unfold memset. destruct (decide (n = 0)) as [->|Hn0].
  { assert ((dst <=? x) && (x <? dst + 0) = false) as -> by lia.
    by destruct ((Z.rem (i32 dst) 4 =? 0) && (0 mod 4 =? 0)). }
  rewrite Z_rem_i32_4 by (unfold is_u32; lia).
  destruct ((dst mod 4 =? 0) && (n mod 4 =? 0)) eqn:E; bool_props.
  - change 255 with (2 ^ 8 - 1). rewrite land_ones_low by lia. fold (u8 c).
    fold (replicated (u8 c)).
    assert (4 * (n / 4) = n) as Hn4 by (pose proof (Z.div_mod n 4); lia).
    rewrite stosl_replicated; rewrite ?Z2Nat.id by (apply Z.div_pos; lia);
      rewrite ?Hn4; auto using u8_range.
  - rewrite stosb_spec; rewrite ?Z2Nat.id; auto.
  - rewrite stosb_spec; rewrite ?Z2Nat.id; auto.
Qed.

Lemma memmove_spec m dst src n x :
  0 ≤ dst → 0 ≤ src → 0 ≤ n → dst + n < 2 ^ 32 → src + n < 2 ^ 32 →
  memmove m dst src n x =
    if (dst <=? x) && (x <? dst + n) then m (src + (x - dst)) else m x.
Proof.
  intros Hd Hs Hn Hdn Hsn. unfold memmove.
  rewrite !u32_id by (unfold is_u32; lia).
  destruct ((src <? dst) && (dst <? src + n)) eqn:E; bool_props.
  - rewrite copy_back_spec by lia. rewrite Z2Nat.id by lia.
    repeat case_if; bool_props; try lia; auto; f_equal; lia.
  - rewrite copy_fwd_spec; rewrite ?Z2Nat.id by lia; auto; lia.
  - rewrite copy_fwd_spec; rewrite ?Z2Nat.id by lia; auto; lia.
Qed.

Lemma strncmp_zero_iff p q n :
  (∀ i, is_byte (p i)) → (∀ i, is_byte (q i)) →
  strncmp p q n = 0 ↔ cpre p n = cpre q n.
Proof.
  revert p q. induction n as [|n IH]; intros p q Hp Hq; [done|]. cbn [strncmp cpre].
  specialize (IH (shift p 1) (shift q 1) (λ i, Hp _) (λ i, Hq _)).
  assert (∀ z, is_byte z → u8 z = z) as Hu by (intros; by apply Z.mod_small).
  rewrite !Hu by done. clear Hu Hp Hq.
  destruct (p 0%nat =? 0) eqn:E1; cbn [negb andb]; bool_props.
  - rewrite E1. destruct (q 0%nat =? 0) eqn:E2; bool_props.
    + rewrite E2. done.
    + split; [lia|done].
  - destruct (p 0%nat =? q 0%nat) eqn:E2; bool_props.
    + rewrite <- E2. apply Z.eqb_neq in E1 as ->. rewrite IH. split; [by intros ->|].
      by intros [=].
    + split; [lia|]. destruct (q 0%nat =? 0); [done|]. by intros [= ? _].
Qed.

Lemma memcmp_zero_iff p q n :
  memcmp p q n = 0 ↔ ∀ i, (i < n)%nat → p i = q i.
Proof.
  revert p q. induction n as [|n IH]; intros p q; [split; [lia|done]|]. cbn [memcmp].
  destruct (p 0%nat =? q 0%nat) eqn:E; bool_props.
  - rewrite IH. split.
    + intros H [|i] Hi; [done|]. apply (H i). lia.
    + intros H i Hi. apply (H (S i)). lia.
  - split; [lia|]. intros H. specialize (H 0%nat ltac:(lia)). lia.
Qed.

Lemma strncpy_pad_spec s i n :
  (i + n ≤ length s)%nat → strncpy_pad s i n = splice i (replicate n 0) s.
Proof.
  revert s i. induction n as [|n IH]; intros s i Hl; cbn [strncpy_pad replicate].
  - by rewrite splice_nil.
  - rewrite IH by (rewrite length_insert; lia).
    by rewrite splice_cons by (rewrite length_replicate; lia).
Qed.

(** [strncpy] fills exactly [n] bytes: the string, then NULs. *)
Lemma strncpy_spec s t n :
  0 ≤ n → (Z.to_nat n ≤ length s)%nat →
  strncpy s t n =
    splice 0 (cpre t (Z.to_nat n) ++
              replicate (Z.to_nat n - length (cpre t (Z.to_nat n)))%nat 0) s.
Proof.
  intros _ Hn. unfold strncpy. generalize dependent (Z.to_nat n). clear n.
  assert (∀ k s i t, (i + k ≤ length s)%nat →
    (let '(s', j, rest) := strncpy_copy s i t k in strncpy_pad s' j rest) =
    splice i (cpre t k ++ replicate (k - length (cpre t k))%nat 0) s) as Haux;
    [|intros k Hk; by apply Haux].
  clear s t. induction k as [|k IH]; intros s i t Hl; cbn [strncpy_copy cpre].
  - simpl. by rewrite splice_nil.
  - destruct (t 0%nat =? 0) eqn:E; bool_props.
    + rewrite strncpy_pad_spec by (rewrite length_insert; lia).
      rewrite E, splice_cons by (rewrite length_replicate; lia). done.
    + rewrite IH by (rewrite length_insert; lia).
      rewrite splice_cons; [done|]. rewrite length_app, length_replicate.
      pose proof (length_cpre (shift t 1) k). lia.
Qed.

Lemma safestrcpy_copy_spec s i t k :
  (i + k < length s)%nat →
  let '(s', j) := safestrcpy_copy s i t k in
  <[j := 0]> s' =
    if (length (cpre t k) <? k)%nat
    then <[S (i + length (cpre t k)) := 0]> (splice i (cpre t k ++ [0]) s)
    else <[(i + k)%nat := 0]> (splice i (cpre t k) s).
Proof.
  revert s i t. induction k as [|k IH]; intros s i t Hl; cbn [safestrcpy_copy cpre].
  - simpl. by rewrite splice_nil, Nat.add_0_r.
  - destruct (t 0%nat =? 0) eqn:E; bool_props.
    + rewrite E. simpl. rewrite Nat.add_0_r. f_equal.
      rewrite <- splice_cons by (simpl; lia). by rewrite splice_nil.
    + specialize (IH (<[i := t 0%nat]> s) (S i) (shift t 1)).
      rewrite length_insert in IH. specialize (IH ltac:(lia)).
      destruct (safestrcpy_copy _ _ _ _) as [s' j]. rewrite IH. clear IH. cbn [length].
      pose proof (length_cpre (shift t 1) k).
      change (S (length (cpre (shift t 1) k)) <? S k)%nat with (length (cpre (shift t 1) k) <? k)%nat.
      destruct (Nat.ltb_spec (length (cpre (shift t 1) k)) k).
      * rewrite splice_cons by (rewrite length_app; simpl; lia). simpl. f_equal. lia.
      * rewrite splice_cons by lia. f_equal. lia.
Qed.

Lemma safestrcpy_shape s t n :
  0 < n → (Z.to_nat n ≤ length s)%nat →
  let k := Z.to_nat (n - 1) in
  ∃ rest, safestrcpy s t n = cpre t k ++ 0 :: rest ∧
    drop (k - length (cpre t k)) rest = drop (S k) s ∧
    length rest = (length s - S (length (cpre t k)))%nat.
Proof.
  intros Hn Hs. cbv zeta. unfold safestrcpy.
  destruct (n <=? 0) eqn:E; bool_props; [lia|]. clear E.
  assert (Z.to_nat n = S (Z.to_nat (n - 1))) as Hk by lia.
  generalize dependent (Z.to_nat (n - 1)). intros k Hk.
  pose proof (safestrcpy_copy_spec s 0 t k ltac:(lia)) as Hr. simpl in Hr.
  destruct (safestrcpy_copy s 0 t k) as [s' j]. rewrite Hr. clear Hr.
  pose proof (length_cpre t k) as Hlen.
  destruct (Nat.ltb_spec (length (cpre t k)) k).
  - exists (<[0%nat := 0]> (drop (S (length (cpre t k))) s)). split_and!.
    + unfold splice. simpl. rewrite <- app_assoc.
      rewrite insert_app_r_alt by lia.
      replace (S (length (cpre t k)) - length (cpre t k))%nat with 1%nat by lia.
      rewrite length_app, Nat.add_1_r. done.
    + rewrite drop_insert_lt, drop_drop by lia. f_equal. lia.
    + rewrite length_insert, length_drop. lia.
  - assert (length (cpre t k) = k) as Hl by lia. rewrite Hl.
    exists (drop (S k) s). split_and!.
    + unfold splice. simpl. rewrite Hl. rewrite insert_app_r_alt by lia.
      rewrite Hl, Nat.sub_diag.
      rewrite (drop_S s (s !!! k)) by (apply list_lookup_lookup_total_lt; lia). done.
    + by rewrite Nat.sub_diag.
    + rewrite length_drop. lia.
Qed.

(** The [n] bytes stored from address [a] on. *)
Definition read_bytes (m : mem) (a n : Z) : list Z := (λ i, m (a + i)) <$> seqZ 0 n.

Lemma read_bytes_ext m m' a a' n :
  (∀ i, 0 ≤ i < n → m (a + i) = m' (a' + i)) → read_bytes m a n = read_bytes m' a' n.
Proof.
  intros H. apply list_fmap_ext. intros i x [-> Hi]%lookup_seqZ. apply H. lia.
Qed.

(** ** Theorems *)

(** [memmove] copies the [n] bytes that were at [src] to [dst] whether or
    not the two ranges overlap, and changes no other byte of memory. *)
Theorem memmove_correct (m : mem) (dst src n : Z)
  (Hdst : 0 ≤ dst ∧ dst + n < 2 ^ 32) (Hsrc : 0 ≤ src ∧ src + n < 2 ^ 32) (Hn : 0 ≤ n) :
  read_bytes (memmove m dst src n) dst n = read_bytes m src n ∧
  ∀ x, ¬ (dst ≤ x < dst + n) → memmove m dst src n x = m x.
Proof.
  split.
  - apply read_bytes_ext. intros i Hi. rewrite memmove_spec by lia.
    replace (src + (dst + i - dst)) with (src + i) by lia.
    case_if; [done|lia|lia].
  - intros x Hx. rewrite memmove_spec by lia. case_if; [lia|done|done].
Qed.

Example memmove_correct_witness :
  read_bytes (memmove (λ x, x mod 256) 12 10 6) 12 6 = [10; 11; 12; 13; 14; 15].
Proof.
  destruct (memmove_correct (λ x, x mod 256) 12 10 6) as [H _]; [lia|lia|lia|].
  rewrite H. reflexivity.
Defined.

(** the word-at-a-time path of the kernel's [memset] and its byte path
    store the same bytes: the whole range holds the low byte of [c], and
    nothing else changes. *)
Theorem memset_correct (m : mem) (dst c n : Z)
  (Hdst : 0 ≤ dst ∧ dst + n ≤ 2 ^ 32) (Hn : 0 ≤ n) :
  (∀ x, memset m dst c n x = stosb m dst c (Z.to_nat n) x) ∧
  read_bytes (memset m dst c n) dst n = replicate (Z.to_nat n) (u8 c).
Proof.
  split.
  - intros x. rewrite memset_spec, stosb_spec by lia. rewrite Z2Nat.id by lia. done.
  - apply list_eq. intros i. unfold read_bytes. rewrite list_lookup_fmap.
    destruct (decide (i < Z.to_nat n)%nat).
    + rewrite lookup_seqZ_lt by lia. simpl. rewrite memset_spec by lia.
      rewrite lookup_replicate_2 by lia. case_if; [done|lia|lia].
    + rewrite lookup_seqZ_ge by lia. symmetry. apply lookup_replicate_None. lia.
Qed.

Example memset_correct_witness :
  read_bytes (memset (λ _, 7) 4096 261 8) 4096 8 = replicate 8 5.
Proof. destruct (memset_correct (λ _, 7) 4096 261 8) as [_ H]; [lia|lia|exact H]. Defined.

(** [safestrcpy] leaves, in the first [n] bytes of the destination, the
    source string cut to [n - 1] bytes and a terminating NUL, and touches
    nothing past the first [n] bytes. *)
Theorem safestrcpy_correct (s : list Z) (t : cptr) (n : Z)
  (Hn : 0 < n) (Hs : (Z.to_nat n ≤ length s)%nat) :
  let k := Z.to_nat (n - 1) in
  let r := safestrcpy s t n in
  cpre (ptr_of r) (Z.to_nat n) = cpre t k ∧
  r !! length (cpre t k) = Some 0 ∧
  drop (Z.to_nat n) r = drop (Z.to_nat n) s ∧ length r = length s.
Proof.
  cbv zeta. destruct (safestrcpy_shape s t n Hn Hs) as (rest & -> & Hd & Hl).
  set (k := Z.to_nat (n - 1)) in *. pose proof (length_cpre t k) as Hlen.
  assert (Z.to_nat n = S k) as Hk by lia. rewrite Hk in *. split_and!.
  - apply cpre_ptr_of; [apply cpre_nonzero|lia|by right; left].
  - by rewrite lookup_app_r, Nat.sub_diag by lia.
  - rewrite drop_app_ge by lia.
    replace (S k - length (cpre t k))%nat with (S (k - length (cpre t k))) by lia. done.
  - rewrite length_app. simpl. lia.
Qed.

Example safestrcpy_correct_witness :
  let r := safestrcpy (replicate 16 9) (ptr_of [105; 110; 105; 116]) 4 in
  cpre (ptr_of r) 4 = [105; 110; 105].
Proof.
  destruct (safestrcpy_correct (replicate 16 9) (ptr_of [105; 110; 105; 116]) 4)
    as [H _]; [lia|simpl; lia|exact H].
Defined.
