(* ===== verification/Locks.v ===== *)
(** * Locks as one thread of control sees them (spinlock.c, sleeplock.c)

    A kernel path that runs on one CPU sees a spinlock as a flag: [acquire]
    of a lock this CPU already holds panics ("acquire"), [release] of a lock it
    does not hold panics ("release").  What other CPUs do between an acquire
    and the next release is excluded by the lock itself, whose mutual exclusion
    and interrupt nesting are proved in [Spinlock].  A sleep lock is a flag with
    its owner's pid, protected by such a spinlock. *)

From S2P Require Import Prelude.

(** ** Spinlocks *)

Definition spin_acquire : M bool unit := λ locked,
  if locked then Panic "acquire" else Ok tt true.
Definition spin_release : M bool unit := λ locked,
  if locked then Ok tt false else Panic "release".

(** ** Sleep locks *)

Record sleeplock := Sleeplock {
  sl_locked : bool;  (* is the lock held? *)
  sl_lk : bool;      (* spinlock protecting this sleep lock *)
  sl_pid : Z         (* process holding the lock *)
}.

Definition initsleeplock : sleeplock := Sleeplock false false 0.

Definition sl_acquire : M sleeplock unit :=
  zoom sl_lk (λ k l, Sleeplock (sl_locked l) k (sl_pid l)) spin_acquire.
Definition sl_release : M sleeplock unit :=
  zoom sl_lk (λ k l, Sleeplock (sl_locked l) k (sl_pid l)) spin_release.

(** [sleep(lk, &lk->lk)] gives the spinlock up while the process sleeps; the
    loop tests the flag again when it wakes up. *)
Definition acquiresleep (pid : Z) : M sleeplock unit :=
  sl_acquire ;;
  locked ← gets sl_locked;
  if locked then sl_release ;; sleeping
  else
    modify (λ l, Sleeplock true (sl_lk l) pid) ;;
    sl_release.

Definition releasesleep : M sleeplock unit :=
  sl_acquire ;;
  modify (λ l, Sleeplock false (sl_lk l) 0) ;;
  sl_release.

Definition holdingsleep (pid : Z) : M sleeplock bool :=
  sl_acquire ;;
  r ← gets (λ l, sl_locked l && (sl_pid l =? pid));
  sl_release ;;
  ret r.

(** The three operations on a lock whose spinlock is free. *)

Lemma acquiresleep_free pid p :
  acquiresleep pid (Sleeplock false false p) = Ok tt (Sleeplock true false pid).
Proof. done. Qed.

Lemma acquiresleep_held pid p :
  acquiresleep pid (Sleeplock true false p) = Sleep (Sleeplock true false p).
Proof. done. Qed.

Lemma releasesleep_eq b p :
  releasesleep (Sleeplock b false p) = Ok tt (Sleeplock false false 0).
Proof. done. Qed.

Lemma holdingsleep_eq pid b p :
  holdingsleep pid (Sleeplock b false p) = Ok (b && (p =? pid)) (Sleeplock b false p).
Proof. done. Qed.
