(* ===== verification/Ring.v ===== *)
(** * Doubly linked rings

    The pointer surgery bio.c performs on its LRU list, on two link functions
    [nx] and [pv]: what it means for a sequence of nodes to be linked both
    ways, and that unlinking a node and linking one in at the front keep it so. *)

From S2P Require Import Prelude.

Definition fupd (f : nat → nat) (i v : nat) : nat → nat :=
  λ j, if decide (j = i) then v else f j.

Fixpoint linked (nx pv : nat → nat) (l : list nat) : Prop :=
  match l with
  | x :: ((y :: _) as t) => nx x = y ∧ pv y = x ∧ linked nx pv t
  | _ => True
  end.

Lemma fupd_eq f i v : fupd f i v i = v.
Proof. unfold fupd. by rewrite decide_True. Qed.

Lemma fupd_ne f i v j : j ≠ i → fupd f i v j = f j.
Proof. intros. unfold fupd. by rewrite decide_False. Qed.

Section linked.
Implicit Types (nx pv : nat → nat) (l : list nat).

Lemma linked_cons2 nx pv x y l :
  linked nx pv (x :: y :: l) ↔ nx x = y ∧ pv y = x ∧ linked nx pv (y :: l).
Proof. done. Qed.

Lemma linked_app nx pv l1 x l2 :
  linked nx pv (l1 ++ x :: l2) ↔ linked nx pv (l1 ++ [x]) ∧ linked nx pv (x :: l2).
Proof.
  induction l1 as [|y l1 IH]; [simpl; tauto|].
  destruct l1 as [|z l1]; [simpl; tauto|].
  cbn [app] in *. rewrite !linked_cons2. tauto.
Qed.

(** Only the successors of all but the last node and the predecessors of all
    but the first one matter. *)
Lemma linked_frame nx pv nx' pv' l :
  linked nx pv l →
  (∀ x, x ∈ removelast l → nx' x = nx x) →
  (∀ y, y ∈ tail l → pv' y = pv y) →
  linked nx' pv' l.
Proof.
  induction l as [|x [|y l] IH]; [done|done|]. rewrite !linked_cons2.
  intros (Hn & Hp & Hl) Hnx Hpv. simpl in *. split_and!.
  - rewrite Hnx; [done|]. by left.
  - rewrite Hpv; [done|]. by left.
  - apply IH; [done| |].
    + intros z Hz. apply Hnx. by right.
    + intros z Hz. apply Hpv. simpl in Hz. by right.
Qed.

Lemma linked_rev nx pv l : linked nx pv l → linked pv nx (rev l).
Proof.
  induction l as [|x [|y l] IH]; [done|done|]. rewrite linked_cons2.
  intros (Hn & Hp & Hl). simpl in *. rewrite <- app_assoc. simpl.
  apply linked_app. split; [by apply IH|]. simpl. done.
Qed.

(** Linking [b] in between [h] and what follows it. *)
Lemma linked_insert nx pv h b l :
  linked nx pv (h :: l ++ [h]) → NoDup (h :: l) → b ∉ h :: l →
  let f := nx h in
  linked (fupd (fupd nx b f) h b) (fupd (fupd pv b h) f b) (h :: b :: l ++ [h]).
Proof.
  intros Hl Hnd Hb f. apply not_elem_of_cons in Hb as [Hbh Hbl].
  apply NoDup_cons in Hnd as [Hh Hnd].
  assert (∃ y t, l ++ [h] = y :: t) as (y & t & Hyt).
  { destruct l; simpl; eauto. }
  rewrite Hyt in *. rewrite linked_cons2 in Hl. destruct Hl as (Hn & Hp & Hl).
  assert (f = y) as -> by done. rewrite !linked_cons2.
  assert (y ≠ b) as Hyb.
  { intros ->. assert (b ∈ l ++ [h]) as Hin by (rewrite Hyt; by left).
    apply elem_of_app in Hin as [?|?%list_elem_of_singleton]; done. }
  split_and!.
  - by rewrite fupd_eq.
  - rewrite fupd_ne by done. by rewrite fupd_eq.
  - rewrite fupd_ne by done. by rewrite fupd_eq.
  - by rewrite fupd_eq.
  - apply (linked_frame nx pv); [done| |].
    + intros x Hx. assert (x ∈ l) as Hxl.
      { rewrite <- Hyt, removelast_last in Hx. done. }
      rewrite !fupd_ne; [done|by intros ->|by intros ->].
    + intros x Hx. simpl in Hx.
      assert (x ≠ y ∧ x ≠ b) as [??].
      { destruct l as [|y' l']; simpl in Hyt; injection Hyt as <- <-.
        - by apply elem_of_nil in Hx.
        - apply elem_of_app in Hx as [Hx| ->%list_elem_of_singleton].
          + split; intros ->; [by apply NoDup_cons in Hnd as [? _]|].
            apply Hbl. by right.
          + split; [|done]. intros ->. apply Hh. by left. }
      by rewrite !fupd_ne.
Qed.

(** Taking [b] out. *)
Lemma linked_remove nx pv h b l1 l2 :
  linked nx pv (h :: l1 ++ b :: l2 ++ [h]) → NoDup (h :: l1 ++ b :: l2) →
  linked (fupd nx (pv b) (nx b)) (fupd pv (nx b) (pv b)) (h :: (l1 ++ l2) ++ [h]).
Proof.
  intros Hl Hnd.
  destruct (exists_last (l := h :: l1)) as (A & p & HA); [done|].
  assert (∃ q B, l2 ++ [h] = q :: B) as (q & B & HB) by (destruct l2; simpl; eauto).
  assert (h :: l1 ++ b :: l2 ++ [h] = A ++ p :: b :: q :: B) as E1.
  { rewrite HB. change (h :: l1 ++ b :: q :: B) with ((h :: l1) ++ b :: q :: B).
    by rewrite HA, <- app_assoc. }
  assert (h :: (l1 ++ l2) ++ [h] = A ++ p :: q :: B) as E2.
  { rewrite <- app_assoc, HB. change (h :: l1 ++ q :: B) with ((h :: l1) ++ q :: B).
    by rewrite HA, <- app_assoc. }
  rewrite E1 in Hl. rewrite E2. clear E1 E2.
  apply linked_app in Hl as [Hl1 Hl2]. rewrite !linked_cons2 in Hl2.
  destruct Hl2 as (Hnp & Hpb & Hnb & Hpq & Hl2). rewrite Hpb, Hnb.
  assert (NoDup (A ++ p :: b :: l2)) as Hnd'.
  { change (h :: l1 ++ b :: l2) with ((h :: l1) ++ b :: l2) in Hnd.
    rewrite HA, <- app_assoc in Hnd. done. }
  apply NoDup_app in Hnd' as (HndA & HdA & Hndp).
  apply NoDup_cons in Hndp as [Hp Hndb]. apply NoDup_cons in Hndb as [Hb Hnd2].
  assert (Hhl : h ∉ tail (A ++ [p]) ∧ h ∉ l2).
  { rewrite <- HA. simpl. apply NoDup_cons in Hnd as [Hh _]. set_solver. }
  assert (Hdis : ∀ x, x ∈ A ++ [p] → x ∉ l2).
  { intros x Hx Hx2. apply elem_of_app in Hx as [Hx| ->%list_elem_of_singleton].
    - apply (HdA x); set_solver.
    - set_solver. }
  apply linked_app. rewrite linked_cons2. split_and!.
  - apply (linked_frame nx pv); [done| |].
    + intros x Hx. rewrite removelast_last in Hx. apply fupd_ne. intros ->.
      apply (HdA p); [done|by left].
    + intros x Hx. apply fupd_ne. intros ->.
      assert (q ∈ A ++ [p]) as Hq by (destruct A; simpl in *; set_solver).
      destruct l2 as [|y l2]; simpl in HB; injection HB as <- <-.
      * by destruct Hhl.
      * apply (Hdis y); [done|by left].
  - by rewrite fupd_eq.
  - by rewrite fupd_eq.
  - apply (linked_frame nx pv); [done| |].
    + intros x Hx. rewrite <- HB, removelast_last in Hx. apply fupd_ne. intros ->.
      apply (Hdis p); [set_solver|done].
    + intros x Hx. simpl in Hx. apply fupd_ne. intros ->.
      destruct l2 as [|y l2]; simpl in HB; injection HB as <- <-; [set_solver|].
      apply elem_of_app in Hx as [Hx| ->%list_elem_of_singleton].
      * by apply NoDup_cons in Hnd2 as [? _].
      * destruct Hhl as [_ Hh]. apply Hh. by left.
Qed.

(** The neighbours of a node are other nodes of the ring. *)
Lemma linked_neighbours nx pv h b l1 l2 :
  linked nx pv (h :: l1 ++ b :: l2 ++ [h]) → NoDup (h :: l1 ++ b :: l2) →
  nx b ∈ h :: l1 ++ b :: l2 ∧ pv b ∈ h :: l1 ++ b :: l2 ∧ nx b ≠ b.
Proof.
  intros Hl Hnd.
  destruct (exists_last (l := h :: l1)) as (A & p & HA); [done|].
  change (h :: l1 ++ b :: l2 ++ [h]) with ((h :: l1) ++ b :: (l2 ++ [h])) in Hl.
  change (h :: l1 ++ b :: l2) with ((h :: l1) ++ b :: l2) in *.
  assert (Hh : h ∈ (h :: l1)) by by left.
  rewrite HA in *. rewrite <- app_assoc in Hl. cbn [app] in Hl.
  apply linked_app in Hl as [_ Hl]. rewrite linked_cons2 in Hl.
  destruct Hl as (_ & -> & Hl).
  apply NoDup_app in Hnd as (_ & Hd & Hnd2). apply NoDup_cons in Hnd2 as [Hb _].
  assert (p ∈ A ++ [p]) by set_solver.
  destruct l2 as [|y l2]; cbn [app] in Hl; rewrite linked_cons2 in Hl; destruct Hl as (-> & _ & _).
  - split_and!; [set_solver|set_solver|]. intros ->. apply (Hd b); [done|by left].
  - split_and!; [set_solver|set_solver|]. set_solver.
Qed.
End linked.
