(* ===== verification/BufIface.v ===== *)
(** * What the buffer cache promises its clients

    The log and the file system use blocks only through [bread], [bwrite],
    [brelse] and the data and flags of the buffers they hold.  [BufCache] names
    these operations together with the abstract state they act on, and
    [BufCacheLaws] states the contract: a block has one current content
    ([c_view]), buffers marked dirty stay cached until they are written, and
    the disk changes only by [bwrite].  [Bio] implements the class. *)

From S2P Require Import Prelude Words Params.

Abbreviation block := (list Z).

Definition block_ok (d : block) : Prop :=
  length d = Z.to_nat BSIZE ∧ Forall is_byte d.

Class BufCache (S : Type) := {
  (** operations of bio.c *)
  c_bread : Z → Z → M S nat;
  c_bwrite : nat → M S unit;
  c_brelse : nat → M S unit;
  (** fields of a buffer: [b->data], its assignment, [b->blockno], and
      [b->flags |= B_DIRTY] *)
  c_data : S → nat → block;
  c_set_data : nat → block → S → S;
  c_blockno : S → nat → Z;
  c_mark_dirty : nat → S → S;
  (** abstract state *)
  c_inv : S → Prop;
  c_disk : S → list block;             (* contents of the disk *)
  c_writes : S → list (Z * block);     (* disk writes made so far *)
  c_held : S → gmap nat Z;             (* buffers in use and their blocks *)
  c_dirty : S → gset Z;                (* blocks modified but not yet on disk *)
  c_view : S → Z → block               (* current content of a block *)
}.

Section iface.
Context {S : Type} `{BufCache S}.

Definition c_size (s : S) : Z := Z.of_nat (length (c_disk s)).

(** The abstract state of [s], spelled out. *)
Definition state_is (s : S) (disk : list block) (w : list (Z * block))
    (held : gmap nat Z) (dirty : gset Z) (view : Z → block) : Prop :=
  c_inv s ∧ c_disk s = disk ∧ c_writes s = w ∧ c_held s = held ∧
  c_dirty s = dirty ∧ ∀ x, 0 ≤ x → c_view s x = view x.
End iface.

Definition view_upd (v : Z → block) (b : Z) (d : block) : Z → block :=
  λ x, if decide (x = b) then d else v x.

Class BufCacheLaws (S : Type) `{BufCache S} : Prop := {
  (** a buffer can be had when the block is pinned in the cache already, or
      fewer than NBUF buffers are in use or pinned *)
  bread_law s b :
    c_inv s → 0 ≤ b < c_size s → (∀ i, c_held s !! i ≠ Some b) →
    (b ∈ c_dirty s ∨ (size (c_held s) + size (c_dirty s) < Z.to_nat NBUF)%nat) →
    wp (c_bread ROOTDEV b)
      (λ i s', c_held s !! i = None ∧
         state_is s' (c_disk s) (c_writes s) (<[i := b]> (c_held s))
           (c_dirty s) (c_view s)) s;
  brelse_law s i b :
    c_inv s → c_held s !! i = Some b →
    (b ∈ c_dirty s ∨ c_view s b = c_disk s !!! Z.to_nat b) →
    wp (c_brelse i)
      (λ _ s', state_is s' (c_disk s) (c_writes s) (delete i (c_held s))
         (c_dirty s) (c_view s)) s;
  bwrite_law s i b :
    c_inv s → c_held s !! i = Some b →
    wp (c_bwrite i)
      (λ _ s', state_is s' (<[Z.to_nat b := c_view s b]> (c_disk s))
         (c_writes s ++ [(b, c_view s b)]) (c_held s) (c_dirty s ∖ {[b]}) (c_view s)) s;
  set_data_law s i b d :
    c_inv s → c_held s !! i = Some b → block_ok d →
    state_is (c_set_data i d s) (c_disk s) (c_writes s) (c_held s) (c_dirty s)
      (view_upd (c_view s) b d);
  mark_dirty_law s i b :
    c_inv s → c_held s !! i = Some b →
    state_is (c_mark_dirty i s) (c_disk s) (c_writes s) (c_held s)
      ({[b]} ∪ c_dirty s) (c_view s);
  data_law s i b : c_inv s → c_held s !! i = Some b → c_data s i = c_view s b;
  blockno_law s i b : c_inv s → c_held s !! i = Some b → c_blockno s i = b;
  held_range s i b : c_inv s → c_held s !! i = Some b → 0 ≤ b < c_size s;
  clean_law s b :
    c_inv s → b ∉ c_dirty s → (∀ i, c_held s !! i ≠ Some b) →
    c_view s b = c_disk s !!! Z.to_nat b;
  view_ok s b : c_inv s → 0 ≤ b < c_size s → block_ok (c_view s b);
  disk_ok s : c_inv s → Forall block_ok (c_disk s)
}.

Lemma view_upd_eq v b d : view_upd v b d b = d.
Proof. unfold view_upd. by rewrite decide_True. Qed.

Lemma view_upd_ne v b d x : x ≠ b → view_upd v b d x = v x.
Proof. intros. unfold view_upd. by rewrite decide_False. Qed.
