(* ===== verification/Bio.v ===== *)
(** * Buffer cache (bio.c) over the in-memory disk (memide.c)

    The thirty buffers and the list head sit in one array; [prev] and [next]
    are indices into it, so the code's pointer surgery on the LRU list is kept.
    The second half proves that the list stays a ring of all buffers and that
    the scans of [bget] visit it in order.  [BioLaws] builds the contract of
    the cache on top. *)

From S2P Require Import Prelude Words Params Locks Ring BufIface.

(** ** Data *)

Record buf := Buf {
  b_flags : Z;
  b_dev : Z;
  b_blockno : Z;
  b_lock : sleeplock;
  b_refcnt : Z;
  b_prev : nat;        (* LRU cache list *)
  b_next : nat;
  b_data : block
}.

Definition B_VALID : Z := 2.
Definition B_DIRTY : Z := 4.

Definition set_flags v b :=
  Buf v (b_dev b) (b_blockno b) (b_lock b) (b_refcnt b) (b_prev b) (b_next b) (b_data b).
Definition set_key dev blockno b :=
  Buf (b_flags b) dev blockno (b_lock b) (b_refcnt b) (b_prev b) (b_next b) (b_data b).
Definition set_lock v b :=
  Buf (b_flags b) (b_dev b) (b_blockno b) v (b_refcnt b) (b_prev b) (b_next b) (b_data b).
Definition set_refcnt v b :=
  Buf (b_flags b) (b_dev b) (b_blockno b) (b_lock b) v (b_prev b) (b_next b) (b_data b).
Definition set_prev v b :=
  Buf (b_flags b) (b_dev b) (b_blockno b) (b_lock b) (b_refcnt b) v (b_next b) (b_data b).
Definition set_next v b :=
  Buf (b_flags b) (b_dev b) (b_blockno b) (b_lock b) (b_refcnt b) (b_prev b) v (b_data b).
Definition set_data v b :=
  Buf (b_flags b) (b_dev b) (b_blockno b) (b_lock b) (b_refcnt b) (b_prev b) (b_next b) v.

(** Static data is zero when the kernel starts. *)
Definition zero_block : block := replicate (Z.to_nat BSIZE) 0.
Definition zero_buf : buf := Buf 0 0 0 initsleeplock 0 0 0 zero_block.
#[global] Instance buf_inhabited : Inhabited buf := populate zero_buf.

Definition nbuf : nat := Z.to_nat NBUF.
(** [&bcache.head] *)
Definition head : nat := nbuf.
Arguments nbuf : simpl never.
Arguments head : simpl never.
Arguments zero_block : simpl never.

(** The cache, the memory disk, the pid of the running process, and (history,
    not program state) the disk writes made so far, oldest first. *)
Record bst := Bst {
  bc_lock : bool;
  bc_buf : list buf;      (* bcache.buf[0..NBUF-1], then bcache.head *)
  memdisk : list block;
  cur_pid : Z;
  writes : list (Z * block)
}.

Definition with_bc_lock v s := Bst v (bc_buf s) (memdisk s) (cur_pid s) (writes s).
Definition with_bc_buf v s := Bst (bc_lock s) v (memdisk s) (cur_pid s) (writes s).
Definition with_disk d w s := Bst (bc_lock s) (bc_buf s) d (cur_pid s) w.

Definition disksize (s : bst) : Z := Z.of_nat (length (memdisk s)).

Definition bufn (s : bst) (i : nat) : buf := bc_buf s !!! i.
Definition upd (i : nat) (f : buf → buf) (s : bst) : bst :=
  with_bc_buf (<[i := f (bufn s i)]> (bc_buf s)) s.

Definition bc_acquire : M bst unit := zoom bc_lock with_bc_lock spin_acquire.
Definition bc_release : M bst unit := zoom bc_lock with_bc_lock spin_release.
Definition on_lock {A} (i : nat) (c : M sleeplock A) : M bst A :=
  zoom (λ s, b_lock (bufn s i)) (λ l, upd i (set_lock l)) c.
Definition b_acquiresleep (i : nat) : M bst unit :=
  pid ← gets cur_pid; on_lock i (acquiresleep pid).
Definition b_releasesleep (i : nat) : M bst unit := on_lock i releasesleep.
Definition b_holdingsleep (i : nat) : M bst bool :=
  pid ← gets cur_pid; on_lock i (holdingsleep pid).

(** ** memide.c *)

(** Sync buf with disk. *)
Definition iderw (b : nat) : M bst unit :=
  h ← b_holdingsleep b;
  if negb h then panic "iderw: buf not locked" else
  bp ← gets (λ s, bufn s b);
  if Z.land (b_flags bp) (Z.lor B_VALID B_DIRTY) =? B_VALID
  then panic "iderw: nothing to do" else
  if negb (b_dev bp =? 1) then panic "iderw: request not for disk 1" else
  size ← gets disksize;
  if size <=? b_blockno bp then panic "iderw: block out of range" else
  (if negb (Z.land (b_flags bp) B_DIRTY =? 0) then
     modify (upd b (set_flags (Z.land (b_flags bp) (Z.lnot B_DIRTY)))) ;;
     modify (λ s, with_disk (<[Z.to_nat (b_blockno bp) := b_data bp]> (memdisk s))
                            (writes s ++ [(b_blockno bp, b_data bp)]) s)
   else modify (λ s, upd b (set_data (memdisk s !!! Z.to_nat (b_blockno bp))) s)) ;;
  modify (λ s, upd b (set_flags (Z.lor (b_flags (bufn s b)) B_VALID)) s).

(** ** bio.c *)

Definition link_front (b : nat) : M bst unit :=
  modify (λ s, upd b (set_next (b_next (bufn s head))) s) ;;
  modify (upd b (set_prev head)) ;;
  modify (λ s, upd (b_next (bufn s head)) (set_prev b) s) ;;
  modify (upd head (set_next b)).

Definition binit_one (b : Z) : M bst unit :=
  let b := Z.to_nat b in
  modify (λ s, upd b (set_next (b_next (bufn s head))) s) ;;
  modify (upd b (set_prev head)) ;;
  modify (upd b (set_lock initsleeplock)) ;;
  modify (λ s, upd (b_next (bufn s head)) (set_prev b) s) ;;
  modify (upd head (set_next b)).

Definition binit : M bst unit :=
  modify (with_bc_lock false) ;;
  modify (upd head (set_prev head)) ;;
  modify (upd head (set_next head)) ;;
  for_loop nbuf 0 binit_one.

(** Walk the list from [b] along [step] until a buffer satisfies [p] or the
    walk is back at the head. *)
Fixpoint scan (fuel : nat) (step : buf → nat) (p : buf → bool) (bufs : list buf)
    (b : nat) : option nat :=
  match fuel with
  | O => None
  | S f => if bool_decide (b = head) then None
           else if p (bufs !!! b) then Some b
           else scan f step p bufs (step (bufs !!! b))
  end.

Definition is_cached (dev blockno : Z) (b : buf) : bool :=
  (b_dev b =? dev) && (b_blockno b =? blockno).
Definition is_free (b : buf) : bool :=
  (b_refcnt b =? 0) && (Z.land (b_flags b) B_DIRTY =? 0).

Definition bget (dev blockno : Z) : M bst nat :=
  bc_acquire ;;
  hit ← gets (λ s, scan (S nbuf) b_next (is_cached dev blockno) (bc_buf s)
                     (b_next (bufn s head)));
  match hit with
  | Some b =>
      modify (λ s, upd b (set_refcnt (u32 (b_refcnt (bufn s b) + 1))) s) ;;
      bc_release ;;
      b_acquiresleep b ;;
      ret b
  | None =>
      lru ← gets (λ s, scan (S nbuf) b_prev is_free (bc_buf s) (b_prev (bufn s head)));
      match lru with
      | Some b =>
          modify (upd b (set_key dev blockno)) ;;
          modify (upd b (set_flags 0)) ;;
          modify (upd b (set_refcnt 1)) ;;
          bc_release ;;
          b_acquiresleep b ;;
          ret b
      | None => panic "bget: no buffers"
      end
  end.

Definition bread (dev blockno : Z) : M bst nat :=
  b ← bget dev blockno;
  flags ← gets (λ s, b_flags (bufn s b));
  whenM (Z.land flags B_VALID =? 0) (iderw b) ;;
  ret b.

Definition bwrite (b : nat) : M bst unit :=
  h ← b_holdingsleep b;
  if negb h then panic "bwrite" else
  modify (λ s, upd b (set_flags (Z.lor (b_flags (bufn s b)) B_DIRTY)) s) ;;
  iderw b.

Definition brelse (b : nat) : M bst unit :=
  h ← b_holdingsleep b;
  if negb h then panic "brelse" else
  b_releasesleep b ;;
  bc_acquire ;;
  modify (λ s, upd b (set_refcnt (u32 (b_refcnt (bufn s b) - 1))) s) ;;
  refcnt ← gets (λ s, b_refcnt (bufn s b));
  whenM (refcnt =? 0)
    (modify (λ s, upd (b_next (bufn s b)) (set_prev (b_prev (bufn s b))) s) ;;
     modify (λ s, upd (b_prev (bufn s b)) (set_next (b_next (bufn s b))) s) ;;
     link_front b) ;;
  bc_release.

(** The cache at boot, on a given disk. *)
Definition boot (disk : list block) (pid : Z) : bst :=
  Bst false (replicate (S nbuf) zero_buf) disk pid [].

Example bread_twice :
  match (binit ;; i ← bread 1 1; brelse i ;; bread 1 1)
          (boot (replicate 4 zero_block) 7) with
  | Ok i s => bool_decide (i = 0%nat) && (b_refcnt (bufn s i) =? 1)
  | _ => false
  end = true.
Proof. vm_compute. reflexivity. Qed.

(** ** State updates *)

Lemma bufn_upd_eq i f s :
  (i < length (bc_buf s))%nat → bufn (upd i f s) i = f (bufn s i).
Proof. intros. unfold bufn at 1, upd. simpl. by apply list_lookup_total_insert_eq. Qed.

Lemma bufn_upd_ne i j f s : j ≠ i → bufn (upd i f s) j = bufn s j.
Proof. intros. unfold bufn, upd. simpl. by apply list_lookup_total_insert_ne. Qed.

Lemma upd_upd i f g s :
  (i < length (bc_buf s))%nat → upd i f (upd i g s) = upd i (λ b, f (g b)) s.
Proof.
  intros. unfold upd at 1. rewrite bufn_upd_eq by done.
  unfold upd, with_bc_buf. simpl. by rewrite list_insert_insert_eq.
Qed.

Lemma length_upd i f s : length (bc_buf (upd i f s)) = length (bc_buf s).
Proof. unfold upd. simpl. apply length_insert. Qed.

(** Everything in a buffer but its list links. *)
Definition core (b : buf) : Z * Z * Z * sleeplock * Z * block :=
  (b_flags b, b_dev b, b_blockno b, b_lock b, b_refcnt b, b_data b).

(** ** The LRU list *)

Definition nx (s : bst) (i : nat) : nat := b_next (bufn s i).
Definition pv (s : bst) (i : nat) : nat := b_prev (bufn s i).

(** [l] is the LRU list of [s], most recently used first. *)
Definition ring (s : bst) (l : list nat) : Prop :=
  linked (nx s) (pv s) (head :: l ++ [head]) ∧ l ≡ₚ seq 0 nbuf.

Lemma ring_nodup l : l ≡ₚ seq 0 nbuf → NoDup (head :: l).
Proof.
  intros Hl. apply NoDup_cons. rewrite Hl. split; [|apply NoDup_seq].
  rewrite elem_of_seq. unfold head. lia.
Qed.

Lemma ring_elem l i : l ≡ₚ seq 0 nbuf → i ∈ l ↔ (i < nbuf)%nat.
Proof. intros ->. rewrite elem_of_seq. lia. Qed.

Lemma linked_ext nx1 pv1 nx2 pv2 l :
  (∀ i, nx2 i = nx1 i) → (∀ i, pv2 i = pv1 i) → linked nx1 pv1 l → linked nx2 pv2 l.
Proof. intros. eapply linked_frame; eauto. Qed.

Lemma nx_set_next i v s j :
  (i < length (bc_buf s))%nat → nx (upd i (set_next v) s) j = fupd (nx s) i v j.
Proof.
  intros. unfold nx, fupd. case_decide; [subst; by rewrite bufn_upd_eq|by rewrite bufn_upd_ne].
Qed.

Lemma pv_set_prev i v s j :
  (i < length (bc_buf s))%nat → pv (upd i (set_prev v) s) j = fupd (pv s) i v j.
Proof.
  intros. unfold pv, fupd. case_decide; [subst; by rewrite bufn_upd_eq|by rewrite bufn_upd_ne].
Qed.

Lemma upd_field {A} (g : buf → A) i f s j :
  (∀ b, g (f b) = g b) → g (bufn (upd i f s) j) = g (bufn s j).
Proof.
  intros Hg. unfold upd, bufn. simpl.
  rewrite list_lookup_total_insert. case_decide as Hd; [|done].
  destruct Hd as [-> _]. apply Hg.
Qed.

(** Walking the list along [next] (or [prev]) visits its buffers in order. *)
Lemma scan_linked (stp other : buf → nat) p bufs l fuel :
  linked (λ i, stp (bufs !!! i)) (λ i, other (bufs !!! i)) (l ++ [head]) →
  head ∉ l → (length l < fuel)%nat →
  scan fuel stp p bufs (List.hd head l) = List.find (λ i, p (bufs !!! i)) l.
Proof.
  revert fuel. induction l as [|x l IH]; intros fuel Hl Hh Hf;
    (destruct fuel as [|fuel]; [simpl in Hf; lia|]); cbn [scan List.find List.hd].
  - by rewrite bool_decide_true.
  - apply not_elem_of_cons in Hh as [Hx Hh].
    rewrite bool_decide_false by done. destruct (p (bufs !!! x)); [done|].
    destruct l as [|y l].
    + simpl in Hl. destruct Hl as (-> & _ & _). apply (IH fuel); simpl in *; auto; lia.
    + simpl in Hl. destruct Hl as (-> & _ & Hl). apply (IH fuel); simpl in *; auto; lia.
Qed.

Lemma ring_hd s l : ring s l → nx s head = List.hd head l ∧ pv s head = List.hd head (rev l).
Proof.
  intros [Hl _]. split.
  - destruct l; simpl in *; tauto.
  - apply linked_rev in Hl. simpl in Hl. rewrite rev_app_distr in Hl. simpl in Hl.
    destruct (rev l); simpl in *; tauto.
Qed.

Lemma scan_next_ring s l p :
  ring s l →
  scan (S nbuf) b_next p (bc_buf s) (b_next (bufn s head)) = List.find (λ i, p (bufn s i)) l.
Proof.
  intros Hr. pose proof (ring_hd _ _ Hr) as [Hn _]. unfold nx in Hn. rewrite Hn.
  destruct Hr as [Hl Hp]. pose proof (ring_nodup _ Hp) as [Hh _]%NoDup_cons.
  apply (scan_linked b_next b_prev); [|done|].
  - destruct l; [done|]. simpl in Hl. tauto.
  - rewrite (Permutation_length Hp), length_seq. lia.
Qed.

Lemma scan_prev_ring s l p :
  ring s l →
  scan (S nbuf) b_prev p (bc_buf s) (b_prev (bufn s head)) = List.find (λ i, p (bufn s i)) (rev l).
Proof.
  intros Hr. pose proof (ring_hd _ _ Hr) as [_ Hn]. unfold pv in Hn. rewrite Hn.
  destruct Hr as [Hl Hp]. pose proof (ring_nodup _ Hp) as [Hh _]%NoDup_cons.
  apply (scan_linked b_prev b_next); [|by rewrite list_elem_of_In, <- in_rev, <- list_elem_of_In|].
  - apply linked_rev in Hl. simpl in Hl. rewrite rev_app_distr in Hl. simpl in Hl.
    destruct (rev l); [done|]. simpl in Hl. simpl. tauto.
  - rewrite length_rev, (Permutation_length Hp), length_seq. lia.
Qed.

(** The two states differ at most in the list links of their buffers. *)
Definition relinked (s s' : bst) : Prop :=
  (∀ i, core (bufn s' i) = core (bufn s i)) ∧
  length (bc_buf s') = length (bc_buf s) ∧
  bc_lock s' = bc_lock s ∧ memdisk s' = memdisk s ∧
  cur_pid s' = cur_pid s ∧ writes s' = writes s.

Lemma relinked_refl s : relinked s s.
Proof. done. Qed.

Lemma relinked_trans s1 s2 s3 : relinked s1 s2 → relinked s2 s3 → relinked s1 s3.
Proof.
  intros (C1 & L1 & ? & ? & ? & ?) (C2 & L2 & ? & ? & ? & ?).
  split_and!; congruence.
Qed.

Lemma relinked_upd s i f : (∀ b, core (f b) = core b) → relinked s (upd i f s).
Proof.
  intros Hf. split_and!; try done; intros; first [by apply upd_field|apply length_upd].
Qed.

Lemma link_front_linked s b l :
  linked (nx s) (pv s) (head :: l ++ [head]) → NoDup (head :: l) → b ∉ head :: l →
  (b < length (bc_buf s))%nat → (∀ x, x ∈ head :: l → (x < length (bc_buf s))%nat) →
  wp (link_front b)
    (λ _ s', linked (nx s') (pv s') (head :: b :: l ++ [head]) ∧ relinked s s') s.
Proof.
  intros Hl Hnd Hb Hblt Hlt.
  assert (Hf : nx s head ∈ head :: l).
  { destruct l as [|y l]; simpl in Hl; destruct Hl as (-> & _ & _); [by left|by right; left]. }
  assert (Hbh : b ≠ head) by set_solver.
  unfold link_front. wp_steps.
  set (s1 := upd b _ s). set (s2 := upd b _ s1). set (s3 := upd _ _ s2).
  assert (L1 : length (bc_buf s1) = length (bc_buf s)) by apply length_upd.
  assert (L2 : length (bc_buf s2) = length (bc_buf s)) by (rewrite <- L1; apply length_upd).
  assert (L3 : length (bc_buf s3) = length (bc_buf s)) by (rewrite <- L2; apply length_upd).
  assert (Hn1 : ∀ j, nx s1 j = fupd (nx s) b (nx s head) j) by (intros; by apply nx_set_next).
  assert (Hn2 : ∀ j, nx s2 j = nx s1 j) by (intros; by apply (upd_field b_next)).
  assert (Hh : nx s2 head = nx s head) by (rewrite Hn2, Hn1; by apply fupd_ne).
  assert (Hn3 : ∀ j, nx s3 j = nx s1 j).
  { intros. rewrite <- Hn2. by apply (upd_field b_next). }
  assert (Hp2 : ∀ j, pv s2 j = fupd (pv s) b head j).
  { intros. unfold s2. rewrite pv_set_prev by lia. unfold fupd. case_decide; [done|].
    by apply (upd_field b_prev). }
  assert (Hp3 : ∀ j, pv s3 j = fupd (pv s2) (nx s head) b j).
  { intros. unfold s3. change (b_next (bufn s2 head)) with (nx s2 head). rewrite Hh.
    apply pv_set_prev. rewrite L2. by apply Hlt. }
  split.
  - eapply linked_ext; [| |exact (linked_insert _ _ _ _ _ Hl Hnd Hb)].
    + intros i. rewrite nx_set_next by (rewrite L3; apply Hlt; by left).
      unfold fupd at 1 2. case_decide; [done|]. by rewrite Hn3, Hn1.
    + intros i. transitivity (pv s3 i); [by apply (upd_field b_prev)|].
      rewrite Hp3. unfold fupd at 1 2. case_decide; [done|]. apply Hp2.
  - apply (relinked_trans _ s1); [by apply relinked_upd|].
    apply (relinked_trans _ s2); [by apply relinked_upd|].
    apply (relinked_trans _ s3); by apply relinked_upd.
Qed.

Lemma ring_bound s l x :
  length (bc_buf s) = S nbuf → l ≡ₚ seq 0 nbuf → x ∈ head :: l → (x < length (bc_buf s))%nat.
Proof.
  intros Hlen Hp [-> |Hx]%elem_of_cons; rewrite Hlen; [unfold head; lia|].
  apply (ring_elem l) in Hx; [lia|done].
Qed.

(** The list surgery of [brelse]: the buffer moves to the front. *)
Lemma move_front_ring s b l1 l2 :
  ring s (l1 ++ b :: l2) → length (bc_buf s) = S nbuf →
  wp (modify (λ s, upd (b_next (bufn s b)) (set_prev (b_prev (bufn s b))) s) ;;
      modify (λ s, upd (b_prev (bufn s b)) (set_next (b_next (bufn s b))) s) ;;
      link_front b)
    (λ _ s', ring s' (b :: l1 ++ l2) ∧ relinked s s') s.
Proof.
  intros [Hl Hp] Hlen. pose proof (ring_nodup _ Hp) as Hnd.
  assert (Hperm : b :: l1 ++ l2 ≡ₚ seq 0 nbuf) by (rewrite <- Hp; apply Permutation_middle).
  pose proof (ring_nodup _ Hperm) as Hnd'.
  rewrite <- app_assoc in Hl. cbn [app] in Hl.
  destruct (linked_neighbours _ _ _ _ _ _ Hl Hnd) as (Hnb & Hpb & Hnbb).
  pose proof (linked_remove _ _ _ _ _ _ Hl Hnd) as Hrem.
  pose proof (ring_bound _ _ _ Hlen Hp Hnb) as Hnr.
  pose proof (ring_bound _ _ _ Hlen Hp Hpb) as Hpr.
  wp_steps. set (s1 := upd _ _ s). set (s2 := upd _ _ s1).
  assert (L1 : length (bc_buf s1) = length (bc_buf s)) by apply length_upd.
  assert (Hn1 : ∀ j, nx s1 j = nx s j) by (intros; by apply (upd_field b_next)).
  assert (Hp1 : ∀ j, pv s1 j = fupd (pv s) (nx s b) (pv s b) j) by (intros; by apply pv_set_prev).
  assert (Hpb1 : pv s1 b = pv s b) by (rewrite Hp1; apply fupd_ne; auto).
  assert (Hr2 : relinked s s2).
  { apply (relinked_trans _ s1); by apply relinked_upd. }
  eapply wp_mono; [apply (link_front_linked s2 b (l1 ++ l2))|].
  - eapply linked_ext; [| |exact Hrem].
    + intros i. unfold s2. change (b_prev (bufn s1 b)) with (pv s1 b).
      change (b_next (bufn s1 b)) with (nx s1 b). rewrite Hpb1, Hn1.
      rewrite nx_set_next by lia. unfold fupd. case_decide; auto.
    + intros i. transitivity (pv s1 i); [by apply (upd_field b_prev)|]. apply Hp1.
  - apply NoDup_cons in Hnd' as [Hh Hnd'']. apply NoDup_cons in Hnd'' as [_ Hnd''].
    apply NoDup_cons. split; [set_solver|done].
  - apply NoDup_cons in Hnd' as [Hh Hnd'']. apply NoDup_cons in Hnd'' as [Hb _]. set_solver.
  - destruct Hr2 as (_ & -> & _). rewrite Hlen. apply Nat.lt_lt_succ_r.
    apply (ring_elem _ _ Hperm). by left.
  - intros x Hx. destruct Hr2 as (_ & -> & _). eapply ring_bound; [done|exact Hperm|set_solver].
  - intros _ s' [Hl' Hr']. split; [split; [done|done]|]. by eapply relinked_trans.
Qed.
