(* ===== verification/BioLaws.v ===== *)
(** * The buffer cache keeps its contract

    The invariant of the cache, the abstract state it represents (which block
    is in use, which is dirty, what every block currently contains), and the
    proof that the operations of [Bio] satisfy [BufCacheLaws]. *)

From S2P Require Import Prelude Words Params Locks Ring BufIface Bio.

(** ** Invariant *)

Definition is_dirty (b : buf) : bool := negb (Z.land (b_flags b) B_DIRTY =? 0).

(** A buffer is idle, or in use by the running process; one that has a block
    of the disk is valid, and when it is idle and clean it equals the disk. *)
Record buf_ok (disk : list block) (pid : Z) (b : buf) : Prop := {
  bo_data : block_ok (b_data b);
  bo_lk : sl_lk (b_lock b) = false;
  bo_use : (b_refcnt b = 0 ∧ sl_locked (b_lock b) = false) ∨
           (b_refcnt b = 1 ∧ sl_locked (b_lock b) = true ∧ sl_pid (b_lock b) = pid);
  bo_dev : (b_dev b = 1 ∧ 0 ≤ b_blockno b < Z.of_nat (length disk) ∧
              (b_flags b = B_VALID ∨ b_flags b = Z.lor B_VALID B_DIRTY)) ∨
           (b_dev b = 0 ∧ b_refcnt b = 0 ∧ b_flags b = 0);
  bo_clean : b_dev b = 1 → b_refcnt b = 0 → b_flags b = B_VALID →
             b_data b = disk !!! Z.to_nat (b_blockno b)
}.

Record bio_inv (s : bst) : Prop := {
  bi_lock : bc_lock s = false;
  bi_len : length (bc_buf s) = S nbuf;
  bi_ring : ∃ l, ring s l;
  bi_disk : Forall block_ok (memdisk s);
  bi_buf : ∀ i, (i < nbuf)%nat → buf_ok (memdisk s) (cur_pid s) (bufn s i);
  bi_uniq : ∀ i j, (i < nbuf)%nat → (j < nbuf)%nat →
    b_dev (bufn s i) = 1 → b_dev (bufn s j) = 1 →
    b_blockno (bufn s i) = b_blockno (bufn s j) → i = j
}.

(** ** Abstract state *)

Definition cached (s : bst) (b : Z) : option nat :=
  List.find (λ i, is_cached 1 b (bufn s i)) (seq 0 nbuf).
Definition view (s : bst) (b : Z) : block :=
  match cached s b with
  | Some i => b_data (bufn s i)
  | None => memdisk s !!! Z.to_nat b
  end.
Definition held (s : bst) : gmap nat Z :=
  list_to_map ((λ i, (i, b_blockno (bufn s i))) <$>
    List.filter (λ i, negb (b_refcnt (bufn s i) =? 0)) (seq 0 nbuf)).
Definition dirty (s : bst) : gset Z :=
  list_to_set ((λ i, b_blockno (bufn s i)) <$>
    List.filter (λ i, is_dirty (bufn s i)) (seq 0 nbuf)).

Lemma held_lookup s i b :
  held s !! i = Some b ↔
  (i < nbuf)%nat ∧ b_refcnt (bufn s i) ≠ 0 ∧ b_blockno (bufn s i) = b.
Proof.
  unfold held. rewrite <- elem_of_list_to_map.
  - rewrite list_elem_of_fmap. setoid_rewrite list_elem_of_In. setoid_rewrite filter_In.
    setoid_rewrite <- list_elem_of_In. setoid_rewrite elem_of_seq.
    setoid_rewrite negb_true_iff. setoid_rewrite Z.eqb_neq.
    split; [intros (j & [= -> ->] & ? & ?); split_and!; auto; lia|].
    intros (? & ? & <-). exists i. split_and!; auto; lia.
  - rewrite <- list_fmap_compose. rewrite (list_fmap_ext _ id) by done. rewrite list_fmap_id.
    apply NoDup_ListNoDup, List.NoDup_filter, NoDup_ListNoDup, NoDup_seq.
Qed.

Lemma held_None s i :
  held s !! i = None ↔ ((i < nbuf)%nat → b_refcnt (bufn s i) = 0).
Proof.
  destruct (held s !! i) as [b|] eqn:E.
  - apply held_lookup in E. split; [done|]. intros. naive_solver.
  - split; [|done]. intros _ Hi. destruct (decide (b_refcnt (bufn s i) = 0)); [done|].
    assert (held s !! i = Some (b_blockno (bufn s i))) by by apply held_lookup. congruence.
Qed.

Lemma elem_of_dirty s x :
  x ∈ dirty s ↔ ∃ i, (i < nbuf)%nat ∧ is_dirty (bufn s i) = true ∧ b_blockno (bufn s i) = x.
Proof.
  unfold dirty. rewrite elem_of_list_to_set, list_elem_of_fmap.
  setoid_rewrite list_elem_of_In. setoid_rewrite filter_In.
  setoid_rewrite <- list_elem_of_In. setoid_rewrite elem_of_seq.
  split; intros (i & H); exists i; split_and!; destruct_and?; auto; lia.
Qed.

Lemma view_cached s i :
  bio_inv s → (i < nbuf)%nat → b_dev (bufn s i) = 1 →
  view s (b_blockno (bufn s i)) = b_data (bufn s i).
Proof.
  intros Hinv Hi Hd. unfold view, cached.
  destruct (List.find _ _) as [j|] eqn:E.
  - apply find_some in E as [Hj Hc]. apply list_elem_of_In, elem_of_seq in Hj.
    unfold is_cached in Hc. bool_props.
    by rewrite (bi_uniq s Hinv i j) by (auto; lia).
  - pose proof (find_none _ _ E i) as Hn. unfold is_cached in Hn.
    rewrite <- list_elem_of_In, elem_of_seq, Hd, !Z.eqb_refl in Hn.
    discriminate Hn. lia.
Qed.

Lemma view_uncached s b :
  (∀ i, (i < nbuf)%nat → b_dev (bufn s i) = 1 → b_blockno (bufn s i) ≠ b) →
  view s b = memdisk s !!! Z.to_nat b.
Proof.
  intros Hn. unfold view, cached. destruct (List.find _ _) as [j|] eqn:E; [|done].
  apply find_some in E as [Hj Hc]. apply list_elem_of_In, elem_of_seq in Hj.
  unfold is_cached in Hc. bool_props. by destruct (Hn j ltac:(lia)).
Qed.

(** A block is cached by at most one buffer. *)
Lemma cached_cases s b :
  bio_inv s →
  (∃ i, (i < nbuf)%nat ∧ b_dev (bufn s i) = 1 ∧ b_blockno (bufn s i) = b) ∨
  (∀ i, (i < nbuf)%nat → b_dev (bufn s i) = 1 → b_blockno (bufn s i) ≠ b).
Proof.
  intros _. destruct (cached s b) as [i|] eqn:E; unfold cached in E.
  - left. exists i. apply find_some in E as [Hj Hc].
    apply list_elem_of_In, elem_of_seq in Hj. unfold is_cached in Hc. bool_props.
    split_and!; auto; lia.
  - right. intros i Hi Hd Hb. pose proof (find_none _ _ E i) as Hn. unfold is_cached in Hn.
    rewrite <- list_elem_of_In, elem_of_seq, Hd, Hb, !Z.eqb_refl in Hn.
    discriminate Hn. lia.
Qed.

(** ** Invariant and abstract state under updates *)

Definition keeps_links (f : buf → buf) : Prop :=
  ∀ b, b_prev (f b) = b_prev b ∧ b_next (f b) = b_next b.

Lemma ring_upd s i f l : keeps_links f → ring s l → ring (upd i f s) l.
Proof.
  intros Hf [Hl Hp]. split; [|done]. eapply linked_ext; [| |exact Hl].
  - intros j. apply (upd_field b_next). intros b. apply Hf.
  - intros j. apply (upd_field b_prev). intros b. apply Hf.
Qed.

Lemma bufn_upd s i f j :
  (i < length (bc_buf s))%nat →
  bufn (upd i f s) j = if decide (j = i) then f (bufn s i) else bufn s j.
Proof.
  intros. case_decide; [subst; by rewrite bufn_upd_eq|by rewrite bufn_upd_ne].
Qed.

Lemma bio_inv_upd s i f :
  bio_inv s → (i < nbuf)%nat → keeps_links f →
  buf_ok (memdisk s) (cur_pid s) (f (bufn s i)) →
  (b_dev (f (bufn s i)) = 1 → ∀ j, (j < nbuf)%nat → j ≠ i → b_dev (bufn s j) = 1 →
     b_blockno (bufn s j) ≠ b_blockno (f (bufn s i))) →
  bio_inv (upd i f s).
Proof.
  intros [Hlk Hlen [l Hr] Hdisk Hbuf Huniq] Hi Hf Hok Hu.
  assert (Hil : (i < length (bc_buf s))%nat) by lia.
  split; [done|by rewrite length_upd|exists l; by apply ring_upd|done| |].
  - intros j Hj. rewrite bufn_upd by done. simpl. case_decide; [done|by apply Hbuf].
  - intros j k Hj Hk. rewrite !bufn_upd by done. intros Hd1 Hd2 Heq.
    destruct (decide (j = i)) as [->|], (decide (k = i)) as [->|].
    + done.
    + by destruct (Hu Hd1 k).
    + by destruct (Hu Hd2 j).
    + by apply Huniq.
Qed.

(** Only the cores of the buffers matter. *)
Lemma buf_ok_core d p b b' : core b' = core b → buf_ok d p b → buf_ok d p b'.
Proof.
  unfold core. intros [= E1 E2 E3 E4 E5 E6] [H1 H2 H3 H4 H5].
  split; rewrite ?E1, ?E2, ?E3, ?E4, ?E5, ?E6; auto.
Qed.

Lemma core_fields b b' :
  core b' = core b →
  b_flags b' = b_flags b ∧ b_dev b' = b_dev b ∧ b_blockno b' = b_blockno b ∧
  b_refcnt b' = b_refcnt b ∧ b_data b' = b_data b.
Proof. by intros [=]. Qed.

Lemma bio_inv_relinked s s' l :
  bio_inv s → relinked s s' → ring s' l → bio_inv s'.
Proof.
  intros [Hlk Hlen _ Hdisk Hbuf Huniq] (Hc & Hl & Hk & Hd & Hp & Hw) Hr.
  split; [congruence|congruence|by exists l|congruence| |].
  - intros i Hi. rewrite Hd, Hp. eapply buf_ok_core; eauto.
  - intros i j Hi Hj. destruct (core_fields _ _ (Hc i)) as (_ & -> & -> & _).
    destruct (core_fields _ _ (Hc j)) as (_ & -> & -> & _). by apply Huniq.
Qed.

Lemma held_relinked s s' : relinked s s' → held s' = held s.
Proof.
  intros (Hc & _). apply map_eq. intros i. apply option_eq. intros b.
  rewrite !held_lookup. by destruct (core_fields _ _ (Hc i)) as (_ & _ & -> & -> & _).
Qed.

Lemma dirty_relinked s s' : relinked s s' → dirty s' = dirty s.
Proof.
  intros (Hc & _). apply set_eq. intros x. rewrite !elem_of_dirty. unfold is_dirty.
  f_equiv. intros i. by destruct (core_fields _ _ (Hc i)) as (-> & _ & -> & _).
Qed.

Lemma view_relinked s s' x : relinked s s' → view s' x = view s x.
Proof.
  intros (Hc & _ & _ & Hd & _). unfold view, cached. rewrite Hd.
  rewrite (find_ext_eq (λ i, is_cached 1 x (bufn s' i)) (λ i, is_cached 1 x (bufn s i))).
  - destruct (List.find _ _) as [i|]; [|done].
    by destruct (core_fields _ _ (Hc i)) as (_ & _ & _ & _ & ->).
  - intros i. unfold is_cached. by destruct (core_fields _ _ (Hc i)) as (_ & -> & -> & _).
Qed.

Lemma held_upd s i f :
  (i < nbuf)%nat → (i < length (bc_buf s))%nat →
  held (upd i f s) =
    if b_refcnt (f (bufn s i)) =? 0 then delete i (held s)
    else <[i := b_blockno (f (bufn s i))]> (held s).
Proof.
  intros Hi Hl. apply map_eq. intros j. apply option_eq. intros b.
  rewrite held_lookup, bufn_upd by done.
  destruct (b_refcnt (f (bufn s i)) =? 0) eqn:E; bool_props; case_decide as Hj; subst.
  - rewrite lookup_delete_eq. naive_solver.
  - rewrite lookup_delete_ne by done. by rewrite held_lookup.
  - rewrite lookup_insert_eq. naive_solver.
  - rewrite lookup_insert_ne by done. by rewrite held_lookup.
Qed.

(** Updates that keep which block the buffer has. *)
Definition keeps_key (f : buf → buf) : Prop :=
  ∀ b, b_dev (f b) = b_dev b ∧ b_blockno (f b) = b_blockno b.

Lemma view_upd_key s i f x :
  bio_inv s → bio_inv (upd i f s) → (i < nbuf)%nat → keeps_key f → b_dev (bufn s i) = 1 →
  view (upd i f s) x =
    view_upd (view s) (b_blockno (bufn s i)) (b_data (f (bufn s i))) x.
Proof.
  intros Hinv Hinv' Hi Hf Hd. assert (Hil : (i < length (bc_buf s))%nat).
  { rewrite (bi_len s Hinv). lia. }
  unfold view_upd. case_decide as Hx.
  - subst. destruct (Hf (bufn s i)) as [Hd' Hb'].
    rewrite <- Hb', <- (bufn_upd_eq i f s) by done.
    rewrite view_cached; [done|done|done|]. by rewrite bufn_upd_eq, Hd'.
  - destruct (cached_cases s x Hinv) as [(j & Hj & Hjd & Hjb)|Hn].
    + assert (j ≠ i) by (intros ->; done).
      rewrite <- Hjb. rewrite (view_cached s) by done.
      rewrite <- (bufn_upd_ne i j f s) at 1 2 by done.
      apply view_cached; [done|done|]. by rewrite bufn_upd_ne.
    + rewrite (view_uncached s), (view_uncached (upd i f s)); [done| |done]. intros j Hj.
      rewrite bufn_upd by done. case_decide; [subst|by apply Hn].
      destruct (Hf (bufn s i)) as [-> ->]. done.
Qed.

(** ** The operations *)

Lemma wp_bc_acquire (Q : unit → bst → Prop) s :
  bc_lock s = false → Q tt (with_bc_lock true s) → wp bc_acquire Q s.
Proof. intros Hl HQ. unfold wp, bc_acquire, zoom, spin_acquire. by rewrite Hl. Qed.

Lemma wp_bc_release (Q : unit → bst → Prop) s :
  bc_lock s = true → Q tt (with_bc_lock false s) → wp bc_release Q s.
Proof. intros Hl HQ. unfold wp, bc_release, zoom, spin_release. by rewrite Hl. Qed.

Lemma wp_acquiresleep (Q : unit → bst → Prop) s i p :
  b_lock (bufn s i) = Sleeplock false false p →
  Q tt (upd i (set_lock (Sleeplock true false (cur_pid s))) s) → wp (b_acquiresleep i) Q s.
Proof.
  intros Hl HQ. unfold b_acquiresleep. wp_steps. apply wp_zoom. unfold wp.
  by rewrite Hl, acquiresleep_free.
Qed.

Lemma upd_same s i f : f (bufn s i) = bufn s i → upd i f s = s.
Proof.
  intros Hf. unfold upd. rewrite Hf. unfold bufn, with_bc_buf.
  destruct (decide (i < length (bc_buf s))%nat).
  - rewrite list_insert_id; [by destruct s|]. by apply list_lookup_lookup_total_lt.
  - rewrite list_insert_ge by lia. by destruct s.
Qed.

Lemma wp_holdingsleep (Q : bool → bst → Prop) s i :
  b_lock (bufn s i) = Sleeplock true false (cur_pid s) →
  Q true s → wp (b_holdingsleep i) Q s.
Proof.
  intros Hl HQ. unfold b_holdingsleep. wp_steps. apply wp_zoom. unfold wp.
  rewrite Hl, holdingsleep_eq, Z.eqb_refl. simpl.
  rewrite upd_same; [done|]. rewrite <- Hl. by destruct (bufn s i).
Qed.

Lemma wp_releasesleep (Q : unit → bst → Prop) s i p :
  b_lock (bufn s i) = Sleeplock true false p →
  Q tt (upd i (set_lock initsleeplock) s) → wp (b_releasesleep i) Q s.
Proof.
  intros Hl HQ. unfold b_releasesleep. apply wp_zoom. unfold wp.
  by rewrite Hl, releasesleep_eq.
Qed.

(** Lock state of an idle and of a held buffer. *)
Lemma idle_lock d p b :
  buf_ok d p b → b_refcnt b = 0 → ∃ q, b_lock b = Sleeplock false false q.
Proof.
  intros [_ Hlk Huse _ _] H0. destruct (b_lock b) as [lk k q]. simpl in *. subst.
  destruct Huse as [[_ ->]|[? _]]; [eauto|lia].
Qed.

Lemma held_lock d p b : buf_ok d p b → b_refcnt b ≠ 0 → b_lock b = Sleeplock true false p.
Proof.
  intros [_ Hlk Huse _ _] H0. destruct (b_lock b) as [lk k q]. simpl in *. subst.
  destruct Huse as [[? _]|(_ & -> & ->)]; [lia|done].
Qed.

(** An update made inside the critical section of [bcache.lock]. *)
Lemma locked_upd s i f :
  bc_lock s = false → with_bc_lock false (upd i f (with_bc_lock true s)) = upd i f s.
Proof. destruct s. simpl. by intros ->. Qed.

Lemma bget_hit s i b :
  bio_inv s → (i < nbuf)%nat → b_dev (bufn s i) = 1 → b_blockno (bufn s i) = b →
  b_refcnt (bufn s i) = 0 →
  wp (bget 1 b) (λ j s', j = i ∧
    s' = upd i (λ bf, set_lock (Sleeplock true false (cur_pid s)) (set_refcnt 1 bf)) s) s.
Proof.
  intros Hinv Hi Hd Hb H0. destruct (bi_ring s Hinv) as [l Hr].
  assert (Hil : (i < length (bc_buf s))%nat) by (rewrite (bi_len s Hinv); lia).
  destruct (idle_lock _ _ _ (bi_buf s Hinv i Hi) H0) as [q Hq].
  unfold bget. wp_step. apply wp_bc_acquire; [apply Hinv|]. wp_steps.
  rewrite (scan_next_ring (with_bc_lock true s) l _ Hr), (find_unique _ _ i).
  - wp_steps. apply wp_bc_release; [done|]. wp_steps.
    rewrite locked_upd by apply Hinv.
    change (bufn (with_bc_lock true s) i) with (bufn s i). rewrite H0.
    eapply wp_acquiresleep; [rewrite bufn_upd_eq by done; exact Hq|].
    wp_steps. split; [done|]. by rewrite upd_upd.
  - destruct Hr as [_ Hp]. by apply (ring_elem l).
  - unfold is_cached. change (bufn (with_bc_lock true s) i) with (bufn s i).
    by rewrite Hd, Hb, !Z.eqb_refl.
  - intros j Hj Hc. destruct Hr as [_ Hp]. apply (ring_elem l) in Hj; [|done].
    unfold is_cached in Hc. bool_props. eapply (bi_uniq s Hinv); eauto. by rewrite Hb.
Qed.

Lemma bget_miss s i b l :
  bio_inv s → ring s l →
  (∀ j, (j < nbuf)%nat → b_dev (bufn s j) = 1 → b_blockno (bufn s j) ≠ b) →
  List.find (λ j, is_free (bufn s j)) (rev l) = Some i →
  wp (bget 1 b) (λ j s', j = i ∧
    s' = upd i (λ bf, set_lock (Sleeplock true false (cur_pid s))
                  (set_refcnt 1 (set_flags 0 (set_key 1 b bf)))) s) s.
Proof.
  intros Hinv Hr Hn Hf.
  assert (Hi : (i < nbuf)%nat).
  { apply find_some in Hf as [Hin _]. rewrite <- in_rev, <- list_elem_of_In in Hin.
    destruct Hr as [_ Hp]. by apply (ring_elem l). }
  assert (Hil : (i < length (bc_buf s))%nat) by (rewrite (bi_len s Hinv); lia).
  assert (H0 : b_refcnt (bufn s i) = 0).
  { apply find_some in Hf as [_ Hfree]. unfold is_free in Hfree. by bool_props. }
  destruct (idle_lock _ _ _ (bi_buf s Hinv i Hi) H0) as [q Hq].
  unfold bget. wp_step. apply wp_bc_acquire; [apply Hinv|]. wp_steps.
  rewrite (scan_next_ring (with_bc_lock true s) l _ Hr), find_none_iff.
  - wp_steps. rewrite (scan_prev_ring (with_bc_lock true s) l _ Hr).
    change (List.find _ (rev l)) with (List.find (λ j, is_free (bufn s j)) (rev l)).
    rewrite Hf. wp_steps. apply wp_bc_release; [done|]. wp_steps.
    rewrite !(upd_upd i), locked_upd by (rewrite ?length_upd; apply Hinv || done).
    eapply wp_acquiresleep; [rewrite bufn_upd_eq by done; exact Hq|].
    wp_steps. split; [done|]. by rewrite upd_upd.
  - intros j Hj. destruct Hr as [_ Hp]. apply (ring_elem l) in Hj; [|done].
    unfold is_cached. change (bufn (with_bc_lock true s) j) with (bufn s j).
    destruct (b_dev (bufn s j) =? 1) eqn:E; [|done]. bool_props. simpl.
    apply Z.eqb_neq. auto.
Qed.

Lemma iderw_read s i :
  (i < length (bc_buf s))%nat →
  b_lock (bufn s i) = Sleeplock true false (cur_pid s) → b_flags (bufn s i) = 0 →
  b_dev (bufn s i) = 1 → 0 ≤ b_blockno (bufn s i) < disksize s →
  wp (iderw i) (λ _ s', s' = upd i (λ bf, set_flags B_VALID
    (set_data (memdisk s !!! Z.to_nat (b_blockno (bufn s i))) bf)) s) s.
Proof.
  intros Hi Hl Hf Hd Hb. unfold iderw. wp_step. apply wp_holdingsleep; [done|].
  cbn [negb]. wp_step. wp_step. rewrite Hf, Hd.
  change (Z.land 0 (Z.lor B_VALID B_DIRTY) =? B_VALID) with false.
  change (negb (1 =? 1)) with false. change (negb (Z.land 0 B_DIRTY =? 0)) with false.
  cbn match. wp_step. wp_step. destruct (disksize s <=? b_blockno (bufn s i)) eqn:E; bool_props; [lia|].
  wp_steps. rewrite bufn_upd_eq by done. cbn [b_flags set_data]. rewrite Hf.
  by rewrite upd_upd by done.
Qed.

Lemma iderw_write s i :
  (i < length (bc_buf s))%nat →
  b_lock (bufn s i) = Sleeplock true false (cur_pid s) →
  b_flags (bufn s i) = Z.lor B_VALID B_DIRTY →
  b_dev (bufn s i) = 1 → 0 ≤ b_blockno (bufn s i) < disksize s →
  wp (iderw i) (λ _ s', s' =
    with_disk (<[Z.to_nat (b_blockno (bufn s i)) := b_data (bufn s i)]> (memdisk s))
      (writes s ++ [(b_blockno (bufn s i), b_data (bufn s i))])
      (upd i (set_flags B_VALID) s)) s.
Proof.
  intros Hi Hl Hf Hd Hb. unfold iderw. wp_step. apply wp_holdingsleep; [done|].
  cbn [negb]. wp_step. wp_step. rewrite Hf, Hd.
  change (Z.land (Z.lor B_VALID B_DIRTY) (Z.lor B_VALID B_DIRTY) =? B_VALID) with false.
  change (negb (1 =? 1)) with false.
  change (negb (Z.land (Z.lor B_VALID B_DIRTY) B_DIRTY =? 0)) with true.
  cbn match. wp_step. wp_step. destruct (disksize s <=? b_blockno (bufn s i)) eqn:E; bool_props; [lia|].
  wp_steps. change (Z.land (Z.lor B_VALID B_DIRTY) (Z.lnot B_DIRTY)) with B_VALID.
  set (d := <[_:=_]> _). set (w := writes _ ++ _).
  change (upd i ?f (with_disk d w (upd i ?g s))) with (with_disk d w (upd i f (upd i g s))).
  rewrite upd_upd by done. f_equal.
  change (bufn (with_disk d w ?t) i) with (bufn t i). by rewrite bufn_upd_eq.
Qed.

(** While fewer than NBUF buffers are in use or dirty, one can be recycled. *)
Lemma free_exists s :
  bio_inv s → (size (held s) + size (dirty s) < nbuf)%nat →
  ∃ i, (i < nbuf)%nat ∧ is_free (bufn s i) = true.
Proof.
  intros Hinv Hsz.
  set (busy := List.filter (λ i, negb (b_refcnt (bufn s i) =? 0)) (seq 0 nbuf)).
  set (dirt := List.filter (λ i, is_dirty (bufn s i)) (seq 0 nbuf)).
  destruct (List.find (λ i, is_free (bufn s i)) (seq 0 nbuf)) as [i|] eqn:E.
  { apply find_some in E as [Hi Hf]. apply list_elem_of_In, elem_of_seq in Hi.
    exists i. split; [lia|done]. }
  exfalso.
  assert (Hsub : seq 0 nbuf ⊆+ busy ++ dirt).
  { apply NoDup_submseteq; [apply NoDup_seq|]. intros i Hi.
    pose proof (find_none _ _ E i ltac:(by apply list_elem_of_In)) as Hf.
    rewrite elem_of_app, !list_elem_of_In. unfold busy, dirt. rewrite !filter_In.
    rewrite <- !list_elem_of_In. unfold is_free in Hf. unfold is_dirty.
    destruct (b_refcnt (bufn s i) =? 0); cbn [andb] in Hf; [right|by left]. by rewrite Hf. }
  apply submseteq_length in Hsub. rewrite length_seq, length_app in Hsub.
  assert (Hb : size (held s) = length busy).
  { unfold held. fold busy. rewrite map_size_list_to_map; [by rewrite length_fmap|].
    rewrite <- list_fmap_compose, (list_fmap_ext _ id), list_fmap_id by done.
    apply NoDup_ListNoDup, List.NoDup_filter, NoDup_ListNoDup, NoDup_seq. }
  assert (Hd : size (dirty s) = length dirt).
  { unfold dirty. fold dirt. rewrite size_list_to_set; [by rewrite length_fmap|].
    apply NoDup_fmap_2_strong.
    - intros i j Hi Hj Heq. unfold dirt in Hi, Hj.
      rewrite list_elem_of_In, filter_In, <- list_elem_of_In, elem_of_seq in Hi, Hj.
      destruct Hi as [Hi Hid], Hj as [Hj Hjd].
      eapply (bi_uniq s Hinv); [lia|lia| | |done].
      + destruct (bo_dev _ _ _ (bi_buf s Hinv i ltac:(lia))) as [[? _]|(_ & _ & Hf)]; [done|].
        unfold is_dirty in Hid. by rewrite Hf in Hid.
      + destruct (bo_dev _ _ _ (bi_buf s Hinv j ltac:(lia))) as [[? _]|(_ & _ & Hf)]; [done|].
        unfold is_dirty in Hjd. by rewrite Hf in Hjd.
    - apply NoDup_ListNoDup, List.NoDup_filter, NoDup_ListNoDup, NoDup_seq. }
  lia.
Qed.

Lemma dirty_dev s j :
  bio_inv s → (j < nbuf)%nat → is_dirty (bufn s j) = true → b_dev (bufn s j) = 1.
Proof.
  intros Hinv Hj Hd.
  destruct (bo_dev _ _ _ (bi_buf s Hinv j Hj)) as [[? _]|(_ & _ & Hf)]; [done|].
  unfold is_dirty in Hd. by rewrite Hf in Hd.
Qed.

Lemma elem_of_dirty_upd s i f x :
  (i < nbuf)%nat → (i < length (bc_buf s))%nat →
  x ∈ dirty (upd i f s) ↔
    (is_dirty (f (bufn s i)) = true ∧ b_blockno (f (bufn s i)) = x) ∨
    (∃ j, (j < nbuf)%nat ∧ j ≠ i ∧ is_dirty (bufn s j) = true ∧ b_blockno (bufn s j) = x).
Proof.
  intros Hi Hl. rewrite elem_of_dirty. split.
  - intros (j & Hj & Hd & Hb). rewrite bufn_upd in Hd, Hb by done.
    case_decide; [subst; by left|right; eauto 10].
  - intros [[Hd Hb]|(j & Hj & Hne & Hd & Hb)].
    + exists i. by rewrite bufn_upd_eq.
    + exists j. by rewrite bufn_upd_ne.
Qed.

Lemma dirty_split s i x :
  (i < nbuf)%nat →
  x ∈ dirty s ↔
    (is_dirty (bufn s i) = true ∧ b_blockno (bufn s i) = x) ∨
    (∃ j, (j < nbuf)%nat ∧ j ≠ i ∧ is_dirty (bufn s j) = true ∧ b_blockno (bufn s j) = x).
Proof.
  intros Hi. rewrite elem_of_dirty. split.
  - intros (j & Hj & Hd & Hb). destruct (decide (j = i)) as [->|]; [by left|right; eauto 10].
  - intros [[Hd Hb]|(j & Hj & _ & Hd & Hb)]; eauto.
Qed.

Lemma dirty_upd_same s i f :
  (i < nbuf)%nat → (i < length (bc_buf s))%nat →
  is_dirty (f (bufn s i)) = is_dirty (bufn s i) →
  (is_dirty (bufn s i) = true → b_blockno (f (bufn s i)) = b_blockno (bufn s i)) →
  dirty (upd i f s) = dirty s.
Proof.
  intros Hi Hl Hd Hb. apply set_eq. intros x.
  rewrite elem_of_dirty_upd, (dirty_split s i) by done. rewrite Hd.
  split; (intros [[Hx <-]|H]; [left; rewrite Hb by done; auto|by right]).
Qed.

#[global] Instance bio_cache : BufCache bst := {
  c_bread := bread;
  c_bwrite := bwrite;
  c_brelse := brelse;
  c_data s i := b_data (bufn s i);
  c_set_data i d := upd i (set_data d);
  c_blockno s i := b_blockno (bufn s i);
  c_mark_dirty i s := upd i (set_flags (Z.lor (b_flags (bufn s i)) B_DIRTY)) s;
  c_inv := bio_inv;
  c_disk := memdisk;
  c_writes := writes;
  c_held := held;
  c_dirty := dirty;
  c_view := view
}.

(** What is known of a buffer in use. *)
Lemma held_facts s i b :
  bio_inv s → held s !! i = Some b →
  (i < nbuf)%nat ∧ (i < length (bc_buf s))%nat ∧ b_refcnt (bufn s i) = 1 ∧
  b_dev (bufn s i) = 1 ∧ b_blockno (bufn s i) = b ∧ 0 ≤ b < disksize s ∧
  b_lock (bufn s i) = Sleeplock true false (cur_pid s) ∧
  (b_flags (bufn s i) = B_VALID ∨ b_flags (bufn s i) = Z.lor B_VALID B_DIRTY).
Proof.
  intros Hinv (Hi & Hr & Hb)%held_lookup.
  pose proof (bi_buf s Hinv i Hi) as Hok. pose proof (held_lock _ _ _ Hok Hr) as Hl.
  destruct (bo_use _ _ _ Hok) as [[? _]|[H1 _]]; [done|].
  destruct (bo_dev _ _ _ Hok) as [(Hd & Hrng & Hf)|(_ & ? & _)]; [|done].
  rewrite (bi_len s Hinv). unfold disksize. rewrite <- Hb. split_and!; auto; lia.
Qed.

(** A buffer in use stays well formed when its data and dirty flag change. *)
Lemma held_upd_inv s i b f :
  bio_inv s → held s !! i = Some b → keeps_links f → keeps_key f →
  block_ok (b_data (f (bufn s i))) →
  b_lock (f (bufn s i)) = b_lock (bufn s i) → b_refcnt (f (bufn s i)) = 1 →
  (b_flags (f (bufn s i)) = B_VALID ∨ b_flags (f (bufn s i)) = Z.lor B_VALID B_DIRTY) →
  bio_inv (upd i f s).
Proof.
  intros Hinv Hh Hlinks Hkey Hdata Hlock Href Hflags.
  destruct (held_facts s i b Hinv Hh) as (Hi & Hl & Hr & Hd & Hb & Hrng & Hlk & _).
  destruct (Hkey (bufn s i)) as [Hkd Hkb].
  apply bio_inv_upd; auto.
  - split; [done|by rewrite Hlock, Hlk| | |].
    + right. by rewrite Hlock, Hlk.
    + left. rewrite Hkd, Hkb, Hb. done.
    + intros _ H0 _. lia.
  - intros _ j Hj Hne Hjd Heq. rewrite Hkb in Heq. apply Hne. by apply (bi_uniq s Hinv).
Qed.

Lemma bread_cached s i b :
  bio_inv s → (i < nbuf)%nat → b_dev (bufn s i) = 1 → b_blockno (bufn s i) = b →
  b_refcnt (bufn s i) = 0 →
  wp (bread 1 b) (λ j s', j = i ∧ state_is s' (memdisk s) (writes s)
    (<[i := b]> (held s)) (dirty s) (view s)) s.
Proof.
  intros Hinv Hi Hd Hb H0. pose proof (bi_buf s Hinv i Hi) as Hok.
  assert (Hil : (i < length (bc_buf s))%nat) by (rewrite (bi_len s Hinv); lia).
  destruct (bo_dev _ _ _ Hok) as [(_ & Hrng & Hflags)|(? & _)]; [|lia].
  unfold bread. wp_step. eapply wp_mono; [by apply bget_hit|].
  intros j s' [-> ->]. wp_steps.
  { exfalso. rewrite bufn_upd_eq in Heqb0 by done. simpl in Heqb0.
    destruct Hflags as [Hf|Hf]; rewrite Hf in Heqb0; discriminate. }
  split; [done|]. set (f := λ bf, _ : buf).
  assert (Hinv' : bio_inv (upd i f s)).
  { apply bio_inv_upd; [done|done|done| |].
    - destruct Hok as [H1 H2 H3 H4 H5].
      split; simpl; [done|done|by right|left; auto|intros; lia].
    - intros _ j Hj Hne Hjd Heq. simpl in Heq. apply Hne. by apply (bi_uniq s Hinv). }
  split_and!; [done|done|done| | |].
  - simpl. rewrite held_upd by done. simpl. by rewrite Hb.
  - simpl. by apply dirty_upd_same.
  - intros x Hx. simpl. rewrite view_upd_key by done. rewrite Hb. unfold view_upd.
    case_decide; [|done]. subst x. simpl. rewrite <- Hb at 1. by rewrite view_cached.
Qed.

(** Giving a free buffer a new block does not change the contents of the disk
    as the clients see it: what is evicted was clean. *)
Lemma view_rekey s i f b x :
  bio_inv s → bio_inv (upd i f s) → (i < nbuf)%nat → is_free (bufn s i) = true →
  (∀ j, (j < nbuf)%nat → b_dev (bufn s j) = 1 → b_blockno (bufn s j) ≠ b) →
  b_dev (f (bufn s i)) = 1 → b_blockno (f (bufn s i)) = b →
  b_data (f (bufn s i)) = memdisk s !!! Z.to_nat b →
  view (upd i f s) x = view s x.
Proof.
  intros Hinv Hinv' Hi Hfree Hn Hd Hb Hdata.
  assert (Hil : (i < length (bc_buf s))%nat) by (rewrite (bi_len s Hinv); lia).
  destruct (decide (x = b)) as [->|Hxb].
  { rewrite (view_uncached s) by done. rewrite <- Hb, <- (bufn_upd_eq i f s) by done.
    rewrite view_cached; [|done|done|by rewrite bufn_upd_eq].
    rewrite bufn_upd_eq, Hdata by done. by rewrite Hb. }
  destruct (cached_cases s x Hinv) as [(j & Hj & Hjd & Hjb)|Hnx].
  - destruct (decide (j = i)) as [->|Hji].
    + rewrite (view_uncached (upd i f s)).
      * rewrite <- Hjb, view_cached by done. symmetry.
        unfold is_free in Hfree. bool_props.
        pose proof (bi_buf s Hinv i Hi) as Hok. apply Hok; [done|done|].
        destruct (bo_dev _ _ _ Hok) as [(_ & _ & [?|Hf])|(? & _)]; [done| |lia].
        match goal with H : Z.land _ _ = 0 |- _ => rewrite Hf in H; discriminate end.
      * intros k Hk. rewrite bufn_upd by done. case_decide; [by rewrite Hb; auto|].
        intros Hkd Hkb. assert (k = i) by (apply (bi_uniq s Hinv); auto; congruence). done.
    + rewrite <- Hjb, (view_cached s) by done. rewrite <- (bufn_upd_ne i j f s) at 1 2 by done.
      apply view_cached; [done|done|by rewrite bufn_upd_ne].
  - rewrite (view_uncached s), (view_uncached (upd i f s)); [done| |done]. intros j Hj.
    rewrite bufn_upd by done. case_decide; [by rewrite Hb; auto|by apply Hnx].
Qed.

Lemma bread_uncached s i b l :
  bio_inv s → ring s l → 0 ≤ b < disksize s →
  (∀ j, (j < nbuf)%nat → b_dev (bufn s j) = 1 → b_blockno (bufn s j) ≠ b) →
  List.find (λ j, is_free (bufn s j)) (rev l) = Some i →
  wp (bread 1 b) (λ j s', j = i ∧ state_is s' (memdisk s) (writes s)
    (<[i := b]> (held s)) (dirty s) (view s)) s.
Proof.
  intros Hinv Hr Hb Hn Hf.
  pose proof (find_some _ _ Hf) as [Hin Hfree].
  rewrite <- in_rev, <- list_elem_of_In, (ring_elem l i (proj2 Hr)) in Hin.
  assert (Hil : (i < length (bc_buf s))%nat) by (rewrite (bi_len s Hinv); lia).
  unfold bread. wp_step. eapply wp_mono; [by eapply bget_miss|].
  intros j s1 [-> Hs1]. wp_step. wp_step. subst s1. rewrite bufn_upd_eq by done.
  unfold whenM. change (Z.land _ B_VALID =? 0) with true. cbn match. wp_step.
  eapply wp_mono; [apply iderw_read|].
  1: by rewrite length_upd. 1-4: by rewrite bufn_upd_eq.
  intros _ s' ->. wp_step. split; [done|].
  rewrite upd_upd, bufn_upd_eq by done. set (f := λ bf, _ : buf).
  assert (Hinv' : bio_inv (upd i f s)).
  { apply bio_inv_upd; [done|done|done| |].
    - split; simpl; [|done|by right|left; auto|intros; lia].
      eapply (Forall_lookup_1 block_ok); [apply Hinv|]. apply list_lookup_lookup_total_lt.
      unfold disksize in Hb. lia.
    - intros _ j Hj _. by apply Hn. }
  split_and!; [done|done|done| | |].
  - simpl. rewrite held_upd by done. done.
  - simpl. apply dirty_upd_same; [done|done| |].
    + unfold is_free in Hfree. bool_props. unfold is_dirty. simpl.
      match goal with H : Z.land _ _ = 0 |- _ => by rewrite H end.
    + unfold is_free, is_dirty in *. bool_props. intros Hd. bool_props. done.
  - intros x Hx. simpl. by eapply view_rekey.
Qed.

Lemma bio_bread_law s b :
  bio_inv s → 0 ≤ b < disksize s → (∀ i, held s !! i ≠ Some b) →
  (b ∈ dirty s ∨ (size (held s) + size (dirty s) < nbuf)%nat) →
  wp (bread 1 b) (λ i s', held s !! i = None ∧
    state_is s' (memdisk s) (writes s) (<[i := b]> (held s)) (dirty s) (view s)) s.
Proof.
  intros Hinv Hb Hh Hsz. destruct (cached_cases s b Hinv) as [(i & Hi & Hd & Hbi)|Hn].
  - assert (H0 : b_refcnt (bufn s i) = 0).
    { destruct (decide (b_refcnt (bufn s i) = 0)); [done|].
      destruct (Hh i). by apply held_lookup. }
    eapply wp_mono; [by eapply (bread_cached s i)|]. intros j s' [-> ?].
    split; [by apply held_None|done].
  - destruct (bi_ring s Hinv) as [l Hr]. destruct Hsz as [Hbd|Hsz].
    { apply elem_of_dirty in Hbd as (j & Hj & Hd & Hjb). by destruct (Hn j Hj (dirty_dev s j Hinv Hj Hd)). }
    destruct (free_exists s Hinv Hsz) as (k & Hk & Hfree).
    destruct (find_is_Some (λ j, is_free (bufn s j)) (rev l) k) as (i & Hf & _); [|done|].
    { rewrite list_elem_of_In, <- in_rev, <- list_elem_of_In.
      by apply (ring_elem l k (proj2 Hr)). }
    eapply wp_mono; [by eapply (bread_uncached s i)|]. intros j s' [-> ?].
    split; [|done]. apply held_None. intros _.
    apply find_some in Hf as [_ Hf]. unfold is_free in Hf. by bool_props.
Qed.

(** A dirty block is cached by a buffer whose flag says so. *)
Lemma dirty_held s i b :
  bio_inv s → held s !! i = Some b → b ∈ dirty s → is_dirty (bufn s i) = true.
Proof.
  intros Hinv Hh (j & Hj & Hd & Hb)%elem_of_dirty.
  destruct (held_facts s i b Hinv Hh) as (Hi & _ & _ & Hdev & Hbi & _).
  pose proof (dirty_dev s j Hinv Hj Hd).
  assert (j = i) as <- by (apply (bi_uniq s Hinv); auto; congruence). done.
Qed.

Lemma release_inv s i b :
  bio_inv s → held s !! i = Some b → (b ∈ dirty s ∨ view s b = memdisk s !!! Z.to_nat b) →
  state_is (upd i (λ bf, set_refcnt 0 (set_lock initsleeplock bf)) s)
    (memdisk s) (writes s) (delete i (held s)) (dirty s) (view s).
Proof.
  intros Hinv Hh Hclean.
  destruct (held_facts s i b Hinv Hh) as (Hi & Hl & Hr & Hd & Hb & Hrng & Hlk & Hflags).
  set (f := λ bf, _ : buf).
  assert (Hinv' : bio_inv (upd i f s)).
  { apply bio_inv_upd; [done|done|done| |].
    - split; simpl; [apply (bi_buf s Hinv i Hi)|done|by left|left; rewrite Hb; auto|].
      intros _ _ Hf. rewrite <- (view_cached s), Hb by done.
      destruct Hclean as [Hdb|?]; [|done].
      apply (dirty_held s i) in Hdb; [|done|done]. unfold is_dirty in Hdb. by rewrite Hf in Hdb.
    - intros _ j Hj Hne Hjd Heq. apply Hne. by apply (bi_uniq s Hinv). }
  split_and!; [done|done|done| | |].
  - simpl. by rewrite held_upd.
  - simpl. by apply dirty_upd_same.
  - intros x Hx. simpl. rewrite view_upd_key by done. unfold view_upd. case_decide; [|done].
    subst x. by rewrite view_cached.
Qed.

Lemma state_is_relinked s s' l d w h dt v :
  state_is s d w h dt v → relinked s s' → ring s' l → state_is s' d w h dt v.
Proof.
  intros (Hinv & Hd & Hw & Hh & Hdt & Hv) Hrel Hr.
  pose proof Hrel as (_ & _ & _ & Hd' & _ & Hw'). simpl in *.
  split_and!; simpl.
  - by eapply bio_inv_relinked.
  - congruence.
  - congruence.
  - by rewrite (held_relinked s).
  - by rewrite (dirty_relinked s).
  - intros x Hx. rewrite (view_relinked s) by done. by apply Hv.
Qed.

Lemma bio_brelse_law s i b :
  bio_inv s → held s !! i = Some b → (b ∈ dirty s ∨ view s b = memdisk s !!! Z.to_nat b) →
  wp (brelse i) (λ _ s', state_is s' (memdisk s) (writes s) (delete i (held s))
    (dirty s) (view s)) s.
Proof.
  intros Hinv Hh Hclean.
  destruct (held_facts s i b Hinv Hh) as (Hi & Hl & Hr & Hd & Hb & Hrng & Hlk & Hflags).
  pose proof (release_inv s i b Hinv Hh Hclean) as Hst.
  unfold brelse. wp_step. apply wp_holdingsleep; [done|]. cbn [negb]. wp_step.
  eapply wp_releasesleep; [exact Hlk|]. wp_step. apply wp_bc_acquire; [apply Hinv|].
  set (s1 := upd i _ s). assert (Hl1 : (i < length (bc_buf s1))%nat) by by unfold s1; rewrite length_upd.
  wp_step. wp_step. wp_step. wp_step.
  assert (Hr1 : b_refcnt (bufn (with_bc_lock true s1) i) = 1).
  { change (b_refcnt (bufn s1 i) = 1). unfold s1. by rewrite bufn_upd_eq. }
  rewrite Hr1, bufn_upd_eq by done. change (b_refcnt _) with (u32 (1 - 1)).
  change (u32 (1 - 1)) with 0. unfold whenM. cbn match.
  change (upd i ?g (with_bc_lock true s1)) with (with_bc_lock true (upd i g s1)).
  unfold s1. rewrite upd_upd by done. set (s2 := upd i _ s) in *.
  destruct Hst as (Hinv2 & Hrest).
  destruct (bi_ring s2 Hinv2) as [l Hring].
  assert (Hil : i ∈ l) by by apply (ring_elem l i (proj2 Hring)).
  apply list_elem_of_split in Hil as (l1 & l2 & ->).
  wp_step. eapply wp_mono.
  { apply (move_front_ring (with_bc_lock true s2) i l1 l2); [exact Hring|apply Hinv2]. }
  intros _ s3 [Hring3 Hrel]. apply wp_bc_release; [apply Hrel|].
  eapply (state_is_relinked s2); [split; [done|exact Hrest]| |exact Hring3].
  destruct Hrel as (? & ? & ? & ? & ? & ?). split_and!; try done. simpl. symmetry. apply Hinv2.
Qed.

(** Writing the block of a buffer in use to the disk. *)
Lemma write_disk_inv s i b d w :
  bio_inv s → held s !! i = Some b → block_ok d →
  bio_inv (with_disk (<[Z.to_nat b := d]> (memdisk s)) w s).
Proof.
  intros Hinv Hh Hok.
  destruct (held_facts s i b Hinv Hh) as (Hi & Hl & Hr & Hd & Hb & Hrng & Hlk & Hflags).
  destruct Hinv as [Hlk' Hlen Hring Hdisk Hbuf Huniq].
  split; simpl; [done|done|done|by apply Forall_insert| |done].
  intros j Hj. destruct (Hbuf j Hj) as [H1 H2 H3 H4 H5]. split; simpl; [done|done|done| |].
  - by rewrite length_insert.
  - intros Hjd Hj0 Hjf. change (bufn (with_disk _ _ _) j) with (bufn s j) in *.
    rewrite list_lookup_total_insert_ne; [by apply H5|]. intros Heq.
    assert (Hrj : 0 ≤ b_blockno (bufn s j)) by (destruct H4 as [(_ & ? & _)|(? & _)]; lia).
    assert (i = j) as <-; [|lia]. apply Huniq; auto. unfold disksize in Hrng. lia.
Qed.

Lemma write_disk_view s i b d w x :
  bio_inv s → held s !! i = Some b → 0 ≤ x →
  view (with_disk (<[Z.to_nat b := d]> (memdisk s)) w s) x = view s x.
Proof.
  intros Hinv Hh Hx. unfold view.
  change (cached (with_disk _ _ s) x) with (cached s x).
  destruct (cached s x) as [j|] eqn:E; [done|]. simpl.
  destruct (held_facts s i b Hinv Hh) as (Hi & _ & _ & Hd & Hb & Hrng & _).
  apply list_lookup_total_insert_ne. intros Heq.
  assert (x = b) as -> by lia.
  pose proof (find_none _ _ E i) as Hn. unfold is_cached in Hn.
  rewrite <- list_elem_of_In, elem_of_seq, Hd, Hb, !Z.eqb_refl in Hn.
  discriminate Hn. lia.
Qed.

Lemma flags_or_dirty f :
  f = B_VALID ∨ f = Z.lor B_VALID B_DIRTY → Z.lor f B_DIRTY = Z.lor B_VALID B_DIRTY.
Proof. by intros [-> | ->]. Qed.

Lemma mark_dirty_state s i b :
  bio_inv s → held s !! i = Some b →
  state_is (upd i (set_flags (Z.lor (b_flags (bufn s i)) B_DIRTY)) s)
    (memdisk s) (writes s) (held s) ({[b]} ∪ dirty s) (view s).
Proof.
  intros Hinv Hh.
  destruct (held_facts s i b Hinv Hh) as (Hi & Hl & Hr & Hd & Hb & Hrng & Hlk & Hflags).
  rewrite flags_or_dirty by done. set (f := set_flags _).
  assert (Hinv' : bio_inv (upd i f s)).
  { eapply held_upd_inv; simpl; eauto; try done. apply (bi_buf s Hinv i Hi). }
  split_and!; [done|done|done| | |]; simpl.
  - rewrite held_upd by done. unfold f. simpl. rewrite Hr, Hb. simpl. by apply insert_id.
  - apply set_eq. intros x. rewrite elem_of_dirty_upd, elem_of_union, elem_of_singleton by done.
    rewrite (dirty_split s i) by done. unfold f. simpl. rewrite Hb. unfold is_dirty at 1. simpl.
    naive_solver.
  - intros x Hx. rewrite view_upd_key by done. unfold view_upd. case_decide; [|done].
    subst x. by rewrite view_cached.
Qed.

Lemma clean_state s i b :
  bio_inv s → held s !! i = Some b →
  state_is (upd i (set_flags B_VALID) s) (memdisk s) (writes s) (held s) (dirty s ∖ {[b]}) (view s).
Proof.
  intros Hinv Hh.
  destruct (held_facts s i b Hinv Hh) as (Hi & Hl & Hr & Hd & Hb & Hrng & Hlk & Hflags).
  set (f := set_flags _).
  assert (Hinv' : bio_inv (upd i f s)).
  { eapply held_upd_inv; simpl; eauto; try done. apply (bi_buf s Hinv i Hi). }
  split_and!; [done|done|done| | |]; simpl.
  - rewrite held_upd by done. unfold f. simpl. rewrite Hr, Hb. simpl. by apply insert_id.
  - apply set_eq. intros x. rewrite elem_of_dirty_upd, elem_of_difference, elem_of_singleton by done.
    rewrite (dirty_split s i) by done. unfold f. simpl. unfold is_dirty at 1. simpl. split.
    + intros [[? _]|(j & Hj & Hne & Hjd & Hjb)]; [done|]. split; [eauto 10|]. intros ->.
      apply Hne. apply (bi_uniq s Hinv); auto; [by apply dirty_dev|congruence].
    + intros [[[_ ?]|?] ?]; [congruence|by right].
  - intros x Hx. rewrite view_upd_key by done. unfold view_upd. case_decide; [|done].
    subst x. by rewrite view_cached.
Qed.

Lemma bio_bwrite_law s i b :
  bio_inv s → held s !! i = Some b →
  wp (bwrite i) (λ _ s', state_is s' (<[Z.to_nat b := view s b]> (memdisk s))
    (writes s ++ [(b, view s b)]) (held s) (dirty s ∖ {[b]}) (view s)) s.
Proof.
  intros Hinv Hh.
  destruct (held_facts s i b Hinv Hh) as (Hi & Hl & Hr & Hd & Hb & Hrng & Hlk & Hflags).
  destruct (clean_state s i b Hinv Hh) as (Hinv' & _ & _ & Hheld & Hdirty & Hview).
  assert (Hdata : b_data (bufn s i) = view s b) by by rewrite <- Hb, view_cached.
  unfold bwrite. wp_step. apply wp_holdingsleep; [done|]. cbn [negb]. wp_step. wp_step.
  rewrite flags_or_dirty by done.
  eapply wp_mono; [apply iderw_write; rewrite ?length_upd, ?bufn_upd_eq by done; try done;
    cbn [b_blockno set_flags]; by rewrite Hb|].
  intros _ s' ->. rewrite bufn_upd_eq, upd_upd by done. cbn [b_blockno b_data set_flags].
  rewrite Hb, Hdata. change (λ bf, set_flags B_VALID (set_flags _ bf)) with (set_flags B_VALID).
  simpl in Hheld. rewrite <- Hheld in Hh |- *.
  split_and!; [|done|done|done|exact Hdirty|].
  - eapply (write_disk_inv (upd i (set_flags B_VALID) s)); [done|exact Hh|].
    rewrite <- Hdata. apply (bi_buf s Hinv i Hi).
  - intros x Hx. simpl.
    etransitivity; [exact (write_disk_view (upd i (set_flags B_VALID) s) i b _ _ x Hinv' Hh Hx)|].
    by apply Hview.
Qed.

Lemma bio_set_data_law s i b d :
  bio_inv s → held s !! i = Some b → block_ok d →
  state_is (upd i (set_data d) s) (memdisk s) (writes s) (held s) (dirty s)
    (view_upd (view s) b d).
Proof.
  intros Hinv Hh Hok.
  destruct (held_facts s i b Hinv Hh) as (Hi & Hl & Hr & Hd & Hb & Hrng & Hlk & Hflags).
  assert (Hinv' : bio_inv (upd i (set_data d) s)) by (eapply held_upd_inv; simpl; eauto; done).
  split_and!; [done|done|done| | |]; simpl.
  - rewrite held_upd by done. simpl. rewrite Hr, Hb. simpl. by apply insert_id.
  - by apply dirty_upd_same.
  - intros x Hx. rewrite view_upd_key by done. by rewrite Hb.
Qed.

Lemma bio_clean_law s b :
  bio_inv s → b ∉ dirty s → (∀ i, held s !! i ≠ Some b) → view s b = memdisk s !!! Z.to_nat b.
Proof.
  intros Hinv Hnd Hnh. destruct (cached_cases s b Hinv) as [(i & Hi & Hd & Hb)|Hn];
    [|by apply view_uncached].
  pose proof (bi_buf s Hinv i Hi) as Hok.
  rewrite <- Hb, view_cached by done. apply Hok; [done| |].
  - destruct (decide (b_refcnt (bufn s i) = 0)); [done|]. destruct (Hnh i). by apply held_lookup.
  - destruct (bo_dev _ _ _ Hok) as [(_ & _ & [?|Hf])|(? & _)]; [done| |lia].
    destruct Hnd. apply elem_of_dirty. exists i. split_and!; [done| |done].
    unfold is_dirty. by rewrite Hf.
Qed.

Lemma bio_view_ok s b : bio_inv s → 0 ≤ b < disksize s → block_ok (view s b).
Proof.
  intros Hinv Hb. destruct (cached_cases s b Hinv) as [(i & Hi & Hd & <-)|Hn].
  - rewrite view_cached by done. apply (bi_buf s Hinv i Hi).
  - rewrite view_uncached by done. eapply (Forall_lookup_1 block_ok); [apply Hinv|].
    apply list_lookup_lookup_total_lt. unfold disksize in Hb. lia.
Qed.

#[global] Instance bio_cache_laws : BufCacheLaws bst.
Proof.
  split; simpl.
  - exact bio_bread_law.
  - exact bio_brelse_law.
  - exact bio_bwrite_law.
  - exact bio_set_data_law.
  - exact mark_dirty_state.
  - intros s i b Hinv Hh. destruct (held_facts s i b Hinv Hh) as (Hi & _ & _ & Hd & <- & _).
    by rewrite view_cached.
  - intros s i b Hinv Hh. by destruct (held_facts s i b Hinv Hh) as (_ & _ & _ & _ & ? & _).
  - intros s i b Hinv Hh. by destruct (held_facts s i b Hinv Hh) as (_ & _ & _ & _ & _ & ? & _).
  - exact bio_clean_law.
  - exact bio_view_ok.
  - intros s Hinv. apply Hinv.
Qed.

(** ** Booting *)

Lemma binit_one_link_front s b (Q : unit → bst → Prop) :
  0 ≤ b → b_lock (bufn s (Z.to_nat b)) = initsleeplock →
  wp (link_front (Z.to_nat b)) Q s → wp (binit_one b) Q s.
Proof.
  intros _ Hl. unfold binit_one, link_front, wp, modify, bind. cbn beta iota.
  set (s1 := upd _ _ s). set (s2 := upd _ (set_prev head) s1).
  rewrite (upd_same s2 _ (set_lock initsleeplock)); [done|].
  assert (Hs2 : b_lock (bufn s2 (Z.to_nat b)) = initsleeplock).
  { unfold s2, s1. by rewrite !(upd_field b_lock). }
  rewrite <- Hs2. by destruct (bufn s2 _).
Qed.

(** After [i] buffers are linked, the list holds them, the last one first. *)
Definition binit_loop_inv (disk : list block) (pid i : Z) (s : bst) : Prop :=
  linked (nx s) (pv s) (head :: rev (seq 0 (Z.to_nat i)) ++ [head]) ∧
  relinked (boot disk pid) s.

Lemma boot_bufn disk pid i : (i < S nbuf)%nat → bufn (boot disk pid) i = zero_buf.
Proof. intros. unfold bufn, boot. cbn [bc_buf]. by apply lookup_total_replicate_2. Qed.

Lemma binit_step disk pid i s :
  0 ≤ i < Z.of_nat nbuf → binit_loop_inv disk pid i s →
  wp (binit_one i) (λ _, binit_loop_inv disk pid (i + 1)) s.
Proof.
  intros Hi [Hl Hrel]. pose proof Hrel as (Hc & Hlen & _).
  unfold boot in Hlen. cbn [bc_buf] in Hlen. rewrite length_replicate in Hlen.
  apply binit_one_link_front; [lia| |].
  { pose proof (Hc (Z.to_nat i)) as Hci. rewrite boot_bufn in Hci by lia. by injection Hci. }
  assert (Hin : ∀ x, x ∈ rev (seq 0 (Z.to_nat i)) ↔ (x < Z.to_nat i)%nat).
  { intros x. rewrite list_elem_of_In, <- in_rev, <- list_elem_of_In, elem_of_seq. lia. }
  eapply wp_mono; [apply (link_front_linked s (Z.to_nat i) (rev (seq 0 (Z.to_nat i))) Hl)|].
  - apply NoDup_cons. rewrite Hin. split; [unfold head; lia|].
    apply NoDup_ListNoDup, NoDup_rev, NoDup_ListNoDup, NoDup_seq.
  - rewrite elem_of_cons, Hin. unfold head. lia.
  - lia.
  - intros x. rewrite elem_of_cons, Hin. unfold head. lia.
  - intros _ s' [Hl' Hrel']. split; [|by eapply relinked_trans].
    replace (Z.to_nat (i + 1)) with (S (Z.to_nat i)) by lia.
    rewrite seq_S, rev_app_distr. done.
Qed.

Lemma binit_start disk pid (Q : unit → bst → Prop) :
  (∀ s, binit_loop_inv disk pid 0 s → wp (for_loop nbuf 0 binit_one) Q s) →
  wp binit Q (boot disk pid).
Proof.
  intros HQ. unfold binit. wp_steps. apply HQ.
  set (s0 := with_bc_lock false (boot disk pid)).
  assert (Hlen : length (bc_buf s0) = S nbuf) by apply length_replicate.
  assert (Hh : (head < length (bc_buf s0))%nat) by (rewrite Hlen; unfold head; lia).
  split; [|apply (relinked_trans _ (upd head (set_prev head) s0)); by apply relinked_upd].
  simpl. rewrite nx_set_next by by rewrite length_upd.
  unfold fupd. rewrite decide_True by done. split_and!; [done| |done].
  unfold pv. rewrite (upd_field b_prev) by done. by rewrite bufn_upd_eq.
Qed.

Lemma binit_ring disk pid :
  wp binit (λ _ s, ring s (rev (seq 0 nbuf)) ∧ relinked (boot disk pid) s) (boot disk pid).
Proof.
  apply binit_start. intros s H0.
  eapply wp_mono; [apply (wp_for_loop (binit_loop_inv disk pid)); [exact H0|]|].
  - intros i s' Hi. apply binit_step. lia.
  - intros _ s' [Hl Hrel]. rewrite Z.add_0_l, Nat2Z.id in Hl. split; [split; [done|]|done].
    symmetry. apply Permutation_rev.
Qed.

Lemma zero_block_ok : block_ok zero_block.
Proof.
  split; [apply length_replicate|]. apply Forall_replicate. unfold is_byte. lia.
Qed.

Lemma zero_disk_ok n : Forall block_ok (replicate n zero_block).
Proof. apply Forall_replicate, zero_block_ok. Qed.

Lemma boot_state disk pid s l :
  Forall block_ok disk → relinked (boot disk pid) s → ring s l →
  state_is s disk [] ∅ ∅ (λ b, disk !!! Z.to_nat b).
Proof.
  intros Hdisk Hrel Hr. pose proof Hrel as (Hc & Hlen & Hlk & Hd & Hp & Hw).
  assert (Hz : ∀ i, (i < nbuf)%nat → core (bufn s i) = core zero_buf).
  { intros i Hi. rewrite Hc, boot_bufn by lia. done. }
  unfold boot in Hlen. cbn [bc_buf] in Hlen. rewrite length_replicate in Hlen.
  split_and!; simpl.
  - split; [done|done|by exists l|by rewrite Hd| |].
    + intros i Hi. eapply buf_ok_core; [by apply Hz|].
      split; [apply zero_block_ok|done|by left|by right|done].
    + intros i j Hi _ Hdi. destruct (core_fields _ _ (Hz i Hi)) as (_ & Hdev & _).
      rewrite Hdev in Hdi. done.
  - done.
  - done.
  - apply map_eq. intros i. rewrite lookup_empty. apply held_None. intros Hi.
    by destruct (core_fields _ _ (Hz i Hi)) as (_ & _ & _ & -> & _).
  - apply set_eq. intros x. rewrite elem_of_dirty. split; [|set_solver].
    intros (i & Hi & Hdi & _). unfold is_dirty in Hdi.
    by destruct (core_fields _ _ (Hz i Hi)) as (Hf & _); rewrite Hf in Hdi.
  - intros x Hx. rewrite view_uncached, Hd; [done|]. intros i Hi Hdi.
    destruct (core_fields _ _ (Hz i Hi)) as (_ & Hdev & _). rewrite Hdev in Hdi. done.
Qed.

(** The cache after [binit], on a given disk. *)
Definition booted (disk : list block) (pid : Z) : bst :=
  exec binit (boot disk pid).

Lemma booted_spec disk pid :
  ring (booted disk pid) (rev (seq 0 nbuf)) ∧ relinked (boot disk pid) (booted disk pid).
Proof.
  exact (wp_exec binit (λ s, ring s (rev (seq 0 nbuf)) ∧ relinked (boot disk pid) s) _
    (binit_ring disk pid)).
Qed.

Lemma booted_state disk pid :
  Forall block_ok disk →
  state_is (booted disk pid) disk [] ∅ ∅ (λ b, disk !!! Z.to_nat b).
Proof. intros. destruct (booted_spec disk pid). by eapply boot_state. Qed.

(** ** Properties *)

(** [binit] returns on every disk whose blocks are well formed, and leaves a
    cache that satisfies its invariant: all NBUF buffers are on the LRU list
    (the last one first), nothing is in use or dirty, and every block reads as
    the disk has it. *)
Theorem binit_correct disk pid :
  Forall block_ok disk →
  wp binit (λ _ s, ring s (rev (seq 0 nbuf)) ∧
    state_is s disk [] ∅ ∅ (λ b, disk !!! Z.to_nat b)) (boot disk pid).
Proof.
  intros Hd. eapply wp_mono; [apply binit_ring|].
  intros _ s [Hr Hrel]. split; [done|by eapply boot_state].
Qed.

Lemma binit_correct_witness :
  wp binit (λ _ s, ring s (rev (seq 0 nbuf)) ∧
    state_is s [zero_block] [] ∅ ∅ (λ b, [zero_block] !!! Z.to_nat b)) (boot [zero_block] 1).
Proof. apply binit_correct. apply Forall_singleton, zero_block_ok. Defined.

(** [bread] of a block nobody holds returns, as long as the block is pinned
    or fewer than NBUF buffers are in use or pinned, a locked buffer that was not in use and holds
    the block's current content; no other block, no dirty mark and nothing on
    the disk changes. *)
Theorem bread_correct s b :
  bio_inv s → 0 ≤ b < disksize s → (∀ i, held s !! i ≠ Some b) →
  (b ∈ dirty s ∨ (size (held s) + size (dirty s) < nbuf)%nat) →
  wp (bread 1 b) (λ i s', b_data (bufn s' i) = view s b ∧ held s !! i = None ∧
    b_lock (bufn s' i) = Sleeplock true false (cur_pid s') ∧
    state_is s' (memdisk s) (writes s) (<[i := b]> (held s)) (dirty s) (view s)) s.
Proof.
  intros Hinv Hb Hh Hsz. eapply wp_mono; [by apply bio_bread_law|].
  intros i s' [Hi Hst]. pose proof Hst as (Hinv' & _ & _ & Hheld & _ & Hv).
  assert (Hhi : held s' !! i = Some b) by (simpl in Hheld; rewrite Hheld; apply lookup_insert_eq).
  destruct (held_facts s' i b Hinv' Hhi) as (Hin & _ & _ & Hd & Hbn & _ & Hlk & _).
  split_and!; [|done|done|done]. rewrite <- (view_cached s' i), Hbn by done. apply Hv. lia.
Qed.

Lemma bread_correct_witness :
  let s := booted (replicate 2 zero_block) 1 in
  wp (bread 1 1) (λ i s', b_data (bufn s' i) = view s 1 ∧ held s !! i = None ∧
    b_lock (bufn s' i) = Sleeplock true false (cur_pid s') ∧
    state_is s' (memdisk s) (writes s) (<[i := 1]> (held s)) (dirty s) (view s)) s.
Proof.
  intros s.
  destruct (booted_state (replicate 2 zero_block) 1) as (Hinv & Hd & _ & Hh & Hdt & _).
  { apply zero_disk_ok. }
  change (held s = ∅) in Hh. change (dirty s = ∅) in Hdt.
  apply bread_correct; [exact Hinv| | |].
  - unfold disksize. change (memdisk s) with (c_disk s). unfold s. rewrite Hd, length_replicate. lia.
  - intros i. by rewrite Hh, lookup_empty.
  - right. rewrite Hh, Hdt. vm_compute. lia.
Defined.

(** The replacement policy is LRU: when a block is not cached, [bread] gives
    it the free buffer that was released longest ago (the last one on the
    list), and every buffer it passes over is in use or dirty. *)
Theorem bread_recycles_lru s b l1 i l2 :
  bio_inv s → ring s (l1 ++ i :: l2) → 0 ≤ b < disksize s →
  (∀ j, (j < nbuf)%nat → b_dev (bufn s j) = 1 → b_blockno (bufn s j) ≠ b) →
  is_free (bufn s i) = true → Forall (λ j, is_free (bufn s j) = false) l2 →
  wp (bread 1 b) (λ j _, j = i) s.
Proof.
  intros Hinv Hr Hb Hn Hfree Hl2.
  eapply wp_mono; [eapply (bread_uncached s i b); [done|exact Hr|done|done|]|by intros ? ? [? _]].
  rewrite rev_app_distr. cbn [rev]. rewrite <- app_assoc, find_app_none; [simpl; by rewrite Hfree|].
  intros j Hj. rewrite list_elem_of_In, <- in_rev, <- list_elem_of_In in Hj.
  by eapply Forall_forall in Hl2.
Qed.

Lemma bread_recycles_lru_witness :
  wp (bread 1 1) (λ j _, j = 0%nat) (booted (replicate 2 zero_block) 1).
Proof.
  destruct (booted_state (replicate 2 zero_block) 1) as (Hinv & Hd & _).
  { apply zero_disk_ok. }
  destruct (booted_spec (replicate 2 zero_block) 1) as [Hr (Hc & _)].
  apply (bread_recycles_lru _ 1 (rev (seq 1 29)) 0%nat []).
  - exact Hinv.
  - assert (Hs : rev (seq 0 nbuf) = rev (seq 1 29) ++ [0%nat]) by (vm_compute; reflexivity).
    by rewrite <- Hs.
  - unfold disksize. change (memdisk ?s) with (c_disk s). rewrite Hd, length_replicate. lia.
  - intros j Hj. destruct (core_fields _ _ (Hc j)) as (_ & -> & _).
    rewrite boot_bufn by lia. intros Hd0. exfalso. discriminate Hd0.
  - unfold is_free. destruct (core_fields _ _ (Hc 0%nat)) as (-> & _ & _ & -> & _).
    rewrite boot_bufn by lia. reflexivity.
  - constructor.
Defined.
