(* ===== verification/Redo.v ===== *)
(** * Redo logs, as a theory of disks and sequences of block writes

    What a disk contains after a sequence of block writes, how the log header
    is laid out in its block, and [recovered]: the disk one gets by replaying
    the log found on a given disk.  No kernel code is involved here; [Log] and
    [LogCrash] relate log.c to these functions. *)

From S2P Require Import Prelude Words Params BufIface.

(** ** Sequences of writes *)

Definition apply_writes (d : list block) (ws : list (Z * block)) : list block :=
  foldl (λ d w, <[Z.to_nat w.1 := w.2]> d) d ws.
Definition upd_views (v : Z → block) (ws : list (Z * block)) : Z → block :=
  foldl (λ v w, view_upd v w.1 w.2) v ws.

Lemma length_apply_writes d ws : length (apply_writes d ws) = length d.
Proof.
  revert d. induction ws as [|w ws IH]; intros d; [done|]. cbn [apply_writes foldl].
  fold (apply_writes (<[Z.to_nat w.1:=w.2]> d) ws). by rewrite IH, length_insert.
Qed.

Lemma apply_writes_app d ws1 ws2 :
  apply_writes d (ws1 ++ ws2) = apply_writes (apply_writes d ws1) ws2.
Proof. apply foldl_app. Qed.

Lemma upd_views_app v ws1 ws2 : upd_views v (ws1 ++ ws2) = upd_views (upd_views v ws1) ws2.
Proof. apply foldl_app. Qed.

(** Block numbers are not negative. *)
Definition writes_ok (ws : list (Z * block)) : Prop := Forall (λ w, 0 ≤ w.1) ws.

Lemma apply_writes_other d ws b :
  writes_ok ws → 0 ≤ b → b ∉ ws.*1 → apply_writes d ws !!! Z.to_nat b = d !!! Z.to_nat b.
Proof.
  intros Hok Hb. revert d. induction Hok as [|w ws Hw _ IH]; intros d Hn; [done|].
  rewrite fmap_cons, not_elem_of_cons in Hn. destruct Hn as [Hn1 Hn2].
  cbn [apply_writes foldl]. fold (apply_writes (<[Z.to_nat w.1:=w.2]> d) ws).
  rewrite IH by done. apply list_lookup_total_insert_ne. lia.
Qed.

Lemma apply_writes_in d ws b x :
  writes_ok ws → NoDup ws.*1 → (b, x) ∈ ws → 0 ≤ b < Z.of_nat (length d) →
  apply_writes d ws !!! Z.to_nat b = x.
Proof.
  intros Hok. revert d. induction Hok as [|w ws Hw Hok IH]; intros d Hnd Hin Hb.
  { by apply elem_of_nil in Hin. }
  rewrite fmap_cons, NoDup_cons in Hnd. destruct Hnd as [Hn Hnd].
  cbn [apply_writes foldl]. fold (apply_writes (<[Z.to_nat w.1:=w.2]> d) ws).
  apply elem_of_cons in Hin as [<-|Hin].
  - cbn [fst snd] in *. rewrite apply_writes_other by (done || lia).
    apply list_lookup_total_insert_eq. lia.
  - apply IH; [done|done|]. by rewrite length_insert.
Qed.

Lemma upd_views_other v ws b : b ∉ ws.*1 → upd_views v ws b = v b.
Proof.
  revert v. induction ws as [|w ws IH]; intros v Hn; [done|].
  rewrite fmap_cons, not_elem_of_cons in Hn. destruct Hn as [Hn1 Hn2].
  cbn [upd_views foldl]. fold (upd_views (view_upd v w.1 w.2) ws).
  rewrite IH by done. by apply view_upd_ne.
Qed.

Lemma upd_views_in v ws b x : NoDup ws.*1 → (b, x) ∈ ws → upd_views v ws b = x.
Proof.
  revert v. induction ws as [|w ws IH]; intros v Hnd Hin; [by apply elem_of_nil in Hin|].
  rewrite fmap_cons, NoDup_cons in Hnd. destruct Hnd as [Hn Hnd].
  cbn [upd_views foldl]. fold (upd_views (view_upd v w.1 w.2) ws).
  apply elem_of_cons in Hin as [<-|Hin]; [|by apply IH].
  rewrite upd_views_other by done. apply view_upd_eq.
Qed.

(** A block is either written, with a content, or not. *)
Lemma writes_cases (ws : list (Z * block)) b : (∃ x, (b, x) ∈ ws) ∨ b ∉ ws.*1.
Proof.
  destruct (decide (b ∈ ws.*1)) as [Hin|]; [left|by right].
  apply list_elem_of_fmap in Hin as ([b' x] & -> & Hin). eauto.
Qed.

(** Replaying a sequence on top of a part of itself. *)
Lemma apply_writes_replay d ws k b :
  writes_ok ws → NoDup ws.*1 → 0 ≤ b < Z.of_nat (length d) →
  apply_writes (apply_writes d (take k ws)) ws !!! Z.to_nat b =
  apply_writes d ws !!! Z.to_nat b.
Proof.
  intros Hok Hnd Hb. destruct (writes_cases ws b) as [[x Hin]|Hn].
  - by rewrite !(apply_writes_in _ _ b x) by (rewrite ?length_apply_writes; done).
  - rewrite !(apply_writes_other _ ws) by (done || lia).
    apply apply_writes_other; [by apply Forall_take|lia|].
    rewrite fmap_take. intros Hin. apply Hn. by eapply subseteq_take.
Qed.

(** ** The header block *)

Definition hdr_n (blk : block) : Z := get_i32 0 blk.
Definition hdr_block (blk : block) (i : nat) : Z := get_i32 (4 + 4 * i) blk.

(** The effect of writing entries [0..k-1]. *)
Fixpoint put_blocks (k : nat) (bs : list Z) (blk : block) : block :=
  match k with
  | O => blk
  | S k' => put_u32 (4 + 4 * k') (bs !!! k') (put_blocks k' bs blk)
  end.
Definition put_head (n : Z) (bs : list Z) (blk : block) : block :=
  put_blocks (Z.to_nat n) bs (put_u32 0 n blk).

Lemma put_u32_ok off x blk :
  (off + 4 ≤ Z.to_nat BSIZE)%nat → block_ok blk → block_ok (put_u32 off x blk).
Proof.
  intros Hoff [Hl Hb]. split; [|by apply put_le_bytes].
  unfold put_u32. rewrite length_put_le; [done|]. by rewrite Hl.
Qed.

Lemma put_blocks_ok k bs blk :
  (k ≤ Z.to_nat LOGSIZE)%nat → block_ok blk → block_ok (put_blocks k bs blk).
Proof.
  induction k as [|k IH]; intros Hk Hblk; [done|]. cbn [put_blocks].
  apply put_u32_ok; [|apply IH; [lia|done]]. unfold LOGSIZE, BSIZE, MAXOPBLOCKS in *. lia.
Qed.

Lemma put_head_ok n bs blk : 0 ≤ n ≤ LOGSIZE → block_ok blk → block_ok (put_head n bs blk).
Proof.
  intros Hn Hblk. apply put_blocks_ok; [lia|]. apply put_u32_ok; [vm_compute; lia|done].
Qed.

Lemma get_put_i32 off x blk :
  (off + 4 ≤ length blk)%nat → is_i32 x → get_i32 off (put_u32 off x blk) = x.
Proof.
  intros Hoff Hx. unfold get_i32, put_u32. rewrite get_put_le by done. by apply i32_u32.
Qed.

Lemma get_put_u32_of_i32 off x blk :
  (off + 4 ≤ length blk)%nat → u32 (get_i32 off (put_u32 off x blk)) = u32 x.
Proof.
  intros Hoff. unfold get_i32, put_u32. rewrite get_put_le by done.
  apply (u32_i32 (u32 x)), u32_range.
Qed.

Lemma get_i32_put_blocks_low k bs blk :
  block_ok blk → (k ≤ Z.to_nat LOGSIZE)%nat → get_i32 0 (put_blocks k bs blk) = get_i32 0 blk.
Proof.
  intros Hblk. induction k as [|k IH]; intros Hk; [done|]. cbn [put_blocks].
  destruct (put_blocks_ok k bs blk ltac:(lia) Hblk) as [Hl _].
  rewrite <- IH by lia. unfold get_i32, put_u32. rewrite get_put_le_disjoint; [done| |lia].
  rewrite Hl. unfold LOGSIZE, BSIZE, MAXOPBLOCKS in *. lia.
Qed.

Lemma get_i32_put_blocks k bs blk i :
  block_ok blk → (k ≤ Z.to_nat LOGSIZE)%nat → (i < k)%nat →
  u32 (get_i32 (4 + 4 * i) (put_blocks k bs blk)) = u32 (bs !!! i).
Proof.
  intros Hblk. induction k as [|k IH]; intros Hk Hi; [lia|]. cbn [put_blocks].
  destruct (put_blocks_ok k bs blk ltac:(lia) Hblk) as [Hl _].
  assert (Hoff : (4 + 4 * k + 4 ≤ length (put_blocks k bs blk))%nat).
  { rewrite Hl. unfold LOGSIZE, BSIZE, MAXOPBLOCKS in *. lia. }
  destruct (decide (i = k)) as [->|Hne]; [by apply get_put_u32_of_i32|].
  unfold get_i32, put_u32. rewrite get_put_le_disjoint by (done || lia). apply IH; lia.
Qed.

Lemma hdr_n_put_head n bs blk : 0 ≤ n ≤ LOGSIZE → block_ok blk → hdr_n (put_head n bs blk) = n.
Proof.
  intros Hn Hblk. unfold hdr_n, put_head.
  rewrite get_i32_put_blocks_low; [|apply put_u32_ok; [vm_compute; lia|done]|lia].
  destruct Hblk as [Hl _]. apply get_put_i32; [rewrite Hl; vm_compute; lia|].
  unfold LOGSIZE, MAXOPBLOCKS in Hn. unfold is_i32. lia.
Qed.

Lemma hdr_block_put_head n bs blk i :
  0 ≤ n ≤ LOGSIZE → block_ok blk → (i < Z.to_nat n)%nat →
  u32 (hdr_block (put_head n bs blk) i) = u32 (bs !!! i).
Proof.
  intros Hn Hblk Hi. unfold hdr_block, put_head.
  apply get_i32_put_blocks; [apply put_u32_ok; [vm_compute; lia|done]|lia|done].
Qed.

(** ** The log found on a disk *)

Definition log_writes (start : Z) (d : list block) : list (Z * block) :=
  let hdr := d !!! Z.to_nat start in
  (λ i, (u32 (hdr_block hdr i), d !!! Z.to_nat (start + Z.of_nat i + 1)))
    <$> seq 0 (Z.to_nat (hdr_n hdr)).

(** The disk after replaying the log found on it. *)
Definition recovered (start : Z) (d : list block) : list block :=
  apply_writes d (log_writes start d).

(** A home block: a block of the disk outside the log. *)
Definition home (start nlog : Z) (d : list block) (b : Z) : Prop :=
  0 ≤ b < Z.of_nat (length d) ∧ (b < start ∨ start + nlog ≤ b).

(** The log of a disk can be replayed: it has at most LOGSIZE entries, fits its
    region, and names distinct home blocks. *)
Record log_wf (start nlog : Z) (d : list block) : Prop := {
  lw_start : 0 ≤ start;
  lw_region : start + nlog ≤ Z.of_nat (length d);
  lw_small : Z.of_nat (length d) < 2 ^ 31;
  lw_n : 0 ≤ hdr_n (d !!! Z.to_nat start) ≤ LOGSIZE;
  lw_fits : hdr_n (d !!! Z.to_nat start) < nlog;
  lw_home : Forall (λ w, home start nlog d w.1) (log_writes start d);
  lw_nodup : NoDup (log_writes start d).*1
}.
