(* ===== verification/Log.v ===== *)
(** * Write-ahead log (log.c)

    The log runs on any buffer cache that satisfies [BufCacheLaws].  The first
    part translates log.c; the rest computes the exact sequence of disk writes
    of a commit and of a recovery, from which [LogCrash] derives crash safety. *)

From S2P Require Import Prelude Words Params Locks BufIface Redo.

(** ** Data *)

Record logheader := LogHeader {
  lh_n : Z;
  lh_block : list Z        (* int block[LOGSIZE] *)
}.

(** [struct log] together with the buffer cache below it. *)
Record log (S : Type) := Log {
  l_lock : bool;
  l_start : Z;
  l_size : Z;
  l_outstanding : Z;       (* how many FS sys calls are executing *)
  l_committing : Z;        (* in commit(), please wait *)
  l_dev : Z;
  l_lh : logheader;
  l_cache : S
}.
Arguments Log {S}.
Arguments l_lock {S}.
Arguments l_start {S}.
Arguments l_size {S}.
Arguments l_outstanding {S}.
Arguments l_committing {S}.
Arguments l_dev {S}.
Arguments l_lh {S}.
Arguments l_cache {S}.

(** Static data is zero when the kernel starts. *)
Definition log0 {S} (c : S) : log S :=
  Log false 0 0 0 0 0 (LogHeader 0 (replicate (Z.to_nat LOGSIZE) 0)) c.

Section setters.
Context {S : Type}.
Implicit Types l : log S.

Definition with_lock v l := Log v (l_start l) (l_size l) (l_outstanding l) (l_committing l)
  (l_dev l) (l_lh l) (l_cache l).
Definition with_outstanding v l := Log (l_lock l) (l_start l) (l_size l) v (l_committing l)
  (l_dev l) (l_lh l) (l_cache l).
Definition with_committing v l := Log (l_lock l) (l_start l) (l_size l) (l_outstanding l) v
  (l_dev l) (l_lh l) (l_cache l).
Definition with_n n l := Log (l_lock l) (l_start l) (l_size l) (l_outstanding l) (l_committing l)
  (l_dev l) (LogHeader n (lh_block (l_lh l))) (l_cache l).
Definition with_block bs l := Log (l_lock l) (l_start l) (l_size l) (l_outstanding l)
  (l_committing l) (l_dev l) (LogHeader (lh_n (l_lh l)) bs) (l_cache l).
Definition with_cache (c : S) l := Log (l_lock l) (l_start l) (l_size l) (l_outstanding l)
  (l_committing l) (l_dev l) (l_lh l) c.
Definition with_geometry start size dev l := Log (l_lock l) start size (l_outstanding l)
  (l_committing l) dev (l_lh l) (l_cache l).
End setters.

(** ** Operations *)

Section log.
Context {S : Type} `{BufCache S}.

Definition log_acquire : M (log S) unit := zoom l_lock with_lock spin_acquire.
Definition log_release : M (log S) unit := zoom l_lock with_lock spin_release.

(** The cache's operations, seen from the log. *)
Definition bread_ (dev b : Z) : M (log S) nat := zoom l_cache with_cache (c_bread dev b).
Definition bwrite_ (i : nat) : M (log S) unit := zoom l_cache with_cache (c_bwrite i).
Definition brelse_ (i : nat) : M (log S) unit := zoom l_cache with_cache (c_brelse i).
Definition data_ (i : nat) : M (log S) block := gets (λ l, c_data (l_cache l) i).
Definition set_data_ (i : nat) (d : block) : M (log S) unit :=
  modify (λ l, with_cache (c_set_data i d (l_cache l)) l).

(** [log.lh.block[i]], inside the array only. *)
Definition block_at (i : Z) : M (log S) Z :=
  bs ← gets (λ l, lh_block (l_lh l));
  match bs !! Z.to_nat i with Some b => ret b | None => fault end.
Definition block_set (i v : Z) : M (log S) unit :=
  bs ← gets (λ l, lh_block (l_lh l));
  if Z.of_nat (length bs) <=? i then fault
  else modify (with_block (<[Z.to_nat i := v]> bs)).

(** fs.c: read the super block. *)
Definition sb_of_bytes (d : block) : superblock :=
  Superblock (get_u32 0 d) (get_u32 4 d) (get_u32 8 d) (get_u32 12 d) (get_u32 16 d)
    (get_u32 20 d) (get_u32 24 d).
Definition readsb (dev : Z) : M (log S) superblock :=
  bp ← bread_ dev 1;
  d ← data_ bp;
  brelse_ bp ;;
  ret (sb_of_bytes d).

Definition sizeof_logheader : Z := 4 + 4 * LOGSIZE.

(** Copy committed blocks from log to their home location *)
Definition install_one (tail : Z) : M (log S) unit :=
  dev ← gets l_dev; start ← gets l_start;
  lbuf ← bread_ dev (u32 (start + tail + 1));
  b ← block_at tail;
  dbuf ← bread_ dev (u32 b);
  d ← data_ lbuf;
  set_data_ dbuf d ;;
  bwrite_ dbuf ;;
  brelse_ lbuf ;;
  brelse_ dbuf.
Definition install_trans : M (log S) unit :=
  n ← gets (λ l, lh_n (l_lh l));
  for_loop (Z.to_nat n) 0 install_one.

(** Read the log header from disk into the in-memory log header *)
Definition read_head : M (log S) unit :=
  dev ← gets l_dev; start ← gets l_start;
  buf ← bread_ dev (u32 start);
  lh ← data_ buf;
  modify (with_n (get_i32 0 lh)) ;;
  for_loop (Z.to_nat (get_i32 0 lh)) 0 (λ i,
    block_set i (get_i32 (Z.to_nat (4 + 4 * i)) lh)) ;;
  brelse_ buf.

(** Write in-memory log header to disk. *)
Definition write_head : M (log S) unit :=
  dev ← gets l_dev; start ← gets l_start;
  buf ← bread_ dev (u32 start);
  n ← gets (λ l, lh_n (l_lh l));
  hb ← data_ buf;
  set_data_ buf (put_u32 0 n hb) ;;
  for_loop (Z.to_nat n) 0 (λ i,
    b ← block_at i;
    hb ← data_ buf;
    set_data_ buf (put_u32 (Z.to_nat (4 + 4 * i)) b hb)) ;;
  bwrite_ buf ;;
  brelse_ buf.

Definition recover_from_log : M (log S) unit :=
  read_head ;;
  install_trans ;;
  modify (with_n 0) ;;
  write_head.

Definition initlog (dev : Z) : M (log S) unit :=
  if BSIZE <=? sizeof_logheader then panic "initlog: too big logheader" else
  modify (with_lock false) ;;
  sb ← readsb dev;
  modify (with_geometry (i32 (sb_logstart sb)) (i32 (sb_nlog sb)) dev) ;;
  recover_from_log.

(** called at the start of each FS system call; [sleep] gives the lock up, and
    the loop starts over when the process is woken. *)
Definition begin_op : M (log S) unit :=
  log_acquire ;;
  l ← getS;
  if negb (l_committing l =? 0) then log_release ;; sleeping
  else if LOGSIZE <? lh_n (l_lh l) + (l_outstanding l + 1) * MAXOPBLOCKS
  then log_release ;; sleeping
  else
    modify (with_outstanding (l_outstanding l + 1)) ;;
    log_release.

(** Copy modified blocks from cache to log. *)
Definition write_log_one (tail : Z) : M (log S) unit :=
  dev ← gets l_dev; start ← gets l_start;
  to ← bread_ dev (u32 (start + tail + 1));
  b ← block_at tail;
  from ← bread_ dev (u32 b);
  d ← data_ from;
  set_data_ to d ;;
  bwrite_ to ;;
  brelse_ from ;;
  brelse_ to.
Definition write_log : M (log S) unit :=
  n ← gets (λ l, lh_n (l_lh l));
  for_loop (Z.to_nat n) 0 write_log_one.

Definition commit : M (log S) unit :=
  n ← gets (λ l, lh_n (l_lh l));
  whenM (0 <? n)
    (write_log ;;
     write_head ;;
     install_trans ;;
     modify (with_n 0) ;;
     write_head).

(** called at the end of each FS system call; [wakeup] acts on the process
    table only. *)
Definition end_op : M (log S) unit :=
  log_acquire ;;
  modify (λ l, with_outstanding (l_outstanding l - 1) l) ;;
  l ← getS;
  if negb (l_committing l =? 0) then panic "log.committing" else
  let do_commit := l_outstanding l =? 0 in
  whenM do_commit (modify (with_committing 1)) ;;
  log_release ;;
  whenM do_commit
    (commit ;;
     log_acquire ;;
     modify (with_committing 0) ;;
     log_release).

(** Index of the first of the [n] entries equal to [b], else [n]. *)
Fixpoint absorb (n : nat) (bs : list Z) (b : Z) : Z :=
  match n, bs with
  | Datatypes.S n', x :: bs' => if u32 x =? b then 0 else 1 + absorb n' bs' b
  | _, _ => 0
  end.

Definition log_write (buf : nat) : M (log S) unit :=
  l ← getS;
  let n := lh_n (l_lh l) in
  if (LOGSIZE <=? n) || (l_size l - 1 <=? n) then panic "too big a transaction" else
  if l_outstanding l <? 1 then panic "log_write outside of trans" else
  log_acquire ;;
  let b := c_blockno (l_cache l) buf in
  let i := absorb (Z.to_nat n) (lh_block (l_lh l)) b in
  block_set i (i32 b) ;;
  whenM (i =? n) (modify (with_n (n + 1))) ;;
  modify (λ l, with_cache (c_mark_dirty buf (l_cache l)) l) ;;
  log_release.

End log.

(** ** Rules for the cache operations *)

Section rules.
Context {S : Type} `{BufCacheLaws S}.
Implicit Types (l : log S) (d : list block) (w : list (Z * block)) (h : gmap nat Z)
  (D : gset Z) (v : Z → block).

Lemma state_is_view c d w h D v v' :
  state_is c d w h D v → (∀ x, 0 ≤ x → v x = v' x) → state_is c d w h D v'.
Proof.
  intros (? & ? & ? & ? & ? & Hv) Heq. split_and!; auto. intros x Hx. rewrite Hv; auto.
Qed.

Lemma state_size c d w h D v : state_is c d w h D v → c_size c = Z.of_nat (length d).
Proof. intros (_ & <- & _). done. Qed.

Lemma state_held c d w h D v i b :
  state_is c d w h D v → h !! i = Some b → 0 ≤ b < Z.of_nat (length d).
Proof.
  intros Hst Hi. rewrite <- (state_size _ _ _ _ _ _ Hst).
  destruct Hst as (Hinv & _ & _ & Hh & _). rewrite <- Hh in Hi. by eapply held_range.
Qed.

Lemma state_clean c d w h D v b :
  state_is c d w h D v → 0 ≤ b → b ∉ D → (∀ i, h !! i ≠ Some b) → v b = d !!! Z.to_nat b.
Proof.
  intros (Hinv & <- & _ & <- & <- & Hv) Hb Hd Hh. rewrite <- Hv by done. by apply clean_law.
Qed.

Lemma state_block_ok c d w h D v b :
  state_is c d w h D v → 0 ≤ b < Z.of_nat (length d) → block_ok (v b).
Proof.
  intros Hst Hb. pose proof (state_size _ _ _ _ _ _ Hst) as Hsz.
  destruct Hst as (Hinv & _ & _ & _ & _ & Hv). rewrite <- Hv by lia. apply view_ok; [done|lia].
Qed.

Lemma wp_bread_ l d w h D v b (Q : nat → log S → Prop) :
  state_is (l_cache l) d w h D v → 0 ≤ b < Z.of_nat (length d) → (∀ i, h !! i ≠ Some b) →
  (b ∈ D ∨ (size h + size D < Z.to_nat NBUF)%nat) →
  (∀ i c, h !! i = None → state_is c d w (<[i := b]> h) D v → Q i (with_cache c l)) →
  wp (bread_ ROOTDEV b) Q l.
Proof.
  intros Hst Hb Hh Hcap HQ. pose proof (state_size _ _ _ _ _ _ Hst) as Hsz.
  destruct Hst as (Hinv & <- & <- & <- & <- & Hv).
  apply wp_zoom. eapply wp_mono; [apply bread_law; auto; lia|].
  intros i c [Hi Hc]. apply HQ; [done|]. eapply state_is_view; [exact Hc|]. done.
Qed.

Lemma wp_bwrite_ l d w h D v i b (Q : unit → log S → Prop) :
  state_is (l_cache l) d w h D v → h !! i = Some b →
  (∀ c, state_is c (<[Z.to_nat b := v b]> d) (w ++ [(b, v b)]) h (D ∖ {[b]}) v →
     Q tt (with_cache c l)) →
  wp (bwrite_ i) Q l.
Proof.
  intros Hst Hi HQ. pose proof (state_held _ _ _ _ _ _ _ _ Hst Hi) as Hb.
  destruct Hst as (Hinv & <- & <- & <- & <- & Hv).
  apply wp_zoom. eapply wp_mono; [by apply (bwrite_law _ _ b)|].
  intros [] c Hc. apply HQ. rewrite <- Hv by lia. by eapply state_is_view.
Qed.

Lemma wp_brelse_ l d w h D v i b (Q : unit → log S → Prop) :
  state_is (l_cache l) d w h D v → h !! i = Some b → (b ∈ D ∨ v b = d !!! Z.to_nat b) →
  (∀ c, state_is c d w (delete i h) D v → Q tt (with_cache c l)) →
  wp (brelse_ i) Q l.
Proof.
  intros Hst Hi Hcl HQ. pose proof (state_held _ _ _ _ _ _ _ _ Hst Hi) as Hb.
  destruct Hst as (Hinv & <- & <- & <- & <- & Hv).
  apply wp_zoom. eapply wp_mono; [apply (brelse_law _ _ b); [done|done|]|].
  - rewrite Hv by lia. done.
  - intros [] c Hc. apply HQ. by eapply state_is_view.
Qed.

Lemma wp_data_ l d w h D v i b (Q : block → log S → Prop) :
  state_is (l_cache l) d w h D v → h !! i = Some b → Q (v b) l → wp (data_ i) Q l.
Proof.
  intros Hst Hi HQ. pose proof (state_held _ _ _ _ _ _ _ _ Hst Hi) as Hb.
  destruct Hst as (Hinv & <- & <- & <- & <- & Hv). apply wp_gets.
  by rewrite (data_law _ _ b), Hv by (done || lia).
Qed.

Lemma wp_set_data_ l d w h D v i b x (Q : unit → log S → Prop) :
  state_is (l_cache l) d w h D v → h !! i = Some b → block_ok x →
  (∀ c, state_is c d w h D (view_upd v b x) → Q tt (with_cache c l)) →
  wp (set_data_ i x) Q l.
Proof.
  intros (Hinv & <- & <- & <- & <- & Hv) Hi Hx HQ. apply wp_modify. apply HQ.
  eapply state_is_view; [by apply set_data_law|].
  intros y Hy. unfold view_upd. case_decide; [done|by apply Hv].
Qed.
End rules.

(** ** Copying blocks *)

Section copy.
Context {S : Type} `{BufCacheLaws S}.
Implicit Types (l : log S) (c : S) (d : list block) (w : list (Z * block)) (D : gset Z)
  (v : Z → block).

Lemma with_cache_id l : with_cache (l_cache l) l = l.
Proof. by destruct l. Qed.

Lemma wp_block_at l i b (Q : Z → log S → Prop) :
  lh_block (l_lh l) !! Z.to_nat i = Some b → Q b l → wp (block_at i) Q l.
Proof. intros Hb HQ. unfold block_at. wp_steps. rewrite Hb. by wp_step. Qed.

(** Both buffers in hand, in either order: copy, write, release. *)
Lemma copy_tail l d w D v i j src dst (Q : unit → log S → Prop) :
  i ≠ j → src ≠ dst → (src ∈ D ∨ v src = d !!! Z.to_nat src) →
  state_is (l_cache l) d w (<[j := dst]> (<[i := src]> ∅)) D v →
  (∀ c, state_is c (<[Z.to_nat dst := v src]> d) (w ++ [(dst, v src)]) ∅ (D ∖ {[dst]})
     (view_upd v dst (v src)) → Q tt (with_cache c l)) →
  wp (x ← data_ i; set_data_ j x ;; bwrite_ j ;; brelse_ i ;; brelse_ j) Q l.
Proof.
  intros Hij Hne Hcl Hst HQ. set (h := <[j:=dst]> _) in Hst.
  assert (Hi : h !! i = Some src).
  { unfold h. rewrite lookup_insert_ne, lookup_insert_eq; auto. }
  assert (Hj : h !! j = Some dst) by apply lookup_insert_eq.
  pose proof (state_held _ _ _ _ _ _ _ _ Hst Hi) as Hsrc.
  pose proof (state_held _ _ _ _ _ _ _ _ Hst Hj) as Hdst.
  wp_step. eapply wp_data_; [exact Hst|exact Hi|]. wp_step.
  eapply wp_set_data_; [exact Hst|exact Hj|by eapply state_block_ok|]. intros c1 Hc1. wp_step.
  eapply wp_bwrite_; [exact Hc1|exact Hj|]. intros c2 Hc2. rewrite view_upd_eq in Hc2. wp_step.
  eapply wp_brelse_; [exact Hc2|exact Hi| |].
  { rewrite view_upd_ne by done. destruct Hcl as [?|Hcl]; [left; set_solver|right].
    rewrite list_lookup_total_insert_ne by lia. done. }
  intros c3 Hc3. eapply wp_brelse_; [exact Hc3| | |].
  - rewrite lookup_delete_ne by done. exact Hj.
  - right. rewrite view_upd_eq. symmetry. apply list_lookup_total_insert_eq. lia.
  - intros c4 Hc4. apply HQ. replace (delete j (delete i h)) with (∅ : gmap nat Z) in Hc4; [done|].
    unfold h. apply map_eq. intros k. rewrite lookup_empty.
    destruct (decide (k = j)) as [->|]; [by rewrite lookup_delete_eq|].
    rewrite lookup_delete_ne by done. destruct (decide (k = i)) as [->|]; [by rewrite lookup_delete_eq|].
    by rewrite lookup_delete_ne, lookup_insert_ne, lookup_insert_ne.
Qed.

(** The state after one block was copied from [src] to [dst]. *)
Definition copied l d w D v src dst (_ : unit) (l' : log S) : Prop :=
  ∃ c, l' = with_cache c l ∧
    state_is c (<[Z.to_nat dst := v src]> d) (w ++ [(dst, v src)]) ∅ (D ∖ {[dst]})
      (view_upd v dst (v src)).

Lemma wp_install_one l d w D v t b src dst :
  l_dev l = ROOTDEV → lh_block (l_lh l) !! Z.to_nat t = Some b →
  src = u32 (l_start l + t + 1) → dst = u32 b → src ≠ dst →
  src < Z.of_nat (length d) → dst < Z.of_nat (length d) → src ∉ D →
  (size D < Z.to_nat NBUF)%nat → (dst ∈ D ∨ (1 + size D < Z.to_nat NBUF)%nat) →
  state_is (l_cache l) d w ∅ D v →
  wp (install_one t) (copied l d w D v src dst) l.
Proof.
  intros Hdev Hb Hsrc Hdst Hne Hs Hd HsD Hcap1 Hcap2 Hst.
  assert (Hs0 : 0 ≤ src) by (rewrite Hsrc; apply u32_range).
  assert (Hd0 : 0 ≤ dst) by (rewrite Hdst; apply u32_range).
  assert (Hclean : v src = d !!! Z.to_nat src) by (eapply state_clean; [exact Hst|done|done|done]).
  unfold install_one. wp_steps. rewrite Hdev, <- Hsrc.
  eapply wp_bread_; [exact Hst|lia|done|right; by rewrite map_size_empty|].
  intros i c1 _ Hc1. wp_step. eapply wp_block_at; [exact Hb|]. wp_step. rewrite <- Hdst.
  eapply wp_bread_; [exact Hc1|lia| | |].
  - intros k. rewrite lookup_insert_Some, lookup_empty. naive_solver.
  - rewrite map_size_insert_None, map_size_empty by apply lookup_empty. done.
  - intros j c2 Hj Hc2. eapply (copy_tail _ _ _ _ _ i j src dst); [|done|by right|exact Hc2|].
    + intros ->. by rewrite lookup_insert_eq in Hj.
    + intros c3 Hc3. by exists c3.
Qed.

Lemma wp_write_log_one l d w D v t b src dst :
  l_dev l = ROOTDEV → lh_block (l_lh l) !! Z.to_nat t = Some b →
  dst = u32 (l_start l + t + 1) → src = u32 b → src ≠ dst →
  src < Z.of_nat (length d) → dst < Z.of_nat (length d) → src ∈ D →
  (size D < Z.to_nat NBUF)%nat →
  state_is (l_cache l) d w ∅ D v →
  wp (write_log_one t) (copied l d w D v src dst) l.
Proof.
  intros Hdev Hb Hdst Hsrc Hne Hs Hd HsD Hcap Hst.
  assert (Hs0 : 0 ≤ src) by (rewrite Hsrc; apply u32_range).
  assert (Hd0 : 0 ≤ dst) by (rewrite Hdst; apply u32_range).
  unfold write_log_one. wp_steps. rewrite Hdev, <- Hdst.
  eapply wp_bread_; [exact Hst|lia|done|right; by rewrite map_size_empty|].
  intros j c1 _ Hc1. wp_step. eapply wp_block_at; [exact Hb|]. wp_step. rewrite <- Hsrc.
  eapply wp_bread_; [exact Hc1|lia| |by left|].
  - intros k. rewrite lookup_insert_Some, lookup_empty. naive_solver.
  - intros i c2 Hi Hc2. assert (i ≠ j) by (intros ->; by rewrite lookup_insert_eq in Hi).
    rewrite insert_insert_ne in Hc2 by done.
    eapply (copy_tail _ _ _ _ _ i j src dst); [done|done|by left|exact Hc2|].
    intros c3 Hc3. by exists c3.
Qed.

(** A loop of copies from [p.1] to [p.2]. *)
Lemma copy_loop (body : Z → M (log S) unit) (pairs : list (Z * Z)) l d w D v :
  let ws := (λ p, (p.2, v p.1)) <$> pairs in
  (∀ p, p ∈ pairs → p.1 ∉ pairs.*2) →
  (∀ t src dst c d' w' v', pairs !! t = Some (src, dst) → length d' = length d →
     state_is c d' w' ∅ (D ∖ list_to_set (take t pairs.*2)) v' →
     wp (body (Z.of_nat t))
       (copied l d' w' (D ∖ list_to_set (take t pairs.*2)) v' src dst) (with_cache c l)) →
  state_is (l_cache l) d w ∅ D v →
  wp (for_loop (length pairs) 0 body) (λ _ l', ∃ c, l' = with_cache c l ∧
    state_is c (apply_writes d ws) (w ++ ws) ∅ (D ∖ list_to_set pairs.*2) (upd_views v ws)) l.
Proof.
  intros ws Hdisj Hbody Hst.
  eapply wp_mono; [apply (wp_for_loop (λ t l', ∃ c, l' = with_cache c l ∧
    state_is c (apply_writes d (take (Z.to_nat t) ws)) (w ++ take (Z.to_nat t) ws) ∅
      (D ∖ list_to_set (take (Z.to_nat t) pairs.*2)) (upd_views v (take (Z.to_nat t) ws))))|].
  - exists (l_cache l). rewrite with_cache_id. split; [done|]. simpl.
    rewrite app_nil_r, difference_empty_L. done.
  - intros t l' Ht (c & -> & Hc). rewrite Z.add_0_l in Ht.
    destruct (lookup_lt_is_Some_2 pairs (Z.to_nat t)) as [[src dst] Hp]; [lia|].
    assert (Hw : ws !! Z.to_nat t = Some (dst, v src)) by (unfold ws; by rewrite list_lookup_fmap, Hp).
    assert (Hv : upd_views v (take (Z.to_nat t) ws) src = v src).
    { apply upd_views_other. rewrite fmap_take. unfold ws. rewrite <- list_fmap_compose.
      intros Hin%subseteq_take. eapply (Hdisj (src, dst)); [by eapply list_elem_of_lookup_2|exact Hin]. }
    pose proof (Hbody _ _ _ _ _ _ _ Hp (length_apply_writes _ _) Hc) as Hwp.
    rewrite Z2Nat.id in Hwp by lia. eapply wp_mono; [exact Hwp|].
    + intros [] l2 (c2 & -> & Hc2). exists c2. split; [done|].
      replace (Z.to_nat (t + 1)) with (Datatypes.S (Z.to_nat t)) by lia.
      rewrite (take_S_r _ _ _ Hw), (take_S_r (pairs.*2) _ dst) by by rewrite list_lookup_fmap, Hp.
      rewrite apply_writes_app, upd_views_app, (assoc_L app), list_to_set_app_L. rewrite Hv in Hc2.
      rewrite difference_difference_l_L in Hc2.
      assert (Hone : list_to_set [dst] =@{gset Z} {[dst]}) by set_solver. rewrite Hone. exact Hc2.
  - intros [] l' (c & -> & Hc). exists c. split; [done|]. rewrite Z.add_0_l, Nat2Z.id in Hc.
    rewrite !take_ge in Hc by (unfold ws; rewrite ?length_fmap; done). done.
Qed.
End copy.

(** ** The two copying phases *)

(** Block numbers of the transaction, in log order. *)
Definition tx_blocks {S} (l : log S) : list Z :=
  u32 <$> take (Z.to_nat (lh_n (l_lh l))) (lh_block (l_lh l)).

(** The transaction in memory fits the log of a disk [d]. *)
Record tx_ok {S} (l : log S) (d : list block) : Prop := {
  tx_dev : l_dev l = ROOTDEV;
  tx_start : 0 ≤ l_start l;
  tx_region : l_start l + l_size l ≤ Z.of_nat (length d);
  tx_small : Z.of_nat (length d) < 2 ^ 31;
  tx_len : length (lh_block (l_lh l)) = Z.to_nat LOGSIZE;
  tx_n : 0 ≤ lh_n (l_lh l) ≤ LOGSIZE;
  tx_fits : lh_n (l_lh l) < l_size l;
  tx_home : Forall (home (l_start l) (l_size l) d) (tx_blocks l);
  tx_nodup : NoDup (tx_blocks l)
}.

(** The writes of [install_trans] and of [write_log] when the blocks' contents
    are [v]. *)
Definition install_writes {S} (l : log S) (v : Z → block) : list (Z * block) :=
  imap (λ t b, (b, v (l_start l + Z.of_nat t + 1))) (tx_blocks l).
Definition log_fill {S} (l : log S) (v : Z → block) : list (Z * block) :=
  imap (λ t b, (l_start l + Z.of_nat t + 1, v b)) (tx_blocks l).

Section phases.
Context {S : Type} `{BufCacheLaws S}.
Implicit Types (l : log S) (d : list block) (w : list (Z * block)) (D : gset Z)
  (v : Z → block).

Lemma length_tx_blocks l d : tx_ok l d → length (tx_blocks l) = Z.to_nat (lh_n (l_lh l)).
Proof.
  intros Htx. unfold tx_blocks. rewrite length_fmap, length_take, (tx_len l d Htx).
  pose proof (tx_n l d Htx). lia.
Qed.

Lemma tx_blocks_lookup l t b :
  tx_blocks l !! t = Some b → ∃ b', lh_block (l_lh l) !! t = Some b' ∧ b = u32 b'.
Proof.
  unfold tx_blocks. rewrite list_lookup_fmap. intros Hb.
  destruct (take _ _ !! t) as [b'|] eqn:E; [|done]. injection Hb as <-.
  apply lookup_take_Some in E as [? _]. eauto.
Qed.

(** Entry [t] of the transaction, with everything the copy loops need. *)
Lemma tx_entry l d t b :
  tx_ok l d → tx_blocks l !! t = Some b →
  home (l_start l) (l_size l) d b ∧
  u32 (l_start l + Z.of_nat t + 1) = l_start l + Z.of_nat t + 1 ∧
  l_start l < l_start l + Z.of_nat t + 1 < l_start l + l_size l ∧
  l_start l + Z.of_nat t + 1 ≠ b.
Proof.
  intros Htx Hb. pose proof (length_tx_blocks l d Htx) as Hlen.
  pose proof (lookup_lt_Some _ _ _ Hb). destruct Htx as [? ? ? ? ? ? ? Hhome ?].
  eapply Forall_lookup_1 in Hhome as Hh; [|exact Hb]. pose proof Hh as [? ?].
  split_and!; [done|apply u32_id; unfold is_u32; lia|lia|lia|lia].
Qed.

Lemma log_blocks_nodup l : NoDup (imap (λ t (_ : Z), l_start l + Z.of_nat t + 1) (tx_blocks l)).
Proof.
  apply NoDup_alt. intros i j x Hi Hj. rewrite list_lookup_imap in Hi, Hj.
  destruct (tx_blocks l !! i), (tx_blocks l !! j); simplify_eq/=. lia.
Qed.

Lemma log_block_in l d x :
  tx_ok l d → x ∈ imap (λ t (_ : Z), l_start l + Z.of_nat t + 1) (tx_blocks l) →
  l_start l < x < l_start l + l_size l.
Proof.
  intros Htx [t Ht]%list_elem_of_lookup. rewrite list_lookup_imap in Ht.
  destruct (tx_blocks l !! t) as [b|] eqn:Hb; [|done]. injection Ht as <-.
  apply (tx_entry l d t b Htx Hb).
Qed.

Lemma tx_block_home l d b : tx_ok l d → b ∈ tx_blocks l → home (l_start l) (l_size l) d b.
Proof. intros Htx Hb. eapply Forall_forall in Hb; [exact Hb|apply Htx]. Qed.

Lemma wp_install_trans l d w D v :
  tx_ok l d → (size D < Z.to_nat NBUF)%nat →
  (∀ x, x ∈ D → home (l_start l) (l_size l) d x) →
  ((∀ b, b ∈ tx_blocks l → b ∈ D) ∨ (1 + size D < Z.to_nat NBUF)%nat) →
  state_is (l_cache l) d w ∅ D v →
  wp install_trans (λ _ l', ∃ c, l' = with_cache c l ∧
    state_is c (apply_writes d (install_writes l v)) (w ++ install_writes l v) ∅
      (D ∖ list_to_set (tx_blocks l)) (upd_views v (install_writes l v))) l.
Proof.
  intros Htx Hsz HD Hcap Hst. unfold install_trans. wp_steps.
  pose proof (length_tx_blocks l d Htx) as Hlen. rewrite <- Hlen.
  set (pairs := imap (λ t b, (l_start l + Z.of_nat t + 1, b)) (tx_blocks l)).
  assert (Hsnd : pairs.*2 = tx_blocks l).
  { unfold pairs. rewrite fmap_imap. etransitivity; [apply (imap_const id)|apply list_fmap_id]. }
  assert (Hws : install_writes l v = (λ p, (p.2, v p.1)) <$> pairs).
  { unfold pairs. rewrite fmap_imap. done. }
  rewrite Hws, <- Hsnd.
  replace (length (pairs.*2)) with (length pairs) by by rewrite length_fmap.
  apply (copy_loop install_one pairs l d w D v); [| |done].
  - intros [a b] Hp%list_elem_of_lookup. destruct Hp as [t Ht]. unfold pairs in Ht.
    rewrite list_lookup_imap in Ht. destruct (tx_blocks l !! t) as [b'|] eqn:Hb; [|done].
    injection Ht as <- <-. rewrite Hsnd. intros Hin%(tx_block_home l d _ Htx).
    destruct (tx_entry l d t _ Htx Hb) as (_ & _ & ? & _). destruct Hin. cbn [fst] in *. lia.
  - intros t src dst c d' w' v' Ht Hd' Hc. unfold pairs in Ht. rewrite Hsnd in *.
    rewrite list_lookup_imap in Ht. destruct (tx_blocks l !! t) as [b|] eqn:Hb; [|done].
    injection Ht as <- <-. destruct (tx_blocks_lookup l t b Hb) as (b' & Hb' & Hbu).
    destruct (tx_entry l d t b Htx Hb) as (Hhome & Hu & Hr & Hne).
    set (D' := D ∖ _) in *. assert (HD' : D' ⊆ D) by set_solver.
    apply subseteq_size in HD' as Hsz'. pose proof (tx_region l d Htx).
    apply (wp_install_one (with_cache c l) d' w' D' v' _ b'); simpl; try done; try lia.
    + apply Htx.
    + by rewrite Nat2Z.id.
    + rewrite Hd'. apply Hhome.
    + intros Hin%HD'%HD. destruct Hin. lia.
    + destruct Hcap as [Hall|?]; [left|right; lia]. apply elem_of_difference.
      split; [by apply Hall, list_elem_of_lookup_2 with t|].
      rewrite elem_of_list_to_set. intros (k & Hk)%list_elem_of_lookup.
      apply lookup_take_Some in Hk as [Hk Hkt].
      pose proof (NoDup_lookup _ _ _ _ (tx_nodup l d Htx) Hk Hb). lia.
Qed.

Lemma wp_write_log l d w D v :
  tx_ok l d → (size D < Z.to_nat NBUF)%nat →
  (∀ x, x ∈ D → home (l_start l) (l_size l) d x) → (∀ b, b ∈ tx_blocks l → b ∈ D) →
  state_is (l_cache l) d w ∅ D v →
  wp write_log (λ _ l', ∃ c, l' = with_cache c l ∧
    state_is c (apply_writes d (log_fill l v)) (w ++ log_fill l v) ∅ D
      (upd_views v (log_fill l v))) l.
Proof.
  intros Htx Hsz HD Hall Hst. unfold write_log. wp_steps.
  pose proof (length_tx_blocks l d Htx) as Hlen. rewrite <- Hlen.
  set (pairs := imap (λ t b, (b, l_start l + Z.of_nat t + 1)) (tx_blocks l)).
  set (lbs := imap (λ t (_ : Z), l_start l + Z.of_nat t + 1) (tx_blocks l)).
  assert (Hsnd : pairs.*2 = lbs) by (unfold pairs, lbs; by rewrite fmap_imap).
  assert (Hws : log_fill l v = (λ p, (p.2, v p.1)) <$> pairs).
  { unfold pairs. rewrite fmap_imap. done. }
  assert (HDl : ∀ k, D ∖ list_to_set (take k lbs) = D).
  { intros k. apply set_eq. intros x. rewrite elem_of_difference, elem_of_list_to_set.
    split; [tauto|]. intros Hx. split; [done|]. intros Hin%subseteq_take.
    apply (log_block_in l d x Htx) in Hin. apply HD in Hx. destruct Hx. lia. }
  rewrite Hws. replace (length (tx_blocks l)) with (length pairs) by by unfold pairs; rewrite length_imap.
  rewrite <- (HDl (length lbs)), take_ge, <- Hsnd by done.
  apply (copy_loop write_log_one pairs l d w D v); [| |done].
  - intros [b a] Hp%list_elem_of_lookup. destruct Hp as [t Ht]. unfold pairs in Ht.
    rewrite list_lookup_imap in Ht. destruct (tx_blocks l !! t) as [b'|] eqn:Hb; [|done].
    injection Ht as <- <-. rewrite Hsnd. cbn [fst]. intros Hin%(log_block_in l d _ Htx).
    destruct (tx_entry l d t _ Htx Hb) as ([_ ?] & _). lia.
  - intros t src dst c d' w' v' Ht Hd' Hc. rewrite Hsnd, HDl in *. unfold pairs in Ht.
    rewrite list_lookup_imap in Ht. destruct (tx_blocks l !! t) as [b|] eqn:Hb; [|done].
    injection Ht as <- <-. destruct (tx_blocks_lookup l t b Hb) as (b' & Hb' & Hbu).
    destruct (tx_entry l d t b Htx Hb) as (Hhome & Hu & Hr & Hne).
    pose proof (tx_region l d Htx).
    apply (wp_write_log_one (with_cache c l) d' w' D v' _ b'); simpl; try done; try lia.
    + apply Htx.
    + by rewrite Nat2Z.id.
    + rewrite Hd'. apply Hhome.
    + by apply Hall, list_elem_of_lookup_2 with t.
Qed.
End phases.

(** ** The header *)

Section head.
Context {S : Type} `{BufCacheLaws S}.
Implicit Types (l : log S) (d : list block) (w : list (Z * block)) (D : gset Z)
  (v : Z → block).

Lemma singleton_size {A} (i : nat) (x : A) : size (<[i := x]> (∅ : gmap nat A)) = 1%nat.
Proof. rewrite map_size_insert_None, map_size_empty by apply lookup_empty. done. Qed.

Lemma wp_write_head l d w D v :
  tx_ok l d → (size D < Z.to_nat NBUF)%nat → l_start l ∉ D →
  state_is (l_cache l) d w ∅ D v →
  let hdr := put_head (lh_n (l_lh l)) (lh_block (l_lh l)) (v (l_start l)) in
  wp write_head (λ _ l', ∃ c, l' = with_cache c l ∧
    state_is c (<[Z.to_nat (l_start l) := hdr]> d) (w ++ [(l_start l, hdr)]) ∅ D
      (view_upd v (l_start l) hdr)) l.
Proof.
  intros Htx Hsz HsD Hst hdr. destruct Htx as [Hdev Hs0 Hreg Hsm Hlen Hn Hfits _ _].
  set (st := l_start l) in *. set (n := lh_n (l_lh l)) in *.
  set (bs := lh_block (l_lh l)) in *.
  assert (Hu : u32 st = st) by (apply u32_id; unfold is_u32; lia).
  assert (Hok : block_ok (v st)) by (eapply state_block_ok; [exact Hst|lia]).
  assert (HDs : D ∖ {[st]} = D) by set_solver.
  unfold write_head. wp_steps. rewrite Hdev. fold st. rewrite Hu.
  eapply wp_bread_; [exact Hst|lia|done|right; by rewrite map_size_empty|].
  intros i c1 _ Hc1. wp_steps. eapply wp_data_; [exact Hc1|apply lookup_insert_eq|]. wp_step.
  change (lh_n (l_lh (with_cache c1 l))) with n.
  assert (Hok0 : block_ok (put_u32 0 n (v st))) by (apply put_u32_ok; [vm_compute; lia|done]).
  eapply wp_set_data_; [exact Hc1|apply lookup_insert_eq|done|]. intros c2 Hc2. wp_step.
  eapply wp_mono.
  { apply (wp_for_loop (λ k l', ∃ c, l' = with_cache c l ∧ state_is c d w (<[i := st]> ∅) D
      (view_upd v st (put_blocks (Z.to_nat k) bs (put_u32 0 n (v st)))))); [by exists c2|].
    intros k l' Hk (c & -> & Hc). wp_step.
    destruct (lookup_lt_is_Some_2 bs (Z.to_nat k)) as [b Hb]; [rewrite Hlen; lia|].
    eapply wp_block_at; [exact Hb|]. wp_step.
    eapply wp_data_; [exact Hc|apply lookup_insert_eq|]. rewrite view_upd_eq.
    replace (Z.to_nat (4 + 4 * k)) with (4 + 4 * Z.to_nat k)%nat by lia.
    eapply wp_set_data_; [exact Hc|apply lookup_insert_eq| |].
    - apply put_u32_ok; [unfold LOGSIZE, MAXOPBLOCKS, BSIZE in *; lia|].
      apply put_blocks_ok; [lia|done].
    - intros c' Hc'. exists c'. split; [done|].
      replace (Z.to_nat (k + 1)) with (Datatypes.S (Z.to_nat k)) by lia. cbn [put_blocks].
      rewrite (list_lookup_total_correct _ _ _ Hb).
      eapply state_is_view; [exact Hc'|]. intros x _. unfold view_upd. by repeat case_decide. }
  intros [] l' (c & -> & Hc). rewrite Z.add_0_l, Z2Nat.id in Hc by lia. fold hdr in Hc. wp_step.
  eapply wp_bwrite_; [exact Hc|apply lookup_insert_eq|]. intros c3 Hc3.
  rewrite view_upd_eq, HDs in Hc3.
  eapply wp_brelse_; [exact Hc3|apply lookup_insert_eq| |].
  - right. rewrite view_upd_eq. symmetry. apply list_lookup_total_insert_eq. lia.
  - intros c4 Hc4. exists c4. split; [done|]. by rewrite delete_insert_id in Hc4 by apply lookup_empty.
Qed.

Lemma wp_block_set l i x (Q : unit → log S → Prop) :
  0 ≤ i < Z.of_nat (length (lh_block (l_lh l))) →
  Q tt (with_block (<[Z.to_nat i := x]> (lh_block (l_lh l))) l) → wp (block_set i x) Q l.
Proof.
  intros Hi HQ. unfold block_set. wp_step. wp_step.
  destruct (Z.of_nat (length _) <=? i) eqn:E; bool_props; [lia|]. by wp_step.
Qed.

(** The log state with the header [hdr] read in. *)
Definition head_read l (hdr : block) (l' : log S) : Prop :=
  ∃ c bs, l' = with_cache c (with_block bs (with_n (hdr_n hdr) l)) ∧
    length bs = Z.to_nat LOGSIZE ∧
    (∀ i, (i < Z.to_nat (hdr_n hdr))%nat → bs !! i = Some (hdr_block hdr i)).

Lemma wp_read_head l d w v :
  l_dev l = ROOTDEV → 0 ≤ l_start l < Z.of_nat (length d) → Z.of_nat (length d) < 2 ^ 31 →
  length (lh_block (l_lh l)) = Z.to_nat LOGSIZE → hdr_n (v (l_start l)) ≤ LOGSIZE →
  state_is (l_cache l) d w ∅ ∅ v →
  wp read_head (λ _ l', head_read l (v (l_start l)) l' ∧
    state_is (l_cache l') d w ∅ ∅ v) l.
Proof.
  intros Hdev Hs Hsm Hlen Hn Hst. set (st := l_start l) in *.
  assert (Hu : u32 st = st) by (apply u32_id; unfold is_u32; lia).
  assert (Hclean : v st = d !!! Z.to_nat st) by (eapply state_clean; [exact Hst|lia|done|done]).
  unfold read_head. wp_steps. rewrite Hdev. fold st. rewrite Hu.
  eapply wp_bread_; [exact Hst|lia|done|right; rewrite map_size_empty, size_empty; vm_compute; lia|].
  intros i c1 _ Hc1. wp_steps. eapply wp_data_; [exact Hc1|apply lookup_insert_eq|]. wp_steps.
  change (get_i32 0 (v st)) with (hdr_n (v st)). set (n := hdr_n (v st)) in *.
  eapply wp_mono.
  { apply (wp_for_loop (λ k l', ∃ bs, l' = with_cache c1 (with_block bs (with_n n l)) ∧
      length bs = Z.to_nat LOGSIZE ∧
      ∀ j, (j < Z.to_nat k)%nat → bs !! j = Some (hdr_block (v st) j))).
    - exists (lh_block (l_lh l)). split_and!; [by destruct l|done|intros; lia].
    - intros k l' Hk (bs & -> & Hbl & Hbs). apply wp_block_set; [simpl; lia|].
      eexists. split; [reflexivity|]. simpl. rewrite length_insert. split; [done|].
      intros j Hj. destruct (decide (j = Z.to_nat k)) as [->|Hne].
      + rewrite list_lookup_insert_eq by lia. unfold hdr_block. do 2 f_equal. lia.
      + rewrite list_lookup_insert_ne by done. apply Hbs. lia. }
  intros [] l' (bs & -> & Hbl & Hbs). rewrite Z.add_0_l in Hbs.
  eapply wp_brelse_; [exact Hc1|apply lookup_insert_eq|by right|].
  intros c2 Hc2. rewrite delete_insert_id in Hc2 by apply lookup_empty.
  split; [|exact Hc2]. exists c2, bs. split_and!; [done|done|]. intros j Hj. apply Hbs.
  fold n in Hj. lia.
Qed.
End head.
