(* ===== verification/LogCrash.v ===== *)
(** * Crash safety of the log (log.c)

    [commit] and [recover_from_log] are run on any buffer cache that keeps its
    contract.  The theorems say which disk every prefix of a commit's writes
    leaves, what recovery makes of it, and that a recovery which is itself
    interrupted can be run again. *)

From S2P Require Import Prelude Words Params Locks BufIface Redo Log.

(** ** Small facts about transactions *)

Section facts.
Context {S : Type}.
Implicit Types (l : log S) (d : list block) (v : Z → block).

Lemma tx_ok_length l d d' : length d' = length d → tx_ok l d → tx_ok l d'.
Proof.
  intros Hd [? ? ? ? ? ? ? Hh ?]. split; rewrite ?Hd; auto.
  eapply Forall_impl; [exact Hh|]. unfold home. by rewrite Hd.
Qed.

Lemma tx_ok_clear l d : tx_ok l d → tx_ok (with_n 0 l) d.
Proof.
  intros [? ? ? ? ? Hn Hf ? ?]. split; simpl; auto; try lia; by constructor.
Qed.

Lemma tx_ok_cache l d c : tx_ok l d → tx_ok (with_cache c l) d.
Proof. by intros [? ? ? ? ? ? ? ? ?]. Qed.

Lemma fst_install_writes l v : (install_writes l v).*1 = tx_blocks l.
Proof.
  unfold install_writes. rewrite fmap_imap. etransitivity; [apply (imap_const id)|apply list_fmap_id].
Qed.

Lemma fst_log_fill l v :
  (log_fill l v).*1 = imap (λ t (_ : Z), l_start l + Z.of_nat t + 1) (tx_blocks l).
Proof. unfold log_fill. by rewrite fmap_imap. Qed.

(** The home writes of a commit: every block of the transaction gets its
    content. *)
Definition home_writes l v : list (Z * block) := (λ b, (b, v b)) <$> tx_blocks l.

Lemma fst_home_writes l v : (home_writes l v).*1 = tx_blocks l.
Proof. unfold home_writes. rewrite <- list_fmap_compose. apply list_fmap_id. Qed.

Lemma home_writes_in l v b : b ∈ tx_blocks l → (b, v b) ∈ home_writes l v.
Proof. intros. by apply (list_elem_of_fmap_2 (λ b, (b, v b))). Qed.

Lemma tx_writes_ok l d ws : tx_ok l d → ws.*1 = tx_blocks l → writes_ok ws.
Proof.
  intros Htx Heq. apply (Forall_fmap fst (Z.le 0)). rewrite Heq.
  eapply Forall_impl; [apply Htx|]. intros b [Hb _]. lia.
Qed.

Lemma log_fill_ok l d v : tx_ok l d → writes_ok (log_fill l v).
Proof.
  intros Htx. apply (Forall_fmap fst (Z.le 0)). rewrite fst_log_fill. apply Forall_forall.
  intros x Hx. apply (log_block_in l d x Htx) in Hx. pose proof (tx_start l d Htx). lia.
Qed.

Lemma log_fill_in l v t b :
  tx_blocks l !! t = Some b → (l_start l + Z.of_nat t + 1, v b) ∈ log_fill l v.
Proof.
  intros Hb. apply list_elem_of_lookup. exists t. unfold log_fill.
  by rewrite list_lookup_imap, Hb.
Qed.

(** The home blocks and the log blocks do not meet. *)
Lemma home_not_log l d v b :
  tx_ok l d → home (l_start l) (l_size l) d b → b ∉ (log_fill l v).*1.
Proof.
  intros Htx [_ Hb] Hin. rewrite fst_log_fill in Hin.
  apply (log_block_in l d b Htx) in Hin. lia.
Qed.

(** The writes of [commit], in order. *)
Definition commit_head l v : block :=
  put_head (lh_n (l_lh l)) (lh_block (l_lh l)) (v (l_start l)).
Definition commit_writes l v : list (Z * block) :=
  log_fill l v ++ [(l_start l, commit_head l v)] ++ home_writes l v ++
  [(l_start l, put_u32 0 0 (commit_head l v))].

Lemma put_head_zero bs blk : put_head 0 bs blk = put_u32 0 0 blk.
Proof. done. Qed.

Lemma list_to_set_self_diff (l : list Z) : list_to_set l ∖ list_to_set l =@{gset Z} ∅.
Proof. set_solver. Qed.

Lemma size_tx l d :
  tx_ok l d → size (list_to_set (tx_blocks l) : gset Z) = Z.to_nat (lh_n (l_lh l)).
Proof.
  intros Htx. rewrite size_list_to_set by apply Htx. by apply (length_tx_blocks l d).
Qed.
End facts.

(** ** The code *)

Section runs.
Context {S : Type} `{BufCacheLaws S}.
Implicit Types (l : log S) (d : list block) (w : list (Z * block)) (v : Z → block).

(** With nothing dirty and nothing in use, every block reads as on the disk. *)
Lemma quiet_state (c : S) d w v :
  state_is c d w ∅ ∅ v → state_is c d w ∅ ∅ (λ b, d !!! Z.to_nat b).
Proof.
  intros Hst. eapply state_is_view; [exact Hst|]. intros x Hx.
  eapply state_clean; [exact Hst|done|set_solver|intros i; by rewrite lookup_empty].
Qed.

(** The header written last: zero entries. *)
Lemma wp_clear_head l d w v :
  tx_ok l d → state_is (l_cache l) d w ∅ ∅ v →
  let hdr := put_u32 0 0 (v (l_start l)) in
  wp (modify (with_n 0) ;; write_head) (λ _ l', ∃ c, l' = with_cache c (with_n 0 l) ∧
    state_is c (<[Z.to_nat (l_start l) := hdr]> d) (w ++ [(l_start l, hdr)]) ∅ ∅
      (λ b, <[Z.to_nat (l_start l) := hdr]> d !!! Z.to_nat b)) l.
Proof.
  intros Htx Hst hdr. wp_steps. eapply wp_mono.
  - apply (wp_write_head (with_n 0 l) d w ∅ v); [by apply tx_ok_clear| |set_solver|done].
    rewrite size_empty. vm_compute. lia.
  - intros [] l' (c & -> & Hc). exists c. split; [done|]. by apply quiet_state in Hc.
Qed.

Lemma head_read_blocks l hdr l' :
  head_read l hdr l' → hdr_n hdr ≤ LOGSIZE →
  tx_blocks l' = (λ i, u32 (hdr_block hdr i)) <$> seq 0 (Z.to_nat (hdr_n hdr)).
Proof.
  intros (c & bs & -> & Hlen & Hbs) Hn. unfold tx_blocks. simpl.
  apply list_eq. intros i. rewrite !list_lookup_fmap.
  destruct (decide (i < Z.to_nat (hdr_n hdr))%nat).
  - rewrite lookup_take_lt, Hbs, lookup_seq_lt by done. done.
  - rewrite lookup_take_ge, lookup_seq_ge by lia. done.
Qed.

Lemma fst_log_writes start d :
  (log_writes start d).*1 = (λ i, u32 (hdr_block (d !!! Z.to_nat start) i))
    <$> seq 0 (Z.to_nat (hdr_n (d !!! Z.to_nat start))).
Proof. unfold log_writes. by rewrite <- list_fmap_compose. Qed.

Lemma head_read_tx_ok l d l' :
  log_wf (l_start l) (l_size l) d → l_dev l = ROOTDEV →
  head_read l (d !!! Z.to_nat (l_start l)) l' → tx_ok l' d.
Proof.
  intros Hwf Hdev Hrd. pose proof Hwf as [? ? ? Hn Hf Hh Hnd].
  pose proof (head_read_blocks _ _ _ Hrd ltac:(lia)) as Hbl.
  rewrite <- fst_log_writes in Hbl. destruct Hrd as (c & bs & -> & Hlen & Hbs).
  split; rewrite ?Hbl; simpl; try done. by apply Forall_fmap.
Qed.

Lemma head_read_install l d l' v :
  head_read l (d !!! Z.to_nat (l_start l)) l' → hdr_n (d !!! Z.to_nat (l_start l)) ≤ LOGSIZE →
  0 ≤ l_start l → (∀ b, 0 ≤ b → v b = d !!! Z.to_nat b) →
  install_writes l' v = log_writes (l_start l) d.
Proof.
  intros Hrd Hn Hs Hv. unfold install_writes. rewrite (head_read_blocks _ _ _ Hrd Hn).
  destruct Hrd as (c & bs & -> & _). simpl. unfold log_writes. apply list_eq. intros i.
  rewrite list_lookup_imap, !list_lookup_fmap.
  destruct (decide (i < Z.to_nat (hdr_n (d !!! Z.to_nat (l_start l))))%nat).
  - rewrite lookup_seq_lt by done. simpl. by rewrite Hv by lia.
  - rewrite lookup_seq_ge by lia. done.
Qed.

(** The writes of a recovery, in order. *)
Definition recovery_writes (start : Z) (d : list block) : list (Z * block) :=
  log_writes start d ++ [(start, put_u32 0 0 (d !!! Z.to_nat start))].

Lemma wp_recover l d w :
  log_wf (l_start l) (l_size l) d → l_dev l = ROOTDEV →
  length (lh_block (l_lh l)) = Z.to_nat LOGSIZE →
  state_is (l_cache l) d w ∅ ∅ (λ b, d !!! Z.to_nat b) →
  wp recover_from_log (λ _ l', ∃ c bs, l' = with_cache c (with_block bs (with_n 0 l)) ∧
    length bs = Z.to_nat LOGSIZE ∧
    let d' := apply_writes d (recovery_writes (l_start l) d) in
    state_is c d' (w ++ recovery_writes (l_start l) d) ∅ ∅ (λ b, d' !!! Z.to_nat b)) l.
Proof.
  intros Hwf Hdev Hlen Hst. pose proof Hwf as [Hs Hreg Hsm Hn Hf Hh Hnd].
  set (v := λ b, d !!! Z.to_nat b) in *. set (lw := log_writes (l_start l) d).
  unfold recover_from_log. wp_step.
  eapply wp_mono; [apply (wp_read_head l d w v); (done || lia || apply Hn)|].
  intros [] l1 [Hrd Hc1]. wp_step.
  pose proof (head_read_tx_ok l d l1 Hwf Hdev Hrd) as Htx.
  assert (Hiw : install_writes l1 v = lw).
  { apply head_read_install; [done|apply Hn|done|done]. }
  eapply wp_mono.
  { apply (wp_install_trans l1 d w ∅ v Htx); [|set_solver|right|exact Hc1];
      rewrite size_empty; vm_compute; lia. }
  intros [] l2 (c2 & -> & Hc2). rewrite Hiw in Hc2.
  pose proof Hrd as (c & bs & -> & Hbl & _).
  assert (HD : (∅ : gset Z) ∖ list_to_set (tx_blocks (with_cache c (with_block bs (with_n (hdr_n (v (l_start l))) l)))) = ∅)
    by set_solver.
  rewrite HD in Hc2.
  eapply wp_mono.
  { eapply (wp_clear_head _ (apply_writes d lw)); [|exact Hc2].
    apply tx_ok_cache. eapply tx_ok_length; [apply length_apply_writes|exact Htx]. }
  assert (Hsv : upd_views v lw (l_start l) = v (l_start l)).
  { apply upd_views_other. intros Hin. apply list_elem_of_fmap in Hin as (x & Hx & Hin).
    eapply Forall_forall in Hin; [|exact Hh]. destruct Hin. lia. }
  intros [] l3 (c3 & -> & Hc3). exists c3, bs. split_and!; [done|done|].
  simpl in Hc3. rewrite Hsv in Hc3. unfold recovery_writes. fold lw.
  rewrite apply_writes_app. rewrite (assoc_L app). exact Hc3.
Qed.

(** After the log is filled and the header written, the installed contents are
    those of the transaction. *)
Lemma install_after_fill l d v x :
  tx_ok l d →
  install_writes l (view_upd (upd_views v (log_fill l v)) (l_start l) x) = home_writes l v.
Proof.
  intros Htx. unfold install_writes, home_writes. apply list_eq. intros t.
  rewrite list_lookup_imap, list_lookup_fmap.
  destruct (tx_blocks l !! t) as [b|] eqn:Hb; [|done]. simpl. do 2 f_equal.
  destruct (tx_entry l d t b Htx Hb) as (_ & _ & ? & _).
  rewrite view_upd_ne by lia. apply upd_views_in; [|by apply log_fill_in].
  rewrite fst_log_fill. apply log_blocks_nodup.
Qed.

Lemma wp_commit l d w v :
  tx_ok l d → 0 < lh_n (l_lh l) < NBUF →
  state_is (l_cache l) d w ∅ (list_to_set (tx_blocks l)) v →
  wp commit (λ _ l', ∃ c, l' = with_cache c (with_n 0 l) ∧
    let d' := apply_writes d (commit_writes l v) in
    state_is c d' (w ++ commit_writes l v) ∅ ∅ (λ b, d' !!! Z.to_nat b)) l.
Proof.
  intros Htx Hn Hst. set (D := list_to_set (tx_blocks l) : gset Z) in *.
  assert (Hsz : (size D < Z.to_nat NBUF)%nat) by (unfold D; rewrite (size_tx l d Htx); lia).
  assert (HD : ∀ b, b ∈ D → home (l_start l) (l_size l) d b).
  { intros b Hb. unfold D in Hb. rewrite elem_of_list_to_set in Hb. by apply tx_block_home. }
  assert (Hst0 : l_start l ∉ D).
  { intros Hin%HD. destruct Hin. pose proof (tx_fits l d Htx). lia. }
  assert (Hstl : l_start l ∉ (log_fill l v).*1).
  { rewrite fst_log_fill. intros Hin%(log_block_in l d _ Htx). lia. }
  unfold commit. wp_steps; [|bool_props; lia].
  eapply wp_mono; [apply (wp_write_log l d w D v); [done|done|done|set_solver|done]|].
  intros [] l1 (c1 & -> & Hc1). wp_step.
  set (d1 := apply_writes d (log_fill l v)) in *.
  assert (Htx1 : tx_ok l d1) by (eapply tx_ok_length; [apply length_apply_writes|exact Htx]).
  eapply wp_mono.
  { eapply (wp_write_head (with_cache c1 l) d1 _ D (upd_views v (log_fill l v)));
      [by apply tx_ok_cache|done|done|exact Hc1]. }
  simpl. rewrite upd_views_other by done. fold (commit_head l v).
  intros [] l2 (c2 & -> & Hc2). wp_step.
  set (d2 := <[Z.to_nat (l_start l) := commit_head l v]> d1) in *.
  assert (Hlen2 : length d2 = length d1) by apply length_insert.
  assert (Htx2 : tx_ok l d2) by (eapply tx_ok_length; [exact Hlen2|exact Htx1]).
  eapply wp_mono.
  { eapply (wp_install_trans _ d2 _ D); [apply tx_ok_cache, tx_ok_cache, Htx2|done| | |exact Hc2].
    - intros x Hx%HD. destruct Hx as [? ?]. split; [|done].
      rewrite Hlen2. unfold d1. by rewrite length_apply_writes.
    - left. intros b Hb. unfold D. by rewrite elem_of_list_to_set. }
  change (install_writes (with_cache c2 (with_cache c1 l)) ?u) with (install_writes l u).
  rewrite (install_after_fill l d v _ Htx).
  change (tx_blocks (with_cache c2 (with_cache c1 l))) with (tx_blocks l).
  intros [] l3 (c3 & -> & Hc3). unfold D in Hc3. rewrite list_to_set_self_diff in Hc3.
  eapply wp_mono.
  { eapply (wp_clear_head _ (apply_writes d2 (home_writes l v))); [|exact Hc3].
    apply tx_ok_cache, tx_ok_cache, tx_ok_cache.
    eapply tx_ok_length; [apply length_apply_writes|exact Htx2]. }
  simpl. rewrite upd_views_other.
  2:{ rewrite fst_home_writes. intros Hin. apply Hst0. unfold D. by rewrite elem_of_list_to_set. }
  rewrite view_upd_eq. intros [] l4 (c4 & -> & Hc4). exists c4. split; [done|].
  unfold commit_writes. rewrite !apply_writes_app. rewrite !(assoc_L app). exact Hc4.
Qed.
End runs.

(** ** Disks in the middle of a commit *)

Section crash.
Context {S : Type}.
Implicit Types (l : log S) (d : list block) (v : Z → block).

(** A log whose header has no entries. *)
Lemma recovered_empty start d :
  hdr_n (d !!! Z.to_nat start) = 0 → recovered start d = d.
Proof. intros Hn. unfold recovered, log_writes. by rewrite Hn. Qed.

Lemma empty_wf start nlog d :
  0 ≤ start → 0 < nlog → start + nlog ≤ Z.of_nat (length d) → Z.of_nat (length d) < 2 ^ 31 →
  hdr_n (d !!! Z.to_nat start) = 0 → log_wf start nlog d.
Proof.
  intros ? ? ? ? Hn.
  assert (Hlw : log_writes start d = []) by (unfold log_writes; by rewrite Hn).
  split; rewrite ?Hlw; rewrite ?Hn; try done; by constructor.
Qed.

(** A disk that holds the transaction of [l] in its log. *)
Definition log_holds l v d : Prop :=
  d !!! Z.to_nat (l_start l) = commit_head l v ∧
  ∀ t b, tx_blocks l !! t = Some b → d !!! Z.to_nat (l_start l + Z.of_nat t + 1) = v b.

Lemma log_holds_writes l d d' v :
  tx_ok l d → block_ok (v (l_start l)) → log_holds l v d' →
  log_writes (l_start l) d' = home_writes l v.
Proof.
  intros Htx Hok [Hh Hb]. unfold log_writes, home_writes. rewrite Hh.
  pose proof (tx_n l d Htx) as Hn. pose proof (length_tx_blocks l d Htx) as Hlen.
  unfold commit_head at 2. rewrite hdr_n_put_head by done.
  apply list_eq. intros i. rewrite !list_lookup_fmap.
  destruct (tx_blocks l !! i) as [b|] eqn:E.
  - pose proof (lookup_lt_Some _ _ _ E). rewrite lookup_seq_lt by lia. simpl.
    rewrite (Hb i b E). destruct (tx_blocks_lookup l i b E) as (b' & Hb' & ->).
    do 2 f_equal. unfold commit_head. rewrite hdr_block_put_head by (done || lia).
    by rewrite (list_lookup_total_correct _ _ _ Hb').
  - apply lookup_ge_None in E. rewrite lookup_seq_ge by lia. done.
Qed.

Lemma length_log_fill l v : length (log_fill l v) = length (tx_blocks l).
Proof. apply length_imap. Qed.

Lemma length_home_writes l v : length (home_writes l v) = length (tx_blocks l).
Proof. apply length_fmap. Qed.

Lemma prefix_app {A} (a b : list A) k :
  take k (a ++ b) = if decide (k ≤ length a)%nat then take k a else a ++ take (k - length a) b.
Proof.
  rewrite take_app. case_decide.
  - replace (k - length a)%nat with 0%nat by lia. by rewrite app_nil_r.
  - by rewrite take_ge by lia.
Qed.

(** Writes to the log region leave the home blocks alone. *)
Lemma fill_home l d v ws b :
  tx_ok l d → home (l_start l) (l_size l) d b →
  (∀ w, w ∈ ws → w ∈ log_fill l v ∨ w.1 = l_start l) →
  apply_writes d ws !!! Z.to_nat b = d !!! Z.to_nat b.
Proof.
  intros Htx Hb Hws. pose proof Hb as [? Hout]. pose proof (tx_start l d Htx).
  pose proof (tx_fits l d Htx). pose proof (tx_n l d Htx).
  apply apply_writes_other; [|lia|].
  - apply Forall_forall. intros x [Hx| ->]%Hws; [|done].
    eapply Forall_forall in Hx; [exact Hx|by eapply log_fill_ok].
  - intros (x & -> & Hx)%list_elem_of_fmap. apply Hws in Hx as [Hx|Hx]; [|lia].
    apply (home_not_log l d v x.1 Htx Hb). by apply list_elem_of_fmap_2.
Qed.

(** Phase 1: the log is being filled. *)
Lemma crash_fill l d v k :
  tx_ok l d → hdr_n (d !!! Z.to_nat (l_start l)) = 0 →
  let dk := apply_writes d (take k (log_fill l v)) in
  log_wf (l_start l) (l_size l) dk ∧
  ∀ b, home (l_start l) (l_size l) d b →
    recovered (l_start l) dk !!! Z.to_nat b = d !!! Z.to_nat b.
Proof.
  intros Htx Hn dk. pose proof Htx as [? Hs ? ? ? ? ? _ _].
  assert (Hsub : ∀ w, w ∈ take k (log_fill l v) → w ∈ log_fill l v) by apply subseteq_take.
  assert (Hh : dk !!! Z.to_nat (l_start l) = d !!! Z.to_nat (l_start l)).
  { apply apply_writes_other; [by eapply Forall_take, log_fill_ok|done|].
    rewrite fmap_take, fst_log_fill. intros Hin%subseteq_take.
    apply (log_block_in l d _ Htx) in Hin. lia. }
  split.
  - apply empty_wf; try lia; try (unfold dk; rewrite length_apply_writes; lia).
    by rewrite Hh.
  - intros b Hb. rewrite recovered_empty by by rewrite Hh.
    eapply fill_home; [done|done|]. intros w Hw. left. by apply Hsub.
Qed.

(** The disk when the header has just been written. *)
Lemma committed_disk l d v :
  tx_ok l d →
  let d1 := apply_writes d (log_fill l v ++ [(l_start l, commit_head l v)]) in
  log_holds l v d1 ∧ length d1 = length d ∧
  ∀ b, home (l_start l) (l_size l) d b → d1 !!! Z.to_nat b = d !!! Z.to_nat b.
Proof.
  intros Htx d1. pose proof Htx as [? Hs ? ? ? ? ? _ _].
  assert (Hlen : length d1 = length d) by apply length_apply_writes.
  split_and!; [split|done|].
  - unfold d1. rewrite apply_writes_app. apply list_lookup_total_insert_eq.
    cbn [fst]. rewrite length_apply_writes. lia.
  - intros t b Hb. destruct (tx_entry l d t b Htx Hb) as (_ & _ & ? & _).
    unfold d1. rewrite apply_writes_app. cbn [apply_writes foldl fst snd].
    rewrite list_lookup_total_insert_ne by lia.
    apply apply_writes_in; [by eapply log_fill_ok| |by apply log_fill_in|lia].
    rewrite fst_log_fill. apply log_blocks_nodup.
  - intros b Hb. eapply fill_home; [done|done|]. intros w [?|Hw]%elem_of_app; [by left|right].
    apply list_elem_of_singleton in Hw as ->. done.
Qed.

(** Home writes leave the log as it is. *)
Lemma log_holds_home l d d1 v ws :
  tx_ok l d → length d1 = length d → (∀ w, w ∈ ws → w ∈ home_writes l v) →
  log_holds l v d1 → log_holds l v (apply_writes d1 ws).
Proof.
  intros Htx Hlen Hws [Hh Hb].
  assert (Hok : writes_ok ws).
  { apply Forall_forall. intros w Hw%Hws.
    by apply (proj1 (Forall_forall _ _) (tx_writes_ok l d _ Htx (fst_home_writes l v))). }
  assert (Hout : ∀ x, l_start l ≤ x < l_start l + l_size l → x ∉ ws.*1).
  { intros x Hx (w & -> & Hw)%list_elem_of_fmap. apply Hws in Hw.
    apply (list_elem_of_fmap_2 fst) in Hw. rewrite fst_home_writes in Hw.
    apply (tx_block_home l d _ Htx) in Hw as [_ ?]. lia. }
  pose proof Htx as [? ? ? ? ? ? ? _ _]. split.
  - rewrite apply_writes_other; [done|done|lia|apply Hout; lia].
  - intros t b Ht. destruct (tx_entry l d t b Htx Ht) as (_ & _ & ? & _).
    rewrite apply_writes_other; [by apply Hb|done|lia|apply Hout; lia].
Qed.

(** The home blocks after the home writes. *)
Lemma home_writes_home l d d1 v b :
  tx_ok l d → length d1 = length d → home (l_start l) (l_size l) d b →
  d1 !!! Z.to_nat b = d !!! Z.to_nat b →
  (∀ x, 0 ≤ x → x ∉ tx_blocks l → v x = d !!! Z.to_nat x) →
  apply_writes d1 (home_writes l v) !!! Z.to_nat b = v b.
Proof.
  intros Htx Hlen [Hb _] Hd1 Hv.
  assert (Hok : writes_ok (home_writes l v)).
  { eapply tx_writes_ok; [exact Htx|apply fst_home_writes]. }
  destruct (decide (b ∈ tx_blocks l)) as [Hin|Hn].
  - apply apply_writes_in; [done|rewrite fst_home_writes; apply Htx|by apply home_writes_in|lia].
  - rewrite apply_writes_other by (done || lia || by rewrite fst_home_writes).
    rewrite Hd1, Hv; [done|lia|done].
Qed.

(** Phase 2: the header is on disk, some home blocks are installed. *)
Lemma crash_install l d v k :
  tx_ok l d → block_ok (v (l_start l)) →
  (∀ x, 0 ≤ x → x ∉ tx_blocks l → v x = d !!! Z.to_nat x) →
  let d1 := apply_writes d (log_fill l v ++ [(l_start l, commit_head l v)]) in
  let dk := apply_writes d1 (take k (home_writes l v)) in
  log_wf (l_start l) (l_size l) dk ∧
  ∀ b, home (l_start l) (l_size l) d b → recovered (l_start l) dk !!! Z.to_nat b = v b.
Proof.
  intros Htx Hok Hv d1 dk. pose proof Htx as [? ? ? ? ? Hn ? Hhome Hnd].
  destruct (committed_disk l d v Htx) as (Hlog1 & Hlen1 & Hhome1).
  assert (Hlogk : log_holds l v dk).
  { eapply log_holds_home; [exact Htx|exact Hlen1| |exact Hlog1]. apply subseteq_take. }
  pose proof (log_holds_writes l d dk v Htx Hok Hlogk) as Hlw.
  assert (Hlenk : length dk = length d) by (unfold dk; rewrite length_apply_writes; exact Hlen1).
  assert (Hnk : hdr_n (dk !!! Z.to_nat (l_start l)) = lh_n (l_lh l)).
  { destruct Hlogk as [-> _]. by apply hdr_n_put_head. }
  split.
  - split; rewrite ?Hlw, ?Hnk, ?Hlenk; try done.
    + rewrite <- (Forall_fmap fst (home (l_start l) (l_size l) dk)), fst_home_writes.
      unfold home. rewrite Hlenk. exact Hhome.
    + by rewrite fst_home_writes.
  - intros b Hb. unfold recovered. rewrite Hlw. unfold dk. rewrite apply_writes_replay.
    + by eapply home_writes_home; [exact Htx|exact Hlen1|done|apply Hhome1|].
    + eapply tx_writes_ok; [exact Htx|apply fst_home_writes].
    + by rewrite fst_home_writes.
    + fold d1 in Hlen1. rewrite Hlen1. apply Hb.
Qed.

(** Phase 3: the commit is complete. *)
Lemma crash_done l d v :
  tx_ok l d → block_ok (v (l_start l)) →
  (∀ x, 0 ≤ x → x ∉ tx_blocks l → v x = d !!! Z.to_nat x) →
  let dk := apply_writes d (commit_writes l v) in
  hdr_n (dk !!! Z.to_nat (l_start l)) = 0 ∧ log_wf (l_start l) (l_size l) dk ∧
  ∀ b, home (l_start l) (l_size l) d b → dk !!! Z.to_nat b = v b.
Proof.
  intros Htx Hok Hv dk. pose proof Htx as [? ? ? ? ? Hn ? Hhome Hnd].
  destruct (committed_disk l d v Htx) as (Hlog1 & Hlen1 & Hhome1).
  set (d1 := apply_writes d (log_fill l v ++ [(l_start l, commit_head l v)])) in *.
  assert (Hdk : dk = <[Z.to_nat (l_start l) := put_u32 0 0 (commit_head l v)]>
                       (apply_writes d1 (home_writes l v))).
  { unfold dk, d1, commit_writes. by rewrite !apply_writes_app. }
  assert (Hlenk : length dk = length d) by apply length_apply_writes.
  assert (Hnk : hdr_n (dk !!! Z.to_nat (l_start l)) = 0).
  { rewrite Hdk, list_lookup_total_insert_eq by (rewrite length_apply_writes; lia).
    apply get_put_i32; [|done]. destruct (put_head_ok (lh_n (l_lh l)) (lh_block (l_lh l)) _ Hn Hok) as [Hl _].
    unfold commit_head. rewrite Hl. vm_compute. lia. }
  split_and!; [done|apply empty_wf; lia|].
  intros b Hb. pose proof Hb as [? ?]. rewrite Hdk, list_lookup_total_insert_ne by lia.
  by eapply home_writes_home; [exact Htx|exact Hlen1|done|apply Hhome1|].
Qed.

(** Every prefix of the writes of a commit leaves a disk whose recovery is the
    old or the new one; the header write is the commit point. *)
Lemma crash_disk l d v k :
  tx_ok l d → block_ok (v (l_start l)) → hdr_n (d !!! Z.to_nat (l_start l)) = 0 →
  (∀ x, 0 ≤ x → x ∉ tx_blocks l → v x = d !!! Z.to_nat x) →
  let dk := apply_writes d (take k (commit_writes l v)) in
  log_wf (l_start l) (l_size l) dk ∧
  ∀ b, home (l_start l) (l_size l) d b →
    recovered (l_start l) dk !!! Z.to_nat b =
      if decide (k ≤ length (tx_blocks l))%nat then d !!! Z.to_nat b else v b.
Proof.
  intros Htx Hok Hn Hv dk.
  destruct (decide (k ≤ length (tx_blocks l))%nat) as [Hk|Hk].
  - unfold commit_writes in dk. unfold dk. rewrite prefix_app, decide_True by by rewrite length_log_fill.
    by apply crash_fill.
  - destruct (decide (k ≤ 2 * length (tx_blocks l) + 1)%nat) as [Hk2|Hk2].
    + assert (Hdk : dk = apply_writes (apply_writes d (log_fill l v ++ [(l_start l, commit_head l v)]))
                (take (k - length (tx_blocks l) - 1) (home_writes l v))).
      { unfold dk, commit_writes. rewrite <- apply_writes_app. f_equal.
        rewrite prefix_app, decide_False by (rewrite length_log_fill; lia).
        replace (k - length (log_fill l v))%nat with (Datatypes.S (k - length (tx_blocks l) - 1))
          by (rewrite length_log_fill; lia).
        cbn [app take]. rewrite prefix_app, decide_True by (rewrite length_home_writes; lia).
        by rewrite <- (assoc_L app). }
      rewrite Hdk. by apply crash_install.
    + assert (Hdk : dk = apply_writes d (commit_writes l v)).
      { unfold dk. rewrite take_ge; [done|]. unfold commit_writes.
        rewrite !length_app, length_log_fill, length_home_writes. simpl. lia. }
      destruct (crash_done l d v Htx Hok Hv) as (Hz & Hwf & Hb).
      rewrite Hdk. split; [done|]. intros b Hbh. rewrite recovered_empty by done. by apply Hb.
Qed.
End crash.

(** ** Disks in the middle of a recovery *)

Lemma log_writes_ext start nlog d d' :
  0 ≤ start → hdr_n (d !!! Z.to_nat start) < nlog → 0 < nlog →
  (∀ x, start ≤ x < start + nlog → d' !!! Z.to_nat x = d !!! Z.to_nat x) →
  log_writes start d' = log_writes start d.
Proof.
  intros Hs Hn Hn0 Hx. unfold log_writes. rewrite (Hx start) by lia.
  apply list_fmap_ext. intros i k Hk. apply lookup_seq in Hk as [-> Hk].
  by rewrite Hx by lia.
Qed.

Lemma log_wf_ext start nlog d d' :
  log_wf start nlog d → length d' = length d →
  (∀ x, start ≤ x < start + nlog → d' !!! Z.to_nat x = d !!! Z.to_nat x) →
  log_wf start nlog d' ∧ log_writes start d' = log_writes start d.
Proof.
  intros [? ? ? Hn Hf Hh Hnd] Hlen Hx.
  assert (Hlw : log_writes start d' = log_writes start d) by (eapply log_writes_ext; [done|exact Hf|lia|done]).
  split; [|done]. assert (Hh' : d' !!! Z.to_nat start = d !!! Z.to_nat start) by (apply Hx; lia).
  split; rewrite ?Hlw, ?Hh', ?Hlen; try done. unfold home. by rewrite Hlen.
Qed.

Lemma crash_recovery start nlog d k :
  log_wf start nlog d → block_ok (d !!! Z.to_nat start) →
  let dk := apply_writes d (take k (recovery_writes start d)) in
  log_wf start nlog dk ∧
  ∀ b, home start nlog d b → recovered start dk !!! Z.to_nat b = recovered start d !!! Z.to_nat b.
Proof.
  intros Hwf Hok dk. pose proof Hwf as [Hs Hreg Hsm Hn Hf Hh Hnd].
  set (lw := log_writes start d) in *.
  assert (Hok' : writes_ok lw) by (eapply Forall_impl; [exact Hh|]; intros w [? _]; lia).
  assert (Hout : ∀ j x, start ≤ x < start + nlog →
            apply_writes d (take j lw) !!! Z.to_nat x = d !!! Z.to_nat x).
  { intros j x Hx. apply apply_writes_other; [by apply Forall_take|lia|].
    rewrite fmap_take. intros Hin%subseteq_take. apply list_elem_of_fmap in Hin as (w & -> & Hw).
    eapply Forall_forall in Hw; [|exact Hh]. destruct Hw. lia. }
  unfold dk, recovery_writes. fold lw. rewrite prefix_app. case_decide as Hk.
  - destruct (log_wf_ext start nlog d (apply_writes d (take k lw)) Hwf) as [Hwf' Hlw];
      [apply length_apply_writes|by apply Hout|].
    split; [done|]. intros b Hb. unfold recovered. rewrite Hlw. fold lw.
    apply apply_writes_replay; [done|done|apply Hb].
  - set (hdr := put_u32 0 0 (d !!! Z.to_nat start)).
    assert (Ht : take (k - length lw) [(start, hdr)] = [(start, hdr)]).
    { destruct (k - length lw)%nat as [|j] eqn:E; [lia|]. simpl. by destruct j. }
    rewrite Ht, apply_writes_app. cbn [apply_writes foldl fst snd].
    fold (apply_writes d lw). set (d2 := <[Z.to_nat start := hdr]> _).
    assert (Hz : hdr_n (d2 !!! Z.to_nat start) = 0).
    { unfold d2. rewrite list_lookup_total_insert_eq by (rewrite length_apply_writes; lia).
      apply get_put_i32; [|done]. destruct Hok as [-> _]. vm_compute. lia. }
    assert (Hl2 : length d2 = length d) by (unfold d2; rewrite length_insert; apply length_apply_writes).
    split; [apply empty_wf; lia|]. intros b Hb. pose proof Hb as [? ?].
    rewrite recovered_empty by done. unfold d2. rewrite list_lookup_total_insert_ne by lia. done.
Qed.

Lemma recovery_final start nlog d b :
  log_wf start nlog d → home start nlog d b →
  apply_writes d (recovery_writes start d) !!! Z.to_nat b = recovered start d !!! Z.to_nat b.
Proof.
  intros [? ? ? ? ? ? ?] [? ?]. unfold recovery_writes. rewrite apply_writes_app.
  cbn [apply_writes foldl fst snd]. apply list_lookup_total_insert_ne. lia.
Qed.
