(* ===== verification/LogInv.v ===== *)
(** * The log between transactions (log.c)

    The invariant of the running log, what [begin_op], [log_write] and [end_op]
    do to it, and the crash-safety theorems, stated for any buffer cache that
    keeps its contract and instantiated with bio.c for the witnesses. *)

From S2P Require Import Prelude Words Params Locks BufIface Redo Log LogCrash.
From S2P Require Import Ring Bio BioLaws.

Section inv.
Context {S : Type} `{BufCacheLaws S}.
Implicit Types l : log S.

(** Between two operations on it, the log lock is free, the dirty blocks are
    those of the transaction, and the header on disk is empty.  A log larger
    than the buffer cache could pin every buffer, hence [li_size]. *)
Record log_inv l : Prop := {
  li_lock : l_lock l = false;
  li_committing : l_committing l = 0;
  li_outstanding : 0 ≤ l_outstanding l;
  li_size : l_size l ≤ NBUF;
  li_tx : tx_ok l (c_disk (l_cache l));
  li_cache : c_inv (l_cache l);
  li_dirty : c_dirty (l_cache l) = list_to_set (tx_blocks l);
  li_empty : hdr_n (c_disk (l_cache l) !!! Z.to_nat (l_start l)) = 0
}.

Lemma log_inv_state l :
  log_inv l → state_is (l_cache l) (c_disk (l_cache l)) (c_writes (l_cache l))
    (c_held (l_cache l)) (list_to_set (tx_blocks l)) (c_view (l_cache l)).
Proof. intros Hl. rewrite <- (li_dirty l Hl). split_and!; try done. apply Hl. Qed.

Lemma log_inv_n l : log_inv l → 0 ≤ lh_n (l_lh l) < NBUF.
Proof.
  intros Hl. pose proof (tx_n _ _ (li_tx l Hl)). pose proof (tx_fits _ _ (li_tx l Hl)).
  pose proof (li_size l Hl). lia.
Qed.

Lemma wp_log_acquire l (Q : unit → log S → Prop) :
  l_lock l = false → Q tt (with_lock true l) → wp log_acquire Q l.
Proof. intros Hl HQ. unfold wp, log_acquire, zoom, spin_acquire. by rewrite Hl. Qed.

Lemma wp_log_release l (Q : unit → log S → Prop) :
  l_lock l = true → Q tt (with_lock false l) → wp log_release Q l.
Proof. intros Hl HQ. unfold wp, log_release, zoom, spin_release. by rewrite Hl. Qed.

(** ** begin_op *)

Lemma wp_begin_op l :
  log_inv l → lh_n (l_lh l) + (l_outstanding l + 1) * MAXOPBLOCKS ≤ LOGSIZE →
  wp begin_op (λ _ l', l' = with_outstanding (l_outstanding l + 1) l) l.
Proof.
  intros [Hlk Hcm _ _ _ _ _ _] Hroom. unfold begin_op. wp_step.
  apply wp_log_acquire; [done|]. wp_step. wp_step. simpl. rewrite Hcm. simpl.
  destruct (LOGSIZE <? _) eqn:E; bool_props; [lia|]. wp_steps.
  apply wp_log_release; [done|]. destruct l; simpl in *. by subst.
Qed.

Lemma log_inv_outstanding l n : 0 ≤ n → log_inv l → log_inv (with_outstanding n l).
Proof. intros Hn [? ? ? ? Htx ? ? ?]. split; try done. by destruct Htx. Qed.

(** ** log_write *)

Lemma absorb_spec n bs b :
  (n ≤ length bs)%nat →
  let i := absorb n bs b in
  (0 ≤ i < Z.of_nat n ∧ ∃ x, bs !! Z.to_nat i = Some x ∧ u32 x = b) ∨
  (i = Z.of_nat n ∧ b ∉ u32 <$> take n bs).
Proof.
  revert bs. induction n as [|n IH]; intros bs Hn; simpl.
  - right. split; [done|]. apply not_elem_of_nil.
  - destruct bs as [|x bs]; [simpl in Hn; lia|]. destruct (u32 x =? b) eqn:E; bool_props.
    + left. split; [lia|]. by exists x.
    + destruct (IH bs) as [(Hi & y & Hy & Hyb)|[Hi Hb]]; [simpl in Hn; lia| |].
      * left. split; [lia|]. exists y. split; [|done].
        by replace (Z.to_nat (1 + absorb n bs b)) with (Datatypes.S (Z.to_nat (absorb n bs b))) by lia.
      * right. split; [lia|]. cbn [take fmap list_fmap]. apply not_elem_of_cons. split; [congruence|done].
Qed.

(** The transaction after a block is recorded. *)
Definition tx_add (b : Z) (bs : list Z) : list Z := if decide (b ∈ bs) then bs else bs ++ [b].

Lemma elem_of_tx_add b bs x : x ∈ tx_add b bs ↔ x = b ∨ x ∈ bs.
Proof. unfold tx_add. case_decide; [|rewrite elem_of_app, list_elem_of_singleton]; naive_solver. Qed.

(** The header after [log.lh.block[i] = b->blockno; if(i == n) n++]. *)
Definition record_block (b : Z) l : log S :=
  let n := lh_n (l_lh l) in
  let i := absorb (Z.to_nat n) (lh_block (l_lh l)) b in
  let l1 := with_block (<[Z.to_nat i := i32 b]> (lh_block (l_lh l))) l in
  if i =? n then with_n (n + 1) l1 else l1.

Lemma record_block_tx b l d :
  tx_ok l d → is_u32 b → lh_n (l_lh l) < LOGSIZE → tx_blocks (record_block b l) = tx_add b (tx_blocks l).
Proof.
  intros Htx Hb Hn. pose proof (tx_n l d Htx) as Hn0. pose proof (tx_len l d Htx) as Hlen.
  unfold record_block, tx_add. set (n := lh_n (l_lh l)) in *. set (bs := lh_block (l_lh l)) in *.
  pose proof (absorb_spec (Z.to_nat n) bs b ltac:(lia)) as Hab. simpl in Hab.
  set (i := absorb _ _ _) in *. destruct Hab as [(Hi & x & Hx & Hxb)|[Hi Hnb]].
  - destruct (i =? n) eqn:E; bool_props; [lia|].
    rewrite decide_True.
    + unfold tx_blocks. simpl. fold n bs. apply list_eq. intros j. rewrite !list_lookup_fmap.
      destruct (decide (j < Z.to_nat n)%nat); [|by rewrite !lookup_take_ge by lia].
      rewrite !lookup_take_lt by done. destruct (decide (j = Z.to_nat i)) as [->|].
      * rewrite list_lookup_insert_eq by lia. rewrite Hx. simpl. f_equal. rewrite u32_i32; done.
      * by rewrite list_lookup_insert_ne.
    + unfold tx_blocks. fold n bs. rewrite <- Hxb. apply list_elem_of_fmap_2.
      apply list_elem_of_lookup. exists (Z.to_nat i). rewrite lookup_take_lt by lia. done.
  - destruct (i =? n) eqn:E; bool_props; [|lia]. rewrite decide_False by done.
    unfold tx_blocks. simpl. fold n bs. replace (Z.to_nat (n + 1)) with (Datatypes.S (Z.to_nat n)) by lia.
    rewrite E, (take_S_r _ _ (i32 b)) by (apply list_lookup_insert_eq; lia).
    rewrite fmap_app, take_insert_ge by lia. simpl. by rewrite u32_i32.
Qed.

Lemma record_block_fields b l :
  l_start (record_block b l) = l_start l ∧ l_size (record_block b l) = l_size l ∧
  l_dev (record_block b l) = l_dev l ∧ l_lock (record_block b l) = l_lock l ∧
  l_committing (record_block b l) = l_committing l ∧
  l_outstanding (record_block b l) = l_outstanding l ∧
  l_cache (record_block b l) = l_cache l ∧
  length (lh_block (l_lh (record_block b l))) = length (lh_block (l_lh l)) ∧
  (lh_n (l_lh (record_block b l)) = lh_n (l_lh l) ∨
   lh_n (l_lh (record_block b l)) = lh_n (l_lh l) + 1).
Proof.
  unfold record_block. destruct (_ =? _); simpl; rewrite length_insert; split_and!; auto.
Qed.

Lemma record_block_ok b l d :
  tx_ok l d → home (l_start l) (l_size l) d b →
  lh_n (l_lh l) < LOGSIZE → lh_n (l_lh l) < l_size l - 1 → tx_ok (record_block b l) d.
Proof.
  intros Htx Hb Hn Hsz.
  assert (Hu : is_u32 b).
  { pose proof (tx_small l d Htx). destruct Hb as [? _]. unfold is_u32. lia. }
  pose proof (record_block_tx b l d Htx Hu Hn) as Hbl.
  destruct (record_block_fields b l) as (E1 & E2 & E3 & _ & _ & _ & _ & E4 & E5).
  destruct Htx as [? ? ? ? ? ? ? Hhome Hnd].
  split; rewrite ?E1, ?E2, ?E3, ?E4, ?Hbl; try done; try lia.
  - apply Forall_forall. intros x [-> |Hx]%elem_of_tx_add; [done|].
    by eapply Forall_forall in Hhome.
  - unfold tx_add. case_decide; [done|]. apply NoDup_app. split_and!; [done| |apply NoDup_singleton].
    intros x Hx ->%list_elem_of_singleton. done.
Qed.

Lemma wp_log_write_raw l i b :
  l_lock l = false → tx_ok l (c_disk (l_cache l)) → c_blockno (l_cache l) i = b → is_u32 b →
  lh_n (l_lh l) < LOGSIZE → lh_n (l_lh l) < l_size l - 1 → 1 ≤ l_outstanding l →
  wp (log_write i) (λ _ l',
    l' = with_cache (c_mark_dirty i (l_cache l)) (record_block b l)) l.
Proof.
  intros Hlk Htx Hb Hu Hn Hsz Hout. pose proof (tx_n _ _ Htx). pose proof (tx_len _ _ Htx) as Hlen.
  unfold log_write. wp_step. wp_step.
  destruct ((LOGSIZE <=? lh_n (l_lh l)) || (l_size l - 1 <=? lh_n (l_lh l))) eqn:E.
  { bool_props; lia. }
  destruct (l_outstanding l <? 1) eqn:E2; bool_props; [lia|].
  wp_step. apply wp_log_acquire; [done|]. wp_step. rewrite Hb.
  pose proof (absorb_spec (Z.to_nat (lh_n (l_lh l))) (lh_block (l_lh l)) b ltac:(lia)) as Hab.
  unfold record_block. set (k := absorb _ _ _) in *.
  apply wp_block_set; [simpl; destruct Hab as [[? _]|[? _]]; lia|].
  wp_step. unfold whenM. destruct (k =? lh_n (l_lh l)) eqn:Ek; wp_steps;
    (apply wp_log_release; [done|]); destruct l; simpl in *; by subst.
Qed.

(** [log_write] records a block in use: contents, disk and buffers in use stay
    as they are, the block joins the transaction. *)
Lemma wp_log_write l i b :
  log_inv l → c_held (l_cache l) !! i = Some b →
  home (l_start l) (l_size l) (c_disk (l_cache l)) b →
  lh_n (l_lh l) < l_size l - 1 → 1 ≤ l_outstanding l →
  wp (log_write i) (λ _ l', log_inv l' ∧ tx_blocks l' = tx_add b (tx_blocks l) ∧
    l_outstanding l' = l_outstanding l ∧ l_start l' = l_start l ∧ l_size l' = l_size l ∧
    state_is (l_cache l') (c_disk (l_cache l)) (c_writes (l_cache l)) (c_held (l_cache l))
      (list_to_set (tx_blocks l')) (c_view (l_cache l))) l.
Proof.
  intros Hl Hi Hb Hsz Hout. pose proof (log_inv_n l Hl) as Hn.
  pose proof (li_tx l Hl) as Htx. pose proof (tx_n _ _ Htx). pose proof (li_size l Hl).
  assert (Hn' : lh_n (l_lh l) < LOGSIZE) by (unfold LOGSIZE, NBUF in *; lia).
  assert (Hu : is_u32 b).
  { pose proof (tx_small _ _ Htx). destruct Hb as [? _]. unfold is_u32. lia. }
  eapply wp_mono.
  { apply (wp_log_write_raw l i b); try done; [apply Hl|by apply (blockno_law _ _ b); [apply Hl|]]. }
  intros _ l' ->. pose proof (record_block_ok b l _ Htx Hb Hn' Hsz) as Htx'.
  pose proof (record_block_tx b l _ Htx Hu Hn') as Hbl.
  destruct (record_block_fields b l) as (E1 & E2 & E3 & E4 & E5 & E6 & E7 & _).
  pose proof (mark_dirty_law _ _ _ (li_cache l Hl) Hi) as Hst.
  assert (HD : {[b]} ∪ c_dirty (l_cache l) = list_to_set (tx_blocks (record_block b l))).
  { rewrite Hbl, (li_dirty l Hl). apply set_eq. intros x.
    rewrite elem_of_union, elem_of_singleton, !elem_of_list_to_set, elem_of_tx_add. done. }
  rewrite HD in Hst. pose proof Hst as (Hinv' & Hd' & _ & _ & HD' & _).
  split_and!; simpl; try done.
  split; simpl; rewrite ?E1, ?E2, ?E4, ?E5, ?E6, ?Hd'; try apply Hl; try done.
  by apply tx_ok_cache.
Qed.

(** ** end_op *)

Definition same_log l l' : Prop :=
  l_start l' = l_start l ∧ l_size l' = l_size l ∧ l_dev l' = l_dev l.

Lemma wp_end_op_more l :
  log_inv l → 1 < l_outstanding l →
  wp end_op (λ _ l', l' = with_outstanding (l_outstanding l - 1) l) l.
Proof.
  intros [Hlk Hcm _ _ _ _ _ _] Hout. unfold end_op. wp_step.
  apply wp_log_acquire; [done|]. wp_step. wp_step. wp_step. wp_step. simpl. rewrite Hcm.
  cbn [negb Z.eqb].
  destruct (l_outstanding l - 1 =? 0) eqn:E; bool_props; [lia|]. unfold whenM. wp_steps.
  apply wp_log_release; [done|]. wp_steps. destruct l; simpl in *. by subst.
Qed.

(** The last [end_op]: every update is on the disk, the log is empty again. *)
Lemma wp_end_op_last l :
  log_inv l → l_outstanding l = 1 → c_held (l_cache l) = ∅ →
  wp end_op (λ _ l', log_inv l' ∧ same_log l l' ∧ l_outstanding l' = 0 ∧ lh_n (l_lh l') = 0 ∧
    c_held (l_cache l') = ∅ ∧ c_dirty (l_cache l') = ∅ ∧
    (∀ b, home (l_start l) (l_size l) (c_disk (l_cache l)) b →
       c_disk (l_cache l') !!! Z.to_nat b = c_view (l_cache l) b) ∧
    length (c_disk (l_cache l')) = length (c_disk (l_cache l))) l.
Proof.
  intros Hl Hout Hheld. pose proof (li_tx l Hl) as Htx. pose proof (log_inv_n l Hl) as Hn.
  pose proof (log_inv_state l Hl) as Hst. rewrite Hheld in Hst.
  pose proof Htx as [? Hs Hreg Hsm ? ? Hf ? ?].
  assert (Hv : ∀ x, 0 ≤ x → x ∉ tx_blocks l → c_view (l_cache l) x = c_disk (l_cache l) !!! Z.to_nat x).
  { intros x Hx Hnx. eapply state_clean; [exact Hst|done|by rewrite elem_of_list_to_set|done]. }
  assert (Hok : block_ok (c_view (l_cache l) (l_start l))) by (eapply state_block_ok; [exact Hst|lia]).
  unfold end_op. wp_step. apply wp_log_acquire; [apply Hl|]. wp_step. wp_step. wp_step. wp_step.
  simpl. rewrite (li_committing l Hl), Hout. cbn [negb Z.eqb Z.sub]. unfold whenM. simpl.
  wp_steps. apply wp_log_release; [done|]. wp_step.
  set (l1 := with_lock false _).
  destruct (decide (lh_n (l_lh l) = 0)) as [Hz|Hnz].
  - unfold commit. wp_step. wp_step. simpl. rewrite Hz. unfold whenM. simpl. wp_steps.
    apply wp_log_acquire; [done|]. wp_steps. apply wp_log_release; [done|]. simpl.
    assert (Hnil : tx_blocks l = []) by (unfold tx_blocks; by rewrite Hz).
    split_and!; try done.
    + split; simpl; try apply Hl; try done.
    + rewrite (li_dirty l Hl), Hnil. done.
    + intros b [? _]. rewrite Hv by (rewrite ?Hnil; (lia || apply not_elem_of_nil)). done.
  - eapply wp_mono; [apply (wp_commit l1 (c_disk (l_cache l)) (c_writes (l_cache l)) (c_view (l_cache l))); [by destruct Htx|simpl; lia|exact Hst]|].
    change (commit_writes l1) with (commit_writes l).
    intros [] l2 (c & -> & Hc). wp_step. apply wp_log_acquire; [done|]. wp_steps.
    apply wp_log_release; [done|].
    destruct (crash_done l _ _ Htx Hok Hv) as (Hz & Hwf & Hb).
    pose proof Hc as (Hinv & Hd & _ & Hh & HD & _).
    split_and!; simpl; try done.
    + split; simpl; rewrite ?Hd; try done; try apply Hl.
      apply (tx_ok_length _ (c_disk (l_cache l))); [apply length_apply_writes|].
      apply (tx_ok_clear _ _) in Htx. by destruct Htx.
    + intros b Hbh. rewrite Hd. by apply Hb.
    + rewrite Hd. apply length_apply_writes.
Qed.

(** A machine restarted on the disk [d]: same log geometry, cold cache. *)
Record rebooted l l2 (d : list block) : Prop := {
  rb_dev : l_dev l2 = ROOTDEV;
  rb_start : l_start l2 = l_start l;
  rb_size : l_size l2 = l_size l;
  rb_len : length (lh_block (l_lh l2)) = Z.to_nat LOGSIZE;
  rb_inv : c_inv (l_cache l2);
  rb_disk : c_disk (l_cache l2) = d;
  rb_held : c_held (l_cache l2) = ∅;
  rb_dirty : c_dirty (l_cache l2) = ∅
}.

Lemma rebooted_state l l2 d :
  rebooted l l2 d →
  state_is (l_cache l2) d (c_writes (l_cache l2)) ∅ ∅ (λ b, d !!! Z.to_nat b).
Proof.
  intros [? ? ? ? ? ? ? ?]. apply (quiet_state _ _ _ (c_view (l_cache l2))). by split_and!.
Qed.

Lemma recover_home l l2 d :
  rebooted l l2 d → log_wf (l_start l) (l_size l) d →
  wp recover_from_log (λ _ l3, lh_n (l_lh l3) = 0 ∧
    ∃ ws, c_writes (l_cache l3) = c_writes (l_cache l2) ++ ws ∧ ws = recovery_writes (l_start l) d ∧
    ∀ b, home (l_start l) (l_size l) d b →
      c_disk (l_cache l3) !!! Z.to_nat b = recovered (l_start l) d !!! Z.to_nat b) l2.
Proof.
  intros Hrb Hwf. pose proof (rebooted_state _ _ _ Hrb) as Hst.
  destruct Hrb as [Hdev Hst2 Hsz2 Hlen _ _ _ _].
  eapply wp_mono; [apply (wp_recover l2 d (c_writes (l_cache l2))); rewrite ?Hst2, ?Hsz2; done|].
  rewrite Hst2. intros _ l3 (c & bs & -> & _ & Hc). destruct Hc as (_ & Hd & Hw & _).
  split; [done|]. eexists. split_and!; [exact Hw|done|]. intros b Hb. simpl. rewrite Hd.
  by eapply recovery_final.
Qed.

Lemma log_inv_cache l c w h v :
  log_inv l → state_is c (c_disk (l_cache l)) w h (list_to_set (tx_blocks l)) v →
  log_inv (with_cache c l).
Proof.
  intros [? ? ? ? Htx ? ? ?] (Hinv & Hd & _ & _ & HD & _).
  split; simpl; rewrite ?Hd; try done. by apply tx_ok_cache.
Qed.

(** ** Properties *)

(** C1: Crash safety of [commit].  Let a commit run on a log in its invariant
    with no buffer in use.  It returns, and whatever prefix of its disk writes
    reached the disk when the machine crashed, recovery on that disk returns
    and leaves every block outside the log either as it was before the commit
    (when the crash came no later than the last log block) or as the
    transaction left it (once the header was written): all of it or nothing. *)
Theorem commit_crash_safe l :
  log_inv l → c_held (l_cache l) = ∅ → 0 < lh_n (l_lh l) →
  wp commit (λ _ l', ∃ ws, c_writes (l_cache l') = c_writes (l_cache l) ++ ws ∧
    ∀ k l2, rebooted l l2 (apply_writes (c_disk (l_cache l)) (take k ws)) →
      wp recover_from_log (λ _ l3, lh_n (l_lh l3) = 0 ∧
        ∀ b, home (l_start l) (l_size l) (c_disk (l_cache l)) b →
          c_disk (l_cache l3) !!! Z.to_nat b =
            if decide (k ≤ Z.to_nat (lh_n (l_lh l)))%nat
            then c_disk (l_cache l) !!! Z.to_nat b else c_view (l_cache l) b) l2) l.
Proof.
  intros Hl Hheld Hpos. pose proof (li_tx l Hl) as Htx. pose proof (log_inv_n l Hl) as Hn.
  pose proof (log_inv_state l Hl) as Hst. rewrite Hheld in Hst.
  pose proof Htx as [_ ? ? _ _ _ ? _ _].
  eapply wp_mono; [apply (wp_commit l (c_disk (l_cache l)) (c_writes (l_cache l))
    (c_view (l_cache l))); [done|lia|done]|].
  intros _ l' (c & -> & Hc). exists (commit_writes l (c_view (l_cache l))). split; [apply Hc|].
  intros k l2 Hrb. set (dk := apply_writes _ _) in Hrb.
  destruct (crash_disk l (c_disk (l_cache l)) (c_view (l_cache l)) k Htx) as [Hwf Hrec].
  { eapply state_block_ok; [exact Hst|lia]. }
  { apply Hl. }
  { intros x Hx Hnx. eapply state_clean; [exact Hst|done|by rewrite elem_of_list_to_set|done]. }
  eapply wp_mono; [apply (recover_home l l2 dk Hrb Hwf)|].
  intros _ l3 (Hz & ws & _ & _ & Hb). split; [done|]. intros b Hbh.
  rewrite Hb by (unfold home, dk; rewrite length_apply_writes; exact Hbh).
  rewrite (length_tx_blocks l _ Htx) in Hrec. by apply Hrec.
Qed.

(** C2: A recovery can itself be interrupted.  On a disk with a well-formed log,
    recovery returns; whatever prefix of its writes reached the disk when the
    machine crashed again, a second recovery returns and leaves the same home
    blocks as an undisturbed first one: those of the replayed log. *)
Theorem recovery_restartable l l1 d :
  rebooted l l1 d → log_wf (l_start l) (l_size l) d →
  wp recover_from_log (λ _ l1', ∃ ws, c_writes (l_cache l1') = c_writes (l_cache l1) ++ ws ∧
    ∀ k l2, rebooted l l2 (apply_writes d (take k ws)) →
      wp recover_from_log (λ _ l3, lh_n (l_lh l3) = 0 ∧
        ∀ b, home (l_start l) (l_size l) d b →
          c_disk (l_cache l3) !!! Z.to_nat b = recovered (l_start l) d !!! Z.to_nat b ∧
          c_disk (l_cache l3) !!! Z.to_nat b = c_disk (l_cache l1') !!! Z.to_nat b) l2) l1.
Proof.
  intros Hrb1 Hwf. pose proof (rebooted_state _ _ _ Hrb1) as Hst1.
  assert (Hok : block_ok (d !!! Z.to_nat (l_start l))).
  { destruct Hwf. apply (state_block_ok _ _ _ _ _ _ (l_start l) Hst1). lia. }
  eapply wp_mono; [apply (recover_home l l1 d Hrb1 Hwf)|].
  intros _ l1' (_ & ws & Hws & -> & Hd1). eexists. split; [exact Hws|].
  intros k l2 Hrb2. destruct (crash_recovery _ _ d k Hwf Hok) as [Hwfk Hrec].
  eapply wp_mono; [apply (recover_home l l2 _ Hrb2 Hwfk)|].
  intros _ l3 (Hz & ws2 & _ & _ & Hb). split; [done|]. intros b Hbh.
  rewrite Hd1 by done. rewrite Hb, Hrec; [done|done|].
  unfold home. rewrite length_apply_writes. exact Hbh.
Qed.

(** C3: Durability.  When the last outstanding system call ends, [end_op]
    returns with an empty log and nothing left to write: every block outside
    the log is on the disk with the content the system calls gave it, and the
    invariant of the log holds again. *)
Theorem end_op_durable l :
  log_inv l → l_outstanding l = 1 → c_held (l_cache l) = ∅ →
  wp end_op (λ _ l', log_inv l' ∧ l_outstanding l' = 0 ∧ lh_n (l_lh l') = 0 ∧
    c_dirty (l_cache l') = ∅ ∧
    (∀ b, home (l_start l) (l_size l) (c_disk (l_cache l)) b →
       c_disk (l_cache l') !!! Z.to_nat b = c_view (l_cache l) b)) l.
Proof.
  intros Hl Hout Hh. eapply wp_mono; [by apply wp_end_op_last|].
  intros _ l' (? & _ & ? & ? & _ & ? & ? & _). by split_and!.
Qed.

(** Log absorption.  [log_write] of a block in use outside the log returns
    while the log has room for one more block; it adds the block to the
    transaction only when it is not there yet, keeps the invariant, and
    changes no content, no buffer in use and nothing on the disk. *)
Theorem log_write_absorbs l i b :
  log_inv l → c_held (l_cache l) !! i = Some b →
  home (l_start l) (l_size l) (c_disk (l_cache l)) b →
  lh_n (l_lh l) < l_size l - 1 → 1 ≤ l_outstanding l →
  wp (log_write i) (λ _ l', log_inv l' ∧
    lh_n (l_lh l') = lh_n (l_lh l) + (if decide (b ∈ tx_blocks l) then 0 else 1) ∧
    (∀ x, x ∈ tx_blocks l' ↔ x = b ∨ x ∈ tx_blocks l) ∧
    c_disk (l_cache l') = c_disk (l_cache l) ∧ c_held (l_cache l') = c_held (l_cache l) ∧
    (∀ x, 0 ≤ x → c_view (l_cache l') x = c_view (l_cache l) x)) l.
Proof.
  intros Hl Hi Hb Hsz Hout. eapply wp_mono; [by apply (wp_log_write l i b)|].
  intros _ l' (Hl' & Hbl & _ & _ & _ & Hst). destruct Hst as (_ & Hd & _ & Hh & _ & Hv).
  split_and!; try done.
  - pose proof (length_tx_blocks l' _ (li_tx l' Hl')) as E1.
    pose proof (length_tx_blocks l _ (li_tx l Hl)) as E2.
    pose proof (log_inv_n l Hl). pose proof (log_inv_n l' Hl').
    rewrite Hbl in E1. unfold tx_add in E1. case_decide; [lia|]. rewrite length_app in E1.
    simpl in E1. lia.
  - intros x. rewrite Hbl. apply elem_of_tx_add.
Qed.
End inv.

(** ** A concrete log, for the witnesses *)

Definition demo_log (c : bst) : log bst :=
  Log false 2 30 1 0 ROOTDEV (LogHeader 0 (replicate (Z.to_nat LOGSIZE) 0)) c.
Definition demo0 : log bst := demo_log (booted (replicate 40 zero_block) 7).
Definition demo_data : block := replicate (Z.to_nat BSIZE) 7.
Definition demo_op : M (log bst) unit :=
  i ← bread_ ROOTDEV 35; set_data_ i demo_data ;; log_write i ;; brelse_ i.

Lemma demo_log_inv c v : state_is c (replicate 40 zero_block) [] ∅ ∅ v → log_inv (demo_log c).
Proof.
  intros (Hinv & Hd & _ & _ & HD & _).
  assert (Hlen : Z.of_nat (length (replicate 40 zero_block)) = 40) by by rewrite length_replicate.
  split; change (c_disk (l_cache (demo_log c))) with (c_disk c); rewrite ?Hd; try done.
  - split; rewrite ?Hlen; try done; try (simpl; lia); by constructor.
Qed.

Definition demo : log bst := exec demo_op demo0.

Lemma demo_data_ok : block_ok demo_data.
Proof. split; [apply length_replicate|]. apply Forall_replicate. unfold is_byte. lia. Qed.

Lemma demo_op_spec c v :
  state_is c (replicate 40 zero_block) [] ∅ ∅ v →
  wp demo_op (λ _ l, log_inv l ∧ c_held (l_cache l) = ∅ ∧ l_outstanding l = 1 ∧
    0 < lh_n (l_lh l)) (demo_log c).
Proof.
  intros Hst. pose proof (demo_log_inv c v Hst) as Hl0. pose proof Hst as (_ & Hd0 & _).
  unfold demo_op. wp_step. eapply wp_bread_; [exact Hst|rewrite length_replicate; lia|done| |].
  { right. rewrite map_size_empty, size_empty. vm_compute. lia. }
  intros i c1 _ Hc1. wp_step.
  eapply wp_set_data_; [exact Hc1|apply lookup_insert_eq|apply demo_data_ok|]. intros c2 Hc2. wp_step.
  assert (Hl2 : log_inv (with_cache c2 (demo_log c))).
  { eapply log_inv_cache; [exact Hl0|].
    change (c_disk (l_cache (demo_log c))) with (c_disk c). rewrite Hd0. exact Hc2. }
  pose proof Hc2 as (_ & Hd2 & _ & Hh2 & _).
  eapply wp_mono.
  { apply (wp_log_write (with_cache c2 (demo_log c)) i 35 Hl2); [| | |done].
    - change (c_held c2 !! i = Some 35). rewrite Hh2. apply lookup_insert_eq.
    - change (home 2 30 (c_disk c2) 35). rewrite Hd2. unfold home. rewrite length_replicate. lia.
    - simpl. lia. }
  intros [] l3 (Hl3 & Hbl & Hout & _ & _ & Hst3).
  change (l_cache (with_cache c2 (demo_log c))) with c2 in Hst3. rewrite Hh2 in Hst3.
  eapply wp_brelse_; [exact Hst3|apply lookup_insert_eq| |].
  - left. rewrite elem_of_list_to_set, Hbl. apply elem_of_tx_add. by left.
  - intros c4 Hc4. rewrite delete_insert_id in Hc4 by apply lookup_empty.
    pose proof (length_tx_blocks l3 _ (li_tx l3 Hl3)) as Hlen. rewrite Hbl in Hlen.
    change (length _) with 1%nat in Hlen. split_and!; [|apply Hc4|done|simpl; lia].
    eapply log_inv_cache; [exact Hl3|]. destruct Hst3 as (_ & Hd3 & _). rewrite Hd3. exact Hc4.
Qed.

Lemma demo_spec :
  log_inv demo ∧ c_held (l_cache demo) = ∅ ∧ l_outstanding demo = 1 ∧ 0 < lh_n (l_lh demo).
Proof.
  apply (wp_exec demo_op (λ l, log_inv l ∧ c_held (l_cache l) = ∅ ∧ l_outstanding l = 1 ∧
    0 < lh_n (l_lh l))).
  eapply demo_op_spec, booted_state, zero_disk_ok.
Qed.

Lemma commit_crash_safe_witness :
  wp commit (λ _ l', ∃ ws, c_writes (l_cache l') = c_writes (l_cache demo) ++ ws ∧
    ∀ k l2, rebooted demo l2 (apply_writes (c_disk (l_cache demo)) (take k ws)) →
      wp recover_from_log (λ _ l3, lh_n (l_lh l3) = 0 ∧
        ∀ b, home (l_start demo) (l_size demo) (c_disk (l_cache demo)) b →
          c_disk (l_cache l3) !!! Z.to_nat b =
            if decide (k ≤ Z.to_nat (lh_n (l_lh demo)))%nat
            then c_disk (l_cache demo) !!! Z.to_nat b else c_view (l_cache demo) b) l2) demo.
Proof. destruct demo_spec as (Hl & Hh & _ & Hn). exact (commit_crash_safe demo Hl Hh Hn). Defined.

Lemma end_op_durable_witness :
  wp end_op (λ _ l', log_inv l' ∧ l_outstanding l' = 0 ∧ lh_n (l_lh l') = 0 ∧
    c_dirty (l_cache l') = ∅ ∧
    (∀ b, home (l_start demo) (l_size demo) (c_disk (l_cache demo)) b →
       c_disk (l_cache l') !!! Z.to_nat b = c_view (l_cache demo) b)) demo.
Proof. destruct demo_spec as (Hl & Hh & Ho & _). exact (end_op_durable demo Hl Ho Hh). Defined.

Lemma recovery_restartable_witness :
  let d := replicate 40 zero_block in
  wp recover_from_log (λ _ l1', ∃ ws, c_writes (l_cache l1') = c_writes (l_cache demo0) ++ ws ∧
    ∀ k l2, rebooted demo0 l2 (apply_writes d (take k ws)) →
      wp recover_from_log (λ _ l3, lh_n (l_lh l3) = 0 ∧
        ∀ b, home 2 30 d b →
          c_disk (l_cache l3) !!! Z.to_nat b = recovered 2 d !!! Z.to_nat b ∧
          c_disk (l_cache l3) !!! Z.to_nat b = c_disk (l_cache l1') !!! Z.to_nat b) l2) demo0.
Proof.
  intros d. destruct (booted_state d 7) as (Hinv & Hd & _ & Hh & HD & _); [apply zero_disk_ok|].
  apply (recovery_restartable demo0 demo0 d).
  - split; [done|done|done|done|exact Hinv|exact Hd|exact Hh|exact HD].
  - change (log_wf 2 30 d). apply empty_wf; unfold d; rewrite ?length_replicate; try lia.
    rewrite lookup_total_replicate_2 by lia. reflexivity.
Defined.

Definition demo_held : log bst := exec (bread_ ROOTDEV 35) demo0.

Lemma demo_held_spec :
  ∃ i, log_inv demo_held ∧ c_held (l_cache demo_held) !! i = Some 35 ∧
    length (c_disk (l_cache demo_held)) = 40%nat ∧ l_start demo_held = 2 ∧
    l_size demo_held = 30 ∧ lh_n (l_lh demo_held) = 0 ∧ l_outstanding demo_held = 1.
Proof.
  apply (wp_exec (bread_ ROOTDEV 35) (λ l, ∃ i, log_inv l ∧ c_held (l_cache l) !! i = Some 35 ∧
    length (c_disk (l_cache l)) = 40%nat ∧ l_start l = 2 ∧ l_size l = 30 ∧
    lh_n (l_lh l) = 0 ∧ l_outstanding l = 1)).
  pose proof (booted_state (replicate 40 zero_block) 7 (zero_disk_ok 40)) as Hst.
  unfold demo0. revert Hst. generalize (booted (replicate 40 zero_block) 7). intros c Hst.
  pose proof (demo_log_inv c _ Hst) as Hl0. pose proof Hst as (_ & Hd0 & _).
  eapply (wp_bread_ (demo_log c)); [exact Hst|rewrite length_replicate; lia|done| |].
  { right. rewrite map_size_empty, size_empty. vm_compute. lia. }
  intros i c1 _ Hc1. exists i. pose proof Hc1 as (_ & Hd1 & _ & Hh1 & _).
  split_and!; try done.
  - eapply log_inv_cache; [exact Hl0|].
    change (c_disk (l_cache (demo_log c))) with (c_disk c). rewrite Hd0. exact Hc1.
  - change (c_held c1 !! i = Some 35). rewrite Hh1. apply lookup_insert_eq.
  - change (length (c_disk c1) = 40%nat). rewrite Hd1. apply length_replicate.
Qed.

Lemma log_write_absorbs_witness :
  ∃ i, wp (log_write i) (λ _ l', log_inv l' ∧
    lh_n (l_lh l') = lh_n (l_lh demo_held) + (if decide (35 ∈ tx_blocks demo_held) then 0 else 1) ∧
    (∀ x, x ∈ tx_blocks l' ↔ x = 35 ∨ x ∈ tx_blocks demo_held) ∧
    c_disk (l_cache l') = c_disk (l_cache demo_held) ∧
    c_held (l_cache l') = c_held (l_cache demo_held) ∧
    (∀ x, 0 ≤ x → c_view (l_cache l') x = c_view (l_cache demo_held) x)) demo_held.
Proof.
  destruct demo_held_spec as (i & Hl & Hh & Hlen & Hs & Hz & Hn & Ho). exists i.
  apply (log_write_absorbs demo_held i 35 Hl Hh).
  - unfold home. rewrite Hlen, Hs, Hz. lia.
  - rewrite Hn, Hz. lia.
  - rewrite Ho. lia.
Defined.
