(* ===== verification/Fs.v ===== *)
(** * File system (fs.c): blocks, inodes, directories and paths

    The state is the log (with the buffer cache below it), the super block, the
    inode cache and what the code reads of the running process.  A pointer to
    an in-core inode is its index in [icache.inode]; where the code returns a
    null pointer the model returns [None].  The device switch is a parameter:
    its entries are filled in by the drivers. *)

From S2P Require Import Prelude Words Params CString Locks BufIface Redo Log.

(** ** Data *)

Record inode := Inode {
  i_dev : Z;
  i_inum : Z;
  i_ref : Z;
  i_lock : sleeplock;
  i_valid : bool;
  i_type : Z;
  i_major : Z;
  i_minor : Z;
  i_nlink : Z;
  i_size : Z;
  i_addrs : list Z         (* uint addrs[NDIRECT+1] *)
}.

Definition naddrs : nat := Z.to_nat (NDIRECT + 1).
Definition zero_inode : inode :=
  Inode 0 0 0 initsleeplock false 0 0 0 0 0 (replicate naddrs 0).
#[global] Instance inode_inhabited : Inhabited inode := populate zero_inode.

Definition iset_ref v ip := Inode (i_dev ip) (i_inum ip) v (i_lock ip) (i_valid ip) (i_type ip)
  (i_major ip) (i_minor ip) (i_nlink ip) (i_size ip) (i_addrs ip).
Definition iset_lock v ip := Inode (i_dev ip) (i_inum ip) (i_ref ip) v (i_valid ip) (i_type ip)
  (i_major ip) (i_minor ip) (i_nlink ip) (i_size ip) (i_addrs ip).
Definition iset_valid v ip := Inode (i_dev ip) (i_inum ip) (i_ref ip) (i_lock ip) v (i_type ip)
  (i_major ip) (i_minor ip) (i_nlink ip) (i_size ip) (i_addrs ip).
Definition iset_type v ip := Inode (i_dev ip) (i_inum ip) (i_ref ip) (i_lock ip) (i_valid ip) v
  (i_major ip) (i_minor ip) (i_nlink ip) (i_size ip) (i_addrs ip).
Definition iset_size v ip := Inode (i_dev ip) (i_inum ip) (i_ref ip) (i_lock ip) (i_valid ip)
  (i_type ip) (i_major ip) (i_minor ip) (i_nlink ip) v (i_addrs ip).
Definition iset_nlink v ip := Inode (i_dev ip) (i_inum ip) (i_ref ip) (i_lock ip) (i_valid ip)
  (i_type ip) (i_major ip) (i_minor ip) v (i_size ip) (i_addrs ip).
Definition iset_addr (k : nat) v ip := Inode (i_dev ip) (i_inum ip) (i_ref ip) (i_lock ip)
  (i_valid ip) (i_type ip) (i_major ip) (i_minor ip) (i_nlink ip) (i_size ip)
  (<[k := v]> (i_addrs ip)).
Definition iset_dev_minor major minor ip := Inode (i_dev ip) (i_inum ip) (i_ref ip) (i_lock ip)
  (i_valid ip) (i_type ip) major minor (i_nlink ip) (i_size ip) (i_addrs ip).

(** On-disk inode. *)
Record dinode := Dinode {
  d_type : Z;
  d_major : Z;
  d_minor : Z;
  d_nlink : Z;
  d_size : Z;
  d_addrs : list Z
}.

Definition get_addrs (off : nat) (d : block) : list Z :=
  (λ k, get_u32 (off + 4 * k) d) <$> seq 0 naddrs.
Definition addr_bytes (addrs : list Z) : list Z := concat (le 4 <$> addrs).
Definition get_dinode (off : nat) (d : block) : dinode :=
  Dinode (get_i16 off d) (get_i16 (off + 2) d) (get_i16 (off + 4) d) (get_i16 (off + 6) d)
    (get_u32 (off + 8) d) (get_addrs (off + 12) d).

(** [struct stat] *)
Record stat := Stat { st_type : Z; st_dev : Z; st_ino : Z; st_nlink : Z; st_size : Z }.

Record fs (S : Type) := Fs {
  f_log : log S;
  f_sb : superblock;
  ic_lock : bool;
  ic_inode : list inode;
  f_pid : Z;               (* myproc()->pid *)
  f_cwd : nat              (* myproc()->cwd *)
}.
Arguments Fs {S}.
Arguments f_log {S}.
Arguments f_sb {S}.
Arguments ic_lock {S}.
Arguments ic_inode {S}.
Arguments f_pid {S}.
Arguments f_cwd {S}.

Section setters.
Context {S : Type}.
Implicit Types s : fs S.
Definition with_log (l : log S) s := Fs l (f_sb s) (ic_lock s) (ic_inode s) (f_pid s) (f_cwd s).
Definition with_sb sb s := Fs (f_log s) sb (ic_lock s) (ic_inode s) (f_pid s) (f_cwd s).
Definition with_ic_lock v s := Fs (f_log s) (f_sb s) v (ic_inode s) (f_pid s) (f_cwd s).
Definition with_ic_inode v s := Fs (f_log s) (f_sb s) (ic_lock s) v (f_pid s) (f_cwd s).
Definition with_cwd v s := Fs (f_log s) (f_sb s) (ic_lock s) (ic_inode s) (f_pid s) v.
Definition inoden s (ip : nat) : inode := ic_inode s !!! ip.
Definition iupd (ip : nat) (f : inode → inode) s : fs S :=
  with_ic_inode (<[ip := f (inoden s ip)]> (ic_inode s)) s.
End setters.

(** [devsw[major].read] and [.write]; a null entry is [None]. *)
Class DevSw (S : Type) := {
  dev_read : Z → option (nat → Z → M (fs S) (Z * list Z));
  dev_write : Z → option (nat → list Z → Z → M (fs S) Z)
}.

Section fs.
Context {S : Type} `{BufCache S} `{DevSw S}.

(** ** The layers below, seen from the file system *)

Definition on_log {A} (c : M (log S) A) : M (fs S) A := zoom f_log with_log c.
Definition fbread (dev b : Z) : M (fs S) nat := on_log (bread_ dev b).
Definition fbrelse (bp : nat) : M (fs S) unit := on_log (brelse_ bp).
Definition fdata (bp : nat) : M (fs S) block := on_log (data_ bp).
Definition fset_data (bp : nat) (d : block) : M (fs S) unit := on_log (set_data_ bp d).
Definition flog_write (bp : nat) : M (fs S) unit := on_log (log_write bp).
Definition ic_acquire : M (fs S) unit := zoom ic_lock with_ic_lock spin_acquire.
Definition ic_release : M (fs S) unit := zoom ic_lock with_ic_lock spin_release.
Definition on_ilock {A} (ip : nat) (c : M sleeplock A) : M (fs S) A :=
  zoom (λ s, i_lock (inoden s ip)) (λ l, iupd ip (iset_lock l)) c.
Definition get_sb : M (fs S) superblock := gets f_sb.
Definition inode_of (ip : nat) : M (fs S) inode := gets (λ s, inoden s ip).

(** ** Blocks *)

Definition bzero (dev bno : Z) : M (fs S) unit :=
  bp ← fbread dev (u32 bno);
  fset_data bp (replicate (Z.to_nat BSIZE) 0) ;;
  flog_write bp ;;
  fbrelse bp.

(** The mask [1 << (bi % 8)] and the test of bit [bi] of a bitmap block. *)
Definition bit_mask (bi : Z) : Z := Z.shiftl 1 (bi mod 8).
Definition bit_free (d : block) (bi : Z) : bool :=
  Z.land (d !!! Z.to_nat (bi / 8)) (bit_mask bi) =? 0.
Definition mark_used (d : block) (bi : Z) : block :=
  <[Z.to_nat (bi / 8) := Z.lor (d !!! Z.to_nat (bi / 8)) (bit_mask bi)]> d.
Definition mark_free (d : block) (bi : Z) : block :=
  <[Z.to_nat (bi / 8) := Z.land (d !!! Z.to_nat (bi / 8)) (Z.lnot (bit_mask bi))]> d.

(** [for(bi = ...; bi < BPB && b + bi < sb.size; bi++)]: the first free bit. *)
Fixpoint balloc_scan (fuel : nat) (d : block) (b size bi : Z) : option Z :=
  match fuel with
  | O => None
  | Datatypes.S f =>
      if (bi <? BPB) && (b + bi <? size) then
        if bit_free d bi then Some bi else balloc_scan f d b size (bi + 1)
      else None
  end.

(** The outer loop, one bitmap block per iteration. *)
Fixpoint balloc_from (fuel : nat) (dev b : Z) : M (fs S) Z :=
  match fuel with
  | O => panic "balloc: out of blocks"
  | Datatypes.S f =>
      sb ← get_sb;
      if b <? sb_size sb then
        bp ← fbread dev (BBLOCK b sb);
        d ← fdata bp;
        match balloc_scan (Z.to_nat BPB) d b (sb_size sb) 0 with
        | Some bi =>
            fset_data bp (mark_used d bi) ;;
            flog_write bp ;;
            fbrelse bp ;;
            bzero dev (b + bi) ;;
            ret (b + bi)
        | None => fbrelse bp ;; balloc_from f dev (b + BPB)
        end
      else panic "balloc: out of blocks"
  end.
Definition balloc (dev : Z) : M (fs S) Z :=
  sb ← get_sb; balloc_from (Datatypes.S (Z.to_nat (sb_size sb / BPB + 1))) dev 0.

Definition bfree (dev b : Z) : M (fs S) unit :=
  sb ← get_sb;
  bp ← fbread dev (BBLOCK b sb);
  let bi := b mod BPB in
  d ← fdata bp;
  if bit_free d bi then panic "freeing free block" else
  fset_data bp (mark_free d bi) ;;
  flog_write bp ;;
  fbrelse bp.

(** ** Inodes *)

Definition iinit (dev : Z) : M (fs S) unit :=
  modify (with_ic_lock false) ;;
  for_loop (Z.to_nat NINODE) 0 (λ i, modify (iupd (Z.to_nat i) (iset_lock initsleeplock))) ;;
  sb ← on_log (readsb dev);
  modify (with_sb sb).

(** The loop of [iget]: a cached inode, or the first empty slot. *)
Fixpoint iget_scan (l : list inode) (i : nat) (dev inum : Z) (empty : option nat)
    : nat + option nat :=
  match l with
  | [] => inr empty
  | ip :: l' =>
      if (0 <? i_ref ip) && (i_dev ip =? dev) && (i_inum ip =? inum) then inl i
      else iget_scan l' (Datatypes.S i) dev inum
             (match empty with
              | None => if i_ref ip =? 0 then Some i else None
              | Some _ => empty
              end)
  end.

Definition iget (dev inum : Z) : M (fs S) nat :=
  ic_acquire ;;
  l ← gets ic_inode;
  match iget_scan l 0 dev inum None with
  | inl ip =>
      modify (λ s, iupd ip (iset_ref (i_ref (inoden s ip) + 1)) s) ;;
      ic_release ;;
      ret ip
  | inr None => panic "iget: no inodes"
  | inr (Some ip) =>
      modify (iupd ip (λ i, Inode dev inum 1 (i_lock i) false (i_type i) (i_major i) (i_minor i)
                              (i_nlink i) (i_size i) (i_addrs i))) ;;
      ic_release ;;
      ret ip
  end.

Definition dinode_off (inum : Z) : nat := Z.to_nat (sizeof_dinode * (inum mod IPB)).

Fixpoint ialloc_from (fuel : nat) (dev type inum : Z) : M (fs S) nat :=
  match fuel with
  | O => panic "ialloc: no inodes"
  | Datatypes.S f =>
      sb ← get_sb;
      if inum <? sb_ninodes sb then
        bp ← fbread dev (IBLOCK inum sb);
        d ← fdata bp;
        if get_i16 (dinode_off inum) d =? 0 then
          let d1 := splice (dinode_off inum) (replicate (Z.to_nat sizeof_dinode) 0) d in
          fset_data bp (put_u16 (dinode_off inum) type d1) ;;
          flog_write bp ;;
          fbrelse bp ;;
          iget dev inum
        else fbrelse bp ;; ialloc_from f dev type (inum + 1)
      else panic "ialloc: no inodes"
  end.
Definition ialloc (dev type : Z) : M (fs S) nat :=
  sb ← get_sb; ialloc_from (Z.to_nat (sb_ninodes sb)) dev type 1.

(** The on-disk copy of an in-core inode. *)
Definition put_dinode (off : nat) (ip : inode) (d : block) : block :=
  splice (off + 12) (addr_bytes (i_addrs ip))
    (put_u32 (off + 8) (i_size ip)
      (put_u16 (off + 6) (i_nlink ip)
        (put_u16 (off + 4) (i_minor ip)
          (put_u16 (off + 2) (i_major ip)
            (put_u16 off (i_type ip) d))))).

Definition iupdate (ip : nat) : M (fs S) unit :=
  sb ← get_sb;
  i ← inode_of ip;
  bp ← fbread (i_dev i) (IBLOCK (i_inum i) sb);
  d ← fdata bp;
  fset_data bp (put_dinode (dinode_off (i_inum i)) i d) ;;
  flog_write bp ;;
  fbrelse bp.

Definition idup (ip : nat) : M (fs S) nat :=
  ic_acquire ;;
  modify (λ s, iupd ip (iset_ref (i_ref (inoden s ip) + 1)) s) ;;
  ic_release ;;
  ret ip.

Definition load_dinode (di : dinode) (i : inode) : inode :=
  Inode (i_dev i) (i_inum i) (i_ref i) (i_lock i) true (d_type di) (d_major di) (d_minor di)
    (d_nlink di) (d_size di) (d_addrs di).

Definition ilock (ip : nat) : M (fs S) unit :=
  i ← inode_of ip;
  if i_ref i <? 1 then panic "ilock" else
  pid ← gets f_pid;
  on_ilock ip (acquiresleep pid) ;;
  i ← inode_of ip;
  if negb (i_valid i) then
    sb ← get_sb;
    bp ← fbread (i_dev i) (IBLOCK (i_inum i) sb);
    d ← fdata bp;
    let di := get_dinode (dinode_off (i_inum i)) d in
    fbrelse bp ;;
    modify (iupd ip (load_dinode di)) ;;
    if d_type di =? 0 then panic "ilock: no type" else ret tt
  else ret tt.

Definition iunlock (ip : nat) : M (fs S) unit :=
  pid ← gets f_pid;
  h ← on_ilock ip (holdingsleep pid);
  i ← inode_of ip;
  if negb h || (i_ref i <? 1) then panic "iunlock" else
  on_ilock ip releasesleep.

(** ** Inode content *)

(** Return the disk block address of the nth block in inode ip.  [ind_addr]
    and [ind_entry] are the two halves of the indirect case. *)
Definition ind_addr (ip : nat) : M (fs S) Z :=
  i ← inode_of ip;
  let addr := i_addrs i !!! Z.to_nat NDIRECT in
  if addr =? 0 then
    addr ← balloc (i_dev i);
    modify (iupd ip (iset_addr (Z.to_nat NDIRECT) addr)) ;;
    ret addr
  else ret addr.
Definition ind_entry (ip : nat) (addr bn : Z) : M (fs S) Z :=
  i ← inode_of ip;
  bp ← fbread (i_dev i) addr;
  a ← fdata bp;
  let addr := get_u32 (Z.to_nat (4 * bn)) a in
  addr ← (if addr =? 0 then
            addr ← balloc (i_dev i);
            a ← fdata bp;
            fset_data bp (put_u32 (Z.to_nat (4 * bn)) addr a) ;;
            flog_write bp ;;
            ret addr
          else ret addr);
  fbrelse bp ;;
  ret addr.

Definition bmap (ip : nat) (bn : Z) : M (fs S) Z :=
  i ← inode_of ip;
  if bn <? NDIRECT then
    let addr := i_addrs i !!! Z.to_nat bn in
    if addr =? 0 then
      addr ← balloc (i_dev i);
      modify (iupd ip (iset_addr (Z.to_nat bn) addr)) ;;
      ret addr
    else ret addr
  else
  let bn := bn - NDIRECT in
  if bn <? NINDIRECT then
    addr ← ind_addr ip;
    ind_entry ip addr bn
  else panic "bmap: out of range".

Definition itrunc (ip : nat) : M (fs S) unit :=
  for_loop (Z.to_nat NDIRECT) 0 (λ k,
    i ← inode_of ip;
    let addr := i_addrs i !!! Z.to_nat k in
    whenM (negb (addr =? 0))
      (bfree (i_dev i) addr ;; modify (iupd ip (iset_addr (Z.to_nat k) 0)))) ;;
  i ← inode_of ip;
  let addr := i_addrs i !!! Z.to_nat NDIRECT in
  whenM (negb (addr =? 0))
    (bp ← fbread (i_dev i) addr;
     for_loop (Z.to_nat NINDIRECT) 0 (λ j,
       a ← fdata bp;
       let aj := get_u32 (Z.to_nat (4 * j)) a in
       whenM (negb (aj =? 0)) (bfree (i_dev i) aj)) ;;
     fbrelse bp ;;
     bfree (i_dev i) addr ;;
     modify (iupd ip (iset_addr (Z.to_nat NDIRECT) 0))) ;;
  modify (iupd ip (iset_size 0)) ;;
  iupdate ip.

Definition iput (ip : nat) : M (fs S) unit :=
  pid ← gets f_pid;
  on_ilock ip (acquiresleep pid) ;;
  i ← inode_of ip;
  whenM (i_valid i && (i_nlink i =? 0))
    (ic_acquire ;;
     i ← inode_of ip;
     let r := i_ref i in
     ic_release ;;
     whenM (r =? 1)
       (itrunc ip ;;
        modify (iupd ip (iset_type 0)) ;;
        iupdate ip ;;
        modify (iupd ip (iset_valid false)))) ;;
  on_ilock ip releasesleep ;;
  ic_acquire ;;
  modify (λ s, iupd ip (iset_ref (i_ref (inoden s ip) - 1)) s) ;;
  ic_release.

Definition iunlockput (ip : nat) : M (fs S) unit := iunlock ip ;; iput ip.

Definition stati (ip : nat) : M (fs S) stat :=
  i ← inode_of ip;
  ret (Stat (i_type i) (i_dev i) (i_inum i) (i_nlink i) (i_size i)).

(** The copy loop of [readi]: what is copied to the destination. *)
Fixpoint readi_loop (fuel : nat) (ip : nat) (off n tot : Z) : M (fs S) (list Z) :=
  match fuel with
  | O => ret []
  | Datatypes.S f =>
      if tot <? n then
        i ← inode_of ip;
        addr ← bmap ip (off / BSIZE);
        bp ← fbread (i_dev i) addr;
        let m := Z.min (n - tot) (BSIZE - off mod BSIZE) in
        d ← fdata bp;
        let bytes := slice (Z.to_nat (off mod BSIZE)) (Z.to_nat m) d in
        fbrelse bp ;;
        rest ← readi_loop f ip (off + m) n (tot + m);
        ret (bytes ++ rest)
      else ret []
  end.
(** At most one iteration per block touched. *)
Definition io_fuel (n : Z) : nat := Z.to_nat (n / BSIZE + 2).

(** [readi(ip, dst, off, n)]: the value returned and the bytes stored at dst. *)
Definition readi (ip : nat) (off n : Z) : M (fs S) (Z * list Z) :=
  i ← inode_of ip;
  if i_type i =? T_DEV then
    if (i_major i <? 0) || (NDEV <=? i_major i) then ret (-1, [])
    else match dev_read (i_major i) with
         | None => ret (-1, [])
         | Some read => read ip n
         end
  else
  if (i_size i <? off) || (u32 (off + n) <? off) then ret (-1, []) else
  let n := if i_size i <? u32 (off + n) then i_size i - off else n in
  bytes ← readi_loop (io_fuel n) ip off n 0;
  ret (n, bytes).

Fixpoint writei_loop (fuel : nat) (ip : nat) (src : list Z) (off n tot : Z) : M (fs S) Z :=
  match fuel with
  | O => ret off
  | Datatypes.S f =>
      if tot <? n then
        i ← inode_of ip;
        addr ← bmap ip (off / BSIZE);
        bp ← fbread (i_dev i) addr;
        let m := Z.min (n - tot) (BSIZE - off mod BSIZE) in
        d ← fdata bp;
        fset_data bp (splice (Z.to_nat (off mod BSIZE)) (slice (Z.to_nat tot) (Z.to_nat m) src) d) ;;
        flog_write bp ;;
        fbrelse bp ;;
        writei_loop f ip src (off + m) n (tot + m)
      else ret off
  end.

(** [writei(ip, src, off, n)] with the [n] bytes at src. *)
Definition writei (ip : nat) (src : list Z) (off n : Z) : M (fs S) Z :=
  i ← inode_of ip;
  if i_type i =? T_DEV then
    if (i_major i <? 0) || (NDEV <=? i_major i) then ret (-1)
    else match dev_write (i_major i) with
         | None => ret (-1)
         | Some write => write ip src n
         end
  else
  if (i_size i <? off) || (u32 (off + n) <? off) then ret (-1) else
  if MAXFILE * BSIZE <? u32 (off + n) then ret (-1) else
  off ← writei_loop (io_fuel n) ip src off n 0;
  i ← inode_of ip;
  whenM ((0 <? n) && (i_size i <? off))
    (modify (iupd ip (iset_size off)) ;; iupdate ip) ;;
  ret n.

(** ** Directories *)

Definition sizeof_dirent : Z := 2 + DIRSIZ.
Definition de_inum (de : list Z) : Z := get_u16 0 de.
Definition de_name (de : list Z) : list Z := slice 2 (Z.to_nat DIRSIZ) de.

Definition namecmp (s t : cptr) : Z := strncmp s t (Z.to_nat DIRSIZ).

(** The entry's inode and its offset ([*poff]). *)
Fixpoint dirlookup_from (fuel : nat) (dp : nat) (name : cptr) (off : Z)
    : M (fs S) (option (nat * Z)) :=
  match fuel with
  | O => ret None
  | Datatypes.S f =>
      i ← inode_of dp;
      if off <? i_size i then
        r ← readi dp off sizeof_dirent;
        let '(n, de) := r in
        if negb (n =? sizeof_dirent) then panic "dirlookup read" else
        if de_inum de =? 0 then dirlookup_from f dp name (off + sizeof_dirent) else
        if namecmp name (ptr_of (de_name de)) =? 0 then
          ip ← iget (i_dev i) (de_inum de);
          ret (Some (ip, off))
        else dirlookup_from f dp name (off + sizeof_dirent)
      else ret None
  end.
Definition dir_fuel (size : Z) : nat := Z.to_nat (size / sizeof_dirent + 2).

Definition dirlookup (dp : nat) (name : cptr) : M (fs S) (option (nat * Z)) :=
  i ← inode_of dp;
  if negb (i_type i =? T_DIR) then panic "dirlookup not DIR" else
  dirlookup_from (dir_fuel (i_size i)) dp name 0.

(** Offset of the first empty entry, or of the end of the directory. *)
Fixpoint dirlink_from (fuel : nat) (dp : nat) (off : Z) : M (fs S) Z :=
  match fuel with
  | O => ret off
  | Datatypes.S f =>
      i ← inode_of dp;
      if off <? i_size i then
        r ← readi dp off sizeof_dirent;
        let '(n, de) := r in
        if negb (n =? sizeof_dirent) then panic "dirlink read" else
        if de_inum de =? 0 then ret off else dirlink_from f dp (off + sizeof_dirent)
      else ret off
  end.

Definition dirlink (dp : nat) (name : cptr) (inum : Z) : M (fs S) Z :=
  r ← dirlookup dp name;
  match r with
  | Some (ip, _) => iput ip ;; ret (-1)
  | None =>
      i ← inode_of dp;
      off ← dirlink_from (dir_fuel (i_size i)) dp 0;
      let de := le 2 inum ++ strncpy (replicate (Z.to_nat DIRSIZ) 0) name DIRSIZ in
      n ← writei dp de off sizeof_dirent;
      if negb (n =? sizeof_dirent) then panic "dirlink" else ret 0
  end.

(** ** Paths *)

Definition slash : Z := 47.

Fixpoint skip_slashes (path : list Z) : list Z :=
  match path with
  | c :: p => if c =? slash then skip_slashes p else path
  | [] => []
  end.
(** The element up to the next slash, and what follows it. *)
Fixpoint take_elem (path : list Z) : list Z * list Z :=
  match path with
  | c :: p => if c =? slash then ([], path)
              else let '(e, rest) := take_elem p in (c :: e, rest)
  | [] => ([], [])
  end.

(** [path] is the string without its NUL, [name] the array of DIRSIZ bytes. *)
Definition skipelem (path name : list Z) : option (list Z * list Z) :=
  let path := skip_slashes path in
  match path with
  | [] => None
  | _ =>
      let '(s, path) := take_elem path in
      let len := Z.of_nat (length s) in
      let name := if DIRSIZ <=? len then splice 0 (take (Z.to_nat DIRSIZ) s) name
                  else splice 0 (s ++ [0]) name in
      Some (skip_slashes path, name)
  end.

Fixpoint namex_loop (fuel : nat) (ip : nat) (path : list Z) (nameiparent : bool) (name : list Z)
    : M (fs S) (option nat * list Z) :=
  match fuel with
  | O => fault
  | Datatypes.S f =>
      match skipelem path name with
      | None =>
          if nameiparent then iput ip ;; ret (None, name) else ret (Some ip, name)
      | Some (path, name) =>
          ilock ip ;;
          i ← inode_of ip;
          if negb (i_type i =? T_DIR) then iunlockput ip ;; ret (None, name) else
          if nameiparent && bool_decide (path = []) then iunlock ip ;; ret (Some ip, name) else
          next ← dirlookup ip (ptr_of name);
          match next with
          | None => iunlockput ip ;; ret (None, name)
          | Some (next, _) => iunlockput ip ;; namex_loop f next path nameiparent name
          end
      end
  end.

(** The inode and the final [name]; each iteration shortens the path. *)
Definition namex (path : list Z) (nameiparent : bool) (name : list Z)
    : M (fs S) (option nat * list Z) :=
  cwd ← gets f_cwd;
  ip ← (match path with
        | c :: _ => if c =? slash then iget ROOTDEV ROOTINO else idup cwd
        | [] => idup cwd
        end);
  namex_loop (Datatypes.S (length path)) ip path nameiparent name.

Definition namei (path : list Z) : M (fs S) (option nat) :=
  r ← namex path false (replicate (Z.to_nat DIRSIZ) 0); ret r.1.
Definition nameiparent (path name : list Z) : M (fs S) (option nat * list Z) :=
  namex path true name.

End fs.
