(* ===== verification/FsRules.v ===== *)
(** * Transactions as the file system uses them

    Inside a system call every block is read with [bread], changed only as
    [modify data; log_write], and released.  [txs s r h v] says that the log of
    [s] is in its invariant with an operation outstanding, that at least [r]
    more blocks can be logged, that the buffers [h] are in use, and that the
    blocks currently contain [v].  The rules below are the whole interface the
    proofs about fs.c use.  The file ends with a small image on which the
    witnesses of the file system run. *)

From S2P Require Import Prelude Words Params CString Locks BufIface Redo Log LogCrash LogInv Fs Ring Bio BioLaws.

Section rules.
Context {S : Type} `{BufCacheLaws S}.
Implicit Types (s : fs S) (l : log S) (h : gmap nat Z) (v : Z → block).

Definition cache_of s : S := l_cache (f_log s).
Definition disk_of s : list block := c_disk (cache_of s).

Record txs s (r : Z) h v : Prop := {
  t_inv : log_inv (f_log s);
  t_out : 1 ≤ l_outstanding (f_log s);
  t_held : c_held (cache_of s) = h;
  t_view : ∀ x, 0 ≤ x → c_view (cache_of s) x = v x;
  t_room : lh_n (l_lh (f_log s)) + r ≤ l_size (f_log s) - 1;
  t_clean : ∀ x, 0 ≤ x → x ∈ tx_blocks (f_log s) ∨ v x = disk_of s !!! Z.to_nat x
}.

(** What a transaction step does not change. *)
Definition log_ext l l' : Prop :=
  l_start l' = l_start l ∧ l_size l' = l_size l ∧ l_outstanding l' = l_outstanding l ∧
  c_disk (l_cache l') = c_disk (l_cache l).

(** Blocks outside the log. *)
Definition homeb s (b : Z) : Prop := home (l_start (f_log s)) (l_size (f_log s)) (disk_of s) b.

Lemma log_ext_refl l : log_ext l l.
Proof. done. Qed.

Lemma log_ext_trans l1 l2 l3 : log_ext l1 l2 → log_ext l2 l3 → log_ext l1 l3.
Proof. intros (? & ? & ? & ?) (? & ? & ? & ?). split_and!; congruence. Qed.

Lemma homeb_ext s l b : log_ext (f_log s) l → homeb (with_log l s) b ↔ homeb s b.
Proof. intros (E1 & E2 & _ & E3). unfold homeb, disk_of, cache_of. simpl. by rewrite E1, E2, E3. Qed.

Lemma disk_ext s l : log_ext (f_log s) l → disk_of (with_log l s) = disk_of s.
Proof. by intros (_ & _ & _ & ?). Qed.

Lemma txs_state s r h v :
  txs s r h v → state_is (cache_of s) (disk_of s) (c_writes (cache_of s)) h
    (list_to_set (tx_blocks (f_log s))) v.
Proof.
  intros [Hl _ <- Hv _ _]. eapply state_is_view; [apply (log_inv_state _ Hl)|done].
Qed.

Lemma txs_weaken s r r' h v : txs s r h v → r' ≤ r → txs s r' h v.
Proof. intros [? ? ? ? ? ?] Hr. split; try done. lia. Qed.

Lemma txs_view s r h v v' : txs s r h v → (∀ x, 0 ≤ x → v x = v' x) → txs s r h v'.
Proof.
  intros [? ? ? Hv ? Hc] Heq. split; try done.
  - intros x Hx. by rewrite Hv, Heq.
  - intros x Hx. rewrite <- Heq by done. by apply Hc.
Qed.

(** Only the log matters. *)
Lemma txs_log s s' r h v : f_log s' = f_log s → txs s r h v → txs s' r h v.
Proof.
  intros E [? ? ? ? ? ?]. unfold cache_of, disk_of in *.
  split; unfold cache_of, disk_of, cache_of; rewrite ?E; done.
Qed.

Lemma txs_block_ok s r h v b :
  txs s r h v → 0 ≤ b < Z.of_nat (length (disk_of s)) → block_ok (v b).
Proof. intros Ht Hb. eapply state_block_ok; [by eapply txs_state|done]. Qed.

(** A step of the cache below that keeps disk and dirty blocks. *)
Lemma txs_cache s r h v (c : S) h' :
  txs s r h v →
  state_is c (disk_of s) (c_writes (cache_of s)) h' (list_to_set (tx_blocks (f_log s))) v →
  let l' := with_cache c (f_log s) in
  log_ext (f_log s) l' ∧ txs (with_log l' s) r h' v.
Proof.
  intros [Hl Ho Hh Hv Hr Hc] Hst. pose proof Hst as (_ & Hd & _ & Hh' & _ & Hv').
  split; [split_and!; done|]. split; simpl; try done.
  - by eapply log_inv_cache.
  - intros x Hx. unfold disk_of at 1, cache_of. simpl. rewrite Hd. by apply Hc.
Qed.

Lemma wp_fbread s r h v b (Q : nat → fs S → Prop) :
  txs s r h v → 0 ≤ b < Z.of_nat (length (disk_of s)) → (∀ i, h !! i ≠ Some b) →
  Z.of_nat (size h) ≤ r →
  (∀ i l, h !! i = None → log_ext (f_log s) l → txs (with_log l s) r (<[i := b]> h) v →
     Q i (with_log l s)) →
  wp (fbread ROOTDEV b) Q s.
Proof.
  intros Ht Hb Hn Hr HQ. apply wp_zoom.
  eapply wp_bread_; [by eapply txs_state|done|done| |].
  - right. pose proof (li_tx _ (t_inv _ _ _ _ Ht)) as Htx. rewrite (size_tx _ _ Htx).
    pose proof (log_inv_n _ (t_inv _ _ _ _ Ht)). pose proof (t_room _ _ _ _ Ht).
    pose proof (li_size _ (t_inv _ _ _ _ Ht)). lia.
  - intros i c Hi Hc. destruct (txs_cache _ _ _ _ _ _ Ht Hc). by apply HQ.
Qed.

Lemma wp_fbrelse s r h v i b (Q : unit → fs S → Prop) :
  txs s r h v → h !! i = Some b →
  (∀ l, log_ext (f_log s) l → txs (with_log l s) r (delete i h) v → Q tt (with_log l s)) →
  wp (fbrelse i) Q s.
Proof.
  intros Ht Hi HQ. apply wp_zoom. pose proof (txs_state _ _ _ _ Ht) as Hst.
  pose proof (state_held _ _ _ _ _ _ _ _ Hst Hi) as Hb.
  eapply wp_brelse_; [exact Hst|exact Hi| |].
  - rewrite elem_of_list_to_set. apply (t_clean _ _ _ _ Ht). lia.
  - intros c Hc. destruct (txs_cache _ _ _ _ _ _ Ht Hc). by apply HQ.
Qed.

Lemma wp_fdata s r h v i b (Q : block → fs S → Prop) :
  txs s r h v → h !! i = Some b → Q (v b) s → wp (fdata i) Q s.
Proof.
  intros Ht Hi HQ. apply wp_zoom. eapply wp_data_; [by eapply txs_state|done|].
  by destruct s.
Qed.

(** [modify bp->data; log_write(bp)] *)
Lemma wp_fupdate {A} s r h v i b d (k : unit → M (fs S) A) (Q : A → fs S → Prop) :
  txs s r h v → h !! i = Some b → homeb s b → block_ok d → 1 ≤ r →
  (∀ l, log_ext (f_log s) l → txs (with_log l s) (r - 1) h (view_upd v b d) →
     wp (k tt) Q (with_log l s)) →
  wp (fset_data i d ;; x ← flog_write i; k x) Q s.
Proof.
  intros Ht Hi Hb Hd Hr HQ. pose proof (txs_state _ _ _ _ Ht) as Hst.
  pose proof Ht as [Hl Ho Hh Hv Hroom Hclean].
  wp_step. apply wp_zoom. eapply wp_set_data_; [exact Hst|exact Hi|done|].
  intros c1 Hc1. wp_step. apply wp_zoom. simpl.
  set (l1 := with_cache c1 (f_log s)).
  assert (Hl1 : log_inv l1) by by eapply log_inv_cache.
  pose proof Hc1 as (_ & Hd1 & _ & Hh1 & _ & Hv1).
  eapply wp_mono.
  { apply (wp_log_write l1 i b Hl1); simpl; [by rewrite Hh1| |lia|done].
    rewrite Hd1. exact Hb. }
  intros [] l2 (Hl2 & Hbl & Ho2 & Hs2 & Hz2 & Hst2). simpl in *.
  rewrite Hd1, Hh1 in Hst2. pose proof Hst2 as (_ & Hd2 & _ & Hh2 & _ & Hv2).
  change (with_log l2 (with_log l1 s)) with (with_log l2 s).
  apply HQ; [split_and!; done|]. split; simpl; try done; try lia.
  - intros x Hx. unfold cache_of. simpl. rewrite Hv2, Hv1 by done. done.
  - pose proof (length_tx_blocks _ _ (li_tx _ Hl2)) as E2.
    pose proof (length_tx_blocks _ _ (li_tx _ Hl)) as E1.
    pose proof (log_inv_n _ Hl2). pose proof (log_inv_n _ Hl).
    rewrite Hbl in E2. change (tx_blocks l1) with (tx_blocks (f_log s)) in E2.
    unfold tx_add in E2. case_decide; [lia|]. rewrite length_app in E2. simpl in E2. lia.
  - intros x Hx. unfold disk_of, cache_of. simpl. rewrite Hd2.
    destruct (decide (x = b)) as [->|Hne].
    + left. rewrite Hbl. apply elem_of_tx_add. by left.
    + rewrite view_upd_ne by done. destruct (Hclean x Hx) as [?|?]; [left|by right].
      rewrite Hbl. apply elem_of_tx_add. by right.
Qed.
End rules.

(** ** A small file system image, for the witnesses

    Fifty blocks: super block, thirty log blocks, one inode block, one bitmap
    block, a root directory with the entries ".", ".." and "f", and the file
    "f" with five bytes.  The image is mounted on bio.c with an empty log and
    one operation outstanding. *)

#[global] Instance no_devices : DevSw bst := {
  dev_read _ := None;
  dev_write _ := None
}.

Definition pad (n : nat) (l : list Z) : list Z := l ++ replicate (n - length l) 0.
Definition demo_sb : superblock := Superblock 50 16 8 30 2 32 33.
Definition demo_sb_block : block := pad 512 (concat (le 4 <$> [50; 16; 8; 30; 2; 32; 33])).
Definition demo_dinode (type nlink size addr : Z) : list Z :=
  le 2 type ++ le 2 0 ++ le 2 0 ++ le 2 nlink ++ le 4 size ++ addr_bytes (addr :: replicate 12 0).
Definition demo_inodes : block :=
  pad 512 (replicate 64 0 ++ demo_dinode 1 1 48 34 ++ demo_dinode 2 1 5 35).
Definition demo_bitmap : block := pad 512 [255; 255; 255; 255; 15].
Definition demo_root : block :=
  pad 512 (le 2 1 ++ pad 14 [46] ++ le 2 1 ++ pad 14 [46; 46] ++ le 2 2 ++ pad 14 [102]).
Definition demo_file : block := pad 512 [104; 101; 108; 108; 111].

Definition demo_img : list block :=
  [zero_block; demo_sb_block] ++ replicate 30 zero_block ++
  [demo_inodes; demo_bitmap; demo_root; demo_file] ++ replicate 14 zero_block.

Definition demo_fslog (c : bst) : log bst :=
  Log false 2 30 1 0 ROOTDEV (LogHeader 0 (replicate (Z.to_nat LOGSIZE) 0)) c.
Definition mount (c : bst) : fs bst :=
  Fs (demo_fslog c) demo_sb false (replicate (Z.to_nat NINODE) zero_inode) 7 0.
Definition demo_fs : fs bst := mount (booted demo_img 7).

Definition demo_view (b : Z) : block := demo_img !!! Z.to_nat b.

Definition byteb (z : Z) : bool := (0 <=? z) && (z <? 256).
Definition block_okb (d : block) : bool := (length d =? 512)%nat && forallb byteb d.
Lemma block_okb_ok d : block_okb d = true → block_ok d.
Proof.
  unfold block_okb. intros [Hl Hb]%andb_true_iff. split; [by apply Nat.eqb_eq|].
  apply Forall_forall. intros x Hx. rewrite forallb_forall in Hb.
  apply list_elem_of_In, Hb in Hx. unfold byteb in Hx. bool_props. unfold is_byte. lia.
Qed.

Lemma demo_img_ok : Forall block_ok demo_img.
Proof.
  assert (Hb : forallb block_okb demo_img = true) by (vm_compute; reflexivity).
  apply Forall_forall. intros d Hd. rewrite forallb_forall in Hb.
  by apply list_elem_of_In, Hb, block_okb_ok in Hd.
Qed.

Lemma demo_img_len : length demo_img = 50%nat.
Proof. vm_compute. reflexivity. Qed.

Lemma mount_txs c :
  state_is c demo_img [] ∅ ∅ demo_view → txs (mount c) 29 ∅ demo_view ∧ disk_of (mount c) = demo_img.
Proof.
  intros Hst. pose proof Hst as (Hinv & Hd & _ & Hh & HD & Hv). split; [|exact Hd].
  assert (Hl : log_inv (demo_fslog c)).
  { split; change (c_disk (l_cache (demo_fslog c))) with (c_disk c); rewrite ?Hd; try done.
    - split; rewrite ?demo_img_len; try done; try (simpl; lia); by constructor. }
  split; try done.
  intros x Hx. right. change (disk_of (mount c)) with (c_disk c). by rewrite Hd.
Qed.

Lemma demo_txs : txs demo_fs 29 ∅ demo_view ∧ disk_of demo_fs = demo_img.
Proof. apply mount_txs. apply booted_state, demo_img_ok. Qed.

(** Statements about the fifty blocks are checked one by one. *)
Lemma below (P : Z → bool) n : forallb (λ k, P (Z.of_nat k)) (seq 0 n) = true →
  ∀ b, 0 ≤ b < Z.of_nat n → P b = true.
Proof.
  intros Hb b Hr. rewrite forallb_forall in Hb. rewrite <- (Z2Nat.id b) by lia.
  apply Hb. apply list_elem_of_In, elem_of_seq. lia.
Qed.

Lemma demo_home b : homeb demo_fs b ↔ 0 ≤ b < 50 ∧ (b < 2 ∨ 32 ≤ b).
Proof.
  unfold homeb, home. rewrite (proj2 demo_txs), demo_img_len.
  change (l_start (f_log demo_fs)) with 2. change (l_size (f_log demo_fs)) with 30. lia.
Qed.
