(* ===== verification/FsBlocks.v ===== *)
(** * Free block bitmap (fs.c: bzero, balloc, bfree) *)

From S2P Require Import Prelude Words Params CString Locks BufIface Redo Log LogCrash LogInv Fs FsRules.
From S2P Require Import Ring Bio BioLaws FsRules.

(** ** Bits of a bitmap block *)

Lemma land_bit x k : 0 ≤ k → (Z.land x (Z.shiftl 1 k) =? 0) = negb (Z.testbit x k).
Proof.
  intros Hk. apply eq_true_iff_eq. rewrite Z.eqb_eq, negb_true_iff. split.
  - intros Hz. assert (Z.testbit (Z.land x (Z.shiftl 1 k)) k = false) by by rewrite Hz, Z.bits_0.
    rewrite Z.land_spec, Z.shiftl_spec, Z.sub_diag in * by done. by destruct (Z.testbit x k).
  - intros Hb. apply Z.bits_inj'. intros n Hn. rewrite Z.land_spec, Z.bits_0, Z.shiftl_spec by done.
    destruct (decide (n = k)) as [->|Hne]; [by rewrite Hb|].
    destruct (decide (n < k)); [by rewrite (Z.testbit_neg_r 1), andb_false_r by lia|].
    rewrite (Z.bits_above_log2 1), andb_false_r; [done|lia|simpl; lia].
Qed.

Lemma bit_free_testbit d bi :
  bit_free d bi = negb (Z.testbit (d !!! Z.to_nat (bi / 8)) (bi mod 8)).
Proof. apply land_bit. apply Z.mod_pos_bound. lia. Qed.

Lemma shiftl1_testbit k n : 0 ≤ k → 0 ≤ n → Z.testbit (Z.shiftl 1 k) n = (n =? k).
Proof.
  intros Hk Hn. rewrite Z.shiftl_spec by done. destruct (n =? k) eqn:E; bool_props.
  - subst. by rewrite Z.sub_diag.
  - destruct (decide (n < k)); [by apply Z.testbit_neg_r; lia|].
    apply Z.bits_above_log2; simpl; lia.
Qed.

(** Two bits of a block are in different bytes or at different places. *)
Lemma bit_pos_inj i j : 0 ≤ i → 0 ≤ j → i / 8 = j / 8 → i mod 8 = j mod 8 → i = j.
Proof. intros. rewrite (Z.div_mod i 8), (Z.div_mod j 8) by lia. congruence. Qed.

Lemma bit_free_mark_used d i j :
  0 ≤ i < BPB → 0 ≤ j < BPB → length d = Z.to_nat BSIZE →
  bit_free (mark_used d i) j = if decide (j = i) then false else bit_free d j.
Proof.
  intros Hi Hj Hl. rewrite !bit_free_testbit. unfold mark_used.
  assert (Hri : (Z.to_nat (i / 8) < length d)%nat).
  { rewrite Hl. unfold BPB, BSIZE in *. assert (i / 8 < 512) by (apply Z.div_lt_upper_bound; lia).
    pose proof (Z.div_pos i 8). lia. }
  assert (0 ≤ i / 8) by (apply Z.div_pos; lia). assert (0 ≤ j / 8) by (apply Z.div_pos; lia).
  pose proof (Z.mod_pos_bound i 8). pose proof (Z.mod_pos_bound j 8).
  destruct (decide (j / 8 = i / 8)) as [He|He].
  - rewrite He, list_lookup_total_insert_eq by done. rewrite Z.lor_spec. unfold bit_mask.
    rewrite shiftl1_testbit by lia. case_decide as Hd.
    + subst. by rewrite Z.eqb_refl, orb_true_r.
    + destruct (j mod 8 =? i mod 8) eqn:E; bool_props; [|by rewrite orb_false_r].
      destruct Hd. apply bit_pos_inj; lia.
  - rewrite list_lookup_total_insert_ne by lia. case_decide; [by subst|done].
Qed.

Lemma bit_free_mark_free d i j :
  0 ≤ i < BPB → 0 ≤ j < BPB → length d = Z.to_nat BSIZE →
  bit_free (mark_free d i) j = if decide (j = i) then true else bit_free d j.
Proof.
  intros Hi Hj Hl. rewrite !bit_free_testbit. unfold mark_free.
  assert (Hri : (Z.to_nat (i / 8) < length d)%nat).
  { rewrite Hl. unfold BPB, BSIZE in *. assert (i / 8 < 512) by (apply Z.div_lt_upper_bound; lia).
    pose proof (Z.div_pos i 8). lia. }
  assert (0 ≤ i / 8) by (apply Z.div_pos; lia). assert (0 ≤ j / 8) by (apply Z.div_pos; lia).
  pose proof (Z.mod_pos_bound i 8). pose proof (Z.mod_pos_bound j 8).
  destruct (decide (j / 8 = i / 8)) as [He|He].
  - rewrite He, list_lookup_total_insert_eq by done. rewrite Z.land_spec, Z.lnot_spec by lia.
    unfold bit_mask. rewrite shiftl1_testbit by lia. case_decide as Hd.
    + subst. by rewrite Z.eqb_refl, andb_false_r.
    + destruct (j mod 8 =? i mod 8) eqn:E; bool_props; [|by rewrite andb_true_r].
      destruct Hd. apply bit_pos_inj; lia.
  - rewrite list_lookup_total_insert_ne by lia. case_decide; [by subst|done].
Qed.

Lemma byte_of_bits x : 0 ≤ x → (∀ n, 8 ≤ n → Z.testbit x n = false) → is_byte x.
Proof.
  intros Hx Hb. split; [done|]. destruct (decide (x = 0)); [lia|].
  apply (Z.log2_lt_cancel x 256). change (Z.log2 256) with 8.
  destruct (decide (Z.log2 x < 8)); [done|].
  pose proof (Hb (Z.log2 x) ltac:(lia)) as Hl. rewrite Z.bit_log2 in Hl by lia. done.
Qed.

Lemma is_byte_testbit x n : is_byte x → 8 ≤ n → Z.testbit x n = false.
Proof.
  intros Hx Hn. unfold is_byte in Hx. destruct (decide (x = 0)) as [->|]; [apply Z.bits_0|].
  apply Z.bits_above_log2; [lia|]. apply Z.lt_le_trans with 8; [|done].
  apply Z.log2_lt_pow2; [lia|]. change (2 ^ 8) with 256. lia.
Qed.

Lemma mark_ok (f : Z → Z) d bi :
  (∀ x, is_byte x → is_byte (f x)) → block_ok d → 0 ≤ bi < BPB →
  block_ok (<[Z.to_nat (bi / 8) := f (d !!! Z.to_nat (bi / 8))]> d).
Proof.
  intros Hf [Hl Hb] Hbi. split; [by rewrite length_insert|].
  apply Forall_insert; [done|]. apply Hf. eapply Forall_lookup_1; [exact Hb|].
  apply list_lookup_lookup_total_lt. rewrite Hl. unfold BPB, BSIZE in *.
  assert (bi / 8 < 512) by (apply Z.div_lt_upper_bound; lia). pose proof (Z.div_pos bi 8). lia.
Qed.

Lemma bit_mask_testbit bi n : 0 ≤ bi → 8 ≤ n → Z.testbit (bit_mask bi) n = false.
Proof.
  intros Hbi Hn. unfold bit_mask. pose proof (Z.mod_pos_bound bi 8).
  rewrite shiftl1_testbit by lia. apply Z.eqb_neq. lia.
Qed.

Lemma mark_used_ok d bi : block_ok d → 0 ≤ bi < BPB → block_ok (mark_used d bi).
Proof.
  intros Hd Hbi. apply (mark_ok (λ x, Z.lor x (bit_mask bi))); [|done|done].
  intros x Hx. apply byte_of_bits.
  - apply Z.lor_nonneg. split; [apply Hx|]. apply Z.shiftl_nonneg. lia.
  - intros n Hn. rewrite Z.lor_spec, is_byte_testbit, bit_mask_testbit by (done || lia). done.
Qed.

Lemma mark_free_ok d bi : block_ok d → 0 ≤ bi < BPB → block_ok (mark_free d bi).
Proof.
  intros Hd Hbi. apply (mark_ok (λ x, Z.land x (Z.lnot (bit_mask bi)))); [|done|done].
  intros x Hx. apply byte_of_bits.
  - apply Z.land_nonneg. left. apply Hx.
  - intros n Hn. by rewrite Z.land_spec, is_byte_testbit by (done || lia).
Qed.

(** ** The free map *)

Section bitmap.
Context {S : Type} `{BufCacheLaws S}.
Implicit Types (s : fs S) (h : gmap nat Z) (v : Z → block).

(** Block [b] is marked in use in the bitmap. *)
Definition used (sb : superblock) v (b : Z) : bool :=
  negb (bit_free (v (BBLOCK b sb)) (b mod BPB)).

(** The bitmap lies outside the log, and the blocks it calls free are outside
    the log and the bitmap. *)
Record bitmap_ok s v : Prop := {
  bm_size : 0 ≤ sb_size (f_sb s) ≤ Z.of_nat (length (disk_of s));
  bm_wrap : 0 ≤ sb_bmapstart (f_sb s) ∧
            sb_size (f_sb s) / BPB + sb_bmapstart (f_sb s) < 2 ^ 32;
  bm_home : ∀ b, 0 ≤ b < sb_size (f_sb s) → homeb s (BBLOCK b (f_sb s));
  bm_free : ∀ b, 0 ≤ b < sb_size (f_sb s) → used (f_sb s) v b = false →
    homeb s b ∧ ∀ c, 0 ≤ c < sb_size (f_sb s) → BBLOCK c (f_sb s) ≠ b
}.

(** Buffers in use by the caller of [balloc]: no bitmap block, no free block. *)
Definition held_ok s v h : Prop :=
  ∀ i b, h !! i = Some b →
    (∀ c, 0 ≤ c < sb_size (f_sb s) → BBLOCK c (f_sb s) ≠ b) ∧
    (0 ≤ b < sb_size (f_sb s) → used (f_sb s) v b = true).

Lemma bitmap_ok_ext s l v : log_ext (f_log s) l → bitmap_ok s v → bitmap_ok (with_log l s) v.
Proof.
  intros He [H1 H2 H3 H4]. split; simpl; try done.
  - by rewrite disk_ext.
  - intros b Hb. rewrite homeb_ext by done. by apply H3.
  - intros b Hb Hu. rewrite homeb_ext by done. by apply H4.
Qed.

Lemma BBLOCK_eq s v b :
  bitmap_ok s v → 0 ≤ b < sb_size (f_sb s) →
  BBLOCK b (f_sb s) = b / BPB + sb_bmapstart (f_sb s).
Proof.
  intros [_ [? ?] _ _] Hb. apply u32_id. unfold is_u32.
  assert (0 ≤ b / BPB) by (apply Z.div_pos; unfold BPB, BSIZE; lia).
  assert (b / BPB ≤ sb_size (f_sb s) / BPB) by (apply Z.div_le_mono; unfold BPB, BSIZE; lia). lia.
Qed.

(** Bit [bi] of the bitmap block of [b] when [b] is a multiple of BPB. *)
Lemma bitmap_slot b bi sb :
  0 ≤ b → b mod BPB = 0 → 0 ≤ bi < BPB →
  BBLOCK (b + bi) sb = BBLOCK b sb ∧ (b + bi) mod BPB = bi.
Proof.
  intros Hb Hm Hbi. unfold BBLOCK. split.
  - do 2 f_equal. pose proof (Z.div_mod b BPB ltac:(done)) as Hd. symmetry.
    apply Z.div_unique with bi; lia.
  - rewrite <- Zplus_mod_idemp_l, Hm. apply Z.mod_small. lia.
Qed.

Lemma balloc_scan_spec fuel d b size bi :
  match balloc_scan fuel d b size bi with
  | Some k => bi ≤ k < BPB ∧ b + k < size ∧ bit_free d k = true ∧
              ∀ j, bi ≤ j < k → bit_free d j = false
  | None => ∀ j, bi ≤ j < Z.min BPB (bi + Z.of_nat fuel) → b + j < size → bit_free d j = false
  end.
Proof.
  revert bi. induction fuel as [|f IH]; intros bi; cbn [balloc_scan]; [intros; lia|].
  destruct ((bi <? BPB) && (b + bi <? size)) eqn:E; [|intros j Hj Hs; bool_props; lia].
  bool_props. destruct (bit_free d bi) eqn:Ef.
  - split_and!; try done; lia.
  - specialize (IH (bi + 1)). destruct (balloc_scan f d b size (bi + 1)) as [k|].
    + destruct IH as (? & ? & ? & Hall). split_and!; try done; try lia.
      intros j Hj. destruct (decide (j = bi)) as [->|]; [done|apply Hall; lia].
    + intros j Hj Hs. destruct (decide (j = bi)) as [->|]; [done|apply IH; lia].
Qed.

Definition zblock : block := replicate (Z.to_nat BSIZE) 0.

Lemma zblock_ok : block_ok zblock.
Proof. split; [apply length_replicate|]. apply Forall_replicate. unfold is_byte. lia. Qed.

Lemma wp_bzero s r h v b (Q : unit → fs S → Prop) :
  txs s r h v → homeb s b → (∀ i, h !! i ≠ Some b) → Z.of_nat (size h) ≤ r → 1 ≤ r →
  (∀ l, log_ext (f_log s) l → txs (with_log l s) (r - 1) h (view_upd v b zblock) →
     Q tt (with_log l s)) →
  wp (bzero ROOTDEV b) Q s.
Proof.
  intros Ht Hb Hn Hsz Hr HQ. pose proof Hb as [Hrng _].
  assert (Hu : u32 b = b).
  { apply u32_id. pose proof (tx_small _ _ (li_tx _ (t_inv _ _ _ _ Ht))). unfold is_u32.
    unfold disk_of, cache_of in Hrng. lia. }
  unfold bzero. rewrite Hu. wp_step. eapply wp_fbread; [exact Ht|done|done|done|].
  intros i l1 Hi Hx1 Ht1.
  eapply wp_fupdate; [exact Ht1|apply lookup_insert_eq|by apply homeb_ext|apply zblock_ok|done|].
  intros l2 Hx2 Ht2. eapply wp_fbrelse; [exact Ht2|apply lookup_insert_eq|].
  intros l3 Hx3 Ht3. simpl in *. rewrite delete_insert_id in Ht3 by done.
  apply HQ; [|exact Ht3]. by eapply log_ext_trans, log_ext_trans.
Qed.

(** The contents after block [a] was allocated. *)
Definition alloc_view (sb : superblock) v (a : Z) : Z → block :=
  view_upd (view_upd v (BBLOCK a sb) (mark_used (v (BBLOCK a sb)) (a mod BPB))) a zblock.

Definition alloc_post s r h v (a : Z) (s' : fs S) : Prop :=
  ∃ l, s' = with_log l s ∧ log_ext (f_log s) l ∧
    0 ≤ a < sb_size (f_sb s) ∧ used (f_sb s) v a = false ∧
    (∀ x, 0 ≤ x < a → used (f_sb s) v x = true) ∧
    txs s' (r - 2) h (alloc_view (f_sb s) v a).

Lemma wp_balloc_from fuel s r h v b :
  txs s r h v → bitmap_ok s v → held_ok s v h → Z.of_nat (size h) + 2 ≤ r →
  0 ≤ b → b mod BPB = 0 → (∀ x, 0 ≤ x < b → x < sb_size (f_sb s) → used (f_sb s) v x = true) →
  (∃ x, b ≤ x < sb_size (f_sb s) ∧ x < b + Z.of_nat fuel * BPB ∧ used (f_sb s) v x = false) →
  wp (balloc_from fuel ROOTDEV b) (alloc_post s r h v) s.
Proof.
  revert s b. induction fuel as [|f IH]; intros s b Ht Hbm Hh Hr Hb Hm Hlow (x & Hx & Hxf & Hu);
    [lia|]. cbn [balloc_from]. unfold get_sb. wp_step. wp_step.
  destruct (b <? sb_size (f_sb s)) eqn:E; bool_props; [|lia].
  assert (Hbs : 0 ≤ b < sb_size (f_sb s)) by lia.
  pose proof (bm_home _ _ Hbm b Hbs) as Hhome. pose proof Hhome as [Hrng _].
  wp_step. eapply wp_fbread; [exact Ht|done| |lia|].
  { intros i Hi. by destruct (Hh _ _ Hi) as [Hne _]; apply (Hne b). }
  intros i l1 Hi Hx1 Ht1. wp_step. eapply wp_fdata; [exact Ht1|apply lookup_insert_eq|].
  pose proof (balloc_scan_spec (Z.to_nat BPB) (v (BBLOCK b (f_sb s))) b (sb_size (f_sb s)) 0) as Hs.
  assert (Hslot : ∀ j, 0 ≤ j < BPB → used (f_sb s) v (b + j) = negb (bit_free (v (BBLOCK b (f_sb s))) j)).
  { intros j Hj. unfold used. by destruct (bitmap_slot b j (f_sb s) Hb Hm Hj) as [-> ->]. }
  destruct (balloc_scan _ _ _ _ _) as [bi|].
  - destruct Hs as (Hbi & Hbs' & Hfree & Hall). destruct (bitmap_slot b bi (f_sb s) Hb Hm Hbi) as [Hbb Hbm'].
    assert (Hua : used (f_sb s) v (b + bi) = false) by by rewrite Hslot, Hfree.
    destruct (bm_free _ _ Hbm (b + bi) ltac:(lia) Hua) as [Hah Hanb].
    eapply wp_fupdate; [exact Ht1|apply lookup_insert_eq|by apply homeb_ext| |lia|].
    { apply mark_used_ok; [eapply txs_block_ok; [exact Ht|done]|done]. }
    intros l2 Hx2 Ht2. wp_step. eapply wp_fbrelse; [exact Ht2|apply lookup_insert_eq|].
    intros l3 Hx3 Ht3. simpl in *. rewrite delete_insert_id in Ht3 by done. wp_step.
    assert (Hx13 : log_ext (f_log s) l3) by (by eapply log_ext_trans, log_ext_trans).
    change (with_log l3 _) with (with_log l3 s) in *.
    eapply wp_bzero; [exact Ht3|by apply homeb_ext| |lia|lia|].
    + intros j Hj. destruct (Hh _ _ Hj) as [_ Hus]. rewrite Hus in Hua by lia. done.
    + intros l4 Hx4 Ht4. wp_step. exists l4. simpl in *. split_and!; try done; try lia.
      * by eapply log_ext_trans.
      * intros y Hy. destruct (decide (y < b)); [apply Hlow; lia|].
        replace y with (b + (y - b)) by lia. rewrite Hslot, Hall by lia. done.
      * unfold alloc_view. rewrite Hbb, Hbm'. eapply txs_weaken; [exact Ht4|lia].
  - wp_step. eapply wp_fbrelse; [exact Ht1|apply lookup_insert_eq|].
    intros l2 Hx2 Ht2. simpl in *. rewrite delete_insert_id in Ht2 by done.
    assert (Hx12 : log_ext (f_log s) l2) by (by eapply log_ext_trans).
    assert (Hall : ∀ j, 0 ≤ j < BPB → b + j < sb_size (f_sb s) → used (f_sb s) v (b + j) = true).
    { intros j Hj Hjs. rewrite Hslot by done. rewrite Hs; [done|lia|done]. }
    eapply wp_mono; [apply (IH (with_log l2 s) (b + BPB)); try done|].
    + by apply bitmap_ok_ext.
    + unfold BPB, BSIZE in *. lia.
    + rewrite Z.add_mod, Hm, Z.mod_same by done. done.
    + intros y Hy Hys. simpl in *. destruct (decide (y < b)); [apply Hlow; lia|].
      replace y with (b + (y - b)) by lia. apply Hall; lia.
    + exists x. simpl. split_and!; try done; try lia.
      destruct (decide (x < b + BPB)); [|lia].
      replace x with (b + (x - b)) in Hu by lia. rewrite Hall in Hu by lia. done.
    + intros a s' (l & -> & Hxl & Ha & Hua & Hla & Hta). exists l. split_and!; try done; try apply Ha.
      by eapply log_ext_trans.
Qed.

Lemma balloc_fuel s :
  0 ≤ sb_size (f_sb s) →
  sb_size (f_sb s) ≤ Z.of_nat (Datatypes.S (Z.to_nat (sb_size (f_sb s) / BPB + 1))) * BPB.
Proof.
  intros Hs. pose proof (Z.div_mod (sb_size (f_sb s)) BPB ltac:(done)) as Hd.
  pose proof (Z.mod_pos_bound (sb_size (f_sb s)) BPB ltac:(done)).
  pose proof (Z.div_pos (sb_size (f_sb s)) BPB Hs ltac:(done)). nia.
Qed.

Lemma wp_balloc s r h v :
  txs s r h v → bitmap_ok s v → held_ok s v h → Z.of_nat (size h) + 2 ≤ r →
  (∃ x, 0 ≤ x < sb_size (f_sb s) ∧ used (f_sb s) v x = false) →
  wp (balloc ROOTDEV) (alloc_post s r h v) s.
Proof.
  intros Ht Hbm Hh Hr (x & Hx & Hu). unfold balloc, get_sb. wp_step. wp_step.
  apply wp_balloc_from; try done; [lia|].
  exists x. pose proof (balloc_fuel s ltac:(apply Hbm)). split_and!; try done; lia.
Qed.

(** No free block: the loop ends in the panic of the code. *)
Lemma balloc_from_full fuel s r v b :
  txs s r ∅ v → bitmap_ok s v → 0 ≤ r → 0 ≤ b → b mod BPB = 0 →
  (∀ x, 0 ≤ x < sb_size (f_sb s) → used (f_sb s) v x = true) →
  balloc_from fuel ROOTDEV b s = Panic "balloc: out of blocks".
Proof.
  revert s b. induction fuel as [|f IH]; intros s b Ht Hbm Hr Hb Hm Hall; [done|].
  cbn [balloc_from]. unfold get_sb.
  apply (panic_bind _ _ (λ sb s', sb = f_sb s ∧ s' = s)); [by apply wp_gets|].
  intros sb s' [-> ->]. destruct (b <? sb_size (f_sb s)) eqn:E; bool_props; [|done].
  pose proof (bm_home _ _ Hbm b ltac:(lia)) as [Hrng _].
  set (Q1 := λ (i : nat) s1, ∃ l, s1 = with_log l s ∧ log_ext (f_log s) l ∧
     txs (with_log l s) r (<[i := BBLOCK b (f_sb s)]> ∅) v).
  apply (panic_bind _ _ Q1).
  { eapply wp_fbread; [exact Ht|done|done|by rewrite map_size_empty|].
    intros i l _ Hx1 Ht1. by exists l. }
  intros i s1 (l1 & -> & Hx1 & Ht1).
  apply (panic_bind _ _ (λ d s', d = v (BBLOCK b (f_sb s)) ∧ s' = with_log l1 s)).
  { eapply wp_fdata; [exact Ht1|apply lookup_insert_eq|done]. }
  intros d s' [-> ->].
  pose proof (balloc_scan_spec (Z.to_nat BPB) (v (BBLOCK b (f_sb s))) b (sb_size (f_sb s)) 0) as Hs.
  destruct (balloc_scan _ _ _ _ _) as [bi|].
  - destruct Hs as (Hbi & Hbs & Hfree & _).
    pose proof (Hall (b + bi) ltac:(lia)) as Hu. unfold used in Hu.
    destruct (bitmap_slot b bi (f_sb s) Hb Hm Hbi) as [Hbb Hbi']. by rewrite Hbb, Hbi', Hfree in Hu.
  - apply (panic_bind _ _ (λ _ s', ∃ l, s' = with_log l s ∧ log_ext (f_log s) l ∧
      txs (with_log l s) r ∅ v)).
    + eapply wp_fbrelse; [exact Ht1|apply lookup_insert_eq|]. intros l Hx2 Ht2.
      rewrite delete_insert_id in Ht2 by apply lookup_empty. exists l.
      split_and!; [done|by eapply log_ext_trans|done].
    + intros _ s' (l & -> & Hx & Ht2).
      apply IH; [done|by apply bitmap_ok_ext|done|unfold BPB, BSIZE; lia| |done].
      rewrite Z.add_mod, Hm, Z.mod_same by done. done.
Qed.

Lemma wp_bfree s r h v b (Q : unit → fs S → Prop) :
  txs s r h v → bitmap_ok s v → held_ok s v h → Z.of_nat (size h) ≤ r → 1 ≤ r →
  0 ≤ b < sb_size (f_sb s) → used (f_sb s) v b = true →
  (∀ l, log_ext (f_log s) l →
     txs (with_log l s) (r - 1) h (view_upd v (BBLOCK b (f_sb s))
       (mark_free (v (BBLOCK b (f_sb s))) (b mod BPB))) → Q tt (with_log l s)) →
  wp (bfree ROOTDEV b) Q s.
Proof.
  intros Ht Hbm Hh Hsz Hr Hb Hu HQ. pose proof (bm_home _ _ Hbm b Hb) as Hhome.
  pose proof Hhome as [Hrng _]. unfold bfree, get_sb. wp_step. wp_step. wp_step.
  eapply wp_fbread; [exact Ht|done| |done|].
  { intros i Hi. by destruct (Hh _ _ Hi) as [Hne _]; apply (Hne b). }
  intros i l1 Hi Hx1 Ht1. wp_step. eapply wp_fdata; [exact Ht1|apply lookup_insert_eq|].
  unfold used in Hu. apply negb_true_iff in Hu. rewrite Hu.
  eapply wp_fupdate; [exact Ht1|apply lookup_insert_eq|by apply homeb_ext| |done|].
  { apply mark_free_ok; [eapply txs_block_ok; [exact Ht|done]|]. apply Z.mod_pos_bound. done. }
  intros l2 Hx2 Ht2. eapply wp_fbrelse; [exact Ht2|apply lookup_insert_eq|].
  intros l3 Hx3 Ht3. simpl in *. rewrite delete_insert_id in Ht3 by done.
  apply HQ; [|exact Ht3]. by eapply log_ext_trans, log_ext_trans.
Qed.

(** ** What the bitmap says afterwards *)

Lemma BBLOCK_mod_inj s v a b :
  bitmap_ok s v → 0 ≤ a < sb_size (f_sb s) → 0 ≤ b < sb_size (f_sb s) →
  BBLOCK a (f_sb s) = BBLOCK b (f_sb s) → a mod BPB = b mod BPB → a = b.
Proof.
  intros Hbm Ha Hb. rewrite !(BBLOCK_eq s v) by done. intros E1 E2.
  rewrite (Z.div_mod a BPB), (Z.div_mod b BPB) by done.
  assert (E : a / BPB = b / BPB) by lia. by rewrite E, E2.
Qed.

Lemma used_upd s v d' a b :
  bitmap_ok s v → 0 ≤ a < sb_size (f_sb s) → 0 ≤ b < sb_size (f_sb s) →
  (∀ j, 0 ≤ j < BPB → j ≠ a mod BPB → bit_free d' j = bit_free (v (BBLOCK a (f_sb s))) j) →
  used (f_sb s) (view_upd v (BBLOCK a (f_sb s)) d') b =
    if decide (b = a) then negb (bit_free d' (a mod BPB)) else used (f_sb s) v b.
Proof.
  intros Hbm Ha Hb Hd. unfold used. destruct (decide (b = a)) as [->|Hne]; [by rewrite view_upd_eq|].
  destruct (decide (BBLOCK b (f_sb s) = BBLOCK a (f_sb s))) as [He|He]; [|by rewrite view_upd_ne].
  rewrite He, view_upd_eq, Hd; [done|by apply Z.mod_pos_bound|].
  intros Hm. apply Hne. by eapply BBLOCK_mod_inj.
Qed.

Lemma used_alloc s v a b :
  bitmap_ok s v → 0 ≤ a < sb_size (f_sb s) → 0 ≤ b < sb_size (f_sb s) →
  used (f_sb s) v a = false → (∀ x, 0 ≤ x < sb_size (f_sb s) → block_ok (v (BBLOCK x (f_sb s)))) →
  used (f_sb s) (alloc_view (f_sb s) v a) b = if decide (b = a) then true else used (f_sb s) v b.
Proof.
  intros Hbm Ha Hb Hu Hok. destruct (bm_free _ _ Hbm a Ha Hu) as [_ Hnb].
  pose proof (Hok a Ha) as [Hlen _]. pose proof (Z.mod_pos_bound a BPB ltac:(done)) as Hm.
  assert (Hout : used (f_sb s) (alloc_view (f_sb s) v a) b = used (f_sb s) (view_upd v (BBLOCK a (f_sb s))
     (mark_used (v (BBLOCK a (f_sb s))) (a mod BPB))) b).
  { unfold used, alloc_view. rewrite view_upd_ne; [done|]. by apply Hnb. }
  rewrite Hout, used_upd by (try done; intros j Hj Hne; rewrite bit_free_mark_used, decide_False; done).
  case_decide; [|done]. rewrite bit_free_mark_used, decide_True; done.
Qed.

Lemma used_free s v a b :
  bitmap_ok s v → 0 ≤ a < sb_size (f_sb s) → 0 ≤ b < sb_size (f_sb s) →
  block_ok (v (BBLOCK a (f_sb s))) →
  used (f_sb s) (view_upd v (BBLOCK a (f_sb s)) (mark_free (v (BBLOCK a (f_sb s))) (a mod BPB))) b =
    if decide (b = a) then false else used (f_sb s) v b.
Proof.
  intros Hbm Ha Hb [Hlen _]. pose proof (Z.mod_pos_bound a BPB ltac:(done)) as Hm.
  rewrite used_upd by (try done; intros j Hj Hne; rewrite bit_free_mark_free, decide_False; done).
  case_decide; [|done]. rewrite bit_free_mark_free, decide_True; done.
Qed.

(** ** Properties *)

(** [balloc] hands out the first free block.  In a transaction with room
    for two more blocks and a free block in the map, it returns, the block was
    free and every block before it in use; afterwards exactly that block is
    newly in use, it is zeroed, and every block that is neither it nor its
    bitmap block has kept its content. *)
Theorem balloc_correct s r v :
  txs s r ∅ v → bitmap_ok s v → 2 ≤ r →
  (∃ x, 0 ≤ x < sb_size (f_sb s) ∧ used (f_sb s) v x = false) →
  wp (balloc ROOTDEV) (λ a s', 0 ≤ a < sb_size (f_sb s) ∧ used (f_sb s) v a = false ∧
    (∀ x, 0 ≤ x < a → used (f_sb s) v x = true) ∧
    ∃ v', txs s' (r - 2) ∅ v' ∧ v' a = zblock ∧
      (∀ b, 0 ≤ b < sb_size (f_sb s) →
        used (f_sb s) v' b = if decide (b = a) then true else used (f_sb s) v b) ∧
      (∀ b, b ≠ a → b ≠ BBLOCK a (f_sb s) → v' b = v b)) s.
Proof.
  intros Ht Hbm Hr Hex. eapply wp_mono.
  { apply (wp_balloc s r ∅ v Ht Hbm); [done|rewrite map_size_empty; lia|done]. }
  intros a s' (l & -> & _ & Ha & Hu & Hlow & Ht'). split_and!; try done; try apply Ha.
  exists (alloc_view (f_sb s) v a). split_and!; [done|apply view_upd_eq| |].
  - intros b Hb. apply used_alloc; try done. intros x Hx. destruct (bm_home _ _ Hbm x Hx) as [Hrng _].
    eapply txs_block_ok; [exact Ht|done].
  - intros b Hne Hne2. unfold alloc_view. by rewrite !view_upd_ne.
Qed.


(** Freeing a block that was just allocated gives the free map back:
    [bfree(balloc())] returns and leaves every block as used or free as it was
    before. *)
Theorem bfree_balloc s r v :
  txs s r ∅ v → bitmap_ok s v → 3 ≤ r →
  (∃ x, 0 ≤ x < sb_size (f_sb s) ∧ used (f_sb s) v x = false) →
  wp (a ← balloc ROOTDEV; bfree ROOTDEV a) (λ _ s', ∃ v', txs s' (r - 3) ∅ v' ∧
    ∀ b, 0 ≤ b < sb_size (f_sb s) → used (f_sb s) v' b = used (f_sb s) v b) s.
Proof.
  intros Ht Hbm Hr Hex. wp_step. eapply wp_mono.
  { apply (wp_balloc s r ∅ v Ht Hbm); [done|rewrite map_size_empty; lia|done]. }
  intros a s' (l & -> & Hx & Ha & Hu & Hlow & Ht'). simpl in Ht'.
  assert (Hok : ∀ x, 0 ≤ x < sb_size (f_sb s) → block_ok (v (BBLOCK x (f_sb s)))).
  { intros x Hx'. destruct (bm_home _ _ Hbm x Hx') as [Hrng _]. eapply txs_block_ok; [exact Ht|done]. }
  assert (Hua : ∀ b, 0 ≤ b < sb_size (f_sb s) → used (f_sb s) (alloc_view (f_sb s) v a) b =
    if decide (b = a) then true else used (f_sb s) v b) by (intros; by apply used_alloc).
  set (v1 := alloc_view (f_sb s) v a) in *.
  assert (Hbm1 : bitmap_ok (with_log l s) v1).
  { apply bitmap_ok_ext; [done|]. destruct Hbm as [B1 B2 B3 B4]. split; try done.
    intros b Hb Hub. apply B4; [done|]. rewrite Hua in Hub by done. by case_decide. }
  eapply wp_bfree; [exact Ht'|exact Hbm1|done|rewrite map_size_empty; lia|lia|done| |].
  { simpl. rewrite Hua, decide_True; done. }
  intros l2 Hx2 Ht2. simpl in *. eexists. split; [eapply txs_weaken; [exact Ht2|lia]|].
  destruct (bm_home _ _ Hbm a Ha) as [Hrng _].
  assert (Hok1 : block_ok (v1 (BBLOCK a (f_sb s)))).
  { eapply txs_block_ok; [exact Ht'|]. by rewrite disk_ext. }
  intros b Hb. pose proof (used_free (with_log l s) v1 a b Hbm1 Ha Hb Hok1) as Hf. simpl in Hf.
  rewrite Hf. case_decide; [by subst|]. rewrite Hua by done. by rewrite decide_False.
Qed.
End bitmap.

(** ** Witnesses *)

Lemma demo_bitmap_ok : bitmap_ok demo_fs demo_view.
Proof.
  split.
  - rewrite (proj2 demo_txs), demo_img_len. simpl. lia.
  - vm_compute. done.
  - intros b Hb. apply demo_home. change (sb_size (f_sb demo_fs)) with 50 in Hb.
    pose proof (below (λ b, BBLOCK b demo_sb =? 33) 50 ltac:(vm_compute; reflexivity) b Hb) as Hk.
    change (f_sb demo_fs) with demo_sb. cbn beta in Hk. bool_props. lia.
  - change (sb_size (f_sb demo_fs)) with 50. change (f_sb demo_fs) with demo_sb. intros b Hb Hu.
    pose proof (below (λ b, used demo_sb demo_view b || (36 <=? b)) 50
      ltac:(vm_compute; reflexivity) b Hb) as Hk. cbn beta in Hk. rewrite Hu in Hk. simpl in Hk.
    bool_props. split; [apply demo_home; lia|]. intros c Hc.
    pose proof (below (λ b, BBLOCK b demo_sb =? 33) 50 ltac:(vm_compute; reflexivity) c Hc) as Hk'.
    cbn beta in Hk'. bool_props. lia.
Qed.

Lemma demo_has_free : ∃ x, 0 ≤ x < sb_size (f_sb demo_fs) ∧ used (f_sb demo_fs) demo_view x = false.
Proof. exists 40. split; [simpl; lia|]. vm_compute. reflexivity. Qed.

Lemma balloc_correct_witness :
  wp (balloc ROOTDEV) (λ a s', 0 ≤ a < 50 ∧ used demo_sb demo_view a = false ∧
    (∀ x, 0 ≤ x < a → used demo_sb demo_view x = true) ∧
    ∃ v', txs s' (29 - 2) ∅ v' ∧ v' a = zblock ∧
      (∀ b, 0 ≤ b < 50 →
        used demo_sb v' b = if decide (b = a) then true else used demo_sb demo_view b) ∧
      (∀ b, b ≠ a → b ≠ BBLOCK a demo_sb → v' b = demo_view b)) demo_fs.
Proof.
  apply (balloc_correct demo_fs 29 demo_view (proj1 demo_txs) demo_bitmap_ok ltac:(lia) demo_has_free).
Defined.

Lemma bfree_balloc_witness :
  wp (a ← balloc ROOTDEV; bfree ROOTDEV a) (λ _ s', ∃ v', txs s' (29 - 3) ∅ v' ∧
    ∀ b, 0 ≤ b < 50 → used demo_sb v' b = used demo_sb demo_view b) demo_fs.
Proof.
  apply (bfree_balloc demo_fs 29 demo_view (proj1 demo_txs) demo_bitmap_ok ltac:(lia) demo_has_free).
Defined.

(** The same image cut off after its last used block: no block is free. *)
Definition full_fs : fs bst := with_sb (Superblock 36 2 8 30 2 32 33) demo_fs.

Lemma full_fs_bitmap_ok : bitmap_ok full_fs demo_view.
Proof.
  split.
  - change (disk_of full_fs) with (disk_of demo_fs). rewrite (proj2 demo_txs), demo_img_len. simpl. lia.
  - vm_compute. done.
  - intros b Hb. apply demo_home. change (sb_size (f_sb full_fs)) with 36 in Hb.
    pose proof (below (λ b, BBLOCK b (f_sb full_fs) =? 33) 36 ltac:(vm_compute; reflexivity) b Hb) as Hk.
    cbn beta in Hk. bool_props. lia.
  - intros b Hb Hu. change (sb_size (f_sb full_fs)) with 36 in Hb.
    pose proof (below (used (f_sb full_fs) demo_view) 36 ltac:(vm_compute; reflexivity) b Hb). congruence.
Qed.

