(* ===== verification/FsFile.v ===== *)
(** * Inode content (fs.c: bmap, readi, writei)

    A file is a function from offsets to bytes: [fbyte v i o] is byte [o] of
    inode [i] when the blocks contain [v], a hole reading as zero.  [bmap] may
    allocate but never changes that function; [readi] returns a slice of it and
    [writei] overwrites one. *)

From S2P Require Import Prelude Words Params CString Locks BufIface Redo Log LogCrash LogInv Fs FsRules.
From S2P Require Import Ring Bio BioLaws FsRules FsBlocks.

(** Arithmetic with the constants of fs.h. *)
Ltac fslia :=
  change MAXFILE with 140 in *; change NDIRECT with 12 in *; change NINDIRECT with 128 in *;
  change BSIZE with 512 in *; lia.

(** ** Addresses and bytes of a file *)

Definition addr_of (v : Z → block) (i : inode) (k : Z) : Z :=
  if k <? NDIRECT then i_addrs i !!! Z.to_nat k
  else let ind := i_addrs i !!! Z.to_nat NDIRECT in
       if ind =? 0 then 0 else get_u32 (Z.to_nat (4 * (k - NDIRECT))) (v ind).
Definition ind_of (i : inode) : Z := i_addrs i !!! Z.to_nat NDIRECT.

Definition fbyte (v : Z → block) (i : inode) (o : Z) : Z :=
  let a := addr_of v i (o / BSIZE) in
  if a =? 0 then 0 else v a !!! Z.to_nat (o mod BSIZE).

Lemma addr_of_direct v i k : k < NDIRECT → addr_of v i k = i_addrs i !!! Z.to_nat k.
Proof. intros. unfold addr_of. by rewrite (proj2 (Z.ltb_lt _ _)). Qed.

Lemma addr_of_indirect v i k :
  NDIRECT ≤ k → ind_of i ≠ 0 →
  addr_of v i k = get_u32 (Z.to_nat (4 * (k - NDIRECT))) (v (ind_of i)).
Proof.
  intros Hk Hi. unfold addr_of. rewrite (proj2 (Z.ltb_ge _ _)) by done.
  fold (ind_of i). by rewrite (proj2 (Z.eqb_neq _ _)).
Qed.

Lemma addr_of_hole v i k : NDIRECT ≤ k → ind_of i = 0 → addr_of v i k = 0.
Proof.
  intros Hk Hi. unfold addr_of. rewrite (proj2 (Z.ltb_ge _ _)) by done.
  fold (ind_of i). by rewrite Hi.
Qed.

(** Only the indirect block matters for the addresses. *)
Lemma addr_of_view v v' i k :
  (ind_of i ≠ 0 → v' (ind_of i) = v (ind_of i)) → addr_of v' i k = addr_of v i k.
Proof.
  intros Hv. unfold addr_of. destruct (k <? NDIRECT); [done|]. fold (ind_of i).
  destruct (ind_of i =? 0) eqn:E; bool_props; [done|]. by rewrite Hv.
Qed.

Section file.
Context {S : Type} `{BufCacheLaws S} `{DevSw S}.
Implicit Types (s : fs S) (v : Z → block) (i : inode).

(** What the predicates below need to know of a state. *)
Definition geo s : superblock * Z * Z * nat :=
  (f_sb s, l_start (f_log s), l_size (f_log s), length (disk_of s)).

Lemma geo_log s l : log_ext (f_log s) l → geo (with_log l s) = geo s.
Proof. intros (E1 & E2 & _ & E3). unfold geo, disk_of, cache_of. simpl. by rewrite E1, E2, E3. Qed.

Lemma homeb_geo s s' b : geo s' = geo s → homeb s' b ↔ homeb s b.
Proof. intros [= _ E1 E2 E3]. unfold homeb, home. by rewrite E1, E2, E3. Qed.

Lemma bitmap_ok_geo s s' v : geo s' = geo s → bitmap_ok s v → bitmap_ok s' v.
Proof.
  intros Hg [B1 B2 B3 B4]. pose proof Hg as [= Hsb _ _ Hlen].
  split; rewrite ?Hsb; rewrite ?Hlen; try done.
  - intros b Hb. rewrite homeb_geo by done. by apply B3.
  - intros b Hb Hu. rewrite homeb_geo by done. by apply B4.
Qed.

(** A block in use for data: marked in the bitmap, outside the log, the bitmap
    and the inode blocks. *)
Record data_ok s v (b : Z) : Prop := {
  do_range : 0 < b < sb_size (f_sb s);
  do_used : used (f_sb s) v b = true;
  do_home : homeb s b;
  do_bitmap : ∀ c, 0 ≤ c < sb_size (f_sb s) → BBLOCK c (f_sb s) ≠ b;
  do_inode : ∀ n, 0 ≤ n < sb_ninodes (f_sb s) → IBLOCK n (f_sb s) ≠ b
}.

(** Free blocks are never metadata. *)
Definition meta_ok s v : Prop :=
  ∀ b, 0 ≤ b < sb_size (f_sb s) → used (f_sb s) v b = false →
    b ≠ 0 ∧ ∀ n, 0 ≤ n < sb_ninodes (f_sb s) → IBLOCK n (f_sb s) ≠ b.

Record file_ok s v i : Prop := {
  fo_dev : i_dev i = ROOTDEV;
  fo_len : length (i_addrs i) = naddrs;
  fo_data : ∀ k, 0 ≤ k < MAXFILE → addr_of v i k ≠ 0 → data_ok s v (addr_of v i k);
  fo_ind : ind_of i ≠ 0 → data_ok s v (ind_of i);
  fo_ind_ne : ∀ k, 0 ≤ k < MAXFILE → ind_of i ≠ 0 → addr_of v i k ≠ ind_of i;
  fo_inj : ∀ k k', 0 ≤ k < MAXFILE → 0 ≤ k' < MAXFILE →
    addr_of v i k = addr_of v i k' → addr_of v i k ≠ 0 → k = k'
}.

Lemma data_ok_geo s s' v b : geo s' = geo s → data_ok s v b → data_ok s' v b.
Proof.
  intros Hg [D1 D2 D3 D4 D5]. pose proof Hg as [= Hsb _ _ _].
  split; rewrite ?Hsb; try done. by rewrite homeb_geo.
Qed.

Lemma file_ok_geo s s' v i : geo s' = geo s → file_ok s v i → file_ok s' v i.
Proof.
  intros Hg [F1 F2 F3 F4 F5 F6]. split; try done; intros; eapply data_ok_geo; eauto.
Qed.

Lemma meta_ok_geo s s' v : geo s' = geo s → meta_ok s v → meta_ok s' v.
Proof. intros Hg Hm. pose proof Hg as [= Hsb _ _ _]. unfold meta_ok. by rewrite Hsb. Qed.

(** ** Allocating a block leaves everything in use alone *)

Definition blocks_ok s v : Prop := ∀ x, 0 ≤ x < sb_size (f_sb s) → block_ok (v (BBLOCK x (f_sb s))).

Lemma alloc_keeps s v a b :
  data_ok s v b → used (f_sb s) v a = false → 0 ≤ a < sb_size (f_sb s) →
  alloc_view (f_sb s) v a b = v b.
Proof.
  intros Hb Ha Hr. unfold alloc_view. rewrite !view_upd_ne; [done| |].
  - intros ->. by apply (do_bitmap s v _ Hb a).
  - intros ->. rewrite (do_used s v _ Hb) in Ha. done.
Qed.

Lemma data_ok_alloc s v a b :
  bitmap_ok s v → blocks_ok s v → data_ok s v b →
  used (f_sb s) v a = false → 0 ≤ a < sb_size (f_sb s) → data_ok s (alloc_view (f_sb s) v a) b.
Proof.
  intros Hbm Hbo Hb Ha Hr. pose proof Hb as [D1 D2 D3 D4 D5]. split; try done.
  rewrite used_alloc by (try done; lia). by case_decide.
Qed.

Lemma data_ok_new s v a :
  bitmap_ok s v → blocks_ok s v → meta_ok s v →
  used (f_sb s) v a = false → 0 ≤ a < sb_size (f_sb s) → data_ok s (alloc_view (f_sb s) v a) a.
Proof.
  intros Hbm Hbo Hm Ha Hr. destruct (bm_free _ _ Hbm a Hr Ha) as [Hh Hnb].
  destruct (Hm a Hr Ha) as [Hz Hni]. split; try done; [lia|].
  rewrite used_alloc by done. by rewrite decide_True.
Qed.

Lemma bitmap_ok_alloc s v a :
  bitmap_ok s v → blocks_ok s v → used (f_sb s) v a = false → 0 ≤ a < sb_size (f_sb s) →
  bitmap_ok s (alloc_view (f_sb s) v a).
Proof.
  intros Hbm Hbo Ha Hr. pose proof Hbm as [B1 B2 B3 B4]. split; try done.
  intros b Hb Hub. apply B4; [done|]. rewrite used_alloc in Hub by done. by case_decide.
Qed.

Lemma meta_ok_alloc s v a :
  bitmap_ok s v → blocks_ok s v → meta_ok s v →
  used (f_sb s) v a = false → 0 ≤ a < sb_size (f_sb s) → meta_ok s (alloc_view (f_sb s) v a).
Proof.
  intros Hbm Hbo Hm Ha Hr b Hb Hub. apply Hm; [done|]. rewrite used_alloc in Hub by done. by case_decide.
Qed.

(** ** Extending a file keeps its bytes *)

(** A data block that is not part of the file. *)
Definition outside s v i (b : Z) : Prop :=
  data_ok s v b ∧ b ≠ ind_of i ∧ ∀ k, 0 ≤ k < MAXFILE → addr_of v i k ≠ b.

(** [v', i'] is the file [v, i] with perhaps more blocks: same bytes, the
    blocks it had stay in place, and no block in use elsewhere changes. *)
Record grows s v i v' i' : Prop := {
  gr_file : file_ok s v' i';
  gr_bitmap : bitmap_ok s v';
  gr_meta : meta_ok s v';
  gr_bytes : ∀ o, 0 ≤ o < MAXFILE * BSIZE → fbyte v' i' o = fbyte v i o;
  gr_addr : ∀ k, 0 ≤ k < MAXFILE → addr_of v i k ≠ 0 → addr_of v' i' k = addr_of v i k;
  gr_frame : ∀ b, outside s v i b → v' b = v b ∧ outside s v' i' b;
  gr_inode : ∀ n, 0 ≤ n < sb_ninodes (f_sb s) →
    (∀ c, 0 ≤ c < sb_size (f_sb s) → BBLOCK c (f_sb s) ≠ IBLOCK n (f_sb s)) →
    v' (IBLOCK n (f_sb s)) = v (IBLOCK n (f_sb s));
  gr_same : i_dev i' = i_dev i ∧ i_inum i' = i_inum i ∧ i_ref i' = i_ref i ∧ i_lock i' = i_lock i ∧
    i_valid i' = i_valid i ∧ i_type i' = i_type i ∧ i_size i' = i_size i ∧ i_nlink i' = i_nlink i ∧
    i_major i' = i_major i ∧ i_minor i' = i_minor i
}.

Lemma grows_refl s v i : file_ok s v i → bitmap_ok s v → meta_ok s v → grows s v i v i.
Proof. intros. split; auto. by split_and!. Qed.

Lemma grows_trans s v1 i1 v2 i2 v3 i3 :
  grows s v1 i1 v2 i2 → grows s v2 i2 v3 i3 → grows s v1 i1 v3 i3.
Proof.
  intros [F1 B1 M1 Y1 A1 R1 N1 E1] [F2 B2 M2 Y2 A2 R2 N2 E2]. split; try done.
  - intros o Ho. by rewrite Y2, Y1.
  - intros k Hk Hz. rewrite A2; [by apply A1|done|by rewrite A1].
  - intros b Hb. destruct (R1 b Hb) as [Ev Hb2]. destruct (R2 b Hb2) as [Ev2 Hb3]. by rewrite Ev2, Ev.
  - intros n Hn Hc. by rewrite N2, N1.
  - destruct_and! E1. destruct_and! E2. split_and!; congruence.
Qed.

Lemma fbyte_ext v v' i i' o :
  addr_of v' i' (o / BSIZE) = addr_of v i (o / BSIZE) →
  (addr_of v i (o / BSIZE) ≠ 0 → v' (addr_of v i (o / BSIZE)) = v (addr_of v i (o / BSIZE))) →
  fbyte v' i' o = fbyte v i o.
Proof.
  intros Ha Hv. unfold fbyte. rewrite Ha. destruct (_ =? 0) eqn:E; bool_props; [done|].
  by rewrite Hv.
Qed.

Lemma off_block o : 0 ≤ o < MAXFILE * BSIZE → 0 ≤ o / BSIZE < MAXFILE.
Proof.
  intros Ho. split; [apply Z.div_pos; [lia|done]|].
  apply Z.div_lt_upper_bound; [done|]. rewrite Z.mul_comm. lia.
Qed.

(** The new block reads as the hole it fills. *)
Lemma fbyte_new v v' i i' o :
  addr_of v i (o / BSIZE) = 0 → v' (addr_of v' i' (o / BSIZE)) = zblock →
  fbyte v' i' o = fbyte v i o.
Proof.
  intros Ha Hz. unfold fbyte. rewrite Ha. simpl. case_if; [done|]. rewrite Hz.
  apply lookup_total_replicate_2. pose proof (Z.mod_pos_bound o BSIZE ltac:(done)).
  unfold BSIZE in *. lia.
Qed.

(** The addresses of a file survive an allocation. *)
Lemma addr_of_alloc s v i a k :
  file_ok s v i → used (f_sb s) v a = false → 0 ≤ a < sb_size (f_sb s) →
  addr_of (alloc_view (f_sb s) v a) i k = addr_of v i k.
Proof.
  intros Hf Ha Hr. apply addr_of_view. intros Hi. apply alloc_keeps; [|done|done]. by apply Hf.
Qed.

Lemma file_ok_alloc s v i a :
  bitmap_ok s v → blocks_ok s v → file_ok s v i → used (f_sb s) v a = false → 0 ≤ a < sb_size (f_sb s) →
  file_ok s (alloc_view (f_sb s) v a) i.
Proof.
  intros Hbm Hbo Hf Ha Hr.
  assert (Hadd : ∀ k, addr_of (alloc_view (f_sb s) v a) i k = addr_of v i k).
  { intros k. by apply addr_of_alloc. }
  pose proof Hf as [F1 F2 F3 F4 F5 F6]. split; try done.
  - intros k Hk. rewrite Hadd. intros Hz. apply data_ok_alloc; try done. by apply F3.
  - intros Hz. apply data_ok_alloc; try done. by apply F4.
  - intros k Hk. rewrite Hadd. by apply F5.
  - intros k k' Hk Hk'. rewrite !Hadd. by apply F6.
Qed.

(** A free block is not a block of the file. *)
Lemma free_not_file s v i a :
  file_ok s v i → used (f_sb s) v a = false →
  (∀ k, 0 ≤ k < MAXFILE → addr_of v i k ≠ 0 → addr_of v i k ≠ a) ∧ (ind_of i ≠ 0 → ind_of i ≠ a).
Proof.
  intros Hf Ha. split.
  - intros k Hk Hz <-. rewrite (do_used _ _ _ (fo_data _ _ _ Hf k Hk Hz)) in Ha. done.
  - intros Hz <-. rewrite (do_used _ _ _ (fo_ind _ _ _ Hf Hz)) in Ha. done.
Qed.

Lemma data_ok_view s v v' b :
  (used (f_sb s) v' b = used (f_sb s) v b) → data_ok s v b → data_ok s v' b.
Proof. intros E [D1 D2 D3 D4 D5]. split; try done. by rewrite E. Qed.

Definition same_inode i i' : Prop :=
  i_dev i' = i_dev i ∧ i_inum i' = i_inum i ∧ i_ref i' = i_ref i ∧ i_lock i' = i_lock i ∧
  i_valid i' = i_valid i ∧ i_type i' = i_type i ∧ i_size i' = i_size i ∧ i_nlink i' = i_nlink i ∧
  i_major i' = i_major i ∧ i_minor i' = i_minor i.

(** The situation of [bmap] when it allocates: [a] is free. *)
Record can_alloc s v i (a : Z) : Prop := {
  ca_bitmap : bitmap_ok s v;
  ca_blocks : blocks_ok s v;
  ca_meta : meta_ok s v;
  ca_file : file_ok s v i;
  ca_free : used (f_sb s) v a = false;
  ca_range : 0 ≤ a < sb_size (f_sb s)
}.

Lemma can_alloc_new s v i a v' :
  can_alloc s v i a →
  (∀ b, 0 ≤ b < sb_size (f_sb s) → used (f_sb s) v' b = used (f_sb s) (alloc_view (f_sb s) v a) b) →
  data_ok s v' a ∧ (∀ b, data_ok s v b → data_ok s v' b) ∧ bitmap_ok s v' ∧ meta_ok s v'.
Proof.
  intros [Hbm Hbo Hm Hf Ha Hr] Hu. split_and!.
  - eapply data_ok_view; [by apply Hu|]. by apply data_ok_new.
  - intros b Hb. pose proof (do_range _ _ _ Hb). eapply data_ok_view; [apply Hu; lia|].
    by apply data_ok_alloc.
  - destruct (bitmap_ok_alloc s v a Hbm Hbo Ha Hr) as [B1 B2 B3 B4]. split; try done.
    intros b Hb Hub. rewrite Hu in Hub by done. by apply B4.
  - intros b Hb Hub. rewrite Hu in Hub by done. by apply (meta_ok_alloc s v a).
Qed.

(** Block [k] of the file is new, everything else is as before. *)
Lemma grow_one s v i v' i' k a :
  can_alloc s v i a → 0 ≤ k < MAXFILE → addr_of v i k = 0 →
  same_inode i i' → length (i_addrs i') = naddrs → ind_of i' = ind_of i →
  (∀ b, b ≠ a → b ≠ BBLOCK a (f_sb s) → (ind_of i ≠ 0 → b ≠ ind_of i) → v' b = v b) →
  v' a = zblock →
  (∀ b, 0 ≤ b < sb_size (f_sb s) → used (f_sb s) v' b = used (f_sb s) (alloc_view (f_sb s) v a) b) →
  (∀ j, 0 ≤ j < MAXFILE → addr_of v' i' j = if decide (j = k) then a else addr_of v i j) →
  grows s v i v' i'.
Proof.
  intros Hca Hk Hk0 Hsame Hlen Hind Hv' Hva Hu Hadd.
  destruct (can_alloc_new s v i a v' Hca Hu) as (Hda & Hdo & Hbm' & Hm').
  pose proof Hca as [Hbm Hbo Hm Hf Ha Hr]. pose proof Hf as [F1 F2 F3 F4 F5 F6].
  destruct (free_not_file s v i a Hf Ha) as [Hna Hni].
  assert (Hkeep : ∀ b, data_ok s v b → b ≠ ind_of i → v' b = v b).
  { intros b Hb Hne. apply Hv'; [|by apply not_eq_sym, (do_bitmap _ _ _ Hb a)|done].
    intros ->. by rewrite (do_used _ _ _ Hb) in Ha. }
  split; try done.
  - split; try done.
    + destruct Hsame as (-> & _). done.
    + intros j Hj. rewrite Hadd by done. case_decide; [done|]. intros Hz. by apply Hdo, F3.
    + rewrite Hind. intros Hz. by apply Hdo, F4.
    + intros j Hj. rewrite Hind, Hadd by done. intros Hz. case_decide; [|by apply F5].
      by apply not_eq_sym, Hni.
    + intros j j' Hj Hj'. rewrite !Hadd by done. intros E Hz.
      do 2 case_decide; subst; try done.
      * destruct (decide (addr_of v i j' = 0)) as [E0|E0]; [by rewrite E0 in *|]. by destruct (Hna j').
      * by destruct (Hna j).
      * by apply F6.
  - intros o Ho. pose proof (off_block o Ho) as Hb.
    destruct (decide (o / BSIZE = k)) as [Heq|Hne].
    + apply fbyte_new; [by rewrite Heq|]. by rewrite Hadd, decide_True.
    + apply fbyte_ext; [by rewrite Hadd, decide_False|]. intros Hz.
      apply Hkeep; [by apply F3|]. intros He.
      assert (Hi : ind_of i ≠ 0) by by rewrite <- He. by apply (F5 (o / BSIZE)).
  - intros j Hj Hz. rewrite Hadd by done. case_decide; [by subst|done].
  - intros b (Hb & Hne & Hout). split; [by apply Hkeep|]. split_and!; [by apply Hdo|by rewrite Hind|].
    intros j Hj. rewrite Hadd by done. case_decide; [|by apply Hout].
    intros <-. by rewrite (do_used _ _ _ Hb) in Ha.
  - intros n Hn Hc. apply Hv'.
    + apply (Hm a Hr Ha). done.
    + by apply not_eq_sym, Hc.
    + intros Hz. by apply (do_inode _ _ _ (F4 Hz) n).
Qed.

Lemma ind_of_addr k a i : k ≠ Z.to_nat NDIRECT → ind_of (iset_addr k a i) = ind_of i.
Proof. intros Hk. unfold ind_of, iset_addr. simpl. by apply list_lookup_total_insert_ne. Qed.

(** A direct block. *)
Lemma grow_direct s v i k a :
  can_alloc s v i a → 0 ≤ k < NDIRECT → addr_of v i k = 0 →
  let v' := alloc_view (f_sb s) v a in
  let i' := iset_addr (Z.to_nat k) a i in
  grows s v i v' i' ∧ addr_of v' i' k = a.
Proof.
  intros Hca Hk Hk0 v' i'. pose proof Hca as [Hbm Hbo Hm Hf Ha Hr].
  assert (Hlen : (Z.to_nat k < length (i_addrs i))%nat).
  { rewrite (fo_len _ _ _ Hf). unfold naddrs, NDIRECT in *. lia. }
  assert (Hkn : Z.to_nat k ≠ Z.to_nat NDIRECT) by lia.
  assert (Hadd : ∀ j, 0 ≤ j < MAXFILE → addr_of v' i' j = if decide (j = k) then a else addr_of v i j).
  { intros j Hj. destruct (decide (j < NDIRECT)) as [Hd|Hd].
    - rewrite !addr_of_direct by done. unfold i', iset_addr. simpl. case_decide.
      + subst. by apply list_lookup_total_insert_eq.
      + apply list_lookup_total_insert_ne. lia.
    - rewrite decide_False by lia. rewrite <- (addr_of_alloc s v i a j Hf Ha Hr). fold v'.
      unfold addr_of. rewrite (proj2 (Z.ltb_ge _ _)) by lia.
      change (i_addrs i' !!! Z.to_nat NDIRECT) with (ind_of i'). unfold i'. by rewrite ind_of_addr. }
  split; [|rewrite Hadd by fslia; by rewrite decide_True].
  apply (grow_one s v i v' i' k a); try done.
  - fslia.
  - unfold i', iset_addr. simpl. rewrite length_insert. apply Hf.
  - by apply ind_of_addr.
  - intros b Hb1 Hb2 _. unfold v', alloc_view. by rewrite !view_upd_ne.
  - apply view_upd_eq.
Qed.

(** The entry of an indirect block. *)
Lemma grow_entry s v i k a :
  can_alloc s v i a → NDIRECT ≤ k < MAXFILE → ind_of i ≠ 0 → addr_of v i k = 0 →
  block_ok (v (ind_of i)) → is_u32 a →
  let v1 := alloc_view (f_sb s) v a in
  let v' := view_upd v1 (ind_of i) (put_u32 (Z.to_nat (4 * (k - NDIRECT))) a (v1 (ind_of i))) in
  grows s v i v' i ∧ addr_of v' i k = a.
Proof.
  intros Hca Hk Hi Hk0 [Hbl _] Hu v1 v'. pose proof Hca as [Hbm Hbo Hm Hf Ha Hr].
  pose proof (fo_ind _ _ _ Hf Hi) as Hdi. destruct (free_not_file s v i a Hf Ha) as [_ Hni].
  assert (Hv1 : v1 (ind_of i) = v (ind_of i)) by by apply alloc_keeps.
  assert (Hoff : ∀ j, NDIRECT ≤ j < MAXFILE → (Z.to_nat (4 * (j - NDIRECT)) + 4 ≤ length (v (ind_of i)))%nat).
  { intros j Hj. rewrite Hbl. fslia. }
  assert (Hadd : ∀ j, 0 ≤ j < MAXFILE → addr_of v' i j = if decide (j = k) then a else addr_of v i j).
  { intros j Hj. destruct (decide (j < NDIRECT)) as [Hd|Hd].
    - rewrite !addr_of_direct by done. by rewrite decide_False by lia.
    - rewrite !addr_of_indirect by (done || lia). unfold v'. rewrite view_upd_eq, Hv1.
      unfold get_u32, put_u32. case_decide.
      + subst. rewrite get_put_le by (apply Hoff; lia). by apply Z.mod_small.
      + apply get_put_le_disjoint; [apply Hoff; lia|lia]. }
  split; [|rewrite Hadd by fslia; by rewrite decide_True].
  apply (grow_one s v i v' i k a); try done.
  - fslia.
  - by apply Hf.
  - intros b Hb1 Hb2 Hb3. unfold v', v1, alloc_view. rewrite !view_upd_ne; auto.
  - unfold v'. rewrite view_upd_ne by (apply not_eq_sym; auto). apply view_upd_eq.
  - intros b Hb. unfold used, v'. rewrite view_upd_ne; [done|]. by apply (do_bitmap _ _ _ Hdi).
Qed.

(** The indirect block itself: all its entries are still holes. *)
Lemma grow_indirect s v i a :
  can_alloc s v i a → ind_of i = 0 → a ≠ 0 →
  let v' := alloc_view (f_sb s) v a in
  let i' := iset_addr (Z.to_nat NDIRECT) a i in
  grows s v i v' i' ∧ ind_of i' = a.
Proof.
  intros Hca Hi Hz v' i'. pose proof Hca as [Hbm Hbo Hm Hf Ha Hr].
  destruct (can_alloc_new s v i a v' Hca ltac:(done)) as (Hda & Hdo & Hbm' & Hm').
  pose proof Hf as [F1 F2 F3 F4 F5 F6]. destruct (free_not_file s v i a Hf Ha) as [Hna _].
  assert (Hind : ind_of i' = a).
  { unfold ind_of, i', iset_addr. simpl. apply list_lookup_total_insert_eq. rewrite F2. vm_compute. lia. }
  assert (Hva : v' a = zblock) by apply view_upd_eq.
  assert (Hadd : ∀ j, 0 ≤ j < MAXFILE → addr_of v' i' j = addr_of v i j).
  { intros j Hj. destruct (decide (j < NDIRECT)) as [Hd|Hd].
    - rewrite !addr_of_direct by done. unfold i', iset_addr. simpl.
      apply list_lookup_total_insert_ne. lia.
    - rewrite (addr_of_hole v) by (done || lia). rewrite addr_of_indirect by (rewrite ?Hind; (done || lia)).
      rewrite Hind, Hva. unfold get_u32, get_le, zblock. unfold slice. rewrite drop_replicate, take_replicate.
      apply le_val_zeros. }
  assert (Hnd : ¬ data_ok s v a) by (intros Hd; by rewrite (do_used _ _ _ Hd) in Ha).
  split_and!; try done. split; try done.
  - split; try done.
    + unfold i', iset_addr. simpl. by rewrite length_insert.
    + intros j Hj. rewrite Hadd by done. intros Hj0. by apply Hdo, F3.
    + by rewrite Hind.
    + intros j Hj _. rewrite Hind, Hadd by done.
      destruct (decide (addr_of v i j = 0)) as [->|]; [by apply not_eq_sym|by apply Hna].
    + intros j j' Hj Hj'. rewrite !Hadd by done. by apply F6.
  - intros o Ho. pose proof (off_block o Ho) as Hb. apply fbyte_ext; [by apply Hadd|]. intros Hj0.
    apply alloc_keeps; [by apply F3|done|done].
  - intros j Hj _. by apply Hadd.
  - intros b (Hb & Hne & Hout). split; [by apply alloc_keeps|].
    split_and!; [by apply Hdo|rewrite Hind; by intros ->|]. intros j Hj. rewrite Hadd by done. by apply Hout.
  - intros n Hn Hc. unfold v', alloc_view. rewrite !view_upd_ne; [done|by apply not_eq_sym, Hc|].
    by apply (Hm a Hr Ha).
Qed.
End file.

(** ** Counting free blocks *)

Definition nfree (sb : superblock) (v : Z → block) : nat :=
  length (List.filter (λ k, negb (used sb v (Z.of_nat k))) (seq 0 (Z.to_nat (sb_size sb)))).

Lemma filter_drop_one (p p' : nat → bool) a l :
  NoDup l → a ∈ l → p a = true → p' a = false → (∀ x, x ∈ l → x ≠ a → p' x = p x) →
  length (List.filter p l) = Datatypes.S (length (List.filter p' l)).
Proof.
  intros Hnd Ha Hp Hp' Heq. apply list_elem_of_split in Ha as (l1 & l2 & ->).
  apply NoDup_app in Hnd as (_ & Hdis & Hnd2). apply NoDup_cons in Hnd2 as [Hn2 _].
  rewrite !List.filter_app, !length_app. cbn [List.filter]. rewrite Hp, Hp'. cbn [length].
  assert (E1 : List.filter p' l1 = List.filter p l1).
  { apply filter_ext_in. intros x Hx%list_elem_of_In. apply Heq; [set_solver|].
    intros ->. by apply (Hdis a Hx); left. }
  assert (E2 : List.filter p' l2 = List.filter p l2).
  { apply filter_ext_in. intros x Hx%list_elem_of_In. apply Heq; [set_solver|]. by intros ->. }
  rewrite E1, E2. lia.
Qed.

Lemma nfree_pos sb v : (1 ≤ nfree sb v)%nat → ∃ x, 0 ≤ x < sb_size sb ∧ used sb v x = false.
Proof.
  unfold nfree. intros Hn. destruct (List.filter _ _) as [|k l] eqn:E; [simpl in Hn; lia|].
  assert (Hin : In k (k :: l)) by by left. rewrite <- E in Hin. apply filter_In in Hin as [Hk Hp].
  apply list_elem_of_In, elem_of_seq in Hk. bool_props. exists (Z.of_nat k). split; [lia|done].
Qed.

(** ** Ranges of bytes and the blocks they touch *)

(** [len] bytes of the file from [off] on. *)
Definition frange (v : Z → block) (i : inode) (off len : Z) : list Z :=
  (λ k, fbyte v i (off + Z.of_nat k)) <$> seq 0 (Z.to_nat len).

Lemma length_frange v i off len : length (frange v i off len) = Z.to_nat len.
Proof. unfold frange. by rewrite length_fmap, length_seq. Qed.

Lemma frange_app v i off m len :
  0 ≤ m ≤ len → frange v i off len = frange v i off m ++ frange v i (off + m) (len - m).
Proof.
  intros Hm. unfold frange. apply list_eq. intros j.
  rewrite list_lookup_fmap. destruct (decide (j < Z.to_nat m)%nat) as [Hj|Hj].
  - rewrite lookup_app_l by (rewrite length_fmap, length_seq; done).
    rewrite list_lookup_fmap, !lookup_seq_lt by lia. done.
  - rewrite lookup_app_r, length_fmap, length_seq, list_lookup_fmap by (rewrite length_fmap, length_seq; lia).
    destruct (decide (j < Z.to_nat len)%nat).
    + rewrite !lookup_seq_lt by lia. simpl. do 2 f_equal. lia.
    + rewrite !lookup_seq_ge by lia. done.
Qed.

(** What one iteration copies. *)
Lemma block_slice v i off m :
  0 ≤ off → 0 ≤ m ≤ BSIZE - off mod BSIZE → addr_of v i (off / BSIZE) ≠ 0 →
  length (v (addr_of v i (off / BSIZE))) = Z.to_nat BSIZE →
  slice (Z.to_nat (off mod BSIZE)) (Z.to_nat m) (v (addr_of v i (off / BSIZE))) = frange v i off m.
Proof.
  intros Ho Hm Ha Hlen. pose proof (Z.mod_pos_bound off BSIZE ltac:(done)) as Hb.
  apply list_eq_same_length with (Z.to_nat m).
  - by rewrite length_frange.
  - rewrite length_slice; [done|]. rewrite Hlen. fslia.
  - intros j x y Hj Hx Hy. unfold frange in Hy. rewrite list_lookup_fmap, lookup_seq_lt in Hy by done.
    injection Hy as <-. rewrite lookup_slice in Hx by done.
    apply list_lookup_total_correct in Hx. rewrite <- Hx. unfold fbyte.
    assert (E : (off + Z.of_nat j) / BSIZE = off / BSIZE ∧ (off + Z.of_nat j) mod BSIZE = off mod BSIZE + Z.of_nat j).
    { pose proof (Z.div_mod off BSIZE ltac:(done)). split; symmetry.
      - apply Z.div_unique with (off mod BSIZE + Z.of_nat j); lia.
      - apply Z.mod_unique with (off / BSIZE); lia. }
    destruct E as [-> E]. simpl. rewrite E. rewrite (proj2 (Z.eqb_neq _ _)) by done.
    f_equal. lia.
Qed.

(** Blocks touched by [len] bytes from [off] on. *)
Definition nblocks (off len : Z) : Z :=
  if len <=? 0 then 0 else (off mod BSIZE + len + BSIZE - 1) / BSIZE.

Lemma nblocks_step off len :
  0 ≤ off → 0 < len →
  let m := Z.min len (BSIZE - off mod BSIZE) in
  0 < m ≤ BSIZE - off mod BSIZE ∧ m ≤ len ∧ 1 ≤ nblocks off len ∧
  nblocks (off + m) (len - m) ≤ nblocks off len - 1.
Proof.
  intros Ho Hl m. pose proof (Z.mod_pos_bound off BSIZE ltac:(done)) as Hb.
  unfold nblocks. rewrite (proj2 (Z.leb_gt len 0)) by lia.
  assert (Hone : 1 ≤ (off mod BSIZE + len + BSIZE - 1) / BSIZE).
  { apply Z.div_le_lower_bound; [done|]. fslia. }
  split_and!; try lia. destruct (len - m <=? 0) eqn:Em; bool_props; [lia|].
  - assert (E : m = BSIZE - off mod BSIZE) by lia.
    assert (E2 : (off + m) mod BSIZE = 0).
    { rewrite E. pose proof (Z.div_mod off BSIZE ltac:(done)). symmetry.
      apply Z.mod_unique with (off / BSIZE + 1); lia. }
    rewrite E2.
    replace (off mod BSIZE + len + BSIZE - 1) with ((0 + (len - m) + BSIZE - 1) + 1 * BSIZE) by lia.
    rewrite Z.div_add by done. lia.
Qed.

Lemma nblocks_zero off len : len ≤ 0 → nblocks off len = 0.
Proof. intros. unfold nblocks. by rewrite (proj2 (Z.leb_le _ _)). Qed.

Lemma nblocks_fuel off n : 0 ≤ n → nblocks off n ≤ n / BSIZE + 2.
Proof.
  intros Hn. unfold nblocks. destruct (n <=? 0) eqn:E; bool_props.
  { pose proof (Z.div_pos n BSIZE Hn ltac:(done)). lia. }
  pose proof (Z.mod_pos_bound off BSIZE ltac:(done)) as Hb.
  pose proof (Z.div_mod n BSIZE ltac:(done)). pose proof (Z.mod_pos_bound n BSIZE ltac:(done)).
  apply Z.lt_succ_r, Z.div_lt_upper_bound; [done|]. lia.
Qed.

(** Every block below [n] is allocated. *)
Definition mapped (v : Z → block) (i : inode) (n : Z) : Prop := ∀ k, 0 ≤ k → k * BSIZE < n → addr_of v i k ≠ 0.

Lemma mapped_at v i n off : mapped v i n → 0 ≤ off < n → addr_of v i (off / BSIZE) ≠ 0.
Proof.
  intros Hm Ho. apply Hm; [apply Z.div_pos; [lia|done]|].
  pose proof (Z.mul_div_le off BSIZE ltac:(done)). lia.
Qed.

Lemma length_addr_bytes addrs : length (addr_bytes addrs) = (4 * length addrs)%nat.
Proof.
  induction addrs as [|a addrs IH]; [done|].
  change (addr_bytes (a :: addrs)) with (le 4 a ++ addr_bytes addrs).
  rewrite length_app, length_le, IH. simpl. lia.
Qed.

Lemma addr_bytes_ok addrs : Forall is_byte (addr_bytes addrs).
Proof.
  induction addrs as [|a addrs IH]; [constructor|].
  change (addr_bytes (a :: addrs)) with (le 4 a ++ addr_bytes addrs).
  apply Forall_app. split; [apply le_bytes|exact IH].
Qed.

Lemma dinode_off_bound n : 0 ≤ n → (dinode_off n + 64 ≤ Z.to_nat BSIZE)%nat.
Proof.
  intros Hn. unfold dinode_off, sizeof_dinode. pose proof (Z.mod_pos_bound n IPB ltac:(done)).
  change IPB with 8 in *. fslia.
Qed.

Lemma put_dinode_ok off i d :
  (off + 64 ≤ Z.to_nat BSIZE)%nat → length (i_addrs i) = naddrs → block_ok d → block_ok (put_dinode off i d).
Proof.
  intros Hoff Hlen [Hl Hb]. unfold put_dinode, put_u16, put_u32.
  assert (Hab : length (addr_bytes (i_addrs i)) = 52%nat).
  { rewrite length_addr_bytes, Hlen. reflexivity. }
  split.
  - rewrite length_splice; rewrite ?Hab; rewrite ?length_put_le; rewrite ?length_put_le; rewrite ?length_put_le;
      rewrite ?length_put_le; rewrite ?length_put_le; lia.
  - apply Forall_splice; [|apply addr_bytes_ok]. by repeat apply put_le_bytes.
Qed.

Lemma splice_block_ok off n tot m src d :
  Forall is_byte src → block_ok d → (off + Z.to_nat m ≤ Z.to_nat BSIZE)%nat →
  (Z.to_nat tot + Z.to_nat m ≤ length src)%nat → n = Z.to_nat m →
  block_ok (splice off (slice (Z.to_nat tot) n src) d).
Proof.
  intros Hb [Hl Hd] Ho Hs ->. split.
  - rewrite length_splice; [done|]. rewrite length_slice by lia. by rewrite Hl.
  - apply Forall_splice; [done|]. by apply Forall_slice.
Qed.

Section bmap.
Context {S : Type} `{BufCacheLaws S} `{DevSw S}.

Lemma nfree_alloc (s : fs S) v v' a :
  bitmap_ok s v → blocks_ok s v → used (f_sb s) v a = false → 0 ≤ a < sb_size (f_sb s) →
  (∀ b, 0 ≤ b < sb_size (f_sb s) → used (f_sb s) v' b = used (f_sb s) (alloc_view (f_sb s) v a) b) →
  nfree (f_sb s) v = Datatypes.S (nfree (f_sb s) v').
Proof.
  intros Hbm Hbo Ha Hr Hu. apply (filter_drop_one _ _ (Z.to_nat a)).
  - apply NoDup_seq.
  - apply elem_of_seq. lia.
  - rewrite Z2Nat.id by lia. by rewrite Ha.
  - rewrite Z2Nat.id, Hu, used_alloc by (done || lia). by rewrite decide_True.
  - intros x Hx Hne. apply elem_of_seq in Hx. rewrite Hu, used_alloc by (done || lia).
    rewrite decide_False by lia. done.
Qed.

(** The base state and the inode worked on. *)
Context (s0 : fs S) (ip : nat).
Hypothesis Hip : (ip < length (ic_inode s0))%nat.

(** [s0] with another log and another in-core inode [ip]. *)
Definition mk (l : log S) (i : inode) : fs S :=
  Fs l (f_sb s0) (ic_lock s0) (<[ip := i]> (ic_inode s0)) (f_pid s0) (f_cwd s0).

Lemma mk_inode l i : inoden (mk l i) ip = i.
Proof. unfold inoden, mk. simpl. by apply list_lookup_total_insert_eq. Qed.

Lemma mk_iupd l i f : iupd ip f (mk l i) = mk l (f i).
Proof.
  unfold iupd. rewrite mk_inode. unfold mk, with_ic_inode. simpl. by rewrite list_insert_insert_eq.
Qed.

Lemma mk_id i : inoden s0 ip = i → mk (f_log s0) i = s0.
Proof.
  intros <-. unfold mk, inoden. rewrite list_insert_id; [by destruct s0|].
  by apply list_lookup_lookup_total_lt.
Qed.

Lemma mk_geo l i : log_ext (f_log s0) l → geo (mk l i) = geo s0.
Proof. intros (E1 & E2 & _ & E3). unfold geo, mk, disk_of, cache_of. simpl. by rewrite E1, E2, E3. Qed.

Record ftx (l : log S) (r : Z) (h : gmap nat Z) (v : Z → block) (i : inode) : Prop := {
  ft_ext : log_ext (f_log s0) l;
  ft_txs : txs (mk l i) r h v;
  ft_bitmap : bitmap_ok s0 v;
  ft_meta : meta_ok s0 v;
  ft_file : file_ok s0 v i
}.

Lemma ftx_blocks l r h v i : ftx l r h v i → blocks_ok s0 v.
Proof.
  intros [He Ht Hbm _ _] x Hx. pose proof (mk_geo l i He) as [= _ _ Hlen].
  destruct (bm_home _ _ Hbm x Hx) as [Hrng _].
  eapply txs_block_ok; [exact Ht|]. rewrite Hlen. done.
Qed.

Lemma ftx_weaken l r r' h v i : ftx l r h v i → r' ≤ r → ftx l r' h v i.
Proof. intros [? ? ? ? ?] ?. split; try done. by eapply txs_weaken. Qed.

(** Allocation inside [bmap]. *)
Lemma wp_balloc_mk l r h v i :
  ftx l r h v i → held_ok s0 v h → Z.of_nat (size h) + 2 ≤ r → (1 ≤ nfree (f_sb s0) v)%nat →
  wp (balloc (i_dev i)) (λ a s', ∃ l', s' = mk l' i ∧ log_ext (f_log s0) l' ∧
    can_alloc s0 v i a ∧ txs (mk l' i) (r - 2) h (alloc_view (f_sb s0) v a)) (mk l i).
Proof.
  intros Hft Hh Hr Hn. pose proof (ftx_blocks _ _ _ _ _ Hft) as Hbo.
  destruct Hft as [He Ht Hbm Hm Hf]. pose proof (mk_geo l i He) as Hg.
  rewrite (fo_dev _ _ _ Hf). eapply wp_mono.
  { apply (wp_balloc (mk l i) r h v Ht); [by apply (bitmap_ok_geo s0)|done|done|by apply nfree_pos]. }
  intros a s' (l' & -> & Hx & Ha & Hu & _ & Ht'). simpl in *. exists l'.
  split_and!; [done|by eapply log_ext_trans| |exact Ht']. by split.
Qed.

(** Every address [bmap] follows is a block of the disk. *)
Lemma data_range v b : data_ok s0 v b → 0 ≤ b < Z.of_nat (length (disk_of s0)).
Proof. intros Hb. apply (do_home _ _ _ Hb). Qed.

(** What [bmap] leaves. *)
Definition bmap_post (r : Z) (v : Z → block) (i : inode) (k a : Z) (s' : fs S) : Prop :=
  ∃ l' v' i', s' = mk l' i' ∧ ftx l' (r - 5) ∅ v' i' ∧ grows s0 v i v' i' ∧
    addr_of v' i' k = a ∧ a ≠ 0 ∧ (nfree (f_sb s0) v ≤ 2 + nfree (f_sb s0) v')%nat.

Lemma wp_bmap_direct l r v i k :
  ftx l r ∅ v i → 0 ≤ k < NDIRECT → 5 ≤ r → (1 ≤ nfree (f_sb s0) v)%nat →
  wp (bmap ip k) (bmap_post r v i k) (mk l i).
Proof.
  intros Hft Hk Hr Hn. pose proof Hft as [He Ht Hbm Hm Hf].
  unfold bmap, inode_of. wp_step. wp_step. rewrite mk_inode.
  rewrite (proj2 (Z.ltb_lt _ _)) by lia. rewrite <- (addr_of_direct v i k) by lia.
  destruct (addr_of v i k =? 0) eqn:E; bool_props.
  - wp_step. eapply wp_mono; [apply (wp_balloc_mk l r ∅ v i Hft); [done|rewrite map_size_empty; lia|done]|].
    intros a s' (l' & -> & Hx & Hca & Ht'). wp_steps. rewrite mk_iupd.
    destruct (grow_direct s0 v i k a Hca Hk E) as [Hg Hadd].
    eexists l', _, _. split_and!; [done| |exact Hg|done| |].
    + split; [done| |apply Hg|apply Hg|apply Hg].
      eapply txs_log; [|eapply txs_weaken; [exact Ht'|lia]]. done.
    + destruct (ca_meta _ _ _ _ Hca a (ca_range _ _ _ _ Hca) (ca_free _ _ _ _ Hca)). done.
    + rewrite (nfree_alloc s0 v (alloc_view (f_sb s0) v a) a); [lia|by destruct Hca..|done].
  - wp_step. exists l, v, i. split; [done|]. split; [eapply ftx_weaken; [exact Hft|lia]|].
    split; [by apply grows_refl|]. split_and!; try done. lia.
Qed.

(** First half of the indirect case: afterwards there is an indirect block. *)
Lemma wp_ind_addr l r v i :
  ftx l r ∅ v i → 2 ≤ r → (1 ≤ nfree (f_sb s0) v)%nat →
  wp (ind_addr ip) (λ a s', ∃ l' v' i', s' = mk l' i' ∧ ftx l' (r - 2) ∅ v' i' ∧
    grows s0 v i v' i' ∧ ind_of i' = a ∧ a ≠ 0 ∧
    (nfree (f_sb s0) v ≤ 1 + nfree (f_sb s0) v')%nat) (mk l i).
Proof.
  intros Hft Hr Hn. pose proof Hft as [He Ht Hbm Hm Hf].
  unfold ind_addr, inode_of. wp_step. wp_step. rewrite mk_inode. fold (ind_of i).
  destruct (ind_of i =? 0) eqn:E; bool_props.
  - wp_step. eapply wp_mono; [apply (wp_balloc_mk l r ∅ v i Hft); [done|rewrite map_size_empty; lia|done]|].
    intros a s' (l' & -> & Hx & Hca & Ht'). wp_steps. rewrite mk_iupd.
    destruct (ca_meta _ _ _ _ Hca a (ca_range _ _ _ _ Hca) (ca_free _ _ _ _ Hca)) as [Ha0 _].
    destruct (grow_indirect s0 v i a Hca E Ha0) as (Hg & Hind).
    eexists l', _, _. split; [done|]. split.
    { split; [done| |apply Hg|apply Hg|apply Hg]. eapply txs_log; [|exact Ht']. done. }
    split; [exact Hg|]. split_and!; try done.
    rewrite (nfree_alloc s0 v (alloc_view (f_sb s0) v a) a); [lia|by destruct Hca..|done].
  - wp_step. exists l, v, i. split; [done|]. split; [eapply ftx_weaken; [exact Hft|lia]|].
    split; [by apply grows_refl|]. split_and!; try done. lia.
Qed.

Lemma ftx_len l r h v i : ftx l r h v i → length (disk_of (mk l i)) = length (disk_of s0).
Proof. intros [He _ _ _ _]. by pose proof (mk_geo l i He) as [= _ _ Hlen]. Qed.

Lemma ftx_homeb l r h v i b : ftx l r h v i → data_ok s0 v b → homeb (mk l i) b.
Proof. intros [He _ _ _ _] Hb. apply (homeb_geo s0); [by apply mk_geo|apply Hb]. Qed.

(** Second half: the entry of the indirect block. *)
Lemma wp_ind_entry l r v i k :
  ftx l r ∅ v i → NDIRECT ≤ k < MAXFILE → ind_of i ≠ 0 → 3 ≤ r → (1 ≤ nfree (f_sb s0) v)%nat →
  wp (ind_entry ip (ind_of i) (k - NDIRECT)) (λ a s', ∃ l' v', s' = mk l' i ∧
    ftx l' (r - 3) ∅ v' i ∧ grows s0 v i v' i ∧ addr_of v' i k = a ∧ a ≠ 0 ∧
    (nfree (f_sb s0) v ≤ 1 + nfree (f_sb s0) v')%nat) (mk l i).
Proof.
  intros Hft Hk Hi Hr Hn. pose proof Hft as [He Ht Hbm Hm Hf].
  pose proof (fo_ind _ _ _ Hf Hi) as Hdi. pose proof (data_range _ _ Hdi) as Hrng.
  unfold ind_entry, inode_of. wp_step. wp_step. rewrite mk_inode, (fo_dev _ _ _ Hf). wp_step.
  eapply wp_fbread; [exact Ht|by rewrite (ftx_len _ _ _ _ _ Hft)|done|rewrite map_size_empty; lia|].
  change (λ l0, with_log l0 (mk l i)) with (λ l0, mk l0 i). intros bp l1 _ Hx1 Ht1.
  change (with_log l1 (mk l i)) with (mk l1 i) in *.
  assert (He1 : log_ext (f_log s0) l1) by by eapply log_ext_trans.
  wp_step. eapply wp_fdata; [exact Ht1|apply lookup_insert_eq|]. wp_step.
  rewrite <- (addr_of_indirect v i k) by (done || lia).
  destruct (addr_of v i k =? 0) eqn:E; bool_props.
  - assert (Hft1 : ftx l1 r (<[bp := ind_of i]> ∅) v i) by by split.
    wp_step. rewrite <- (fo_dev _ _ _ Hf). eapply wp_mono.
    { apply (wp_balloc_mk l1 r _ v i Hft1); [|rewrite singleton_size; lia|done].
      intros j b Hj. apply lookup_insert_Some in Hj as [[_ <-]|[_ Hj]]; [|by rewrite lookup_empty in Hj].
      split; [apply Hdi|]. intros _. apply Hdi. }
    intros a s' (l2 & -> & Hx2 & Hca & Ht2). wp_step. eapply wp_fdata; [exact Ht2|apply lookup_insert_eq|].
    set (v1 := alloc_view (f_sb s0) v a) in *.
    assert (Hok1 : block_ok (v1 (ind_of i))).
    { eapply txs_block_ok; [exact Ht2|]. pose proof (mk_geo l2 i Hx2) as [= _ _ Hlen]. by rewrite Hlen. }
    pose proof Hca as [_ Hbo _ _ Hfr Har].
    destruct (ca_meta _ _ _ _ Hca a Har Hfr) as [Ha0 _].
    assert (Hau : is_u32 a).
    { pose proof (tx_small _ _ (li_tx _ (t_inv _ _ _ _ Ht))). pose proof (bm_size _ _ Hbm).
      pose proof (ftx_len _ _ _ _ _ Hft) as Hl. unfold disk_of, cache_of in Hl. simpl in *.
      unfold is_u32. unfold disk_of, cache_of in *. lia. }
    assert (Hok : block_ok (v (ind_of i))).
    { eapply txs_block_ok; [exact Ht|]. by rewrite (ftx_len _ _ _ _ _ Hft). }
    destruct (grow_entry s0 v i k a Hca Hk Hi E Hok Hau) as [Hg Hadd]. fold v1 in Hg, Hadd.
    eapply wp_fupdate; [exact Ht2|apply lookup_insert_eq| | |lia|].
    { apply (homeb_geo s0); [by apply mk_geo|apply Hdi]. }
    { apply put_u32_ok; [|done]. fslia. }
    intros l3 Hx3 Ht3. change (with_log l3 (mk l2 i)) with (mk l3 i) in *. wp_step. wp_step.
    eapply wp_fbrelse; [exact Ht3|apply lookup_insert_eq|]. intros l4 Hx4 Ht4.
    change (with_log l4 (mk l3 i)) with (mk l4 i) in *.
    rewrite delete_insert_id in Ht4 by apply lookup_empty. wp_step.
    eexists l4, _. split; [done|]. split.
    { split; [|eapply txs_weaken; [exact Ht4|lia]|apply Hg|apply Hg|apply Hg].
      by eapply log_ext_trans, log_ext_trans. }
    split; [exact Hg|]. split_and!; try done.
    rewrite (nfree_alloc s0 v (view_upd v1 (ind_of i) (put_u32 (Z.to_nat (4 * (k - NDIRECT))) a (v1 (ind_of i)))) a);
      [lia|done|done|done|done|].
    intros b Hb. unfold used. rewrite view_upd_ne; [done|]. by apply (do_bitmap _ _ _ Hdi).
  - wp_step. wp_step. eapply wp_fbrelse; [exact Ht1|apply lookup_insert_eq|]. intros l4 Hx4 Ht4.
    change (with_log l4 (mk l1 i)) with (mk l4 i) in *.
    rewrite delete_insert_id in Ht4 by apply lookup_empty. wp_step.
    exists l4, v. split; [done|]. split.
    { split; try done; [by eapply log_ext_trans|]. eapply txs_weaken; [exact Ht4|lia]. }
    split; [by apply grows_refl|]. split_and!; try done. lia.
Qed.

Lemma wp_bmap l r v i k :
  ftx l r ∅ v i → 0 ≤ k < MAXFILE → 5 ≤ r → (2 ≤ nfree (f_sb s0) v)%nat →
  wp (bmap ip k) (bmap_post r v i k) (mk l i).
Proof.
  intros Hft Hk Hr Hn. destruct (decide (k < NDIRECT)) as [Hd|Hd].
  { apply wp_bmap_direct; [done|lia|done|lia]. }
  unfold bmap, inode_of. wp_step. wp_step. rewrite (proj2 (Z.ltb_ge _ _)) by lia.
  rewrite (proj2 (Z.ltb_lt _ _)) by fslia. wp_step.
  eapply wp_mono; [apply (wp_ind_addr l r v i Hft); lia|].
  intros a s' (l1 & v1 & i1 & -> & Hft1 & Hg1 & Hind & Ha0 & Hn1).
  eapply wp_mono.
  { rewrite <- Hind. apply (wp_ind_entry l1 (r - 2) v1 i1 k Hft1); [lia|by rewrite Hind|lia|lia]. }
  intros a' s' (l2 & v2 & -> & Hft2 & Hg2 & Hadd & Ha' & Hn2).
  exists l2, v2, i1. split; [done|]. split; [by eapply ftx_weaken; [exact Hft2|lia]|].
  split; [|split_and!; [done|done|lia]].
  by eapply grows_trans.
Qed.

(** A block that is there already: nothing is allocated or logged. *)
Lemma wp_bmap_mapped l r v i k :
  ftx l r ∅ v i → 0 ≤ k < MAXFILE → addr_of v i k ≠ 0 → 0 ≤ r →
  wp (bmap ip k) (λ a s', a = addr_of v i k ∧ ∃ l', s' = mk l' i ∧ ftx l' r ∅ v i) (mk l i).
Proof.
  intros Hft Hk Ha Hr. pose proof Hft as [He Ht Hbm Hm Hf].
  unfold bmap, inode_of. wp_step. wp_step. rewrite mk_inode.
  destruct (decide (k < NDIRECT)) as [Hd|Hd].
  - rewrite (proj2 (Z.ltb_lt _ _)) by lia. rewrite <- (addr_of_direct v i k) by lia.
    rewrite (proj2 (Z.eqb_neq _ _)) by done. wp_step. eauto.
  - assert (Hi : ind_of i ≠ 0) by (intros Hz; rewrite addr_of_hole in Ha; done || lia).
    rewrite (proj2 (Z.ltb_ge _ _)) by lia. rewrite (proj2 (Z.ltb_lt _ _)) by fslia.
    unfold ind_addr, inode_of. wp_step. wp_step. wp_step. rewrite mk_inode. fold (ind_of i).
    rewrite (proj2 (Z.eqb_neq (ind_of i) 0)) by done. wp_step.
    unfold ind_entry, inode_of. wp_step. wp_step. rewrite mk_inode, (fo_dev _ _ _ Hf). wp_step.
    pose proof (fo_ind _ _ _ Hf Hi) as Hdi. pose proof (data_range _ _ Hdi) as Hrng.
    eapply wp_fbread; [exact Ht|by rewrite (ftx_len _ _ _ _ _ Hft)|done|rewrite map_size_empty; lia|].
    intros bp l1 _ Hx1 Ht1. change (with_log l1 (mk l i)) with (mk l1 i) in *.
    wp_step. eapply wp_fdata; [exact Ht1|apply lookup_insert_eq|]. wp_step.
    rewrite <- (addr_of_indirect v i k) by (done || lia).
    rewrite (proj2 (Z.eqb_neq _ _)) by done. wp_step. wp_step.
    eapply wp_fbrelse; [exact Ht1|apply lookup_insert_eq|]. intros l2 Hx2 Ht2.
    change (with_log l2 (mk l1 i)) with (mk l2 i) in *.
    rewrite delete_insert_id in Ht2 by apply lookup_empty. wp_step. split; [done|].
    exists l2. split; [done|]. split; try done. by eapply log_ext_trans, log_ext_trans.
Qed.

(** ** Reading *)

Lemma wp_readi_loop fuel l r v i off n tot :
  ftx l r ∅ v i → mapped v i (off + (n - tot)) → 0 ≤ off → off + (n - tot) ≤ MAXFILE * BSIZE →
  0 ≤ r → nblocks off (n - tot) ≤ Z.of_nat fuel → tot ≤ n →
  wp (readi_loop fuel ip off n tot) (λ bytes s', bytes = frange v i off (n - tot) ∧
    ∃ l', s' = mk l' i ∧ ftx l' r ∅ v i) (mk l i).
Proof.
  revert l off tot. induction fuel as [|f IH]; intros l off tot Hft Hmap Ho Hmax Hr Hfuel Htot.
  all: cbn [readi_loop]; destruct (tot <? n) eqn:E; bool_props.
  1: { destruct (nblocks_step off (n - tot) Ho ltac:(lia)) as (_ & _ & Hnb & _). lia. }
  1,3: (wp_step; split; [by replace (n - tot) with 0 by lia|eauto]).
  pose proof (nblocks_step off (n - tot) Ho ltac:(lia)) as (Hm1 & Hm2 & Hnb & Hstep).
  set (m := Z.min (n - tot) (BSIZE - off mod BSIZE)) in *.
  pose proof (mapped_at _ _ _ off Hmap ltac:(lia)) as Ha.
  pose proof (off_block off ltac:(lia)) as Hk.
  pose proof Hft as [He Ht Hbm Hmt Hf].
  unfold inode_of. wp_step. wp_step. rewrite mk_inode, (fo_dev _ _ _ Hf). wp_step.
  eapply wp_mono; [apply (wp_bmap_mapped l r v i (off / BSIZE) Hft Hk Ha Hr)|].
  intros a s1 (-> & l1 & -> & Hft1). wp_step.
  pose proof (data_range _ _ (fo_data _ _ _ Hf _ Hk Ha)) as Hrng.
  eapply wp_fbread; [apply Hft1|by rewrite (ftx_len _ _ _ _ _ Hft1)|done|rewrite map_size_empty; lia|].
  intros bp l2 _ Hx2 Ht2. change (with_log l2 (mk l1 i)) with (mk l2 i) in *. wp_step.
  eapply wp_fdata; [exact Ht2|apply lookup_insert_eq|]. wp_step.
  eapply wp_fbrelse; [exact Ht2|apply lookup_insert_eq|]. intros l3 Hx3 Ht3.
  change (with_log l3 (mk l2 i)) with (mk l3 i) in *.
  rewrite delete_insert_id in Ht3 by apply lookup_empty.
  assert (Hft3 : ftx l3 r ∅ v i).
  { split; try done. eapply log_ext_trans; [apply Hft1|by eapply log_ext_trans]. }
  assert (Hbl : block_ok (v (addr_of v i (off / BSIZE)))).
  { eapply txs_block_ok; [exact Ht|]. by rewrite (ftx_len _ _ _ _ _ Hft). }
  wp_step. eapply wp_mono.
  { apply (IH l3 (off + m) (tot + m) Hft3).
    - by replace (off + m + (n - (tot + m))) with (off + (n - tot)) by lia.
    - lia.
    - lia.
    - done.
    - replace (n - (tot + m)) with (n - tot - m) by lia. lia.
    - lia. }
  intros rest s' (-> & l' & -> & Hft'). wp_step. split; [|eauto].
  rewrite (frange_app v i off m (n - tot)) by lia.
  rewrite block_slice by (done || lia || apply Hbl). do 2 f_equal. lia.
Qed.

Lemma wp_readi l r v i off n :
  ftx l r ∅ v i → i_type i ≠ T_DEV → 0 ≤ off → 0 ≤ n → off ≤ i_size i → off + n < 2 ^ 32 →
  i_size i ≤ MAXFILE * BSIZE → mapped v i (i_size i) → 0 ≤ r →
  wp (readi ip off n) (λ '(res, bytes) s', res = Z.min n (i_size i - off) ∧
    bytes = frange v i off (Z.min n (i_size i - off)) ∧
    ∃ l', s' = mk l' i ∧ ftx l' r ∅ v i) (mk l i).
Proof.
  intros Hft Hty Ho Hn Hos Hw Hmx Hmap Hr. unfold readi, inode_of. wp_step. wp_step. rewrite mk_inode.
  rewrite (proj2 (Z.eqb_neq _ _)) by done. rewrite (u32_id (off + n)) by (unfold is_u32; lia).
  rewrite (proj2 (Z.ltb_ge (i_size i) off)), (proj2 (Z.ltb_ge (off + n) off)) by lia. cbn [orb].
  assert (E : (if i_size i <? off + n then i_size i - off else n) = Z.min n (i_size i - off)).
  { case_if; lia. }
  rewrite E. set (n' := Z.min n (i_size i - off)). assert (Hn' : 0 ≤ n') by lia. wp_step.
  eapply wp_mono; [apply (wp_readi_loop (io_fuel n') l r v i off n' 0 Hft)|].
  - intros k Hk Hkn. apply Hmap; [done|lia].
  - done.
  - lia.
  - done.
  - rewrite Z.sub_0_r. unfold io_fuel. pose proof (nblocks_fuel off n' Hn').
    pose proof (Z.div_pos n' BSIZE Hn' ltac:(done)). lia.
  - done.
  - intros bytes s' (-> & l' & -> & Hft'). wp_step. rewrite Z.sub_0_r. split_and!; try done. eauto.
Qed.

(** ** Writing *)

(** Overwriting one data block of a file. *)
Lemma write_block v i k d :
  file_ok s0 v i → bitmap_ok s0 v → meta_ok s0 v → 0 ≤ k < MAXFILE → addr_of v i k ≠ 0 →
  let v2 := view_upd v (addr_of v i k) d in
  (∀ j, addr_of v2 i j = addr_of v i j) ∧ file_ok s0 v2 i ∧ bitmap_ok s0 v2 ∧ meta_ok s0 v2 ∧
  nfree (f_sb s0) v2 = nfree (f_sb s0) v ∧
  (∀ b, outside s0 v i b → v2 b = v b ∧ outside s0 v2 i b) ∧
  (∀ o, 0 ≤ o < MAXFILE * BSIZE → fbyte v2 i o =
     if decide (o / BSIZE = k) then d !!! Z.to_nat (o mod BSIZE) else fbyte v i o).
Proof.
  intros Hf Hbm Hm Hk Ha v2. pose proof Hf as [F1 F2 F3 F4 F5 F6].
  pose proof (F3 k Hk Ha) as Hda.
  assert (Hadd : ∀ j, addr_of v2 i j = addr_of v i j).
  { intros j. apply addr_of_view. intros Hi. apply view_upd_ne. by apply not_eq_sym, F5. }
  assert (Hu : ∀ b, 0 ≤ b < sb_size (f_sb s0) → used (f_sb s0) v2 b = used (f_sb s0) v b).
  { intros b Hb. unfold used, v2. rewrite view_upd_ne; [done|]. by apply (do_bitmap _ _ _ Hda). }
  assert (Hdo : ∀ b, data_ok s0 v b → data_ok s0 v2 b).
  { intros b Hb. eapply data_ok_view; [|exact Hb]. apply Hu. pose proof (do_range _ _ _ Hb). lia. }
  split_and!; try done.
  - split; try done.
    + intros j Hj. rewrite Hadd. intros Hz. by apply Hdo, F3.
    + intros Hz. by apply Hdo, F4.
    + intros j Hj. rewrite Hadd. by apply F5.
    + intros j j' Hj Hj'. rewrite !Hadd. by apply F6.
  - destruct Hbm as [B1 B2 B3 B4]. split; try done. intros b Hb. rewrite Hu by done. by apply B4.
  - intros b Hb. rewrite Hu by done. by apply Hm.
  - unfold nfree. f_equal. apply filter_ext_in. intros x Hx%list_elem_of_In%elem_of_seq.
    by rewrite Hu by lia.
  - intros b (Hb & Hbi & Hout). split; [apply view_upd_ne; by apply not_eq_sym, Hout|].
    split_and!; [by apply Hdo|done|]. intros j Hj. rewrite Hadd. by apply Hout.
  - intros o Hob. pose proof (off_block o Hob) as Hk'. unfold fbyte. rewrite Hadd. case_decide as Hd.
    + rewrite Hd, (proj2 (Z.eqb_neq _ _)) by done. unfold v2. by rewrite view_upd_eq.
    + destruct (addr_of v i (o / BSIZE) =? 0) eqn:E; bool_props; [done|].
      unfold v2. rewrite view_upd_ne; [done|]. intros He. apply Hd. by apply F6.
Qed.

(** Relation between a file before and after a write of [len] bytes at [off]:
    [src] from [tot] on is what it now contains there. *)
Record written v i v' i' (src : list Z) (off tot len : Z) : Prop := {
  wr_bytes : ∀ o, 0 ≤ o < MAXFILE * BSIZE → fbyte v' i' o =
    if decide (off ≤ o < off + len) then src !!! Z.to_nat (tot + (o - off)) else fbyte v i o;
  wr_mapped : ∀ k, 0 ≤ k < MAXFILE →
    (addr_of v i k ≠ 0 ∨ ∃ o, off ≤ o < off + len ∧ o / BSIZE = k) → addr_of v' i' k ≠ 0;
  wr_frame : ∀ b, outside s0 v i b → v' b = v b ∧ outside s0 v' i' b;
  wr_same : same_inode i i'
}.

(** One iteration of the copy loop. *)
Lemma written_one v i v1 i1 src off tot m :
  grows s0 v i v1 i1 → 0 ≤ off → 0 ≤ tot → 0 < m ≤ BSIZE - off mod BSIZE →
  off + m ≤ MAXFILE * BSIZE → tot + m ≤ Z.of_nat (length src) →
  addr_of v1 i1 (off / BSIZE) ≠ 0 → length (v1 (addr_of v1 i1 (off / BSIZE))) = Z.to_nat BSIZE →
  let d := splice (Z.to_nat (off mod BSIZE)) (slice (Z.to_nat tot) (Z.to_nat m) src)
             (v1 (addr_of v1 i1 (off / BSIZE))) in
  written v i (view_upd v1 (addr_of v1 i1 (off / BSIZE)) d) i1 src off tot m.
Proof.
  intros Hg Ho Ht Hm Hmax Hsrc Ha Hlen d. pose proof (off_block off ltac:(lia)) as Hk.
  destruct (write_block v1 i1 (off / BSIZE) d (gr_file _ _ _ _ _ Hg) (gr_bitmap _ _ _ _ _ Hg)
    (gr_meta _ _ _ _ _ Hg) Hk Ha) as (Hadd & _ & _ & _ & _ & Hfr & Hby).
  pose proof (Z.mod_pos_bound off BSIZE ltac:(done)) as Hb.
  pose proof (Z.div_mod off BSIZE ltac:(done)) as Hdm.
  assert (Hsl : length (slice (Z.to_nat tot) (Z.to_nat m) src) = Z.to_nat m).
  { apply length_slice. lia. }
  split; [| |intros b Hb'; destruct (gr_frame _ _ _ _ _ Hg b Hb') as [<- Ho2]; by apply Hfr|apply Hg].
  2: { intros k Hk' [Hz|(o & Hoo & <-)]; rewrite Hadd; [by rewrite (gr_addr _ _ _ _ _ Hg)|].
    replace (o / BSIZE) with (off / BSIZE); [done|].
    apply Z.div_unique with (off mod BSIZE + (o - off)); lia. }
  intros o Hob. rewrite Hby by done. pose proof (Z.div_mod o BSIZE ltac:(done)) as Hdmo.
  pose proof (Z.mod_pos_bound o BSIZE ltac:(done)) as Hbo.
  case_decide as Hd.
  - destruct (decide (off ≤ o < off + m)) as [Hin|Hout].
    + unfold d. apply list_lookup_total_correct.
      rewrite lookup_splice_in by (rewrite ?Hsl, ?Hlen; fslia).
      rewrite lookup_slice by lia.
      replace (Z.to_nat tot + (Z.to_nat (o mod BSIZE) - Z.to_nat (off mod BSIZE)))%nat
        with (Z.to_nat (tot + (o - off))) by (rewrite Hd in Hdmo; lia).
      apply list_lookup_lookup_total_lt. lia.
    + rewrite <- (gr_bytes _ _ _ _ _ Hg o Hob). unfold fbyte. rewrite Hd, (proj2 (Z.eqb_neq _ _)) by done.
      unfold d. rewrite !list_lookup_total_alt. f_equal.
      apply lookup_splice_out; rewrite ?Hsl; [fslia|]. rewrite Hd in Hdmo. lia.
  - rewrite (gr_bytes _ _ _ _ _ Hg o Hob). rewrite decide_False; [done|]. intros Hin. apply Hd.
    symmetry. apply Z.div_unique with (off mod BSIZE + (o - off)); lia.
Qed.

Lemma written_trans v i v1 i1 v2 i2 src off tot m len :
  0 < m ≤ len → 0 ≤ off →
  written v i v1 i1 src off tot m → written v1 i1 v2 i2 src (off + m) (tot + m) (len - m) →
  written v i v2 i2 src off tot len.
Proof.
  intros Hm Ho [W1 P1 R1 E1] [W2 P2 R2 E2]. split.
  - intros o Hob. rewrite W2, W1 by done. repeat case_decide; try done; try lia.
    do 2 f_equal. lia.
  - intros k Hk [Hz|(o & Hoo & Hok)]; apply P2; auto.
    destruct (decide (o < off + m)); [left; apply P1; [done|right]|right]; exists o; split; (done || lia).
  - intros b Hb. destruct (R1 b Hb) as [Ev Hb1]. destruct (R2 b Hb1) as [-> ?]. done.
  - destruct E1 as (?&?&?&?&?&?&?&?&?&?), E2 as (?&?&?&?&?&?&?&?&?&?). split_and!; congruence.
Qed.

(** The contents written and the room used by [K] iterations. *)
Definition write_post r (v : Z → block) i src (off tot len : Z) (res : Z) (s' : fs S) : Prop :=
  res = off + len ∧ ∃ l' v' i', s' = mk l' i' ∧ ftx l' (r - 6 * nblocks off len) ∅ v' i' ∧
    written v i v' i' src off tot len ∧
    (nfree (f_sb s0) v ≤ 2 * Z.to_nat (nblocks off len) + nfree (f_sb s0) v')%nat.

Lemma wp_writei_loop fuel l r v i src off n tot :
  ftx l r ∅ v i → Forall is_byte src → n ≤ Z.of_nat (length src) →
  0 ≤ off → 0 ≤ tot ≤ n → off + (n - tot) ≤ MAXFILE * BSIZE →
  6 * nblocks off (n - tot) ≤ r → (2 * Z.to_nat (nblocks off (n - tot)) ≤ nfree (f_sb s0) v)%nat →
  nblocks off (n - tot) ≤ Z.of_nat fuel →
  wp (writei_loop fuel ip src off n tot) (write_post r v i src off tot (n - tot)) (mk l i).
Proof.
  revert l r v i off tot. induction fuel as [|f IH];
    intros l r v i off tot Hft Hsb Hsl Ho Htot Hmax Hr Hfree Hfuel.
  all: cbn [writei_loop]; destruct (tot <? n) eqn:E; bool_props.
  1: { destruct (nblocks_step off (n - tot) Ho ltac:(lia)) as (_ & _ & Hnb & _). lia. }
  1,3: (wp_step; split; [lia|]; exists l, v, i; split; [done|]; rewrite nblocks_zero by lia;
        split; [eapply ftx_weaken; [exact Hft|lia]|split; [|lia]]; split; [| |by auto|done];
        [intros o Hob; by rewrite decide_False by lia|intros k Hk [?|(o & ? & _)]; [done|lia]]).
  pose proof (nblocks_step off (n - tot) Ho ltac:(lia)) as (Hm1 & Hm2 & Hnb & Hstep).
  set (m := Z.min (n - tot) (BSIZE - off mod BSIZE)) in *.
  pose proof (off_block off ltac:(lia)) as Hk. pose proof Hft as [He Ht Hbm Hmt Hf].
  unfold inode_of. wp_step. wp_step. rewrite mk_inode, (fo_dev _ _ _ Hf). wp_step.
  eapply wp_mono; [apply (wp_bmap l r v i (off / BSIZE) Hft Hk); lia|].
  intros a s1 (l1 & v1 & i1 & -> & Hft1 & Hg1 & Hadd & Ha0 & Hn1). wp_step.
  pose proof Hft1 as [He1 Ht1 Hbm1 Hm1' Hf1].
  assert (Haa : addr_of v1 i1 (off / BSIZE) ≠ 0) by by rewrite Hadd.
  pose proof (fo_data _ _ _ Hf1 _ Hk Haa) as Hda. rewrite Hadd in Hda.
  pose proof (data_range _ _ Hda) as Hrng.
  assert (Hbl : block_ok (v1 a)).
  { eapply txs_block_ok; [exact Ht1|]. by rewrite (ftx_len _ _ _ _ _ Hft1). }
  pose proof (Z.mod_pos_bound off BSIZE ltac:(done)) as Hmb.
  eapply wp_fbread; [exact Ht1|by rewrite (ftx_len _ _ _ _ _ Hft1)|done|rewrite map_size_empty; lia|].
  intros bp l2 _ Hx2 Ht2. change (with_log l2 (mk l1 i1)) with (mk l2 i1) in *.
  assert (He2 : log_ext (f_log s0) l2) by by eapply log_ext_trans.
  wp_step. eapply wp_fdata; [exact Ht2|apply lookup_insert_eq|].
  eapply wp_fupdate; [exact Ht2|apply lookup_insert_eq| | |lia|].
  { apply (homeb_geo s0); [by apply mk_geo|apply Hda]. }
  { apply (splice_block_ok _ _ tot m); [done|done|fslia|lia|done]. }
  intros l3 Hx3 Ht3. change (with_log l3 (mk l2 i1)) with (mk l3 i1) in *. wp_step.
  eapply wp_fbrelse; [exact Ht3|apply lookup_insert_eq|]. intros l4 Hx4 Ht4.
  change (with_log l4 (mk l3 i1)) with (mk l4 i1) in *.
  rewrite delete_insert_id in Ht4 by apply lookup_empty.
  assert (Hw1 := written_one v i v1 i1 src off tot m Hg1 Ho ltac:(lia) Hm1 ltac:(lia) ltac:(lia) Haa).
  rewrite Hadd in Hw1. specialize (Hw1 (proj1 Hbl)). simpl in Hw1.
  set (d := splice _ _ (v1 a)) in *.
  destruct (write_block v1 i1 (off / BSIZE) d Hf1 Hbm1 Hm1' Hk Haa) as (_ & Hf2 & Hbm2 & Hm2' & Hn2 & _).
  rewrite Hadd in Hf2, Hbm2, Hm2', Hn2.
  assert (Hft4 : ftx l4 (r - 6) ∅ (view_upd v1 a d) i1).
  { split; try done; [by eapply log_ext_trans, log_ext_trans|]. eapply txs_weaken; [exact Ht4|lia]. }
  replace (n - (tot + m)) with (n - tot - m) in * by lia.
  eapply wp_mono.
  { apply (IH l4 (r - 6) (view_upd v1 a d) i1 (off + m) (tot + m) Hft4 Hsb Hsl); try lia;
      replace (n - (tot + m)) with (n - tot - m) by lia; lia. }
  replace (n - (tot + m)) with (n - tot - m) by lia.
  intros res s' (-> & l' & v' & i' & -> & Hft' & Hw' & Hn'). split; [lia|]. exists l', v', i'.
  split; [done|]. split; [eapply ftx_weaken; [exact Hft'|lia]|]. split; [|lia].
  eapply written_trans; [|done|exact Hw1|exact Hw']. lia.
Qed.

(** ** iupdate *)

(** The block of inode [i] is outside the log, the bitmap and the data. *)
Record inode_home (i : inode) : Prop := {
  ih_inum : 0 ≤ i_inum i < sb_ninodes (f_sb s0);
  ih_home : homeb s0 (IBLOCK (i_inum i) (f_sb s0));
  ih_bitmap : ∀ c, 0 ≤ c < sb_size (f_sb s0) → BBLOCK c (f_sb s0) ≠ IBLOCK (i_inum i) (f_sb s0)
}.

(** Writing the inode block leaves every file alone. *)
Lemma write_iblock v i j d :
  inode_home j → file_ok s0 v i → bitmap_ok s0 v → meta_ok s0 v →
  let v2 := view_upd v (IBLOCK (i_inum j) (f_sb s0)) d in
  file_ok s0 v2 i ∧ bitmap_ok s0 v2 ∧ meta_ok s0 v2 ∧
  (∀ b, outside s0 v i b → v2 b = v b ∧ outside s0 v2 i b) ∧
  (∀ o, 0 ≤ o < MAXFILE * BSIZE → fbyte v2 i o = fbyte v i o).
Proof.
  intros [J1 J2 J3] Hf Hbm Hm v2. pose proof Hf as [F1 F2 F3 F4 F5 F6].
  assert (Hd : ∀ b, data_ok s0 v b → v2 b = v b).
  { intros b Hb. apply view_upd_ne. by apply not_eq_sym, (do_inode _ _ _ Hb). }
  assert (Hadd : ∀ k, addr_of v2 i k = addr_of v i k).
  { intros k. apply addr_of_view. intros Hi. by apply Hd, F4. }
  assert (Hu : ∀ b, 0 ≤ b < sb_size (f_sb s0) → used (f_sb s0) v2 b = used (f_sb s0) v b).
  { intros b Hb. unfold used, v2. rewrite view_upd_ne; [done|]. by apply J3. }
  assert (Hdo : ∀ b, data_ok s0 v b → data_ok s0 v2 b).
  { intros b Hb. eapply data_ok_view; [|exact Hb]. apply Hu. pose proof (do_range _ _ _ Hb). lia. }
  split_and!.
  - split; try done.
    + intros k Hk. rewrite Hadd. intros Hz. by apply Hdo, F3.
    + intros Hz. by apply Hdo, F4.
    + intros k Hk. rewrite Hadd. by apply F5.
    + intros k k' Hk Hk'. rewrite !Hadd. by apply F6.
  - destruct Hbm as [B1 B2 B3 B4]. split; try done. intros b Hb. rewrite Hu by done. by apply B4.
  - intros b Hb. rewrite Hu by done. by apply Hm.
  - intros b (Hb & Hbi & Hout). split; [by apply Hd|]. split_and!; [by apply Hdo|done|].
    intros k Hk. rewrite Hadd. by apply Hout.
  - intros o Hob. apply fbyte_ext; [by apply Hadd|]. intros Hz. by apply Hd, F3, Hz; apply off_block.
Qed.

Lemma nfree_iblock v j d : inode_home j → nfree (f_sb s0) (view_upd v (IBLOCK (i_inum j) (f_sb s0)) d) = nfree (f_sb s0) v.
Proof.
  intros [J1 J2 J3]. unfold nfree. f_equal. apply filter_ext_in. intros x Hx%list_elem_of_In%elem_of_seq.
  unfold used. rewrite view_upd_ne; [done|]. apply J3. lia.
Qed.

Lemma wp_iupdate l r v i (Q : unit → fs S → Prop) :
  ftx l r ∅ v i → inode_home i → 1 ≤ r →
  (∀ l', ftx l' (r - 1) ∅ (view_upd v (IBLOCK (i_inum i) (f_sb s0))
      (put_dinode (dinode_off (i_inum i)) i (v (IBLOCK (i_inum i) (f_sb s0))))) i →
    Q tt (mk l' i)) →
  wp (iupdate ip) Q (mk l i).
Proof.
  intros Hft Hih Hr HQ. pose proof Hft as [He Ht Hbm Hm Hf]. pose proof Hih as [J1 J2 J3].
  unfold iupdate, get_sb, inode_of. wp_step. wp_step. wp_step. wp_step. wp_step.
  rewrite mk_inode, (fo_dev _ _ _ Hf). change (f_sb (mk l i)) with (f_sb s0).
  set (ib := IBLOCK (i_inum i) (f_sb s0)) in *. pose proof J2 as [Hrng _].
  eapply wp_fbread; [exact Ht|by rewrite (ftx_len _ _ _ _ _ Hft)|done|rewrite map_size_empty; lia|].
  intros bp l1 _ Hx1 Ht1. change (with_log l1 (mk l i)) with (mk l1 i) in *.
  assert (He1 : log_ext (f_log s0) l1) by by eapply log_ext_trans.
  wp_step. eapply wp_fdata; [exact Ht1|apply lookup_insert_eq|].
  eapply wp_fupdate; [exact Ht1|apply lookup_insert_eq| | |lia|].
  { apply (homeb_geo s0); [by apply mk_geo|done]. }
  { apply put_dinode_ok; [apply dinode_off_bound; lia|apply Hf|].
    eapply txs_block_ok; [exact Ht|]. by rewrite (ftx_len _ _ _ _ _ Hft). }
  intros l2 Hx2 Ht2. change (with_log l2 (mk l1 i)) with (mk l2 i) in *.
  eapply wp_fbrelse; [exact Ht2|apply lookup_insert_eq|]. intros l3 Hx3 Ht3.
  change (with_log l3 (mk l2 i)) with (mk l3 i) in *.
  rewrite delete_insert_id in Ht3 by apply lookup_empty. apply HQ.
  destruct (write_iblock v i i (put_dinode (dinode_off (i_inum i)) i (v ib)) Hih Hf Hbm Hm)
    as (Hf' & Hbm' & Hm' & _ & _).
  split; try done. by eapply log_ext_trans, log_ext_trans.
Qed.
End bmap.
