(* ===== verification/FsFileProps.v ===== *)
(** * Properties of file content (fs.c: bmap, readi, writei, iupdate) *)

From S2P Require Import Prelude Words Params CString Locks BufIface Redo Log LogCrash LogInv Fs FsRules.
From S2P Require Import Ring Bio BioLaws FsRules FsBlocks FsFile.

Section props.
Context {S : Type} `{BufCacheLaws S} `{DevSw S}.
Implicit Types (s : fs S) (v : Z → block).

(** A transaction is open with room for [r] more blocks, the free map is
    consistent, and in-core inode [ip] is a regular file or directory whose
    blocks below its size are all allocated. *)
Record file_ready s (r : Z) v (ip : nat) : Prop := {
  fr_txs : txs s r ∅ v;
  fr_ip : (ip < length (ic_inode s))%nat;
  fr_bitmap : bitmap_ok s v;
  fr_meta : meta_ok s v;
  fr_file : file_ok s v (inoden s ip);
  fr_type : i_type (inoden s ip) ≠ T_DEV;
  fr_size : 0 ≤ i_size (inoden s ip) ≤ MAXFILE * BSIZE;
  fr_mapped : mapped v (inoden s ip) (i_size (inoden s ip))
}.

Lemma file_ready_ftx s r v ip :
  file_ready s r v ip → ftx s ip (f_log s) r ∅ v (inoden s ip) ∧ mk s ip (f_log s) (inoden s ip) = s.
Proof.
  intros [Ht Hip Hbm Hm Hf _ _ _]. pose proof (mk_id s ip Hip _ eq_refl) as Hmk.
  split; [|done]. split; try done. by rewrite Hmk.
Qed.

Lemma ftx_file_ready s ip l r v i :
  (ip < length (ic_inode s))%nat → ftx s ip l r ∅ v i → i_type i ≠ T_DEV →
  0 ≤ i_size i ≤ MAXFILE * BSIZE → mapped v i (i_size i) → file_ready (mk s ip l i) r v ip.
Proof.
  intros Hip [He Ht Hbm Hm Hf] Hty Hsz Hmap. pose proof (mk_geo s ip l i He) as Hg.
  split; rewrite ?(mk_inode s ip Hip); try done.
  - unfold mk. simpl. by rewrite length_insert.
  - by apply (bitmap_ok_geo s).
  - by apply (file_ok_geo s).
Qed.

Lemma wp_readi_file s r v ip off n :
  file_ready s r v ip → 0 ≤ r → 0 ≤ off ≤ i_size (inoden s ip) → 0 ≤ n → off + n < 2 ^ 32 →
  wp (readi ip off n) (λ '(res, bytes) s', res = Z.min n (i_size (inoden s ip) - off) ∧
    bytes = frange v (inoden s ip) off res ∧
    file_ready s' r v ip ∧ ∃ l, s' = with_log l s) s.
Proof.
  intros Hfr Hr Ho Hn Hw. destruct (file_ready_ftx s r v ip Hfr) as [Hft Hmk].
  pose proof Hfr as [_ Hip _ _ _ Hty Hsz Hmap].
  refine (eq_ind _ (wp _ _) _ _ Hmk). eapply wp_mono.
  { apply (wp_readi s ip Hip); [exact Hft|done|lia|lia|lia|lia|lia|done|done]. }
  intros [res bytes] s' (-> & -> & l' & -> & Hft'). split_and!; try done.
  - by apply ftx_file_ready.
  - exists l'. unfold mk, with_log. f_equal. apply list_insert_id. unfold inoden.
    by apply list_lookup_lookup_total_lt.
Qed.

Lemma iset_size_file s v i n : file_ok s v i → file_ok s v (iset_size n i).
Proof. by intros [? ? ? ? ? ?]. Qed.

(** What [writei] leaves: the file with [src] written at [off]. *)
Definition write_effect s v ip (src : list Z) (off : Z) s' v' : Prop :=
  (∀ o, 0 ≤ o < MAXFILE * BSIZE → fbyte v' (inoden s' ip) o =
     if decide (off ≤ o < off + Z.of_nat (length src)) then src !!! Z.to_nat (o - off)
     else fbyte v (inoden s ip) o) ∧
  i_size (inoden s' ip) = Z.max (i_size (inoden s ip)) (off + Z.of_nat (length src)) ∧
  i_type (inoden s' ip) = i_type (inoden s ip) ∧
  (∀ b, outside s v (inoden s ip) b → v' b = v b ∧ outside s v' (inoden s' ip) b).

Lemma mapped_written s v i v' i' src off len n :
  written s v i v' i' src off 0 len → mapped v i n → 0 ≤ off ≤ n → 0 ≤ len →
  n ≤ MAXFILE * BSIZE → off + len ≤ MAXFILE * BSIZE → mapped v' i' (Z.max n (off + len)).
Proof.
  intros Hw Hmap Ho Hl Hn1 Hn2 k Hk Hkn.
  assert (Hkm : 0 ≤ k < MAXFILE) by (unfold BSIZE in *; lia).
  apply (wr_mapped _ _ _ _ _ _ _ _ _ Hw k Hkm).
  destruct (decide (k * BSIZE < n)) as [Hlt|Hge]; [left; by apply Hmap|right].
  exists (k * BSIZE). split; [lia|]. by apply Z.div_mul.
Qed.

Lemma mapped_ext v i v' i' n :
  (∀ k, addr_of v' i' k = addr_of v i k) → mapped v i n → mapped v' i' n.
Proof. intros Ha Hm k Hk Hn. rewrite Ha. by apply Hm. Qed.

(** The tail of [writei]: grow the size and write the inode back. *)
Lemma wp_writei_size s ip l r v i off n :
  (ip < length (ic_inode s))%nat → ftx s ip l r ∅ v i → inode_home s i → 1 ≤ r → 0 < n →
  wp (j ← inode_of ip;
      whenM ((0 <? n) && (i_size j <? off)) (modify (iupd ip (iset_size off)) ;; iupdate ip) ;; ret n)
    (λ res s', res = n ∧ ∃ l' v' i', s' = mk s ip l' i' ∧ ftx s ip l' (r - 1) ∅ v' i' ∧
       i_size i' = Z.max (i_size i) off ∧ i_type i' = i_type i ∧ ind_of i' = ind_of i ∧
       (∀ k, addr_of v' i' k = addr_of v i k) ∧
       (∀ o, 0 ≤ o < MAXFILE * BSIZE → fbyte v' i' o = fbyte v i o) ∧
       (∀ b, outside s v i b → v' b = v b ∧ outside s v' i' b) ∧
       (i_inum i' = i_inum i ∧ i_lock i' = i_lock i ∧ i_ref i' = i_ref i ∧ i_valid i' = i_valid i) ∧
       nfree (f_sb s) v' = nfree (f_sb s) v) (mk s ip l i).
Proof.
  intros Hip Hft Hih Hr Hn. pose proof Hft as [He Ht Hbm Hm Hf].
  unfold inode_of. wp_step. wp_step. rewrite (mk_inode s ip Hip).
  rewrite (proj2 (Z.ltb_lt 0 n)) by done. cbn [andb]. wp_step. unfold whenM.
  destruct (i_size i <? off) eqn:E; bool_props.
  - wp_step. wp_step. rewrite (mk_iupd s ip Hip). set (i1 := iset_size off i).
    assert (Hft1 : ftx s ip l r ∅ v i1).
    { split; try done; [by eapply txs_log; [|exact Ht]|by apply iset_size_file]. }
    eapply (wp_iupdate s ip Hip l r v i1); [done|by destruct Hih|done|].
    intros l' Hft'. wp_step. split; [done|].
    destruct (write_iblock s ip Hip v i i (put_dinode (dinode_off (i_inum i1)) i1 (v (IBLOCK (i_inum i1) (f_sb s))))
      Hih Hf Hbm Hm) as (Hf' & _ & _ & Hout & Hby).
    eexists l', _, i1. split; [done|]. split; [exact Hft'|]. split_and!; try done; [simpl; lia| |apply (nfree_iblock s ip); by destruct Hih].
    intros k. change (addr_of v i k) with (addr_of v i1 k). apply addr_of_view. intros Hi.
    apply view_upd_ne.
    by apply not_eq_sym, (do_inode _ _ _ (fo_ind _ _ _ Hf Hi)), Hih.
  - wp_step. wp_step. split; [done|]. exists l, v, i. split; [done|].
    split; [eapply ftx_weaken; [exact Hft|lia]|]. split_and!; try done; lia.
Qed.

(** The in-core inode apart from size and blocks, and the rest of the state. *)
Definition same_place s ip s' : Prop :=
  (i_inum (inoden s' ip) = i_inum (inoden s ip) ∧ i_lock (inoden s' ip) = i_lock (inoden s ip) ∧
   i_ref (inoden s' ip) = i_ref (inoden s ip) ∧ i_valid (inoden s' ip) = i_valid (inoden s ip)) ∧
  f_pid s' = f_pid s ∧ ic_lock s' = ic_lock s ∧ log_ext (f_log s) (f_log s') ∧ f_sb s' = f_sb s.

Lemma wp_writei_full s r v ip src off :
  file_ready s r v ip → inode_home s (inoden s ip) → Forall is_byte src → src ≠ [] →
  0 ≤ off ≤ i_size (inoden s ip) → off + Z.of_nat (length src) ≤ MAXFILE * BSIZE →
  6 * nblocks off (Z.of_nat (length src)) + 1 ≤ r →
  2 * nblocks off (Z.of_nat (length src)) ≤ Z.of_nat (nfree (f_sb s) v) →
  wp (writei ip src off (Z.of_nat (length src))) (λ res s', res = Z.of_nat (length src) ∧
    ∃ v', file_ready s' (r - 6 * nblocks off (Z.of_nat (length src)) - 1) v' ip ∧
      write_effect s v ip src off s' v' ∧ same_place s ip s' ∧
      (nfree (f_sb s) v ≤ 2 * Z.to_nat (nblocks off (Z.of_nat (length src))) + nfree (f_sb s) v')%nat) s.
Proof.
  intros Hfr Hih Hsb Hne Ho Hmx Hr Hnf. destruct (file_ready_ftx s r v ip Hfr) as [Hft Hmk].
  pose proof Hfr as [_ Hip _ _ _ Hty Hsz Hmap].
  set (i := inoden s ip) in *. set (n := Z.of_nat (length src)) in *.
  assert (Hn : 0 < n) by (destruct src; [done|unfold n; simpl; lia]).
  refine (eq_ind _ (wp _ _) _ _ Hmk). unfold writei, inode_of. wp_step. wp_step. rewrite (mk_inode s ip Hip). fold i.
  rewrite (proj2 (Z.eqb_neq _ _)) by done. rewrite (u32_id (off + n)) by (unfold is_u32; fslia).
  rewrite (proj2 (Z.ltb_ge (i_size i) off)), (proj2 (Z.ltb_ge (off + n) off)),
    (proj2 (Z.ltb_ge (MAXFILE * BSIZE) (off + n))) by lia. cbn [orb]. wp_step.
  eapply wp_mono.
  { apply (wp_writei_loop s ip Hip (io_fuel n) (f_log s) r v i src off n 0 Hft); rewrite ?Z.sub_0_r;
      try done; try lia. unfold io_fuel. pose proof (nblocks_fuel off n ltac:(lia)).
    pose proof (Z.div_pos n BSIZE ltac:(lia) ltac:(done)). lia. }
  rewrite Z.sub_0_r. intros res s1 (-> & l1 & v1 & i1 & -> & Hft1 & Hw & Hn1).
  pose proof (wr_same _ _ _ _ _ _ _ _ _ Hw) as (E1 & E2 & E3 & E4 & E5 & E6 & E7 & E8 & E9 & E10).
  eapply wp_mono.
  { apply (wp_writei_size s ip l1 _ v1 i1 (off + n) n Hip Hft1); [|lia|done].
    destruct Hih as [J1 J2 J3]. split; by rewrite E2. }
  intros res s2 (-> & l2 & v2 & i2 & -> & Hft2 & Hsz2 & Hty2 & _ & Hadd2 & Hby2 & Hout2 & (K1 & K2 & K3 & K4) & Hn2).
  split; [done|]. exists v2. split; [|split].
  - apply ftx_file_ready; [done|exact Hft2|by rewrite Hty2, E6|rewrite Hsz2, E7; lia|].
    eapply mapped_ext; [exact Hadd2|]. rewrite Hsz2, E7.
    eapply mapped_written; [exact Hw|done|lia|lia|lia|lia].
  - unfold write_effect. rewrite (mk_inode s ip Hip). fold i n. split_and!.
    + intros o Hob. rewrite Hby2, (wr_bytes _ _ _ _ _ _ _ _ _ Hw) by done.
      by case_decide; [rewrite Z.add_0_l|].
    + by rewrite Hsz2, E7.
    + by rewrite Hty2, E6.
    + intros b Hb. destruct (wr_frame _ _ _ _ _ _ _ _ _ Hw b Hb) as [<- Hb1]. by apply Hout2.
  - split; [|lia]. unfold same_place. rewrite (mk_inode s ip Hip). fold i. rewrite K1, K2, K3, K4. split_and!; try done.
    apply Hft2.
Qed.

Lemma wp_writei_file s r v ip src off :
  file_ready s r v ip → inode_home s (inoden s ip) → Forall is_byte src → src ≠ [] →
  0 ≤ off ≤ i_size (inoden s ip) → off + Z.of_nat (length src) ≤ MAXFILE * BSIZE →
  6 * nblocks off (Z.of_nat (length src)) + 1 ≤ r →
  2 * nblocks off (Z.of_nat (length src)) ≤ Z.of_nat (nfree (f_sb s) v) →
  wp (writei ip src off (Z.of_nat (length src))) (λ res s', res = Z.of_nat (length src) ∧
    ∃ v', file_ready s' (r - 6 * nblocks off (Z.of_nat (length src)) - 1) v' ip ∧
      write_effect s v ip src off s' v') s.
Proof.
  intros. eapply wp_mono; [by apply (wp_writei_full s r v ip src off)|].
  intros res s' (-> & v' & Hfr & He & _). split; [done|]. by exists v'.
Qed.

Lemma frange_written s v ip src off s' v' :
  write_effect s v ip src off s' v' → 0 ≤ off → off + Z.of_nat (length src) ≤ MAXFILE * BSIZE →
  frange v' (inoden s' ip) off (Z.of_nat (length src)) = src.
Proof.
  intros (Hby & _) Ho Hmx. apply list_eq. intros j. unfold frange. rewrite list_lookup_fmap, Nat2Z.id.
  destruct (decide (j < length src)%nat) as [Hj|Hj].
  - rewrite lookup_seq_lt by done. simpl. rewrite Hby, decide_True by lia.
    symmetry. rewrite list_lookup_lookup_total_lt by done. do 2 f_equal. lia.
  - rewrite lookup_seq_ge by lia. symmetry. apply lookup_ge_None. lia.
Qed.

(** ** Properties *)

(** [readi] of an ordinary file returns the number of bytes that are there,
    at most [n], and stores exactly those bytes of the file; neither the file
    nor anything else in the file system changes. *)
Theorem readi_correct s r v ip off n :
  file_ready s r v ip → 0 ≤ r → 0 ≤ off ≤ i_size (inoden s ip) → 0 ≤ n → off + n < 2 ^ 32 →
  wp (readi ip off n) (λ '(res, bytes) s', res = Z.min n (i_size (inoden s ip) - off) ∧
    bytes = frange v (inoden s ip) off res ∧
    file_ready s' r v ip ∧ ∃ l, s' = with_log l s) s.
Proof. apply wp_readi_file. Qed.


(** What is written is read back: a [writei] of [src] followed by a [readi]
    of as many bytes at the same offset returns [src]. *)
Theorem readi_after_writei s r v ip src off :
  file_ready s r v ip → inode_home s (inoden s ip) → Forall is_byte src → src ≠ [] →
  0 ≤ off ≤ i_size (inoden s ip) → off + Z.of_nat (length src) ≤ MAXFILE * BSIZE →
  6 * nblocks off (Z.of_nat (length src)) + 1 ≤ r →
  2 * nblocks off (Z.of_nat (length src)) ≤ Z.of_nat (nfree (f_sb s) v) →
  wp (n ← writei ip src off (Z.of_nat (length src)); readi ip off n)
    (λ '(res, bytes) s', res = Z.of_nat (length src) ∧ bytes = src) s.
Proof.
  intros Hfr Hih Hsb Hne Ho Hmx Hr Hnf. wp_step.
  eapply wp_mono; [by apply (wp_writei_file s r v ip src off)|].
  intros n s' (-> & v' & Hfr' & Heff). pose proof Heff as (_ & Hsz & _).
  eapply wp_mono; [apply (wp_readi_file s' _ v' ip off (Z.of_nat (length src)) Hfr'); try lia; fslia|].
  intros [res bytes] s2 (-> & -> & _). rewrite Hsz.
  replace (Z.min _ _) with (Z.of_nat (length src)) by lia. split; [done|].
  by eapply frange_written; [exact Heff|lia|].
Qed.
End props.

(** ** Witnesses: the file "f" of the demonstration image, open as inode 0 *)

Definition demo_inode : inode :=
  Inode ROOTDEV 2 1 (Sleeplock true false 7) true T_FILE 0 0 1 5 (35 :: replicate 12 0).
Definition demo_open : fs bst :=
  with_ic_inode (<[0%nat := demo_inode]> (ic_inode demo_fs)) demo_fs.

Lemma demo_addr k : 0 ≤ k < MAXFILE → addr_of demo_view demo_inode k = if decide (k = 0) then 35 else 0.
Proof.
  intros Hk. pose proof (below (λ k, addr_of demo_view demo_inode k =? (if k =? 0 then 35 else 0)) 140
    ltac:(vm_compute; reflexivity) k Hk) as E. cbn beta in E. bool_props. rewrite E.
  destruct (k =? 0) eqn:Ek; bool_props; [by rewrite decide_True|by rewrite decide_False].
Qed.

Lemma demo_iblock n : 0 ≤ n < 8 → IBLOCK n demo_sb = 32.
Proof.
  intros Hn. pose proof (below (λ n, IBLOCK n demo_sb =? 32) 8 ltac:(vm_compute; reflexivity) n Hn) as E.
  cbn beta in E. by bool_props.
Qed.

Lemma demo_bblock n : 0 ≤ n < 50 → BBLOCK n demo_sb = 33.
Proof.
  intros Hn. pose proof (below (λ n, BBLOCK n demo_sb =? 33) 50 ltac:(vm_compute; reflexivity) n Hn) as E.
  cbn beta in E. by bool_props.
Qed.

Lemma demo_data35 : data_ok demo_fs demo_view 35.
Proof.
  split.
  - simpl. lia.
  - vm_compute. reflexivity.
  - apply demo_home. lia.
  - intros c Hc. change (f_sb demo_fs) with demo_sb. rewrite (demo_bblock c Hc). lia.
  - intros n Hn. change (f_sb demo_fs) with demo_sb. rewrite (demo_iblock n Hn). lia.
Qed.

Lemma demo_file_ok : file_ok demo_fs demo_view demo_inode.
Proof.
  split; try done.
  - intros k Hk. rewrite demo_addr by done. case_decide; [|done]. intros _. apply demo_data35.
  - intros k k' Hk Hk'. rewrite !demo_addr by done. repeat case_decide; try done. by subst.
Qed.

Lemma demo_meta_ok : meta_ok demo_fs demo_view.
Proof.
  intros b Hb Hu. change (sb_size (f_sb demo_fs)) with 50 in Hb. change (f_sb demo_fs) with demo_sb in *.
  pose proof (below (λ b, used demo_sb demo_view b || (36 <=? b)) 50
    ltac:(vm_compute; reflexivity) b Hb) as Hk. cbn beta in Hk. rewrite Hu in Hk. simpl in Hk.
  bool_props. split; [lia|]. intros n Hn. rewrite (demo_iblock n Hn). lia.
Qed.

Lemma geo_ic {S} `{BufCache S} (s : fs S) l : geo (with_ic_inode l s) = geo s.
Proof. reflexivity. Qed.

Lemma demo_geo : geo demo_open = geo demo_fs.
Proof. apply geo_ic. Qed.

Lemma demo_open_inode : inoden demo_open 0 = demo_inode.
Proof. reflexivity. Qed.

Lemma demo_ready : file_ready demo_open 29 demo_view 0.
Proof.
  split; rewrite ?demo_open_inode.
  - apply (txs_log demo_fs); [reflexivity|apply demo_txs].
  - simpl. lia.
  - apply (bitmap_ok_geo demo_fs _ _ demo_geo), demo_bitmap_ok.
  - apply (meta_ok_geo demo_fs _ _ demo_geo), demo_meta_ok.
  - apply (file_ok_geo demo_fs _ _ _ demo_geo), demo_file_ok.
  - done.
  - simpl. fslia.
  - intros k Hk Hkn. simpl in Hkn. rewrite demo_addr by fslia. rewrite decide_True by fslia. lia.
Qed.

Lemma demo_inode_home : inode_home demo_open (inoden demo_open 0).
Proof.
  rewrite demo_open_inode. split.
  - simpl. lia.
  - apply (homeb_geo demo_fs _ _ demo_geo), demo_home. vm_compute. intuition congruence.
  - intros c Hc. change (f_sb demo_open) with demo_sb. rewrite (demo_bblock c Hc).
    rewrite demo_iblock by (simpl; lia). lia.
Qed.

Lemma readi_correct_witness :
  wp (readi 0 1 3) (λ '(res, bytes) s', res = Z.min 3 (5 - 1) ∧
    bytes = frange demo_view demo_inode 1 res ∧
    file_ready s' 29 demo_view 0 ∧ ∃ l, s' = with_log l demo_open) demo_open.
Proof.
  apply (readi_correct demo_open 29 demo_view 0 1 3 demo_ready); rewrite ?demo_open_inode; simpl; lia.
Defined.


Lemma readi_after_writei_witness :
  wp (n ← writei 0 [33; 33] 5 2; readi 0 5 n)
    (λ '(res, bytes) s', res = 2 ∧ bytes = [33; 33]) demo_open.
Proof.
  apply (readi_after_writei demo_open 29 demo_view 0 [33; 33] 5 demo_ready demo_inode_home);
    rewrite ?demo_open_inode; simpl; try (unfold is_byte; repeat constructor; lia); try done.
Defined.
