(* ===== verification/FsInode.v ===== *)
(** * The inode cache and path names (fs.c: iget, idup, ilock, skipelem) *)

From S2P Require Import Prelude Words Params CString Locks BufIface Redo Log LogCrash LogInv Fs FsRules.
From S2P Require Import Ring Bio BioLaws FsRules FsBlocks FsFile.

(** ** The inode cache *)

Section icache.
Context {S : Type} `{BufCache S} `{DevSw S}.
Implicit Types s : fs S.

(** Slot [i] holds a reference to inode [(dev, inum)]. *)
Definition caches s (i : nat) (dev inum : Z) : Prop :=
  (i < length (ic_inode s))%nat ∧ 0 < i_ref (inoden s i) ∧
  i_dev (inoden s i) = dev ∧ i_inum (inoden s i) = inum.

(** Reference counts are not negative, and no inode is cached twice. *)
Record ic_ok s : Prop := {
  ik_lock : ic_lock s = false;
  ik_ref : ∀ i, (i < length (ic_inode s))%nat → 0 ≤ i_ref (inoden s i);
  ik_uniq : ∀ i j dev inum, caches s i dev inum → caches s j dev inum → i = j
}.

Lemma iget_scan_inl l k dev inum e i :
  iget_scan l k dev inum e = inl i →
  (k ≤ i < k + length l)%nat ∧ ∃ x, l !! (i - k)%nat = Some x ∧ 0 < i_ref x ∧ i_dev x = dev ∧ i_inum x = inum.
Proof.
  revert k e. induction l as [|x l IH]; intros k e; cbn [iget_scan]; [done|].
  destruct ((0 <? i_ref x) && (i_dev x =? dev) && (i_inum x =? inum)) eqn:E.
  - intros [= <-]. bool_props. simpl. split; [lia|]. exists x.
    replace (k - k)%nat with 0%nat by lia. done.
  - intros (Hi & y & Hy & Hrest)%IH. simpl. split; [lia|]. exists y. split; [|done].
    replace (i - k)%nat with (Datatypes.S (i - Datatypes.S k))%nat by lia. done.
Qed.

Lemma iget_scan_inr l k dev inum e r :
  iget_scan l k dev inum e = inr r →
  (∀ i x, l !! i = Some x → ¬ (0 < i_ref x ∧ i_dev x = dev ∧ i_inum x = inum)) ∧
  (r = match e with
       | Some _ => e
       | None => match List.find (λ p, i_ref p.2 =? 0) (zip (seq k (length l)) l) with
                 | Some p => Some p.1 | None => None end
       end).
Proof.
  revert k e. induction l as [|x l IH]; intros k e; cbn [iget_scan].
  - intros [= <-]. split; [done|]. by destruct e.
  - destruct ((0 <? i_ref x) && (i_dev x =? dev) && (i_inum x =? inum)) eqn:E; [done|].
    intros [Hn Hr]%IH. split.
    + intros [|i] y Hy; [|by apply (Hn i)]. injection Hy as <-. bool_props; lia.
    + rewrite Hr. destruct e; [done|]. cbn [length seq zip_with zip List.find fst snd].
      by destruct (i_ref x =? 0).
Qed.

Lemma find_zip_seq {A} (p : A → bool) l k i :
  (match List.find (λ q, p q.2) (zip (seq k (length l)) l) with Some q => Some q.1 | None => None end)
    = Some i →
  (k ≤ i < k + length l)%nat ∧ ∃ x, l !! (i - k)%nat = Some x ∧ p x = true ∧
    ∀ j y, l !! j = Some y → (j < i - k)%nat → p y = false.
Proof.
  revert k. induction l as [|x l IH]; intros k; [done|].
  cbn [length seq zip_with zip List.find snd]. destruct (p x) eqn:E.
  - intros [= <-]. split; [simpl; lia|]. exists x. replace (k - k)%nat with 0%nat by lia.
    split_and!; try done. intros; lia.
  - intros (Hi & y & Hy & Hp & Hall)%IH. split; [simpl; lia|]. exists y.
    replace (i - k)%nat with (Datatypes.S (i - Datatypes.S k))%nat by lia. split_and!; try done.
    intros [|j] z Hz Hj; [by injection Hz as <-|]. eapply Hall; [exact Hz|lia].
Qed.

Lemma find_zip_none {A} (p : A → bool) l k :
  (match List.find (λ q, p q.2) (zip (seq k (length l)) l) with Some q => Some q.1 | None => None end)
    = None → ∀ i x, l !! i = Some x → p x = false.
Proof.
  revert k. induction l as [|y l IH]; intros k; [done|].
  cbn [length seq zip_with zip List.find snd]. destruct (p y) eqn:E; [done|].
  intros Hn [|i] x Hx; [by injection Hx as <-|]. by eapply IH.
Qed.

Lemma wp_ic_acquire s (Q : unit → fs S → Prop) :
  ic_lock s = false → Q tt (with_ic_lock true s) → wp ic_acquire Q s.
Proof. intros Hl HQ. unfold wp, ic_acquire, zoom, spin_acquire. by rewrite Hl. Qed.

Lemma wp_ic_release s (Q : unit → fs S → Prop) :
  ic_lock s = true → Q tt (with_ic_lock false s) → wp ic_release Q s.
Proof. intros Hl HQ. unfold wp, ic_release, zoom, spin_release. by rewrite Hl. Qed.

Lemma locked_iupd s i f :
  ic_lock s = false → with_ic_lock false (iupd i f (with_ic_lock true s)) = iupd i f s.
Proof. destruct s. simpl. by intros ->. Qed.

Lemma inoden_iupd s i f j :
  (i < length (ic_inode s))%nat →
  inoden (iupd i f s) j = if decide (j = i) then f (inoden s i) else inoden s j.
Proof.
  intros Hi. unfold inoden, iupd, with_ic_inode. simpl. case_decide.
  - subst. by apply list_lookup_total_insert_eq.
  - by apply list_lookup_total_insert_ne.
Qed.

Lemma length_iupd s i f : length (ic_inode (iupd i f s)) = length (ic_inode s).
Proof. unfold iupd, with_ic_inode. simpl. apply length_insert. Qed.

Lemma lookup_inoden s i x : ic_inode s !! i = Some x ↔ (i < length (ic_inode s))%nat ∧ inoden s i = x.
Proof.
  unfold inoden. split.
  - intros Hx. split; [by eapply lookup_lt_Some|]. by apply list_lookup_total_correct.
  - intros [Hl <-]. by apply list_lookup_lookup_total_lt.
Qed.

(** Adding a reference to a slot that has one. *)
Lemma ic_ok_ref s i n :
  ic_ok s → (i < length (ic_inode s))%nat → 0 < i_ref (inoden s i) → 0 ≤ n →
  ic_ok (iupd i (iset_ref n) s).
Proof.
  intros [Hl Hr Hu] Hi Hpos Hn.
  assert (Hc : ∀ j dev inum, caches (iupd i (iset_ref n) s) j dev inum → caches s j dev inum).
  { intros j dev inum (Hj & Hrj & Hd & Hi'). rewrite length_iupd in Hj.
    rewrite !inoden_iupd in * by done. unfold caches. case_decide; subst; simpl in *; by split_and!. }
  split; [done| |].
  - intros j Hj. rewrite length_iupd in Hj. rewrite inoden_iupd by done. case_decide; [done|by apply Hr].
  - intros j k dev inum Hj%Hc Hk%Hc. by eapply Hu.
Qed.

(** Filling an empty slot with an inode that is not cached. *)
Lemma ic_ok_fill s i f dev inum :
  ic_ok s → (i < length (ic_inode s))%nat → (∀ j, ¬ caches s j dev inum) →
  (∀ x, i_dev (f x) = dev ∧ i_inum (f x) = inum ∧ i_ref (f x) = 1) → ic_ok (iupd i f s).
Proof.
  intros [Hl Hr Hu] Hi Hn Hf. destruct (Hf (inoden s i)) as (F1 & F2 & F3). split; [done| |].
  - intros j Hj. rewrite length_iupd in Hj. rewrite inoden_iupd by done. case_decide; [lia|by apply Hr].
  - intros j k d n (Hj & Hrj & Hdj & Hij) (Hk & Hrk & Hdk & Hik). rewrite length_iupd in *.
    rewrite !inoden_iupd in * by done.
    destruct (decide (j = i)) as [->|Hji], (decide (k = i)) as [->|Hki].
    + done.
    + destruct (Hn k). split_and!; congruence.
    + destruct (Hn j). split_and!; congruence.
    + eapply (Hu j k d n); by split_and!.
Qed.

Lemma wp_iget s dev inum :
  ic_ok s →
  (∃ i, caches s i dev inum) ∨ (∃ i, (i < length (ic_inode s))%nat ∧ i_ref (inoden s i) = 0) →
  wp (iget dev inum) (λ ip s', ic_ok s' ∧ caches s' ip dev inum ∧
    (∀ j, j ≠ ip → inoden s' j = inoden s j) ∧
    ((caches s ip dev inum ∧ inoden s' ip = iset_ref (i_ref (inoden s ip) + 1) (inoden s ip)) ∨
     ((∀ j, ¬ caches s j dev inum) ∧ i_ref (inoden s ip) = 0 ∧
      (∀ j, (j < ip)%nat → i_ref (inoden s j) ≠ 0) ∧
      i_ref (inoden s' ip) = 1 ∧ i_valid (inoden s' ip) = false))) s.
Proof.
  intros Hok Hex. pose proof (ik_lock s Hok) as Hlk. unfold iget. wp_step.
  apply wp_ic_acquire; [done|]. wp_step. wp_step. change (ic_inode (with_ic_lock true s)) with (ic_inode s).
  destruct (iget_scan (ic_inode s) 0 dev inum None) as [ip|r] eqn:E.
  - apply iget_scan_inl in E as (Hip & x & Hx & Hr & Hd & Hn). rewrite Nat.sub_0_r in Hx.
    apply lookup_inoden in Hx as [Hl <-]. wp_steps. apply wp_ic_release; [done|]. wp_steps.
    rewrite locked_iupd by done. change (inoden (with_ic_lock true s) ip) with (inoden s ip).
    split_and!.
    + apply ic_ok_ref; [done|done|done|lia].
    + unfold caches. rewrite length_iupd, inoden_iupd, decide_True by done. simpl. split_and!; (done || lia).
    + intros j Hj. rewrite inoden_iupd by done. by rewrite decide_False.
    + left. split; [by split_and!|]. rewrite inoden_iupd by done. by rewrite decide_True.
  - apply iget_scan_inr in E as [Hn Hr].
    assert (Hnc : ∀ j, ¬ caches s j dev inum).
    { intros j (Hj & Hrj & Hdj & Hij). apply (Hn j (inoden s j)); [by apply lookup_inoden|done]. }
    destruct r as [ip|]; symmetry in Hr.
    + apply (find_zip_seq (λ x, i_ref x =? 0)) in Hr as (Hip & x & Hx & Hp & Hall).
      rewrite Nat.sub_0_r in Hx. apply lookup_inoden in Hx as [Hl <-]. bool_props.
      wp_steps. apply wp_ic_release; [done|]. wp_steps. rewrite locked_iupd by done. split_and!.
      * eapply ic_ok_fill; [done|done|exact Hnc|done].
      * unfold caches. rewrite length_iupd, inoden_iupd, decide_True by done. simpl. split_and!; (done || lia).
      * intros j Hj. rewrite inoden_iupd by done. by rewrite decide_False.
      * right. rewrite inoden_iupd, decide_True by done. split_and!; try done.
        intros j Hj. assert (Hz : (i_ref (inoden s j) =? 0) = false).
        { apply (Hall j (inoden s j)); [|lia]. apply lookup_inoden. split; [lia|done]. }
        by bool_props.
    + exfalso. destruct Hex as [[i Hi]|(i & Hi & Hz)]; [by apply (Hnc i)|].
      pose proof (find_zip_none (λ x, i_ref x =? 0) _ _ Hr i (inoden s i)) as Hf.
      cbn beta in Hf. rewrite Hz in Hf. discriminate Hf. by apply lookup_inoden.
Qed.

(** ** Properties of iget *)

(** [iget] returns a referenced slot for the inode.  If the inode is cached
    its slot gets one more reference; otherwise, if a slot is empty, the first
    empty one is taken with one reference and marked as not read yet.  No
    other slot changes and no inode is ever cached twice. *)
Theorem iget_correct s dev inum :
  ic_ok s →
  (∃ i, caches s i dev inum) ∨ (∃ i, (i < length (ic_inode s))%nat ∧ i_ref (inoden s i) = 0) →
  wp (iget dev inum) (λ ip s', ic_ok s' ∧ caches s' ip dev inum ∧
    (∀ j, j ≠ ip → inoden s' j = inoden s j) ∧
    ((caches s ip dev inum ∧ inoden s' ip = iset_ref (i_ref (inoden s ip) + 1) (inoden s ip)) ∨
     ((∀ j, ¬ caches s j dev inum) ∧ i_ref (inoden s ip) = 0 ∧
      (∀ j, (j < ip)%nat → i_ref (inoden s j) ≠ 0) ∧
      i_ref (inoden s' ip) = 1 ∧ i_valid (inoden s' ip) = false))) s.
Proof. apply wp_iget. Qed.
End icache.

(** ** Path names *)

(** The elements of a path: its maximal runs of bytes other than slash. *)
Fixpoint elements (cur : list Z) (path : list Z) : list (list Z) :=
  match path with
  | [] => if decide (cur = []) then [] else [cur]
  | c :: p =>
      if c =? slash then (if decide (cur = []) then elements [] p else cur :: elements [] p)
      else elements (cur ++ [c]) p
  end.
Definition components (path : list Z) : list (list Z) := elements [] path.

Lemma components_skip path : components (skip_slashes path) = components path.
Proof.
  induction path as [|c p IH]; [done|]. cbn [skip_slashes]. destruct (c =? slash) eqn:E; [|done].
  rewrite IH. unfold components. cbn [elements]. rewrite E. done.
Qed.

Lemma skip_slashes_head path : ∀ c p, skip_slashes path = c :: p → c ≠ slash.
Proof.
  induction path as [|x path IH]; cbn [skip_slashes]; [done|]. destruct (x =? slash) eqn:E; [done|].
  intros c p [= <- _]. by bool_props.
Qed.

Lemma length_skip_slashes path : (length (skip_slashes path) ≤ length path)%nat.
Proof.
  induction path as [|c p IH]; [done|]. cbn [skip_slashes]. destruct (c =? slash); simpl in *; lia.
Qed.

Lemma take_elem_spec cur path :
  let '(e, rest) := take_elem path in
  Forall (λ c, c ≠ slash) e ∧ path = e ++ rest ∧ (∀ c p, rest = c :: p → c = slash) ∧
  elements cur path = (if decide (cur ++ e = []) then [] else [cur ++ e]) ++ components rest.
Proof.
  revert cur. induction path as [|c p IH]; intros cur; cbn [take_elem].
  - split_and!; try done. change (components []) with (@nil (list Z)). rewrite !app_nil_r. done.
  - destruct (c =? slash) eqn:E.
    + bool_props. split_and!; try done; [by intros ? ? [= <- _]|]. rewrite app_nil_r.
      cbn [elements]. subst. change (slash =? slash) with true. cbn match.
      unfold components at 1. cbn [elements]. change (slash =? slash) with true. cbn match.
      by case_decide.
    + specialize (IH (cur ++ [c])). destruct (take_elem p) as [e rest].
      destruct IH as (I1 & I2 & I3 & I4). bool_props. split_and!; [by constructor|by rewrite I2|done|].
      cbn [elements]. rewrite (proj2 (Z.eqb_neq _ _)) by done. rewrite I4, <- (assoc_L app). done.
Qed.

(** The two ways [skipelem] fills the name array. *)
Lemma name_store e name :
  length name = Z.to_nat DIRSIZ →
  let name' := if DIRSIZ <=? Z.of_nat (length e) then splice 0 (take (Z.to_nat DIRSIZ) e) name
               else splice 0 (e ++ [0]) name in
  length name' = Z.to_nat DIRSIZ ∧ take (length e) name' = take (Z.to_nat DIRSIZ) e ∧
  ((length e < Z.to_nat DIRSIZ)%nat → name' !! length e = Some 0).
Proof.
  intros Hlen name'. unfold name'. destruct (DIRSIZ <=? Z.of_nat (length e)) eqn:E; bool_props.
  - assert (Ht : length (take (Z.to_nat DIRSIZ) e) = Z.to_nat DIRSIZ) by (rewrite length_take; lia).
    assert (Hs : splice 0 (take (Z.to_nat DIRSIZ) e) name = take (Z.to_nat DIRSIZ) e).
    { unfold splice. simpl. rewrite drop_ge, app_nil_r; [done|]. rewrite Ht, Hlen. done. }
    rewrite Hs. split_and!; [done| |lia]. apply take_ge. rewrite Ht. lia.
  - assert (Hl : length (e ++ [0]) = Datatypes.S (length e)) by (rewrite length_app; simpl; lia).
    split_and!.
    + rewrite length_splice; [done|]. rewrite Hl, Hlen. lia.
    + unfold splice. rewrite take_0, app_nil_l, <- (assoc_L app), take_app_length.
      symmetry. apply take_ge. lia.
    + intros _. rewrite lookup_splice_in by (rewrite ?Hl; lia).
      rewrite Nat.sub_0_r. apply list_lookup_middle. done.
Qed.

(** [skipelem] peels off path elements.  It returns null exactly when the
    path has no element left; otherwise what it returns has the remaining
    elements, starts with no slash and is shorter, and the name array starts
    with the first DIRSIZ bytes of the element, terminated when it is shorter. *)
Theorem skipelem_components path name :
  length name = Z.to_nat DIRSIZ →
  match skipelem path name with
  | None => components path = []
  | Some (rest, name') =>
      ∃ e, components path = e :: components rest ∧ e ≠ [] ∧
        (∀ c p, rest = c :: p → c ≠ slash) ∧ (length rest < length path)%nat ∧
        length name' = Z.to_nat DIRSIZ ∧
        take (length e) name' = take (Z.to_nat DIRSIZ) e ∧
        ((length e < Z.to_nat DIRSIZ)%nat → name' !! length e = Some 0)
  end.
Proof.
  intros Hlen. unfold skipelem. pose proof (components_skip path) as Hc.
  pose proof (skip_slashes_head path) as Hhd. pose proof (length_skip_slashes path) as Hsl.
  destruct (skip_slashes path) as [|c p] eqn:Ep; [by rewrite <- Hc|].
  pose proof (take_elem_spec [] (c :: p)) as Ht. destruct (take_elem (c :: p)) as [e rest] eqn:Et.
  destruct Ht as (T1 & T2 & T3 & T4). rewrite app_nil_l in T4. fold (components (c :: p)) in T4.
  assert (He : e ≠ []).
  { intros ->. apply (Hhd c p eq_refl). by apply (T3 c p). }
  rewrite decide_False in T4 by done. pose proof (length_skip_slashes rest) as Hr.
  assert (Hel : (length rest < length path)%nat).
  { apply (f_equal length) in T2. rewrite length_app in T2. destruct e; [done|]. simpl in *. lia. }
  destruct (name_store e name Hlen) as (N1 & N2 & N3).
  exists e. split_and!; try done.
  - rewrite <- Hc, T4. simpl. by rewrite components_skip.
  - apply skip_slashes_head.
  - lia.
Qed.

Definition demo_name : list Z := replicate (Z.to_nat DIRSIZ) 0.
Definition demo_path : list Z := [slash; 97; slash; slash; 98; 98].
Lemma skipelem_components_witness :
  match skipelem demo_path demo_name with
  | None => components demo_path = []
  | Some (rest, name') =>
      ∃ e, components demo_path = e :: components rest ∧ e ≠ [] ∧
        (∀ c p, rest = c :: p → c ≠ slash) ∧
        (length rest < length demo_path)%nat ∧
        length name' = Z.to_nat DIRSIZ ∧
        take (length e) name' = take (Z.to_nat DIRSIZ) e ∧
        ((length e < Z.to_nat DIRSIZ)%nat → name' !! length e = Some 0)
  end.
Proof. apply skipelem_components. reflexivity. Defined.

(** ** A concrete inode cache *)

Lemma demo_ic_ok : ic_ok demo_fs ∧ (0 < length (ic_inode demo_fs))%nat ∧ i_ref (inoden demo_fs 0) = 0.
Proof.
  unfold demo_fs. generalize (booted demo_img 7). intros c.
  assert (Hz : ∀ i, inoden (mount c) i = zero_inode).
  { intros i. unfold inoden, mount. cbn [ic_inode]. rewrite list_lookup_total_alt.
    destruct (replicate (Z.to_nat NINODE) zero_inode !! i) as [x|] eqn:E; [|done].
    by apply lookup_replicate in E as [-> _]. }
  split_and!; [|simpl; lia|by rewrite Hz].
  split; [done| |].
  - intros i _. rewrite Hz. simpl. lia.
  - intros i j dev inum (_ & Hr & _). rewrite Hz in Hr. simpl in Hr. lia.
Qed.

Lemma iget_correct_witness :
  wp (iget 1 2) (λ ip s', ic_ok s' ∧ caches s' ip 1 2 ∧
    (∀ j, j ≠ ip → inoden s' j = inoden demo_fs j) ∧
    ((caches demo_fs ip 1 2 ∧ inoden s' ip = iset_ref (i_ref (inoden demo_fs ip) + 1) (inoden demo_fs ip)) ∨
     ((∀ j, ¬ caches demo_fs j 1 2) ∧ i_ref (inoden demo_fs ip) = 0 ∧
      (∀ j, (j < ip)%nat → i_ref (inoden demo_fs j) ≠ 0) ∧
      i_ref (inoden s' ip) = 1 ∧ i_valid (inoden s' ip) = false))) demo_fs.
Proof.
  destruct demo_ic_ok as (Hok & Hl & Hr). apply (iget_correct demo_fs 1 2 Hok). right. by exists 0%nat.
Defined.
