(* ===== verification/FsDir.v ===== *)
(** * Directories (fs.c: dirlookup, namecmp) *)

From S2P Require Import Prelude Words Params CString Locks BufIface Redo Log LogCrash LogInv Fs FsRules.
From S2P Require Import Ring Bio BioLaws FsRules FsBlocks FsFile FsFileProps FsInode.

Section dir.
Context {S : Type} `{BufCacheLaws S} `{DevSw S}.
Implicit Types (s : fs S) (v : Z → block).

(** Entry [k] of the directory [i]: its bytes, and whether it is in use and
    names the path element [name]. *)
Definition dent (v : Z → block) (i : inode) (k : Z) : list Z :=
  frange v i (k * sizeof_dirent) sizeof_dirent.
Definition matches (v : Z → block) (i : inode) (name : cptr) (k : Z) : bool :=
  negb (de_inum (dent v i k) =? 0) && (namecmp name (ptr_of (de_name (dent v i k))) =? 0).


Lemma ic_ok_log s l : ic_ok s → ic_ok (with_log l s).
Proof. by intros [? ? ?]. Qed.

(** Room for one more inode in the cache, or the inode is there already. *)
Definition can_iget s (dev inum : Z) : Prop :=
  (∃ i, caches s i dev inum) ∨ (∃ i, (i < length (ic_inode s))%nat ∧ i_ref (inoden s i) = 0).

(** What [dirlookup] returns when it starts looking at entry [k]. *)
Definition lookup_post s r v dp name (k N : Z) (res : option (nat * Z)) s' : Prop :=
  match res with
  | None => (∀ j, k ≤ j < N → matches v (inoden s dp) name j = false) ∧
            file_ready s' r v dp ∧ ∃ l, s' = with_log l s
  | Some (ip, off) => ∃ j, k ≤ j < N ∧ off = j * sizeof_dirent ∧
      matches v (inoden s dp) name j = true ∧
      (∀ j', k ≤ j' < j → matches v (inoden s dp) name j' = false) ∧
      ic_ok s' ∧ caches s' ip (i_dev (inoden s dp)) (de_inum (dent v (inoden s dp) j))
  end.

Lemma wp_dirlookup_from fuel s r v dp name k N :
  file_ready s r v dp → ic_ok s → 0 ≤ r → 0 ≤ k ≤ N → i_size (inoden s dp) = N * sizeof_dirent →
  (∀ j, 0 ≤ j < N → matches v (inoden s dp) name j = true →
     can_iget s (i_dev (inoden s dp)) (de_inum (dent v (inoden s dp) j))) →
  N - k < Z.of_nat fuel →
  wp (dirlookup_from fuel dp name (k * sizeof_dirent)) (lookup_post s r v dp name k N) s.
Proof.
  revert s k. induction fuel as [|f IH]; intros s k Hfr Hic Hr Hk Hsz Hcan Hf; [lia|].
  cbn [dirlookup_from]. unfold inode_of. wp_step. wp_step. rewrite Hsz.
  change sizeof_dirent with 16 in *. pose proof (fr_size _ _ _ _ Hfr) as Hmax. rewrite Hsz in Hmax.
  destruct (k * 16 <? N * 16) eqn:E; bool_props.
  2:{ wp_step. split_and!; [intros; lia|done|]. exists (f_log s). by destruct s. }
  wp_step. eapply wp_mono; [apply (wp_readi_file s r v dp (k * 16) 16 Hfr); try lia; fslia|].
  intros [n de] s1 (-> & -> & Hfr1 & l1 & ->). rewrite Hsz.
  replace (Z.min 16 (N * 16 - k * 16)) with 16 by lia. change (negb (16 =? 16)) with false. cbn match.
  change (frange v (inoden s dp) (k * 16) 16) with (dent v (inoden s dp) k).
  assert (Hrec : matches v (inoden s dp) name k = false →
    wp (dirlookup_from f dp name (k * 16 + 16)) (lookup_post s r v dp name k N) (with_log l1 s)).
  { intros Hm. replace (k * 16 + 16) with ((k + 1) * 16) by lia. eapply wp_mono.
    { apply (IH (with_log l1 s) (k + 1) Hfr1 (ic_ok_log _ _ Hic)); try done; lia. }
    intros [[ip off]|] s2; simpl.
    - intros (j & Hj & Hoff & Hmj & Hall & Hr1 & Hr2). exists j. split_and!; try done; try lia.
      intros j' Hj'. destruct (decide (j' = k)) as [->|]; [done|apply Hall; lia].
    - intros (Hall & Hfr2 & l2 & ->). split_and!; [|done|by exists l2].
      intros j Hj. destruct (decide (j = k)) as [->|]; [done|apply Hall; lia]. }
  unfold matches in Hrec at 1. destruct (de_inum (dent v (inoden s dp) k) =? 0) eqn:Ei; [by apply Hrec|].
  destruct (namecmp name (ptr_of (de_name (dent v (inoden s dp) k))) =? 0) eqn:En; [|by apply Hrec].
  assert (Hm : matches v (inoden s dp) name k = true) by (unfold matches; by rewrite Ei, En).
  wp_step. eapply wp_mono; [apply wp_iget; [by apply ic_ok_log|by apply Hcan; [lia|]]|].
  intros ip s2 (Hic2 & Hca & _). wp_step. exists k. split_and!; try done; try lia.
Qed.

(** [dirlookup] finds the first directory entry in use with the given name:
    it returns its offset and a referenced inode for it, or null when no entry
    matches, in which case nothing changed. *)
Theorem dirlookup_correct s r v dp name N :
  file_ready s r v dp → ic_ok s → 0 ≤ r → i_type (inoden s dp) = T_DIR → 0 ≤ N →
  i_size (inoden s dp) = N * sizeof_dirent →
  (∀ j, 0 ≤ j < N → matches v (inoden s dp) name j = true →
     can_iget s (i_dev (inoden s dp)) (de_inum (dent v (inoden s dp) j))) →
  wp (dirlookup dp name) (lookup_post s r v dp name 0 N) s.
Proof.
  intros Hfr Hic Hr Hty HN Hsz Hcan. unfold dirlookup, inode_of. wp_step. wp_step. rewrite Hty. cbn match.
  change 0 with (0 * sizeof_dirent) at 1. apply wp_dirlookup_from; try done.
  unfold dir_fuel. rewrite Hsz, Z.div_mul by done. lia.
Qed.
End dir.

(** ** Witness: looking up "f" in the root directory of the demonstration image *)

Definition demo_rooti : inode :=
  Inode ROOTDEV 1 1 (Sleeplock true false 7) true T_DIR 0 0 1 48 (34 :: replicate 12 0).
Definition demo_rootfs : fs bst :=
  with_ic_inode (<[0%nat := demo_rooti]> (ic_inode demo_fs)) demo_fs.

Lemma root_addr k : 0 ≤ k < MAXFILE → addr_of demo_view demo_rooti k = if decide (k = 0) then 34 else 0.
Proof.
  intros Hk. pose proof (below (λ k, addr_of demo_view demo_rooti k =? (if k =? 0 then 34 else 0)) 140
    ltac:(vm_compute; reflexivity) k Hk) as E. cbn beta in E. bool_props. rewrite E.
  destruct (k =? 0) eqn:Ek; bool_props; [by rewrite decide_True|by rewrite decide_False].
Qed.

Lemma root_data34 : data_ok demo_fs demo_view 34.
Proof.
  split.
  - simpl. lia.
  - vm_compute. reflexivity.
  - apply demo_home. lia.
  - intros c Hc. change (f_sb demo_fs) with demo_sb. rewrite (demo_bblock c Hc). lia.
  - intros n Hn. change (f_sb demo_fs) with demo_sb. rewrite (demo_iblock n Hn). lia.
Qed.

Lemma root_file_ok : file_ok demo_fs demo_view demo_rooti.
Proof.
  split; try done.
  - intros k Hk. rewrite root_addr by done. case_decide; [|done]. intros _. apply root_data34.
  - intros k k' Hk Hk'. rewrite !root_addr by done. repeat case_decide; try done. by subst.
Qed.

Lemma root_inode j :
  inoden demo_rootfs j = if decide (j = 0%nat) then demo_rooti else inoden demo_fs j.
Proof. apply (inoden_iupd demo_fs 0 (λ _, demo_rooti)). apply demo_ic_ok. Qed.

Lemma root_len : length (ic_inode demo_rootfs) = 50%nat.
Proof. etrans; [apply (length_iupd demo_fs 0 (λ _, demo_rooti))|reflexivity]. Qed.

Lemma root_geo : geo demo_rootfs = geo demo_fs.
Proof. apply geo_ic. Qed.

Lemma root_ready : file_ready demo_rootfs 29 demo_view 0.
Proof.
  split; rewrite ?root_inode, ?decide_True by done.
  - apply (txs_log demo_fs); [reflexivity|apply demo_txs].
  - rewrite root_len. lia.
  - apply (bitmap_ok_geo demo_fs _ _ root_geo), demo_bitmap_ok.
  - apply (meta_ok_geo demo_fs _ _ root_geo), demo_meta_ok.
  - apply (file_ok_geo demo_fs _ _ _ root_geo), root_file_ok.
  - done.
  - simpl. fslia.
  - intros k Hk Hkn. simpl in Hkn. rewrite root_addr by fslia. rewrite decide_True by fslia. lia.
Qed.

Lemma root_zero j : j ≠ 0%nat → i_ref (inoden demo_rootfs j) = 0.
Proof.
  intros Hj. rewrite root_inode, decide_False by done. unfold demo_fs. generalize (booted demo_img 7). intros c.
  unfold inoden, mount. cbn [ic_inode]. rewrite list_lookup_total_alt.
  destruct (replicate (Z.to_nat NINODE) zero_inode !! j) as [x|] eqn:E; [|done].
  by apply lookup_replicate in E as [-> _].
Qed.

Lemma root_ic_ok : ic_ok demo_rootfs.
Proof.
  split.
  - reflexivity.
  - intros i _. destruct (decide (i = 0%nat)) as [->|Hi]; [|by rewrite root_zero].
    rewrite root_inode, decide_True by done. simpl. lia.
  - intros i j dev inum (_ & Hi & _) (_ & Hj & _).
    destruct (decide (i = 0%nat)), (decide (j = 0%nat)); subst; try done;
      [rewrite (root_zero j) in Hj by done|rewrite (root_zero i) in Hi by done|rewrite (root_zero i) in Hi by done]; lia.
Qed.

Lemma dirlookup_correct_witness :
  wp (dirlookup 0 (ptr_of [102])) (lookup_post demo_rootfs 29 demo_view 0 (ptr_of [102]) 0 3) demo_rootfs.
Proof.
  apply (dirlookup_correct demo_rootfs 29 demo_view 0 (ptr_of [102]) 3).
  - apply root_ready.
  - apply root_ic_ok.
  - lia.
  - rewrite root_inode. reflexivity.
  - lia.
  - rewrite root_inode. reflexivity.
  - intros j _ _. right. exists 1%nat. split; [|by apply root_zero].
    rewrite root_len. lia.
Defined.
