(* ===== verification/Mkfs.v ===== *)
(** * Building the file system image (mkfs.c)

    mkfs.c runs on the build host and writes the image the kernel mounts.  Its
    state is the image file, a list of sectors, and the two counters
    [freeinode] and [freeblock].  [assert] that fails and [exit(1)] are
    panics.  The host is little endian, so that [xint] and [xshort] lay the
    bytes out the way they are read back; an input file is the list of the
    buffers its successive [read]s return. *)

From S2P Require Import Prelude Words Params CString Locks BufIface Redo Log Fs Bio.

Definition NINODES : Z := 200.
Definition nbitmap : Z := FSSIZE / (BSIZE * 8) + 1.
Definition ninodeblocks : Z := NINODES / IPB + 1.
Definition nlog : Z := LOGSIZE.
Definition nmeta : Z := 2 + nlog + ninodeblocks + nbitmap.
Definition nblocks : Z := FSSIZE - nmeta.

(** convert to intel byte order *)
Definition xshort (x : Z) : Z := le_val (le 2 x).
Definition xint (x : Z) : Z := le_val (le 4 x).

(** The global [sb], as [main] fills it before anything uses it. *)
Definition sb : superblock :=
  Superblock (xint FSSIZE) (xint nblocks) (xint NINODES) (xint nlog) (xint 2) (xint (2 + nlog))
    (xint (2 + nlog + ninodeblocks)).
Definition sb_bytes (s : superblock) : list Z :=
  concat (le 4 <$> [sb_size s; sb_nblocks s; sb_ninodes s; sb_nlog s; sb_logstart s;
                    sb_inodestart s; sb_bmapstart s]).

Record mkfs := Mkfs {
  img : list block;
  freeinode : Z;
  freeblock : Z
}.
Definition with_img d s := Mkfs d (freeinode s) (freeblock s).
Definition with_freeinode n s := Mkfs (img s) n (freeblock s).
Definition with_freeblock n s := Mkfs (img s) (freeinode s) n.

(** A write past the end of the image file extends it; the gap reads as zeros. *)
Definition put_sector (n : nat) (buf : block) (d : list block) : list block :=
  if (n <? length d)%nat then <[n := buf]> d
  else d ++ replicate (n - length d) zero_block ++ [buf].
Definition sector (sec : Z) : nat := Z.to_nat (u32 (sec * BSIZE) / BSIZE).

Definition wsect (sec : Z) (buf : block) : M mkfs unit :=
  modify (λ s, with_img (put_sector (sector sec) buf (img s)) s).

Definition rsect (sec : Z) : M mkfs block :=
  d ← gets img;
  match d !! sector sec with
  | Some buf => ret buf
  | None => panic "read"
  end.

(** The 64 bytes of a [struct dinode]. *)
Definition dinode_bytes (d : dinode) : list Z :=
  le 2 (d_type d) ++ le 2 (d_major d) ++ le 2 (d_minor d) ++ le 2 (d_nlink d) ++
  le 4 (d_size d) ++ addr_bytes (d_addrs d).

Definition winode (inum : Z) (ip : dinode) : M mkfs unit :=
  let bn := IBLOCK inum sb in
  buf ← rsect bn;
  wsect bn (splice (dinode_off inum) (dinode_bytes ip) buf).

Definition rinode (inum : Z) : M mkfs dinode :=
  let bn := IBLOCK inum sb in
  buf ← rsect bn;
  ret (get_dinode (dinode_off inum) buf).

Definition ialloc (type : Z) : M mkfs Z :=
  inum ← gets freeinode;
  modify (with_freeinode (u32 (inum + 1))) ;;
  winode inum (Dinode (xshort type) 0 0 (xshort 1) (xint 0) (replicate naddrs 0)) ;;
  ret inum.

(** [for(i = 0; i < used; i++) buf[i/8] = buf[i/8] | (0x1 << (i%8))] *)
Fixpoint mark_first (n : nat) (i : Z) (buf : block) : block :=
  match n with
  | O => buf
  | Datatypes.S n' => mark_first n' (i + 1) (mark_used buf i)
  end.

Definition balloc (used : Z) : M mkfs unit :=
  if used <? BSIZE * 8 then
    wsect (sb_bmapstart sb) (mark_first (Z.to_nat used) 0 zero_block)
  else panic "assert".

(** [freeblock++] *)
Definition next_block : M mkfs Z :=
  b ← gets freeblock;
  modify (with_freeblock (u32 (b + 1))) ;;
  ret b.

Definition set_addr (k : nat) (a : Z) (d : dinode) : dinode :=
  Dinode (d_type d) (d_major d) (d_minor d) (d_nlink d) (d_size d) (<[k := a]> (d_addrs d)).
Definition with_size (n : Z) (d : dinode) : dinode :=
  Dinode (d_type d) (d_major d) (d_minor d) (d_nlink d) n (d_addrs d).

(** [if(xint(din.addrs[k]) == 0) din.addrs[k] = xint(freeblock++)] *)
Definition ensure_addr (din : dinode) (k : nat) : M mkfs dinode :=
  if xint (d_addrs din !!! k) =? 0 then
    b ← next_block; ret (set_addr k (xint b) din)
  else ret din.

(** The two branches of [iappend] that find, or allocate, block [fbn]. *)
Definition direct_block (din : dinode) (fbn : Z) : M mkfs (dinode * Z) :=
  din ← ensure_addr din (Z.to_nat fbn);
  ret (din, xint (d_addrs din !!! Z.to_nat fbn)).

Definition indirect_entry (din : dinode) (fbn : Z) : M mkfs (dinode * Z) :=
  let ind := xint (d_addrs din !!! Z.to_nat NDIRECT) in
  let e := Z.to_nat (4 * (fbn - NDIRECT)) in
  indirect ← rsect ind;
  if get_u32 e indirect =? 0 then
    b ← next_block;
    let indirect := put_u32 e (xint b) indirect in
    wsect ind indirect ;;
    ret (din, xint (get_u32 e indirect))
  else ret (din, xint (get_u32 e indirect)).

Definition indirect_block (din : dinode) (fbn : Z) : M mkfs (dinode * Z) :=
  din ← ensure_addr din (Z.to_nat NDIRECT);
  indirect_entry din fbn.

Definition min_u32 (a b : Z) : Z := if a <? b then a else b.

(** The loop of [iappend]; [p] holds what is left of the [n] bytes. *)
Fixpoint iappend_loop (fuel : nat) (din : dinode) (off : Z) (p : list Z) (n : Z)
    : M mkfs (dinode * Z) :=
  match fuel with
  | O => fault
  | Datatypes.S f =>
      if 0 <? n then
        let fbn := off / BSIZE in
        if negb (fbn <? MAXFILE) then panic "assert" else
        r ← (if fbn <? NDIRECT then direct_block din fbn else indirect_block din fbn);
        let '(din, x) := r in
        let n1 := min_u32 (u32 n) (u32 ((fbn + 1) * BSIZE - off)) in
        buf ← rsect x;
        wsect x (splice (Z.to_nat (off - fbn * BSIZE)) (take (Z.to_nat n1) p) buf) ;;
        iappend_loop f din (u32 (off + n1)) (drop (Z.to_nat n1) p) (i32 (n - n1))
      else ret (din, off)
  end.

Definition iappend (inum : Z) (xp : list Z) (n : Z) : M mkfs unit :=
  din ← rinode inum;
  let off := xint (d_size din) in
  r ← iappend_loop (Datatypes.S (Z.to_nat n)) din off xp n;
  let '(din, off) := r in
  winode inum (with_size (xint off) din).

(** A [struct dirent] cleared by [bzero], with its number and its name set. *)
Definition dirent (inum : Z) (name : list Z) : list Z := le 2 (xshort inum) ++ name.
Definition no_name : list Z := replicate (Z.to_nat DIRSIZ) 0.
Definition dot_name : list Z := splice 0 [46; 0] no_name.
Definition dotdot_name : list Z := splice 0 [46; 46; 0] no_name.
Definition name14 (s : list Z) : list Z := strncpy no_name (ptr_of s) DIRSIZ.

(** [argv[i]] and what the host gives for it: nothing when [open] fails, else
    the buffers the [read]s return before the one that returns no bytes. *)
Record hostfile := HostFile {
  hf_name : list Z;
  hf_reads : option (list (list Z))
}.

(** Skip leading _ in name when writing to file system. *)
Definition skip_underscore (s : list Z) : list Z :=
  match s with
  | c :: s' => if c =? 95 then s' else s
  | [] => s
  end.

Fixpoint append_reads (inum : Z) (reads : list (list Z)) : M mkfs unit :=
  match reads with
  | [] => ret tt
  | buf :: reads' => iappend inum buf (Z.of_nat (length buf)) ;; append_reads inum reads'
  end.

Definition add_file (rootino : Z) (f : hostfile) : M mkfs unit :=
  if existsb (Z.eqb 47) (hf_name f) then panic "assert" else
  match hf_reads f with
  | None => panic "open"
  | Some reads =>
      inum ← ialloc T_FILE;
      iappend rootino (dirent inum (name14 (skip_underscore (hf_name f)))) sizeof_dirent ;;
      append_reads inum reads
  end.

Fixpoint add_files (rootino : Z) (args : list hostfile) : M mkfs unit :=
  match args with
  | [] => ret tt
  | f :: args' => add_file rootino f ;; add_files rootino args'
  end.

(** [image] is [None] when no argument is given, and [Some false] when the
    image file cannot be opened. *)
Definition main (image : option bool) (args : list hostfile) : M mkfs unit :=
  match image with
  | None => panic "Usage: mkfs fs.img files..."
  | Some false => panic "open"
  | Some true =>
      modify (with_freeblock nmeta) ;;
      for_loop (Z.to_nat FSSIZE) 0 (λ i, wsect i zero_block) ;;
      wsect 1 (splice 0 (sb_bytes sb) zero_block) ;;
      rootino ← ialloc T_DIR;
      if negb (rootino =? ROOTINO) then panic "assert" else
      iappend rootino (dirent rootino dot_name) sizeof_dirent ;;
      iappend rootino (dirent rootino dotdot_name) sizeof_dirent ;;
      add_files rootino args ;;
      din ← rinode rootino;
      let off := xint (d_size din) in
      let off := u32 ((off / BSIZE + 1) * BSIZE) in
      winode rootino (with_size (xint off) din) ;;
      b ← gets freeblock;
      balloc (i32 b)
  end.

(** The state [main] starts in: an empty image file, [freeinode = 1]. *)
Definition blank : mkfs := Mkfs [] 1 0.
