(* ===== verification/MkfsFile.v ===== *)
(** * Files in the image mkfs.c builds

    Every block of the data area has an owner: [own b = (i, k)] says that [b]
    is block [k] of inode [i], its indirect block when [k = -1].  [file_at]
    describes a file by its addresses, block count and bytes; the lemmas are
    the four things [iappend] does to one. *)

From S2P Require Import Prelude Words Params CString Locks BufIface Redo Log LogCrash LogInv Fs FsRules.
From S2P Require Import Bio BioLaws FsRules FsBlocks FsFile FsFileProps FsInode FsDir Mkfs.

Lemma xint_id z : is_u32 z → xint z = z.
Proof. intros. unfold xint. rewrite le_val_le. by apply u32_id. Qed.

(** Blocks a file of [n] bytes takes: its data and, past the twelfth, the
    indirect block. *)
Definition nblk (n : Z) : Z := (n + BSIZE - 1) / BSIZE.
Definition need (n : Z) : Z := nblk n + Z.b2z (NDIRECT <? nblk n).

Ltac divlia :=
  change MAXFILE with 140 in *; change NDIRECT with 12 in *; change NINDIRECT with 128 in *;
  change BSIZE with 512 in *; Z.to_euclidean_division_equations; lia.

Lemma nblk_bound n : 0 ≤ n → n ≤ nblk n * BSIZE < n + BSIZE.
Proof. intros. unfold nblk. divlia. Qed.
Lemma nblk_mono m n : m ≤ n → nblk m ≤ nblk n.
Proof. intros. unfold nblk. divlia. Qed.
Lemma need_mono m n : m ≤ n → need m ≤ need n.
Proof.
  intros Hmn%nblk_mono. unfold need. destruct (NDIRECT <? nblk m) eqn:E; bool_props.
  - rewrite (proj2 (Z.ltb_lt _ _)) by lia. simpl. lia.
  - destruct (NDIRECT <? nblk n); simpl; lia.
Qed.
Lemma need_nonneg n : 0 ≤ n → 0 ≤ need n.
Proof.
  intros. unfold need. assert (0 ≤ nblk n) by (unfold nblk; divlia).
  destruct (_ <? _); simpl; lia.
Qed.

(** ** One file *)

Definition ino (addrs : list Z) : inode :=
  Inode 0 0 0 (i_lock zero_inode) false 0 0 0 0 0 addrs.

Definition owner := Z → Z * Z.
Definition give (own : owner) (b : Z) (o : Z * Z) : owner := λ x, if x =? b then o else own x.
Definition mine (fb : Z) (own : owner) (i k a : Z) : Prop := nmeta ≤ a < fb ∧ own a = (i, k).

Lemma mine_give fb own i k a o : mine fb own i k a → mine (fb + 1) (give own fb o) i k a.
Proof.
  intros [Ha Ho]. split; [lia|]. unfold give. by rewrite (proj2 (Z.eqb_neq _ _)) by lia.
Qed.
Lemma mine_new fb own i k : nmeta ≤ fb → mine (fb + 1) (give own fb (i, k)) i k fb.
Proof. intros. split; [lia|]. unfold give. by rewrite Z.eqb_refl. Qed.
Lemma mine_fun fb own i k i' k' a : mine fb own i k a → mine fb own i' k' a → i = i' ∧ k = k'.
Proof. intros [_ H1] [_ H2]. rewrite H1 in H2. by injection H2. Qed.
Lemma mine_pos fb own i k a : mine fb own i k a → a ≠ 0.
Proof. intros [? _]. unfold nmeta, nlog, ninodeblocks, nbitmap in *. intros ->. vm_compute in H. naive_solver. Qed.

(** [addrs] holds [nb] blocks with the bytes [c], zeros after them, and an
    indirect block when [hi]. *)
Record file_at (v : Z → block) (fb : Z) (own : owner) (i : Z) (addrs : list Z) (nb : Z) (hi : bool)
    (c : list Z) : Prop := {
  fa_len : length addrs = naddrs;
  fa_cnt : Z.of_nat (length c) ≤ nb * BSIZE ∧ 0 ≤ nb ≤ MAXFILE;
  fa_hi : if hi then mine fb own i (-1) (ind_of (ino addrs)) else ind_of (ino addrs) = 0;
  fa_nb : NDIRECT < nb → hi = true;
  fa_blocks : ∀ k, 0 ≤ k < nb → mine fb own i k (addr_of v (ino addrs) k);
  fa_free : ∀ k, nb ≤ k < MAXFILE → addr_of v (ino addrs) k = 0;
  fa_bytes : ∀ o, 0 ≤ o < MAXFILE * BSIZE → fbyte v (ino addrs) o = nth (Z.to_nat o) c 0
}.

(** Only the blocks of the file matter. *)
Lemma file_at_frame v v' fb fb' own own' i addrs nb hi c :
  file_at v fb own i addrs nb hi c →
  (∀ k a, mine fb own i k a → v' a = v a ∧ mine fb' own' i k a) →
  file_at v' fb' own' i addrs nb hi c.
Proof.
  intros [Hl Hc Hhi Hnb Hbl Hfr Hby] Hv.
  assert (Ha : ∀ k, addr_of v' (ino addrs) k = addr_of v (ino addrs) k).
  { intros k. apply addr_of_view. intros Hi. destruct hi; [|done]. by apply (Hv (-1)). }
  split; try done.
  - destruct hi; [|done]. by apply Hv.
  - intros k Hk. rewrite Ha. by apply Hv, Hbl.
  - intros k Hk. rewrite Ha. by apply Hfr.
  - intros o Ho. rewrite <- Hby by done. unfold fbyte. rewrite Ha.
    destruct (_ =? 0) eqn:E; [done|]. bool_props.
    assert (0 ≤ o / BSIZE < MAXFILE) by divlia.
    destruct (decide (o / BSIZE < nb)) as [Hlt|Hge]; [|by rewrite Hfr in E by lia].
    f_equal. eapply Hv, Hbl. lia.
Qed.

Lemma file_at_addr_u32 v fb own i addrs nb hi c k :
  file_at v fb own i addrs nb hi c → fb ≤ FSSIZE → 0 ≤ k < MAXFILE →
  0 ≤ addr_of v (ino addrs) k < FSSIZE.
Proof.
  intros Hf Hfb Hk. destruct (decide (k < nb)).
  - destruct (fa_blocks _ _ _ _ _ _ _ _ Hf k) as [? _]; [lia|]. change nmeta with 59 in *. lia.
  - rewrite (fa_free _ _ _ _ _ _ _ _ Hf) by lia. done.
Qed.

Lemma ind_of_ino addrs : ind_of (ino addrs) = addrs !!! Z.to_nat NDIRECT.
Proof. done. Qed.

Lemma file_at_u32 v fb own i addrs nb hi c :
  file_at v fb own i addrs nb hi c → fb ≤ FSSIZE → Forall is_u32 addrs.
Proof.
  intros Hf Hfb. apply Forall_lookup. intros k a Hk.
  pose proof (lookup_lt_Some _ _ _ Hk) as Hlt. rewrite (fa_len _ _ _ _ _ _ _ _ Hf) in Hlt.
  apply list_lookup_total_correct in Hk. change naddrs with 13%nat in Hlt. unfold is_u32.
  assert (0 ≤ a < FSSIZE); [|change FSSIZE with 1000 in *; lia].
  destruct (decide (k = 12%nat)) as [->|].
  - pose proof (fa_hi _ _ _ _ _ _ _ _ Hf) as Hhi. rewrite ind_of_ino in Hhi.
    change (Z.to_nat NDIRECT) with 12%nat in Hhi. rewrite Hk in Hhi.
    destruct hi; [destruct Hhi as [? _]; change nmeta with 59 in *; lia|by rewrite Hhi].
  - assert (Ha : addr_of v (ino addrs) (Z.of_nat k) = a).
    { rewrite addr_of_direct by fslia. by rewrite Nat2Z.id. }
    rewrite <- Ha. apply (file_at_addr_u32 _ _ _ _ _ _ _ _ _ Hf Hfb). fslia.
Qed.

(** *** The four things [iappend] does to a file *)

Lemma addr_of_insert_direct v addrs k a j :
  length addrs = naddrs → 0 ≤ k < NDIRECT → 0 ≤ j →
  addr_of v (ino (<[Z.to_nat k := a]> addrs)) j = if j =? k then a else addr_of v (ino addrs) j.
Proof.
  intros Hl Hk Hj. change naddrs with 13%nat in Hl. destruct (j =? k) eqn:E; bool_props.
  - subst j. rewrite addr_of_direct by lia. simpl. apply list_lookup_total_insert_eq. fslia.
  - unfold addr_of. simpl. rewrite !list_lookup_total_insert_ne by fslia. done.
Qed.

Lemma nth_beyond (c : list Z) o : (length c ≤ o)%nat → nth o c 0 = 0.
Proof. apply nth_overflow. Qed.

Lemma zero_block_byte k : (k < Z.to_nat BSIZE)%nat → zero_block !!! k = 0.
Proof. by apply lookup_total_replicate_2. Qed.

(** A new block holds zeros, and the file had no bytes there. *)
Lemma file_at_grow v v' fb own i addrs addrs' nb hi c :
  file_at v fb own i addrs nb hi c → nmeta ≤ fb → nb < MAXFILE → (NDIRECT ≤ nb → hi = true) →
  length addrs' = naddrs → ind_of (ino addrs') = ind_of (ino addrs) →
  (∀ j, 0 ≤ j < MAXFILE → addr_of v' (ino addrs') j = if j =? nb then fb else addr_of v (ino addrs) j) →
  (∀ k a, 0 ≤ k → mine fb own i k a → v' a = v a) → v' fb = zero_block →
  file_at v' (fb + 1) (give own fb (i, nb)) i addrs' (nb + 1) hi c.
Proof.
  intros [Hl Hc Hhi Hnb Hbl Hfr Hby] Hfb Hmax Hdir Hl' Hind Ha Hv Hz.
  split; try done.
  - split; [|lia]. fslia.
  - rewrite Hind. destruct hi; [by apply mine_give|done].
  - intros. apply Hdir. lia.
  - intros k Hk. rewrite Ha by lia. destruct (k =? nb) eqn:E; bool_props.
    + subst k. by apply mine_new.
    + apply mine_give, Hbl. lia.
  - intros k Hk. rewrite Ha by lia. rewrite (proj2 (Z.eqb_neq _ _)) by lia. apply Hfr. lia.
  - intros o Ho. assert (Hq : 0 ≤ o / BSIZE < MAXFILE) by divlia.
    unfold fbyte. rewrite Ha by done. destruct (o / BSIZE =? nb) eqn:E; bool_props.
    + rewrite nth_beyond by divlia. rewrite Hz, zero_block_byte by divlia. by destruct (fb =? 0).
    + rewrite <- Hby by done. unfold fbyte. destruct (_ =? 0) eqn:E0; [done|]. bool_props.
      destruct (decide (o / BSIZE < nb)) as [Hlt|Hge]; [|by rewrite Hfr in E0 by lia].
      rewrite (Hv (o / BSIZE)); [done|lia|]. apply Hbl. lia.
Qed.

Lemma file_at_add_direct v fb own i addrs nb hi c :
  file_at v fb own i addrs nb hi c → nb < NDIRECT → nmeta ≤ fb → v fb = zero_block →
  file_at v (fb + 1) (give own fb (i, nb)) i (<[Z.to_nat nb := fb]> addrs) (nb + 1) hi c.
Proof.
  intros Hf Hnb Hfb Hz. pose proof (fa_len _ _ _ _ _ _ _ _ Hf) as Hl.
  destruct (fa_cnt _ _ _ _ _ _ _ _ Hf) as [_ Hr].
  apply (file_at_grow v v fb own i addrs); try done; try fslia.
  - by rewrite length_insert.
  - rewrite !ind_of_ino. apply list_lookup_total_insert_ne. fslia.
  - intros j Hj. apply addr_of_insert_direct; [done|lia..].
Qed.

Lemma zero_block_u32 e : get_u32 e zero_block = 0.
Proof.
  unfold get_u32, get_le, slice, zero_block. rewrite drop_replicate, take_replicate. apply le_val_zeros.
Qed.

Lemma file_at_add_ind v fb own i addrs nb c :
  file_at v fb own i addrs nb false c → nmeta ≤ fb → v fb = zero_block →
  file_at v (fb + 1) (give own fb (i, -1)) i (<[Z.to_nat NDIRECT := fb]> addrs) nb true c.
Proof.
  intros [Hl Hc Hhi Hnb Hbl Hfr Hby] Hfb Hz.
  assert (Hle : nb ≤ NDIRECT) by (destruct (decide (NDIRECT < nb)); [by discriminate Hnb|lia]).
  assert (Ha : ∀ k, 0 ≤ k → addr_of v (ino (<[Z.to_nat NDIRECT := fb]> addrs)) k = addr_of v (ino addrs) k).
  { intros k Hk. unfold addr_of. destruct (k <? NDIRECT) eqn:E; bool_props; simpl.
    - apply list_lookup_total_insert_ne. fslia.
    - rewrite list_lookup_total_insert_eq by (rewrite Hl; compute; lia).
      rewrite (proj2 (Z.eqb_neq fb 0)) by (change nmeta with 59 in *; lia).
      rewrite Hz, zero_block_u32. rewrite ind_of_ino in Hhi. by rewrite Hhi. }
  split; try done.
  - by rewrite length_insert.
  - rewrite ind_of_ino, list_lookup_total_insert_eq by (rewrite Hl; compute; lia). by apply mine_new.
  - intros k Hk. rewrite Ha by lia. by apply mine_give, Hbl.
  - intros k Hk. rewrite Ha by lia. by apply Hfr.
  - intros o Ho. rewrite <- Hby by done. unfold fbyte. rewrite Ha; [done|]. divlia.
Qed.

(** A view with one block replaced. *)
Definition vset (v : Z → block) (b : Z) (d : block) : Z → block := λ x, if x =? b then d else v x.
Lemma vset_eq v b d : vset v b d b = d.
Proof. unfold vset. by rewrite Z.eqb_refl. Qed.
Lemma vset_ne v b d x : x ≠ b → vset v b d x = v x.
Proof. intros. unfold vset. by rewrite (proj2 (Z.eqb_neq _ _)). Qed.

Lemma file_at_add_entry v fb own i addrs nb c :
  file_at v fb own i addrs nb true c → NDIRECT ≤ nb < MAXFILE → nmeta ≤ fb < FSSIZE → v fb = zero_block →
  length (v (ind_of (ino addrs))) = Z.to_nat BSIZE →
  file_at (vset v (ind_of (ino addrs)) (put_u32 (Z.to_nat (4 * (nb - NDIRECT))) fb (v (ind_of (ino addrs)))))
    (fb + 1) (give own fb (i, nb)) i addrs (nb + 1) true c.
Proof.
  intros Hf Hnb Hfb Hz Hlen. pose proof (fa_hi _ _ _ _ _ _ _ _ Hf) as Hi. simpl in Hi.
  pose proof (mine_pos _ _ _ _ _ Hi) as Hi0.
  apply (file_at_grow v _ fb own i addrs); try done; try lia.
  - by apply (fa_len _ _ _ _ _ _ _ _ Hf).
  - intros j Hj. destruct (decide (j < NDIRECT)) as [Hd|Hd].
    + rewrite !addr_of_direct by done. by rewrite (proj2 (Z.eqb_neq _ _)) by lia.
    + rewrite !addr_of_indirect by (done || lia). rewrite vset_eq. unfold get_u32, put_u32.
      destruct (j =? nb) eqn:E; bool_props.
      * subst j. rewrite get_put_le by fslia. apply Z.mod_small. change FSSIZE with 1000 in *. change nmeta with 59 in *; change (256 ^ Z.of_nat 4) with 4294967296; lia.
      * apply get_put_le_disjoint; fslia.
  - intros k a Hk Ha. apply vset_ne. intros ->. destruct (mine_fun _ _ _ _ _ _ _ Hi Ha) as [_ <-]. lia.
  - rewrite vset_ne; [done|]. destruct Hi as [? _]. lia.
Qed.

Lemma nth_splice off (new : list Z) (d : list Z) k :
  (off + length new ≤ length d)%nat → (k < length d)%nat →
  splice off new d !!! k =
  if decide (off ≤ k < off + length new)%nat then nth (k - off) new 0 else d !!! k.
Proof.
  intros Hl Hk. rewrite !list_lookup_total_alt. destruct (decide _) as [Hin|Hout].
  - rewrite lookup_splice_in by lia. rewrite nth_lookup.
    destruct (new !! (k - off)%nat) eqn:E; [done|]. apply lookup_ge_None in E. lia.
  - by rewrite lookup_splice_out by lia.
Qed.

(** Writing the next bytes into the last block. *)
Lemma file_at_write v fb own i addrs nb hi c new :
  let off := Z.of_nat (length c) in
  let x := addr_of v (ino addrs) (off / BSIZE) in
  file_at v fb own i addrs nb hi c → off / BSIZE < nb →
  off mod BSIZE + Z.of_nat (length new) ≤ BSIZE → length (v x) = Z.to_nat BSIZE →
  file_at (vset v x (splice (Z.to_nat (off mod BSIZE)) new (v x))) fb own i addrs nb hi (c ++ new).
Proof.
  intros off x Hf Hlt Hn Hlx. pose proof Hf as [Hl Hc Hhi Hnb Hbl Hfr Hby].
  assert (Hq : 0 ≤ off / BSIZE) by divlia.
  assert (Hx : mine fb own i (off / BSIZE) x) by (apply Hbl; lia).
  assert (Hne : ∀ k a, mine fb own i k a → k ≠ off / BSIZE → vset v x (splice (Z.to_nat (off mod BSIZE)) new (v x)) a = v a).
  { intros k a Hm Hk. apply vset_ne. intros ->. by destruct (mine_fun _ _ _ _ _ _ _ Hx Hm). }
  assert (Ha : ∀ k, addr_of (vset v x (splice (Z.to_nat (off mod BSIZE)) new (v x))) (ino addrs) k =
                    addr_of v (ino addrs) k).
  { intros k. apply addr_of_view. intros Hi. destruct hi; [|done]. apply (Hne (-1)); [done|lia]. }
  split; try done.
  - rewrite length_app. split; [|lia]. unfold off in *. divlia.
  - intros k Hk. rewrite Ha. by apply Hbl.
  - intros k Hk. rewrite Ha. by apply Hfr.
  - intros o Ho. unfold fbyte. rewrite Ha. fold off in Hc |- *.
    specialize (Hby o Ho). unfold fbyte in Hby. assert (0 ≤ o / BSIZE < MAXFILE) by divlia.
    destruct (decide (o / BSIZE = off / BSIZE)) as [E|E].
    + rewrite E in Hby |- *. fold x in Hby |- *.
      rewrite (proj2 (Z.eqb_neq x 0)) in Hby |- * by (by eapply mine_pos).
      rewrite vset_eq, nth_splice by divlia. destruct (decide _) as [Hin|Hout].
      * rewrite app_nth2 by (unfold off in *; divlia). f_equal. unfold off in *. divlia.
      * rewrite Hby. destruct (decide (o < off)).
        -- rewrite app_nth1 by (unfold off in *; lia). done.
        -- rewrite !nth_beyond; [done|rewrite length_app; unfold off in *; divlia|unfold off in *; lia].
    + transitivity (nth (Z.to_nat o) c 0).
      * rewrite <- Hby. destruct (_ =? 0) eqn:E0; [done|]. bool_props.
        destruct (decide (o / BSIZE < nb)) as [Hb|Hb]; [|by rewrite Hfr in E0 by lia].
        rewrite (Hne (o / BSIZE)); [done|apply Hbl; lia|done].
      * destruct (decide (o < off)).
        -- rewrite app_nth1 by (unfold off in *; lia). done.
        -- rewrite !nth_beyond; [done|rewrite length_app; unfold off in *; divlia|unfold off in *; lia].
Qed.

(** ** Inodes on disk *)

Lemma slice_splice_within {A} off k n (new l : list A) :
  (off + length new ≤ length l)%nat → (k + n ≤ length new)%nat →
  slice (off + k) n (splice off new l) = slice k n new.
Proof.
  intros Hl Hk. apply list_eq. intros j. destruct (decide (j < n)%nat) as [Hj|Hj].
  - rewrite !lookup_slice by done. rewrite lookup_splice_in by lia. f_equal. lia.
  - unfold slice. by rewrite !lookup_take_ge by lia.
Qed.

Lemma slice_app_r {A} k n (l1 l2 : list A) : slice (length l1 + k) n (l1 ++ l2) = slice k n l2.
Proof. unfold slice. by rewrite drop_app_add. Qed.

Lemma slice_addr_bytes addrs k :
  (k < length addrs)%nat → slice (4 * k) 4 (addr_bytes addrs) = le 4 (addrs !!! k).
Proof.
  revert k. induction addrs as [|a addrs IH]; intros k Hk; simpl in Hk; [lia|].
  change (addr_bytes (a :: addrs)) with (le 4 a ++ addr_bytes addrs). destruct k as [|k].
  - unfold slice. rewrite Nat.mul_0_r, drop_0. apply (take_app_length' (le 4 a)). by rewrite length_le.
  - replace (4 * S k)%nat with (length (le 4 a) + 4 * k)%nat by (rewrite length_le; lia).
    rewrite slice_app_r. apply IH. lia.
Qed.

Definition dinode_wf (d : dinode) : Prop :=
  (is_i16 (d_type d) ∧ is_i16 (d_major d) ∧ is_i16 (d_minor d) ∧ is_i16 (d_nlink d)) ∧
  is_u32 (d_size d) ∧ Forall is_u32 (d_addrs d) ∧ length (d_addrs d) = naddrs.

Lemma length_dinode_bytes d : length (d_addrs d) = naddrs → length (dinode_bytes d) = 64%nat.
Proof.
  intros Hl. unfold dinode_bytes. rewrite !length_app, !length_le, length_addr_bytes, Hl. reflexivity.
Qed.

Lemma i16_le z : is_i16 z → i16 (le_val (le 2 z)) = z.
Proof. intros. rewrite le_val_le. by apply i16_mod. Qed.

Lemma addrs_bytes_back hdr addrs n :
  Forall is_u32 addrs → length addrs = naddrs → length hdr = n →
  get_addrs n (hdr ++ addr_bytes addrs) = addrs.
Proof.
  intros Hu Hl Hh. unfold get_addrs. apply list_eq. intros k. rewrite list_lookup_fmap.
  destruct (decide (k < naddrs)%nat) as [Hk|Hk].
  - rewrite lookup_seq_lt by done. cbn [fmap option_fmap option_map]. unfold get_u32, get_le. rewrite <- Hh.
    rewrite slice_app_r, slice_addr_bytes by lia. rewrite <- Hl in Hk.
    destruct (lookup_lt_is_Some_2 _ _ Hk) as [a Ha]. rewrite Ha.
    rewrite (list_lookup_total_correct _ _ _ Ha), le_val_le. f_equal.
    apply u32_id. by eapply Forall_lookup_1 in Ha.
  - rewrite lookup_seq_ge by lia. symmetry. apply lookup_ge_None_2. lia.
Qed.

Lemma get_dinode_bytes d : dinode_wf d → get_dinode 0 (dinode_bytes d) = d.
Proof.
  intros ((Ht & Hma & Hmi & Hn) & Hs & Ha & Hl). unfold get_dinode.
  assert (Haddr : get_addrs (0 + 12) (dinode_bytes d) = d_addrs d).
  { unfold dinode_bytes. rewrite !app_assoc. apply addrs_bytes_back; [done..|].
    by rewrite !length_app, !length_le. }
  rewrite Haddr. destruct d as [t ma mi nl sz ad]. simpl in *.
  f_equal; [by apply i16_le..|]. transitivity (le_val (le 4 sz)); [done|]. rewrite le_val_le. by apply u32_id.
Qed.

Lemma get_le_splice n off k new (l : list Z) :
  (off + length new ≤ length l)%nat → (k + n ≤ length new)%nat →
  get_le n (off + k) (splice off new l) = get_le n k new.
Proof. intros. unfold get_le. by rewrite slice_splice_within. Qed.

Lemma get_dinode_splice off d l :
  dinode_wf d → (off + 64 ≤ length l)%nat → get_dinode off (splice off (dinode_bytes d) l) = d.
Proof.
  intros Hd Hl. rewrite <- (get_dinode_bytes d) at 2 by done.
  pose proof (length_dinode_bytes d ltac:(by apply Hd)) as Hlen.
  unfold get_dinode, get_i16, get_u32. rewrite <- (Nat.add_0_r off) at 1.
  f_equal; [f_equal; apply get_le_splice; lia..|apply get_le_splice; lia|].
  unfold get_addrs. apply list_fmap_ext. intros _ k Hk%list_elem_of_lookup_2%elem_of_seq.
  change naddrs with 13%nat in Hk.
  unfold get_u32. rewrite <- Nat.add_assoc. apply get_le_splice; lia.
Qed.

Lemma get_dinode_other off off' new l :
  length new = 64%nat → (off + 64 ≤ length l)%nat → (off' + 64 ≤ off ∨ off + 64 ≤ off')%nat →
  get_dinode off' (splice off new l) = get_dinode off' l.
Proof.
  intros Hn Hl Ho. unfold get_dinode, get_i16, get_u32.
  assert (Hg : ∀ n k, (k + n ≤ 64)%nat → get_le n (off' + k) (splice off new l) = get_le n (off' + k) l).
  { intros n k Hk. unfold get_le. rewrite slice_splice_disjoint; [done|lia|lia]. }
  pose proof (Hg 2 0 ltac:(lia))%nat as H0. rewrite Nat.add_0_r in H0.
  rewrite H0, !Hg by lia. f_equal.
  unfold get_addrs. apply list_fmap_ext. intros _ k Hk%list_elem_of_lookup_2%elem_of_seq.
  change naddrs with 13%nat in Hk. unfold get_u32. rewrite <- Nat.add_assoc. apply Hg. lia.
Qed.
