(* ===== verification/MkfsSpec.v ===== *)
(** * The image mkfs.c builds is the one the kernel reads

    [disk_ok] is the invariant of the image under construction: a super block,
    an empty log, the inodes allocated so far with their contents, each block
    of the data area owned at most once, and zeros from [freeblock] on.
    [mkfs_correct] reads the finished image the way fs.c does. *)

From S2P Require Import Prelude Words Params CString Locks BufIface Redo Log LogCrash LogInv Fs FsRules.
From S2P Require Import Bio BioLaws FsRules FsBlocks FsFile FsFileProps FsInode FsDir Mkfs MkfsFile.

Ltac mklia :=
  change nmeta with 59 in *; change NINODES with 200 in *; change nlog with 30 in *;
  change FSSIZE with 1000 in *; fslia.

Definition view (s : mkfs) (b : Z) : block := img s !!! Z.to_nat b.
Definition dino (s : mkfs) (i : Z) : dinode := get_dinode (dinode_off i) (view s (IBLOCK i sb)).
Definition sb_block : block := splice 0 (sb_bytes sb) zero_block.

(** The image holds [files], the types and contents of the inodes from 1 on;
    the one at [skip] is being written and not described. *)
Record disk_ok (s : mkfs) (own : owner) (files : list (Z * list Z)) (skip : option nat) : Prop := {
  dk_len : length (img s) = Z.to_nat FSSIZE;
  dk_ok : ∀ b, 0 ≤ b < FSSIZE → block_ok (view s b);
  dk_fi : freeinode s = 1 + Z.of_nat (length files) ∧ freeinode s ≤ NINODES;
  dk_fb : nmeta ≤ freeblock s ≤ FSSIZE;
  dk_zero : ∀ b, freeblock s ≤ b < FSSIZE → view s b = zero_block;
  dk_boot : ∀ b, 0 ≤ b < 2 + nlog → view s b = if b =? 1 then sb_block else zero_block;
  dk_files : ∀ j ty c, files !! j = Some (ty, c) → skip ≠ Some j → ∃ addrs,
    dino s (Z.of_nat j + 1) = Dinode ty 0 0 1 (Z.of_nat (length c)) addrs ∧
    file_at (view s) (freeblock s) own (Z.of_nat j + 1) addrs (nblk (Z.of_nat (length c)))
      (NDIRECT <? nblk (Z.of_nat (length c))) c
}.

(** ** Sectors *)

Definition st_put (s : mkfs) (b : Z) (d : block) : mkfs := with_img (<[Z.to_nat b := d]> (img s)) s.

Lemma sector_small b : 0 ≤ b < FSSIZE → sector b = Z.to_nat b.
Proof.
  intros. unfold sector. rewrite u32_id by (unfold is_u32; mklia). by rewrite Z.div_mul.
Qed.

Lemma wp_wsect s b d (Q : unit → mkfs → Prop) :
  length (img s) = Z.to_nat FSSIZE → 0 ≤ b < FSSIZE → Q tt (st_put s b d) → wp (wsect b d) Q s.
Proof.
  intros Hl Hb HQ. unfold wsect. apply wp_modify. unfold put_sector.
  rewrite sector_small, Hl by done. rewrite (proj2 (Nat.ltb_lt _ _)) by mklia. done.
Qed.

Lemma wp_rsect s b (Q : block → mkfs → Prop) :
  length (img s) = Z.to_nat FSSIZE → 0 ≤ b < FSSIZE → Q (view s b) s → wp (rsect b) Q s.
Proof.
  intros Hl Hb HQ. unfold rsect. wp_step. wp_step. rewrite sector_small by done.
  destruct (lookup_lt_is_Some_2 (img s) (Z.to_nat b)) as [d Hd]; [rewrite Hl; mklia|]. rewrite Hd.
  wp_step. unfold view in HQ. by rewrite (list_lookup_total_correct _ _ _ Hd) in HQ.
Qed.

Lemma view_put s b d x :
  length (img s) = Z.to_nat FSSIZE → 0 ≤ b < FSSIZE → 0 ≤ x → view (st_put s b d) x = vset (view s) b d x.
Proof.
  intros Hl Hb Hx. unfold view, vset. simpl. destruct (x =? b) eqn:E; bool_props.
  - subst. apply list_insert_total_lookup. rewrite Hl. mklia.
  - apply list_lookup_total_insert_ne. lia.
Qed.

Lemma IBLOCK_eq i : 0 ≤ i < NINODES → IBLOCK i sb = i / IPB + 32.
Proof.
  intros Hi. unfold IBLOCK. change (sb_inodestart sb) with 32. apply u32_id. unfold is_u32.
  change IPB with 8. assert (0 ≤ i / 8 < 25) by (change NINODES with 200 in *; divlia). lia.
Qed.

Lemma IBLOCK_range i : 0 ≤ i < NINODES → 2 + nlog ≤ IBLOCK i sb < nmeta.
Proof.
  intros Hi. rewrite IBLOCK_eq by done. change IPB with 8. change NINODES with 200 in *.
  change (2 + nlog) with 32. change nmeta with 59. divlia.
Qed.

(** ** Allocation, and writes to the file at [skip] *)

Lemma disk_ok_alloc s own files skip o :
  disk_ok s own files skip → freeblock s < FSSIZE →
  disk_ok (with_freeblock (freeblock s + 1) s) (give own (freeblock s) o) files skip.
Proof.
  intros [Hl Hok Hfi Hfb Hz Hb Hf] Hlt. split; try done; simpl.
  - lia.
  - intros b Hr. apply Hz. lia.
  - intros j ty c Hj Hs. destruct (Hf j ty c Hj Hs) as (addrs & Hd & Ha). exists addrs. split; [done|].
    eapply file_at_frame; [exact Ha|]. intros k a Hm. split; [done|]. by apply mine_give.
Qed.

Lemma disk_ok_put s own files i b d k :
  disk_ok s own files (Some i) → mine (freeblock s) own (Z.of_nat i + 1) k b → block_ok d →
  disk_ok (st_put s b d) own files (Some i).
Proof.
  intros Hdk Hm Hd. pose proof Hdk as [Hl Hok Hfi Hfb Hz Hb Hf]. destruct (Hm) as [Hr Ho].
  assert (Hv : ∀ x, 0 ≤ x → x ≠ b → view (st_put s b d) x = view s x).
  { intros x Hx Hne. rewrite view_put by (done || mklia). by apply vset_ne. }
  split; try done; simpl.
  - by rewrite length_insert.
  - intros x Hx. destruct (decide (x = b)) as [->|Hne]; [|rewrite Hv by lia; by apply Hok].
    rewrite view_put by (done || mklia). by rewrite vset_eq.
  - intros x Hx. rewrite Hv by mklia. by apply Hz.
  - intros x Hx. rewrite Hv by mklia. by apply Hb.
  - intros j ty c Hj Hs. destruct (Hf j ty c Hj Hs) as (addrs & Hdi & Ha). exists addrs.
    pose proof (lookup_lt_Some _ _ _ Hj). pose proof (IBLOCK_range (Z.of_nat j + 1) ltac:(lia)).
    split; [unfold dino; by rewrite Hv by mklia|].
    eapply file_at_frame; [exact Ha|]. intros k' a Hm'. split; [|done].
    apply Hv; [destruct Hm' as [? _]; mklia|]. intros ->.
    destruct (mine_fun _ _ _ _ _ _ _ Hm Hm') as [E _]. apply Hs. f_equal. lia.
Qed.

(** [d'] is [d] up to its addresses. *)
Definition same_but_addrs (d d' : dinode) : Prop :=
  d' = Dinode (d_type d) (d_major d) (d_minor d) (d_nlink d) (d_size d) (d_addrs d').

(** The file at [i] has block [fbn], [x] on disk. *)
Definition has_block (s : mkfs) files (i : nat) (din : dinode) nb hi c fbn (r : dinode * Z) (s' : mkfs) : Prop :=
  let nb' := Z.max nb (fbn + 1) in
  let hi' := hi || (NDIRECT <=? fbn) in
  same_but_addrs din r.1 ∧ r.2 = addr_of (view s') (ino (d_addrs r.1)) fbn ∧
  freeblock s' = freeblock s + (nb' + Z.b2z hi') - (nb + Z.b2z hi) ∧
  ∃ own', disk_ok s' own' files (Some i) ∧
    file_at (view s') (freeblock s') own' (Z.of_nat i + 1) (d_addrs r.1) nb' hi' c.

Lemma wp_next_block s (Q : Z → mkfs → Prop) :
  nmeta ≤ freeblock s < FSSIZE → Q (freeblock s) (with_freeblock (freeblock s + 1) s) → wp next_block Q s.
Proof.
  intros Hb HQ. unfold next_block. wp_steps. rewrite u32_id by (unfold is_u32; mklia). done.
Qed.

Section blocks.
Context (s : mkfs) (own : owner) (files : list (Z * list Z)) (i : nat) (din : dinode).
Context (nb : Z) (hi : bool) (c : list Z) (fbn : Z).
Hypothesis Hdk : disk_ok s own files (Some i).
Hypothesis Hf : file_at (view s) (freeblock s) own (Z.of_nat i + 1) (d_addrs din) nb hi c.
Hypothesis Hfbn : 0 ≤ fbn ≤ nb.

Lemma old_addr k : 0 ≤ k < MAXFILE →
  xint (addr_of (view s) (ino (d_addrs din)) k) = addr_of (view s) (ino (d_addrs din)) k.
Proof.
  intros Hk. apply xint_id. destruct (dk_fb _ _ _ _ Hdk) as [_ Hfb].
  pose proof (file_at_addr_u32 _ _ _ _ _ _ _ _ _ Hf Hfb Hk). unfold is_u32. mklia.
Qed.

Lemma wp_direct_block :
  fbn < NDIRECT → (fbn = nb → freeblock s < FSSIZE) →
  wp (direct_block din fbn) (has_block s files i din nb hi c fbn) s.
Proof.
  intros Hd Hroom. pose proof (dk_fb _ _ _ _ Hdk) as Hfb. pose proof (fa_len _ _ _ _ _ _ _ _ Hf) as Hlen.
  pose proof (old_addr fbn ltac:(fslia)) as Hold. rewrite addr_of_direct in Hold by done. simpl in Hold.
  unfold direct_block, ensure_addr. wp_step. rewrite Hold.
  assert (Hhi : hi || (NDIRECT <=? fbn) = hi) by (rewrite (proj2 (Z.leb_gt _ _)) by done; apply orb_false_r).
  destruct (decide (fbn = nb)) as [->|Hne].
  - pose proof (fa_free _ _ _ _ _ _ _ _ Hf nb ltac:(fslia)) as H0. rewrite addr_of_direct in H0 by done.
    simpl in H0. rewrite H0. simpl. specialize (Hroom eq_refl).
    wp_step. apply wp_next_block; [lia|]. wp_steps.
    rewrite xint_id by (unfold is_u32; mklia). unfold has_block. rewrite Hhi. simpl.
    rewrite Z.max_r by lia. split_and!; [done|..].
    + rewrite list_lookup_total_insert_eq by (rewrite Hlen; change naddrs with 13%nat; fslia).
      rewrite addr_of_insert_direct, Z.eqb_refl by (done || lia). apply xint_id. unfold is_u32. mklia.
    + lia.
    + eexists. split; [by apply disk_ok_alloc|].
      apply file_at_add_direct; [done..|lia|]. apply (dk_zero _ _ _ _ Hdk). lia.
  - destruct (fa_blocks _ _ _ _ _ _ _ _ Hf fbn ltac:(lia)) as [Hr _]. rewrite addr_of_direct in Hr by done.
    simpl in Hr. rewrite (proj2 (Z.eqb_neq _ _)) by mklia. wp_steps.
    unfold has_block. rewrite Hhi. simpl. rewrite Z.max_l by lia. split_and!; [by destruct din|..].
    + rewrite Hold, addr_of_direct by done. done.
    + lia.
    + by exists own.
Qed.

Lemma ind_mine : hi = true → mine (freeblock s) own (Z.of_nat i + 1) (-1) (ind_of (ino (d_addrs din))).
Proof. intros ->. apply (fa_hi _ _ _ _ _ _ _ _ Hf). Qed.

(** After the first half of the indirect case there is an indirect block. *)
Lemma wp_ensure_ind :
  nb + Z.b2z (negb hi) ≤ nb + FSSIZE - freeblock s →
  wp (ensure_addr din (Z.to_nat NDIRECT)) (λ d s', same_but_addrs din d ∧
    freeblock s' = freeblock s + Z.b2z (negb hi) ∧
    ∃ own', disk_ok s' own' files (Some i) ∧
      file_at (view s') (freeblock s') own' (Z.of_nat i + 1) (d_addrs d) nb true c) s.
Proof.
  intros Hroom. pose proof (dk_fb _ _ _ _ Hdk) as Hfb. pose proof (fa_hi _ _ _ _ _ _ _ _ Hf) as Hhi.
  rewrite ind_of_ino in Hhi. unfold ensure_addr. destruct hi; simpl in Hroom.
  - destruct Hhi as [Hr _]. rewrite xint_id by (unfold is_u32; mklia).
    rewrite (proj2 (Z.eqb_neq _ _)) by mklia. wp_step. split_and!; [by destruct din|simpl; lia|]. by exists own.
  - rewrite Hhi. change (xint 0 =? 0) with true. cbn match. wp_step.
    apply wp_next_block; [lia|]. wp_step. split_and!; [done|done|].
    rewrite xint_id by (unfold is_u32; mklia). eexists. split; [apply disk_ok_alloc; [done|lia]|].
    apply file_at_add_ind; [done|lia|]. apply (dk_zero _ _ _ _ Hdk). lia.
Qed.

Lemma wp_indirect_entry :
  NDIRECT ≤ fbn < MAXFILE → hi = true → (fbn = nb → freeblock s < FSSIZE) →
  wp (indirect_entry din fbn) (has_block s files i din nb hi c fbn) s.
Proof.
  intros Hd Hhi Hroom. pose proof (dk_fb _ _ _ _ Hdk) as Hfb. pose proof (ind_mine Hhi) as Him.
  destruct (Him) as [Hir _]. pose proof (mine_pos _ _ _ _ _ Him) as Hi0.
  pose proof (old_addr fbn ltac:(lia)) as Hold. rewrite addr_of_indirect in Hold by (done || lia).
  pose proof (dk_ok _ _ _ _ Hdk (ind_of (ino (d_addrs din))) ltac:(mklia)) as Hok.
  unfold indirect_entry. rewrite <- ind_of_ino, (xint_id (ind_of _)) by (unfold is_u32; mklia).
  wp_step. apply wp_rsect; [exact (dk_len _ _ _ _ Hdk)|mklia|]. destruct (decide (fbn = nb)) as [->|Hne].
  - pose proof (fa_free _ _ _ _ _ _ _ _ Hf nb ltac:(lia)) as H0. rewrite addr_of_indirect in H0 by (done || lia).
    rewrite H0. simpl (0 =? 0). cbn match. specialize (Hroom eq_refl).
    wp_step. apply wp_next_block; [lia|]. cbv beta zeta. rewrite xint_id by (unfold is_u32; mklia).
    wp_step. apply wp_wsect; [exact (dk_len _ _ _ _ Hdk)|mklia|]. cbv beta. wp_step.
    assert (Hft := Hf). rewrite Hhi in Hft.
    pose proof (file_at_add_entry _ (freeblock s) _ _ _ nb _ Hft ltac:(lia) ltac:(lia)
      (dk_zero _ _ _ _ Hdk (freeblock s) ltac:(lia)) (proj1 Hok)) as Hf'.
    pose proof (disk_ok_alloc _ _ _ _ (Z.of_nat i + 1, nb) Hdk Hroom) as Hdk'.
    pose proof (fa_hi _ _ _ _ _ _ _ _ Hf') as Him'. simpl in Him'.
    pose proof (put_u32_ok (Z.to_nat (4 * (nb - NDIRECT))) (freeblock s) _ ltac:(fslia) Hok) as Hok'.
    pose proof (disk_ok_put _ _ _ _ _ _ _ Hdk' Him' Hok') as Hdk2.
    unfold has_block. rewrite Hhi. simpl. rewrite Z.max_r by lia. split_and!; [by destruct din| |lia|].
    + rewrite addr_of_indirect by (done || lia). rewrite view_put by (done || exact (dk_len _ _ _ _ Hdk) || mklia).
      rewrite vset_eq. unfold get_u32, put_u32. rewrite get_put_le by (destruct Hok as [Hl _]; fslia).
      rewrite Z.mod_small by (change (256 ^ Z.of_nat 4) with 4294967296; mklia).
      apply xint_id. unfold is_u32. mklia.
    + eexists. split; [exact Hdk2|]. eapply file_at_frame; [exact Hf'|]. intros k a Hm. split; [|exact Hm].
      destruct Hm as [Ha _]. apply (view_put (with_freeblock (freeblock s + 1) s)); [exact (dk_len _ _ _ _ Hdk)|mklia|mklia].
  - destruct (fa_blocks _ _ _ _ _ _ _ _ Hf fbn ltac:(lia)) as [Hr _].
    rewrite addr_of_indirect in Hr by (done || lia). rewrite (proj2 (Z.eqb_neq _ _)) by mklia. wp_step.
    unfold has_block. rewrite Hhi. simpl. rewrite Z.max_l by lia. split_and!; [by destruct din| |lia|].
    + by rewrite addr_of_indirect by (done || lia).
    + exists own. by rewrite <- Hhi.
Qed.
End blocks.

(** ** Appending *)

Section append.
Context (files : list (Z * list Z)) (i : nat).

(** The file at [i] holds [c]; everything else is as [disk_ok] says. *)
Definition holds (s : mkfs) (own : owner) (din : dinode) (c : list Z) : Prop :=
  disk_ok s own files (Some i) ∧
  file_at (view s) (freeblock s) own (Z.of_nat i + 1) (d_addrs din) (nblk (Z.of_nat (length c)))
    (NDIRECT <? nblk (Z.of_nat (length c))) c.

(** The block that takes the next byte. *)
Lemma wp_find_block s own din c :
  holds s own din c → Z.of_nat (length c) < MAXFILE * BSIZE →
  freeblock s - need (Z.of_nat (length c)) + need (Z.of_nat (length c) + 1) ≤ FSSIZE →
  let fbn := Z.of_nat (length c) / BSIZE in
  wp (if fbn <? NDIRECT then direct_block din fbn else indirect_block din fbn) (λ r s',
    same_but_addrs din r.1 ∧ r.2 = addr_of (view s') (ino (d_addrs r.1)) fbn ∧
    freeblock s' = freeblock s - need (Z.of_nat (length c)) + need (Z.of_nat (length c) + 1) ∧
    ∃ own', disk_ok s' own' files (Some i) ∧
      file_at (view s') (freeblock s') own' (Z.of_nat i + 1) (d_addrs r.1) (fbn + 1) (NDIRECT <? fbn + 1) c) s.
Proof.
  intros [Hdk Hf] Hlen Hroom fbn. set (L := Z.of_nat (length c)) in *.
  assert (Hn1 : nblk (L + 1) = fbn + 1) by (unfold nblk, fbn; divlia).
  assert (Hnb : 0 ≤ fbn ≤ nblk L ≤ fbn + 1) by (unfold nblk, fbn; divlia).
  assert (Hmax : fbn < MAXFILE) by (unfold fbn; divlia).
  assert (Hmx : Z.max (nblk L) (fbn + 1) = fbn + 1) by lia.
  unfold need in *. rewrite Hn1 in *. destruct (fbn <? NDIRECT) eqn:E; bool_props.
  - assert (Hh : NDIRECT <? nblk L = false) by (apply Z.ltb_ge; fslia).
    assert (Hh' : NDIRECT <? fbn + 1 = false) by (apply Z.ltb_ge; fslia). rewrite Hh, Hh' in *. simpl in Hroom.
    eapply wp_mono; [apply (wp_direct_block _ _ _ _ _ _ _ _ _ Hdk Hf); [lia|done|lia]|].
    intros r s' (Hd & Hx & Hfb & own' & Hdk' & Hf'). rewrite Hmx in *. rewrite (proj2 (Z.leb_gt _ _)) in * by done.
    split_and!; [done..|simpl in *; lia|by exists own'].
  - assert (Hh' : NDIRECT <? fbn + 1 = true) by (apply Z.ltb_lt; fslia). rewrite Hh' in *.
    unfold indirect_block. wp_step.
    eapply wp_mono; [apply (wp_ensure_ind _ _ _ _ _ _ _ _ Hdk Hf); destruct (NDIRECT <? nblk L); simpl in *; lia|].
    intros d s1 (Hd & Hfb & own1 & Hdk1 & Hf1). cbv beta.
    eapply wp_mono; [apply (wp_indirect_entry _ _ _ _ _ _ _ _ fbn Hdk1 Hf1); [lia|lia|done|]|].
    { intros Hb. destruct (NDIRECT <? nblk L); simpl in *; lia. }
    intros r s' (Hd' & Hx & Hfb' & own' & Hdk' & Hf'). rewrite Hmx in *. simpl in Hf', Hfb'.
    split_and!; [by rewrite Hd', Hd|done| |by exists own'].
    destruct (NDIRECT <? nblk L); simpl in *; lia.
Qed.

Lemma same_but_addrs_trans d1 d2 d3 : same_but_addrs d1 d2 → same_but_addrs d2 d3 → same_but_addrs d1 d3.
Proof. unfold same_but_addrs. intros E2 E3. rewrite E3, E2. done. Qed.

Lemma step_size n off : 0 < n < 2 ^ 31 → 0 ≤ off < MAXFILE * BSIZE →
  min_u32 (u32 n) (u32 ((off / BSIZE + 1) * BSIZE - off)) = Z.min n (BSIZE - off mod BSIZE).
Proof.
  intros Hn Ho. rewrite !u32_id by (unfold is_u32; divlia). unfold min_u32.
  destruct (_ <? _) eqn:E; bool_props; divlia.
Qed.

(** One turn of the loop writes the bytes that fit the block. *)
Lemma append_block s own din c nb hi p x n1 :
  disk_ok s own files (Some i) →
  let off := Z.of_nat (length c) in
  file_at (view s) (freeblock s) own (Z.of_nat i + 1) (d_addrs din) nb hi c → off / BSIZE < nb →
  x = addr_of (view s) (ino (d_addrs din)) (off / BSIZE) → Forall is_byte p →
  0 ≤ n1 ≤ Z.of_nat (length p) → off mod BSIZE + n1 ≤ BSIZE →
  let s' := st_put s x (splice (Z.to_nat (off mod BSIZE)) (take (Z.to_nat n1) p) (view s x)) in
  0 ≤ x < FSSIZE ∧ disk_ok s' own files (Some i) ∧
  file_at (view s') (freeblock s') own (Z.of_nat i + 1) (d_addrs din) nb hi (c ++ take (Z.to_nat n1) p).
Proof.
  intros Hdk off Hf Hnb -> Hp Hn1 Hfit. cbv zeta. set (x := addr_of _ _ _).
  pose proof (dk_fb _ _ _ _ Hdk) as Hfb. pose proof (dk_len _ _ _ _ Hdk) as Hl.
  assert (Hm : mine (freeblock s) own (Z.of_nat i + 1) (off / BSIZE) x).
  { apply (fa_blocks _ _ _ _ _ _ _ _ Hf). unfold off in *. divlia. }
  destruct (Hm) as [Hx _]. destruct (dk_ok _ _ _ _ Hdk x ltac:(mklia)) as [Hxl Hxb].
  split; [mklia|]. split.
  - eapply disk_ok_put; [done..|]. split.
    + rewrite length_splice; [done|]. rewrite Hxl, length_take. divlia.
    + apply Forall_splice; [done|]. by apply Forall_take.
  - eapply file_at_frame.
    + apply (file_at_write _ _ _ _ _ _ _ _ (take (Z.to_nat n1) p) Hf Hnb).
      * rewrite length_take. fold off. lia.
      * exact Hxl.
    + intros k a Hma. split; [|exact Hma]. destruct Hma as [Ha _]. apply (view_put s x); [done|mklia|mklia].
Qed.

Lemma wp_iappend_loop fuel s own din c p :
  holds s own din c → Forall is_byte p → (length p < fuel)%nat →
  Z.of_nat (length c) + Z.of_nat (length p) ≤ MAXFILE * BSIZE →
  freeblock s - need (Z.of_nat (length c)) + need (Z.of_nat (length (c ++ p))) ≤ FSSIZE →
  wp (iappend_loop fuel din (Z.of_nat (length c)) p (Z.of_nat (length p))) (λ r s',
    r.2 = Z.of_nat (length (c ++ p)) ∧ same_but_addrs din r.1 ∧
    freeblock s' = freeblock s - need (Z.of_nat (length c)) + need (Z.of_nat (length (c ++ p))) ∧
    ∃ own', holds s' own' r.1 (c ++ p)) s.
Proof.
  revert s own din c p. induction fuel as [|f IH]; intros s own din c p Hh Hp Hfu Hmax Hroom; [lia|].
  cbn [iappend_loop]. destruct (0 <? Z.of_nat (length p)) eqn:E; bool_props.
  2:{ destruct p as [|? p]; [|simpl in *; lia]. rewrite app_nil_r in *. wp_step. simpl.
      split_and!; [done|by destruct din|lia|by exists own]. }
  set (L := Z.of_nat (length c)) in *. rewrite length_app, Nat2Z.inj_add in Hroom |- *. fold L in Hroom |- *.
  assert (HL : 0 ≤ L < MAXFILE * BSIZE) by (unfold L in *; lia).
  rewrite (proj2 (Z.ltb_lt _ _)) by divlia. cbn match beta iota delta [negb]. wp_step.
  pose proof (need_mono (L + 1) (L + Z.of_nat (length p)) ltac:(lia)) as Hmono.
  eapply wp_mono; [apply (wp_find_block s own din c Hh); fold L; lia|]. fold L.
  intros [d x] s1 (Hd & Hx & Hfb1 & own1 & Hdk1 & Hf1). cbv beta iota zeta.
  rewrite step_size by (split; fslia). set (n1 := Z.min _ _).
  assert (Hn1 : 0 < n1 ≤ Z.of_nat (length p) ∧ L mod BSIZE + n1 ≤ BSIZE) by (unfold n1; divlia).
  destruct (append_block s1 own1 d c _ _ p x n1 Hdk1 Hf1) as (Hxr & Hdk2 & Hf2); [fold L; lia|done|done|lia|fold L; lia|].
  fold L in Hdk2, Hf2. replace (L - L / BSIZE * BSIZE) with (L mod BSIZE) by divlia.
  wp_step. apply wp_rsect; [exact (dk_len _ _ _ _ Hdk1)|done|]. cbv beta.
  wp_step. apply wp_wsect; [exact (dk_len _ _ _ _ Hdk1)|done|]. cbv beta.
  assert (Hlc : Z.of_nat (length (c ++ take (Z.to_nat n1) p)) = L + n1).
  { rewrite length_app, length_take. unfold L in *. lia. }
  rewrite u32_id by (unfold is_u32; fslia). rewrite i32_id by (unfold is_i32; fslia). rewrite <- Hlc.
  replace (Z.of_nat (length p) - n1) with (Z.of_nat (length (drop (Z.to_nat n1) p))) by (rewrite length_drop; lia).
  assert (Hnb : nblk (L + n1) = L / BSIZE + 1) by (unfold nblk; divlia).
  assert (Hneed : need (L + 1) = need (L + n1)).
  { unfold need. rewrite Hnb. replace (nblk (L + 1)) with (L / BSIZE + 1); [done|]. unfold nblk; divlia. }
  eapply wp_mono.
  - eapply (IH _ own1 d); [split; [exact Hdk2|]|by apply Forall_drop|rewrite length_drop; lia|..].
    + rewrite Hlc, Hnb. exact Hf2.
    + rewrite Hlc, length_drop. lia.
    + rewrite <- app_assoc, take_drop, Hlc, length_app. simpl. rewrite Hfb1, Nat2Z.inj_add. fold L. lia.
  - rewrite <- app_assoc, take_drop, Hlc, length_app, Nat2Z.inj_add. fold L. simpl.
    intros r s2 (Hr & Hd2 & Hfb2 & own2 & Hh2).
    split_and!; [done|by eapply same_but_addrs_trans|lia|by exists own2].
Qed.
End append.

(** ** Inodes *)

Lemma dinode_off_other i j :
  0 ≤ i < NINODES → 0 ≤ j < NINODES → i ≠ j → IBLOCK i sb = IBLOCK j sb →
  (dinode_off j + 64 ≤ dinode_off i ∨ dinode_off i + 64 ≤ dinode_off j)%nat.
Proof.
  intros Hi Hj Hne. rewrite !IBLOCK_eq by done. unfold dinode_off, sizeof_dinode.
  change IPB with 8. intros E. Z.to_euclidean_division_equations. lia.
Qed.

Lemma put_inode s own files i d :
  disk_ok s own files (Some i) → (i < length files)%nat → dinode_wf d →
  let n := Z.of_nat i + 1 in
  let s' := st_put s (IBLOCK n sb) (splice (dinode_off n) (dinode_bytes d) (view s (IBLOCK n sb))) in
  disk_ok s' own files (Some i) ∧ dino s' n = d ∧ (∀ b, nmeta ≤ b → view s' b = view s b).
Proof.
  intros Hdk Hi Hd n s'. pose proof Hdk as [Hl Hok [Hfi Hfi'] Hfb Hz Hb Hf].
  pose proof (length_dinode_bytes d ltac:(by apply Hd)) as Hdl.
  assert (Hn : 0 ≤ n < NINODES) by lia. pose proof (IBLOCK_range n Hn) as Hr.
  destruct (Hok (IBLOCK n sb) ltac:(mklia)) as [Hbl Hbb].
  pose proof (dinode_off_bound n ltac:(lia)) as Hoff.
  assert (Hv : ∀ x, 0 ≤ x → view s' x = vset (view s) (IBLOCK n sb)
    (splice (dinode_off n) (dinode_bytes d) (view s (IBLOCK n sb))) x).
  { intros x Hx. apply view_put; [done|mklia|done]. }
  assert (Hv' : ∀ x, 0 ≤ x → x ≠ IBLOCK n sb → view s' x = view s x).
  { intros x Hx Hne. rewrite Hv by done. by apply vset_ne. }
  assert (Hmeta : ∀ b, nmeta ≤ b → view s' b = view s b) by (intros; apply Hv'; mklia).
  split_and!; [|unfold dino; rewrite Hv, vset_eq by mklia; apply get_dinode_splice; [done|lia]|done].
  split; try done.
  - simpl. by rewrite length_insert.
  - intros b Hbr. destruct (decide (b = IBLOCK n sb)) as [->|Hne]; [|rewrite Hv' by lia; by apply Hok].
    rewrite Hv, vset_eq by lia. split; [rewrite length_splice; lia|].
    apply Forall_splice; [done|]. unfold dinode_bytes. repeat (apply Forall_app_2; [apply le_bytes|]).
    apply addr_bytes_ok.
  - intros b Hbr. rewrite Hmeta by (simpl in *; lia). by apply Hz.
  - intros b Hbr. rewrite Hv' by mklia. by apply Hb.
  - intros j ty c Hj Hs. destruct (Hf j ty c Hj Hs) as (addrs & Hdi & Ha). exists addrs.
    pose proof (lookup_lt_Some _ _ _ Hj) as Hjl. set (m := Z.of_nat j + 1) in *.
    assert (Hm : 0 ≤ m < NINODES) by lia. pose proof (IBLOCK_range m Hm) as Hmr. split.
    + rewrite <- Hdi. unfold dino. rewrite Hv by mklia.
      destruct (decide (IBLOCK m sb = IBLOCK n sb)) as [E|E]; [|by rewrite vset_ne].
      rewrite E, vset_eq. apply get_dinode_other; [done|lia|].
      apply dinode_off_other; [done..| |by symmetry]. intros Enm. apply Hs. f_equal. lia.
    + eapply file_at_frame; [exact Ha|]. intros k a Hma. split; [|exact Hma].
      destruct Hma as [Har _]. apply Hmeta. lia.
Qed.

Lemma wp_winode s own files i d (Q : unit → mkfs → Prop) :
  disk_ok s own files (Some i) → (i < length files)%nat → dinode_wf d →
  (∀ s', disk_ok s' own files (Some i) → dino s' (Z.of_nat i + 1) = d →
    freeblock s' = freeblock s → (∀ b, nmeta ≤ b → view s' b = view s b) → Q tt s') →
  wp (winode (Z.of_nat i + 1) d) Q s.
Proof.
  intros Hdk Hi Hd HQ. destruct (put_inode s own files i d Hdk Hi Hd) as (Hdk' & Hd' & Hv).
  pose proof (dk_fi _ _ _ _ Hdk) as [Hfi Hfi'].
  pose proof (IBLOCK_range (Z.of_nat i + 1) ltac:(lia)) as Hr.
  unfold winode. wp_step. apply wp_rsect; [exact (dk_len _ _ _ _ Hdk)|mklia|]. cbv beta.
  apply wp_wsect; [exact (dk_len _ _ _ _ Hdk)|mklia|]. by apply HQ.
Qed.

Lemma wp_rinode s own files skip i (Q : dinode → mkfs → Prop) :
  disk_ok s own files skip → (i < length files)%nat → Q (dino s (Z.of_nat i + 1)) s →
  wp (rinode (Z.of_nat i + 1)) Q s.
Proof.
  intros Hdk Hi HQ. pose proof (dk_fi _ _ _ _ Hdk) as [Hfi Hfi'].
  pose proof (IBLOCK_range (Z.of_nat i + 1) ltac:(lia)) as Hr.
  unfold rinode. wp_step. apply wp_rsect; [exact (dk_len _ _ _ _ Hdk)|mklia|]. by wp_step.
Qed.

Lemma disk_ok_open s own files i : disk_ok s own files None → disk_ok s own files (Some i).
Proof. intros [Hl Hok Hfi Hfb Hz Hb Hf]. split; try done. intros. by eapply Hf. Qed.

Lemma disk_ok_close s own files i ty c addrs :
  disk_ok s own files (Some i) → (i < length files)%nat →
  dino s (Z.of_nat i + 1) = Dinode ty 0 0 1 (Z.of_nat (length c)) addrs →
  file_at (view s) (freeblock s) own (Z.of_nat i + 1) addrs (nblk (Z.of_nat (length c)))
    (NDIRECT <? nblk (Z.of_nat (length c))) c →
  disk_ok s own (<[i := (ty, c)]> files) None.
Proof.
  intros [Hl Hok Hfi Hfb Hz Hb Hf] Hi Hd Ha. split; try done.
  - by rewrite length_insert.
  - intros j ty' c' Hj _. destruct (decide (j = i)) as [->|Hne].
    + rewrite list_lookup_insert_eq in Hj by done. injection Hj as <- <-. by exists addrs.
    + rewrite list_lookup_insert_ne in Hj by done. apply (Hf j _ _ Hj). congruence.
Qed.

Definition total (files : list (Z * list Z)) : Z :=
  foldr (λ f t, need (Z.of_nat (length f.2)) + t) 0 files.

Lemma total_app f1 f2 : total (f1 ++ f2) = total f1 + total f2.
Proof. induction f1 as [|f f1 IH]; simpl; [done|]. unfold total in *. rewrite IH. lia. Qed.

Lemma total_insert files i ty c ty' c' :
  files !! i = Some (ty, c) →
  total (<[i := (ty', c')]> files) = total files - need (Z.of_nat (length c)) + need (Z.of_nat (length c')).
Proof.
  revert i. induction files as [|f files IH]; intros [|i] Hi; simplify_eq/=; [lia|].
  unfold total in *. rewrite (IH _ Hi). lia.
Qed.

(** The image holds exactly [files], and has given out the blocks they need. *)
Definition image (s : mkfs) (own : owner) (files : list (Z * list Z)) : Prop :=
  disk_ok s own files None ∧ freeblock s = nmeta + total files.

Lemma wp_iappend s own files i ty c p :
  image s own files → files !! i = Some (ty, c) → is_i16 ty → Forall is_byte p →
  Z.of_nat (length c) + Z.of_nat (length p) ≤ MAXFILE * BSIZE →
  nmeta + total (<[i := (ty, c ++ p)]> files) ≤ FSSIZE →
  wp (iappend (Z.of_nat i + 1) p (Z.of_nat (length p))) (λ _ s', ∃ own',
    image s' own' (<[i := (ty, c ++ p)]> files)) s.
Proof.
  intros [Hdk Hfb] Hi Hty Hp Hmax Hroom. pose proof (lookup_lt_Some _ _ _ Hi) as Hil.
  destruct (dk_files _ _ _ _ Hdk i ty c Hi ltac:(done)) as (addrs & Hd & Hf).
  rewrite (total_insert _ _ ty c) in Hroom by done.
  unfold iappend. wp_step. eapply wp_rinode; [done..|]. cbv beta zeta. rewrite Hd. simpl d_size.
  rewrite xint_id by (unfold is_u32; fslia). wp_step.
  eapply wp_mono.
  { apply (wp_iappend_loop files i _ s own _ c p); [split; [by apply disk_ok_open|exact Hf]|done|lia|done|lia]. }
  intros [d off] s1 (Hoff & Hsame & Hfb1 & own1 & Hdk1 & Hf1). simpl in Hoff, Hsame, Hf1. cbv beta iota.
  assert (Hs : with_size (xint off) d = Dinode ty 0 0 1 (Z.of_nat (length (c ++ p))) (d_addrs d)).
  { unfold with_size. rewrite Hsame. simpl. rewrite Hoff, xint_id; [done|].
    rewrite length_app. unfold is_u32. fslia. }
  rewrite Hs. eapply wp_winode; [exact Hdk1|done| |].
  - pose proof (dk_fb _ _ _ _ Hdk1) as [_ Hfb1'].
    split_and!; try done; [split_and!; unfold is_u32; rewrite ?length_app; simpl; fslia..|by eapply file_at_u32|].
    by apply (fa_len _ _ _ _ _ _ _ _ Hf1).
  - intros s2 Hdk2 Hd2 Hfb2 Hv. exists own1. split.
    + eapply disk_ok_close; [done..|]. eapply file_at_frame; [exact Hf1|].
      intros k a Hm. rewrite Hfb2. split; [|done]. apply Hv. by apply Hm.
    + rewrite (total_insert _ _ ty c) by done. lia.
Qed.

Lemma total_nonneg files : 0 ≤ total files.
Proof.
  induction files as [|f files IH]; simpl; [done|]. unfold total in *.
  pose proof (need_nonneg (Z.of_nat (length f.2)) ltac:(lia)). lia.
Qed.

Lemma file_at_empty v fb own i : file_at v fb own i (replicate naddrs 0) 0 false [].
Proof.
  assert (Ha : ∀ k, 0 ≤ k → addr_of v (ino (replicate naddrs 0)) k = 0).
  { intros k Hk. unfold addr_of. destruct (k <? NDIRECT) eqn:E; bool_props; [|done].
    unfold ino. cbn [i_addrs]. apply lookup_total_replicate_2. change naddrs with 13%nat. fslia. }
  split; try done; try lia.
  - intros k Hk. apply Ha. lia.
  - intros o Ho. unfold fbyte. rewrite Ha by divlia. by destruct (Z.to_nat o).
Qed.

Lemma lookup_snoc {A} (l : list A) x : (l ++ [x]) !! length l = Some x.
Proof. by rewrite lookup_app_r, Nat.sub_diag by done. Qed.

Lemma disk_ok_new s own files ty :
  disk_ok s own files None → freeinode s < NINODES →
  disk_ok (with_freeinode (freeinode s + 1) s) own (files ++ [(ty, [])]) (Some (length files)).
Proof.
  intros [Hl Hok [Hfi _] Hfb Hz Hb Hf] Hlt. split; try done.
  - simpl. rewrite length_app. simpl. lia.
  - intros j ty' c Hj Hs. apply lookup_app_Some in Hj as [Hj|[Hge Hj]]; [by apply (Hf j ty')|].
    apply lookup_lt_Some in Hj. simpl in Hj. exfalso. apply Hs. f_equal. lia.
Qed.

Lemma wp_ialloc s own files ty :
  image s own files → freeinode s < NINODES → 0 ≤ ty < 2 ^ 15 →
  wp (ialloc ty) (λ n s', n = Z.of_nat (length files) + 1 ∧ image s' own (files ++ [(ty, [])])) s.
Proof.
  intros [Hdk Hfb] Hlt Hty. pose proof (dk_fi _ _ _ _ Hdk) as [Hfi _].
  rewrite Z.add_comm in Hfi. unfold ialloc. wp_steps. rewrite Hfi, u32_id by (unfold is_u32; mklia).
  replace (xshort ty) with ty; [|unfold xshort; rewrite le_val_le; symmetry; apply Z.mod_small; simpl; lia].
  pose proof (disk_ok_new _ _ _ ty Hdk Hlt) as Hdk1. rewrite Hfi in Hdk1.
  eapply wp_winode; [exact Hdk1|rewrite length_app; simpl; lia| |].
  - split; [split_and!; try done; unfold is_i16; simpl; lia|]. split; [done|].
    split; [by apply (Forall_replicate is_u32)|done].
  - intros s2 Hdk2 Hd2 Hfb2 Hv. wp_step. split; [done|]. split.
    + replace (files ++ [(ty, [])]) with (<[length files := (ty, [])]> (files ++ [(ty, [])])) by apply list_insert_id, lookup_snoc.
      eapply disk_ok_close; [done|rewrite length_app; simpl; lia|exact Hd2|apply file_at_empty].
    + rewrite total_app, Hfb2. replace (total [(ty, [])]) with 0 by done. simpl. lia.
Qed.

(** ** The arguments *)

Definition content (f : hostfile) : list Z := concat (default [] (hf_reads f)).

(** A file that can be read, with no slash in its name, not longer than a file may be. *)
Record file_ok (f : hostfile) : Prop := {
  fo_name : Forall is_byte (hf_name f) ∧ existsb (Z.eqb 47) (hf_name f) = false;
  fo_reads : ∃ reads, hf_reads f = Some reads ∧ Forall (Forall is_byte) reads;
  fo_size : Z.of_nat (length (content f)) ≤ MAXFILE * BSIZE
}.

(** What the directory gets: one entry per argument, inodes from [n] on. *)
Fixpoint entries (n : Z) (args : list hostfile) : list (list Z) :=
  match args with
  | [] => []
  | f :: args' => dirent n (name14 (skip_underscore (hf_name f))) :: entries (n + 1) args'
  end.

Lemma name14_eq s : name14 s = cpre (ptr_of s) 14 ++ replicate (14 - length (cpre (ptr_of s) 14)) 0.
Proof.
  unfold name14. rewrite strncpy_spec by (done || (rewrite length_replicate; done)).
  unfold no_name. change (Z.to_nat DIRSIZ) with 14%nat. apply splice_all.
  pose proof (length_cpre (ptr_of s) 14). rewrite length_app, !length_replicate. lia.
Qed.

Lemma cpre_bytes s n : Forall is_byte s → Forall is_byte (cpre (ptr_of s) n).
Proof.
  intros Hs. apply Forall_lookup. intros k x Hk. pose proof (lookup_lt_Some _ _ _ Hk) as Hl.
  rewrite cpre_lookup in Hk by done. injection Hk as <-. unfold ptr_of. rewrite nth_lookup.
  destruct (s !! k) eqn:E; [by eapply Forall_lookup_1 in E|done].
Qed.

Lemma name14_ok s : Forall is_byte s → Forall is_byte (name14 s) ∧ length (name14 s) = 14%nat.
Proof.
  intros Hs. rewrite name14_eq. pose proof (length_cpre (ptr_of s) 14). split.
  - apply Forall_app. split; [by apply cpre_bytes|]. by apply Forall_replicate.
  - rewrite length_app, length_replicate. lia.
Qed.

Lemma skip_underscore_ok s : Forall is_byte s → Forall is_byte (skip_underscore s).
Proof. intros Hs. destruct s as [|c s]; [done|]. simpl. destruct (_ =? _); [|done]. by inversion Hs. Qed.

Lemma dirent_ok n name : Forall is_byte name → length name = 14%nat →
  Forall is_byte (dirent n name) ∧ length (dirent n name) = 16%nat.
Proof.
  intros Hb Hl. unfold dirent. split; [apply Forall_app; split; [apply le_bytes|done]|].
  by rewrite length_app, length_le, Hl.
Qed.

Lemma entry_ok n f : file_ok f →
  let e := dirent n (name14 (skip_underscore (hf_name f))) in Forall is_byte e ∧ length e = 16%nat.
Proof.
  intros [[Hb _] _ _]. apply skip_underscore_ok, name14_ok in Hb as [? ?]. by apply dirent_ok.
Qed.

Lemma length_entries n args : Forall file_ok args →
  length (concat (entries n args)) = (16 * length args)%nat.
Proof.
  intros Hargs. revert n. induction Hargs as [|f args Hf _ IH]; intros n; [done|].
  cbn [entries concat]. rewrite length_app, IH. destruct (entry_ok n f Hf) as [_ ->]. simpl. lia.
Qed.

Lemma wp_append_reads s own files i ty c reads :
  image s own files → files !! i = Some (ty, c) → is_i16 ty → Forall (Forall is_byte) reads →
  Z.of_nat (length (c ++ concat reads)) ≤ MAXFILE * BSIZE →
  nmeta + total (<[i := (ty, c ++ concat reads)]> files) ≤ FSSIZE →
  wp (append_reads (Z.of_nat i + 1) reads) (λ _ s', ∃ own',
    image s' own' (<[i := (ty, c ++ concat reads)]> files)) s.
Proof.
  intros Him Hi Hty Hr. revert s own files c Him Hi. induction Hr as [|p reads Hp Hr IH];
    intros s own files c Him Hi Hmax Hroom; cbn [append_reads concat] in *.
  - wp_step. exists own. rewrite app_nil_r. by rewrite list_insert_id.
  - rewrite app_assoc in *. pose proof (lookup_lt_Some _ _ _ Hi).
    rewrite (total_insert _ _ ty c) in Hroom by done. wp_step. eapply wp_mono.
    { apply (wp_iappend s own files i ty c p); try done.
      - rewrite !length_app in Hmax. lia.
      - rewrite (total_insert _ _ ty c) by done. etransitivity; [|exact Hroom].
        pose proof (need_mono (Z.of_nat (length (c ++ p))) (Z.of_nat (length ((c ++ p) ++ concat reads)))
          ltac:(rewrite !length_app; lia)). lia. }
    intros _ s1 (own1 & Him1). cbv beta.
    eapply wp_mono; [apply (IH s1 own1 _ (c ++ p) Him1); [by apply list_lookup_insert_eq|done|]|].
    + rewrite list_insert_insert_eq, (total_insert _ _ ty c) by done. done.
    + intros _ s2 (own2 & Him2). exists own2. by rewrite list_insert_insert_eq in Him2.
Qed.

(** ** The files of the command line *)

Definition fileof (f : hostfile) : Z * list Z := (T_FILE, content f).

Lemma total_cons f files : total (f :: files) = need (Z.of_nat (length f.2)) + total files.
Proof. done. Qed.

Lemma wp_root_entry s own rc rest e :
  image s own ((T_DIR, rc) :: rest) → Forall is_byte e → length e = 16%nat →
  Z.of_nat (length rc) + 16 ≤ MAXFILE * BSIZE →
  nmeta + total ((T_DIR, rc ++ e) :: rest) ≤ FSSIZE →
  wp (iappend ROOTINO e sizeof_dirent) (λ _ s', ∃ own', image s' own' ((T_DIR, rc ++ e) :: rest)) s.
Proof.
  intros Him He Hl Hmax Hroom.
  pose proof (wp_iappend s own _ 0 T_DIR rc e Him eq_refl ltac:(done) He) as Hw. rewrite Hl in Hw.
  by apply Hw.
Qed.

Lemma wp_add_file s own rc rest f :
  image s own ((T_DIR, rc) :: rest) → file_ok f → Z.of_nat (length rest) + 3 ≤ NINODES →
  Z.of_nat (length rc) + 16 ≤ MAXFILE * BSIZE →
  let e := dirent (Z.of_nat (length rest) + 2) (name14 (skip_underscore (hf_name f))) in
  nmeta + total ((T_DIR, rc ++ e) :: rest ++ [fileof f]) ≤ FSSIZE →
  wp (add_file ROOTINO f) (λ _ s', ∃ own', image s' own' ((T_DIR, rc ++ e) :: rest ++ [fileof f])) s.
Proof.
  intros Him Hf Hn Hmax e Hroom. pose proof (entry_ok (Z.of_nat (length rest) + 2) f Hf) as [He Hel].
  fold e in He, Hel. destruct (Hf) as [[_ Hsl] (reads & Hr & Hrb) Hsz].
  unfold add_file. rewrite Hsl, Hr. wp_step.
  pose proof (dk_fi _ _ _ _ (proj1 Him)) as [Hfi _]. simpl in Hfi.
  eapply wp_mono; [apply (wp_ialloc _ _ _ T_FILE Him); [lia|done]|].
  intros n s1 [-> Him1]. cbv beta.
  replace (Z.of_nat (length ((T_DIR, rc) :: rest)) + 1) with (Z.of_nat (length rest) + 2) by (simpl; lia).
  fold e. wp_step. cbn [app] in Him1. rewrite !total_cons, !total_app in Hroom. simpl snd in Hroom.
  assert (Hroom1 : nmeta + total ((T_DIR, rc ++ e) :: rest ++ [(T_FILE, [])]) ≤ FSSIZE).
  { rewrite !total_cons, !total_app. simpl snd. change (total [(T_FILE, [])]) with 0.
    pose proof (total_nonneg [fileof f]). lia. }
  eapply wp_mono; [apply (wp_root_entry _ _ _ _ _ Him1 He Hel Hmax Hroom1)|].
  intros _ s2 (own2 & Him2). cbv beta.
  set (fs := (T_DIR, rc ++ e) :: rest) in *.
  assert (Hfs : ∀ x, (T_DIR, rc ++ e) :: rest ++ [x] = fs ++ [x]) by done. rewrite Hfs in *.
  pose proof (wp_append_reads s2 own2 _ (length fs) T_FILE [] reads Him2 (lookup_snoc _ _) ltac:(done) Hrb) as Hw.
  rewrite insert_app_r_alt, Nat.sub_diag in Hw by done. simpl in Hw.
  assert (Hc : concat reads = content f) by (unfold content; by rewrite Hr). rewrite Hc in Hw.
  replace (Z.of_nat (length rest) + 2) with (Z.of_nat (length fs) + 1) by (unfold fs; simpl; lia).
  apply Hw; [done|]. rewrite total_app. unfold fs. rewrite !total_cons. unfold fileof in Hroom.
  rewrite total_cons in Hroom. simpl snd in *. lia.
Qed.

Lemma wp_add_files args : ∀ s own rc rest,
  image s own ((T_DIR, rc) :: rest) → Forall file_ok args →
  Z.of_nat (length rest) + Z.of_nat (length args) + 2 ≤ NINODES →
  Z.of_nat (length rc) + 16 * Z.of_nat (length args) ≤ MAXFILE * BSIZE →
  let rc' := rc ++ concat (entries (Z.of_nat (length rest) + 2) args) in
  nmeta + total ((T_DIR, rc') :: rest ++ (fileof <$> args)) ≤ FSSIZE →
  wp (add_files ROOTINO args) (λ _ s', ∃ own', image s' own' ((T_DIR, rc') :: rest ++ (fileof <$> args))) s.
Proof.
  induction args as [|f args IH]; intros s own rc rest Him Hargs Hn Hmax rc' Hroom; cbn [add_files].
  - wp_step. exists own. unfold rc'. simpl. by rewrite !app_nil_r.
  - apply Forall_cons in Hargs as [Hf Hargs]. unfold rc' in *. clear rc'. cbn [entries concat length fmap list_fmap] in *.
    set (e := dirent (Z.of_nat (length rest) + 2) _) in *.
    assert (Hel : length e = 16%nat) by (by apply (entry_ok _ f Hf)).
    rewrite app_assoc, (cons_middle (fileof f)), (app_assoc rest) in *.
    wp_step. eapply wp_mono.
    { apply (wp_add_file _ _ _ _ f Him Hf); [simpl in *; lia..|]. fold e.
      etransitivity; [|exact Hroom]. rewrite !total_cons, !total_app. simpl snd.
      pose proof (total_nonneg (fileof <$> args)).
      pose proof (need_mono (Z.of_nat (length (rc ++ e)))
        (Z.of_nat (length ((rc ++ e) ++ concat (entries (Z.of_nat (length rest) + 2 + 1) args))))
        ltac:(rewrite !length_app; lia)). lia. }
    intros _ s1 (own1 & Him1). fold e in Him1. cbv beta.
    pose proof (IH s1 own1 (rc ++ e) (rest ++ [fileof f]) Him1 Hargs) as Hw. cbv zeta in Hw.
    replace (Z.of_nat (length (rest ++ [fileof f])) + 2) with (Z.of_nat (length rest) + 2 + 1) in Hw
      by (rewrite length_app; simpl; lia).
    rewrite !length_app, Hel in Hw. apply Hw; [simpl; lia|lia|exact Hroom].
Qed.
