(* ===== verification/MkfsProps.v ===== *)
(** * mkfs.c builds the image fs.c expects *)

From S2P Require Import Prelude Words Params CString Locks BufIface Redo Log LogCrash LogInv Fs FsRules.
From S2P Require Import Bio BioLaws FsRules FsBlocks FsFile FsFileProps FsInode FsDir Mkfs MkfsFile MkfsSpec.

(** Inode [n] as [ilock] loads it from the image. *)
Definition inode_at (v : Z → block) (n : Z) : inode :=
  load_dinode (get_dinode (dinode_off n) (v (IBLOCK n sb))) zero_inode.

Definition root_entries (args : list hostfile) : list (list Z) :=
  dirent ROOTINO dot_name :: dirent ROOTINO dotdot_name :: entries 2 args.

(** The finished image, read with the functions that describe the kernel's
    view of a disk: the super block, an empty log, a free map that marks
    exactly the blocks below [fb], a root directory with one entry per file,
    files with the bytes of the host's, and no block in two places. *)
Record image_ok (v : Z → block) (fb : Z) (args : list hostfile) : Prop := {
  io_sb : sb_of_bytes (v 1) = sb;
  io_log : ∀ b, sb_logstart sb ≤ b < sb_logstart sb + sb_nlog sb → v b = zero_block;
  io_used : nmeta ≤ fb ≤ sb_size sb ∧ ∀ b, 0 ≤ b < sb_size sb → used sb v b = (b <? fb);
  io_root : let r := inode_at v ROOTINO in i_type r = T_DIR ∧ i_nlink r = 1 ∧
    i_size r = (sizeof_dirent * (Z.of_nat (length args) + 2) / BSIZE + 1) * BSIZE;
  io_dir : let r := inode_at v ROOTINO in ∀ k, 0 ≤ k < i_size r / sizeof_dirent →
    dent v r k = nth (Z.to_nat k) (root_entries args) (replicate 16 0);
  io_file : ∀ k f, args !! k = Some f → let i := inode_at v (Z.of_nat k + 2) in
    i_type i = T_FILE ∧ i_nlink i = 1 ∧ i_size i = Z.of_nat (length (content f)) ∧
    frange v i 0 (i_size i) = content f;
  io_own : ∃ own : owner, ∀ n, 1 ≤ n < Z.of_nat (length args) + 2 →
    (∀ k, 0 ≤ k < MAXFILE → addr_of v (inode_at v n) k ≠ 0 → mine fb own n k (addr_of v (inode_at v n) k)) ∧
    (ind_of (inode_at v n) ≠ 0 → mine fb own n (-1) (ind_of (inode_at v n)))
}.

(** ** Reading a file through the kernel's functions *)

Section read.
Context (v : Z → block) (fb : Z) (own : owner) (n : Z) (addrs : list Z) (nb : Z) (hi : bool) (c : list Z).
Hypothesis Hf : file_at v fb own n addrs nb hi c.
Context (i : inode).
Hypothesis Hi : i_addrs i = addrs.

Lemma addr_of_same k : addr_of v i k = addr_of v (ino addrs) k.
Proof. unfold addr_of. by rewrite Hi. Qed.

Lemma frange_file off len : 0 ≤ off → off + len ≤ MAXFILE * BSIZE →
  frange v i off len = (λ j, nth (Z.to_nat off + j) c 0) <$> seq 0 (Z.to_nat len).
Proof.
  intros Ho Hl. unfold frange. apply list_fmap_ext. intros _ j Hj%list_elem_of_lookup_2%elem_of_seq.
  unfold fbyte. rewrite addr_of_same. pose proof (fa_bytes _ _ _ _ _ _ _ _ Hf (off + Z.of_nat j) ltac:(lia)) as Hb.
  unfold fbyte in Hb. rewrite Hb. f_equal. lia.
Qed.

Lemma frange_whole : Z.of_nat (length c) ≤ MAXFILE * BSIZE → frange v i 0 (Z.of_nat (length c)) = c.
Proof.
  intros Hl. rewrite frange_file by lia. rewrite Nat2Z.id. apply list_eq. intros j.
  rewrite list_lookup_fmap. destruct (decide (j < length c)%nat) as [Hj|Hj].
  - rewrite lookup_seq_lt by done. simpl. destruct (lookup_lt_is_Some_2 _ _ Hj) as [x Hx].
    rewrite Hx. f_equal. by apply nth_lookup_Some.
  - rewrite lookup_seq_ge, lookup_ge_None_2 by lia. done.
Qed.

Lemma blocks_mine k : 0 ≤ k < MAXFILE → addr_of v i k ≠ 0 → mine fb own n k (addr_of v i k).
Proof.
  intros Hk Ha. rewrite addr_of_same in *. destruct (decide (k < nb)).
  - apply (fa_blocks _ _ _ _ _ _ _ _ Hf). lia.
  - destruct Ha. apply (fa_free _ _ _ _ _ _ _ _ Hf). lia.
Qed.

Lemma ind_block_mine : ind_of i ≠ 0 → mine fb own n (-1) (ind_of i).
Proof.
  replace (ind_of i) with (ind_of (ino addrs)) by (unfold ind_of; by rewrite Hi). intros Hne.
  pose proof (fa_hi _ _ _ _ _ _ _ _ Hf) as Hh. by destruct hi.
Qed.
End read.

(** A sequence of 16-byte records, by index. *)
Lemma nth_records (es : list (list Z)) k :
  Forall (λ e, length e = 16%nat) es →
  ((λ j, nth (16 * k + j) (concat es) 0) <$> seq 0 16) = nth k es (replicate 16 0).
Proof.
  intros Hes. revert k. induction Hes as [|e es He _ IH]; intros k.
  - transitivity ((λ _, 0) <$> seq 0 16); [|by destruct k]. apply list_fmap_ext. intros _ j _.
    cbn [concat]. apply nth_overflow. simpl. lia.
  - cbn [concat]. destruct k as [|k].
    + cbn [nth]. apply list_eq. intros j. rewrite list_lookup_fmap.
      destruct (decide (j < 16)%nat) as [Hj|Hj].
      * rewrite lookup_seq_lt by done. cbn [fmap option_fmap option_map]. rewrite app_nth1 by lia.
        destruct (lookup_lt_is_Some_2 e j ltac:(lia)) as [x Hx]. rewrite Hx. f_equal. by apply nth_lookup_Some.
      * rewrite lookup_seq_ge, lookup_ge_None_2 by lia. done.
    + cbn [nth]. rewrite <- IH. apply list_fmap_ext. intros _ j _. rewrite app_nth2 by lia. f_equal. lia.
Qed.

Lemma root_entries_ok args : Forall file_ok args →
  Forall (λ e, length e = 16%nat) (root_entries args) ∧ Forall is_byte (concat (root_entries args)) ∧
  length (concat (root_entries args)) = (16 * (length args + 2))%nat.
Proof.
  intros Hargs. unfold root_entries.
  assert (He : ∀ n, Forall (λ e, length e = 16%nat ∧ Forall is_byte e) (entries n args)).
  { induction Hargs as [|f args Hf _ IH]; intros n; constructor; [|apply IH].
    by destruct (entry_ok n f Hf). }
  specialize (He 2). split_and!.
  - repeat constructor. by eapply Forall_impl; [exact He|intros ? []].
  - cbn [concat]. repeat (apply Forall_app_2; [by vm_compute; repeat constructor|]).
    apply Forall_concat. by eapply Forall_impl; [exact He|intros ? []].
  - cbn [concat]. rewrite !length_app, length_entries by done.
    change (length (dirent ROOTINO dot_name)) with 16%nat. change (length (dirent ROOTINO dotdot_name)) with 16%nat. lia.
Qed.

(** ** The free map *)

Lemma mark_first_ok n : ∀ i d, 0 ≤ i → i + Z.of_nat n ≤ BPB → block_ok d →
  block_ok (mark_first n i d) ∧
  ∀ b, 0 ≤ b < BPB → bit_free (mark_first n i d) b = bit_free d b && negb ((i <=? b) && (b <? i + Z.of_nat n)).
Proof.
  induction n as [|n IH]; intros i d Hi Hn Hd; cbn [mark_first].
  - split; [done|]. intros b Hb. replace (_ && (b <? _)) with false; [by rewrite andb_true_r|].
    symmetry. apply andb_false_iff. destruct (Z.leb_spec i b); [right; apply Z.ltb_ge; lia|by left].
  - destruct (IH (i + 1) (mark_used d i)) as [Hok Hbit]; [lia|lia|apply mark_used_ok; [done|lia]|].
    split; [done|]. intros b Hb. rewrite Hbit by done.
    rewrite bit_free_mark_used by (lia || apply Hd). destruct (decide (b = i)) as [->|Hne].
    + symmetry. apply andb_false_iff. right. apply negb_false_iff, andb_true_iff. rewrite Z.leb_le, Z.ltb_lt. lia.
    + do 2 f_equal. apply eq_true_iff_eq. rewrite !andb_true_iff, !Z.leb_le, !Z.ltb_lt. lia.
Qed.

Lemma bit_free_zero b : 0 ≤ b < BPB → bit_free zero_block b = true.
Proof.
  intros Hb. unfold bit_free. rewrite zero_block_byte; [by rewrite Z.land_0_l|]. unfold BPB in Hb. divlia.
Qed.

(** A bitmap block that marks the first [n] blocks. *)
Lemma used_first v n b :
  v (sb_bmapstart sb) = mark_first (Z.to_nat n) 0 zero_block → 0 ≤ n ≤ FSSIZE → 0 ≤ b < FSSIZE →
  used sb v b = (b <? n).
Proof.
  intros Hv Hn Hb. unfold used, BBLOCK.
  assert (Hq : b / BPB = 0) by (apply Z.div_small; change BPB with 4096; mklia).
  assert (Hm : b mod BPB = b) by (apply Z.mod_small; change BPB with 4096; mklia).
  rewrite Hq, Hm. change (u32 (0 + sb_bmapstart sb)) with (sb_bmapstart sb). rewrite Hv.
  destruct (mark_first_ok (Z.to_nat n) 0 zero_block) as [_ Hbit];
    [lia|change BPB with 4096; mklia|apply zero_block_ok|].
  rewrite Hbit, bit_free_zero by (change BPB with 4096; mklia). simpl. rewrite negb_involutive, Z2Nat.id by lia.
  apply eq_true_iff_eq. rewrite andb_true_iff, Z.leb_le, !Z.ltb_lt. lia.
Qed.

(** ** The finished image *)

Section finish.
Context (s : mkfs) (own : owner) (args : list hostfile) (addrs : list Z) (sz nb : Z) (hi : bool).
Hypothesis Hargs : Forall file_ok args.
Hypothesis Hdk : disk_ok s own ((T_DIR, concat (root_entries args)) :: (fileof <$> args)) (Some 0%nat).
Hypothesis Hroot : dino s ROOTINO = Dinode T_DIR 0 0 1 sz addrs.
Hypothesis Hf : file_at (view s) (freeblock s) own ROOTINO addrs nb hi (concat (root_entries args)).
Hypothesis Hsz : sz = (sizeof_dirent * (Z.of_nat (length args) + 2) / BSIZE + 1) * BSIZE.

Definition bitmap : block := mark_first (Z.to_nat (freeblock s)) 0 zero_block.
Definition final : Z → block := view (st_put s (sb_bmapstart sb) bitmap).

Lemma final_view b : 0 ≤ b → final b = vset (view s) (sb_bmapstart sb) bitmap b.
Proof. intros. apply view_put; [exact (dk_len _ _ _ _ Hdk)|by vm_compute|done]. Qed.

Lemma final_other b : 0 ≤ b → b ≠ 58 → final b = view s b.
Proof. intros. rewrite final_view by done. by apply vset_ne. Qed.

Lemma ninodes : Z.of_nat (length args) + 2 ≤ NINODES.
Proof. destruct (dk_fi _ _ _ _ Hdk) as [H1 H2]. simpl in H1. rewrite length_fmap in H1. lia. Qed.

Lemma final_inode n : 0 ≤ n < NINODES → inode_at final n = load_dinode (dino s n) zero_inode.
Proof.
  intros Hn. unfold inode_at, dino. pose proof (IBLOCK_eq n Hn) as E.
  rewrite final_other; [done|..]; rewrite E; change IPB with 8; change NINODES with 200 in *; divlia.
Qed.

Lemma final_file i k ad nb' hi' c :
  file_at (view s) (freeblock s) own i ad nb' hi' c → k = i → file_at final (freeblock s) own k ad nb' hi' c.
Proof.
  intros Ha ->. eapply file_at_frame; [exact Ha|]. intros k a Hm. split; [|done].
  destruct Hm as [? _]. apply final_other; mklia.
Qed.

(** Inode [k + 2] and its file. *)
Lemma final_arg k f : args !! k = Some f → ∃ ad,
  inode_at final (Z.of_nat k + 2) =
    load_dinode (Dinode T_FILE 0 0 1 (Z.of_nat (length (content f))) ad) zero_inode ∧
  file_at final (freeblock s) own (Z.of_nat k + 2) ad (nblk (Z.of_nat (length (content f))))
    (NDIRECT <? nblk (Z.of_nat (length (content f)))) (content f).
Proof.
  intros Hk. pose proof (lookup_lt_Some _ _ _ Hk). pose proof ninodes.
  destruct (dk_files _ _ _ _ Hdk (S k) T_FILE (content f)) as (ad & Hd & Ha);
    [simpl; rewrite list_lookup_fmap, Hk; done|done|].
  replace (Z.of_nat (S k) + 1) with (Z.of_nat k + 2) in * by lia.
  exists ad. split; [rewrite final_inode by lia; by rewrite Hd|by eapply final_file].
Qed.

Lemma final_root : inode_at final ROOTINO = load_dinode (Dinode T_DIR 0 0 1 sz addrs) zero_inode ∧
  file_at final (freeblock s) own ROOTINO addrs nb hi (concat (root_entries args)).
Proof. split; [rewrite final_inode by done; by rewrite Hroot|by eapply final_file]. Qed.

Lemma finished : image_ok final (freeblock s) args.
Proof.
  pose proof (dk_fb _ _ _ _ Hdk) as Hfb. destruct final_root as [Hri Hrf]. pose proof ninodes as Hn.
  split.
  - rewrite final_other, (dk_boot _ _ _ _ Hdk 1) by done. by vm_compute.
  - intros b Hb. change (sb_logstart sb) with 2 in Hb. change (sb_nlog sb) with 30 in Hb.
    rewrite final_other, (dk_boot _ _ _ _ Hdk) by mklia. by rewrite (proj2 (Z.eqb_neq _ _)) by lia.
  - split; [done|]. intros b Hb. apply used_first; [|mklia|done].
    rewrite final_view by done. apply vset_eq.
  - cbv zeta. rewrite Hri. by subst sz.
  - cbv zeta. rewrite Hri. simpl i_size. intros k Hk. unfold dent.
    rewrite (frange_file _ _ _ _ _ _ _ _ Hrf (load_dinode (Dinode T_DIR 0 0 1 sz addrs) zero_inode) eq_refl); change sizeof_dirent with 16 in *;
      [|lia|change NINODES with 200 in *; divlia].
    change (Z.to_nat 16) with 16%nat. rewrite <- nth_records by (by apply root_entries_ok).
    apply list_fmap_ext. intros _ j _. f_equal. lia.
  - intros k f Hk. destruct (final_arg k f Hk) as (ad & Hi & Ha). cbv zeta. rewrite Hi. simpl i_size.
    split_and!; try done. eapply (frange_whole _ _ _ _ _ _ _ _ Ha); [done|].
    by apply fo_size, (Forall_lookup_1 _ _ _ _ Hargs Hk).
  - exists own. intros n Hnr. assert (Hex : ∃ ad nb' hi' c, i_addrs (inode_at final n) = ad ∧
      file_at final (freeblock s) own n ad nb' hi' c).
    { destruct (decide (n = ROOTINO)) as [->|Hne]; [rewrite Hri; by eauto 10|].
      change ROOTINO with 1 in Hne.
      destruct (lookup_lt_is_Some_2 args (Z.to_nat (n - 2)) ltac:(lia)) as [f Hk].
      destruct (final_arg _ f Hk) as (ad & Hi & Ha).
      replace (Z.of_nat (Z.to_nat (n - 2)) + 2) with n in * by lia. rewrite Hi. by eauto 10. }
    destruct Hex as (ad & nb' & hi' & c & Hi & Ha). split.
    + intros k. by apply (blocks_mine _ _ _ _ _ _ _ _ Ha _ Hi).
    + by apply (ind_block_mine _ _ _ _ _ _ _ _ Ha _ Hi).
Qed.
End finish.

(** ** main *)

Definition fits (args : list hostfile) : Prop :=
  nmeta + total ((T_DIR, concat (root_entries args)) :: (fileof <$> args)) ≤ FSSIZE.

Lemma wp_clear :
  wp (for_loop (Z.to_nat FSSIZE) 0 (λ i, wsect i zero_block))
    (λ _ s, s = Mkfs (replicate (Z.to_nat FSSIZE) zero_block) 1 nmeta) (Mkfs [] 1 nmeta).
Proof.
  eapply wp_mono.
  - apply (wp_for_loop (λ i s, s = Mkfs (replicate (Z.to_nat i) zero_block) 1 nmeta)); [done|].
    intros i s Hi ->. unfold wsect. apply wp_modify. unfold with_img, put_sector. simpl.
    rewrite Z2Nat.id in Hi by (by vm_compute). rewrite sector_small by lia.
    rewrite length_replicate, Nat.ltb_irrefl, Nat.sub_diag. f_equal. simpl.
    replace (Z.to_nat (i + 1)) with (Z.to_nat i + 1)%nat by lia. by rewrite replicate_add.
  - intros _ s ->. by rewrite Z.add_0_l, Z2Nat.id by (by vm_compute).
Qed.

Lemma start_image :
  image (st_put (Mkfs (replicate (Z.to_nat FSSIZE) zero_block) 1 nmeta) 1 sb_block) (λ _, (0, 0)) [].
Proof.
  set (s := Mkfs _ _ _).
  assert (Hl : length (img s) = Z.to_nat FSSIZE) by apply length_replicate.
  assert (Hv : ∀ b, 0 ≤ b < FSSIZE → view (st_put s 1 sb_block) b = if b =? 1 then sb_block else zero_block).
  { intros b Hb. rewrite view_put by (done || lia). unfold vset. destruct (b =? 1); [done|].
    unfold view, s. cbn [img]. apply lookup_total_replicate_2. lia. }
  split; [|done]. split; try done.
  - intros b Hb. rewrite Hv by done. destruct (b =? 1); [|apply zero_block_ok].
    apply block_okb_ok. by vm_compute.
  - intros b Hb. simpl in Hb. rewrite Hv by mklia. by rewrite (proj2 (Z.eqb_neq _ _)) by mklia.
  - intros b Hb. apply Hv. mklia.
Qed.

(** The last steps of [main]: the size of the root and the free map. *)
Lemma wp_finish s own args :
  Forall file_ok args → Z.of_nat (length args) + 2 ≤ NINODES →
  image s own ((T_DIR, concat (root_entries args)) :: (fileof <$> args)) →
  wp (din ← rinode ROOTINO;
      let off := xint (d_size din) in
      let off := u32 ((off / BSIZE + 1) * BSIZE) in
      winode ROOTINO (with_size (xint off) din) ;;
      b ← gets freeblock;
      balloc (i32 b))
    (λ _ s', length (img s') = Z.to_nat FSSIZE ∧ image_ok (view s') (freeblock s') args) s.
Proof.
  intros Hargs Hn [Hdk Hfb]. destruct (root_entries_ok args Hargs) as (_ & _ & Hlen).
  set (rc := concat (root_entries args)) in *. change NINODES with 200 in Hn.
  destruct (dk_files _ _ _ _ Hdk 0%nat T_DIR rc eq_refl ltac:(done)) as (addrs & Hd & Hf).
  pose proof (dk_fb _ _ _ _ Hdk) as Hfbr.
  wp_step. apply (wp_rinode s own _ None 0 _ Hdk); [simpl; lia|]. cbv beta zeta. rewrite Hd. cbn [d_size].
  set (sz := (sizeof_dirent * (Z.of_nat (length args) + 2) / BSIZE + 1) * BSIZE).
  assert (Hrc : Z.of_nat (length rc) = sizeof_dirent * (Z.of_nat (length args) + 2)).
  { rewrite Hlen. change sizeof_dirent with 16. lia. }
  assert (Hszr : 0 ≤ sz < 2 ^ 32) by (unfold sz; change sizeof_dirent with 16; divlia).
  rewrite (xint_id (Z.of_nat (length rc))), Hrc by (unfold is_u32; change sizeof_dirent with 16 in *; lia).
  rewrite (u32_id (_ * BSIZE)) by exact Hszr. fold sz. rewrite (xint_id sz) by exact Hszr.
  unfold with_size. cbn [d_type d_major d_minor d_nlink d_addrs].
  wp_step. apply (wp_winode s own _ 0%nat _ _ (disk_ok_open _ _ _ 0%nat Hdk)); [simpl; lia| |].
  - split; [done|]. split; [exact Hszr|]. split; [by eapply file_at_u32; [exact Hf|lia]|].
    apply (fa_len _ _ _ _ _ _ _ _ Hf).
  - intros s2 Hdk2 Hd2 Hfb2 Hv. wp_step. wp_step. rewrite i32_id by (unfold is_i32; mklia).
    unfold balloc. rewrite (proj2 (Z.ltb_lt _ _)) by mklia.
    apply wp_wsect; [exact (dk_len _ _ _ _ Hdk2)|by vm_compute|].
    split; [simpl; rewrite length_insert; exact (dk_len _ _ _ _ Hdk2)|].
    eapply (finished s2 own args addrs sz); [done..| |done].
    rewrite Hfb2. eapply file_at_frame; [exact Hf|]. intros k a Hm. split; [|done]. apply Hv. by apply Hm.
Qed.

(** C29: for every list of readable files that fits the image and the inode
    table, [main] runs to its end, and what it leaves is a file system in the
    kernel's sense: its super block and empty log are where fs.c and log.c
    look for them, the root directory lists ".", ".." and each file under its
    name without the leading underscore, cut at fourteen characters, every
    inode [ilock] loads has the bytes of the host's file, no disk block is in
    two places, and the free map marks exactly the blocks handed out. *)
Theorem mkfs_correct args :
  Forall file_ok args → Z.of_nat (length args) + 2 ≤ NINODES → fits args →
  wp (main (Some true) args) (λ _ s, length (img s) = Z.to_nat FSSIZE ∧
    image_ok (view s) (freeblock s) args) blank.
Proof.
  intros Hargs Hn Hfit. unfold main. wp_step. wp_step.
  wp_step. eapply wp_mono; [apply wp_clear|]. intros _ s ->. cbv beta.
  wp_step. apply wp_wsect; [apply length_replicate|done|]. cbv beta.
  wp_step. eapply wp_mono; [apply (wp_ialloc _ _ _ T_DIR start_image); done|].
  intros r s [-> Him]. cbn [length app] in *. change (Z.of_nat 0 + 1) with ROOTINO.
  rewrite Z.eqb_refl. cbn match beta iota delta [negb].
  destruct (root_entries_ok args Hargs) as (_ & Hby & Hlen). unfold fits, root_entries in Hfit, Hlen.
  cbn [concat] in Hfit, Hlen. rewrite !total_cons in Hfit. cbn [snd] in Hfit.
  pose proof (total_nonneg (fileof <$> args)) as Hnn.
  rewrite app_assoc in Hfit, Hlen. set (d1 := dirent ROOTINO dot_name) in *. set (d2 := dirent ROOTINO dotdot_name) in *.
  pose proof (need_mono (Z.of_nat (length (d1 ++ d2))) (Z.of_nat (length ((d1 ++ d2) ++ concat (entries 2 args))))
    ltac:(rewrite !length_app; lia)) as Hmono.
  pose proof (need_mono (Z.of_nat (length d1)) (Z.of_nat (length (d1 ++ d2)))
    ltac:(rewrite !length_app; lia)) as Hmono1.
  wp_step. eapply wp_mono.
  { apply (wp_root_entry _ _ [] [] d1 Him); [by vm_compute; repeat constructor|done|by vm_compute|].
    rewrite total_cons. cbn [snd app]. change (total []) with 0. lia. }
  intros _ s1 (own1 & Him1). cbv beta. cbn [app] in Him1.
  wp_step. eapply wp_mono.
  { apply (wp_root_entry _ _ d1 [] d2 Him1); [by vm_compute; repeat constructor|done|by vm_compute|].
    rewrite total_cons. cbn [snd]. change (total []) with 0. lia. }
  intros _ s2 (own2 & Him2). cbv beta.
  wp_step. eapply wp_mono.
  { apply (wp_add_files args s2 own2 (d1 ++ d2) [] Him2 Hargs); [simpl; lia| |].
    - change (Z.of_nat (length (d1 ++ d2))) with 32. change NINODES with 200 in Hn. fslia.
    - rewrite total_cons. cbn [snd]. cbn [app]. cbn [length]. change (Z.of_nat 0 + 2) with 2. lia. }
  intros _ s3 (own3 & Him3). cbv beta. cbn [app] in Him3. cbn [length] in Him3.
  rewrite <- app_assoc in Him3. change (d1 ++ d2 ++ concat (entries 2 args)) with (concat (root_entries args)) in Him3.
  exact (wp_finish s3 own3 args Hargs Hn Him3).
Qed.

(** "_cat" of 6700 bytes in fourteen reads, and "README" of three bytes in two. *)
Definition demo_args : list hostfile :=
  [HostFile [95; 99; 97; 116] (Some (replicate 13 (replicate 512 7) ++ [replicate 44 8]));
   HostFile [82; 69; 65; 68; 77; 69] (Some [[104; 105]; [10]])].

Lemma demo_args_ok : Forall file_ok demo_args.
Proof.
  repeat constructor; try done.
  - eexists. split; [reflexivity|]. repeat constructor; try done; by apply Forall_replicate.
  - eexists. split; [reflexivity|]. repeat constructor; done.
Qed.

Lemma mkfs_correct_witness :
  wp (main (Some true) demo_args) (λ _ s, length (img s) = Z.to_nat FSSIZE ∧
    image_ok (view s) (freeblock s) demo_args) blank.
Proof. apply (mkfs_correct demo_args demo_args_ok); by vm_compute. Defined.

(** The kernel mounts that image, finds "README" by its name and reads it. *)
Definition kernel_read (d : list block) : option (Z * list Z) :=
  match (iinit ROOTDEV ;;
         ip ← namei [47; 82; 69; 65; 68; 77; 69; 0];
         match ip with
         | Some ip => ilock ip ;; readi ip 0 512
         | None => panic "namei"
         end) (mount (booted d 7)) with
  | Ok r _ => Some r
  | _ => None
  end.
Example kernel_reads_image :
  kernel_read (img (exec (main (Some true) demo_args) blank)) = Some (3, [104; 105; 10]).
Proof. vm_compute. reflexivity. Qed.

(** With thirty files the entries fill the first block of the root exactly and
    [off/BSIZE + 1] gives the directory a second block that is not there.  A
    [read] of the directory, which runs outside any transaction, then has
    [bmap] allocate it. *)
Definition outside_op (d : list block) : fs bst :=
  Fs (Log.Log false 2 30 0 0 ROOTDEV (LogHeader 0 (replicate (Z.to_nat LOGSIZE) 0)) (booted d 7))
    sb false (replicate (Z.to_nat NINODE) zero_inode) 7 0.
Example root_hole_panics :
  let d := img (exec (main (Some true) (replicate 30 (HostFile [102] (Some [])))) blank) in
  match (ip ← iget ROOTDEV ROOTINO; ilock ip ;; readi ip 512 sizeof_dirent) (outside_op d) with
  | Panic msg => msg = "log_write outside of trans"%string
  | _ => False
  end.
Proof. vm_compute. reflexivity. Qed.
