(* ===== verification/Spinlock.v ===== *)
(** * Spinlocks on several processors (spinlock.c; cpuid, mycpu of proc.c)

    [mach] holds what the code touches: the interrupt flag of each processor,
    the array [cpus] and the locks.  The operations are written as the code is,
    from the point of view of the processor that runs them; [step] interleaves
    the processors at their accesses to the shared lock word. *)

From stdpp Require Import functions.
From S2P Require Import Prelude Words Params.

Record cpu := Cpu {
  c_apicid : Z;     (* local APIC ID *)
  c_ncli : Z;       (* depth of pushcli nesting *)
  c_intena : bool   (* were interrupts enabled before pushcli? *)
}.
#[export] Instance cpu_inhabited : Inhabited cpu := populate (Cpu 0 0 false).

Record spinlock := Spinlock {
  lk_locked : Z;            (* is the lock held? *)
  lk_name : string;
  lk_cpu : option nat;      (* the cpu holding the lock, an index of cpus *)
  lk_pcs : list Z           (* the call stack that locked the lock *)
}.

Record mach := Mach {
  m_if : nat → bool;        (* FL_IF in the flags of each processor *)
  m_cpus : list cpu;
  m_locks : nat → spinlock
}.

Definition set_if (f : nat → bool) m := Mach f (m_cpus m) (m_locks m).
Definition set_cpus (l : list cpu) m := Mach (m_if m) l (m_locks m).
Definition set_locks (f : nat → spinlock) m := Mach (m_if m) (m_cpus m) f.
Definition cpu_at m (i : nat) : cpu := m_cpus m !!! i.
Definition cpu_upd (i : nat) (f : cpu → cpu) m : mach := set_cpus (alter f i (m_cpus m)) m.
Definition lock_upd (l : nat) (f : spinlock → spinlock) m : mach :=
  set_locks (<[l := f (m_locks m l)]> (m_locks m)) m.

Section spinlock.
(** The APIC ID a processor reads from its local APIC, and the words of the
    kernel stacks. *)
Variable lapicid : nat → Z.
Variable stack : Z → Z.
Implicit Types (k l : nat) (m : mach).

Definition readeflags_if k : M mach bool := gets (λ m, m_if m k).
Definition cli k : M mach unit := modify (λ m, set_if (<[k := false]> (m_if m)) m).
Definition sti k : M mach unit := modify (λ m, set_if (<[k := true]> (m_if m)) m).
Definition xchg l (newval : Z) : M mach Z :=
  r ← gets (λ m, lk_locked (m_locks m l));
  modify (lock_upd l (λ lk, Spinlock newval (lk_name lk) (lk_cpu lk) (lk_pcs lk))) ;;
  ret r.

(** The loop of [mycpu]. *)
Fixpoint find_cpu (cpus : list cpu) (i : nat) (apicid : Z) : option nat :=
  match cpus with
  | [] => None
  | c :: cpus' => if c_apicid c =? apicid then Some i else find_cpu cpus' (S i) apicid
  end.

Definition mycpu k : M mach nat :=
  fl ← readeflags_if k;
  if fl then panic "mycpu called with interrupts enabled"
  else
    cpus ← gets m_cpus;
    match find_cpu cpus 0 (lapicid k) with
    | Some i => ret i
    | None => panic "unknown apicid"
    end.

Definition pushcli k : M mach unit :=
  eflags ← readeflags_if k;
  cli k ;;
  c ← mycpu k;
  m ← getS;
  whenM (c_ncli (cpu_at m c) =? 0)
    (modify (cpu_upd c (λ x, Cpu (c_apicid x) (c_ncli x) eflags))) ;;
  modify (cpu_upd c (λ x, Cpu (c_apicid x) (i32 (c_ncli x + 1)) (c_intena x))).

Definition popcli k : M mach unit :=
  eflags ← readeflags_if k;
  if eflags then panic "popcli - interruptible"
  else
    c ← mycpu k;
    modify (cpu_upd c (λ x, Cpu (c_apicid x) (i32 (c_ncli x - 1)) (c_intena x))) ;;
    m ← getS;
    if c_ncli (cpu_at m c) <? 0 then panic "popcli"
    else whenM ((c_ncli (cpu_at m c) =? 0) && c_intena (cpu_at m c)) (sti k).

Definition holding k l : M mach bool :=
  pushcli k ;;
  c ← mycpu k;
  r ← gets (λ m, negb (lk_locked (m_locks m l) =? 0) && bool_decide (lk_cpu (m_locks m l) = Some c));
  popcli k ;;
  ret r.

Definition initlock l (name : string) : M mach unit :=
  modify (lock_upd l (λ lk, Spinlock 0 name None (lk_pcs lk))).

Fixpoint callerpcs (n : nat) (ebp : Z) : list Z :=
  match n with
  | O => []
  | S n' => if (ebp =? 0) || (ebp <? KERNBASE) || (ebp =? 4294967295) then replicate (S n') 0
            else stack (u32 (ebp + 4)) :: callerpcs n' (stack ebp)
  end.
Definition getcallerpcs (v : Z) : list Z := callerpcs 10 (u32 (v - 8)).

(** [acquire], cut at the accesses to the lock word: up to the loop, one turn
    of the loop, and the rest. *)
Definition acquire_enter k l : M mach unit :=
  pushcli k ;;
  h ← holding k l;
  if h then panic "acquire" else ret tt.
Definition acquire_done k l (frame : Z) : M mach unit :=
  c ← mycpu k;
  modify (lock_upd l (λ lk, Spinlock (lk_locked lk) (lk_name lk) (Some c) (getcallerpcs frame))).
Fixpoint acquire_spin (fuel : nat) l : M mach unit :=
  match fuel with
  | O => sleeping
  | S f => r ← xchg l 1; if negb (r =? 0) then acquire_spin f l else ret tt
  end.
Definition acquire (fuel : nat) k l (frame : Z) : M mach unit :=
  acquire_enter k l ;; acquire_spin fuel l ;; acquire_done k l frame.

Definition release_begin k l : M mach unit :=
  h ← holding k l;
  if negb h then panic "release"
  else modify (lock_upd l (λ lk, Spinlock (lk_locked lk) (lk_name lk) None (<[0%nat := 0]> (lk_pcs lk)))).
Definition release_end k l : M mach unit :=
  modify (lock_upd l (λ lk, Spinlock 0 (lk_name lk) (lk_cpu lk) (lk_pcs lk))) ;;
  popcli k.
Definition release k l : M mach unit := release_begin k l ;; release_end k l.

(** ** One processor at a time *)

(** Every processor finds its own entry of [cpus], and the nesting depth of
    each is small enough for an int. *)
Record mach_ok m : Prop := {
  mo_id : ∀ k, (k < length (m_cpus m))%nat → c_apicid (cpu_at m k) = lapicid k;
  mo_inj : ∀ k k', (k < length (m_cpus m))%nat → (k' < length (m_cpus m))%nat →
    lapicid k = lapicid k' → k = k';
  mo_ncli : ∀ k, (k < length (m_cpus m))%nat → 0 ≤ c_ncli (cpu_at m k) < 2 ^ 31 - 4;
  mo_off : ∀ k, (k < length (m_cpus m))%nat → 0 < c_ncli (cpu_at m k) → m_if m k = false
}.

Lemma find_cpu_spec cpus i k a :
  (k < length cpus)%nat → c_apicid (cpus !!! k) = a →
  (∀ j, (j < length cpus)%nat → c_apicid (cpus !!! j) = a → j = k) →
  find_cpu cpus i a = Some (i + k)%nat.
Proof.
  revert i k. induction cpus as [|c cpus IH]; intros i k Hk Ha Hu; simpl in Hk; [lia|].
  cbn [find_cpu]. destruct (c_apicid c =? a) eqn:E; bool_props.
  - rewrite <- (Hu 0%nat) by (simpl; (lia || done)). f_equal. lia.
  - destruct k as [|k]; [by simpl in Ha|].
    rewrite (IH (S i) k); [f_equal; lia|lia|done|].
    intros j Hj Hja. apply Nat.succ_inj. apply Hu; [simpl; lia|done].
Qed.

Lemma mycpu_ok m k (Q : nat → mach → Prop) :
  mach_ok m → (k < length (m_cpus m))%nat → m_if m k = false → Q k m → wp (mycpu k) Q m.
Proof.
  intros [Hid Hinj _ _] Hk Hif HQ. unfold mycpu, readeflags_if. wp_step. wp_step. rewrite Hif.
  wp_step. wp_step. rewrite (find_cpu_spec _ 0 k); [done|done|by apply Hid|].
  intros j Hj Ha. apply Hinj; [done|done|]. rewrite <- Ha. symmetry. by apply Hid.
Qed.

(** The states [pushcli] and [popcli] leave. *)
Definition pushed k m : mach :=
  Mach (<[k := false]> (m_if m))
    (alter (λ x, Cpu (c_apicid x) (c_ncli x + 1) (if c_ncli x =? 0 then m_if m k else c_intena x)) k (m_cpus m))
    (m_locks m).
Definition popped k m : mach :=
  Mach (if (c_ncli (cpu_at m k) =? 1) && c_intena (cpu_at m k) then <[k := true]> (m_if m) else m_if m)
    (alter (λ x, Cpu (c_apicid x) (c_ncli x - 1) (c_intena x)) k (m_cpus m)) (m_locks m).

Lemma cpu_at_alter m f k j :
  (k < length (m_cpus m))%nat →
  alter f k (m_cpus m) !!! j = if decide (j = k) then f (cpu_at m k) else cpu_at m j.
Proof.
  intros Hk. unfold cpu_at. case_decide; subst.
  - by rewrite list_lookup_total_alter_eq.
  - by rewrite list_lookup_total_alter_ne.
Qed.

Lemma cpu_at_upd m f k j :
  (k < length (m_cpus m))%nat →
  cpu_at (cpu_upd k f m) j = if decide (j = k) then f (cpu_at m k) else cpu_at m j.
Proof. apply cpu_at_alter. Qed.

Lemma mach_ok_same m m' :
  length (m_cpus m') = length (m_cpus m) →
  (∀ j, (j < length (m_cpus m))%nat → c_apicid (cpu_at m' j) = c_apicid (cpu_at m j) ∧
     0 ≤ c_ncli (cpu_at m' j) < 2 ^ 31 - 4 ∧ (0 < c_ncli (cpu_at m' j) → m_if m' j = false)) →
  mach_ok m → mach_ok m'.
Proof.
  intros Hl Hj [Hid Hinj Hn Ho]. split; rewrite Hl.
  - intros k Hk. rewrite (proj1 (Hj k Hk)). by apply Hid.
  - done.
  - intros k Hk. apply Hj. done.
  - intros k Hk. apply Hj. done.
Qed.

(** Turning the interrupts off leaves the rest as it was. *)
Lemma mach_ok_cli m k : mach_ok m → mach_ok (set_if (<[k := false]> (m_if m)) m).
Proof.
  intros Hm. apply (mach_ok_same m); [done| |done]. intros j Hj. split; [done|].
  split; [by apply (mo_ncli _ Hm)|]. intros Hp. simpl.
  destruct (decide (j = k)) as [->|]; [by rewrite fn_lookup_insert|].
  rewrite fn_lookup_insert_ne by done. by apply (mo_off _ Hm).
Qed.

Lemma pushcli_ok m k :
  mach_ok m → (k < length (m_cpus m))%nat → pushcli k m = Ok tt (pushed k m).
Proof.
  intros Hm Hk. pose proof (mo_ncli _ Hm k Hk) as Hn.
  assert (wp (pushcli k) (λ _ m', m' = pushed k m) m) as Hw.
  { unfold pushcli, readeflags_if, cli. do 4 wp_step.
    wp_step. apply mycpu_ok; [by apply mach_ok_cli|done|apply fn_lookup_insert|].
    wp_step. wp_step. wp_step. unfold cpu_upd, pushed.
    wp_step; do 2 wp_step; unfold set_cpus, set_if; cbn [m_cpus m_if m_locks]; rewrite ?list_alter_alter_eq;
      f_equal; (apply list_alter_ext; [|done]); unfold cpu_at in *; cbn [set_if m_cpus] in *;
      intros x Hx; pose proof Hx as Hx2; apply list_lookup_total_correct in Hx2; rewrite Hx2 in *;
      simpl; rewrite Heqb, i32_id by (unfold is_i32; lia); done. }
  unfold wp in Hw. destruct (pushcli k m) as [[] ?| | |]; try done. by subst.
Qed.

Lemma popcli_ok m k :
  mach_ok m → (k < length (m_cpus m))%nat → 0 < c_ncli (cpu_at m k) →
  popcli k m = Ok tt (popped k m).
Proof.
  intros Hm Hk Hp. pose proof (mo_ncli _ Hm k Hk) as Hn. pose proof (mo_off _ Hm k Hk Hp) as Hoff.
  assert (wp (popcli k) (λ _ m', m' = popped k m) m) as Hw.
  { unfold popcli, readeflags_if, sti. do 2 wp_step. rewrite Hoff.
    wp_step. apply mycpu_ok; [done|done|done|]. wp_step. wp_step. wp_step. wp_step.
    rewrite !cpu_at_upd, !decide_True by done. cbn [c_ncli c_intena].
    rewrite i32_id by (unfold is_i32; lia).
    destruct (c_ncli (cpu_at m k) - 1 <? 0) eqn:E; bool_props; [lia|].
    assert (alter (λ x, Cpu (c_apicid x) (i32 (c_ncli x - 1)) (c_intena x)) k (m_cpus m) =
      alter (λ x, Cpu (c_apicid x) (c_ncli x - 1) (c_intena x)) k (m_cpus m)) as Ea.
    { apply list_alter_ext; [|done]. intros x Hx. apply list_lookup_total_correct in Hx.
      unfold cpu_at in *. rewrite Hx in *. by rewrite i32_id by (unfold is_i32; lia). }
    unfold popped. destruct (c_ncli (cpu_at m k) - 1 =? 0) eqn:E2; bool_props.
    - rewrite (proj2 (Z.eqb_eq _ _)) by lia. destruct (c_intena (cpu_at m k)); simpl.
      + wp_step. unfold set_if, cpu_upd, set_cpus. simpl. by rewrite Ea.
      + wp_step. unfold cpu_upd, set_cpus. by rewrite Ea.
    - rewrite (proj2 (Z.eqb_neq _ 1)) by lia. simpl. wp_step. unfold cpu_upd, set_cpus. by rewrite Ea. }
  unfold wp in Hw. destruct (popcli k m) as [[] ?| | |]; try done. by subst.
Qed.

(** ** What an operation of processor [k] does to the others

    [obs m m' k d]: the nesting depth of [k] changed by [d], every other
    processor and every lock is as before, and the machine is still in order. *)
Record obs m m' k (d : Z) : Prop := {
  ob_ok : mach_ok m';
  ob_len : length (m_cpus m') = length (m_cpus m);
  ob_ncli : ∀ j, (j < length (m_cpus m))%nat →
    c_ncli (cpu_at m' j) = c_ncli (cpu_at m j) + (if decide (j = k) then d else 0);
  ob_locks : m_locks m' = m_locks m
}.

Lemma obs_refl m k : mach_ok m → obs m m k 0.
Proof. intros. split; [done|done| |done]. intros j _. case_decide; lia. Qed.

Lemma obs_trans m1 m2 m3 k d1 d2 : obs m1 m2 k d1 → obs m2 m3 k d2 → obs m1 m3 k (d1 + d2).
Proof.
  intros [O1 L1 N1 K1] [O2 L2 N2 K2]. split; [done|congruence| |congruence].
  intros j Hj. rewrite N2, N1 by congruence. case_decide; lia.
Qed.

Definition room m k : Prop := c_ncli (cpu_at m k) < 2 ^ 31 - 8.

Lemma cpu_at_pushed m k j :
  (k < length (m_cpus m))%nat →
  cpu_at (pushed k m) j = if decide (j = k)
    then Cpu (c_apicid (cpu_at m k)) (c_ncli (cpu_at m k) + 1)
           (if c_ncli (cpu_at m k) =? 0 then m_if m k else c_intena (cpu_at m k))
    else cpu_at m j.
Proof.
  intros Hk. unfold pushed, cpu_at at 1. cbn [m_cpus]. rewrite cpu_at_alter by done. done.
Qed.

Lemma cpu_at_popped m k j :
  (k < length (m_cpus m))%nat →
  cpu_at (popped k m) j = if decide (j = k)
    then Cpu (c_apicid (cpu_at m k)) (c_ncli (cpu_at m k) - 1) (c_intena (cpu_at m k))
    else cpu_at m j.
Proof.
  intros Hk. unfold popped, cpu_at at 1. cbn [m_cpus]. rewrite cpu_at_alter by done. done.
Qed.

Lemma if_pushed m k j : m_if (pushed k m) j = if decide (j = k) then false else m_if m j.
Proof.
  unfold pushed. cbn [m_if]. case_decide; subst; [apply fn_lookup_insert|by rewrite fn_lookup_insert_ne].
Qed.

Lemma if_popped m k j :
  m_if (popped k m) j = if decide (j = k)
    then (if (c_ncli (cpu_at m k) =? 1) && c_intena (cpu_at m k) then true else m_if m k)
    else m_if m j.
Proof.
  unfold popped. cbn [m_if]. destruct (_ && _); case_decide; subst; try done;
    [apply fn_lookup_insert|by rewrite fn_lookup_insert_ne].
Qed.

Lemma obs_pushed m k :
  mach_ok m → (k < length (m_cpus m))%nat → c_ncli (cpu_at m k) < 2 ^ 31 - 5 → obs m (pushed k m) k 1.
Proof.
  intros Hm Hk Hr. split; [|apply length_alter| |done].
  - apply (mach_ok_same m); [apply length_alter| |done]. intros j Hj. rewrite cpu_at_pushed by done.
    rewrite if_pushed. pose proof (mo_ncli _ Hm j Hj). pose proof (mo_off _ Hm j Hj).
    case_decide; subst; simpl; [|done]. split_and!; [done|lia|lia|done].
  - intros j Hj. rewrite cpu_at_pushed by done. case_decide; subst; simpl; lia.
Qed.

Lemma obs_popped m k :
  mach_ok m → (k < length (m_cpus m))%nat → 0 < c_ncli (cpu_at m k) → obs m (popped k m) k (-1).
Proof.
  intros Hm Hk Hr. split; [|apply length_alter| |done].
  - apply (mach_ok_same m); [apply length_alter| |done]. intros j Hj. rewrite cpu_at_popped by done.
    rewrite if_popped. pose proof (mo_ncli _ Hm j Hj). pose proof (mo_off _ Hm j Hj) as Hoff.
    case_decide; subst; simpl; [|done]. split_and!; [done|lia|lia|].
    intros ?. rewrite (proj2 (Z.eqb_neq _ 1)) by lia. simpl. apply Hoff. lia.
  - intros j Hj. rewrite cpu_at_popped by done. case_decide; subst; simpl; lia.
Qed.

(** What [holding] answers. *)
Definition held_flag m k l : bool :=
  negb (lk_locked (m_locks m l) =? 0) && bool_decide (lk_cpu (m_locks m l) = Some k).

Lemma holding_ok m k l :
  mach_ok m → (k < length (m_cpus m))%nat → c_ncli (cpu_at m k) < 2 ^ 31 - 5 →
  holding k l m = Ok (held_flag m k l) (popped k (pushed k m)) ∧ obs m (popped k (pushed k m)) k 0.
Proof.
  intros Hm Hk Hr. destruct (obs_pushed m k Hm Hk Hr) as [Hok Hlen Hn Hl].
  assert (Hk' : (k < length (m_cpus (pushed k m)))%nat) by by rewrite Hlen.
  assert (Hp : 0 < c_ncli (cpu_at (pushed k m) k)).
  { rewrite Hn, decide_True by done. pose proof (mo_ncli _ Hm k Hk). lia. }
  split.
  - unfold holding, bind. rewrite pushcli_ok by done.
    pose proof (mycpu_ok (pushed k m) k (λ c m', c = k ∧ m' = pushed k m) Hok Hk'
      (mo_off _ Hok k Hk' Hp) (conj eq_refl eq_refl)) as Hw.
    unfold wp in Hw. destruct (mycpu k (pushed k m)); try done. destruct Hw as [-> ->].
    unfold gets. rewrite popcli_ok by done. done.
  - apply (obs_trans m (pushed k m) _ k 1 (-1)); [by apply obs_pushed|by apply obs_popped].
Qed.

Lemma acquire_enter_ok m k l :
  mach_ok m → (k < length (m_cpus m))%nat → room m k →
  if held_flag m k l then acquire_enter k l m = Panic "acquire"
  else ∃ m', acquire_enter k l m = Ok tt m' ∧ obs m m' k 1.
Proof.
  intros Hm Hk Hr. unfold room in Hr. pose proof (obs_pushed m k Hm Hk ltac:(lia)) as Ho.
  assert (Hk' : (k < length (m_cpus (pushed k m)))%nat) by by rewrite (ob_len _ _ _ _ Ho).
  assert (Hr' : c_ncli (cpu_at (pushed k m) k) < 2 ^ 31 - 5).
  { rewrite (ob_ncli _ _ _ _ Ho), decide_True by done. lia. }
  destruct (holding_ok (pushed k m) k l (ob_ok _ _ _ _ Ho) Hk' Hr') as [Hh Ho2].
  change (held_flag (pushed k m) k l) with (held_flag m k l) in Hh.
  unfold acquire_enter, bind. rewrite pushcli_ok, Hh by done. destruct (held_flag m k l); [done|].
  eexists. split; [done|]. apply (obs_trans _ _ _ k 1 0 Ho Ho2).
Qed.

Lemma mycpu_eq m k : mach_ok m → (k < length (m_cpus m))%nat → m_if m k = false → mycpu k m = Ok k m.
Proof.
  intros Hm Hk Hi. pose proof (mycpu_ok m k (λ c m', c = k ∧ m' = m) Hm Hk Hi (conj eq_refl eq_refl)) as Hw.
  unfold wp in Hw. destruct (mycpu k m); try done. by destruct Hw as [-> ->].
Qed.

Lemma acquire_done_ok m k l frame :
  mach_ok m → (k < length (m_cpus m))%nat → 0 < c_ncli (cpu_at m k) →
  acquire_done k l frame m =
  Ok tt (lock_upd l (λ lk, Spinlock (lk_locked lk) (lk_name lk) (Some k) (getcallerpcs frame)) m).
Proof.
  intros Hm Hk Hp. unfold acquire_done, bind. rewrite mycpu_eq by (try done; by apply (mo_off _ Hm)). done.
Qed.

Lemma release_begin_ok m k l :
  mach_ok m → (k < length (m_cpus m))%nat → room m k →
  if held_flag m k l then ∃ m1, obs m m1 k 0 ∧ release_begin k l m =
    Ok tt (lock_upd l (λ lk, Spinlock (lk_locked lk) (lk_name lk) None (<[0%nat := 0]> (lk_pcs lk))) m1)
  else release_begin k l m = Panic "release".
Proof.
  intros Hm Hk Hr. unfold room in Hr. destruct (holding_ok m k l Hm Hk ltac:(lia)) as [Hh Ho].
  unfold release_begin, bind. rewrite Hh. destruct (held_flag m k l); [|done].
  eexists. split; [exact Ho|]. done.
Qed.

(** [n] nested pairs of [pushcli] and [popcli]. *)
Fixpoint nested (n : nat) k : M mach unit :=
  match n with
  | O => ret tt
  | S n' => pushcli k ;; nested n' k ;; popcli k
  end.

(** Same interrupt flags, nesting depths and locks; the saved flag of a
    processor counts only while its depth is positive. *)
Record same_ints m m' : Prop := {
  si_ok : mach_ok m';
  si_len : length (m_cpus m') = length (m_cpus m);
  si_if : ∀ j, m_if m' j = m_if m j;
  si_ncli : ∀ j, c_ncli (cpu_at m' j) = c_ncli (cpu_at m j);
  si_intena : ∀ j, 0 < c_ncli (cpu_at m j) → c_intena (cpu_at m' j) = c_intena (cpu_at m j);
  si_locks : m_locks m' = m_locks m
}.

Lemma nested_pair m m1 k :
  mach_ok m → (k < length (m_cpus m))%nat → c_ncli (cpu_at m k) < 2 ^ 31 - 5 →
  same_ints (pushed k m) m1 → same_ints m (popped k m1) ∧ popcli k m1 = Ok tt (popped k m1).
Proof.
  intros Hm Hk Hr [S1 L1 I1 N1 A1 K1]. pose proof (obs_pushed m k Hm Hk Hr) as [O2 L2 N2 _].
  pose proof (mo_ncli _ Hm k Hk) as Hn. assert (Hk1 : (k < length (m_cpus m1))%nat) by by rewrite L1, L2.
  assert (E1 : c_ncli (cpu_at m1 k) = c_ncli (cpu_at m k) + 1).
  { rewrite N1, N2, decide_True by done. done. }
  assert (Hp : 0 < c_ncli (cpu_at m1 k)) by lia.
  assert (Ei : c_intena (cpu_at m1 k) = if c_ncli (cpu_at m k) =? 0 then m_if m k else c_intena (cpu_at m k)).
  { rewrite A1 by (rewrite N2, decide_True by done; lia).
    rewrite cpu_at_pushed, decide_True by done. done. }
  split; [|by apply popcli_ok]. split.
  - by apply obs_popped.
  - unfold popped. cbn [m_cpus]. rewrite length_alter. congruence.
  - intros j. rewrite if_popped, !I1, !if_pushed. repeat case_decide; subst; try done.
    rewrite E1, Ei. destruct (c_ncli (cpu_at m k) =? 0) eqn:E; bool_props.
    + rewrite (proj2 (Z.eqb_eq _ _)) by lia. simpl. by destruct (m_if m k).
    + rewrite (proj2 (Z.eqb_neq _ _)) by lia. simpl. symmetry. apply (mo_off _ Hm k Hk). lia.
  - intros j. rewrite cpu_at_popped by done. case_decide; subst; simpl; [lia|].
    rewrite N1, cpu_at_pushed, decide_False by done. done.
  - intros j Hj. rewrite cpu_at_popped by done. case_decide; subst; simpl.
    + rewrite Ei. by rewrite (proj2 (Z.eqb_neq _ 0)) by lia.
    + rewrite A1; rewrite cpu_at_pushed, decide_False; done.
  - unfold popped. cbn [m_locks]. rewrite K1. done.
Qed.

(** [pushcli] and [popcli] nest: any number of matched pairs returns without
    a panic and leaves the interrupt flag of every processor as it was, whether
    it was on or off, and the nesting depths and locks too. *)
Theorem cli_nesting n m k :
  mach_ok m → (k < length (m_cpus m))%nat → c_ncli (cpu_at m k) + Z.of_nat n < 2 ^ 31 - 5 →
  wp (nested n k) (λ _ m', same_ints m m') m.
Proof.
  revert m. induction n as [|n IH]; intros m Hm Hk Hr; cbn [nested]; [by apply wp_ret; split|].
  pose proof (obs_pushed m k Hm Hk ltac:(lia)) as Ho. pose proof (ob_len _ _ _ _ Ho) as Hl.
  apply wp_bind. unfold wp at 1. rewrite pushcli_ok by done. apply wp_bind. eapply wp_mono.
  { apply IH; [apply Ho|by rewrite Hl|]. rewrite (ob_ncli _ _ _ _ Ho), decide_True by done. lia. }
  intros [] m1 Hs. destruct (nested_pair m m1 k Hm Hk ltac:(lia) Hs) as [Hs' E].
  unfold wp. by rewrite E.
Qed.
End spinlock.

Lemma cli_nesting_witness :
  wp (nested Z.of_nat 3 1)
    (λ _ m', same_ints Z.of_nat (Mach (λ _, true) [Cpu 0 0 false; Cpu 1 0 false] (λ _, Spinlock 0 "lock" None [])) m')
    (Mach (λ _, true) [Cpu 0 0 false; Cpu 1 0 false] (λ _, Spinlock 0 "lock" None [])).
Proof.
  apply (cli_nesting Z.of_nat 3 (Mach (λ _, true) [Cpu 0 0 false; Cpu 1 0 false]
    (λ _, Spinlock 0 "lock" None [])) 1).
  - split; simpl; intros [|[|k]]; simpl; try lia; done.
  - simpl. lia.
  - apply Z.ltb_lt. reflexivity.
Defined.
