(* ===== verification/SpinStep.v ===== *)
(** * Processors contending for spinlocks

    The interleavings of [acquire] and [release] on several processors as a
    step relation, with the invariant that gives mutual exclusion.  A step is
    one of the pieces of [Spinlock], or one turn of the loop of [acquire]. *)

From stdpp Require Import functions.
From S2P Require Import Prelude Words Params Spinlock.

(** Where a processor is: outside the lock code, in the loop of [acquire] for
    a lock, past the loop but before recording itself in the lock, or in
    [release] between clearing the record and the lock word. *)
Inductive phase := Idle | Spin (l : nat) | Got (l : nat) | Clear (l : nat).

Record thread := Thread {
  t_held : list nat;    (* locks acquired and not yet released *)
  t_phase : phase;
  t_pushes : nat        (* pushcli calls of its own, not yet popped *)
}.

Record sys := Sys { y_mach : mach; y_thr : nat → thread }.

Definition depth (t : thread) : Z :=
  Z.of_nat (length (t_held t)) + Z.of_nat (t_pushes t) +
  match t_phase t with Idle => 0 | _ => 1 end.

Definition set_phase (p : phase) t := Thread (t_held t) p (t_pushes t).
Definition set_held (l : list nat) t := Thread l (t_phase t) (t_pushes t).
Definition set_pushes (n : nat) t := Thread (t_held t) (t_phase t) n.

Definition remove_lock (l : nat) (ls : list nat) : list nat := filter (λ x, x ≠ l) ls.

Section step.
Variable lapicid : nat → Z.
Variable stack : Z → Z.
Implicit Types (k l : nat) (m : mach) (σ : sys).

(** Processor [k] moves.  The nesting depth is kept below the range of an int. *)
Inductive step : sys → sys → Prop :=
| step_enter k l m m' thr :
    (k < length (m_cpus m))%nat → t_phase (thr k) = Idle → room m k →
    acquire_enter lapicid k l m = Ok tt m' →
    step (Sys m thr) (Sys m' (<[k := set_phase (Spin l) (thr k)]> thr))
| step_spin k l m m' r thr :
    (k < length (m_cpus m))%nat → t_phase (thr k) = Spin l →
    xchg l 1 m = Ok r m' → r ≠ 0 →
    step (Sys m thr) (Sys m' thr)
| step_take k l m m' thr :
    (k < length (m_cpus m))%nat → t_phase (thr k) = Spin l →
    xchg l 1 m = Ok 0 m' →
    step (Sys m thr) (Sys m' (<[k := set_phase (Got l) (thr k)]> thr))
| step_record k l frame m m' thr :
    (k < length (m_cpus m))%nat → t_phase (thr k) = Got l →
    acquire_done lapicid stack k l frame m = Ok tt m' →
    step (Sys m thr) (Sys m' (<[k := Thread (l :: t_held (thr k)) Idle (t_pushes (thr k))]> thr))
| step_release k l m m' thr :
    (k < length (m_cpus m))%nat → t_phase (thr k) = Idle → room m k →
    release_begin lapicid k l m = Ok tt m' →
    step (Sys m thr) (Sys m' (<[k := Thread (remove_lock l (t_held (thr k))) (Clear l) (t_pushes (thr k))]> thr))
| step_unlock k l m m' thr :
    (k < length (m_cpus m))%nat → t_phase (thr k) = Clear l →
    release_end lapicid k l m = Ok tt m' →
    step (Sys m thr) (Sys m' (<[k := set_phase Idle (thr k)]> thr))
| step_push k m m' thr :
    (k < length (m_cpus m))%nat → t_phase (thr k) = Idle → room m k →
    pushcli lapicid k m = Ok tt m' →
    step (Sys m thr) (Sys m' (<[k := set_pushes (S (t_pushes (thr k))) (thr k)]> thr))
| step_pop k n m m' thr :
    (k < length (m_cpus m))%nat → t_phase (thr k) = Idle → t_pushes (thr k) = S n →
    popcli lapicid k m = Ok tt m' →
    step (Sys m thr) (Sys m' (<[k := set_pushes n (thr k)]> thr)).

Definition owns_t (t : thread) l : Prop :=
  l ∈ t_held t ∨ t_phase t = Got l ∨ t_phase t = Clear l.
Definition owns (thr : nat → thread) k l : Prop := owns_t (thr k) l.

(** The processors: interrupts, and the depth of the nesting. *)
Record cpu_inv m (thr : nat → thread) : Prop := {
  ci_ok : mach_ok lapicid m;
  ci_depth : ∀ k, (k < length (m_cpus m))%nat → c_ncli (cpu_at m k) = depth (thr k)
}.

(** The locks: a lock word is 1 exactly when some processor owns the lock, and
    a lock names the processor that acquired it. *)
Record lock_inv (n : nat) (locks : nat → spinlock) (thr : nat → thread) : Prop := {
  li_word : ∀ l, (lk_locked (locks l) = 0 ∧ ∀ k, (k < n)%nat → ¬ owns thr k l) ∨
                 (lk_locked (locks l) = 1 ∧ ∃ k, (k < n)%nat ∧ owns thr k l);
  li_uniq : ∀ l k k', (k < n)%nat → (k' < n)%nat → owns thr k l → owns thr k' l → k = k';
  li_cpu : ∀ l k, lk_cpu (locks l) = Some k ↔ (k < n)%nat ∧ l ∈ t_held (thr k);
  li_nodup : ∀ k, (k < n)%nat → NoDup (t_held (thr k));
  li_phase : ∀ k l, (k < n)%nat →
    t_phase (thr k) = Spin l ∨ t_phase (thr k) = Got l ∨ t_phase (thr k) = Clear l →
    l ∉ t_held (thr k)
}.

Definition sys_inv σ : Prop :=
  cpu_inv (y_mach σ) (y_thr σ) ∧
  lock_inv (length (m_cpus (y_mach σ))) (m_locks (y_mach σ)) (y_thr σ).

Lemma cpu_inv_obs m m' thr k d t :
  cpu_inv m thr → obs lapicid m m' k d → depth t = depth (thr k) + d → cpu_inv m' (<[k := t]> thr).
Proof.
  intros [Hok Hd] [Ok' Hlen Hn _] Ht. split; [done|]. intros j Hj. rewrite Hlen in Hj.
  rewrite Hn, Hd by done. destruct (decide (j = k)) as [->|].
  - rewrite fn_lookup_insert. lia.
  - rewrite fn_lookup_insert_ne by done. lia.
Qed.

Lemma obs_lock_upd m m' k d l f :
  obs lapicid m m' k d →
  mach_ok lapicid (lock_upd l f m') ∧ length (m_cpus (lock_upd l f m')) = length (m_cpus m) ∧
  ∀ j, (j < length (m_cpus m))%nat →
    c_ncli (cpu_at (lock_upd l f m') j) = c_ncli (cpu_at m j) + (if decide (j = k) then d else 0).
Proof. intros [[] ? ? ?]. split_and!; done. Qed.

Lemma cpu_inv_lock m m' thr k d t l f :
  cpu_inv m thr → obs lapicid m m' k d → depth t = depth (thr k) + d →
  cpu_inv (lock_upd l f m') (<[k := t]> thr).
Proof.
  intros Hc Ho Ht. destruct (cpu_inv_obs m m' thr k d t Hc Ho Ht) as [[] ?]. by split.
Qed.

(** The flag [holding] computes is right. *)
Lemma held_flag_iff m thr k l :
  lock_inv (length (m_cpus m)) (m_locks m) thr → (k < length (m_cpus m))%nat →
  held_flag m k l = true ↔ l ∈ t_held (thr k).
Proof.
  intros [Hw _ Hc _ _] Hk. unfold held_flag. rewrite andb_true_iff, negb_true_iff, Z.eqb_neq.
  rewrite bool_decide_eq_true, Hc. split; [by intros (_ & _ & ?)|]. intros Hl.
  split; [|done]. destruct (Hw l) as [[_ Hno]|[-> _]]; [|done].
  exfalso. apply (Hno k Hk). by left.
Qed.

(** A step in which [k] owns the same locks and holds the same ones. *)
Lemma lock_inv_same n locks thr k t :
  lock_inv n locks thr → (k < n)%nat → t_held t = t_held (thr k) →
  (∀ l, owns (<[k := t]> thr) k l ↔ owns thr k l) →
  (∀ l, t_phase t = Spin l ∨ t_phase t = Got l ∨ t_phase t = Clear l → l ∉ t_held t) →
  lock_inv n locks (<[k := t]> thr).
Proof.
  intros [Hw Hu Hc Hd Hp] Hk Eh Eo Hph.
  assert (Ho : ∀ j l, owns (<[k := t]> thr) j l ↔ owns thr j l).
  { intros j l. destruct (decide (j = k)) as [->|]; [apply Eo|].
    unfold owns. by rewrite fn_lookup_insert_ne. }
  assert (Hh : ∀ j, t_held (<[k := t]> thr j) = t_held (thr j)).
  { intros j. destruct (decide (j = k)) as [->|]; [by rewrite fn_lookup_insert|by rewrite fn_lookup_insert_ne]. }
  split.
  - intros l. destruct (Hw l) as [[E Hno]|[E (j & Hj & Hj')]]; [left|right].
    + split; [done|]. intros j Hj. rewrite Ho. by apply Hno.
    + split; [done|]. exists j. by rewrite Ho.
  - intros l j j' Hj Hj'. rewrite !Ho. by apply Hu.
  - intros l j. rewrite Hh. apply Hc.
  - intros j Hj. rewrite Hh. by apply Hd.
  - intros j l Hj. rewrite Hh. destruct (decide (j = k)) as [->|].
    + rewrite fn_lookup_insert, <- Eh. apply Hph.
    + rewrite fn_lookup_insert_ne by done. by apply Hp.
Qed.

(** A step in which [k] changes what it has of the lock [l], which nobody else
    owns. *)
Lemma lock_inv_change n locks thr k t l lk' :
  lock_inv n locks thr → (k < n)%nat →
  (∀ l', l' ≠ l → (l' ∈ t_held t ↔ l' ∈ t_held (thr k)) ∧ (owns_t t l' ↔ owns thr k l')) →
  (∀ j, (j < n)%nat → j ≠ k → ¬ owns thr j l) →
  (lk_locked lk' = 0 ∧ ¬ owns_t t l) ∨ (lk_locked lk' = 1 ∧ owns_t t l) →
  (∀ j, lk_cpu lk' = Some j ↔ j = k ∧ l ∈ t_held t) →
  NoDup (t_held t) →
  (∀ l', t_phase t = Spin l' ∨ t_phase t = Got l' ∨ t_phase t = Clear l' → l' ∉ t_held t) →
  lock_inv n (<[l := lk']> locks) (<[k := t]> thr).
Proof.
  intros [Hw Hu Hc Hd Hp] Hk Hsame Hothers Hlk Hcpu Hnd Hph.
  assert (Hin : ∀ j, <[k := t]> thr j = if decide (j = k) then t else thr j).
  { intros j. destruct (decide (j = k)) as [->|]; [apply fn_lookup_insert|by rewrite fn_lookup_insert_ne]. }
  assert (Ho : ∀ j l', l' ≠ l → owns (<[k := t]> thr) j l' ↔ owns thr j l').
  { intros j l' Hl'. unfold owns. rewrite Hin. case_decide; subst; [by apply Hsame|done]. }
  assert (Hol : ∀ j, (j < n)%nat → owns (<[k := t]> thr) j l → j = k ∧ owns_t t l).
  { intros j Hj. unfold owns. rewrite Hin. case_decide; [done|]. intros Hx. by destruct (Hothers j Hj H). }
  split.
  - intros l'. destruct (decide (l' = l)) as [->|Hl'].
    + rewrite fn_lookup_insert. destruct Hlk as [[E Hno]|[E Hyes]]; [left|right]; (split; [done|]).
      * intros j Hj Hx. by apply Hol in Hx as [_ ?].
      * exists k. split; [done|]. unfold owns. by rewrite fn_lookup_insert.
    + rewrite fn_lookup_insert_ne by done.
      destruct (Hw l') as [[E Hno]|[E (j & Hj & Hj')]]; [left|right]; (split; [done|]).
      * intros j Hj. rewrite Ho by done. by apply Hno.
      * exists j. by rewrite Ho.
  - intros l' j j' Hj Hj'. destruct (decide (l' = l)) as [->|Hl'].
    + intros H1 H2. apply Hol in H1 as [-> _]; [|done]. by apply Hol in H2 as [-> _].
    + rewrite !Ho by done. by apply Hu.
  - intros l' j. destruct (decide (l' = l)) as [->|Hl'].
    + rewrite fn_lookup_insert, Hcpu, Hin. case_decide; subst; [naive_solver|].
      split; [by intros [? _]|]. intros [Hj Hx]. destruct (Hothers j Hj H). by left.
    + rewrite fn_lookup_insert_ne, Hc, Hin by done. case_decide; subst; [|done].
      by rewrite (proj1 (Hsame l' Hl')).
  - intros j Hj. rewrite Hin. case_decide; [done|by apply Hd].
  - intros j l' Hj. rewrite Hin. case_decide; [apply Hph|by apply Hp].
Qed.

Lemma owner_alone n locks thr k l :
  lock_inv n locks thr → (k < n)%nat → owns thr k l → ∀ j, (j < n)%nat → j ≠ k → ¬ owns thr j l.
Proof. intros Hi Hk Ho j Hj Hne Hx. apply Hne. by apply (li_uniq _ _ _ Hi l). Qed.

Lemma owner_word n locks thr k l :
  lock_inv n locks thr → (k < n)%nat → owns thr k l → lk_locked (locks l) = 1.
Proof. intros Hi Hk Ho. destruct (li_word _ _ _ Hi l) as [[_ Hno]|[? _]]; [by destruct (Hno k Hk)|done]. Qed.

Lemma elem_of_remove_lock l l' ls : l' ∈ remove_lock l ls ↔ l' ≠ l ∧ l' ∈ ls.
Proof. unfold remove_lock. by rewrite list_elem_of_filter. Qed.

Lemma remove_lock_none l ls : l ∉ ls → remove_lock l ls = ls.
Proof.
  unfold remove_lock. induction ls as [|x ls IH]; intros Hl; [done|].
  apply not_elem_of_cons in Hl as [Hx Hl]. rewrite filter_cons, decide_True, IH by done. done.
Qed.

Lemma length_remove_lock l ls :
  NoDup ls → l ∈ ls → S (length (remove_lock l ls)) = length ls.
Proof.
  unfold remove_lock. induction 1 as [|x ls Hx Hnd IH]; intros Hl; [by apply not_elem_of_nil in Hl|].
  rewrite filter_cons. case_decide as Hd.
  - simpl. rewrite IH; [done|]. by apply elem_of_cons in Hl as [->|].
  - subst x. simpl. do 2 f_equal. by apply remove_lock_none.
Qed.

(** Splitting the owner relation of a concrete thread. *)
Ltac own_tac :=
  unfold owns, owns_t; simpl; rewrite ?elem_of_cons, ?elem_of_remove_lock; naive_solver.

Lemma depth_pos thr k : t_phase (thr k) ≠ Idle → 0 < depth (thr k).
Proof. unfold depth. destruct (t_phase (thr k)); [done|lia..]. Qed.

Lemma enter_inv k l m m' thr :
  sys_inv (Sys m thr) → (k < length (m_cpus m))%nat → t_phase (thr k) = Idle → room m k →
  acquire_enter lapicid k l m = Ok tt m' → sys_inv (Sys m' (<[k := set_phase (Spin l) (thr k)]> thr)).
Proof.
  intros [Hc Hl] Hk Hph Hr E. cbn [y_mach y_thr] in *.
  pose proof (acquire_enter_ok lapicid m k l (ci_ok _ _ Hc) Hk Hr) as Ha.
  pose proof (held_flag_iff m thr k l Hl Hk) as Hf.
  destruct (held_flag m k l); [congruence|]. destruct Ha as (m1 & E1 & Ho).
  rewrite E1 in E. injection E as <-. split; cbn [y_mach y_thr].
  - apply (cpu_inv_obs m m1 thr k 1); [done|done|]. unfold depth. simpl. rewrite Hph. lia.
  - rewrite (ob_len _ _ _ _ _ Ho), (ob_locks _ _ _ _ _ Ho). apply lock_inv_same; try done.
    + intros l'. unfold owns, owns_t. rewrite fn_lookup_insert. simpl. rewrite Hph. naive_solver.
    + intros l'. simpl. intros [[= <-]|[?|?]]; try done. intros Hin. by apply Hf in Hin.
Qed.

Lemma xchg_eq l v m : xchg l v m = Ok (lk_locked (m_locks m l))
  (lock_upd l (λ lk, Spinlock v (lk_name lk) (lk_cpu lk) (lk_pcs lk)) m).
Proof. done. Qed.

Lemma spin_inv k l m m' r thr :
  sys_inv (Sys m thr) → (k < length (m_cpus m))%nat → t_phase (thr k) = Spin l →
  xchg l 1 m = Ok r m' → r ≠ 0 → sys_inv (Sys m' thr).
Proof.
  intros [[[] Hd] [Hw Hu Hcp Hnd Hp]] Hk Hph E Hr. rewrite xchg_eq in E. injection E as <- <-.
  split; cbn [y_mach y_thr] in *; [by split|]. split; try done.
  - intros l'. simpl. destruct (decide (l' = l)) as [->|Hne].
    + rewrite fn_lookup_insert. simpl. destruct (Hw l) as [[? _]|[_ ?]]; [done|by right].
    + rewrite fn_lookup_insert_ne by done. apply Hw.
  - intros l' j. simpl. destruct (decide (l' = l)) as [->|Hne].
    + rewrite fn_lookup_insert. apply Hcp.
    + rewrite fn_lookup_insert_ne by done. apply Hcp.
Qed.

Lemma take_inv k l m m' thr :
  sys_inv (Sys m thr) → (k < length (m_cpus m))%nat → t_phase (thr k) = Spin l →
  xchg l 1 m = Ok 0 m' → sys_inv (Sys m' (<[k := set_phase (Got l) (thr k)]> thr)).
Proof.
  intros [Hc Hl] Hk Hph E. cbn [y_mach y_thr] in *. rewrite xchg_eq in E. injection E as Hz <-.
  assert (Hno : ∀ j, (j < length (m_cpus m))%nat → ¬ owns thr j l).
  { intros j Hj Hx. pose proof (owner_word _ _ _ j l Hl Hj Hx). congruence. }
  assert (Hnh : l ∉ t_held (thr k)) by (intros Hx; apply (Hno k Hk); by left).
  split; cbn [y_mach y_thr].
  - apply (cpu_inv_lock m m thr k 0); [done|apply obs_refl, Hc|]. unfold depth. simpl. rewrite Hph. lia.
  - apply lock_inv_change; try done.
    + intros l' Hl'. split; [done|]. unfold owns, owns_t. simpl. rewrite Hph. naive_solver.
    + intros j Hj _. by apply Hno.
    + right. split; [done|]. by right; left.
    + intros j. simpl. rewrite (li_cpu _ _ _ Hl). split; [|by intros [_ ?]].
      intros [Hj Hx]. destruct (Hno j Hj). by left.
    + by apply (li_nodup _ _ _ Hl).
    + intros l'. simpl. intros [?|[[= <-]|?]]; done.
Qed.

Lemma record_inv k l frame m m' thr :
  sys_inv (Sys m thr) → (k < length (m_cpus m))%nat → t_phase (thr k) = Got l →
  acquire_done lapicid stack k l frame m = Ok tt m' →
  sys_inv (Sys m' (<[k := Thread (l :: t_held (thr k)) Idle (t_pushes (thr k))]> thr)).
Proof.
  intros [Hc Hl] Hk Hph E. cbn [y_mach y_thr] in *.
  assert (Ho : owns thr k l) by by right; left.
  pose proof (li_phase _ _ _ Hl k l Hk ltac:(by right; left)) as Hnh.
  rewrite acquire_done_ok in E; [|apply Hc|done|rewrite (ci_depth _ _ Hc k Hk); apply depth_pos; by rewrite Hph].
  injection E as <-. split; cbn [y_mach y_thr].
  - apply (cpu_inv_lock m m thr k 0); [done|apply obs_refl, Hc|]. unfold depth. simpl. rewrite Hph. lia.
  - apply lock_inv_change; try done.
    + intros l' Hl'. unfold owns, owns_t. simpl. rewrite Hph, elem_of_cons. naive_solver.
    + by apply (owner_alone _ _ _ _ _ Hl).
    + right. split; [by apply (owner_word _ _ _ k l Hl)|]. left. by left.
    + intros j. simpl. rewrite elem_of_cons. naive_solver.
    + constructor; [done|by apply (li_nodup _ _ _ Hl)].
    + intros l'. simpl. naive_solver.
Qed.

Lemma drop_lock_inv k l m m' thr :
  sys_inv (Sys m thr) → (k < length (m_cpus m))%nat → t_phase (thr k) = Idle → room m k →
  release_begin lapicid k l m = Ok tt m' →
  sys_inv (Sys m' (<[k := Thread (remove_lock l (t_held (thr k))) (Clear l) (t_pushes (thr k))]> thr)).
Proof.
  intros [Hc Hl] Hk Hph Hr E. cbn [y_mach y_thr] in *.
  pose proof (release_begin_ok lapicid m k l (ci_ok _ _ Hc) Hk Hr) as Ha.
  pose proof (held_flag_iff m thr k l Hl Hk) as Hf. destruct (held_flag m k l); [|congruence].
  destruct Ha as (m1 & Ho & E1). rewrite E1 in E. injection E as <-.
  assert (Hin : l ∈ t_held (thr k)) by by apply Hf.
  pose proof (li_nodup _ _ _ Hl k Hk) as Hnd. split; cbn [y_mach y_thr].
  - apply (cpu_inv_lock m m1 thr k 0); [done|done|]. unfold depth. simpl. rewrite Hph.
    pose proof (length_remove_lock l _ Hnd Hin). lia.
  - simpl. rewrite (ob_len _ _ _ _ _ Ho), (ob_locks _ _ _ _ _ Ho). apply lock_inv_change; try done.
    + intros l' Hl'. unfold owns, owns_t. simpl. rewrite Hph, elem_of_remove_lock. naive_solver.
    + apply (owner_alone _ _ _ _ _ Hl Hk). by left.
    + right. split; [by apply (owner_word _ _ _ k l Hl Hk); left|]. by right; right.
    + intros j. simpl. rewrite elem_of_remove_lock. naive_solver.
    + simpl. by apply NoDup_filter.
    + intros l'. simpl. rewrite elem_of_remove_lock. naive_solver.
Qed.

Lemma unlock_inv k l m m' thr :
  sys_inv (Sys m thr) → (k < length (m_cpus m))%nat → t_phase (thr k) = Clear l →
  release_end lapicid k l m = Ok tt m' → sys_inv (Sys m' (<[k := set_phase Idle (thr k)]> thr)).
Proof.
  intros [Hc Hl] Hk Hph E. cbn [y_mach y_thr] in *.
  assert (Ho : owns thr k l) by by right; right.
  pose proof (li_phase _ _ _ Hl k l Hk ltac:(by right; right)) as Hnh.
  set (m1 := lock_upd l (λ lk, Spinlock 0 (lk_name lk) (lk_cpu lk) (lk_pcs lk)) m) in *.
  assert (Hm1 : mach_ok lapicid m1) by by destruct Hc as [[] _].
  assert (Hp : 0 < c_ncli (cpu_at m1 k)).
  { change (c_ncli (cpu_at m1 k)) with (c_ncli (cpu_at m k)). rewrite (ci_depth _ _ Hc k Hk).
    apply depth_pos. by rewrite Hph. }
  unfold release_end, bind, modify in E. fold m1 in E. rewrite popcli_ok in E by done. injection E as <-.
  pose proof (obs_popped lapicid m1 k Hm1 Hk Hp) as Hob. split; cbn [y_mach y_thr].
  - apply (cpu_inv_obs m1 _ thr k (-1)); [by destruct Hc; split|done|].
    unfold depth. simpl. rewrite Hph. lia.
  - rewrite (ob_len _ _ _ _ _ Hob), (ob_locks _ _ _ _ _ Hob). apply lock_inv_change; try done.
    + intros l' Hl'. unfold owns, owns_t. simpl. rewrite Hph. naive_solver.
    + by apply (owner_alone _ _ _ _ _ Hl).
    + left. split; [done|]. unfold owns_t. simpl. naive_solver.
    + intros j. simpl. rewrite (li_cpu _ _ _ Hl). split; [|naive_solver].
      intros [Hj Hx]. assert (j = k) as ->; [|done]. apply (li_uniq _ _ _ Hl l); try done. by left.
    + by apply (li_nodup _ _ _ Hl).
    + intros l'. simpl. naive_solver.
Qed.

Lemma own_same_inv k d t m m' thr :
  sys_inv (Sys m thr) → (k < length (m_cpus m))%nat → obs lapicid m m' k d → depth t = depth (thr k) + d →
  t_held t = t_held (thr k) → t_phase t = t_phase (thr k) → sys_inv (Sys m' (<[k := t]> thr)).
Proof.
  intros [Hc Hl] Hk Ho Hd Hh Hp. cbn [y_mach y_thr] in *. split; cbn [y_mach y_thr].
  - by apply (cpu_inv_obs m m' thr k d).
  - rewrite (ob_len _ _ _ _ _ Ho), (ob_locks _ _ _ _ _ Ho). apply lock_inv_same; try done.
    + intros l. unfold owns, owns_t. by rewrite fn_lookup_insert, Hh, Hp.
    + rewrite Hp, Hh. intros l. by apply (li_phase _ _ _ Hl).
Qed.

Lemma step_inv σ σ' : sys_inv σ → step σ σ' → sys_inv σ'.
Proof.
  intros Hi Hst. destruct Hst as [k l m m' thr Hk Hph Hr E|k l m m' r thr Hk Hph E Hr|
    k l m m' thr Hk Hph E|k l fr m m' thr Hk Hph E|k l m m' thr Hk Hph Hr E|k l m m' thr Hk Hph E|
    k m m' thr Hk Hph Hr E|k n m m' thr Hk Hph Hn E].
  - by apply (enter_inv k l m).
  - by apply (spin_inv k l m m' r).
  - by apply (take_inv k l m).
  - by apply (record_inv k l fr m).
  - by apply (drop_lock_inv k l m).
  - by apply (unlock_inv k l m).
  - rewrite pushcli_ok in E; [|apply Hi|done]. injection E as <-.
    apply (own_same_inv k 1 _ m); try done.
    + apply obs_pushed; [apply Hi|done|unfold room in Hr; lia].
    + unfold depth. simpl. lia.
  - assert (Hp : 0 < c_ncli (cpu_at m k)).
    { destruct Hi as [Hc _]. cbn [y_mach y_thr] in Hc. rewrite (ci_depth _ _ Hc k Hk). unfold depth. rewrite Hn, Hph. lia. }
    rewrite popcli_ok in E; [|apply Hi|done|done]. injection E as <-.
    apply (own_same_inv k (-1) _ m); try done.
    + apply obs_popped; [apply Hi|done|done].
    + unfold depth. simpl. rewrite Hn. lia.
Qed.

(** The machine after [initlock] of every lock, before any processor moved. *)
Definition start (cpus : list cpu) : sys :=
  Sys (Mach (λ _, true) cpus (λ l, Spinlock 0 "lock" None (replicate 10 0))) (λ _, Thread [] Idle 0).

Definition cpus_ok (cpus : list cpu) : Prop :=
  (∀ k, (k < length cpus)%nat → c_apicid (cpus !!! k) = lapicid k ∧ c_ncli (cpus !!! k) = 0) ∧
  (∀ k k', (k < length cpus)%nat → (k' < length cpus)%nat → lapicid k = lapicid k' → k = k').

Lemma start_inv cpus : cpus_ok cpus → sys_inv (start cpus).
Proof.
  intros [Hc Hinj]. split; cbn [y_mach y_thr start].
  - split; [split|]; simpl.
    + intros k Hk. by apply Hc.
    + done.
    + intros k Hk. unfold cpu_at. simpl. rewrite (proj2 (Hc k Hk)). lia.
    + intros k Hk. unfold cpu_at. simpl. rewrite (proj2 (Hc k Hk)). lia.
    + intros k Hk. by apply Hc.
  - simpl. split.
    + intros l. left. split; [done|]. intros k Hk. unfold owns, owns_t. simpl.
      rewrite elem_of_nil. naive_solver.
    + intros l k k' _ _. unfold owns, owns_t. simpl. rewrite elem_of_nil. naive_solver.
    + intros l k. simpl. rewrite elem_of_nil. naive_solver.
    + intros k _. constructor.
    + intros k l _. simpl. naive_solver.
Qed.

Lemma reachable_inv cpus σ : cpus_ok cpus → rtc step (start cpus) σ → sys_inv σ.
Proof.
  intros Hc Hr. pose proof (start_inv cpus Hc) as Hi. revert Hi.
  induction Hr as [|σ1 σ2 σ3 Hs _ IH]; [done|]. intros Hi. apply IH. by apply (step_inv σ1).
Qed.

(** C6: Mutual exclusion: however the processors interleave, two processors
    never own the same lock at the same time (an owner is past the loop of
    [acquire] and has not yet cleared the lock word in [release]), and a
    processor that owns a lock, or is trying to get one, runs with its
    interrupts off. *)
Theorem spinlock_mutex cpus σ k k' l :
  cpus_ok cpus → rtc step (start cpus) σ →
  (k < length (m_cpus (y_mach σ)))%nat → (k' < length (m_cpus (y_mach σ)))%nat →
  (owns (y_thr σ) k l → owns (y_thr σ) k' l → k = k') ∧
  (owns (y_thr σ) k l ∨ t_phase (y_thr σ k) = Spin l → m_if (y_mach σ) k = false).
Proof.
  intros Hc Hr Hk Hk'. destruct (reachable_inv cpus σ Hc Hr) as [Hci Hli]. split.
  - by apply (li_uniq _ _ _ Hli).
  - intros Ho. apply (mo_off _ _ (ci_ok _ _ Hci) k Hk). rewrite (ci_depth _ _ Hci k Hk). unfold depth.
    destruct Ho as [[Ho|[->| ->]]| ->]; [|lia..].
    destruct (t_held (y_thr σ k)); [by apply not_elem_of_nil in Ho|]. simpl.
    destruct (t_phase (y_thr σ k)); lia.
Qed.

(** The panics of the lock code are exact.  In every reachable state a
    processor outside the lock code gets the panic of [acquire] exactly for a
    lock it already holds, the panic of [release] exactly for a lock it does
    not hold, and a processor in the loop of [acquire] leaves it at its next
    turn exactly when no processor owns the lock. *)
Theorem spinlock_panics cpus σ k l :
  cpus_ok cpus → rtc step (start cpus) σ → (k < length (m_cpus (y_mach σ)))%nat → room (y_mach σ) k →
  (acquire_enter lapicid k l (y_mach σ) = Panic "acquire" ↔ l ∈ t_held (y_thr σ k)) ∧
  (release_begin lapicid k l (y_mach σ) = Panic "release" ↔ l ∉ t_held (y_thr σ k)) ∧
  (wp (xchg l 1) (λ r _, r = 0) (y_mach σ) ↔
     ∀ j, (j < length (m_cpus (y_mach σ)))%nat → ¬ owns (y_thr σ) j l).
Proof.
  intros Hc Hr Hk Hroom. destruct (reachable_inv cpus σ Hc Hr) as [Hci Hli].
  pose proof (held_flag_iff (y_mach σ) (y_thr σ) k l Hli Hk) as Hf.
  pose proof (acquire_enter_ok lapicid _ k l (ci_ok _ _ Hci) Hk Hroom) as Ha.
  pose proof (release_begin_ok lapicid _ k l (ci_ok _ _ Hci) Hk Hroom) as Hb.
  split_and!.
  - rewrite <- Hf. destruct (held_flag (y_mach σ) k l); [done|]. destruct Ha as (m' & -> & _). done.
  - rewrite <- Hf. destruct (held_flag (y_mach σ) k l); [|done]. destruct Hb as (m1 & _ & ->). naive_solver.
  - unfold wp. rewrite xchg_eq. destruct (li_word _ _ _ Hli l) as [[E Hno]|[E (j & Hj & Ho)]]; rewrite E.
    + naive_solver.
    + split; [done|]. intros Hno. by destruct (Hno j Hj).
Qed.
End step.

(** ** Witness: two processors, the second one spinning *)

Definition two_cpus : list cpu := [Cpu 0 0 false; Cpu 1 0 false].
Definition no_stack : Z → Z := λ _, 0.

Lemma two_cpus_ok : cpus_ok Z.of_nat two_cpus.
Proof.
  split.
  - intros [|[|k]] Hk; simpl in Hk; [done|done|lia].
  - intros k k' _ _ E. lia.
Qed.

(** Processor 0 holds lock 5 and processor 1 has entered [acquire]. *)
Definition one_holds : sys :=
  let m1 := exec (acquire_enter Z.of_nat 0 5) (y_mach (start two_cpus)) in
  let m2 := exec (xchg 5 1) m1 in
  let m3 := exec (acquire_done Z.of_nat no_stack 0 5 0) m2 in
  let m4 := exec (acquire_enter Z.of_nat 1 5) m3 in
  let t0 := λ _, Thread [] Idle 0 in
  let t1 := <[0%nat := set_phase (Spin 5) (t0 0%nat)]> t0 in
  let t2 := <[0%nat := set_phase (Got 5) (t1 0%nat)]> t1 in
  let t3 := <[0%nat := Thread (5%nat :: t_held (t2 0%nat)) Idle (t_pushes (t2 0%nat))]> t2 in
  let t4 := <[1%nat := set_phase (Spin 5) (t3 1%nat)]> t3 in
  Sys m4 t4.

Lemma one_holds_reachable : rtc (step Z.of_nat no_stack) (start two_cpus) one_holds.
Proof.
  eapply rtc_l; [apply (step_enter _ _ 0 5); [apply Nat.ltb_lt; reflexivity|reflexivity|unfold room; simpl; lia|reflexivity]|].
  eapply rtc_l; [apply (step_take _ _ 0 5); [apply Nat.ltb_lt; reflexivity|reflexivity|reflexivity]|].
  eapply rtc_l; [apply (step_record _ _ 0 5 0); [apply Nat.ltb_lt; reflexivity|reflexivity|reflexivity]|].
  eapply rtc_l; [apply (step_enter _ _ 1 5); [apply Nat.ltb_lt; reflexivity|reflexivity|unfold room; simpl; lia|reflexivity]|].
  apply rtc_refl.
Qed.

Lemma spinlock_mutex_witness :
  (owns (y_thr one_holds) 0 5 → owns (y_thr one_holds) 1 5 → 0%nat = 1%nat) ∧
  (owns (y_thr one_holds) 0 5 ∨ t_phase (y_thr one_holds 0%nat) = Spin 5 → m_if (y_mach one_holds) 0%nat = false).
Proof.
  apply (spinlock_mutex Z.of_nat no_stack two_cpus one_holds 0 1 5 two_cpus_ok one_holds_reachable);
    apply Nat.ltb_lt; reflexivity.
Defined.

Lemma spinlock_panics_witness :
  acquire_enter Z.of_nat 0 5 (y_mach one_holds) = Panic "acquire" ↔ 5%nat ∈ t_held (y_thr one_holds 0%nat).
Proof.
  apply (spinlock_panics Z.of_nat no_stack two_cpus one_holds 0 5 two_cpus_ok one_holds_reachable).
  - apply Nat.ltb_lt. reflexivity.
  - apply Z.ltb_lt. reflexivity.
Defined.
