(* ===== verification/Kalloc.v ===== *)
(** * Physical pages (kalloc.c)

    Physical memory is a map from the kernel address of each page to its 4096
    bytes; the free list is threaded through the first word of the free pages,
    as in the code. *)

From S2P Require Import Prelude Words Params Locks.

Notation page := (list Z).
Definition npage : nat := Z.to_nat PGSIZE.
#[global] Arguments npage : simpl never.
Definition zero_page : page := replicate npage 0.
#[global] Arguments zero_page : simpl never.

Record kmem := Kmem {
  km_lock : bool;
  km_use_lock : bool;
  km_freelist : Z;                (* address of the first free page, or 0 *)
  km_pages : gmap Z page          (* the pages of physical memory *)
}.

Definition with_klock v k := Kmem v (km_use_lock k) (km_freelist k) (km_pages k).
Definition with_use_lock v k := Kmem (km_lock k) v (km_freelist k) (km_pages k).
Definition with_freelist v k := Kmem (km_lock k) (km_use_lock k) v (km_pages k).
Definition with_pages v k := Kmem (km_lock k) (km_use_lock k) (km_freelist k) v.

Definition kmem_acquire : M kmem unit := zoom km_lock with_klock spin_acquire.
Definition kmem_release : M kmem unit := zoom km_lock with_klock spin_release.

(** Loads and stores of 32-bit words, and of whole pages. *)
Definition page_of (a : Z) : Z := a - a mod PGSIZE.
Definition load_page (a : Z) : M kmem page := λ k,
  match km_pages k !! a with Some p => Ok p k | None => Fault end.
Definition store_page (a : Z) (p : page) : M kmem unit := λ k,
  match km_pages k !! a with
  | Some _ => Ok tt (with_pages (<[a := p]> (km_pages k)) k)
  | None => Fault
  end.
Definition load_word (a : Z) : M kmem Z :=
  p ← load_page (page_of a); ret (get_u32 (Z.to_nat (a mod PGSIZE)) p).
Definition store_word (a v : Z) : M kmem unit :=
  p ← load_page (page_of a); store_page (page_of a) (put_u32 (Z.to_nat (a mod PGSIZE)) v p).
(** [memset(v, c, PGSIZE)] *)
Definition fill_page (a c : Z) : M kmem unit := store_page a (replicate npage c).

Section kalloc.
(** First address after the kernel, from the linker script. *)
Variable kend : Z.

Definition kfree (v : Z) : M kmem unit :=
  if negb (v mod PGSIZE =? 0) || (v <? kend) || (PHYSTOP <=? V2P v) then panic "kfree"
  else
    fill_page v 1 ;;
    use ← gets km_use_lock;
    whenM use kmem_acquire ;;
    next ← gets km_freelist;
    store_word v next ;;
    modify (with_freelist v) ;;
    use ← gets km_use_lock;
    whenM use kmem_release.

Definition kalloc : M kmem Z :=
  use ← gets km_use_lock;
  whenM use kmem_acquire ;;
  r ← gets km_freelist;
  whenM (negb (r =? 0)) (next ← load_word r; modify (with_freelist next)) ;;
  use ← gets km_use_lock;
  whenM use kmem_release ;;
  ret r.

Fixpoint freerange_from (fuel : nat) (p vend : Z) : M kmem unit :=
  match fuel with
  | O => fault
  | S f => if u32 (p + PGSIZE) <=? vend then kfree p ;; freerange_from f (u32 (p + PGSIZE)) vend
           else ret tt
  end.
(** There are at most 2^20 pages. *)
Definition freerange (vstart vend : Z) : M kmem unit :=
  freerange_from (Z.to_nat (vend / PGSIZE + 2)) (PGROUNDUP vstart) vend.

Definition kinit1 (vstart vend : Z) : M kmem unit :=
  modify (with_klock false) ;;
  modify (with_use_lock false) ;;
  freerange vstart vend.

Definition kinit2 (vstart vend : Z) : M kmem unit :=
  freerange vstart vend ;;
  modify (with_use_lock true).

(** ** The allocator's invariant *)

(** A page the allocator may hand out. *)
Definition page_addr (a : Z) : Prop :=
  a mod PGSIZE = 0 ∧ kend ≤ a ∧ KERNBASE ≤ a < KERNBASE + PHYSTOP.

(** The free list that starts at [h]. *)
Fixpoint chain (pages : gmap Z page) (h : Z) (l : list Z) : Prop :=
  match l with
  | [] => h = 0
  | a :: l' => h = a ∧ ∃ p, pages !! a = Some p ∧ chain pages (get_u32 0 p) l'
  end.

Record kmem_ok (k : kmem) (free : list Z) : Prop := {
  ko_lock : km_lock k = false;
  ko_chain : chain (km_pages k) (km_freelist k) free;
  ko_addr : Forall page_addr free;
  ko_nodup : NoDup free;
  ko_pages : ∀ a p, km_pages k !! a = Some p → length p = npage;
  ko_all : ∀ a, page_addr a → is_Some (km_pages k !! a)
}.

Lemma chain_ext pages pages' h l :
  (∀ a, a ∈ l → pages' !! a = pages !! a) → chain pages h l → chain pages' h l.
Proof.
  revert h. induction l as [|a l IH]; intros h He; [done|].
  cbn [chain]. intros (-> & p & Hp & Hc). split; [done|]. exists p. split.
  - rewrite He by by left. done.
  - apply IH; [|done]. intros x Hx. apply He. by right.
Qed.

Lemma page_addr_pos a : page_addr a → 0 < a < 2 ^ 32.
Proof. intros (_ & _ & H). unfold KERNBASE, PHYSTOP in H. lia. Qed.

Lemma page_addr_mod a : page_addr a → page_of a = a ∧ a mod PGSIZE = 0.
Proof. intros (H & _). unfold page_of. split; [lia|done]. Qed.

Lemma kfree_guard v :
  0 ≤ v < 2 ^ 32 → KERNBASE ≤ kend →
  negb (v mod PGSIZE =? 0) || (v <? kend) || (PHYSTOP <=? V2P v) = false ↔ page_addr v.
Proof.
  intros Hv Hend. unfold page_addr. split.
  - intros E. bool_props. unfold V2P, u32, KERNBASE, PHYSTOP in *.
    rewrite Z.mod_small in * by lia. split_and!; [done|lia|lia|lia].
  - intros (Hm & He & Hr). rewrite Hm. simpl. apply orb_false_iff. split; [apply Z.ltb_ge; lia|].
    apply Z.leb_gt. unfold V2P, u32, KERNBASE, PHYSTOP in *. rewrite Z.mod_small; lia.
Qed.

Lemma wp_load_page a p k (Q : page → kmem → Prop) :
  km_pages k !! a = Some p → Q p k → wp (load_page a) Q k.
Proof. intros E HQ. unfold wp, load_page. by rewrite E. Qed.

Lemma wp_store_page a p k (Q : unit → kmem → Prop) :
  is_Some (km_pages k !! a) → Q tt (with_pages (<[a := p]> (km_pages k)) k) → wp (store_page a p) Q k.
Proof. intros [q E] HQ. unfold wp, store_page. by rewrite E. Qed.

Lemma wp_store_word a v p k (Q : unit → kmem → Prop) :
  km_pages k !! page_of a = Some p →
  Q tt (with_pages (<[page_of a := put_u32 (Z.to_nat (a mod PGSIZE)) v p]> (km_pages k)) k) →
  wp (store_word a v) Q k.
Proof.
  intros E HQ. unfold store_word. wp_step. apply (wp_load_page _ p); [done|].
  apply wp_store_page; [by exists p|done].
Qed.

Lemma wp_load_word a p k (Q : Z → kmem → Prop) :
  km_pages k !! page_of a = Some p → Q (get_u32 (Z.to_nat (a mod PGSIZE)) p) k → wp (load_word a) Q k.
Proof. intros E HQ. unfold load_word. wp_step. apply (wp_load_page _ p); [done|]. by wp_step. Qed.

(** [if(use_lock) acquire]: the lock is free before and held, if used, after. *)
Lemma wp_kacquire k (Q : unit → kmem → Prop) :
  km_lock k = false → Q tt (with_klock (km_use_lock k) k) → wp (whenM (km_use_lock k) kmem_acquire) Q k.
Proof.
  intros Hl HQ. unfold whenM. destruct (km_use_lock k) eqn:E.
  - apply wp_zoom. unfold wp, spin_acquire. by rewrite Hl.
  - apply wp_ret. replace k with (with_klock false k); [done|]. destruct k. simpl in *. by subst.
Qed.

Lemma wp_krelease k (Q : unit → kmem → Prop) :
  km_lock k = km_use_lock k → Q tt (with_klock false k) → wp (whenM (km_use_lock k) kmem_release) Q k.
Proof.
  intros Hl HQ. unfold whenM. destruct (km_use_lock k) eqn:E.
  - apply wp_zoom. unfold wp, spin_release. by rewrite Hl.
  - apply wp_ret. replace k with (with_klock false k); [done|]. destruct k. simpl in *. by subst.
Qed.

Definition freed_page (next : Z) : page := put_u32 0 next (replicate npage 1).
(** What [kfree] leaves. *)
Definition freed (v : Z) (k : kmem) : kmem :=
  with_freelist v (with_pages (<[v := freed_page (km_freelist k)]> (km_pages k)) k).

Lemma wp_kfree v k (Q : unit → kmem → Prop) :
  KERNBASE ≤ kend → page_addr v → km_lock k = false → is_Some (km_pages k !! v) →
  Q tt (freed v k) → wp (kfree v) Q k.
Proof.
  intros Hend Hv Hl Hp HQ. destruct (page_addr_mod v Hv) as [Ev Em]. unfold kfree.
  rewrite (proj2 (kfree_guard v ltac:(pose proof (page_addr_pos v Hv); lia) Hend) Hv).
  wp_step. apply wp_store_page; [done|]. wp_step. wp_step. wp_step. apply wp_kacquire; [done|].
  wp_step. wp_step. wp_step. apply (wp_store_word v _ (replicate npage 1)).
  { rewrite Ev. simpl. by rewrite lookup_insert_eq. }
  rewrite Ev, Em. do 4 wp_step. apply wp_krelease; [done|].
  replace (with_klock _ _) with (freed v k); [done|].
  unfold freed, freed_page, with_klock, with_freelist, with_pages. simpl. rewrite insert_insert_eq, Hl. done.
Qed.

Lemma length_freed_page next : length (freed_page next) = npage.
Proof. unfold freed_page, put_u32. rewrite length_put_le; [done|]. unfold npage, PGSIZE. rewrite length_replicate. lia. Qed.

Lemma freed_page_next next : 0 ≤ next < 2 ^ 32 → get_u32 0 (freed_page next) = next.
Proof.
  intros Hn. unfold freed_page, get_u32, put_u32. rewrite get_put_le.
  - apply Z.mod_small. simpl. lia.
  - unfold npage, PGSIZE. rewrite length_replicate. lia.
Qed.

Lemma freelist_range k free : kmem_ok k free → 0 ≤ km_freelist k < 2 ^ 32.
Proof.
  intros [_ Hc Ha _ _ _]. destruct free as [|a l]; simpl in Hc; [lia|]. destruct Hc as [-> _].
  inversion Ha as [|? ? Hp]; subst. pose proof (page_addr_pos a Hp). lia.
Qed.

Lemma freed_ok v k free :
  page_addr v → v ∉ free → kmem_ok k free → kmem_ok (freed v k) (v :: free).
Proof.
  intros Hv Hn Hk. pose proof (freelist_range k free Hk) as Hr. destruct Hk as [Hl Hc Ha Hnd Hlen Hall].
  split; simpl.
  - done.
  - split; [done|]. exists (freed_page (km_freelist k)). split; [by rewrite lookup_insert_eq|].
    rewrite freed_page_next by done. apply (chain_ext (km_pages k)); [|done].
    intros a Hin. rewrite lookup_insert_ne by (by intros ->). done.
  - by constructor.
  - by constructor.
  - intros a p. rewrite lookup_insert_Some. intros [[_ <-]|[_ Hp]]; [apply length_freed_page|by apply (Hlen a)].
  - intros a Hpa. rewrite lookup_insert_is_Some'. right. by apply Hall.
Qed.

Lemma wp_kalloc k free (Q : Z → kmem → Prop) :
  kmem_ok k free →
  match free with
  | [] => Q 0 k
  | a :: free' => ∀ next, kmem_ok (with_freelist next k) free' → Q a (with_freelist next k)
  end → wp kalloc Q k.
Proof.
  intros [Hl Hc Ha Hnd Hlen Hall] HQ. unfold kalloc. wp_step. wp_step. wp_step.
  apply wp_kacquire; [done|]. wp_step. wp_step. destruct free as [|a free]; cbn [chain] in Hc; cbn [km_freelist with_klock].
  - rewrite Hc. wp_step. apply wp_ret. wp_step. wp_step. wp_step. apply (wp_krelease (with_klock (km_use_lock k) k)); [done|]. wp_step.
    replace (with_klock _ _) with k; [done|]. destruct k. simpl in *. by subst.
  - destruct Hc as (-> & p & Hp & Hc). inversion Ha as [|? ? Hpa Ha']; subst.
    inversion Hnd as [|? ? Hni Hnd']; subst. destruct (page_addr_mod a Hpa) as [Ea Em].
    pose proof (page_addr_pos a Hpa). rewrite (proj2 (Z.eqb_neq a 0)) by lia. simpl negb.
    wp_step. cbn [whenM]. wp_step. apply (wp_load_word a p); [by rewrite Ea|]. rewrite Em.
    wp_step. wp_step. wp_step. wp_step. apply (wp_krelease (with_freelist _ _)); [done|]. wp_step.
    replace (with_klock _ _) with (with_freelist (get_u32 0 p) k) by (destruct k; simpl in *; by subst).
    apply HQ. by split.
Qed.

(** ** Freeing a range *)

(** [n] pages from [p] on. *)
Definition pages_from (p : Z) (n : nat) : list Z := (λ i, p + PGSIZE * Z.of_nat i) <$> seq 0 n.

Lemma elem_of_pages_from p n a :
  a ∈ pages_from p n ↔ ∃ i, (i < n)%nat ∧ a = p + PGSIZE * Z.of_nat i.
Proof. unfold pages_from. rewrite list_elem_of_fmap. setoid_rewrite elem_of_seq. naive_solver lia. Qed.

Lemma pages_from_S p n : pages_from p (S n) = p :: pages_from (p + PGSIZE) n.
Proof.
  unfold pages_from. cbn [seq]. rewrite fmap_cons. f_equal; [lia|].
  rewrite <- fmap_S_seq, <- list_fmap_compose. apply list_fmap_ext. intros i x _. simpl. lia.
Qed.

Lemma wp_freerange_from n fuel p vend k free :
  KERNBASE ≤ kend → kend ≤ p → p mod PGSIZE = 0 → vend ≤ KERNBASE + PHYSTOP →
  (n < fuel)%nat → vend < p + PGSIZE * (Z.of_nat n + 1) → (n ≠ 0%nat → p + PGSIZE * Z.of_nat n ≤ vend) →
  p ≤ KERNBASE + PHYSTOP →
  kmem_ok k free → (∀ a, a ∈ pages_from p n → a ∉ free) →
  wp (freerange_from fuel p vend) (λ _ k', kmem_ok k' (reverse (pages_from p n) ++ free) ∧
    km_use_lock k' = km_use_lock k) k.
Proof.
  intros Hend. revert fuel p k free. induction n as [|n IH]; intros [|f] p k free Hp Hm Hv Hf Hlt Hle Hpt Hk Hn; try lia;
    cbn [freerange_from]; unfold u32, KERNBASE, PHYSTOP, PGSIZE in *; rewrite Z.mod_small by lia.
  - destruct (p + 4096 <=? vend) eqn:E; bool_props; [lia|]. wp_step. done.
  - destruct (p + 4096 <=? vend) eqn:E; bool_props; [|lia].
    assert (Hpa : page_addr p).
    { split; [exact Hm|]. unfold KERNBASE, PHYSTOP. lia. }
    wp_step. apply wp_kfree; [done|done|apply Hk|by apply (ko_all _ _ Hk)|].
    change 4096 with PGSIZE in *. rewrite pages_from_S in Hn |- *.
    eapply wp_mono.
    { apply (IH f (p + PGSIZE) (freed p k) (p :: free)); unfold PGSIZE in *; try lia.
      - rewrite <- Z.add_mod_idemp_l, Hm; done.
      - apply freed_ok; [done|apply Hn; by left|done].
      - intros a Ha. rewrite not_elem_of_cons. split; [|apply Hn; by right].
        apply elem_of_pages_from in Ha as (i & _ & ->). unfold PGSIZE. lia. }
    intros [] k' [Hk' Hu]. split; [|done]. rewrite reverse_cons, <- (assoc_L (++)). done.
Qed.

Lemma wp_freerange a b k free :
  KERNBASE ≤ kend → kend ≤ a → a ≤ b ≤ KERNBASE + PHYSTOP → b mod PGSIZE = 0 → kmem_ok k free →
  (∀ x, page_addr x → a ≤ x < b → x ∉ free) →
  wp (freerange a b) (λ _ k', km_use_lock k' = km_use_lock k ∧ ∃ l, kmem_ok k' l ∧
    ∀ x, x ∈ l ↔ x ∈ free ∨ (page_addr x ∧ a ≤ x < b)) k.
Proof.
  intros Hend Ha Hb Hbm Hk Hfr. unfold freerange.
  set (p := PGROUNDUP a). assert (Ep : p = (a + PGSIZE - 1) / PGSIZE * PGSIZE).
  { apply PGROUNDUP_eq. unfold KERNBASE, PHYSTOP, PGSIZE in *. lia. }
  pose proof (Z.div_mod (a + PGSIZE - 1) PGSIZE ltac:(done)) as Hdm.
  pose proof (Z.mod_pos_bound (a + PGSIZE - 1) PGSIZE ltac:(done)) as Hmb.
  pose proof (Z.div_mod b PGSIZE ltac:(done)) as Hbd. rewrite Hbm in Hbd.
  assert (Hpb : p ≤ b) by (unfold PGSIZE in *; lia).
  set (n := Z.to_nat (b / PGSIZE - p / PGSIZE)).
  assert (Epd : p / PGSIZE = (a + PGSIZE - 1) / PGSIZE) by (rewrite Ep; by apply Z.div_mul).
  assert (En : p + PGSIZE * Z.of_nat n = b) by (unfold n, PGSIZE in *; lia).
  assert (Hpm : p mod PGSIZE = 0) by (rewrite Ep; by apply Z.mod_mul).
  assert (Hin : ∀ x, x ∈ pages_from p n ↔ page_addr x ∧ a ≤ x < b).
  { intros x. rewrite elem_of_pages_from. unfold page_addr. split.
    - intros (i & Hi & ->). rewrite Z.mul_comm, Z.mod_add, Hpm by done. unfold KERNBASE, PHYSTOP, PGSIZE in *. lia.
    - intros ((Hxm & _) & Hx). exists (Z.to_nat (x / PGSIZE - p / PGSIZE)).
      pose proof (Z.div_mod x PGSIZE ltac:(done)) as Hxd. rewrite Hxm in Hxd. unfold PGSIZE in *. lia. }
  eapply wp_mono.
  { apply (wp_freerange_from n _ p b k free); try done; try (unfold n, KERNBASE, PHYSTOP, PGSIZE in *; lia).
    intros x Hx. apply Hin in Hx as [? ?]. by apply Hfr. }
  intros [] k' [Hk' Hu]. split; [done|]. eexists. split; [exact Hk'|].
  intros x. rewrite elem_of_app, elem_of_reverse, Hin. naive_solver.
Qed.

Lemma kmem_ok_use_lock v k free : kmem_ok k free → kmem_ok (with_use_lock v k) free.
Proof. by intros []. Qed.

(** The two initialisation calls of [main] put every page between the end of
    the kernel and PHYSTOP on the free list exactly once, and nothing else. *)
Theorem kinit_correct k :
  KERNBASE ≤ kend ≤ P2V (4 * 1024 * 1024) →
  (∀ a p, km_pages k !! a = Some p → length p = npage) →
  (∀ a, page_addr a → is_Some (km_pages k !! a)) → km_freelist k = 0 →
  wp (kinit1 kend (P2V (4 * 1024 * 1024)) ;; kinit2 (P2V (4 * 1024 * 1024)) (P2V PHYSTOP))
    (λ _ k', km_use_lock k' = true ∧ ∃ free, kmem_ok k' free ∧ ∀ a, a ∈ free ↔ page_addr a) k.
Proof.
  intros Hend Hlen Hall Hf. change (P2V PHYSTOP) with (KERNBASE + PHYSTOP).
  change (P2V (4 * 1024 * 1024)) with (KERNBASE + 4194304) in *. unfold kinit1, kinit2.
  do 5 wp_step. eapply wp_mono.
  { apply (wp_freerange kend (KERNBASE + 4194304) _ []); try done; try (unfold PHYSTOP; lia).
    - split; try done; by constructor.
    - intros x _ _. apply not_elem_of_nil. }
  intros [] k1 (_ & l1 & Hk1 & Hl1). wp_step. eapply wp_mono.
  { apply (wp_freerange (KERNBASE + 4194304) (KERNBASE + PHYSTOP) k1 l1); try done; try (unfold PHYSTOP; lia).
    intros x _ Hx. rewrite Hl1, elem_of_nil. lia. }
  intros [] k2 (_ & l2 & Hk2 & Hl2). wp_step. split; [done|]. exists l2.
  split; [by apply kmem_ok_use_lock|]. intros a. rewrite Hl2, Hl1, elem_of_nil. unfold page_addr. lia.
Qed.

(** [kalloc] returns null exactly when no page is free; otherwise it returns
    the page freed last, which leaves the free list and is not on it twice.
    Giving the page back restores the allocator, and no other page is touched. *)
Theorem kalloc_kfree k free :
  KERNBASE ≤ kend → kmem_ok k free →
  wp (a ← kalloc; free' ← gets km_freelist; whenM (negb (a =? 0)) (kfree a) ;; ret (a, free'))
    (λ '(a, next) k', (a = 0 ↔ free = []) ∧
       (a ≠ 0 → ∃ rest, free = a :: rest ∧ a ∉ rest ∧ chain (km_pages k) next rest) ∧
       kmem_ok k' free ∧ ∀ b, b ≠ a → km_pages k' !! b = km_pages k !! b) k.
Proof.
  intros Hend Hk. wp_step. apply (wp_kalloc k free); [done|]. destruct free as [|a free].
  - wp_step. wp_step. wp_step. apply wp_ret. wp_step. done.
  - intros next Hk'. pose proof (ko_addr _ _ Hk) as Ha. inversion Ha as [|? ? Hpa _]; subst.
    pose proof (ko_nodup _ _ Hk) as Hnd. inversion Hnd as [|? ? Hni _]; subst.
    pose proof (page_addr_pos a Hpa). wp_step. wp_step. rewrite (proj2 (Z.eqb_neq a 0)) by lia.
    wp_step. cbn [whenM negb]. apply wp_kfree; [done|done|apply Hk|by apply (ko_all _ _ Hk)|].
    wp_step. split_and!.
    + split; [lia|done].
    + intros _. exists free. split_and!; [done|done|apply (ko_chain _ _ Hk')].
    + by apply freed_ok.
    + intros b Hb. simpl. by rewrite lookup_insert_ne.
Qed.

(** [kfree] refuses an address that is not a page the allocator manages:
    it panics exactly when the address is not page aligned, lies below the end
    of the kernel or is not below PHYSTOP. *)
Theorem kfree_panics k v free :
  KERNBASE ≤ kend → kmem_ok k free → 0 ≤ v < 2 ^ 32 →
  kfree v k = Panic "kfree" ↔ ¬ page_addr v.
Proof.
  intros Hend Hk Hv. pose proof (kfree_guard v Hv Hend) as Hg. split.
  - intros E Hpa. pose proof (wp_kfree v k (λ _ _, True) Hend Hpa (ko_lock _ _ Hk) (ko_all _ _ Hk v Hpa) I) as Hw.
    unfold wp in Hw. by rewrite E in Hw.
  - intros Hn. unfold kfree. destruct (negb _ || _ || _); [done|]. by destruct Hn; apply Hg.
Qed.
End kalloc.

(** ** Witnesses: the memory of the machine at boot, with a kernel of one megabyte *)

Definition pages_at (l : list Z) : gmap Z page := list_to_map ((λ a, (a, zero_page)) <$> l).
Definition boot_addrs : list Z := (λ i, KERNBASE + PGSIZE * i) <$> seqZ 0 (PHYSTOP / PGSIZE).

Lemma pages_at_len l a p : pages_at l !! a = Some p → length p = npage.
Proof.
  intros Hp. apply elem_of_list_to_map_2, list_elem_of_fmap in Hp as (i & E & _).
  apply (f_equal snd) in E. cbn [snd] in E. subst p. apply length_replicate.
Qed.

Lemma pages_at_in l a : NoDup l → a ∈ l → is_Some (pages_at l !! a).
Proof.
  intros Hnd Ha. exists zero_page. apply elem_of_list_to_map_1.
  - rewrite <- list_fmap_compose. unfold compose. by rewrite list_fmap_id.
  - apply list_elem_of_fmap. by exists a.
Qed.

Lemma boot_addrs_nodup : NoDup boot_addrs.
Proof. apply NoDup_fmap_2; [|apply NoDup_seqZ]. intros x y E. unfold PGSIZE in E. lia. Qed.

Lemma elem_of_boot_addrs a kend : page_addr kend a → a ∈ boot_addrs.
Proof.
  intros (Hm & _ & Ha). apply list_elem_of_fmap. exists (a / PGSIZE - KERNBASE / PGSIZE).
  pose proof (Z.div_mod a PGSIZE ltac:(done)) as Hd. rewrite elem_of_seqZ.
  change (PHYSTOP / PGSIZE) with 57344. change (KERNBASE / PGSIZE) with 524288.
  unfold KERNBASE, PHYSTOP, PGSIZE in *. lia.
Qed.

Definition kmem_at (pages : gmap Z page) : kmem := Kmem false false 0 pages.
Definition boot_kmem : kmem := kmem_at (pages_at boot_addrs).
Definition boot_end : Z := KERNBASE + 2097152.
#[global] Opaque pages_at.

Lemma boot_pages_len a p : km_pages boot_kmem !! a = Some p → length p = npage.
Proof. apply (pages_at_len boot_addrs). Qed.

Lemma boot_pages_all a : page_addr boot_end a → is_Some (km_pages boot_kmem !! a).
Proof. intros Ha. apply pages_at_in; [apply boot_addrs_nodup|by apply (elem_of_boot_addrs a boot_end)]. Qed.

Lemma kinit_correct_witness :
  wp (kinit1 boot_end boot_end (P2V (4 * 1024 * 1024)) ;;
      kinit2 boot_end (P2V (4 * 1024 * 1024)) (P2V PHYSTOP))
    (λ _ k', km_use_lock k' = true ∧ ∃ free, kmem_ok boot_end k' free ∧ ∀ a, a ∈ free ↔ page_addr boot_end a)
    boot_kmem.
Proof.
  apply (kinit_correct boot_end boot_kmem).
  - change (P2V (4 * 1024 * 1024)) with (KERNBASE + 4194304). unfold boot_end. lia.
  - apply boot_pages_len.
  - apply boot_pages_all.
  - done.
Defined.

(** Three free pages, as [kfree] leaves them. *)
Definition three_pages : list Z := [KERNBASE + 4194304; KERNBASE + 4198400; KERNBASE + 4202496].
Definition three_free : kmem :=
  freed (KERNBASE + 4194304) (freed (KERNBASE + 4198400) (freed (KERNBASE + 4202496) boot_kmem)).

Lemma boot_kmem_ok : kmem_ok boot_end boot_kmem [].
Proof. split; [done|done|by constructor|by constructor|apply boot_pages_len|apply boot_pages_all]. Qed.

Lemma three_free_ok : kmem_ok boot_end three_free three_pages.
Proof.
  assert (∀ a, a ∈ three_pages → page_addr boot_end a) as Hp.
  { intros a. unfold three_pages, page_addr, boot_end, KERNBASE, PHYSTOP.
    rewrite !elem_of_cons, elem_of_nil. intros [->|[->|[->|[]]]]; (split; [done|lia]). }
  unfold three_free. repeat apply freed_ok; try apply boot_kmem_ok;
    try (apply Hp; unfold three_pages; set_solver); rewrite ?not_elem_of_cons, ?elem_of_nil; unfold KERNBASE; lia.
Qed.

Lemma kalloc_kfree_witness :
  wp (a ← kalloc; free' ← gets km_freelist; whenM (negb (a =? 0)) (kfree boot_end a) ;; ret (a, free'))
    (λ '(a, next) k', (a = 0 ↔ three_pages = []) ∧
       (a ≠ 0 → ∃ rest, three_pages = a :: rest ∧ a ∉ rest ∧ chain (km_pages three_free) next rest) ∧
       kmem_ok boot_end k' three_pages ∧ ∀ b, b ≠ a → km_pages k' !! b = km_pages three_free !! b) three_free.
Proof.
  apply (kalloc_kfree boot_end three_free three_pages).
  - unfold boot_end. lia.
  - apply three_free_ok.
Defined.

Lemma kfree_panics_witness :
  kfree boot_end (KERNBASE + 100) three_free = Panic "kfree" ↔ ¬ page_addr boot_end (KERNBASE + 100).
Proof.
  apply (kfree_panics boot_end three_free (KERNBASE + 100) three_pages).
  - unfold boot_end. lia.
  - apply three_free_ok.
  - unfold KERNBASE. lia.
Defined.
