(* ===== verification/Vm.v ===== *)
(** * Page tables (vm.c)

    Page directories and page tables are pages of the memory of [Kalloc]; a
    pointer to an entry is the address of its word.  The kernel's map of
    physical memory at KERNBASE is what lets the code reach a page through
    [P2V]. *)

From S2P Require Import Prelude Words Params Kalloc.

Record kmap_entry := Kmap { virt : Z; phys_start : Z; phys_end : Z; perm : Z }.

Section vm.
(** Linker symbols: the end of the kernel and the start of its data. *)
Variable kend kdata : Z.

Definition walkpgdir (pgdir va : Z) (alloc : bool) : M kmem (option Z) :=
  let pde_addr := pgdir + 4 * PDX va in
  pde ← load_word pde_addr;
  if negb (Z.land pde PTE_P =? 0) then ret (Some (P2V (PTE_ADDR pde) + 4 * PTX va))
  else if negb alloc then ret None
  else
    pgtab ← kalloc;
    if pgtab =? 0 then ret None
    else
      fill_page pgtab 0 ;;
      store_word pde_addr (Z.lor (Z.lor (Z.lor (V2P pgtab) PTE_P) PTE_W) PTE_U) ;;
      ret (Some (pgtab + 4 * PTX va)).

Fixpoint mappages_from (fuel : nat) (pgdir a last pa perm : Z) : M kmem Z :=
  match fuel with
  | O => fault
  | S f =>
      r ← walkpgdir pgdir a true;
      match r with
      | None => ret (-1)
      | Some pte =>
          w ← load_word pte;
          if negb (Z.land w PTE_P =? 0) then panic "remap"
          else
            store_word pte (Z.lor (Z.lor pa perm) PTE_P) ;;
            if a =? last then ret 0
            else mappages_from f pgdir (u32 (a + PGSIZE)) last (u32 (pa + PGSIZE)) perm
      end
  end.

(** The loop runs once per page from the first to the last. *)
Definition mappages (pgdir va size pa perm : Z) : M kmem Z :=
  let a := PGROUNDDOWN va in
  let last := PGROUNDDOWN (u32 (va + size - 1)) in
  mappages_from (Z.to_nat (u32 (last - a) / PGSIZE + 1)) pgdir a last pa perm.

Fixpoint deallocuvm_from (fuel : nat) (pgdir a oldsz : Z) : M kmem unit :=
  match fuel with
  | O => fault
  | S f =>
      if a <? oldsz then
        r ← walkpgdir pgdir a false;
        match r with
        | None => deallocuvm_from f pgdir (u32 (u32 (PGADDR (PDX a + 1) 0 0 - PGSIZE) + PGSIZE)) oldsz
        | Some pte =>
            w ← load_word pte;
            whenM (negb (Z.land w PTE_P =? 0))
              (if PTE_ADDR w =? 0 then panic "kfree"
               else kfree kend (P2V (PTE_ADDR w)) ;; store_word pte 0) ;;
            deallocuvm_from f pgdir (u32 (a + PGSIZE)) oldsz
        end
      else ret tt
  end.

Definition deallocuvm (pgdir oldsz newsz : Z) : M kmem Z :=
  if oldsz <=? newsz then ret oldsz
  else
    deallocuvm_from (Z.to_nat (oldsz / PGSIZE + 2)) pgdir (PGROUNDUP newsz) oldsz ;;
    ret newsz.

Definition freevm (pgdir : Z) : M kmem unit :=
  if pgdir =? 0 then panic "freevm: no pgdir"
  else
    deallocuvm pgdir KERNBASE 0 ;;
    for_loop (Z.to_nat NPDENTRIES) 0 (λ i,
      pde ← load_word (pgdir + 4 * i);
      whenM (negb (Z.land pde PTE_P =? 0)) (kfree kend (P2V (PTE_ADDR pde)))) ;;
    kfree kend pgdir.

Definition kmap : list kmap_entry :=
  [Kmap KERNBASE 0 EXTMEM PTE_W;
   Kmap KERNLINK (V2P KERNLINK) (V2P kdata) 0;
   Kmap kdata (V2P kdata) PHYSTOP PTE_W;
   Kmap DEVSPACE DEVSPACE 0 PTE_W].

Fixpoint map_kernel (pgdir : Z) (ks : list kmap_entry) : M kmem Z :=
  match ks with
  | [] => ret pgdir
  | k :: ks' =>
      r ← mappages pgdir (virt k) (u32 (phys_end k - phys_start k)) (phys_start k) (perm k);
      if r <? 0 then freevm pgdir ;; ret 0 else map_kernel pgdir ks'
  end.

Definition setupkvm : M kmem Z :=
  pgdir ← kalloc;
  if pgdir =? 0 then ret 0
  else
    fill_page pgdir 0 ;;
    if DEVSPACE <? P2V PHYSTOP then panic "PHYSTOP too high"
    else map_kernel pgdir kmap.

Definition inituvm (pgdir : Z) (init : list Z) (sz : Z) : M kmem unit :=
  if PGSIZE <=? sz then panic "inituvm: more than a page"
  else
    mem ← kalloc;
    fill_page mem 0 ;;
    mappages pgdir 0 PGSIZE (V2P mem) (Z.lor PTE_W PTE_U) ;;
    p ← load_page mem;
    store_page mem (splice 0 (take (Z.to_nat sz) init) p).

Fixpoint allocuvm_from (fuel : nat) (pgdir oldsz newsz a : Z) : M kmem Z :=
  match fuel with
  | O => fault
  | S f =>
      if a <? newsz then
        mem ← kalloc;
        if mem =? 0 then deallocuvm pgdir newsz oldsz ;; ret 0
        else
          fill_page mem 0 ;;
          r ← mappages pgdir a PGSIZE (V2P mem) (Z.lor PTE_W PTE_U);
          if r <? 0 then deallocuvm pgdir newsz oldsz ;; kfree kend mem ;; ret 0
          else allocuvm_from f pgdir oldsz newsz (u32 (a + PGSIZE))
      else ret newsz
  end.

Definition allocuvm (pgdir oldsz newsz : Z) : M kmem Z :=
  if KERNBASE <=? newsz then ret 0
  else if newsz <? oldsz then ret oldsz
  else allocuvm_from (Z.to_nat (newsz / PGSIZE + 2)) pgdir oldsz newsz (PGROUNDUP oldsz).

Definition clearpteu (pgdir uva : Z) : M kmem unit :=
  r ← walkpgdir pgdir uva false;
  match r with
  | None => panic "clearpteu"
  | Some pte => w ← load_word pte; store_word pte (Z.land w (Z.lnot PTE_U))
  end.

Fixpoint copyuvm_from (fuel : nat) (pgdir d sz i : Z) : M kmem Z :=
  match fuel with
  | O => fault
  | S f =>
      if i <? sz then
        r ← walkpgdir pgdir i false;
        match r with
        | None => panic "copyuvm: pte should exist"
        | Some pte =>
            w ← load_word pte;
            if Z.land w PTE_P =? 0 then panic "copyuvm: page not present"
            else
              mem ← kalloc;
              if mem =? 0 then freevm d ;; ret 0
              else
                p ← load_page (P2V (PTE_ADDR w));
                store_page mem p ;;
                r ← mappages d i PGSIZE (V2P mem) (PTE_FLAGS w);
                if r <? 0 then kfree kend mem ;; freevm d ;; ret 0
                else copyuvm_from f pgdir d sz (u32 (i + PGSIZE))
        end
      else ret d
  end.

Definition copyuvm (pgdir sz : Z) : M kmem Z :=
  d ← setupkvm;
  if d =? 0 then ret 0 else copyuvm_from (Z.to_nat (sz / PGSIZE + 2)) pgdir d sz 0.

(** [uva2ka] dereferences the result of [walkpgdir] without testing it. *)
Definition uva2ka (pgdir uva : Z) : M kmem Z :=
  r ← walkpgdir pgdir uva false;
  match r with
  | None => fault
  | Some pte =>
      w ← load_word pte;
      if Z.land w PTE_P =? 0 then ret 0
      else if Z.land w PTE_U =? 0 then ret 0
      else ret (P2V (PTE_ADDR w))
  end.

Fixpoint copyout_from (fuel : nat) (pgdir va : Z) (buf : list Z) (len : Z) : M kmem Z :=
  match fuel with
  | O => fault
  | S f =>
      if 0 <? len then
        let va0 := PGROUNDDOWN va in
        pa0 ← uva2ka pgdir va0;
        if pa0 =? 0 then ret (-1)
        else
          let n := Z.min (PGSIZE - (va - va0)) len in
          p ← load_page pa0;
          store_page pa0 (splice (Z.to_nat (va - va0)) (take (Z.to_nat n) buf) p) ;;
          copyout_from f pgdir (u32 (va0 + PGSIZE)) (drop (Z.to_nat n) buf) (len - n)
      else ret 0
  end.
Definition copyout (pgdir va : Z) (buf : list Z) (len : Z) : M kmem Z :=
  copyout_from (Z.to_nat (len / PGSIZE + 3)) pgdir va buf len.

(** ** The address space a page directory describes *)

Definition word (k : kmem) (a : Z) : Z :=
  match km_pages k !! page_of a with
  | Some p => get_u32 (Z.to_nat (a mod PGSIZE)) p
  | None => 0
  end.
Definition pde_of (k : kmem) (pgdir i : Z) : Z := word k (pgdir + 4 * i).
Definition present (w : Z) : Prop := Z.land w PTE_P ≠ 0.
Definition tab_of (k : kmem) (pgdir i : Z) : Z := P2V (PTE_ADDR (pde_of k pgdir i)).

(** The page table entry for [va]; 0 when there is no page table. *)
Definition entry (k : kmem) (pgdir va : Z) : Z :=
  if negb (Z.land (pde_of k pgdir (PDX va)) PTE_P =? 0)
  then word k (tab_of k pgdir (PDX va) + 4 * PTX va) else 0.

(** The pages of a page directory are its own: none is free, and no two
    directory entries share a page table. *)
Record pt_ok (k : kmem) (pgdir : Z) (free : list Z) : Prop := {
  pt_dir : page_addr kend pgdir ∧ pgdir ∉ free;
  pt_tab : ∀ i, 0 ≤ i < NPDENTRIES → present (pde_of k pgdir i) →
    page_addr kend (tab_of k pgdir i) ∧ tab_of k pgdir i ∉ free ∧ tab_of k pgdir i ≠ pgdir;
  pt_inj : ∀ i j, 0 ≤ i < NPDENTRIES → 0 ≤ j < NPDENTRIES → i ≠ j →
    present (pde_of k pgdir i) → present (pde_of k pgdir j) → tab_of k pgdir i ≠ tab_of k pgdir j
}.
End vm.
