(* ===== verification/VmRules.v ===== *)
(** * Reasoning about page tables: words, entries and [walkpgdir] *)

From S2P Require Import Prelude Words Params Kalloc Vm.

(** The address of word [i] of a page. *)
Lemma word_addr pg i : pg mod PGSIZE = 0 → 0 ≤ i < 1024 →
  page_of (pg + 4 * i) = pg ∧ (pg + 4 * i) mod PGSIZE = 4 * i.
Proof.
  intros Hm Hi. assert ((pg + 4 * i) mod PGSIZE = 4 * i) as E.
  { rewrite <- Z.add_mod_idemp_l, Hm by done. apply Z.mod_small. unfold PGSIZE. lia. }
  split; [|done]. unfold page_of. lia.
Qed.

Definition page_at (k : kmem) (pg : Z) : page := default [] (km_pages k !! pg).
Definition put_page (pg : Z) (p : page) (k : kmem) : kmem := with_pages (<[pg := p]> (km_pages k)) k.
(** The state after a store to word [i] of the page [pg]. *)
Definition stored (pg i v : Z) (k : kmem) : kmem :=
  put_page pg (put_u32 (Z.to_nat (4 * i)) v (page_at k pg)) k.

Section rules.
Variable kend : Z.
Implicit Types (k : kmem) (free : list Z).
Notation page_addr := (page_addr kend).
Notation kmem_ok := (kmem_ok kend).
Notation pt_ok := (pt_ok kend).

Lemma page_lookup k free pg : kmem_ok k free → page_addr pg →
  km_pages k !! pg = Some (page_at k pg) ∧ length (page_at k pg) = npage.
Proof.
  intros Hk Hp. destruct (ko_all _ _ _ Hk pg Hp) as [p E].
  unfold page_at. rewrite E. split; [done|]. exact (ko_pages _ _ _ Hk pg p E).
Qed.

Lemma put_page_ok k free pg p :
  kmem_ok k free → pg ∉ free → length p = npage → kmem_ok (put_page pg p k) free.
Proof.
  intros [Hl Hc Ha Hnd Hlen Hall] Hn Hp. split; simpl; try done.
  - apply (chain_ext (km_pages k)); [|done]. intros a Hin. rewrite lookup_insert_ne by (by intros ->). done.
  - intros a q. rewrite lookup_insert_Some. intros [[_ <-]|[_ Hq]]; [done|by apply (Hlen a)].
  - intros a Hpa. rewrite lookup_insert_is_Some'. right. by apply Hall.
Qed.

Lemma length_stored k free pg i v :
  kmem_ok k free → page_addr pg → 0 ≤ i < 1024 →
  length (put_u32 (Z.to_nat (4 * i)) v (page_at k pg)) = npage.
Proof.
  intros Hk Hp Hi. destruct (page_lookup k free pg Hk Hp) as [_ Hl]. unfold put_u32.
  rewrite length_put_le; [done|]. rewrite Hl. unfold npage, PGSIZE. lia.
Qed.

Lemma stored_ok k free pg i v :
  kmem_ok k free → page_addr pg → pg ∉ free → 0 ≤ i < 1024 → kmem_ok (stored pg i v k) free.
Proof. intros Hk Hp Hn Hi. apply put_page_ok; [done|done|by apply (length_stored k free)]. Qed.

Lemma wp_store k free pg i v (Q : unit → kmem → Prop) :
  kmem_ok k free → page_addr pg → 0 ≤ i < 1024 →
  Q tt (stored pg i v k) → wp (store_word (pg + 4 * i) v) Q k.
Proof.
  intros Hk Hp Hi HQ. destruct (word_addr pg i (proj1 Hp) Hi) as [E1 E2].
  destruct (page_lookup k free pg Hk Hp) as [E _].
  apply (wp_store_word _ _ (page_at k pg)); [by rewrite E1|]. by rewrite E1, E2.
Qed.

Lemma wp_load k free pg i (Q : Z → kmem → Prop) :
  kmem_ok k free → page_addr pg → 0 ≤ i < 1024 →
  Q (word k (pg + 4 * i)) k → wp (load_word (pg + 4 * i)) Q k.
Proof.
  intros Hk Hp Hi HQ. destruct (word_addr pg i (proj1 Hp) Hi) as [E1 E2].
  destruct (page_lookup k free pg Hk Hp) as [E _].
  apply (wp_load_word _ (page_at k pg)); [by rewrite E1|]. rewrite E2.
  unfold word in HQ. by rewrite E1, E2, E in HQ.
Qed.

(** Reading a word after a store, and after a whole page was written. *)
Lemma word_stored k free pg i v pg' i' :
  kmem_ok k free → page_addr pg → 0 ≤ i < 1024 → pg' mod PGSIZE = 0 → 0 ≤ i' < 1024 →
  word (stored pg i v k) (pg' + 4 * i') =
  if decide (pg' = pg ∧ i' = i) then u32 v else word k (pg' + 4 * i').
Proof.
  intros Hk Hp Hi Hp' Hi'. destruct (word_addr pg' i' Hp' Hi') as [E1 E2].
  destruct (page_lookup k free pg Hk Hp) as [E Hl].
  unfold word, stored, put_page, get_u32, put_u32. cbn [km_pages with_pages]. rewrite E1, E2.
  destruct (decide (pg' = pg)) as [->|Hne].
  - rewrite lookup_insert_eq. case_decide as Hd.
    + destruct Hd as [_ ->]. rewrite get_put_le; [done|]. rewrite Hl. unfold npage, PGSIZE. lia.
    + rewrite E. apply get_put_le_disjoint; [rewrite Hl; unfold npage, PGSIZE; lia|].
      assert (i' ≠ i) by naive_solver. lia.
  - rewrite lookup_insert_ne by done. rewrite decide_False by naive_solver. done.
Qed.

Lemma word_put_page k pg p pg' i' :
  pg' mod PGSIZE = 0 → 0 ≤ i' < 1024 →
  word (put_page pg p k) (pg' + 4 * i') =
  if decide (pg' = pg) then get_u32 (Z.to_nat (4 * i')) p else word k (pg' + 4 * i').
Proof.
  intros Hp' Hi'. destruct (word_addr pg' i' Hp' Hi') as [E1 E2].
  unfold word, put_page. cbn [km_pages with_pages]. rewrite E1, E2. case_decide; subst.
  - by rewrite lookup_insert_eq.
  - by rewrite lookup_insert_ne.
Qed.

Lemma get_zero_page i : 0 ≤ i < 1024 → get_u32 (Z.to_nat (4 * i)) (replicate npage 0) = 0.
Proof.
  intros Hi. unfold get_u32, get_le, slice. rewrite drop_replicate, take_replicate. apply le_val_zeros.
Qed.

(** ** Indices *)

Lemma PDX_range va : 0 ≤ PDX va < 1024.
Proof. unfold PDX. rewrite (land_ones_low _ 10) by lia. by apply Z.mod_pos_bound. Qed.
Lemma PTX_range va : 0 ≤ PTX va < 1024.
Proof. unfold PTX. rewrite (land_ones_low _ 10) by lia. by apply Z.mod_pos_bound. Qed.

(** The two indices identify the page of an address. *)
Lemma same_indices va va' : is_u32 va → is_u32 va' →
  PDX va = PDX va' ∧ PTX va = PTX va' ↔ va / PGSIZE = va' / PGSIZE.
Proof.
  unfold is_u32. intros Hv Hv'. rewrite !PDX_eq, !PTX_eq by lia. change (2 ^ 12) with PGSIZE.
  assert (∀ x, 0 ≤ x < 2 ^ 32 → (x / 2 ^ 22) mod 1024 = x / PGSIZE / 1024) as Hd.
  { intros x Hx. rewrite Z.mod_small.
    - change (2 ^ 22) with (PGSIZE * 1024). by rewrite Z.div_div by done.
    - change (2 ^ 32) with (1024 * 2 ^ 22) in Hx. split; [apply Z.div_pos; lia|].
      apply Z.div_lt_upper_bound; lia. }
  rewrite !Hd by done. pose proof (Z.div_mod (va / PGSIZE) 1024 ltac:(done)).
  pose proof (Z.div_mod (va' / PGSIZE) 1024 ltac:(done)). split; [|by intros ->]. lia.
Qed.

Lemma land_present w : present w → negb (Z.land w PTE_P =? 0) = true.
Proof. intros Hp. apply negb_true_iff, Z.eqb_neq, Hp. Qed.
Lemma land_absent w : ¬ present w → negb (Z.land w PTE_P =? 0) = false.
Proof. intros Hp. apply negb_false_iff, Z.eqb_eq. destruct (decide (Z.land w PTE_P = 0)); [done|by destruct Hp]. Qed.
#[global] Instance present_dec w : Decision (present w).
Proof. unfold present. apply _. Defined.

Lemma entry_absent k pgdir va : ¬ present (pde_of k pgdir (PDX va)) → entry k pgdir va = 0.
Proof. intros Hp. unfold entry. by rewrite land_absent. Qed.
Lemma absent_0 : ¬ present 0.
Proof. by intros []. Qed.

(** ** Page table entries after a change *)

Lemma pde_of_frame k k' pgdir i :
  page_addr pgdir → 0 ≤ i < 1024 → km_pages k' !! pgdir = km_pages k !! pgdir →
  pde_of k' pgdir i = pde_of k pgdir i.
Proof.
  intros Hp Hi E. unfold pde_of, word. destruct (word_addr pgdir i (proj1 Hp) Hi) as [-> ->]. by rewrite E.
Qed.

(** What is read through a page directory depends only on its pages. *)
Lemma entry_frame k k' pgdir free va :
  pt_ok k pgdir free → km_pages k' !! pgdir = km_pages k !! pgdir →
  (∀ i, 0 ≤ i < NPDENTRIES → present (pde_of k pgdir i) →
     km_pages k' !! tab_of k pgdir i = km_pages k !! tab_of k pgdir i) →
  entry k' pgdir va = entry k pgdir va.
Proof.
  intros [[Hd _] Ht _] E Et. unfold entry, tab_of. pose proof (PDX_range va) as Hi.
  rewrite (pde_of_frame k k') by done. destruct (decide (present (pde_of k pgdir (PDX va)))) as [Hp|Hp].
  - rewrite land_present by done. unfold word.
    destruct (Ht (PDX va) Hi Hp) as (Hta & _). fold (tab_of k pgdir (PDX va)).
    destruct (word_addr _ (PTX va) (proj1 Hta) (PTX_range va)) as [-> ->]. by rewrite Et.
  - by rewrite land_absent.
Qed.

Lemma pt_ok_frame k k' pgdir free free' :
  pt_ok k pgdir free → km_pages k' !! pgdir = km_pages k !! pgdir →
  (∀ a, a ∈ free' → a ∈ free) → pt_ok k' pgdir free'.
Proof.
  intros [[Hd Hnf] Ht Hin] E Hsub.
  assert (Ep : ∀ i, 0 ≤ i < NPDENTRIES → pde_of k' pgdir i = pde_of k pgdir i).
  { intros i Hi. by apply pde_of_frame. }
  split.
  - split; [done|]. intros ?. by apply Hnf, Hsub.
  - intros i Hi. unfold tab_of. rewrite Ep by done. intros Hp. destruct (Ht i Hi Hp) as (? & Hni & ?).
    split_and!; [done| |done]. intros ?. by apply Hni, Hsub.
  - intros i j Hi Hj Hne. unfold tab_of. rewrite !Ep by done. by apply Hin.
Qed.

(** ** [walkpgdir] *)

Definition pte_addr (k : kmem) (pgdir va : Z) : Z := tab_of k pgdir (PDX va) + 4 * PTX va.

Lemma wp_walk_false k free pgdir va (Q : option Z → kmem → Prop) :
  kmem_ok k free → pt_ok k pgdir free →
  Q (if decide (present (pde_of k pgdir (PDX va))) then Some (pte_addr k pgdir va) else None) k →
  wp (walkpgdir pgdir va false) Q k.
Proof.
  intros Hk [[Hd _] _ _] HQ. unfold walkpgdir. wp_step.
  apply (wp_load k free); [done|done|apply PDX_range|]. fold (pde_of k pgdir (PDX va)).
  case_decide as Hp.
  - rewrite land_present by done. by wp_step.
  - rewrite land_absent by done. by wp_step.
Qed.

(** The page directory entry for a new page table. *)
Definition new_pde (t : Z) : Z := Z.lor (Z.lor (Z.lor (V2P t) PTE_P) PTE_W) PTE_U.

Lemma land_disjoint a f : a mod PGSIZE = 0 → 0 ≤ f < PGSIZE → Z.land a f = 0.
Proof.
  intros Ha Hf. apply Z.bits_inj'. intros n Hn. rewrite Z.land_spec, Z.bits_0.
  destruct (decide (n < 12)) as [Hlt|Hge].
  - assert (Z.testbit (a mod 2 ^ 12) n = Z.testbit a n) as <- by (by rewrite Z.mod_pow2_bits_low by lia).
    change (2 ^ 12) with PGSIZE. by rewrite Ha, Z.bits_0.
  - assert (Z.testbit (f mod 2 ^ 12) n = false) as E by (apply Z.mod_pow2_bits_high; lia).
    rewrite Z.mod_small in E by (unfold PGSIZE in Hf; lia). by rewrite E, andb_false_r.
Qed.

Lemma lor_low a f : a mod PGSIZE = 0 → 0 ≤ f < PGSIZE → Z.lor a f = a + f.
Proof. intros Ha Hf. rewrite Z.add_nocarry_lxor, Z.lxor_lor; [done|..]; by apply land_disjoint. Qed.

(** The address and the flags of an entry. *)
Lemma PTE_ADDR_lor a f : a mod PGSIZE = 0 → 0 ≤ f < PGSIZE → PTE_ADDR (Z.lor a f) = a.
Proof.
  intros Ha Hf. unfold PTE_ADDR. rewrite (land_lnot_low _ 12) by lia. change (2 ^ 12) with PGSIZE.
  rewrite lor_low, <- Z.add_mod_idemp_l, Ha, Z.add_0_l, (Z.mod_small f) by done. lia.
Qed.

Lemma land_lor_low a f b : a mod PGSIZE = 0 → 0 ≤ b < PGSIZE → Z.land (Z.lor a f) b = Z.land f b.
Proof. intros Ha Hb. rewrite Z.land_lor_distr_l, land_disjoint by done. apply Z.lor_0_l. Qed.

Lemma V2P_page pg : page_addr pg → V2P pg = pg - KERNBASE ∧ V2P pg mod PGSIZE = 0 ∧ 0 ≤ V2P pg < PHYSTOP.
Proof.
  intros (Hm & _ & Hr). unfold V2P. rewrite u32_id by (unfold is_u32, KERNBASE, PHYSTOP in *; lia).
  split_and!; [done| |lia|lia]. rewrite Zminus_mod, Hm. done.
Qed.

Lemma P2V_V2P_page pg : page_addr pg → P2V (V2P pg) = pg.
Proof. intros Hp. apply P2V_V2P. pose proof (page_addr_pos kend pg Hp). unfold is_u32. lia. Qed.

Lemma new_pde_eq t : page_addr t → new_pde t = Z.lor (V2P t) 7 ∧ is_u32 (new_pde t) ∧
  P2V (PTE_ADDR (new_pde t)) = t ∧ present (new_pde t).
Proof.
  intros Ht. destruct (V2P_page t Ht) as (_ & Hm & Hr).
  assert (new_pde t = Z.lor (V2P t) 7) as E by (unfold new_pde; by rewrite <- !Z.lor_assoc).
  rewrite E. split_and!; [done| | |].
  - rewrite lor_low by (done || (unfold PGSIZE; lia)). unfold is_u32, PHYSTOP in *. lia.
  - rewrite PTE_ADDR_lor by (done || (unfold PGSIZE; lia)). by apply P2V_V2P_page.
  - unfold present, PTE_P. rewrite land_lor_low by (done || (unfold PGSIZE; lia)). done.
Qed.

(** The state after a page table [t] was installed for [i]. *)
Definition installed (pgdir i t : Z) (k : kmem) : kmem :=
  stored pgdir i (new_pde t) (put_page t (replicate npage 0) k).

Lemma pde_of_installed k free pgdir i t j :
  kmem_ok k free → page_addr pgdir → page_addr t → t ≠ pgdir → t ∉ free → 0 ≤ i < 1024 → 0 ≤ j < 1024 →
  pde_of (installed pgdir i t k) pgdir j = if decide (j = i) then new_pde t else pde_of k pgdir j.
Proof.
  intros Hk Hd Ht Hne Hnf Hi Hj. unfold pde_of, installed.
  assert (Hk1 : kmem_ok (put_page t (replicate npage 0) k) free).
  { apply put_page_ok; [done|done|apply length_replicate]. }
  rewrite (word_stored _ free) by (done || apply Hd).
  destruct (decide (j = i)) as [->|].
  - rewrite decide_True by done. apply u32_id. by apply new_pde_eq.
  - rewrite decide_False by naive_solver. rewrite word_put_page by (done || apply Hd).
    by rewrite decide_False.
Qed.

Lemma installed_pt_ok k free pgdir i t :
  kmem_ok k free → pt_ok k pgdir (t :: free) → page_addr t → t ∉ free → 0 ≤ i < 1024 →
  ¬ present (pde_of k pgdir i) → pt_ok (installed pgdir i t k) pgdir free.
Proof.
  intros Hk Hpt Ht Hnf Hi Hnp. destruct Hpt as [[Hd Hdf] Htab Hinj].
  apply not_elem_of_cons in Hdf as [Hdt Hdf].
  assert (Hne : t ≠ pgdir) by done.
  assert (Ep : ∀ j, 0 ≤ j < 1024 → pde_of (installed pgdir i t k) pgdir j =
    if decide (j = i) then new_pde t else pde_of k pgdir j).
  { intros j Hj. by apply (pde_of_installed k free). }
  destruct (new_pde_eq t Ht) as (_ & _ & Eat & _).
  split; [done| |].
  - intros j Hj. unfold tab_of. rewrite Ep by done. case_decide as Hd'.
    + intros _. rewrite Eat. by split_and!.
    + intros Hp. destruct (Htab j Hj Hp) as (? & Hn & ?). apply not_elem_of_cons in Hn as [_ ?]. done.
  - intros j j' Hj Hj' Hjj. unfold tab_of. rewrite !Ep by done. repeat case_decide; subst; try done.
    + intros _ Hp. rewrite Eat. destruct (Htab j' Hj' Hp) as (_ & Hn & _).
      apply not_elem_of_cons in Hn as [? _]. done.
    + intros Hp _. rewrite Eat. destruct (Htab j Hj Hp) as (_ & Hn & _).
      by apply not_elem_of_cons in Hn as [? _].
    + by apply Hinj.
Qed.

(** A page table of zeroes changes no entry. *)
Lemma entry_installed k free pgdir i t va :
  kmem_ok k free → pt_ok k pgdir (t :: free) → page_addr t → t ∉ free → 0 ≤ i < 1024 →
  ¬ present (pde_of k pgdir i) → entry (installed pgdir i t k) pgdir va = entry k pgdir va.
Proof.
  intros Hk Hpt Ht Hnf Hi Hnp. destruct Hpt as [[Hd Hdf] Htab Hinj].
  apply not_elem_of_cons in Hdf as [Hdt Hdf]. pose proof (PDX_range va) as Hx. pose proof (PTX_range va) as Hy.
  destruct (new_pde_eq t Ht) as (_ & _ & Eat & Hpn).
  assert (Hk1 : kmem_ok (put_page t (replicate npage 0) k) free).
  { apply put_page_ok; [done|done|apply length_replicate]. }
  unfold entry, tab_of. rewrite (pde_of_installed k free) by done. case_decide as He.
  - rewrite He. rewrite (land_absent (pde_of k pgdir i)), land_present, Eat by done.
    unfold installed. rewrite (word_stored _ free) by (done || apply Ht).
    rewrite decide_False by naive_solver. rewrite word_put_page, decide_True by (done || apply Ht).
    by apply get_zero_page.
  - destruct (decide (present (pde_of k pgdir (PDX va)))) as [Hp|Hp].
    + rewrite land_present by done. fold (tab_of k pgdir (PDX va)).
      destruct (Htab _ Hx Hp) as (Hta & Hn & Hnd). apply not_elem_of_cons in Hn as [Hnt Hn].
      unfold installed. rewrite (word_stored _ free) by (done || apply Hta).
      rewrite decide_False by naive_solver. rewrite word_put_page by (done || apply Hta).
      by rewrite decide_False.
    + by rewrite land_absent.
Qed.
End rules.
