(* ===== verification/VmMap.v ===== *)
(** * Mapping pages (vm.c: walkpgdir, mappages) *)

From S2P Require Import Prelude Words Params Kalloc Vm VmRules.

Section mapping.
Variable kend : Z.
Implicit Types (k : kmem) (free : list Z).
Notation page_addr := (page_addr kend).
Notation kmem_ok := (kmem_ok kend).
Notation pt_ok := (pt_ok kend).

(** From [k] to [k'] the allocator lost the pages [used], each of which is now a
    page table of [pgdir]; the page tables it had it kept, and no page outside
    the directory and the used ones changed except page tables of the
    directory. *)
Record tables_grew k free k' free' pgdir : Prop := {
  tg_kmem : kmem_ok k' free';
  tg_pt : pt_ok k' pgdir free';
  tg_free : ∃ used, free = used ++ free';
  tg_pages : ∀ b, b ≠ pgdir → b ∉ free →
    (∀ i, 0 ≤ i < NPDENTRIES → present (pde_of k pgdir i) → b ≠ tab_of k pgdir i) →
    km_pages k' !! b = km_pages k !! b;
  tg_tabs : ∀ i, 0 ≤ i < NPDENTRIES → present (pde_of k' pgdir i) →
    (present (pde_of k pgdir i) ∧ tab_of k' pgdir i = tab_of k pgdir i) ∨ tab_of k' pgdir i ∈ free;
  tg_keep : ∀ i, 0 ≤ i < NPDENTRIES → present (pde_of k pgdir i) →
    present (pde_of k' pgdir i) ∧ tab_of k' pgdir i = tab_of k pgdir i;
  tg_used : ∀ b, b ∈ free → b ∈ free' ∨
    ∃ i, 0 ≤ i < NPDENTRIES ∧ present (pde_of k' pgdir i) ∧ tab_of k' pgdir i = b
}.

Lemma tables_grew_refl k free pgdir : kmem_ok k free → pt_ok k pgdir free → tables_grew k free k free pgdir.
Proof. intros Hk Hp. split; [done|done|by exists []|done| |done|by left]. intros i Hi Hpr. by left. Qed.

Lemma tables_grew_trans k1 f1 k2 f2 k3 f3 pgdir :
  tables_grew k1 f1 k2 f2 pgdir → tables_grew k2 f2 k3 f3 pgdir → tables_grew k1 f1 k3 f3 pgdir.
Proof.
  intros [A1 B1 [u1 C1] D1 E1 F1 G1] [A2 B2 [u2 C2] D2 E2 F2 G2]. split; try done.
  - exists (u1 ++ u2). by rewrite C1, C2, <- (assoc_L (++)).
  - intros b Hb Hf Ht. rewrite D2, D1; try done.
    + intros Hf2. apply Hf. rewrite C1, elem_of_app. by right.
    + intros i Hi Hp ->. destruct (E1 i Hi Hp) as [[Hp1 E]|Hin]; [|done].
      by apply (Ht i Hi Hp1).
  - intros i Hi Hp. destruct (E2 i Hi Hp) as [[Hp2 E]|Hin].
    + rewrite E. by apply E1.
    + right. rewrite C1, elem_of_app. by right.
  - intros i Hi Hp. destruct (F1 i Hi Hp) as [Hp1 ->%symmetry]. by apply F2.
  - intros b Hb. destruct (G1 b Hb) as [Hb2|(i & Hi & Hp & <-)]; [by apply G2|].
    right. exists i. split; [done|]. by apply F2.
Qed.

Lemma word_with_freelist k n a : word (with_freelist n k) a = word k a.
Proof. done. Qed.

Lemma wp_walk_true k free pgdir va :
  kmem_ok k free → pt_ok k pgdir free →
  wp (walkpgdir pgdir va true) (λ r k', match r with
    | None => k' = k ∧ free = []
    | Some a => ∃ free', tables_grew k free k' free' pgdir ∧ (∀ va', entry k' pgdir va' = entry k pgdir va') ∧
        present (pde_of k' pgdir (PDX va)) ∧ a = pte_addr k' pgdir va
    end) k.
Proof.
  intros Hk Hpt. pose proof (PDX_range va) as Hx. destruct (pt_dir _ _ _ _ Hpt) as [Hd Hdf].
  unfold walkpgdir. wp_step. apply (wp_load kend k free); [done|done|done|]. fold (pde_of k pgdir (PDX va)).
  destruct (decide (present (pde_of k pgdir (PDX va)))) as [Hp|Hp].
  { rewrite land_present by done. wp_step. exists free. split_and!; try done. by apply tables_grew_refl. }
  rewrite land_absent by done. cbn [negb]. wp_step. apply (wp_kalloc kend k free); [done|].
  destruct free as [|t free]; [by wp_step|]. intros next Hk1.
  pose proof (ko_addr _ _ _ Hk) as Ha. inversion Ha as [|? ? Ht _]; subst.
  pose proof (ko_nodup _ _ _ Hk) as Hnd. inversion Hnd as [|? ? Hni _]; subst.
  pose proof (page_addr_pos kend t Ht). rewrite (proj2 (Z.eqb_neq t 0)) by lia.
  set (k1 := with_freelist next k) in *.
  assert (Hpt1 : pt_ok k1 pgdir (t :: free)) by by apply (pt_ok_frame kend k k1 pgdir (t :: free)).
  wp_step. apply wp_store_page; [by apply (ko_all _ _ _ Hk)|].
  fold (put_page t (replicate npage 0) k1). wp_step.
  assert (Hk2 : kmem_ok (put_page t (replicate npage 0) k1) free).
  { apply put_page_ok; [done|done|apply length_replicate]. }
  apply (wp_store kend _ free); [done|done|done|]. fold (new_pde t) (installed pgdir (PDX va) t k1).
  destruct (new_pde_eq kend t Ht) as (_ & _ & Eat & Hpn).
  assert (Hne : t ≠ pgdir) by (intros ->; apply Hdf; by left).
  assert (Ep : ∀ j, 0 ≤ j < 1024 → pde_of (installed pgdir (PDX va) t k1) pgdir j =
    if decide (j = PDX va) then new_pde t else pde_of k pgdir j).
  { intros j Hj. by apply (pde_of_installed kend k1 free). }
  wp_step. exists free. split_and!.
  - split.
    + apply stored_ok; [done|done| |done]. intros Hin. apply Hdf. by right.
    + by apply installed_pt_ok.
    + by exists [t].
    + intros b Hb Hf _. apply not_elem_of_cons in Hf as [Hbt _].
      unfold installed, stored, put_page. cbn [km_pages with_pages]. by rewrite !lookup_insert_ne.
    + intros i Hi. unfold tab_of. rewrite Ep by done. case_decide; [|by left].
      intros _. right. rewrite Eat. by left.
    + intros i Hi Hpi. unfold tab_of. rewrite Ep, decide_False by (done || by intros ->). done.
    + intros b [->|Hb]%elem_of_cons; [right|by left]. exists (PDX va). unfold tab_of.
      by rewrite Ep, decide_True.
  - intros va'. rewrite (entry_installed kend k1 free) by done. done.
  - by rewrite Ep, decide_True.
  - unfold pte_addr, tab_of. by rewrite Ep, decide_True, Eat.
Qed.

(** Storing a page table entry. *)
Lemma set_entry k free pgdir va v :
  kmem_ok k free → pt_ok k pgdir free → is_u32 va → present (pde_of k pgdir (PDX va)) →
  let k' := stored (tab_of k pgdir (PDX va)) (PTX va) v k in
  tables_grew k free k' free pgdir ∧
  (∀ i, 0 ≤ i < NPDENTRIES → pde_of k' pgdir i = pde_of k pgdir i) ∧
  ∀ va', is_u32 va' →
    entry k' pgdir va' = if decide (va' / PGSIZE = va / PGSIZE) then u32 v else entry k pgdir va'.
Proof.
  intros Hk Hpt Hva Hp k'. pose proof (PDX_range va) as Hx. pose proof (PTX_range va) as Hy.
  destruct (pt_tab _ _ _ _ Hpt _ Hx Hp) as (Hta & Htf & Htd). destruct (pt_dir _ _ _ _ Hpt) as [Hd Hdf].
  assert (Epg : km_pages k' !! pgdir = km_pages k !! pgdir).
  { unfold k', stored, put_page. cbn [km_pages with_pages]. by rewrite lookup_insert_ne. }
  assert (Ep : ∀ i, 0 ≤ i < NPDENTRIES → pde_of k' pgdir i = pde_of k pgdir i).
  { intros i Hi. by apply (pde_of_frame kend). }
  split; [split|split].
  - by apply stored_ok.
  - by apply (pt_ok_frame kend k k' pgdir free free).
  - by exists [].
  - intros b Hb Hf Ht. unfold k', stored, put_page. cbn [km_pages with_pages].
    rewrite lookup_insert_ne; [done|]. intros <-. by apply (Ht (PDX va)).
  - intros i Hi. unfold tab_of. rewrite Ep by done. by left.
  - intros i Hi. unfold tab_of. by rewrite Ep.
  - by left.
  - done.
  - intros va' Hva'. unfold entry, tab_of. rewrite Ep by apply PDX_range.
    pose proof (PDX_range va') as Hx'. pose proof (PTX_range va') as Hy'.
    pose proof (same_indices va' va Hva' Hva) as Hsame.
    destruct (decide (present (pde_of k pgdir (PDX va')))) as [Hp'|Hp'].
    + rewrite land_present by done. fold (tab_of k pgdir (PDX va')).
      destruct (pt_tab _ _ _ _ Hpt _ Hx' Hp') as (Hta' & _ & _).
      unfold k'. rewrite (word_stored kend _ free) by (done || apply Hta').
      destruct (decide (va' / PGSIZE = va / PGSIZE)) as [E|E].
      * apply Hsame in E as [-> ->]. by rewrite decide_True.
      * rewrite decide_False; [done|]. intros [Et Ey]. apply E, Hsame. split; [|done].
        destruct (decide (PDX va' = PDX va)); [done|]. by destruct (pt_inj _ _ _ _ Hpt (PDX va') (PDX va)).
    + rewrite land_absent by done. rewrite decide_False; [done|]. intros E.
      apply Hsame in E as [Ex _]. by rewrite Ex in Hp'.
Qed.

(** ** [mappages] *)

Definition pte_of (pa perm : Z) : Z := Z.lor (Z.lor pa perm) PTE_P.

Lemma lor_perm perm : 0 ≤ perm < PGSIZE → 0 ≤ Z.lor perm PTE_P < PGSIZE.
Proof.
  intros Hf. unfold PTE_P. split; [apply Z.lor_nonneg; lia|]. change PGSIZE with (2 ^ 12) in *.
  apply Z.log2_lt_cancel. rewrite Z.log2_lor by lia. rewrite Z.log2_pow2 by lia.
  change (Z.log2 1) with 0. pose proof (Z.log2_nonneg perm).
  destruct (decide (perm = 0)) as [->|]; [done|]. rewrite Z.max_l by done. apply Z.log2_lt_pow2; lia.
Qed.

Lemma pte_of_u32 pa perm : pa mod PGSIZE = 0 → 0 ≤ pa < 2 ^ 32 → 0 ≤ perm < PGSIZE → is_u32 (pte_of pa perm).
Proof.
  intros Hm Hp Hf. unfold pte_of. rewrite <- Z.lor_assoc.
  pose proof (lor_perm perm Hf) as Hb.
  rewrite lor_low by done. unfold is_u32. pose proof (Z.div_mod pa PGSIZE ltac:(done)) as Hd.
  rewrite Hm in Hd. unfold PGSIZE in *. lia.
Qed.

(** The entries after [m] pages from [a] on were mapped to [pa] and on. *)
Definition maps k k' (pgdir a pa perm m : Z) : Prop :=
  ∀ va, is_u32 va → entry k' pgdir va =
    if decide (a ≤ va < a + m * PGSIZE) then pte_of (pa + (page_of va - a)) perm else entry k pgdir va.

Lemma same_page a va : a mod PGSIZE = 0 → (va / PGSIZE = a / PGSIZE ↔ a ≤ va < a + PGSIZE).
Proof.
  intros Ha. pose proof (Z.div_mod va PGSIZE ltac:(done)). pose proof (Z.div_mod a PGSIZE ltac:(done)).
  pose proof (Z.mod_pos_bound va PGSIZE ltac:(done)). unfold PGSIZE in *. lia.
Qed.

Lemma page_of_same a va : a mod PGSIZE = 0 → a ≤ va < a + PGSIZE → page_of va = a.
Proof.
  intros Ha Hva. apply same_page in Hva as E; [|done]. unfold page_of.
  pose proof (Z.div_mod va PGSIZE ltac:(done)). pose proof (Z.div_mod a PGSIZE ltac:(done)). lia.
Qed.

Lemma maps_cons k k1 k2 pgdir a pa perm m :
  a mod PGSIZE = 0 → 0 ≤ m →
  maps k k1 pgdir a pa perm 1 → maps k1 k2 pgdir (a + PGSIZE) (pa + PGSIZE) perm m →
  maps k k2 pgdir a pa perm (m + 1).
Proof.
  intros Ha Hm H1 H2 va Hva. rewrite H2, H1 by done.
  destruct (decide (a ≤ va < a + PGSIZE)) as [Hin|Hout].
  - rewrite (decide_False (P := a + PGSIZE ≤ va < _)) by lia.
    rewrite !decide_True by (unfold PGSIZE in *; lia). done.
  - rewrite (decide_False (P := a ≤ va < a + 1 * PGSIZE)) by (unfold PGSIZE in *; lia).
    destruct (decide (a + PGSIZE ≤ va < a + PGSIZE + m * PGSIZE)) as [Hd|Hd].
    + rewrite decide_True by (unfold PGSIZE in *; lia). f_equal. lia.
    + rewrite decide_False by (unfold PGSIZE in *; lia). done.
Qed.

Lemma wp_mappages_from fuel k free pgdir a pa perm n :
  kmem_ok k free → pt_ok k pgdir free → (n ≤ fuel)%nat → (0 < n)%nat →
  a mod PGSIZE = 0 → 0 ≤ a → a + Z.of_nat n * PGSIZE ≤ 2 ^ 32 →
  pa mod PGSIZE = 0 → 0 ≤ pa → pa + Z.of_nat n * PGSIZE ≤ 2 ^ 32 → 0 ≤ perm < PGSIZE →
  (∀ va, a ≤ va < a + Z.of_nat n * PGSIZE → ¬ present (entry k pgdir va)) →
  wp (mappages_from fuel pgdir a (a + (Z.of_nat n - 1) * PGSIZE) pa perm) (λ r k', ∃ m free',
    tables_grew k free k' free' pgdir ∧ maps k k' pgdir a pa perm m ∧
    ((r = 0 ∧ m = Z.of_nat n) ∨ (r = -1 ∧ 0 ≤ m < Z.of_nat n ∧ free' = []))) k.
Proof.
  revert k free a pa n. induction fuel as [|f IH]; intros k free a pa n Hk Hpt Hf Hn Ha Ha0 Ha2 Hpa Hp0 Hp2 Hperm Hno; [lia|].
  cbn [mappages_from]. wp_step. eapply wp_mono; [by apply (wp_walk_true k free)|].
  intros [pte|] k1; cbn beta iota.
  2:{ intros [-> ->]. wp_step. exists 0, []. split_and!; [by apply tables_grew_refl| |right; split_and!; lia || done].
      intros va Hva. by rewrite decide_False by lia. }
  intros (f1 & Hg1 & He1 & Hpr & ->). destruct Hg1 as [Hk1 Hpt1 Hf1 Hpg1 Htb1] eqn:Eg1. clear Eg1.
  assert (Hau : is_u32 a) by (unfold is_u32, PGSIZE in *; lia).
  pose proof (PDX_range a) as Hx. pose proof (PTX_range a) as Hy.
  destruct (pt_tab _ _ _ _ Hpt1 _ Hx Hpr) as (Hta & Htf & _).
  wp_step. apply (wp_load kend k1 f1); [done|done|done|].
  assert (Ew : word k1 (tab_of k1 pgdir (PDX a) + 4 * PTX a) = entry k1 pgdir a).
  { unfold entry. by rewrite land_present. }
  rewrite Ew, He1, land_absent by (apply Hno; unfold PGSIZE; lia).
  wp_step. apply (wp_store kend k1 f1); [done|done|done|]. fold (pte_of pa perm).
  destruct (set_entry k1 f1 pgdir a (pte_of pa perm) Hk1 Hpt1 Hau Hpr) as (Hg2 & _ & He2).
  set (k2 := stored _ _ _ k1) in *.
  assert (Hg : tables_grew k free k2 f1 pgdir).
  { eapply tables_grew_trans; [|exact Hg2]. by split. }
  assert (Hm1 : maps k k2 pgdir a pa perm 1).
  { intros va Hva. rewrite He2, He1 by done. rewrite u32_id by (apply pte_of_u32; (done || unfold PGSIZE in *; lia)).
    destruct (decide (va / PGSIZE = a / PGSIZE)) as [E|E]; rewrite same_page in E by done.
    - rewrite decide_True by lia. rewrite (page_of_same a) by done. f_equal. lia.
    - rewrite decide_False by lia. done. }
  destruct (a =? a + (Z.of_nat n - 1) * PGSIZE) eqn:Eq; bool_props.
  - wp_step. exists 1, f1. split_and!; [done|done|]. left. unfold PGSIZE in *. lia.
  - assert (2 ≤ n)%nat by (unfold PGSIZE in *; lia).
    rewrite !u32_id by (unfold is_u32, PGSIZE in *; lia).
    replace (a + (Z.of_nat n - 1) * PGSIZE) with (a + PGSIZE + (Z.of_nat (n - 1) - 1) * PGSIZE) by (unfold PGSIZE; lia).
    eapply wp_mono.
    { apply (IH k2 f1 (a + PGSIZE) (pa + PGSIZE) (n - 1)%nat); try lia; try apply Hg;
        try (rewrite <- Z.add_mod_idemp_l, ?Ha, ?Hpa; done); try (unfold PGSIZE in *; lia).
      intros va Hva. rewrite Hm1 by (unfold is_u32, PGSIZE in *; lia).
      rewrite decide_False by (unfold PGSIZE in *; lia). apply Hno. unfold PGSIZE in *; lia. }
    intros r k3 (m & f3 & Hg3 & Hm3 & Hr). exists (m + 1), f3. split_and!.
    + by eapply tables_grew_trans.
    + apply (maps_cons k k2); [done|lia|done|done].
    + destruct Hr as [[-> ->]|(-> & ? & ->)]; [left|right]; split_and!; lia || done.
Qed.

(** The pages a call of [mappages] covers: the first page and their number. *)
Definition covered (va size : Z) : Z := page_of (va + size - 1) / PGSIZE - page_of va / PGSIZE + 1.

Lemma page_of_mod a : page_of a mod PGSIZE = 0.
Proof. unfold page_of. rewrite Zminus_mod, Zmod_mod, Z.sub_diag. done. Qed.

Lemma page_of_div a : page_of a = a / PGSIZE * PGSIZE.
Proof. unfold page_of. pose proof (Z.div_mod a PGSIZE ltac:(done)). lia. Qed.

Lemma mappages_core k free pgdir va size pa perm :
  kmem_ok k free → pt_ok k pgdir free →
  0 ≤ va → 0 < size → va + size ≤ 2 ^ 32 →
  pa mod PGSIZE = 0 → 0 ≤ pa → pa + covered va size * PGSIZE ≤ 2 ^ 32 → 0 ≤ perm < PGSIZE →
  (∀ x, page_of va ≤ x < page_of va + covered va size * PGSIZE → ¬ present (entry k pgdir x)) →
  wp (mappages pgdir va size pa perm) (λ r k', ∃ m free',
    tables_grew k free k' free' pgdir ∧ maps k k' pgdir (page_of va) pa perm m ∧
    ((r = 0 ∧ m = covered va size) ∨ (r = -1 ∧ 0 ≤ m < covered va size ∧ free' = []))) k.
Proof.
  intros Hk Hpt Hva Hs Hvs Hpa Hp0 Hp2 Hperm Hno. unfold mappages.
  rewrite (u32_id (va + size - 1)) by (unfold is_u32; lia). rewrite !PGROUNDDOWN_eq. fold (page_of va) (page_of (va + size - 1)).
  set (n := Z.to_nat (covered va size)).
  assert (Hmono : va / PGSIZE ≤ (va + size - 1) / PGSIZE) by (apply Z.div_le_mono; [done|lia]).
  assert (Hc : covered va size = (va + size - 1) / PGSIZE - va / PGSIZE + 1).
  { unfold covered. by rewrite !page_of_div, !Z.div_mul. }
  assert (En : Z.of_nat n = covered va size) by (unfold n; lia).
  pose proof (Z.div_mod (va + size - 1) PGSIZE ltac:(done)) as Hd1.
  pose proof (Z.mod_pos_bound (va + size - 1) PGSIZE ltac:(done)).
  pose proof (Z.div_pos va PGSIZE Hva ltac:(done)).
  assert (Hend : page_of va + Z.of_nat n * PGSIZE ≤ 2 ^ 32).
  { rewrite En, Hc, page_of_div. change (2 ^ 32) with (1048576 * PGSIZE).
    assert ((va + size - 1) / PGSIZE < 1048576); [|unfold PGSIZE in *; lia].
    apply Z.div_lt_upper_bound; [done|]. unfold PGSIZE in *. lia. }
  assert (El : page_of (va + size - 1) = page_of va + (Z.of_nat n - 1) * PGSIZE).
  { rewrite En, Hc, !page_of_div. lia. }
  rewrite El. replace (page_of va + (Z.of_nat n - 1) * PGSIZE - page_of va) with ((Z.of_nat n - 1) * PGSIZE) by lia.
  assert (Hpos : 0 ≤ page_of va) by (rewrite page_of_div; unfold PGSIZE in *; lia).
  rewrite u32_id by (unfold is_u32, PGSIZE in *; lia). rewrite Z.div_mul by done.
  eapply wp_mono.
  { apply (wp_mappages_from _ k free pgdir (page_of va) pa perm n); try done; try lia.
    - apply page_of_mod.
    - intros x Hx. apply Hno. lia. }
  intros r k' (m & f' & Hg & Hm & Hr). exists m, f'. rewrite En in Hr. done.
Qed.
(** [mappages] maps every page of the range, and nothing else: it returns 0
    with the entries of the pages from [va] to [va + size - 1] set to the
    consecutive physical pages with the permissions and the present bit, or -1
    when the allocator ran out of pages, with a prefix of them set.  Every other
    entry of the page directory is as before, whichever page tables had to be
    allocated. *)
Theorem mappages_correct k free pgdir va size pa perm :
  kmem_ok k free → pt_ok k pgdir free →
  0 ≤ va → 0 < size → va + size ≤ 2 ^ 32 →
  pa mod PGSIZE = 0 → 0 ≤ pa → pa + covered va size * PGSIZE ≤ 2 ^ 32 → 0 ≤ perm < PGSIZE →
  (∀ x, page_of va ≤ x < page_of va + covered va size * PGSIZE → ¬ present (entry k pgdir x)) →
  wp (mappages pgdir va size pa perm) (λ r k', ∃ m free',
    tables_grew k free k' free' pgdir ∧ maps k k' pgdir (page_of va) pa perm m ∧
    ((r = 0 ∧ m = covered va size) ∨ (r = -1 ∧ 0 ≤ m < covered va size ∧ free' = []))) k.
Proof. apply mappages_core. Qed.
End mapping.

(** ** Witness: an empty page directory in a memory with two free pages *)

Definition wdir : Z := KERNBASE + 4194304.
Definition wfree : list Z := [KERNBASE + 4198400; KERNBASE + 4202496].
Definition wkmem : kmem :=
  put_page wdir (replicate npage 0) (freed (KERNBASE + 4198400) (freed (KERNBASE + 4202496) boot_kmem)).

Lemma w_addr a : a ∈ wdir :: wfree → page_addr boot_end a.
Proof.
  unfold wdir, wfree, page_addr, boot_end, KERNBASE, PHYSTOP. rewrite !elem_of_cons, elem_of_nil.
  intros [->|[->|[->|[]]]]; (split; [done|lia]).
Qed.

Lemma wkmem_ok : kmem_ok boot_end wkmem wfree.
Proof.
  unfold wkmem, wfree. apply put_page_ok.
  - repeat apply freed_ok; try apply boot_kmem_ok; try (apply w_addr; unfold wfree; set_solver);
      rewrite ?not_elem_of_cons, ?elem_of_nil; unfold KERNBASE; lia.
  - unfold wdir. rewrite !not_elem_of_cons, elem_of_nil. unfold KERNBASE. lia.
  - apply length_replicate.
Qed.

Lemma wdir_absent i : 0 ≤ i < 1024 → pde_of wkmem wdir i = 0.
Proof.
  intros Hi. unfold pde_of, wkmem. rewrite word_put_page by done. rewrite decide_True by done. by apply get_zero_page.
Qed.

Lemma wpt_ok : pt_ok boot_end wkmem wdir wfree.
Proof.
  split.
  - split; [apply w_addr; by left|]. unfold wdir, wfree. rewrite !not_elem_of_cons, elem_of_nil. unfold KERNBASE. lia.
  - intros i Hi. rewrite wdir_absent by done. by intros [].
  - intros i j Hi Hj _. rewrite wdir_absent by done. by intros [].
Qed.

Lemma wentry_absent x : ¬ present (entry wkmem wdir x).
Proof.
  pose proof (wdir_absent (PDX x) (PDX_range x)) as E. revert E. generalize wkmem. intros k E.
  rewrite entry_absent; [apply absent_0|]. rewrite E. apply absent_0.
Qed.

Lemma mappages_correct_witness :
  wp (mappages wdir 0 8192 0 PTE_W) (λ r k', ∃ m free',
    tables_grew boot_end wkmem wfree k' free' wdir ∧ maps wkmem k' wdir (page_of 0) 0 PTE_W m ∧
    ((r = 0 ∧ m = covered 0 8192) ∨ (r = -1 ∧ 0 ≤ m < covered 0 8192 ∧ free' = []))) wkmem.
Proof.
  apply (mappages_correct boot_end wkmem wfree wdir 0 8192 0 PTE_W wkmem_ok wpt_ok); try lia; try done.
  intros x Hx. apply wentry_absent.
Defined.
