(* ===== verification/VmUser.v ===== *)
(** * User address spaces (vm.c: allocuvm, deallocuvm, uva2ka, copyout)

    An address space owns its page tables and the frames its user entries map;
    growing and shrinking it keeps that ownership, and what user code can read
    changes only where it should. *)

From S2P Require Import Prelude Words Params Kalloc Vm VmRules VmMap.

Section user.
Variable kend : Z.
Hypothesis Hkend : KERNBASE < kend.
Implicit Types (k : kmem) (free : list Z).
Notation page_addr := (page_addr kend).
Notation kmem_ok := (kmem_ok kend).
Notation pt_ok := (pt_ok kend).
Notation tables_grew := (tables_grew kend).

(** The page of physical memory a user address is mapped to. *)
Definition frame k (pgdir va : Z) : Z := P2V (PTE_ADDR (entry k pgdir va)).

Record as_ok k (pgdir : Z) free : Prop := {
  ao_kmem : kmem_ok k free;
  ao_pt : pt_ok k pgdir free;
  ao_frame : ∀ va, 0 ≤ va < KERNBASE → present (entry k pgdir va) →
    page_addr (frame k pgdir va) ∧ frame k pgdir va ∉ free ∧ frame k pgdir va ≠ pgdir ∧
    ∀ i, 0 ≤ i < NPDENTRIES → present (pde_of k pgdir i) → frame k pgdir va ≠ tab_of k pgdir i;
  ao_inj : ∀ va va', 0 ≤ va < KERNBASE → 0 ≤ va' < KERNBASE →
    present (entry k pgdir va) → present (entry k pgdir va') →
    va / PGSIZE ≠ va' / PGSIZE → frame k pgdir va ≠ frame k pgdir va'
}.

(** The pages an address space is made of, and all it may use: these and the
    free ones. *)
Definition owned k (pgdir b : Z) : Prop :=
  b = pgdir ∨ (∃ i, 0 ≤ i < NPDENTRIES ∧ present (pde_of k pgdir i) ∧ tab_of k pgdir i = b) ∨
  ∃ va, 0 ≤ va < KERNBASE ∧ present (entry k pgdir va) ∧ frame k pgdir va = b.
Definition usable k free (pgdir b : Z) : Prop := b ∈ free ∨ owned k pgdir b.

(** An operation on [pgdir] that loses no page, takes none from elsewhere and
    writes nowhere else. *)
Definition confined k free k' free' (pgdir : Z) : Prop :=
  (∀ b, usable k' free' pgdir b ↔ usable k free pgdir b) ∧
  ∀ b, ¬ usable k free pgdir b → km_pages k' !! b = km_pages k !! b.

Lemma confined_refl k free pgdir : confined k free k free pgdir.
Proof. done. Qed.

Lemma confined_trans k1 f1 k2 f2 k3 f3 pgdir :
  confined k1 f1 k2 f2 pgdir → confined k2 f2 k3 f3 pgdir → confined k1 f1 k3 f3 pgdir.
Proof.
  intros [U1 M1] [U2 M2]. split.
  - intros b. by rewrite U2, U1.
  - intros b Hb. rewrite M2, M1; [done|done|]. by rewrite U1.
Qed.

Lemma user_u32 va : 0 ≤ va < KERNBASE → is_u32 va.
Proof. unfold is_u32, KERNBASE. lia. Qed.

(** The entry of the page of [va] is the word [walkpgdir] finds. *)
Lemma entry_word k pgdir va : present (pde_of k pgdir (PDX va)) →
  word k (tab_of k pgdir (PDX va) + 4 * PTX va) = entry k pgdir va.
Proof. intros Hp. unfold entry. by rewrite land_present. Qed.

Lemma entry_present k pgdir va : present (entry k pgdir va) → present (pde_of k pgdir (PDX va)).
Proof.
  intros Hp. destruct (decide (present (pde_of k pgdir (PDX va)))) as [|Hn]; [done|].
  rewrite entry_absent in Hp by done. by apply absent_0 in Hp.
Qed.

(** Entries depend only on the page of the address. *)
Lemma entry_same_page k pgdir va va' : is_u32 va → is_u32 va' → va / PGSIZE = va' / PGSIZE →
  entry k pgdir va = entry k pgdir va'.
Proof. intros Hv Hv' E. apply same_indices in E as [E1 E2]; [|done..]. unfold entry. by rewrite E1, E2. Qed.

(** ** Unmapping a page *)

Lemma freed_frame k pgdir free v va :
  pt_ok k pgdir free → v ≠ pgdir →
  (∀ i, 0 ≤ i < NPDENTRIES → present (pde_of k pgdir i) → v ≠ tab_of k pgdir i) →
  entry (freed v k) pgdir va = entry k pgdir va.
Proof.
  intros Hpt Hd Ht. apply (entry_frame kend k (freed v k) pgdir free); [done| |].
  - simpl. by rewrite lookup_insert_ne.
  - intros i Hi Hp. simpl. rewrite lookup_insert_ne; [done|]. by apply Ht.
Qed.

Lemma as_unmap k pgdir free va :
  as_ok k pgdir free → 0 ≤ va < KERNBASE → present (entry k pgdir va) →
  let v := frame k pgdir va in
  let k' := stored (tab_of k pgdir (PDX va)) (PTX va) 0 (freed v k) in
  as_ok k' pgdir (v :: free) ∧
  (∀ va', is_u32 va' → entry k' pgdir va' = if decide (va' / PGSIZE = va / PGSIZE) then 0 else entry k pgdir va') ∧
  (∀ va', 0 ≤ va' < KERNBASE → present (entry k' pgdir va') →
     km_pages k' !! frame k' pgdir va' = km_pages k !! frame k pgdir va') ∧
  (∀ i, 0 ≤ i < NPDENTRIES → pde_of k' pgdir i = pde_of k pgdir i) ∧
  (∀ b, b ≠ v → b ≠ tab_of k pgdir (PDX va) → km_pages k' !! b = km_pages k !! b).
Proof.
  intros Has Hva Hp v k'. pose proof (entry_present _ _ _ Hp) as Hpd. destruct Has as [Hk Hpt Hfr Hinj].
  destruct (Hfr va Hva Hp) as (Hv & Hvf & Hvd & Hvt).
  assert (Hk1 : kmem_ok (freed v k) (v :: free)) by by apply freed_ok.
  assert (Epg : km_pages (freed v k) !! pgdir = km_pages k !! pgdir) by (simpl; by rewrite lookup_insert_ne).
  destruct (pt_dir _ _ _ _ Hpt) as [Hd Hdf].
  assert (Ep : ∀ i, 0 ≤ i < NPDENTRIES → pde_of (freed v k) pgdir i = pde_of k pgdir i).
  { intros i Hi. by apply (pde_of_frame kend). }
  assert (Et : ∀ i, 0 ≤ i < NPDENTRIES → tab_of (freed v k) pgdir i = tab_of k pgdir i).
  { intros i Hi. unfold tab_of. by rewrite Ep. }
  assert (Hpt1 : pt_ok (freed v k) pgdir (v :: free)).
  { split.
    - split; [done|]. apply not_elem_of_cons. done.
    - intros i Hi. rewrite Ep, Et by done. intros Hpi. destruct (pt_tab _ _ _ _ Hpt i Hi Hpi) as (? & ? & ?).
      split_and!; [done| |done]. apply not_elem_of_cons. split; [|done]. intros E. by apply (Hvt i Hi Hpi).
    - intros i j Hi Hj Hne. rewrite !Ep, !Et by done. by apply (pt_inj _ _ _ _ Hpt). }
  pose proof (PDX_range va) as Hx.
  destruct (set_entry kend (freed v k) (v :: free) pgdir va 0 Hk1 Hpt1 (user_u32 va Hva)) as (Hg & Ep2 & He2).
  { by rewrite Ep. }
  rewrite Et in Hg, Ep2, He2 by done. fold k' in Hg, Ep2, He2.
  assert (He : ∀ va', is_u32 va' → entry k' pgdir va' =
    if decide (va' / PGSIZE = va / PGSIZE) then 0 else entry k pgdir va').
  { intros va' Hva'. rewrite He2 by done. case_decide; [done|]. by apply (freed_frame k pgdir free). }
  assert (Hsame : ∀ va', 0 ≤ va' < KERNBASE → present (entry k' pgdir va') →
    entry k' pgdir va' = entry k pgdir va' ∧ va' / PGSIZE ≠ va / PGSIZE).
  { intros va' Hva' Hp'. rewrite He in * by by apply user_u32. case_decide; [by apply absent_0 in Hp'|done]. }
  split; [|split; [done|split]].
  - split; [apply Hg|apply Hg| |].
    + intros va' Hva' Hp'. destruct (Hsame va' Hva' Hp') as [E Hne]. unfold frame. rewrite E.
      rewrite E in Hp'. destruct (Hfr va' Hva' Hp') as (? & ? & ? & Hti). split_and!; [done| |done|].
      * apply not_elem_of_cons. split; [|done]. by apply (Hinj va' va).
      * intros i Hi. unfold tab_of. rewrite Ep2, Ep by done. by apply Hti.
    + intros va1 va2 H1 H2 Hp1 Hp2 Hne. destruct (Hsame va1 H1 Hp1) as [E1 _], (Hsame va2 H2 Hp2) as [E2 _].
      unfold frame. rewrite E1, E2 in *. by apply Hinj.
  - intros va' Hva' Hp'. destruct (Hsame va' Hva' Hp') as [E Hne]. unfold frame at 1. rewrite E in *.
    fold (frame k pgdir va'). unfold k', stored, put_page. cbn [km_pages with_pages freed with_freelist].
    destruct (Hfr va' Hva' Hp') as (_ & _ & _ & Hti).
    rewrite !lookup_insert_ne; [done| |].
    + intros E2. symmetry in E2. revert E2. by apply (Hinj va' va).
    + intros E2. symmetry in E2. revert E2. by apply Hti.
  - split; [intros i Hi; by rewrite Ep2, Ep|]. intros b Hb1 Hb2.
    unfold k', stored, put_page. cbn [km_pages with_pages freed with_freelist]. by rewrite !lookup_insert_ne.
Qed.

(** ** Shrinking *)

(** Where the loop of [deallocuvm] goes on when a page table is missing. *)
Lemma skip_table a : 0 ≤ a < KERNBASE →
  let a' := u32 (u32 (PGADDR (PDX a + 1) 0 0 - PGSIZE) + PGSIZE) in
  a' mod PGSIZE = 0 ∧ a / PGSIZE * PGSIZE + PGSIZE ≤ a' ≤ KERNBASE ∧ ∀ va, a ≤ va < a' → PDX va = PDX a.
Proof.
  intros Ha a'. assert (Ed : PDX a = a / 4194304).
  { rewrite PDX_eq by lia. apply Z.mod_small. unfold KERNBASE in Ha. split; [apply Z.div_pos; lia|].
    apply Z.div_lt_upper_bound; lia. }
  pose proof (Z.div_mod a 4194304 ltac:(done)) as Hd. pose proof (Z.mod_pos_bound a 4194304 ltac:(done)).
  assert (Eg : PGADDR (PDX a + 1) 0 0 = (a / 4194304 + 1) * 4194304).
  { unfold PGADDR, PDXSHIFT. rewrite !Z.lor_0_r, Z.shiftl_mul_pow2, Ed by done.
    rewrite u32_id; [done|]. unfold is_u32, KERNBASE in *. lia. }
  assert (Ea : a' = (a / 4194304 + 1) * 4194304).
  { unfold a'. rewrite Eg, (u32_id (_ - PGSIZE)), u32_id; unfold is_u32, KERNBASE, PGSIZE in *; lia. }
  pose proof (Z.div_mod a PGSIZE ltac:(done)). pose proof (Z.mod_pos_bound a PGSIZE ltac:(done)).
  rewrite Ea. split_and!.
  - replace ((a / 4194304 + 1) * 4194304) with ((a / 4194304 + 1) * 1024 * PGSIZE) by (unfold PGSIZE; lia).
    by apply Z.mod_mul.
  - unfold PGSIZE in *. lia.
  - unfold KERNBASE in *. lia.
  - intros va Hva. rewrite Ed, PDX_eq by lia. change (2 ^ 22) with 4194304.
    assert (va / 4194304 = a / 4194304) as -> by (symmetry; apply Z.div_unique with (va - a / 4194304 * 4194304); lia).
    apply Z.mod_small. unfold KERNBASE in *. split; [apply Z.div_pos; lia|lia].
Qed.

(** The pages from [a] on that start below [hi]. *)
Definition in_pages (a hi va : Z) : Prop := a ≤ va ∧ page_of va < hi.
#[global] Instance in_pages_dec a hi va : Decision (in_pages a hi va).
Proof. unfold in_pages. apply _. Defined.

(** What was unmapped, and that the rest is untouched. *)
Record unmapped k free k' free' pgdir (a hi : Z) : Prop := {
  um_ok : as_ok k' pgdir free';
  um_free : ∃ gone, free' = gone ++ free ∧
    ∀ x, x ∈ gone → ∃ va, 0 ≤ va < KERNBASE ∧ present (entry k pgdir va) ∧ x = frame k pgdir va;
  um_pde : ∀ i, 0 ≤ i < NPDENTRIES → pde_of k' pgdir i = pde_of k pgdir i;
  um_gone : ∀ va, is_u32 va → in_pages a hi va → ¬ present (entry k' pgdir va);
  um_same : ∀ va, is_u32 va → ¬ in_pages a hi va → entry k' pgdir va = entry k pgdir va;
  um_mem : ∀ va, 0 ≤ va < KERNBASE → present (entry k' pgdir va) →
    km_pages k' !! frame k' pgdir va = km_pages k !! frame k pgdir va;
  um_back : ∀ va, 0 ≤ va < KERNBASE → in_pages a hi va → present (entry k pgdir va) → frame k pgdir va ∈ free';
  um_pages : ∀ b, ¬ owned k pgdir b → km_pages k' !! b = km_pages k !! b
}.

(** What is unmapped is not lost. *)
Lemma unmapped_confined k free k' free' pgdir a hi :
  unmapped k free k' free' pgdir a hi → confined k free k' free' pgdir.
Proof.
  intros [O (g & F & X) D G S M B N]. split; [|by intros b Hb; apply N; intros ?; apply Hb; right].
  intros b. split.
  - rewrite F. intros [[Hb|Hb]%elem_of_app|[->|[(i & Hi & Hp & <-)|(va & Hva & Hp & <-)]]].
    + right. right. right. destruct (X b Hb) as (va & Hva & Hp & ->). by exists va.
    + by left.
    + by right; left.
    + right. right. left. exists i. unfold tab_of in *. by rewrite D in * by done.
    + right. right. right. exists va. destruct (decide (in_pages a hi va)) as [Hin|Hin].
      * by destruct (G va (user_u32 va Hva) Hin).
      * unfold frame. rewrite S in * by (done || by apply user_u32). done.
  - intros [Hb|[->|[(i & Hi & Hp & <-)|(va & Hva & Hp & <-)]]].
    + left. rewrite F, elem_of_app. by right.
    + by right; left.
    + right. right. left. exists i. unfold tab_of. by rewrite D.
    + destruct (decide (in_pages a hi va)) as [Hin|Hin].
      * left. by apply B.
      * right. right. right. exists va. unfold frame. by rewrite S by (done || by apply user_u32).
Qed.

Lemma unmapped_none k free pgdir a hi :
  as_ok k pgdir free → (∀ va, is_u32 va → in_pages a hi va → ¬ present (entry k pgdir va)) →
  unmapped k free k free pgdir a hi.
Proof.
  intros Has Hno. split; try done.
  - exists []. split; [done|]. intros x Hx. by apply not_elem_of_nil in Hx.
  - intros va Hva Hin Hp. by destruct (Hno va (user_u32 va Hva) Hin).
Qed.

(** One turn of the loop, which handles the pages from [a] to [b], and the rest. *)
Lemma unmapped_step k1 f1 k2 f2 k3 f3 pgdir a b hi :
  a ≤ b →
  (∃ g, f2 = g ++ f1 ∧ ∀ x, x ∈ g → ∃ va, 0 ≤ va < KERNBASE ∧ present (entry k1 pgdir va) ∧ x = frame k1 pgdir va) →
  (∀ i, 0 ≤ i < NPDENTRIES → pde_of k2 pgdir i = pde_of k1 pgdir i) →
  (∀ va, is_u32 va → in_pages a hi va → va < b → ¬ present (entry k2 pgdir va)) →
  (∀ va, is_u32 va → present (entry k2 pgdir va) → entry k2 pgdir va = entry k1 pgdir va) →
  (∀ va, is_u32 va → ¬ (in_pages a hi va ∧ va < b) → entry k2 pgdir va = entry k1 pgdir va) →
  (∀ va, 0 ≤ va < KERNBASE → present (entry k2 pgdir va) →
     km_pages k2 !! frame k2 pgdir va = km_pages k1 !! frame k1 pgdir va) →
  (∀ va, 0 ≤ va < KERNBASE → in_pages a hi va → va < b → present (entry k1 pgdir va) → frame k1 pgdir va ∈ f2) →
  (∀ b, ¬ owned k1 pgdir b → km_pages k2 !! b = km_pages k1 !! b) →
  unmapped k2 f2 k3 f3 pgdir b hi → unmapped k1 f1 k3 f3 pgdir a hi.
Proof.
  intros Hab (g2 & F2 & X2) D2 G2 P2 S2 M2 B2 N2 [O3 (g3 & F3 & X3) D3 G3 S3 M3 B3 N3]. split; [done| | | | | | |].
  - exists (g3 ++ g2). split; [by rewrite F3, F2, <- (assoc_L (++))|].
    intros x [Hx|Hx]%elem_of_app; [|by apply X2]. destruct (X3 x Hx) as (va & Hva & Hp & ->). exists va.
    assert (E : entry k2 pgdir va = entry k1 pgdir va) by (apply P2; [by apply user_u32|done]).
    unfold frame. rewrite E in *. done.
  - intros i Hi. by rewrite D3, D2.
  - intros va Hva Hin. destruct (decide (va < b)) as [Hlt|].
    + rewrite S3 by (done || unfold in_pages; lia). by apply G2.
    + apply G3; [done|]. unfold in_pages in *. lia.
  - intros va Hva Hout. rewrite S3 by (done || unfold in_pages in *; lia). apply S2; [done|]. naive_solver.
  - intros va Hva Hp. rewrite M3 by done. apply M2; [done|].
    destruct (decide (in_pages b hi va)) as [Hin|Hin].
    + by destruct (G3 va (user_u32 va Hva) Hin).
    + by rewrite S3 in Hp by (done || by apply user_u32).
  - intros va Hva Hin Hp. destruct (decide (va < b)) as [Hlt|Hge].
    + rewrite F3, elem_of_app. right. by apply B2.
    + assert (E : entry k2 pgdir va = entry k1 pgdir va) by (apply S2; [by apply user_u32|lia]).
      unfold frame in *. rewrite <- E in *. apply B3; [done| |done]. unfold in_pages in *. lia.
  - intros x Hx. rewrite N3, N2; [done|done|]. intros [->|[(i & Hi & Hp & <-)|(va & Hva & Hp & <-)]]; apply Hx.
    + by left.
    + right. left. exists i. unfold tab_of in *. by rewrite D2 in * by done.
    + right. right. exists va. unfold frame in *. rewrite P2 in * by (done || by apply user_u32). done.
Qed.

Lemma wp_deallocuvm_from fuel k free pgdir a oldsz :
  as_ok k pgdir free → a mod PGSIZE = 0 → 0 ≤ a → oldsz ≤ KERNBASE →
  (0 < fuel)%nat → oldsz ≤ a + (Z.of_nat fuel - 1) * PGSIZE →
  wp (deallocuvm_from kend fuel pgdir a oldsz) (λ _ k', ∃ free', unmapped k free k' free' pgdir a oldsz) k.
Proof.
  revert k free a. induction fuel as [|f IH]; intros k free a Has Ham Ha0 Hold Hf Hlen; [lia|].
  cbn [deallocuvm_from]. destruct (a <? oldsz) eqn:E; bool_props.
  2:{ wp_step. exists free. apply unmapped_none; [done|]. intros va _ [Hv1 Hv2]. exfalso.
      pose proof (Z.div_mod va PGSIZE ltac:(done)). pose proof (Z.div_mod a PGSIZE ltac:(done)).
      rewrite page_of_div in Hv2. pose proof (Z.mod_pos_bound va PGSIZE ltac:(done)). unfold PGSIZE in *. lia. }
  assert (Ha : 0 ≤ a < KERNBASE) by lia. destruct Has as [Hk Hpt Hfr Hinj] eqn:Eas. clear Eas.
  wp_step. apply (wp_walk_false kend k free); [done|done|].
  assert (Hstep : a + PGSIZE ≤ KERNBASE).
  { pose proof (Z.div_mod a PGSIZE ltac:(done)). unfold KERNBASE, PGSIZE in *. lia. }
  case_decide as Hpd.
  - pose proof (PDX_range a) as Hx. destruct (pt_tab _ _ _ _ Hpt _ Hx Hpd) as (Hta & Htf & Htd).
    wp_step. unfold pte_addr. apply (wp_load kend k free); [done|done|apply PTX_range|]. rewrite entry_word by done.
    wp_step. rewrite u32_id by (unfold is_u32, KERNBASE, PGSIZE in *; lia).
    destruct (decide (present (entry k pgdir a))) as [Hp|Hp].
    + rewrite land_present by done. cbn [whenM]. destruct (Hfr a Ha Hp) as (Hv & Hvf & Hvd & Hvt).
      destruct (PTE_ADDR (entry k pgdir a) =? 0) eqn:Ez; bool_props.
      { exfalso. unfold frame in Hv. rewrite Ez in Hv. destruct Hv as (_ & Hv & _).
        change (P2V 0) with KERNBASE in Hv. lia. }
      fold (frame k pgdir a). wp_step.
      apply (wp_kfree kend (frame k pgdir a) k); [lia|done|apply Hk|by apply (ko_all _ _ _ Hk)|].
      destruct (as_unmap k pgdir free a Has Ha Hp) as (Has2 & He2 & Hm2 & Hd2 & Hn2).
      apply (wp_store kend _ (frame k pgdir a :: free)); [by apply freed_ok|done|apply PTX_range|].
      eapply wp_mono.
      { apply (IH _ (frame k pgdir a :: free) (a + PGSIZE)); [done| |unfold PGSIZE; lia|done| |].
        - rewrite <- Z.add_mod_idemp_l, Ham; done.
        - unfold PGSIZE in *. lia.
        - unfold PGSIZE in *. lia. }
      intros [] k3 (f3 & Hu). exists f3. refine (unmapped_step k free _ _ k3 f3 pgdir a (a + PGSIZE) oldsz _ _ _ _ _ _ _ _ _ Hu); try done.
      * unfold PGSIZE. lia.
      * exists [frame k pgdir a]. split; [done|]. intros x Hin%list_elem_of_singleton. by exists a.
      * intros va Hva [? _] ?. rewrite He2, decide_True; [apply absent_0|by apply same_page|done].
      * intros va Hva. rewrite He2 by done. case_decide; [by intros ?%absent_0|done].
      * intros va Hva Hn. rewrite He2, decide_False; [done| |done]. rewrite same_page by done. intros Hin.
        apply Hn. split; [split|]; [lia| |lia]. by rewrite (page_of_same a).
      * intros va Hva [? _] ? _. apply elem_of_cons. left. unfold frame.
        by rewrite (entry_same_page k pgdir va a); [|by apply user_u32..|apply same_page].
      * intros b Hb. apply Hn2; intros ->; apply Hb; [by right; right; exists a|].
        right. left. exists (PDX a). done.
    + rewrite land_absent by done. cbn [whenM]. wp_step. eapply wp_mono.
      { apply (IH k free (a + PGSIZE)); [done| |unfold PGSIZE; lia|done| |].
        - rewrite <- Z.add_mod_idemp_l, Ham; done.
        - unfold PGSIZE in *. lia.
        - unfold PGSIZE in *. lia. }
      intros [] k3 (f3 & Hu). exists f3. refine (unmapped_step k free k free k3 f3 pgdir a (a + PGSIZE) oldsz _ _ _ _ _ _ _ _ _ Hu); try done.
      * unfold PGSIZE. lia.
      * exists []. split; [done|]. intros x Hin. by apply not_elem_of_nil in Hin.
      * intros va Hva [? _] ?. rewrite (entry_same_page k pgdir va a); [done|done|by apply user_u32|by apply same_page].
      * intros va Hva [? _] ?. rewrite (entry_same_page k pgdir va a); [done|by apply user_u32..|by apply same_page].
  - destruct (skip_table a Ha) as (Hm' & Hle & Hsame). set (a' := u32 _) in *.
    pose proof (Z.div_mod a PGSIZE ltac:(done)) as Hadm. rewrite Ham in Hadm.
    eapply wp_mono.
    { apply (IH k free a'); try done; unfold PGSIZE in *; lia. }
    intros [] k3 (f3 & Hu). exists f3. refine (unmapped_step k free k free k3 f3 pgdir a a' oldsz _ _ _ _ _ _ _ _ _ Hu); try done.
    + unfold PGSIZE in *. lia.
    + exists []. split; [done|]. intros x Hx. by apply not_elem_of_nil in Hx.
    + intros va Hva [? _] ?. rewrite entry_absent; [apply absent_0|]. by rewrite Hsame.
    + intros va Hva [? _] ?. rewrite entry_absent; [by intros ?%absent_0|]. by rewrite Hsame.
Qed.

Lemma PGROUNDUP_bounds sz : 0 ≤ sz ≤ KERNBASE →
  PGROUNDUP sz mod PGSIZE = 0 ∧ sz ≤ PGROUNDUP sz < sz + PGSIZE ∧ PGROUNDUP sz ≤ KERNBASE.
Proof.
  intros Hsz. rewrite PGROUNDUP_eq by (unfold KERNBASE, PGSIZE in *; lia).
  pose proof (Z.div_mod (sz + PGSIZE - 1) PGSIZE ltac:(done)).
  pose proof (Z.mod_pos_bound (sz + PGSIZE - 1) PGSIZE ltac:(done)).
  split_and!; [by apply Z.mod_mul| | |]; unfold KERNBASE, PGSIZE in *; lia.
Qed.

Lemma wp_deallocuvm k free pgdir oldsz newsz :
  as_ok k pgdir free → 0 ≤ newsz < oldsz → oldsz ≤ KERNBASE →
  wp (deallocuvm kend pgdir oldsz newsz) (λ r k', r = newsz ∧
    ∃ free', unmapped k free k' free' pgdir (PGROUNDUP newsz) oldsz) k.
Proof.
  intros Has Hn Ho. unfold deallocuvm. destruct (oldsz <=? newsz) eqn:E; bool_props; [lia|].
  destruct (PGROUNDUP_bounds newsz ltac:(lia)) as (Hm & Hb & _).
  pose proof (Z.div_mod oldsz PGSIZE ltac:(done)). pose proof (Z.mod_pos_bound oldsz PGSIZE ltac:(done)).
  wp_step. eapply wp_mono.
  { apply (wp_deallocuvm_from _ k free); try done; unfold PGSIZE in *; lia. }
  intros [] k' Hu. by wp_step.
Qed.

(** ** Growing *)

(** A page that belongs to nobody: neither free nor used by the address space. *)
Record alone k (pgdir : Z) free (mem : Z) : Prop := {
  al_addr : page_addr mem;
  al_free : mem ∉ free;
  al_dir : mem ≠ pgdir;
  al_tab : ∀ i, 0 ≤ i < NPDENTRIES → present (pde_of k pgdir i) → mem ≠ tab_of k pgdir i;
  al_frame : ∀ va, 0 ≤ va < KERNBASE → present (entry k pgdir va) → mem ≠ frame k pgdir va
}.

(** The same entries, and the same content behind them. *)
Definition keeps_user k k' pgdir : Prop :=
  ∀ va, 0 ≤ va < KERNBASE → present (entry k pgdir va) →
    entry k' pgdir va = entry k pgdir va ∧ km_pages k' !! frame k pgdir va = km_pages k !! frame k pgdir va.

Lemma keeps_user_trans k1 k2 k3 pgdir :
  keeps_user k1 k2 pgdir → keeps_user k2 k3 pgdir → keeps_user k1 k3 pgdir.
Proof.
  intros H1 H2 va Hva Hp. destruct (H1 va Hva Hp) as [E1 M1].
  destruct (H2 va Hva ltac:(by rewrite E1)) as [E2 M2]. split; [congruence|].
  unfold frame in M2. rewrite E1 in M2. unfold frame in *. congruence.
Qed.

(** Taking a page off the free list and filling it. *)
Lemma as_take k pgdir mem free next p :
  as_ok k pgdir (mem :: free) → kmem_ok (with_freelist next k) free → length p = npage →
  let k' := put_page mem p (with_freelist next k) in
  as_ok k' pgdir free ∧ alone k' pgdir free mem ∧ keeps_user k k' pgdir ∧
  (∀ va, entry k' pgdir va = entry k pgdir va).
Proof.
  intros [Hk Hpt Hfr Hinj] Hk1 Hlen k'.
  pose proof (ko_addr _ _ _ Hk) as Ha. inversion Ha as [|? ? Hm _]; subst.
  pose proof (ko_nodup _ _ _ Hk) as Hnd. inversion Hnd as [|? ? Hni _]; subst.
  destruct (pt_dir _ _ _ _ Hpt) as [Hd Hdf]. apply not_elem_of_cons in Hdf as [Hdm Hdf].
  assert (Htm : ∀ i, 0 ≤ i < NPDENTRIES → present (pde_of k pgdir i) → mem ≠ tab_of k pgdir i).
  { intros i Hi Hp. destruct (pt_tab _ _ _ _ Hpt i Hi Hp) as (_ & Hn & _).
    apply not_elem_of_cons in Hn as [? _]. done. }
  assert (Epg : ∀ b, b ≠ mem → km_pages k' !! b = km_pages k !! b).
  { intros b Hb. unfold k', put_page. cbn [km_pages with_pages with_freelist]. by rewrite lookup_insert_ne. }
  assert (Ep : ∀ i, 0 ≤ i < NPDENTRIES → pde_of k' pgdir i = pde_of k pgdir i).
  { intros i Hi. apply (pde_of_frame kend); [done|done|by apply Epg]. }
  assert (Ee : ∀ va, entry k' pgdir va = entry k pgdir va).
  { intros va. apply (entry_frame kend k k' pgdir (mem :: free)); [done|by apply Epg|].
    intros i Hi Hp. apply Epg. intros E. by apply (Htm i Hi Hp). }
  assert (Hfm : ∀ va, 0 ≤ va < KERNBASE → present (entry k pgdir va) → frame k pgdir va ≠ mem ∧ frame k pgdir va ∉ free).
  { intros va Hva Hp. destruct (Hfr va Hva Hp) as (_ & Hn & _). by apply not_elem_of_cons in Hn. }
  split; [split|split; [split|split]].
  - by apply put_page_ok.
  - apply (pt_ok_frame kend k k' pgdir (mem :: free)); [done|by apply Epg|]. intros a Ha'. by right.
  - intros va Hva. unfold frame. rewrite Ee. intros Hp. destruct (Hfr va Hva Hp) as (? & _ & ? & Ht).
    destruct (Hfm va Hva Hp). split_and!; try done. intros i Hi. unfold tab_of. rewrite Ep by done. by apply Ht.
  - intros va va' Hva Hva'. unfold frame. rewrite !Ee. by apply Hinj.
  - done.
  - done.
  - done.
  - intros i Hi. unfold tab_of. rewrite Ep by done. by apply Htm.
  - intros va Hva. unfold frame. rewrite Ee. intros Hp E. by destruct (Hfm va Hva Hp).
  - intros va Hva Hp. split; [apply Ee|]. apply Epg. by apply Hfm.
  - done.
Qed.

Lemma frame_pte mem perm : page_addr mem → 0 ≤ perm < PGSIZE → P2V (PTE_ADDR (pte_of (V2P mem) perm)) = mem ∧
  present (pte_of (V2P mem) perm).
Proof.
  intros Hm Hp. destruct (V2P_page kend mem Hm) as (_ & Hmod & Hr).
  assert (0 ≤ Z.lor perm PTE_P < PGSIZE) as Hb by (by apply lor_perm).
  unfold pte_of. rewrite <- Z.lor_assoc. split.
  - rewrite PTE_ADDR_lor by done. by apply (P2V_V2P_page kend).
  - unfold present, PTE_P. rewrite land_lor_low by (done || (unfold PGSIZE; lia)).
    rewrite Z.land_lor_distr_l. change (Z.land 1 1) with 1. intros E. apply Z.lor_eq_0_iff in E as [_ ?]. done.
Qed.

(** New page tables, and possibly one new page mapped to [mem]. *)
Lemma as_grow k pgdir free k' free' mem a perm m :
  as_ok k pgdir free → alone k pgdir free mem → tables_grew k free k' free' pgdir →
  maps k k' pgdir a (V2P mem) perm m → m = 0 ∨ m = 1 → 0 ≤ perm < PGSIZE →
  a mod PGSIZE = 0 → 0 ≤ a < KERNBASE → ¬ present (entry k pgdir a) →
  as_ok k' pgdir free' ∧ km_pages k' !! mem = km_pages k !! mem ∧ keeps_user k k' pgdir ∧
  (m = 0 → alone k' pgdir free' mem).
Proof.
  intros [Hk Hpt Hfr Hinj] [Hm Hmf Hmd Hmt Hmfr] [Hk' Hpt' [used Hu] Hpg Htb] Hmaps Hm01 Hperm Ham Ha Hna.
  assert (Hsub : ∀ x, x ∉ free → x ∉ free') by (intros x Hx Hx'; apply Hx; rewrite Hu, elem_of_app; by right).
  destruct (frame_pte mem perm Hm Hperm) as [Efr Hpp].
  assert (Hno : ∀ va, 0 ≤ va < KERNBASE → a ≤ va < a + m * PGSIZE → m = 1 ∧ ¬ present (entry k pgdir va) ∧
    entry k' pgdir va = pte_of (V2P mem) perm ∧ va / PGSIZE = a / PGSIZE).
  { intros va Hva Hin. assert (m = 1) as -> by (unfold PGSIZE in Hin; lia).
    assert (Es : va / PGSIZE = a / PGSIZE) by (apply same_page; [done|unfold PGSIZE in *; lia]).
    split_and!; [done| | |done].
    - by rewrite (entry_same_page k pgdir va a) by (done || by apply user_u32).
    - rewrite (Hmaps va), decide_True by (done || by apply user_u32).
      rewrite (page_of_same a) by (done || unfold PGSIZE in *; lia). f_equal. lia. }
  assert (Hsame : ∀ va, 0 ≤ va < KERNBASE → present (entry k pgdir va) → entry k' pgdir va = entry k pgdir va).
  { intros va Hva Hp. rewrite (Hmaps va) by by apply user_u32. case_decide as Hd; [|done].
    by destruct (Hno va Hva Hd) as (_ & ? & _). }
  assert (Hcase : ∀ va, 0 ≤ va < KERNBASE → present (entry k' pgdir va) →
    (present (entry k pgdir va) ∧ entry k' pgdir va = entry k pgdir va) ∨
    (m = 1 ∧ frame k' pgdir va = mem ∧ va / PGSIZE = a / PGSIZE)).
  { intros va Hva Hp. destruct (decide (a ≤ va < a + m * PGSIZE)) as [Hd|Hd].
    - right. destruct (Hno va Hva Hd) as (? & _ & E & ?). unfold frame. by rewrite E.
    - left. rewrite (Hmaps va), decide_False in * by (done || by apply user_u32). done. }
  assert (Htab : ∀ x, x ∉ free → (∀ i, 0 ≤ i < NPDENTRIES → present (pde_of k pgdir i) → x ≠ tab_of k pgdir i) →
    ∀ i, 0 ≤ i < NPDENTRIES → present (pde_of k' pgdir i) → x ≠ tab_of k' pgdir i).
  { intros x Hxf Hxt i Hi Hp. destruct (Htb i Hi Hp) as [[Hp1 E]|Hin].
    - rewrite E. by apply Hxt.
    - by intros ->. }
  split; [split|split; [|split]].
  - done.
  - done.
  - intros va Hva Hp. destruct (Hcase va Hva Hp) as [[Hp0 E]|(_ & E & _)].
    + unfold frame. rewrite E. destruct (Hfr va Hva Hp0) as (? & ? & ? & ?). split_and!; [done|by apply Hsub|done|by apply Htab].
    + rewrite E. split_and!; [done|by apply Hsub|done|by apply Htab].
  - intros va va' Hva Hva' Hp Hp' Hne.
    destruct (Hcase va Hva Hp) as [[Hp0 E]|(_ & E & Ea)], (Hcase va' Hva' Hp') as [[Hp0' E']|(_ & E' & Ea')].
    + unfold frame. rewrite E, E'. by apply Hinj.
    + rewrite E'. unfold frame. rewrite E. intros Ex. by apply (Hmfr va).
    + rewrite E. unfold frame at 1. rewrite E'. by apply Hmfr.
    + congruence.
  - by apply Hpg.
  - intros va Hva Hp. split; [by apply Hsame|]. destruct (Hfr va Hva Hp) as (_ & ? & ? & ?). by apply Hpg.
  - intros ->. split; [done|by apply Hsub|done|by apply Htab|].
    intros va Hva Hp. destruct (Hcase va Hva Hp) as [[Hp0 E]|(? & _)]; [|lia].
    unfold frame. rewrite E. by apply Hmfr.
Qed.

(** The page was taken from what the address space may use, ... *)
Lemma take_usable k pgdir mem free next p :
  as_ok k pgdir (mem :: free) → kmem_ok (with_freelist next k) free → length p = npage →
  let k' := put_page mem p (with_freelist next k) in
  (∀ b, usable k (mem :: free) pgdir b ↔ usable k' free pgdir b ∨ b = mem) ∧
  ∀ b, b ≠ mem → km_pages k' !! b = km_pages k !! b.
Proof.
  intros Has Hk1 Hlen k'. destruct (as_take k pgdir mem free next p Has Hk1 Hlen) as (_ & _ & _ & Ee). fold k' in Ee.
  assert (Epg : ∀ b, b ≠ mem → km_pages k' !! b = km_pages k !! b).
  { intros b Hb. unfold k', put_page. cbn [km_pages with_pages with_freelist]. by rewrite lookup_insert_ne. }
  split; [|done]. destruct (pt_dir _ _ _ _ (ao_pt _ _ _ Has)) as [Hd Hdf]. apply not_elem_of_cons in Hdf as [Hdm _].
  assert (Ep : ∀ i, 0 ≤ i < NPDENTRIES → pde_of k' pgdir i = pde_of k pgdir i).
  { intros i Hi. apply (pde_of_frame kend); [done|done|by apply Epg]. }
  intros b. unfold usable, owned, frame. setoid_rewrite Ee. rewrite elem_of_cons.
  assert (Ht : (∃ i, 0 ≤ i < NPDENTRIES ∧ present (pde_of k' pgdir i) ∧ tab_of k' pgdir i = b) ↔
               ∃ i, 0 ≤ i < NPDENTRIES ∧ present (pde_of k pgdir i) ∧ tab_of k pgdir i = b).
  { unfold tab_of. split; intros (i & Hi & Hp & E); exists i; [rewrite Ep in Hp, E by done|rewrite Ep by done]; done. }
  rewrite Ht. tauto.
Qed.

(** ... and what is mapped, or becomes a page table, stays in it. *)
Lemma grow_usable k pgdir free k' free' mem a perm m :
  as_ok k pgdir free → page_addr mem → tables_grew k free k' free' pgdir →
  maps k k' pgdir a (V2P mem) perm m → m = 0 ∨ m = 1 → 0 ≤ perm < PGSIZE →
  a mod PGSIZE = 0 → 0 ≤ a < KERNBASE → ¬ present (entry k pgdir a) →
  (∀ b, usable k' free' pgdir b ↔ usable k free pgdir b ∨ (m = 1 ∧ b = mem)) ∧
  ∀ b, ¬ usable k free pgdir b → km_pages k' !! b = km_pages k !! b.
Proof.
  intros Has Hm [Hk' Hpt' [used Hu] Hpg Htb Hkp Hus] Hmaps Hm01 Hperm Ham Ha Hna.
  destruct (frame_pte mem perm Hm Hperm) as [Efr Hpp].
  assert (Hin : ∀ va, 0 ≤ va < KERNBASE → a ≤ va < a + m * PGSIZE →
    m = 1 ∧ ¬ present (entry k pgdir va) ∧ entry k' pgdir va = pte_of (V2P mem) perm).
  { intros va Hva Hin. assert (m = 1) as -> by (unfold PGSIZE in Hin; lia).
    assert (Es : va / PGSIZE = a / PGSIZE) by (apply same_page; [done|unfold PGSIZE in *; lia]).
    split_and!; [done| |].
    - by rewrite (entry_same_page k pgdir va a) by (done || by apply user_u32).
    - rewrite (Hmaps va), decide_True by (done || by apply user_u32).
      rewrite (page_of_same a) by (done || unfold PGSIZE in *; lia). f_equal. lia. }
  assert (Hout : ∀ va, 0 ≤ va < KERNBASE → ¬ (a ≤ va < a + m * PGSIZE) → entry k' pgdir va = entry k pgdir va).
  { intros va Hva Hn. by rewrite (Hmaps va), decide_False by (done || by apply user_u32). }
  split.
  - intros b. split.
    + intros [Hb|[->|[(i & Hi & Hp & <-)|(va & Hva & Hp & <-)]]].
      * left. left. rewrite Hu, elem_of_app. by right.
      * by left; right; left.
      * left. destruct (Htb i Hi Hp) as [[Hp0 ->]|Hf]; [|by left]. right. right. left. by exists i.
      * destruct (decide (a ≤ va < a + m * PGSIZE)) as [Hd|Hd].
        -- right. destruct (Hin va Hva Hd) as (? & _ & E). unfold frame. by rewrite E.
        -- left. right. right. right. exists va. unfold frame. rewrite (Hout va Hva Hd) in *. done.
    + intros [[Hb|[->|[(i & Hi & Hp & <-)|(va & Hva & Hp & <-)]]]|[-> ->]].
      * destruct (Hus b Hb) as [?|(i & Hi & Hp & <-)]; [by left|]. right. right. left. by exists i.
      * by right; left.
      * right. right. left. exists i. by destruct (Hkp i Hi Hp) as [? ->].
      * right. right. right. exists va. destruct (decide (a ≤ va < a + m * PGSIZE)) as [Hd|Hd].
        -- by destruct (Hin va Hva Hd) as (_ & ? & _).
        -- unfold frame. by rewrite (Hout va Hva Hd).
      * right. right. right. exists a. destruct (Hin a Ha ltac:(unfold PGSIZE; lia)) as (_ & _ & E).
        unfold frame. by rewrite E.
  - intros b Hb. apply Hpg.
    + intros ->. apply Hb. by right; left.
    + intros Hf. apply Hb. by left.
    + intros i Hi Hp ->. apply Hb. right. right. left. by exists i.
Qed.
End user.
