(* ===== verification/VmGrow.v ===== *)
(** * Growing an address space, and writing to it (vm.c: allocuvm, uva2ka, copyout) *)

From S2P Require Import Prelude Words Params Kalloc Vm VmRules VmMap VmUser.

Section grow.
Variable kend : Z.
Hypothesis Hkend : KERNBASE < kend.
Implicit Types (k : kmem) (free : list Z).
Notation page_addr := (page_addr kend).
Notation kmem_ok := (kmem_ok kend).
Notation as_ok := (as_ok kend).
Notation alone := (alone kend).

(** Nothing changed outside the pages from [lo] to [hi]. *)
Definition outside_same k k' (pgdir lo hi : Z) : Prop :=
  ∀ va, is_u32 va → ¬ in_pages lo hi va → entry k' pgdir va = entry k pgdir va ∧
    (va < KERNBASE → present (entry k pgdir va) → km_pages k' !! frame k pgdir va = km_pages k !! frame k pgdir va).

Lemma outside_same_trans k1 k2 k3 pgdir lo hi :
  outside_same k1 k2 pgdir lo hi → outside_same k2 k3 pgdir lo hi → outside_same k1 k3 pgdir lo hi.
Proof.
  intros H1 H2 va Hva Ho. destruct (H1 va Hva Ho) as [E1 M1], (H2 va Hva Ho) as [E2 M2].
  split; [congruence|]. intros Hk Hp. unfold frame in *. rewrite E1 in M2. by rewrite M2, M1.
Qed.

Lemma outside_same_mono k k' pgdir lo lo' hi :
  lo' ≤ lo → outside_same k k' pgdir lo hi → outside_same k k' pgdir lo' hi.
Proof. intros Hle H va Hva Ho. apply H; [done|]. unfold in_pages in *. lia. Qed.

Lemma outside_same_unmapped k free k' free' pgdir lo hi :
  unmapped kend k free k' free' pgdir lo hi → outside_same k k' pgdir lo hi.
Proof.
  intros Hu va Hva Ho. pose proof (um_same _ _ _ _ _ _ _ _ Hu va Hva Ho) as E. split; [done|].
  intros Hk Hp. pose proof (um_mem _ _ _ _ _ _ _ _ Hu va) as M. unfold frame in *. rewrite E in M.
  apply M; [|done]. unfold is_u32 in Hva. lia.
Qed.

(** Freeing a page that is nobody's. *)
Lemma as_free_alone k pgdir free mem :
  as_ok k pgdir free → alone k pgdir free mem →
  as_ok (freed mem k) pgdir (mem :: free) ∧
  (∀ va, entry (freed mem k) pgdir va = entry k pgdir va) ∧
  (∀ b, b ≠ mem → km_pages (freed mem k) !! b = km_pages k !! b).
Proof.
  intros [Hk Hpt Hfr Hinj] [Hm Hmf Hmd Hmt Hmfr].
  assert (Epg : ∀ b, b ≠ mem → km_pages (freed mem k) !! b = km_pages k !! b).
  { intros b Hb. simpl. by rewrite lookup_insert_ne. }
  destruct (pt_dir _ _ _ _ Hpt) as [Hd Hdf].
  assert (Ep : ∀ i, 0 ≤ i < NPDENTRIES → pde_of (freed mem k) pgdir i = pde_of k pgdir i).
  { intros i Hi. apply (pde_of_frame kend); [done|done|by apply Epg]. }
  assert (Ee : ∀ va, entry (freed mem k) pgdir va = entry k pgdir va).
  { intros va. by apply (freed_frame kend k pgdir free). }
  split; [|done]. split.
  - by apply freed_ok.
  - split.
    + split; [done|]. by apply not_elem_of_cons.
    + intros i Hi. unfold tab_of. rewrite Ep by done. intros Hp. destruct (pt_tab _ _ _ _ Hpt i Hi Hp) as (? & ? & ?).
      split_and!; [done| |done]. apply not_elem_of_cons. split; [|done]. intros E. by apply (Hmt i Hi Hp).
    + intros i j Hi Hj Hne. unfold tab_of. rewrite !Ep by done. by apply (pt_inj _ _ _ _ Hpt).
  - intros va Hva. unfold frame. rewrite Ee. intros Hp. destruct (Hfr va Hva Hp) as (? & ? & ? & Ht).
    split_and!; [done| |done|].
    + apply not_elem_of_cons. split; [|done]. intros E. by apply (Hmfr va).
    + intros i Hi. unfold tab_of. rewrite Ep by done. by apply Ht.
  - intros va va' Hva Hva'. unfold frame. rewrite !Ee. by apply Hinj.
Qed.

Lemma alone_unmapped k free k' free' pgdir lo hi mem :
  unmapped kend k free k' free' pgdir lo hi → alone k pgdir free mem → alone k' pgdir free' mem.
Proof.
  intros [O (g & F & X) D G S M] [Hm Hmf Hmd Hmt Hmfr]. split; [done| |done| |].
  - rewrite F. intros [Hin|?]%elem_of_app; [|done]. destruct (X mem Hin) as (va & Hva & Hp & E). by apply (Hmfr va).
  - intros i Hi. unfold tab_of. rewrite D by done. by apply Hmt.
  - intros va Hva Hp. destruct (decide (in_pages lo hi va)) as [Hin|Ho].
    + by destruct (G va (user_u32 va Hva) Hin).
    + unfold frame. rewrite S in * by (done || by apply user_u32). by apply Hmfr.
Qed.

(** What [allocuvm] leaves when it succeeds and when it runs out of memory. *)
Definition grown k k' (pgdir lo hi : Z) : Prop :=
  outside_same k k' pgdir lo hi ∧
  ∀ va, 0 ≤ va < KERNBASE → in_pages lo hi va →
    entry k' pgdir va = pte_of (V2P (frame k' pgdir va)) (Z.lor PTE_W PTE_U) ∧
    km_pages k' !! frame k' pgdir va = Some (replicate npage 0).
Definition undone k k' (pgdir lo hi : Z) : Prop :=
  outside_same k k' pgdir lo hi ∧ ∀ va, is_u32 va → in_pages lo hi va → ¬ present (entry k' pgdir va).

Lemma covered_page a : a mod PGSIZE = 0 → page_of a = a ∧ covered a PGSIZE = 1.
Proof.
  intros Ha. assert (E1 : page_of a = a) by (unfold page_of; lia).
  assert (E2 : page_of (a + PGSIZE - 1) = a) by (apply page_of_same; [done|unfold PGSIZE; lia]).
  unfold covered. rewrite E1, E2. lia.
Qed.

(** Mapping a fresh page at [a]: the call of [mappages] in the loop. *)
Lemma wp_map_fresh k pgdir free mem a perm :
  as_ok k pgdir free → alone k pgdir free mem → a mod PGSIZE = 0 → 0 ≤ a < KERNBASE → 0 ≤ perm < PGSIZE →
  ¬ present (entry k pgdir a) →
  wp (mappages pgdir a PGSIZE (V2P mem) perm) (λ r k', ∃ m free', maps k k' pgdir a (V2P mem) perm m ∧
    as_ok k' pgdir free' ∧ km_pages k' !! mem = km_pages k !! mem ∧ keeps_user k k' pgdir ∧
    (∀ b, usable k' free' pgdir b ↔ usable k free pgdir b ∨ (m = 1 ∧ b = mem)) ∧
    (∀ b, ¬ usable k free pgdir b → km_pages k' !! b = km_pages k !! b) ∧
    ((r = 0 ∧ m = 1) ∨ (r = -1 ∧ m = 0 ∧ free' = [] ∧ alone k' pgdir free' mem))) k.
Proof.
  intros Has Hal Ha Hau Hperm Hna. destruct (covered_page a Ha) as [E1 E2].
  pose proof (al_addr _ _ _ _ _ Hal) as Hm. destruct (V2P_page kend mem Hm) as (_ & Hvm & Hvr).
  eapply wp_mono.
  { apply (mappages_core kend k free pgdir a PGSIZE (V2P mem) perm); try apply Has; try done; try lia;
      rewrite ?E1, ?E2; try (unfold KERNBASE, PHYSTOP, PGSIZE in *; lia).
    intros x Hx. assert (Es : x / PGSIZE = a / PGSIZE) by (apply same_page; [done|unfold PGSIZE in *; lia]).
    rewrite (entry_same_page k pgdir x a); [done| |by apply user_u32|done].
    unfold is_u32, KERNBASE, PGSIZE in *. lia. }
  intros r k' (m & f' & Hg & Hmaps & Hr). rewrite E1 in Hmaps. rewrite E2 in Hr.
  assert (Hm01 : m = 0 ∨ m = 1) by lia.
  destruct (as_grow kend k pgdir free k' f' mem a perm m Has Hal Hg Hmaps Hm01 Hperm Ha Hau Hna) as (? & ? & ? & Hal').
  destruct (grow_usable kend k pgdir free k' f' mem a perm m Has Hm Hg Hmaps Hm01 Hperm Ha Hau Hna) as [Hus Hpg].
  exists m, f'. split_and!; try done. destruct Hr as [[-> ->]|(-> & ? & Ef)]; [by left|right].
  assert (m = 0) as -> by lia. split_and!; [done|done|done|by apply Hal'].
Qed.

(** One turn of the loops that take a page, fill it and map it. *)
Lemma confined_take_map k pgdir mem free next p k' free' m :
  as_ok k pgdir (mem :: free) → kmem_ok (with_freelist next k) free → length p = npage →
  let k1 := put_page mem p (with_freelist next k) in
  (∀ b, usable k' free' pgdir b ↔ usable k1 free pgdir b ∨ (m = 1 ∧ b = mem)) →
  (∀ b, ¬ usable k1 free pgdir b → km_pages k' !! b = km_pages k1 !! b) →
  (∀ b, usable k (mem :: free) pgdir b ↔ usable k' free' pgdir b ∨ b = mem) ∧
  (∀ b, ¬ usable k (mem :: free) pgdir b → km_pages k' !! b = km_pages k !! b).
Proof.
  intros Has Hk Hlen k1 U2 M2. destruct (take_usable kend k pgdir mem free next p Has Hk Hlen) as [U1 M1]. fold k1 in U1, M1.
  split.
  - intros b. rewrite U1, U2. tauto.
  - intros b Hb. rewrite U1 in Hb. rewrite M2, M1; tauto.
Qed.

(** Giving back the page that could not be mapped. *)
Lemma confined_give_back k pgdir free k' free' mem :
  as_ok k' pgdir free' → alone k' pgdir free' mem → usable k free pgdir mem →
  (∀ b, usable k free pgdir b ↔ usable k' free' pgdir b ∨ b = mem) →
  (∀ b, ¬ usable k free pgdir b → km_pages k' !! b = km_pages k !! b) →
  confined k free (freed mem k') (mem :: free') pgdir.
Proof.
  intros Has Hal Hmem U M. destruct (as_free_alone k' pgdir free' mem Has Hal) as (Has2 & E2 & M2).
  assert (Ep : ∀ i, 0 ≤ i < NPDENTRIES → pde_of (freed mem k') pgdir i = pde_of k' pgdir i).
  { intros i Hi. apply (pde_of_frame kend); [apply Has2|done|apply M2; by apply not_eq_sym, Hal]. }
  split.
  - intros b. rewrite U. unfold usable, owned, frame. setoid_rewrite E2. rewrite elem_of_cons.
    assert (Ht : (∃ i, 0 ≤ i < NPDENTRIES ∧ present (pde_of (freed mem k') pgdir i) ∧ tab_of (freed mem k') pgdir i = b) ↔
                 ∃ i, 0 ≤ i < NPDENTRIES ∧ present (pde_of k' pgdir i) ∧ tab_of k' pgdir i = b).
    { unfold tab_of. split; intros (i & Hi & Hp & E); exists i; [rewrite Ep in Hp, E by done|rewrite Ep by done]; done. }
    rewrite Ht. tauto.
  - intros b Hb. rewrite M2; [by apply M|]. intros ->. by apply Hb.
Qed.

Lemma in_pages_first a hi : a mod PGSIZE = 0 → a < hi → ∀ va, a ≤ va < a + PGSIZE → in_pages a hi va.
Proof. intros Ha Hlt va Hva. split; [lia|]. by rewrite (page_of_same a). Qed.

Lemma in_pages_rest a hi va : a mod PGSIZE = 0 → in_pages a hi va → ¬ (a ≤ va < a + PGSIZE) → in_pages (a + PGSIZE) hi va.
Proof. intros Ha [H1 H2] Hn. split; [lia|done]. Qed.

(** After [kalloc], [memset] and [mappages] nothing changed outside the new page. *)
Lemma outside_same_fresh k k1 k2 pgdir a hi pa perm m :
  a mod PGSIZE = 0 → a < hi → m = 0 ∨ m = 1 →
  keeps_user k k1 pgdir → keeps_user k1 k2 pgdir → (∀ va, entry k1 pgdir va = entry k pgdir va) →
  maps k1 k2 pgdir a pa perm m → outside_same k k2 pgdir a hi.
Proof.
  intros Ha Hlt Hm K1 K2 E1 Hmaps va Hva Ho. split.
  - rewrite Hmaps, E1 by done. rewrite decide_False; [done|]. intros Hin. apply Ho.
    apply in_pages_first; [done|done|]. unfold PGSIZE in *. lia.
  - intros Hk Hp. apply (keeps_user_trans k k1 k2 pgdir K1 K2 va); [unfold is_u32 in Hva; lia|done].
Qed.

Lemma undone_prefix k1 k2 k3 pgdir a lo hi :
  lo ≤ a → outside_same k1 k2 pgdir a hi → undone k2 k3 pgdir lo hi → undone k1 k3 pgdir lo hi.
Proof.
  intros Hle H12 [H23 Hno]. split; [|done].
  eapply outside_same_trans; [|exact H23]. by apply (outside_same_mono k1 k2 pgdir a).
Qed.

Lemma undone_unmapped k free k' free' pgdir lo hi :
  unmapped kend k free k' free' pgdir lo hi → undone k k' pgdir lo hi.
Proof. intros Hu. split; [by eapply outside_same_unmapped|apply Hu]. Qed.

(** One more page at the front of a grown range. *)
Lemma grown_cons k k1 k2 pgdir a hi mem :
  a mod PGSIZE = 0 → 0 ≤ a → a < hi → hi < KERNBASE → page_addr mem →
  outside_same k k1 pgdir a hi →
  (∀ va, is_u32 va → a ≤ va < a + PGSIZE → entry k1 pgdir va = pte_of (V2P mem) (Z.lor PTE_W PTE_U)) →
  km_pages k1 !! mem = Some (replicate npage 0) →
  grown k1 k2 pgdir (a + PGSIZE) hi → grown k k2 pgdir a hi.
Proof.
  intros Ha Ha0 Hlt Hhi Hm Hos Hent Hz [Hos2 Hg]. split.
  - eapply outside_same_trans; [exact Hos|]. apply (outside_same_mono k1 k2 pgdir (a + PGSIZE)); [unfold PGSIZE; lia|done].
  - intros va Hva Hin. destruct (decide (a ≤ va < a + PGSIZE)) as [Hd|Hd].
    2:{ apply Hg; [done|by apply in_pages_rest]. }
    destruct (Hos2 va (user_u32 va Hva)) as [E2 M2]; [unfold in_pages; lia|].
    destruct (frame_pte kend mem (Z.lor PTE_W PTE_U) Hm ltac:(done)) as [Efr Hpp].
    pose proof (Hent va (user_u32 va Hva) Hd) as E1.
    assert (Ef1 : frame k1 pgdir va = mem) by (unfold frame; by rewrite E1).
    assert (Ef2 : frame k2 pgdir va = mem) by (unfold frame; by rewrite E2, E1).
    rewrite Ef2, E2, E1. split; [done|]. rewrite Ef1 in M2. rewrite M2; [done|lia|by rewrite E1].
Qed.

Lemma wp_allocuvm_from fuel k free pgdir oldsz newsz a :
  as_ok k pgdir free → a mod PGSIZE = 0 → 0 ≤ oldsz ≤ newsz → PGROUNDUP oldsz ≤ a → newsz < KERNBASE →
  (0 < fuel)%nat → newsz ≤ a + (Z.of_nat fuel - 1) * PGSIZE →
  (∀ va, is_u32 va → in_pages a newsz va → ¬ present (entry k pgdir va)) →
  wp (allocuvm_from kend fuel pgdir oldsz newsz a) (λ r k', ∃ free', as_ok k' pgdir free' ∧
    confined k free k' free' pgdir ∧
    ((r = newsz ∧ grown k k' pgdir a newsz) ∨ (r = 0 ∧ undone k k' pgdir (PGROUNDUP oldsz) newsz))) k.
Proof.
  revert k free a. induction fuel as [|f IH]; intros k free a Has Ha Hold Hao Hnew Hf Hlen Hno; [lia|].
  cbn [allocuvm_from]. destruct (a <? newsz) eqn:E; bool_props.
  2:{ wp_step. exists free. split; [done|]. split; [done|]. left. split; [done|]. split.
      - by intros va Hva _.
      - intros va Hva [H1 H2]. exfalso. pose proof (Z.div_mod va PGSIZE ltac:(done)).
        pose proof (Z.mod_pos_bound va PGSIZE ltac:(done)). pose proof (Z.div_mod a PGSIZE ltac:(done)).
        rewrite page_of_div in H2. unfold PGSIZE in *. lia. }
  destruct (PGROUNDUP_bounds oldsz ltac:(lia)) as (_ & Hup & _).
  wp_step. apply (wp_kalloc kend k free); [apply Has|]. destruct free as [|mem free].
  { change (0 =? 0) with true. cbn match. wp_step. eapply wp_mono; [apply (wp_deallocuvm kend Hkend k [] pgdir newsz oldsz Has); lia|].
    intros _ k' (_ & f' & Hu). wp_step. exists f'. split; [apply Hu|]. split; [by eapply unmapped_confined|].
    right. split; [done|]. by eapply undone_unmapped. }
  intros next Hk1. pose proof (ko_addr _ _ _ (ao_kmem _ _ _ _ Has)) as Haddr. inversion Haddr as [|? ? Hm _]; subst.
  pose proof (page_addr_pos kend mem Hm). rewrite (proj2 (Z.eqb_neq mem 0)) by lia.
  wp_step. apply wp_store_page; [by apply (ko_all _ _ _ Hk1)|]. fold (put_page mem (replicate npage 0) (with_freelist next k)).
  destruct (as_take kend k pgdir mem free next (replicate npage 0) Has Hk1 (length_replicate _ _)) as (Has1 & Hal & Hku1 & Ee1).
  set (k1 := put_page mem _ _) in *. assert (Hau : 0 ≤ a < KERNBASE) by lia.
  wp_step. eapply wp_mono.
  { apply (wp_map_fresh k1 pgdir free mem a (Z.lor PTE_W PTE_U)); try done.
    rewrite Ee1. apply Hno; [by apply user_u32|]. apply in_pages_first; [done|done|unfold PGSIZE; lia]. }
  intros r k2 (m & f2 & Hmaps & Has2 & Hz & Hku2 & Hus2 & Hpg2 & Hr).
  destruct (confined_take_map k pgdir mem free next _ k2 f2 m Has Hk1 (length_replicate _ _) Hus2 Hpg2) as [Hus Hpg].
  assert (Hos : outside_same k k2 pgdir a newsz) by (apply (outside_same_fresh k k1 k2 pgdir a newsz (V2P mem) (Z.lor PTE_W PTE_U) m); (done || lia)).
  assert (Hmem : usable k (mem :: free) pgdir mem) by (left; apply elem_of_cons; by left).
  destruct Hr as [[-> ->]|(-> & -> & _ & Hal2)].
  - assert (Hc : confined k (mem :: free) k2 f2 pgdir).
    { split; [|done]. intros b. rewrite Hus. rewrite Hus2. naive_solver. }
    change (0 <? 0) with false. rewrite u32_id by (unfold is_u32, KERNBASE, PGSIZE in *; lia).
    eapply wp_mono.
    { apply (IH k2 f2 (a + PGSIZE)); try done; try (unfold PGSIZE in *; lia).
      - rewrite <- Z.add_mod_idemp_l, Ha; done.
      - intros va Hva Hin. rewrite Hmaps, decide_False, Ee1 by (done || unfold in_pages, PGSIZE in *; lia).
        apply Hno; [done|]. unfold in_pages, PGSIZE in *. lia. }
    intros r k3 (f3 & Has3 & Hc3 & Hr). exists f3. split; [done|]. split; [by eapply confined_trans|]. destruct Hr as [[-> Hg]|[-> Hu]]; [left|right]; (split; [done|]).
    + apply (grown_cons k k2 k3 pgdir a newsz mem); try done; try lia.
      * intros va Hva Hin. rewrite Hmaps, decide_True by (done || unfold PGSIZE in *; lia).
        rewrite (page_of_same a) by done. f_equal. lia.
      * rewrite Hz. unfold k1, put_page. cbn [km_pages with_pages]. by rewrite lookup_insert_eq.
    + by apply (undone_prefix k k2 k3 pgdir a).
  - change (-1 <? 0) with true. cbn match. wp_step.
    eapply wp_mono; [apply (wp_deallocuvm kend Hkend k2 f2 pgdir newsz oldsz Has2); lia|].
    intros _ k3 (_ & f3 & Hu). pose proof (alone_unmapped _ _ _ _ _ _ _ _ Hu Hal2) as Hal3.
    pose proof (um_ok _ _ _ _ _ _ _ _ Hu) as Has3. wp_step.
    apply (wp_kfree kend mem k3); [lia|done|apply Has3|by apply (ko_all _ _ _ (ao_kmem _ _ _ _ Has3))|].
    destruct (as_free_alone k3 pgdir f3 mem Has3 Hal3) as (Has4 & E4 & M4). wp_step.
    exists (mem :: f3). split; [done|]. split.
    { pose proof (unmapped_confined _ _ _ _ _ _ _ _ Hu) as [U3 M3].
      apply (confined_give_back k pgdir (mem :: free) k3 f3 mem); try done.
      - intros b. by rewrite U3.
      - intros b Hb. rewrite M3; [by apply Hpg|]. rewrite Hus in Hb. tauto. }
    right. split; [done|]. apply (undone_prefix k k2 _ pgdir a); [done|done|].
    destruct (undone_unmapped _ _ _ _ _ _ _ Hu) as [Hos3 Hno3]. split.
    + intros va Hva Ho. rewrite E4. destruct (Hos3 va Hva Ho) as [E3 M3]. split; [done|]. intros Hk Hp. rewrite M4.
      * by apply M3.
      * intros Ex. apply (al_frame _ _ _ _ _ Hal2 va); [unfold is_u32 in Hva; lia|done|done].
    + intros va Hva Hin. rewrite E4. by apply Hno3.
Qed.

(** C9: [allocuvm] grows an address space.  It refuses a size that reaches the
    kernel (0) and leaves a smaller size alone (the old size).  Otherwise either
    it returns the new size with every page of the new range mapped writable for
    the user to a page of zeroes of its own, or it runs out of memory, returns 0
    and has given back every page it had mapped in the range.  In each case all
    entries outside the range, and the memory behind them, are unchanged, no
    page is lost or taken from elsewhere (the free pages and the pages of the
    address space are together what they were), and nothing else is written. *)
Theorem allocuvm_correct k free pgdir oldsz newsz :
  as_ok k pgdir free → 0 ≤ oldsz < 2 ^ 32 → 0 ≤ newsz < 2 ^ 32 →
  (∀ va, is_u32 va → in_pages (PGROUNDUP oldsz) newsz va → ¬ present (entry k pgdir va)) →
  wp (allocuvm kend pgdir oldsz newsz) (λ r k', ∃ free', as_ok k' pgdir free' ∧
    confined k free k' free' pgdir ∧
    if decide (KERNBASE ≤ newsz) then r = 0 ∧ k' = k
    else if decide (newsz < oldsz) then r = oldsz ∧ k' = k
    else (r = newsz ∧ grown k k' pgdir (PGROUNDUP oldsz) newsz) ∨
         (r = 0 ∧ undone k k' pgdir (PGROUNDUP oldsz) newsz)) k.
Proof.
  intros Has Ho Hn Hno. unfold allocuvm. destruct (KERNBASE <=? newsz) eqn:E1; bool_props.
  { wp_step. exists free. rewrite decide_True by lia. done. }
  destruct (newsz <? oldsz) eqn:E2; bool_props.
  { wp_step. exists free. rewrite decide_False, decide_True by lia. done. }
  destruct (PGROUNDUP_bounds oldsz ltac:(lia)) as (Hm & Hb & _).
  pose proof (Z.div_mod newsz PGSIZE ltac:(done)). pose proof (Z.mod_pos_bound newsz PGSIZE ltac:(done)).
  eapply wp_mono; [apply (wp_allocuvm_from _ k free); try done; try (unfold PGSIZE in *; lia)|].
  intros r k' (f' & Hf' & Hc & Hr). exists f'. rewrite !decide_False by lia. done.
Qed.

(** [deallocuvm] shrinks an address space: it returns the new size with no
    page of the range left mapped, each frame that was mapped there is back on
    the free list, and everything below the new size is unchanged; when the new
    size is not smaller it returns the old size and does nothing. *)
Theorem deallocuvm_correct k free pgdir oldsz newsz :
  as_ok k pgdir free → 0 ≤ newsz → 0 ≤ oldsz ≤ KERNBASE →
  wp (deallocuvm kend pgdir oldsz newsz) (λ r k',
    if decide (newsz < oldsz)
    then r = newsz ∧ ∃ free', unmapped kend k free k' free' pgdir (PGROUNDUP newsz) oldsz
    else r = oldsz ∧ k' = k) k.
Proof.
  intros Has Hn Ho. case_decide; [apply wp_deallocuvm; (done || lia)|].
  unfold deallocuvm. rewrite (proj2 (Z.leb_le _ _)) by lia. by wp_step.
Qed.

(** ** Writing to user memory *)

Definition user_pte (w : Z) : Prop := present w ∧ Z.land w PTE_U ≠ 0.
#[global] Instance user_pte_dec w : Decision (user_pte w).
Proof. unfold user_pte. apply _. Defined.

(** The byte user code finds at [va]. *)
Definition ubyte k (pgdir va : Z) : option Z :=
  if decide (user_pte (entry k pgdir va))
  then match km_pages k !! frame k pgdir va with Some p => p !! Z.to_nat (va mod PGSIZE) | None => None end
  else None.

Lemma wp_uva2ka k free pgdir va (Q : Z → kmem → Prop) :
  as_ok k pgdir free → present (pde_of k pgdir (PDX va)) →
  Q (if decide (user_pte (entry k pgdir va)) then frame k pgdir va else 0) k → wp (uva2ka pgdir va) Q k.
Proof.
  intros Has Hpd HQ. destruct (pt_tab _ _ _ _ (ao_pt _ _ _ _ Has) _ (PDX_range va) Hpd) as (Hta & _ & _).
  unfold uva2ka. wp_step. apply (wp_walk_false kend k free); [apply Has|apply Has|]. rewrite decide_True by done.
  wp_step. unfold pte_addr. apply (wp_load kend k free); [apply Has|done|apply PTX_range|]. rewrite entry_word by done.
  destruct (decide (user_pte (entry k pgdir va))) as [[Hp Hu]|Hn].
  - rewrite (proj2 (Z.eqb_neq _ 0) Hp), (proj2 (Z.eqb_neq _ 0) Hu). by wp_step.
  - destruct (Z.land (entry k pgdir va) PTE_P =? 0) eqn:E1; [by wp_step|].
    destruct (Z.land (entry k pgdir va) PTE_U =? 0) eqn:E2; [by wp_step|]. by bool_props; destruct Hn.
Qed.

(** Overwriting a user page. *)
Lemma as_write k free pgdir va p :
  as_ok k pgdir free → 0 ≤ va < KERNBASE → present (entry k pgdir va) → length p = npage →
  let k' := put_page (frame k pgdir va) p k in
  as_ok k' pgdir free ∧ (∀ va', entry k' pgdir va' = entry k pgdir va') ∧
  (∀ i, 0 ≤ i < NPDENTRIES → pde_of k' pgdir i = pde_of k pgdir i) ∧
  ∀ va', 0 ≤ va' < KERNBASE → ubyte k' pgdir va' =
    if decide (va' / PGSIZE = va / PGSIZE ∧ user_pte (entry k pgdir va)) then p !! Z.to_nat (va' mod PGSIZE)
    else ubyte k pgdir va'.
Proof.
  intros [Hk Hpt Hfr Hinj] Hva Hp Hlen k'. destruct (Hfr va Hva Hp) as (Hf & Hff & Hfd & Hft).
  assert (Epg : ∀ b, b ≠ frame k pgdir va → km_pages k' !! b = km_pages k !! b).
  { intros b Hb. unfold k', put_page. cbn [km_pages with_pages]. by rewrite lookup_insert_ne. }
  destruct (pt_dir _ _ _ _ Hpt) as [Hd Hdf].
  assert (Ep : ∀ i, 0 ≤ i < NPDENTRIES → pde_of k' pgdir i = pde_of k pgdir i).
  { intros i Hi. apply (pde_of_frame kend); [done|done|by apply Epg]. }
  assert (Ee : ∀ va', entry k' pgdir va' = entry k pgdir va').
  { intros va'. apply (entry_frame kend k k' pgdir free); [done|by apply Epg|].
    intros i Hi Hpi. apply Epg. intros E. by apply (Hft i Hi Hpi). }
  split; [|split; [done|split; [done|]]].
  - split.
    + by apply put_page_ok.
    + apply (pt_ok_frame kend k k' pgdir free); [done|by apply Epg|done].
    + intros va' Hva'. unfold frame, tab_of. rewrite Ee. intros Hp'. destruct (Hfr va' Hva' Hp') as (? & ? & ? & Ht).
      split_and!; try done. intros i Hi. rewrite Ep by done. by apply Ht.
    + intros va1 va2 H1 H2. unfold frame. rewrite !Ee. by apply Hinj.
  - intros va' Hva'. unfold ubyte. unfold frame. rewrite Ee. fold (frame k pgdir va').
    destruct (decide (va' / PGSIZE = va / PGSIZE)) as [Es|Es].
    + rewrite (entry_same_page k pgdir va' va) by (done || by apply user_u32).
      assert (Efr : frame k pgdir va' = frame k pgdir va).
      { unfold frame. by rewrite (entry_same_page k pgdir va' va) by (done || by apply user_u32). }
      destruct (decide (user_pte (entry k pgdir va))) as [Hu|Hu].
      * rewrite decide_True by done. rewrite Efr. unfold k', put_page. cbn [km_pages with_pages].
        by rewrite lookup_insert_eq.
      * rewrite decide_False by naive_solver. done.
    + rewrite (decide_False (P := _ ∧ _)) by naive_solver.
      destruct (decide (user_pte (entry k pgdir va'))) as [Hu|Hu]; [|done].
      rewrite Epg; [done|]. apply Hinj; try done. apply Hu.
Qed.

Lemma ubyte_frame k free pgdir va :
  as_ok k pgdir free → 0 ≤ va < KERNBASE → user_pte (entry k pgdir va) →
  ubyte k pgdir va = page_at k (frame k pgdir va) !! Z.to_nat (va mod PGSIZE) ∧
  length (page_at k (frame k pgdir va)) = npage ∧
  km_pages k !! frame k pgdir va = Some (page_at k (frame k pgdir va)).
Proof.
  intros Has Hva Hu. destruct (ao_frame _ _ _ _ Has va Hva (proj1 Hu)) as (Hf & _).
  destruct (page_lookup kend k free _ (ao_kmem _ _ _ _ Has) Hf) as [E Hl].
  unfold ubyte. rewrite decide_True by done. by rewrite E.
Qed.

Lemma confined_write k free pgdir va p :
  as_ok k pgdir free → 0 ≤ va < KERNBASE → present (entry k pgdir va) → length p = npage →
  confined k free (put_page (frame k pgdir va) p k) free pgdir.
Proof.
  intros Has Hva Hp Hlen. destruct (as_write k free pgdir va p Has Hva Hp Hlen) as (_ & Ee & Ep & _). split.
  - intros b. unfold usable, owned, frame, tab_of. setoid_rewrite Ee.
    split; (intros [?|[?|[(i & Hi & H)|?]]]; [by left|by right; left| |by right; right; right]);
      right; right; left; exists i; (rewrite Ep in * by done); done.
  - intros b Hb. unfold put_page. cbn [km_pages with_pages]. rewrite lookup_insert_ne; [done|]. intros <-.
    apply Hb. right. right. right. by exists va.
Qed.

(** Writing [n] bytes of [buf] into the page of [va]. *)
Definition written_page k pgdir va buf (n : Z) : page :=
  splice (Z.to_nat (va mod PGSIZE)) (take (Z.to_nat n) buf) (page_at k (frame k pgdir va)).

Lemma write_user k free pgdir va buf n :
  as_ok k pgdir free → 0 ≤ va < KERNBASE → user_pte (entry k pgdir va) →
  0 < n ≤ PGSIZE - va mod PGSIZE → n ≤ Z.of_nat (length buf) →
  let k' := put_page (frame k pgdir va) (written_page k pgdir va buf n) k in
  as_ok k' pgdir free ∧ (∀ x, entry k' pgdir x = entry k pgdir x) ∧ confined k free k' free pgdir ∧
  ∀ x, 0 ≤ x < KERNBASE → ubyte k' pgdir x =
    if decide (va ≤ x < va + n) then buf !! Z.to_nat (x - va) else ubyte k pgdir x.
Proof.
  intros Has Hva Hu Hn Hb k'. destruct (ubyte_frame k free pgdir va Has Hva Hu) as (_ & Hl & _).
  assert (Hoff : 0 ≤ va mod PGSIZE < PGSIZE) by (by apply Z.mod_pos_bound).
  assert (Htl : length (take (Z.to_nat n) buf) = Z.to_nat n) by (rewrite length_take; lia).
  assert (Hl' : length (written_page k pgdir va buf n) = npage).
  { unfold written_page. rewrite length_splice; [done|]. rewrite Htl, Hl. unfold npage, PGSIZE in *. lia. }
  destruct (as_write k free pgdir va _ Has Hva (proj1 Hu) Hl') as (Has1 & Ee1 & _ & Hb1). fold k' in Has1, Ee1, Hb1.
  split; [done|split; [done|split; [by apply confined_write; [| |apply Hu|]|]]]. intros x Hx. rewrite Hb1 by done.
  pose proof (Z.div_mod va PGSIZE ltac:(done)) as Hvd. pose proof (Z.div_mod x PGSIZE ltac:(done)) as Hxd.
  pose proof (Z.mod_pos_bound x PGSIZE ltac:(done)).
  destruct (decide (x / PGSIZE = va / PGSIZE)) as [Ex|Ex].
  - rewrite decide_True by done. rewrite Ex in Hxd. unfold written_page. case_decide as Hd.
    + rewrite lookup_splice_in by (rewrite ?Htl, ?Hl; unfold npage, PGSIZE in *; lia).
      rewrite lookup_take_lt by lia. f_equal. lia.
    + rewrite lookup_splice_out by (rewrite ?Htl, ?Hl; unfold npage, PGSIZE in *; lia).
      assert (Een : entry k pgdir x = entry k pgdir va) by (apply entry_same_page; [by apply user_u32..|done]).
      destruct (ubyte_frame k free pgdir x Has Hx ltac:(by rewrite Een)) as (-> & _).
      unfold frame. by rewrite Een.
  - rewrite decide_False by naive_solver. rewrite decide_False; [done|]. intros Hd. apply Ex.
    symmetry. apply Z.div_unique with (va mod PGSIZE + (x - va)); unfold PGSIZE in *; lia.
Qed.

Lemma wp_copyout_from fuel k free pgdir va buf len :
  as_ok k pgdir free → 0 ≤ va → va + len ≤ KERNBASE → len = Z.of_nat (length buf) →
  (0 < fuel)%nat → (0 < len → va mod PGSIZE + len ≤ (Z.of_nat fuel - 1) * PGSIZE) →
  (∀ x, va ≤ x < va + len → user_pte (entry k pgdir x)) →
  wp (copyout_from fuel pgdir va buf len) (λ r k', r = 0 ∧ as_ok k' pgdir free ∧ confined k free k' free pgdir ∧
    (∀ x, entry k' pgdir x = entry k pgdir x) ∧
    ∀ x, 0 ≤ x < KERNBASE → ubyte k' pgdir x =
      if decide (va ≤ x < va + len) then buf !! Z.to_nat (x - va) else ubyte k pgdir x) k.
Proof.
  revert k va buf len. induction fuel as [|f IH]; intros k va buf len Has Hva Hend Hlen Hf Hm Huser; [lia|].
  cbn [copyout_from]. destruct (0 <? len) eqn:E; bool_props.
  2:{ wp_step. split; [done|]. split; [done|]. split; [apply confined_refl|]. split; [done|].
      intros x Hx. by rewrite decide_False by lia. }
  rewrite PGROUNDDOWN_eq. fold (page_of va). set (off := va mod PGSIZE) in *.
  assert (Ev : page_of va = va - off) by done.
  assert (Hoff : 0 ≤ off < PGSIZE) by (by apply Z.mod_pos_bound).
  assert (Hv0 : 0 ≤ page_of va) by (rewrite page_of_div; pose proof (Z.div_pos va PGSIZE Hva ltac:(done)); unfold PGSIZE in *; lia).
  assert (Hvk : 0 ≤ va < KERNBASE) by lia.
  assert (Een : entry k pgdir (page_of va) = entry k pgdir va).
  { apply entry_same_page; [apply user_u32; lia|by apply user_u32|rewrite page_of_div; by apply Z.div_mul]. }
  assert (Hu : user_pte (entry k pgdir va)) by (apply Huser; lia).
  wp_step. apply (wp_uva2ka k free); [done|apply entry_present; rewrite Een; apply Hu|].
  unfold frame. rewrite Een, decide_True by done. fold (frame k pgdir va).
  destruct (ao_frame _ _ _ _ Has va Hvk (proj1 Hu)) as (Hfa & _).
  destruct (ubyte_frame k free pgdir va Has Hvk Hu) as (_ & Hl & Epg).
  pose proof (page_addr_pos kend _ Hfa). rewrite (proj2 (Z.eqb_neq _ 0)) by lia.
  replace (va - page_of va) with off by lia. set (n := Z.min (PGSIZE - off) len).
  assert (Hn : 0 < n ≤ len ∧ n ≤ PGSIZE - off) by (unfold n; lia).
  wp_step. apply (wp_load_page _ (page_at k (frame k pgdir va))); [done|].
  wp_step. apply wp_store_page; [by eexists|]. fold (written_page k pgdir va buf n).
  fold (put_page (frame k pgdir va) (written_page k pgdir va buf n) k).
  destruct (write_user k free pgdir va buf n Has Hvk Hu ltac:(fold off; lia) ltac:(lia)) as (Has1 & Ee1 & Hcf1 & Hb1).
  set (k1 := put_page _ _ k) in *.
  assert (Hpe : page_of va + PGSIZE ≤ KERNBASE).
  { pose proof (Z.div_mod (page_of va) PGSIZE ltac:(done)) as Hd. rewrite page_of_mod in Hd.
    unfold KERNBASE, PGSIZE in *. lia. }
  destruct (decide (len = n)) as [El|El].
  - eapply wp_mono; [apply (IH k1 (u32 (page_of va + PGSIZE)) (drop (Z.to_nat n) buf) (len - n))|].
    all: rewrite ?length_drop, ?El, ?Z.sub_diag; try done; try (unfold PGSIZE in *; lia).
    + apply u32_range.
    + rewrite u32_id; unfold is_u32, KERNBASE, PGSIZE in *; lia.
    + intros r k2 (-> & Has2 & Hcf2 & Ee2 & Hb2).
      split; [done|]. split; [done|]. split; [by eapply confined_trans|]. split; [by intros; rewrite Ee2|].
      intros x Hx. rewrite Hb2 by done. rewrite decide_False by lia. by apply Hb1.
  - assert (Hnv : page_of va + PGSIZE = va + n) by (unfold n in *; lia).
    rewrite Hnv, u32_id by (unfold is_u32, KERNBASE in *; lia).
    assert (Hmod : (va + n) mod PGSIZE = 0).
    { rewrite <- Hnv, <- Z.add_mod_idemp_l, page_of_mod; done. }
    eapply wp_mono; [apply (IH k1 (va + n) (drop (Z.to_nat n) buf) (len - n))|].
    all: rewrite ?length_drop, ?Hmod; try done; try (unfold PGSIZE in *; lia).
    + intros x Hx. rewrite Ee1. apply Huser. lia.
    + intros r k2 (-> & Has2 & Hcf2 & Ee2 & Hb2).
      split; [done|]. split; [done|]. split; [by eapply confined_trans|]. split; [by intros; rewrite Ee2, Ee1|].
      intros x Hx. rewrite Hb2, Hb1 by done. repeat case_decide; try done; try lia.
      rewrite lookup_drop. f_equal. lia.
Qed.

(** [copyout] writes exactly the bytes it is given where user code will find
    them, whatever pages the range spans: it returns 0, user memory reads as the
    buffer on the range and as before everywhere else, no mapping changes, and no
    page outside the address space is written. *)
Theorem copyout_correct k free pgdir va buf :
  as_ok k pgdir free → 0 ≤ va → va + Z.of_nat (length buf) ≤ KERNBASE →
  (∀ x, va ≤ x < va + Z.of_nat (length buf) → user_pte (entry k pgdir x)) →
  wp (copyout pgdir va buf (Z.of_nat (length buf))) (λ r k', r = 0 ∧ as_ok k' pgdir free ∧ confined k free k' free pgdir ∧
    (∀ x, entry k' pgdir x = entry k pgdir x) ∧
    ∀ x, 0 ≤ x < KERNBASE → ubyte k' pgdir x =
      if decide (va ≤ x < va + Z.of_nat (length buf)) then buf !! Z.to_nat (x - va) else ubyte k pgdir x) k.
Proof.
  intros Has Hva Hend Hu. set (len := Z.of_nat (length buf)) in *.
  pose proof (Z.div_mod len PGSIZE ltac:(done)). pose proof (Z.mod_pos_bound len PGSIZE ltac:(done)).
  pose proof (Z.mod_pos_bound va PGSIZE ltac:(done)).
  apply wp_copyout_from; try done; unfold PGSIZE in *; lia.
Qed.
End grow.

(** ** Witnesses: a machine with four pages of memory left for the allocator *)

Definition spage (i : Z) : Z := KERNBASE + PHYSTOP - 16384 + PGSIZE * i.
Definition sfree : list Z := [spage 1; spage 2; spage 3].
Definition sboot : kmem := kmem_at (pages_at [spage 0; spage 1; spage 2; spage 3]).
Definition smem : kmem :=
  put_page (spage 0) (replicate npage 0) (freed (spage 1) (freed (spage 2) (freed (spage 3) sboot))).

Lemma spage_addr a : page_addr (spage 0) a ↔ a ∈ [spage 0; spage 1; spage 2; spage 3].
Proof.
  unfold page_addr, spage, KERNBASE, PHYSTOP, PGSIZE. rewrite !elem_of_cons, elem_of_nil. split.
  - intros (Hm & H1 & H2). pose proof (Z.div_mod a 4096 ltac:(done)). lia.
  - intros [->|[->|[->|[->|[]]]]]; (split; [done|lia]).
Qed.

Lemma sboot_ok : kmem_ok (spage 0) sboot [].
Proof.
  split; [done|done|by constructor|by constructor|apply pages_at_len|].
  intros a Ha. apply pages_at_in; [|by apply spage_addr].
  repeat constructor; rewrite ?not_elem_of_cons, ?elem_of_nil; unfold spage, PGSIZE; lia.
Qed.

Lemma smem_kmem_ok : kmem_ok (spage 0) smem sfree.
Proof.
  apply put_page_ok; [|unfold sfree; rewrite !not_elem_of_cons, elem_of_nil; unfold spage, PGSIZE; lia|apply length_replicate].
  repeat apply freed_ok; try apply sboot_ok; try (apply spage_addr; set_solver);
    rewrite ?not_elem_of_cons, ?elem_of_nil; unfold spage, PGSIZE; lia.
Qed.

Lemma smem_pde i : 0 ≤ i < 1024 → pde_of smem (spage 0) i = 0.
Proof.
  intros Hi. unfold pde_of, smem. generalize (freed (spage 1) (freed (spage 2) (freed (spage 3) sboot))). intros k.
  rewrite word_put_page by done. rewrite decide_True by done. by apply get_zero_page.
Qed.

Lemma smem_entry va : entry smem (spage 0) va = 0.
Proof.
  pose proof (smem_pde (PDX va) (PDX_range va)) as E. revert E. generalize smem. intros k E.
  apply entry_absent. rewrite E. apply absent_0.
Qed.

Lemma smem_ok : as_ok (spage 0) smem (spage 0) sfree.
Proof.
  split.
  - apply smem_kmem_ok.
  - split.
    + split; [apply spage_addr; by left|]. unfold sfree. rewrite !not_elem_of_cons, elem_of_nil. unfold spage, PGSIZE. lia.
    + intros i Hi. rewrite smem_pde by done. by intros ?%absent_0.
    + intros i j Hi Hj _. rewrite smem_pde by done. by intros ?%absent_0.
  - intros va _. rewrite smem_entry. by intros ?%absent_0.
  - intros va va' _ _. rewrite smem_entry. by intros ?%absent_0.
Qed.

Lemma skend : KERNBASE < spage 0.
Proof. unfold spage, PHYSTOP, PGSIZE. lia. Qed.

Lemma allocuvm_correct_witness :
  wp (allocuvm (spage 0) (spage 0) 0 100) (λ r k', ∃ free', as_ok (spage 0) k' (spage 0) free' ∧
    confined smem sfree k' free' (spage 0) ∧
    if decide (KERNBASE ≤ 100) then r = 0 ∧ k' = smem
    else if decide (100 < 0) then r = 0 ∧ k' = smem
    else (r = 100 ∧ grown smem k' (spage 0) (PGROUNDUP 0) 100) ∨
         (r = 0 ∧ undone smem k' (spage 0) (PGROUNDUP 0) 100)) smem.
Proof.
  apply (allocuvm_correct (spage 0) skend smem sfree (spage 0) 0 100 smem_ok); try lia.
  intros va _ _. rewrite smem_entry. apply absent_0.
Defined.

(** The address space after [allocuvm(pgdir, 0, 100)]. *)
Definition suser : kmem := exec (allocuvm_from (spage 0) 3 (spage 0) 0 100 0) smem.

Lemma suser_result :
  match allocuvm_from (spage 0) 3 (spage 0) 0 100 0 smem with Ok r _ => r =? 100 | _ => false end = true.
Proof. vm_compute. reflexivity. Qed.

Lemma suser_grown : ∃ free, as_ok (spage 0) suser (spage 0) free ∧ grown smem suser (spage 0) 0 100.
Proof.
  assert (Hno : ∀ va, is_u32 va → in_pages 0 100 va → ¬ present (entry smem (spage 0) va)).
  { intros va _ _. rewrite smem_entry. apply absent_0. }
  pose proof (wp_allocuvm_from (spage 0) skend 3 smem sfree (spage 0) 0 100 0 smem_ok ltac:(done) ltac:(lia)
    ltac:(change (PGROUNDUP 0) with 0; lia) ltac:(unfold KERNBASE; lia) ltac:(lia) ltac:(unfold PGSIZE; lia) Hno) as Hw.
  unfold suser, exec, wp in *. pose proof suser_result as Hr.
  destruct (allocuvm_from (spage 0) 3 (spage 0) 0 100 0 smem) as [r k'| | |]; try done.
  apply Z.eqb_eq in Hr as ->. destruct Hw as (free' & Has & _ & Hor).
  exists free'. split; [done|]. by destruct Hor as [[_ ?]|[? _]].
Qed.

Lemma suser_user x : 0 ≤ x < 100 → user_pte (entry suser (spage 0) x).
Proof.
  intros Hx. destruct suser_grown as (free & Has & _ & Hg).
  assert (Hp : in_pages 0 100 x).
  { split; [lia|]. rewrite (page_of_same 0); [lia|done|unfold PGSIZE; lia]. }
  destruct (Hg x ltac:(unfold KERNBASE; lia) Hp) as [E _]. rewrite E.
  generalize (V2P (frame suser (spage 0) x)). intros a. unfold user_pte, present, pte_of, PTE_P, PTE_W, PTE_U.
  split; intros Ez; apply Z.bits_inj_iff in Ez; [specialize (Ez 0)|specialize (Ez 2)];
    rewrite Z.land_spec, !Z.lor_spec, Z.bits_0 in Ez; cbn in Ez; rewrite ?orb_true_r in Ez; done.
Qed.

Lemma deallocuvm_correct_witness :
  ∃ free, wp (deallocuvm (spage 0) (spage 0) 100 0) (λ r k',
    if decide (0 < 100)
    then r = 0 ∧ ∃ free', unmapped (spage 0) suser free k' free' (spage 0) (PGROUNDUP 0) 100
    else r = 100 ∧ k' = suser) suser.
Proof.
  destruct suser_grown as (free & Has & _). exists free.
  apply (deallocuvm_correct (spage 0) skend suser free (spage 0) 100 0 Has); unfold KERNBASE; lia.
Defined.

Lemma copyout_correct_witness :
  ∃ free, wp (copyout (spage 0) 10 [104; 105] 2) (λ r k', r = 0 ∧ as_ok (spage 0) k' (spage 0) free ∧
    confined suser free k' free (spage 0) ∧
    (∀ x, entry k' (spage 0) x = entry suser (spage 0) x) ∧
    ∀ x, 0 ≤ x < KERNBASE → ubyte k' (spage 0) x =
      if decide (10 ≤ x < 12) then [104; 105] !! Z.to_nat (x - 10) else ubyte suser (spage 0) x) suser.
Proof.
  destruct suser_grown as (free & Has & _). exists free.
  apply (copyout_correct (spage 0) suser free (spage 0) 10 [104; 105] Has).
  - lia.
  - unfold KERNBASE. simpl. lia.
  - intros x Hx. apply suser_user. simpl in Hx. lia.
Defined.
