(* ===== verification/VmFork.v ===== *)
(** * Whole address spaces (vm.c: freevm, setupkvm, copyuvm)

    An address space works within its own pages and the free ones
    ([confined]), so whatever is done to one leaves every other untouched.  On
    this rest the three operations on whole address spaces: building the
    kernel's part, giving everything back, and copying a parent for its child. *)

From S2P Require Import Prelude Words Params Kalloc Vm VmRules VmMap VmUser VmGrow.

Section fork.
Variable kend : Z.
Hypothesis Hkend : KERNBASE < kend.
Implicit Types (k : kmem) (free : list Z).
Notation page_addr := (page_addr kend).
Notation kmem_ok := (kmem_ok kend).
Notation pt_ok := (pt_ok kend).
Notation as_ok := (as_ok kend).
Notation tables_grew := (tables_grew kend).

(** ** Isolation *)

Lemma owned_not_free k pgdir free b : as_ok k pgdir free → owned k pgdir b → page_addr b ∧ b ∉ free.
Proof.
  intros [Hk Hpt Hfr _] [->|[(i & Hi & Hp & <-)|(va & Hva & Hp & <-)]].
  - apply Hpt.
  - by destruct (pt_tab _ _ _ _ Hpt i Hi Hp) as (? & ? & _).
  - by destruct (Hfr va Hva Hp) as (? & ? & _).
Qed.

(** An address space whose pages were left alone. *)
Lemma as_frame k free k' free' p :
  as_ok k p free → kmem_ok k' free' →
  (∀ b, owned k p b → b ∉ free' ∧ km_pages k' !! b = km_pages k !! b) →
  as_ok k' p free' ∧ (∀ va, entry k' p va = entry k p va) ∧ (∀ b, owned k' p b ↔ owned k p b).
Proof.
  intros Has Hk' Hsame. destruct Has as [Hk Hpt Hfr Hinj].
  destruct (pt_dir _ _ _ _ Hpt) as [Hd _]. destruct (Hsame p ltac:(by left)) as [Hdf Epg].
  assert (Htab : ∀ i, 0 ≤ i < NPDENTRIES → present (pde_of k p i) → owned k p (tab_of k p i)).
  { intros i Hi Hp. right. left. by exists i. }
  assert (Ep : ∀ i, 0 ≤ i < NPDENTRIES → pde_of k' p i = pde_of k p i).
  { intros i Hi. by apply (pde_of_frame kend). }
  assert (Ee : ∀ va, entry k' p va = entry k p va).
  { intros va. apply (entry_frame kend k k' p free); [done|done|]. intros i Hi Hp. by apply Hsame, Htab. }
  split; [split|split; [done|]].
  - done.
  - split; [done| |].
    + intros i Hi. unfold tab_of. rewrite Ep by done. intros Hp. destruct (pt_tab _ _ _ _ Hpt i Hi Hp) as (? & _ & ?).
      split_and!; [done| |done]. by apply (Hsame (tab_of k p i)), Htab.
    + intros i j Hi Hj Hne. unfold tab_of. rewrite !Ep by done. by apply (pt_inj _ _ _ _ Hpt).
  - intros va Hva. unfold frame. rewrite Ee. intros Hp. destruct (Hfr va Hva Hp) as (? & _ & ? & Ht).
    split_and!; [done| |done|].
    + apply (Hsame (frame k p va)). right. right. by exists va.
    + intros i Hi. unfold tab_of. rewrite Ep by done. by apply Ht.
  - intros va va' Hva Hva'. unfold frame. rewrite !Ee. by apply Hinj.
  - intros b. unfold owned, frame. setoid_rewrite Ee. unfold tab_of.
    assert (Ht : (∃ i, 0 ≤ i < NPDENTRIES ∧ present (pde_of k' p i) ∧ P2V (PTE_ADDR (pde_of k' p i)) = b) ↔
                 ∃ i, 0 ≤ i < NPDENTRIES ∧ present (pde_of k p i) ∧ P2V (PTE_ADDR (pde_of k p i)) = b).
    { split; intros (i & Hi & Hp & E); exists i; [rewrite Ep in Hp, E by done|rewrite Ep by done]; done. }
    by rewrite Ht.
Qed.

(** Two address spaces that share no page. *)
Definition apart k (p d : Z) : Prop := ∀ b, owned k p b → ¬ owned k d b.

(** What user code can see of its memory. *)
Definition same_user k k' (p : Z) : Prop :=
  ∀ va, 0 ≤ va < KERNBASE → entry k' p va = entry k p va ∧ ubyte k' p va = ubyte k p va.

Lemma same_user_frame k k' p :
  (∀ va, entry k' p va = entry k p va) →
  (∀ b, owned k p b → km_pages k' !! b = km_pages k !! b) → same_user k k' p.
Proof.
  intros Ee Hsame va Hva. split; [done|]. unfold ubyte, frame. rewrite Ee. case_decide as Hu; [|done].
  fold (frame k p va). rewrite Hsame; [done|]. right. right. exists va. split_and!; [lia|lia|apply Hu|done].
Qed.

Lemma isolation k free k' free' p d :
  as_ok k p free → apart k p d → confined k free k' free' d → as_ok k' d free' →
  as_ok k' p free' ∧ apart k' p d ∧ same_user k k' p.
Proof.
  intros Has Hap [U M] Has'.
  assert (Hnu : ∀ b, owned k p b → ¬ usable k free d b).
  { intros b Hb [Hf|Ho]; [|by apply (Hap b)]. by destruct (owned_not_free k p free b Has Hb). }
  assert (Hsame : ∀ b, owned k p b → b ∉ free' ∧ km_pages k' !! b = km_pages k !! b).
  { intros b Hb. split; [|by apply M, Hnu]. intros Hf. apply (Hnu b Hb). apply U. by left. }
  destruct (as_frame k free k' free' p Has (ao_kmem _ _ _ _ Has') Hsame) as (H1 & H2 & H3).
  split_and!; [done| |].
  - intros b Hb Hd. apply (Hnu b); [by apply H3|]. apply U. by right.
  - apply same_user_frame; [done|]. intros b Hb. by apply Hsame.
Qed.

(** ** Giving an address space back *)

(** All pages of [d] are free, and nothing else changed. *)
Definition given_back k free k' free' (d : Z) : Prop :=
  kmem_ok k' free' ∧ (∀ b, b ∈ free' ↔ usable k free d b) ∧
  ∀ b, ¬ usable k free d b → km_pages k' !! b = km_pages k !! b.

Lemma given_back_confined k1 f1 k2 f2 k3 f3 d :
  confined k1 f1 k2 f2 d → given_back k2 f2 k3 f3 d → given_back k1 f1 k3 f3 d.
Proof.
  intros [U1 M1] (Hk & U2 & M2). split; [done|]. split.
  - intros b. by rewrite U2, U1.
  - intros b Hb. rewrite M2, M1; [done|done|by rewrite U1].
Qed.

(** The loop over the page directory has freed the tables below [i]. *)
Definition tables_freed k free (d i : Z) k' : Prop :=
  ∃ free', kmem_ok k' free' ∧ km_pages k' !! d = km_pages k !! d ∧
    (∀ b, b ∈ free' ↔ b ∈ free ∨ ∃ j, 0 ≤ j < i ∧ present (pde_of k d j) ∧ tab_of k d j = b) ∧
    ∀ b, ¬ usable k free d b → km_pages k' !! b = km_pages k !! b.

Lemma wp_free_tables k free d :
  as_ok k d free →
  wp (for_loop (Z.to_nat NPDENTRIES) 0 (λ i,
      pde ← load_word (d + 4 * i);
      whenM (negb (Z.land pde PTE_P =? 0)) (kfree kend (P2V (PTE_ADDR pde)))))
    (λ _, tables_freed k free d NPDENTRIES) k.
Proof.
  intros [Hk Hpt _ _]. destruct (pt_dir _ _ _ _ Hpt) as [Hd Hdf].
  apply (wp_for_loop (tables_freed k free d) (Z.to_nat NPDENTRIES) 0).
  { exists free. split_and!; try done. intros b. split; [by left|]. intros [?|(j & Hj & _)]; [done|lia]. }
  intros i k1 Hi (f1 & Hk1 & Epg & U & M). change (0 + Z.of_nat (Z.to_nat NPDENTRIES)) with NPDENTRIES in Hi.
  wp_step. apply (wp_load kend k1 f1); [done|done|done|]. fold (pde_of k1 d i).
  rewrite (pde_of_frame kend k k1) by done. destruct (decide (present (pde_of k d i))) as [Hp|Hp].
  2:{ rewrite land_absent by done. cbn [whenM]. wp_step. exists f1. split_and!; try done. intros b. rewrite U.
      split; intros [?|(j & Hj & Hpj & E)]; [by left| |by left|]; right; exists j; (split; [|done]); [lia|].
      destruct (decide (j = i)) as [->|]; [done|lia]. }
  rewrite land_present by done. cbn [whenM]. fold (tab_of k d i).
  destruct (pt_tab _ _ _ _ Hpt i Hi Hp) as (Hta & Htf & Htd).
  apply (wp_kfree kend _ k1); [lia|done|apply Hk1|by apply (ko_all _ _ _ Hk1)|].
  exists (tab_of k d i :: f1). split_and!.
  - apply freed_ok; [done| |done]. rewrite U. intros [?|(j & Hj & Hpj & E)]; [done|].
    apply (pt_inj _ _ _ _ Hpt j i); (done || lia).
  - simpl. by rewrite lookup_insert_ne.
  - intros b. rewrite elem_of_cons, U. split.
    + intros [->|[?|(j & Hj & ? & ?)]]; [right; exists i; (split; [lia|done])|by left|right]. exists j. split_and!; (lia || done).
    + intros [?|(j & Hj & ? & E)]; [by right; left|]. destruct (decide (j = i)) as [->|]; [by left|].
      right. right. exists j. split_and!; (lia || done).
  - intros b Hb. simpl. rewrite lookup_insert_ne; [by apply M|]. intros <-. apply Hb. right. right. left. by exists i.
Qed.

Lemma wp_freevm k free d : as_ok k d free →
  wp (freevm kend d) (λ _ k', ∃ free', given_back k free k' free' d) k.
Proof.
  intros Has. destruct (pt_dir _ _ _ _ (ao_pt _ _ _ _ Has)) as [Hd _]. pose proof (page_addr_pos kend d Hd).
  unfold freevm. rewrite (proj2 (Z.eqb_neq d 0)) by lia. wp_step.
  eapply wp_mono; [apply (wp_deallocuvm kend Hkend k free d KERNBASE 0 Has); unfold KERNBASE; lia|].
  intros _ k1 (_ & f1 & Hu). change (PGROUNDUP 0) with 0 in Hu. pose proof (um_ok _ _ _ _ _ _ _ _ Hu) as Has1.
  wp_step. eapply wp_mono; [by apply (wp_free_tables k1 f1)|]. intros _ k2 (f2 & Hk2 & Epg & U & M).
  assert (Hdf : d ∉ f2).
  { rewrite U. destruct (pt_dir _ _ _ _ (ao_pt _ _ _ _ Has1)) as [_ Hdf].
    intros [?|(j & Hj & Hp & E)]; [done|]. by destruct (pt_tab _ _ _ _ (ao_pt _ _ _ _ Has1) j Hj Hp) as (_ & _ & ?). }
  apply (wp_kfree kend d k2); [lia|done|apply Hk2|by apply (ko_all _ _ _ Hk2)|].
  exists (d :: f2). eapply given_back_confined; [by eapply unmapped_confined|]. split_and!.
  - by apply freed_ok.
  - intros b. rewrite elem_of_cons, U. unfold usable, owned. split.
    + intros [->|[?|?]]; [by right; left|by left|by right; right; left].
    + intros [?|[->|[?|(va & Hva & Hp & _)]]]; [by right; left|by left|by right; right|].
      exfalso. apply (um_gone _ _ _ _ _ _ _ _ Hu va); [by apply user_u32| |done].
      pose proof (Z.mod_pos_bound va PGSIZE ltac:(done)). unfold in_pages, page_of. lia.
  - intros b Hb. simpl. rewrite lookup_insert_ne; [by apply M|]. intros <-. apply Hb. by right; left.
Qed.

(** ** Accounting from the call on *)

(** [d] was made out of pages free at the start, and no others were written. *)
Definition made_of k0 (free0 : list Z) k free (d : Z) : Prop :=
  (∀ b, usable k free d b ↔ b ∈ free0) ∧ ∀ b, b ∉ free0 → km_pages k !! b = km_pages k0 !! b.

Lemma made_of_confined k0 free0 k free k' free' d :
  made_of k0 free0 k free d → confined k free k' free' d → made_of k0 free0 k' free' d.
Proof.
  intros [U0 M0] [U M]. split.
  - intros b. by rewrite U.
  - intros b Hb. rewrite M; [by apply M0|by rewrite U0].
Qed.

(** The allocator is as it was at the start, and so is the rest of memory. *)
Definition restored k0 (free0 : list Z) k' free' : Prop :=
  kmem_ok k' free' ∧ free' ≡ₚ free0 ∧ ∀ b, b ∉ free0 → km_pages k' !! b = km_pages k0 !! b.

Lemma made_of_given_back k0 free0 k free k' free' d :
  NoDup free0 → made_of k0 free0 k free d → given_back k free k' free' d → restored k0 free0 k' free'.
Proof.
  intros Hnd [U0 M0] (Hk & U & M). split_and!; [done| |].
  - apply NoDup_Permutation; [apply Hk|done|]. intros b. by rewrite U.
  - intros b Hb. rewrite M; [by apply M0|by rewrite U0].
Qed.

(** New page tables for entries above KERNBASE. *)
Lemma as_tables k d free k' free' :
  as_ok k d free → tables_grew k free k' free' d →
  (∀ va, 0 ≤ va < KERNBASE → entry k' d va = entry k d va) →
  as_ok k' d free' ∧ confined k free k' free' d.
Proof.
  intros [Hk Hpt Hfr Hinj] [Hk' Hpt' [used Hu] Hpg Htb Hkp Hus] Ee.
  assert (Hsub : ∀ x, x ∈ free' → x ∈ free) by (intros x Hx; rewrite Hu, elem_of_app; by right).
  split; [split; [done|done| |]|split].
  - intros va Hva. unfold frame. rewrite Ee by done. intros Hp. destruct (Hfr va Hva Hp) as (? & Hf & ? & Ht).
    split_and!; [done|by intros ?%Hsub|done|]. intros i Hi Hpi E.
    destruct (Htb i Hi Hpi) as [[Hp0 E0]|Hin]; [|by apply Hf; unfold frame; rewrite E].
    apply (Ht i Hi Hp0). by rewrite <- E0, <- E.
  - intros va va' Hva Hva'. unfold frame. rewrite !Ee by done. by apply Hinj.
  - intros b. split.
    + intros [?%Hsub|[->|[(i & Hi & Hp & <-)|(va & Hva & Hp & <-)]]]; [by left|by right; left| |].
      * destruct (Htb i Hi Hp) as [[Hp0 ->]|Hf]; [|by left]. right. right. left. by exists i.
      * right. right. right. exists va. unfold frame. by rewrite Ee in * by done.
    + intros [Hb|[->|[(i & Hi & Hp & <-)|(va & Hva & Hp & <-)]]].
      * destruct (Hus b Hb) as [?|(i & Hi & Hp & <-)]; [by left|]. right. right. left. by exists i.
      * by right; left.
      * right. right. left. exists i. by destruct (Hkp i Hi Hp) as [? ->].
      * right. right. right. exists va. unfold frame. by rewrite Ee.
  - intros b Hb. apply Hpg.
    + intros ->. apply Hb. by right; left.
    + intros Hf. apply Hb. by left.
    + intros i Hi Hp ->. apply Hb. right. right. left. by exists i.
Qed.

(** The size of an address space bounds the pages it is made of. *)
Lemma count_owned k d l n extra :
  NoDup l → (∀ b, b ∈ l → owned k d b ∨ b ∈ extra) →
  (∀ va, 0 ≤ va < KERNBASE → present (entry k d va) → va < n * PGSIZE) →
  (length l ≤ 1025 + Z.to_nat n + length extra)%nat.
Proof.
  intros Hnd Hl Hn.
  set (big := d :: (tab_of k d <$> seqZ 0 NPDENTRIES) ++ ((λ j, frame k d (j * PGSIZE)) <$> seqZ 0 n) ++ extra).
  assert (Hsub : l ⊆ big).
  { intros b Hb. unfold big. rewrite elem_of_cons, !elem_of_app, !list_elem_of_fmap.
    destruct (Hl b Hb) as [[->|[(i & Hi & Hp & <-)|(va & Hva & Hp & <-)]]|?]; [by left|right; left|right; right; left|by right; right; right].
    - exists i. split; [done|]. apply elem_of_seqZ. lia.
    - exists (va / PGSIZE). pose proof (Hn va Hva Hp). split.
      + unfold frame. f_equal. f_equal. apply entry_same_page; [by apply user_u32| |by rewrite Z.div_mul].
        pose proof (Z.div_mod va PGSIZE ltac:(done)). pose proof (Z.mod_pos_bound va PGSIZE ltac:(done)).
        unfold is_u32, KERNBASE, PGSIZE in *. lia.
      + apply elem_of_seqZ. split; [apply Z.div_pos; [lia|done]|]. apply Z.div_lt_upper_bound; [done|lia]. }
  assert (E : length big = (1025 + Z.to_nat n + length extra)%nat).
  { unfold big. cbn [length]. rewrite !length_app, !length_fmap, !length_seqZ. unfold NPDENTRIES. lia. }
  rewrite <- E. by apply submseteq_length, NoDup_submseteq.
Qed.

(** ** The kernel's part *)

Definition ksize (e : kmap_entry) : Z := u32 (phys_end e - phys_start e).

(** The entry the table [ks] gives to the page of [va]. *)
Fixpoint kmap_pte (ks : list kmap_entry) (va : Z) : option Z :=
  match ks with
  | [] => None
  | e :: ks' =>
      if decide (virt e ≤ va < virt e + ksize e) then Some (pte_of (phys_start e + (page_of va - virt e)) (perm e))
      else kmap_pte ks' va
  end.

(** Whole pages, in ascending order from [lo] on, and within 32 bits. *)
Fixpoint kmap_wf (lo : Z) (ks : list kmap_entry) : Prop :=
  match ks with
  | [] => True
  | e :: ks' =>
      (lo ≤ virt e ∧ virt e mod PGSIZE = 0 ∧ 0 < ksize e ∧ ksize e mod PGSIZE = 0 ∧ virt e + ksize e ≤ 2 ^ 32) ∧
      (0 ≤ phys_start e ∧ phys_start e mod PGSIZE = 0 ∧ phys_start e + ksize e ≤ 2 ^ 32 ∧ 0 ≤ perm e < PGSIZE) ∧
      kmap_wf (virt e + ksize e) ks'
  end.

Lemma kmap_pte_below lo ks va : kmap_wf lo ks → va < lo → kmap_pte ks va = None.
Proof.
  revert lo. induction ks as [|e ks IH]; intros lo; [done|]. intros ((H1 & _ & H2 & _) & _ & Hwf) Hva. cbn [kmap_pte].
  rewrite decide_False by lia. apply (IH _ Hwf). lia.
Qed.

Lemma covered_whole va size : va mod PGSIZE = 0 → size mod PGSIZE = 0 → 0 < size →
  page_of va = va ∧ covered va size * PGSIZE = size.
Proof.
  intros Hv Hs Hp. assert (E1 : page_of va = va) by (unfold page_of; lia).
  pose proof (Z.div_mod va PGSIZE ltac:(done)). pose proof (Z.div_mod size PGSIZE ltac:(done)).
  assert (Ez : (va + size - PGSIZE) mod PGSIZE = 0).
  { rewrite Zminus_mod, <- Z.add_mod_idemp_l, Hv, Z.add_0_l, Hs by done. done. }
  assert (E2 : page_of (va + size - 1) = va + size - PGSIZE) by (apply page_of_same; [done|unfold PGSIZE in *; lia]).
  assert (E3 : page_of (va + size - PGSIZE) = va + size - PGSIZE) by (unfold page_of; lia).
  unfold covered. rewrite E1, E2. split; [done|].
  rewrite Z.mul_add_distr_r, Z.mul_sub_distr_r. rewrite <- !page_of_div, E1, E3. lia.
Qed.

(** What is left of the failed attempts to build [d]: memory as at the start,
    which had at most [n] pages to give. *)
Definition gave_up k0 (free0 : list Z) k' (n : nat) : Prop :=
  (∃ free', restored k0 free0 k' free') ∧ (length free0 ≤ n)%nat.

Lemma wp_freevm_gave_up k0 free0 k free d n :
  NoDup free0 → as_ok k d free → made_of k0 free0 k free d → (length free0 ≤ n)%nat →
  wp (freevm kend d ;; ret 0) (λ r k', r = 0 ∧ gave_up k0 free0 k' n) k.
Proof.
  intros Hnd Has Hm Hn. wp_step. eapply wp_mono; [by apply wp_freevm|]. intros _ k' (f' & Hg). wp_step.
  split; [done|]. split; [|done]. exists f'. by apply (made_of_given_back k0 free0 k free k' f' d).
Qed.

Definition no_user k (d : Z) : Prop := ∀ va, 0 ≤ va < KERNBASE → ¬ present (entry k d va).

Lemma wp_map_kernel ks k0 free0 k free d lo :
  NoDup free0 → kmap_wf lo ks → KERNBASE ≤ lo → as_ok k d free → made_of k0 free0 k free d → no_user k d →
  (∀ va, is_u32 va → lo ≤ va → ¬ present (entry k d va)) →
  wp (map_kernel kend d ks) (λ r k',
    (r = d ∧ ∃ free', as_ok k' d free' ∧ made_of k0 free0 k' free' d ∧
       ∀ va, is_u32 va → entry k' d va = default (entry k d va) (kmap_pte ks va)) ∨
    (r = 0 ∧ gave_up k0 free0 k' 1025)) k.
Proof.
  intros Hnd. revert k free lo. induction ks as [|e ks IH]; intros k free lo Hwf Hlo Has Hm Hnu Hno; cbn [map_kernel].
  { wp_step. left. split; [done|]. exists free. done. }
  cbn [kmap_wf] in Hwf. destruct Hwf as ((Hv & Hvm & Hs & Hsm & Hve) & (Hp0 & Hpm & Hpe & Hpp) & Hwf).
  fold (ksize e). destruct (covered_whole (virt e) (ksize e) Hvm Hsm Hs) as [E1 E2].
  wp_step. eapply wp_mono.
  { apply (mappages_core kend k free d (virt e) (ksize e)); try apply Has; rewrite ?E1, ?E2; try done; try lia.
    - unfold KERNBASE in *. lia.
    - intros x Hx. apply Hno; [unfold is_u32, KERNBASE in *; lia|lia]. }
  intros r k1 (m & f1 & Hg & Hmaps & Hr). rewrite E1 in Hmaps.
  assert (Ee : ∀ va, 0 ≤ va < KERNBASE → entry k1 d va = entry k d va).
  { intros va Hva. rewrite Hmaps, decide_False by (lia || by apply user_u32). done. }
  destruct (as_tables k d free k1 f1 Has Hg Ee) as [Has1 Hc].
  pose proof (made_of_confined _ _ _ _ _ _ _ Hm Hc) as Hm1.
  assert (Hnu1 : no_user k1 d) by (intros va Hva; rewrite Ee by done; by apply Hnu).
  destruct Hr as [[-> ->]|(-> & _ & ->)].
  - change (0 <? 0) with false. cbn match. eapply wp_mono.
    { apply (IH k1 f1 (virt e + ksize e)); try done; [lia|].
      intros va Hva Hge. rewrite Hmaps, decide_False by (done || lia). apply Hno; [done|lia]. }
    intros r k2 [(-> & f2 & Has2 & Hm2 & He2)|?]; [left|by right]. split; [done|]. exists f2. split_and!; try done.
    intros va Hva. rewrite He2, Hmaps by done. cbn [kmap_pte]. rewrite E2.
    case_decide; [|done]. by rewrite (kmap_pte_below (virt e + ksize e)) by (done || lia).
  - change (-1 <? 0) with true. cbn match. eapply wp_mono.
    { apply (wp_freevm_gave_up k0 free0 k1 [] d 1025); try done.
      apply (count_owned k1 d free0 0 []); [done| |].
      - intros b Hb. apply Hm1 in Hb as [?%not_elem_of_nil|?]; [done|by left].
      - intros va Hva Hp. by destruct (Hnu1 va Hva). }
    intros r k2 ?. by right.
Qed.

(** A new page directory. *)
Lemma as_new k d free next :
  kmem_ok k (d :: free) → kmem_ok (with_freelist next k) free →
  let k1 := put_page d (replicate npage 0) (with_freelist next k) in
  as_ok k1 d free ∧ made_of k (d :: free) k1 free d ∧ ∀ va, entry k1 d va = 0.
Proof.
  intros Hk Hk1 k1. pose proof (ko_addr _ _ _ Hk) as Ha. inversion Ha as [|? ? Hd _]; subst.
  pose proof (ko_nodup _ _ _ Hk) as Hnd. inversion Hnd as [|? ? Hni _]; subst.
  assert (Ep : ∀ i, 0 ≤ i < NPDENTRIES → ¬ present (pde_of k1 d i)).
  { intros i Hi. unfold pde_of, k1. rewrite word_put_page by (done || apply Hd).
    rewrite decide_True, get_zero_page by done. apply absent_0. }
  assert (Ee : ∀ va, entry k1 d va = 0) by (intros va; apply entry_absent, Ep, PDX_range).
  assert (Hno : ∀ va, ¬ present (entry k1 d va)) by (intros va; rewrite Ee; apply absent_0).
  split_and!; [split| |done].
  - apply put_page_ok; [done|done|apply length_replicate].
  - split; [done| |]; [intros i Hi Hp|intros i j Hi _ _ Hp]; by destruct (Ep i Hi).
  - intros va _ Hp. by destruct (Hno va).
  - intros va va0 _ _ Hp. by destruct (Hno va).
  - split.
    + intros b. unfold usable, owned. rewrite elem_of_cons. split.
      * intros [?|[->|[(i & Hi & Hp & _)|(va & _ & Hp & _)]]]; [by right|by left|by destruct (Ep i Hi)|by destruct (Hno va)].
      * intros [->|?]; [by right; left|by left].
    + intros b Hb. apply not_elem_of_cons in Hb as [Hb _].
      unfold k1, put_page. cbn [km_pages with_pages with_freelist]. by rewrite lookup_insert_ne.
Qed.

(** The linker script puts the kernel's data on a page boundary behind its code. *)
Variable kdata : Z.
Hypothesis Hkdata : KERNLINK < kdata < KERNBASE + PHYSTOP ∧ kdata mod PGSIZE = 0.

Lemma kmap_ok : kmap_wf KERNBASE (kmap kdata).
Proof.
  destruct Hkdata as [Hr Hm]. unfold kmap. cbn [kmap_wf]. unfold ksize, KERNLINK, EXTMEM, PHYSTOP in *. cbn [virt phys_start phys_end perm].
  assert (E : V2P kdata = kdata - KERNBASE) by (unfold V2P; apply u32_id; unfold is_u32, KERNBASE in *; lia).
  assert (Em : (kdata - KERNBASE) mod PGSIZE = 0) by (rewrite Zminus_mod, Hm; done).
  change (V2P (KERNBASE + 0x100000)) with 0x100000. rewrite E.
  rewrite (u32_id (kdata - KERNBASE - 0x100000)), (u32_id (0xE000000 - (kdata - KERNBASE)))
    by (unfold is_u32, KERNBASE in *; lia).
  change (u32 (0x100000 - 0)) with 0x100000. change (u32 (0 - DEVSPACE)) with 0x2000000.
  pose proof (Z.div_mod kdata PGSIZE ltac:(done)) as Hd.
  split_and!; try done; try lia; try (unfold KERNBASE, DEVSPACE, PTE_W, PGSIZE in *; lia).
  - rewrite Zminus_mod, Em. done.
  - rewrite Zminus_mod, Em. done.
Qed.

(** The entries of a page directory above KERNBASE are the kernel's. *)
Definition kernel_part k (d : Z) : Prop :=
  ∀ va, KERNBASE ≤ va < 2 ^ 32 → entry k d va = default 0 (kmap_pte (kmap kdata) va).

Lemma wp_setupkvm k free :
  kmem_ok k free →
  wp (setupkvm kend kdata) (λ d k',
    (d ≠ 0 ∧ ∃ free', as_ok k' d free' ∧ made_of k free k' free' d ∧ no_user k' d ∧ kernel_part k' d) ∨
    (d = 0 ∧ gave_up k free k' 1025)) k.
Proof.
  intros Hk. pose proof (ko_nodup _ _ _ Hk) as Hnd. unfold setupkvm. wp_step. apply (wp_kalloc kend k free); [done|].
  destruct free as [|d free].
  { change (0 =? 0) with true. cbn match. wp_step. right. split; [done|]. split; [by exists []|simpl; lia]. }
  intros next Hk1. pose proof (ko_addr _ _ _ Hk) as Ha. inversion Ha as [|? ? Hd _]; subst.
  pose proof (page_addr_pos kend d Hd). rewrite (proj2 (Z.eqb_neq d 0)) by lia.
  wp_step. apply wp_store_page; [by apply (ko_all _ _ _ Hk1)|]. fold (put_page d (replicate npage 0) (with_freelist next k)).
  destruct (as_new k d free next Hk Hk1) as (Has & Hm & Ee). set (k1 := put_page _ _ _) in *.
  change (DEVSPACE <? P2V PHYSTOP) with false. cbn match. eapply wp_mono.
  { apply (wp_map_kernel (kmap kdata) k (d :: free) k1 free d KERNBASE); try done; [apply kmap_ok| |];
      intros ? *; rewrite Ee; intros; apply absent_0. }
  intros r k' [(-> & f' & Has' & Hm' & He')|?]; [left|by right]. split; [lia|]. exists f'. split_and!; try done.
  - intros va Hva. rewrite He', (kmap_pte_below KERNBASE) by (apply kmap_ok || lia || by apply user_u32).
    simpl. rewrite Ee. apply absent_0.
  - intros va Hva. rewrite He', Ee by (unfold is_u32, KERNBASE in *; lia). done.
Qed.

(** ** Copying *)

Lemma PTE_FLAGS_range w : 0 ≤ PTE_FLAGS w < PGSIZE.
Proof. unfold PTE_FLAGS. rewrite (land_ones_low _ 12) by lia. by apply Z.mod_pos_bound. Qed.

Lemma PTE_FLAGS_pte_of mem w : page_addr mem → present w → PTE_FLAGS (pte_of (V2P mem) (PTE_FLAGS w)) = PTE_FLAGS w.
Proof.
  intros Hm Hp. destruct (V2P_page kend mem Hm) as (_ & Hmod & _). unfold pte_of, PTE_FLAGS.
  rewrite <- Z.lor_assoc, land_lor_low by (done || (unfold PGSIZE; lia)).
  apply Z.bits_inj'. intros n Hn. rewrite !Z.land_spec, Z.lor_spec, Z.land_spec. unfold PTE_P.
  destruct (decide (n = 0)) as [->|].
  - assert (Z.testbit w 0 = true) as ->; [|done].
    unfold present, PTE_P in Hp. rewrite (land_ones_low _ 1) in Hp by lia.
    rewrite Z.bit0_odd. rewrite Zmod_odd in Hp. by destruct (Z.odd w).
  - assert (Z.testbit 1 n = false) as -> by (apply Z.bits_above_log2; simpl; lia).
    rewrite orb_false_r. by destruct (Z.testbit w n), (Z.testbit 4095 n).
Qed.

(** The parent of a copy is as it was. *)
Lemma made_of_parent k0 free0 p k free d :
  as_ok k0 p free0 → made_of k0 free0 k free d → as_ok k d free →
  as_ok k p free ∧ apart k p d ∧ (∀ va, entry k p va = entry k0 p va) ∧ same_user k0 k p.
Proof.
  intros Has [U M] Has'.
  assert (Hsame : ∀ b, owned k0 p b → b ∉ free ∧ km_pages k !! b = km_pages k0 !! b).
  { intros b Hb. destruct (owned_not_free k0 p free0 b Has Hb) as [_ Hf]. split; [|by apply M].
    intros Hb'. apply Hf, U. by left. }
  destruct (as_frame k0 free0 k free p Has (ao_kmem _ _ _ _ Has') Hsame) as (H1 & H2 & H3). split_and!; [done| |done|].
  - intros b Hb%H3 Hd. destruct (owned_not_free k0 p free0 b Has Hb) as [_ Hf]. apply Hf, U. by right.
  - apply same_user_frame; [done|]. intros b Hb. by apply Hsame.
Qed.

(** The child [d] has the pages of [p] below [i]: the same flags, and the same
    content in pages of its own. *)
Definition copied k0 (p : Z) k (d i : Z) : Prop :=
  ∀ va, 0 ≤ va < KERNBASE →
    if decide (va < i)
    then present (entry k d va) ∧ PTE_FLAGS (entry k d va) = PTE_FLAGS (entry k0 p va) ∧
         km_pages k !! frame k d va = km_pages k0 !! frame k0 p va
    else ¬ present (entry k d va).

Lemma copied_below k0 p k d i va : copied k0 p k d i → 0 ≤ va < KERNBASE → present (entry k d va) → va < i.
Proof. intros Hc Hva Hp. specialize (Hc va Hva). by case_decide. Qed.

Lemma copied_step k0 p k1 k d i mem :
  page_addr mem → i mod PGSIZE = 0 → 0 ≤ i < KERNBASE → present (entry k0 p i) →
  copied k0 p k d i → keeps_user k k1 d →
  (∀ va, is_u32 va → entry k1 d va = if decide (i ≤ va < i + 1 * PGSIZE)
     then pte_of (V2P mem + (page_of va - i)) (PTE_FLAGS (entry k0 p i)) else entry k d va) →
  km_pages k1 !! mem = km_pages k0 !! frame k0 p i → copied k0 p k1 d (i + PGSIZE).
Proof.
  intros Hm Hi Hir Hp Hc Hku He Hpg va Hva. specialize (Hc va Hva). pose proof (He va (user_u32 va Hva)) as E.
  destruct (decide (i ≤ va < i + PGSIZE)) as [Hd|Hd].
  - rewrite decide_True in E by lia. rewrite decide_True by lia. rewrite (page_of_same i), Z.sub_diag, Z.add_0_r in E by done.
    assert (Es : entry k0 p va = entry k0 p i).
    { apply entry_same_page; [by apply user_u32|by apply user_u32|]. by apply same_page. }
    destruct (frame_pte kend mem (PTE_FLAGS (entry k0 p i)) Hm (PTE_FLAGS_range _)) as [Efr Hpp].
    unfold frame. rewrite E, Es, Efr. split_and!; [done|by apply PTE_FLAGS_pte_of|done].
  - rewrite decide_False in E by lia. destruct (decide (va < i)) as [Hlt|Hge].
    + rewrite decide_True by (unfold PGSIZE; lia). destruct Hc as (Hp1 & Hf1 & M1). destruct (Hku va Hva Hp1) as [_ M2].
      unfold frame in *. rewrite E. by rewrite M2.
    + rewrite decide_False by lia. by rewrite E.
Qed.

(** The state of the loop: a child made of free pages, complete below [i]. *)
Record copying k0 free0 (p : Z) k free (d i : Z) : Prop := {
  cp_child : as_ok k d free;
  cp_made : made_of k0 free0 k free d;
  cp_kernel : kernel_part k d;
  cp_copied : copied k0 p k d i
}.

Lemma copying_bound free0 k d i sz extra :
  NoDup free0 → (∀ va, 0 ≤ va < KERNBASE → present (entry k d va) → va < i) → i ≤ sz → (∀ b, b ∈ free0 → owned k d b ∨ b ∈ extra) →
  (length free0 ≤ 1025 + Z.to_nat (sz / PGSIZE + 1) + length extra)%nat.
Proof.
  intros Hnd Hc Hi Hl. apply (count_owned k d free0 (sz / PGSIZE + 1) extra); [done|done|].
  intros va Hva Hp. specialize (Hc va Hva Hp).
  pose proof (Z.div_mod sz PGSIZE ltac:(done)). pose proof (Z.mod_pos_bound sz PGSIZE ltac:(done)).
  unfold PGSIZE in *. lia.
Qed.

Definition copy_bound (sz : Z) : nat := 1026 + Z.to_nat (sz / PGSIZE + 1).

(** No page left for a page table: the new page and the child are given back. *)
Lemma wp_copy_failed k0 free0 k free d i sz k2 mem :
  NoDup free0 → i < sz → made_of k0 free0 k free d → as_ok k2 d [] → alone kend k2 d [] mem → usable k free d mem →
  (∀ va, 0 ≤ va < KERNBASE → present (entry k2 d va) → va < i) →
  (∀ b, usable k free d b ↔ usable k2 [] d b ∨ b = mem) →
  (∀ b, ¬ usable k free d b → km_pages k2 !! b = km_pages k !! b) →
  wp (kfree kend mem ;; freevm kend d ;; ret 0) (λ r k', r = 0 ∧ gave_up k0 free0 k' (copy_bound sz)) k2.
Proof.
  intros Hnd Hi Hm Has2 Hal2 Hmem Hbelow Hus Hpg. pose proof (al_addr _ _ _ _ _ Hal2) as Hma.
  wp_step. apply (wp_kfree kend mem k2); [lia|done|apply Has2|by apply (ko_all _ _ _ (ao_kmem _ _ _ _ Has2))|].
  destruct (as_free_alone kend k2 d [] mem Has2 Hal2) as (Has3 & Ee3 & _).
  pose proof (confined_give_back kend k d free k2 [] mem Has2 Hal2 Hmem Hus Hpg) as Hc3.
  pose proof (made_of_confined _ _ _ _ _ _ _ Hm Hc3) as Hm3.
  apply (wp_freevm_gave_up k0 free0 (freed mem k2) [mem] d); try done. etrans.
  - apply (copying_bound free0 (freed mem k2) d i sz [mem]); [done| |lia|].
    + intros va Hva. rewrite Ee3. by apply Hbelow.
    + intros b Hb. apply Hm3 in Hb as [?|?]; [by right|by left].
  - unfold copy_bound. simpl. lia.
Qed.

Lemma wp_copyuvm_from fuel k0 free0 p k free d sz i :
  as_ok k0 p free0 → (∀ va, 0 ≤ va < KERNBASE → page_of va < sz → present (entry k0 p va)) → sz ≤ KERNBASE →
  copying k0 free0 p k free d i → i mod PGSIZE = 0 → 0 ≤ i < Z.max 1 (sz + PGSIZE) →
  (0 < fuel)%nat → sz ≤ i + (Z.of_nat fuel - 1) * PGSIZE →
  wp (copyuvm_from kend fuel p d sz i) (λ r k',
    (r = d ∧ ∃ free' i', copying k0 free0 p k' free' d i' ∧ i' mod PGSIZE = 0 ∧ sz ≤ i' < Z.max 1 (sz + PGSIZE)) ∨
    (r = 0 ∧ gave_up k0 free0 k' (copy_bound sz))) k.
Proof.
  intros Has0 Hall Hsz. pose proof (ko_nodup _ _ _ (ao_kmem _ _ _ _ Has0)) as Hnd.
  revert k free i. induction fuel as [|f IH]; intros k free i Hcp Him Hi Hf Hlen; [lia|].
  cbn [copyuvm_from]. destruct (i <? sz) eqn:E; bool_props.
  2:{ wp_step. left. split; [done|]. exists free, i. split; [done|]. split; [done|lia]. }
  destruct Hcp as [Has Hm Hker Hc]. destruct (made_of_parent k0 free0 p k free d Has0 Hm Has) as (Hasp & _ & Ep & _).
  assert (Hiu : 0 ≤ i < KERNBASE) by lia. assert (Hpi : page_of i = i) by (unfold page_of; lia).
  assert (Hstep : i + PGSIZE ≤ KERNBASE).
  { pose proof (Z.div_mod i PGSIZE ltac:(done)). unfold KERNBASE, PGSIZE in *. lia. }
  assert (Hp0 : present (entry k0 p i)) by (apply Hall; [lia|by rewrite Hpi]).
  assert (Hp : present (entry k p i)) by by rewrite Ep.
  pose proof (entry_present _ _ _ Hp) as Hpd. destruct (pt_tab _ _ _ _ (ao_pt _ _ _ _ Hasp) _ (PDX_range i) Hpd) as (Hta & _ & _).
  wp_step. apply (wp_walk_false kend k free); [apply Hasp|apply Hasp|]. rewrite decide_True by done.
  wp_step. unfold pte_addr. apply (wp_load kend k free); [apply Hasp|done|apply PTX_range|]. rewrite entry_word by done.
  rewrite (proj2 (Z.eqb_neq _ 0) Hp). wp_step. apply (wp_kalloc kend k free); [apply Has|].
  destruct free as [|mem free].
  { change (0 =? 0) with true. cbn match. eapply (wp_mono _ (λ r k', r = 0 ∧ gave_up k0 free0 k' (copy_bound sz))); [|intros r k' ?; by right].
    apply (wp_freevm_gave_up k0 free0 k [] d); try done. etrans.
    - apply (copying_bound free0 k d i sz []); [done|exact (λ va, copied_below k0 p k d i va Hc)|lia|].
      intros b Hb. apply Hm in Hb as [?%not_elem_of_nil|?]; [done|by left].
    - unfold copy_bound. simpl. lia. }
  intros next Hk1. pose proof (ko_addr _ _ _ (ao_kmem _ _ _ _ Has)) as Haddr. inversion Haddr as [|? ? Hma _]; subst.
  pose proof (page_addr_pos kend mem Hma). rewrite (proj2 (Z.eqb_neq mem 0)) by lia.
  fold (frame k p i). destruct (ao_frame _ _ _ _ Hasp i Hiu Hp) as (Hfa & Hff & _).
  destruct (page_lookup kend k (mem :: free) _ (ao_kmem _ _ _ _ Hasp) Hfa) as [Epg Hpl].
  wp_step. apply (wp_load_page _ (page_at k (frame k p i))); [done|].
  wp_step. apply wp_store_page; [by apply (ko_all _ _ _ Hk1)|].
  fold (put_page mem (page_at k (frame k p i)) (with_freelist next k)).
  destruct (as_take kend k d mem free next _ Has Hk1 Hpl) as (Has1 & Hal & Hku1 & Ee1). set (k1 := put_page _ _ _) in *.
  wp_step. eapply wp_mono.
  { apply (wp_map_fresh kend k1 d free mem i (PTE_FLAGS (entry k p i))); try done; [apply PTE_FLAGS_range|].
    rewrite Ee1. specialize (Hc i Hiu). by rewrite decide_False in Hc by lia. }
  intros r k2 (m & f2 & Hmaps & Has2 & Hz & Hku2 & Hus2 & Hpg2 & Hr).
  destruct (confined_take_map kend k d mem free next _ k2 f2 m Has Hk1 Hpl Hus2 Hpg2) as [Hus Hpg].
  pose proof (keeps_user_trans _ _ _ _ Hku1 Hku2) as Hku.
  assert (Hmem : usable k (mem :: free) d mem) by (left; apply elem_of_cons; by left).
  destruct Hr as [[-> ->]|(-> & -> & -> & Hal2)].
  - change (0 <? 0) with false. cbn match. rewrite u32_id by (unfold is_u32, KERNBASE, PGSIZE in *; lia).
    apply (IH k2 f2 (i + PGSIZE)); try (unfold PGSIZE in *; lia).
    + split; [done| | |].
      * apply (made_of_confined k0 free0 k (mem :: free) k2 f2 d Hm). split; [|done]. intros b. rewrite Hus, Hus2. naive_solver.
      * intros va Hva. rewrite Hmaps, decide_False, Ee1 by (unfold is_u32, KERNBASE, PGSIZE in *; lia). by apply Hker.
      * apply (copied_step k0 p k2 k d i mem); try done.
        -- intros va Hva. rewrite Hmaps, Ee1, Ep by done. done.
        -- rewrite Hz. unfold k1, put_page. cbn [km_pages with_pages]. rewrite lookup_insert_eq, <- Epg.
           unfold frame. rewrite Ep. apply Hm. apply (owned_not_free k0 p free0); [done|]. right. right. by exists i.
    + rewrite <- Z.add_mod_idemp_l, Him; done.
  - change (-1 <? 0) with true. cbn match.
    eapply (wp_mono _ (λ r k', r = 0 ∧ gave_up k0 free0 k' (copy_bound sz))); [|intros r k' ?; by right].
    apply (wp_copy_failed k0 free0 k (mem :: free) d i sz k2 mem); try done. intros va Hva Hp2.
    rewrite Hmaps, decide_False, Ee1 in Hp2 by (lia || by apply user_u32). exact (copied_below k0 p k d i va Hc Hva Hp2).
Qed.

(** The flags say what user code may do. *)
Lemma user_pte_flags w w' : PTE_FLAGS w = PTE_FLAGS w' → user_pte w ↔ user_pte w'.
Proof.
  intros E. assert (Hl : ∀ f, 0 ≤ f → Z.land 4095 f = f → Z.land w f = Z.land w' f).
  { intros f Hf Ef. unfold PTE_FLAGS in E. rewrite <- Ef, !Z.land_assoc. by rewrite E. }
  unfold user_pte, present. by rewrite !Hl.
Qed.

Lemma copied_ubyte k0 p k d i sz va :
  copied k0 p k d i → i mod PGSIZE = 0 → sz ≤ i < Z.max 1 (sz + PGSIZE) → 0 ≤ sz → 0 ≤ va < KERNBASE →
  if decide (page_of va < sz)
  then PTE_FLAGS (entry k d va) = PTE_FLAGS (entry k0 p va) ∧ ubyte k d va = ubyte k0 p va
  else ¬ present (entry k d va).
Proof.
  intros Hc Him Hi Hsz Hva. specialize (Hc va Hva).
  pose proof (Z.div_mod i PGSIZE ltac:(done)). pose proof (Z.div_mod va PGSIZE ltac:(done)).
  pose proof (Z.mod_pos_bound va PGSIZE ltac:(done)).
  assert (Hiff : page_of va < sz ↔ va < i) by (rewrite page_of_div; unfold PGSIZE in *; lia).
  destruct (decide (va < i)) as [Hlt|Hge]; [rewrite decide_True by tauto|rewrite decide_False by tauto; done].
  destruct Hc as (Hp & Hf & Hpg). split; [done|]. unfold ubyte. pose proof (user_pte_flags _ _ Hf) as Hu.
  destruct (decide (user_pte (entry k d va))) as [Hd|Hd]; [rewrite decide_True by tauto|rewrite decide_False by tauto; done].
  by rewrite Hpg.
Qed.

(** C7: [copyuvm] gives a forked child a copy of its parent's memory.  If it
    succeeds, every byte below the size reads the same in the child as in the
    parent, with the same permissions, nothing else is mapped for the user, and
    the kernel's part is what the table [kmap] says; the two share no page, and
    the parent's memory is untouched.  It fails only when there are too few free
    pages, and then the parent is untouched too and every page taken on the way
    is free again. *)
Theorem copyuvm_correct k free pgdir sz :
  as_ok k pgdir free → 0 ≤ sz ≤ KERNBASE →
  (∀ va, 0 ≤ va < KERNBASE → page_of va < sz → present (entry k pgdir va)) →
  wp (copyuvm kend kdata pgdir sz) (λ d k', ∃ free', as_ok k' pgdir free' ∧ same_user k k' pgdir ∧
    if decide (d = 0) then restored k free k' free' ∧ (length free ≤ copy_bound sz)%nat
    else as_ok k' d free' ∧ apart k' pgdir d ∧ made_of k free k' free' d ∧ kernel_part k' d ∧
      ∀ va, 0 ≤ va < KERNBASE →
        if decide (page_of va < sz)
        then PTE_FLAGS (entry k' d va) = PTE_FLAGS (entry k pgdir va) ∧ ubyte k' d va = ubyte k pgdir va
        else ¬ present (entry k' d va)) k.
Proof.
  intros Has Hsz Hall. pose proof (ko_nodup _ _ _ (ao_kmem _ _ _ _ Has)) as Hnd.
  assert (Hgave : ∀ k' n, gave_up k free k' n → (n ≤ copy_bound sz)%nat → ∃ free', as_ok k' pgdir free' ∧ same_user k k' pgdir ∧
    restored k free k' free' ∧ (length free ≤ copy_bound sz)%nat).
  { intros k' n [(f' & Hk' & Hperm & M) Hn] Hb. exists f'.
    assert (Hsame : ∀ b, owned k pgdir b → b ∉ f' ∧ km_pages k' !! b = km_pages k !! b).
    { intros b Hb'. destruct (owned_not_free k pgdir free b Has Hb') as [_ Hf]. split; [by rewrite Hperm|by apply M]. }
    destruct (as_frame k free k' f' pgdir Has Hk' Hsame) as (H1 & H2 & _). split; [done|]. split.
    - apply same_user_frame; [done|]. intros b Hb'. by apply Hsame.
    - split; [done|lia]. }
  unfold copyuvm. wp_step. eapply wp_mono; [apply (wp_setupkvm k free), Has|].
  intros d k1 [(Hd & f1 & Has1 & Hm1 & Hnu & Hker)|[-> Hg]].
  2:{ change (0 =? 0) with true. cbn match. wp_step. by destruct (Hgave k1 1025%nat Hg ltac:(unfold copy_bound; lia)) as (f' & ?); exists f'. }
  rewrite (proj2 (Z.eqb_neq d 0)) by done.
  pose proof (Z.div_mod sz PGSIZE ltac:(done)). pose proof (Z.mod_pos_bound sz PGSIZE ltac:(done)).
  eapply wp_mono.
  { apply (wp_copyuvm_from _ k free pgdir k1 f1 d sz 0); try done; try (unfold PGSIZE in *; lia).
    split; [done..|]. intros va Hva. rewrite decide_False by lia. by apply Hnu. }
  intros r k' [(-> & f' & i & [Has' Hm' Hker' Hc'] & Him & Hi)|[-> Hg]].
  - exists f'. destruct (made_of_parent k free pgdir k' f' d Has Hm' Has') as (? & ? & _ & ?).
    split; [done|]. split; [done|]. rewrite decide_False by done. do 4 (split; [done|]).
    intros va Hva. apply (copied_ubyte k pgdir k' d i); (done || lia).
  - by destruct (Hgave k' _ Hg ltac:(done)) as (f' & ?); exists f'.
Qed.

(** C8: processes are isolated from each other: whatever [allocuvm],
    [deallocuvm] and [copyout] do to the address space [d], another address
    space [p] that shares no page with it keeps its mappings and reads the same
    bytes everywhere, is still well formed, and still shares no page with it. *)
Theorem address_spaces_isolated k free p d :
  as_ok k p free → as_ok k d free → apart k p d →
  let isolated := λ k', ∃ free', as_ok k' p free' ∧ as_ok k' d free' ∧ apart k' p d ∧ same_user k k' p in
  (∀ oldsz newsz, 0 ≤ oldsz ≤ newsz → newsz < KERNBASE →
    (∀ va, is_u32 va → in_pages (PGROUNDUP oldsz) newsz va → ¬ present (entry k d va)) →
    wp (allocuvm kend d oldsz newsz) (λ _, isolated) k) ∧
  (∀ oldsz newsz, 0 ≤ newsz < oldsz → oldsz ≤ KERNBASE → wp (deallocuvm kend d oldsz newsz) (λ _, isolated) k) ∧
  (∀ va buf, 0 ≤ va → va + Z.of_nat (length buf) ≤ KERNBASE →
    (∀ x, va ≤ x < va + Z.of_nat (length buf) → user_pte (entry k d x)) →
    wp (copyout d va buf (Z.of_nat (length buf))) (λ _, isolated) k).
Proof.
  intros Hasp Hasd Hap isolated.
  assert (Hiso : ∀ k' free', as_ok k' d free' → confined k free k' free' d → isolated k').
  { intros k' f' Has' Hc. exists f'. by destruct (isolation k free k' f' p d Hasp Hap Hc Has') as (? & ? & ?). }
  split_and!.
  - intros oldsz newsz Ho Hn Hno. unfold allocuvm.
    rewrite (proj2 (Z.leb_gt _ _)), (proj2 (Z.ltb_ge _ _)) by lia.
    destruct (PGROUNDUP_bounds oldsz ltac:(lia)) as (Hm & Hb & _).
    pose proof (Z.div_mod newsz PGSIZE ltac:(done)). pose proof (Z.mod_pos_bound newsz PGSIZE ltac:(done)).
    eapply wp_mono; [apply (wp_allocuvm_from kend Hkend _ k free); try done; try (unfold PGSIZE in *; lia)|].
    intros r k' (f' & Has' & Hc & _). by apply (Hiso k' f').
  - intros oldsz newsz Hn Ho. eapply wp_mono; [by apply (wp_deallocuvm kend Hkend k free)|].
    intros r k' (_ & f' & Hu). apply (Hiso k' f'); [apply Hu|by eapply unmapped_confined].
  - intros va buf Hva Hend Hu. set (len := Z.of_nat (length buf)) in *.
    pose proof (Z.div_mod len PGSIZE ltac:(done)). pose proof (Z.mod_pos_bound len PGSIZE ltac:(done)).
    pose proof (Z.mod_pos_bound va PGSIZE ltac:(done)).
    eapply wp_mono; [apply (wp_copyout_from kend _ k free); try done; unfold PGSIZE in *; lia|].
    intros r k' (_ & Has' & Hc & _). by apply (Hiso k' free).
Qed.
End fork.

(** ** Witnesses: the address space [suser], and a second one beside it *)

Definition sdata : Z := KERNLINK + 0x8000.

Lemma sdata_ok : KERNLINK < sdata < KERNBASE + PHYSTOP ∧ sdata mod PGSIZE = 0.
Proof. unfold sdata, KERNLINK, EXTMEM, KERNBASE, PHYSTOP. split; [lia|done]. Qed.

Lemma copyuvm_correct_witness :
  ∃ free, wp (copyuvm (spage 0) sdata (spage 0) 100) (λ d k', ∃ free', as_ok (spage 0) k' (spage 0) free' ∧
    same_user suser k' (spage 0) ∧
    if decide (d = 0) then restored (spage 0) suser free k' free' ∧ (length free ≤ copy_bound 100)%nat
    else as_ok (spage 0) k' d free' ∧ apart k' (spage 0) d ∧ made_of suser free k' free' d ∧ kernel_part sdata k' d ∧
      ∀ va, 0 ≤ va < KERNBASE →
        if decide (page_of va < 100)
        then PTE_FLAGS (entry k' d va) = PTE_FLAGS (entry suser (spage 0) va) ∧ ubyte k' d va = ubyte suser (spage 0) va
        else ¬ present (entry k' d va)) suser.
Proof.
  destruct suser_grown as (free & Has & _). exists free.
  apply (copyuvm_correct (spage 0) skend sdata sdata_ok suser free (spage 0) 100 Has).
  - unfold KERNBASE. lia.
  - intros va Hva Hp. pose proof (Z.div_mod va PGSIZE ltac:(done)). pose proof (Z.mod_pos_bound va PGSIZE ltac:(done)).
    rewrite page_of_div in Hp. assert (E : va / PGSIZE = 0 / PGSIZE) by (rewrite Z.div_0_l by done; unfold PGSIZE in *; lia).
    rewrite (entry_same_page suser (spage 0) va 0); [|by apply user_u32|done|done]. exact (proj1 (suser_user 0 ltac:(lia))).
Defined.

(** A page directory made of the next free page of [suser]. *)
Definition smake : M kmem Z := mem ← kalloc; if mem =? 0 then ret 0 else fill_page mem 0 ;; ret mem.
Definition stwo : kmem := exec smake suser.

Lemma wp_smake k free d : as_ok (spage 0) k d free →
  wp smake (λ a k', a ≠ 0 → ∃ free', as_ok (spage 0) k' a free' ∧ as_ok (spage 0) k' d free' ∧ apart k' a d) k.
Proof.
  intros Has. unfold smake. wp_step. apply (wp_kalloc (spage 0) k free); [apply Has|]. destruct free as [|mem free].
  { change (0 =? 0) with true. cbn match. by wp_step. }
  intros next Hk1. pose proof (ao_kmem _ _ _ _ Has) as Hk. pose proof (ko_addr _ _ _ Hk) as Ha. inversion Ha as [|? ? Hm _]; subst.
  pose proof (page_addr_pos (spage 0) mem Hm). rewrite (proj2 (Z.eqb_neq mem 0)) by lia. wp_step.
  apply wp_store_page; [by apply (ko_all _ _ _ Hk1)|]. wp_step. intros _. exists free.
  destruct (as_new (spage 0) k mem free next Hk Hk1) as (H1 & [U _] & _).
  destruct (as_take (spage 0) k d mem free next (replicate npage 0) Has Hk1 (length_replicate _ _)) as (H3 & H4 & _).
  split_and!; [done|done|]. intros b Hb Hd. destruct (owned_not_free (spage 0) _ d free b H3 Hd) as [_ Hf].
  assert (b = mem) as ->; [|destruct Hd as [?|[(i & Hi & Hp & E)|(va & Hva & Hp & E)]]].
  - assert (Hu : b ∈ mem :: free) by (apply U; by right). by apply elem_of_cons in Hu as [|].
  - by apply (al_dir _ _ _ _ _ H4).
  - by apply (al_tab _ _ _ _ _ H4 i Hi Hp).
  - by apply (al_frame _ _ _ _ _ H4 va Hva Hp).
Qed.

Lemma smake_result : match smake suser with Ok a _ => a =? spage 3 | _ => false end = true.
Proof. vm_compute. reflexivity. Qed.

Lemma stwo_ok : ∃ free, as_ok (spage 0) stwo (spage 3) free ∧ as_ok (spage 0) stwo (spage 0) free ∧
  apart stwo (spage 3) (spage 0).
Proof.
  destruct suser_grown as (free & Has & _). pose proof (wp_smake suser free (spage 0) Has) as Hw.
  unfold stwo, exec, wp in *. pose proof smake_result as Hr. destruct (smake suser) as [a k'| | |]; try done.
  apply Z.eqb_eq in Hr as ->. apply Hw. unfold spage, KERNBASE, PHYSTOP, PGSIZE. lia.
Qed.

Lemma address_spaces_isolated_witness :
  wp (deallocuvm (spage 0) (spage 0) 100 0) (λ _ k', ∃ free', as_ok (spage 0) k' (spage 3) free' ∧
    as_ok (spage 0) k' (spage 0) free' ∧ apart k' (spage 3) (spage 0) ∧ same_user stwo k' (spage 3)) stwo.
Proof.
  destruct stwo_ok as (free & H1 & H2 & H3).
  destruct (address_spaces_isolated (spage 0) skend stwo free (spage 3) (spage 0) H1 H2 H3) as (_ & Hd & _).
  exact (Hd 100 0 ltac:(lia) ltac:(unfold KERNBASE; lia)).
Defined.
