(* ===== verification/Pipe.v ===== *)
(** * Pipes (pipe.c)

    A pipe is a ring buffer of PIPESIZE bytes with free-running 32-bit counters.
    [pipewrite] and [piperead] give the pipe's lock up while they sleep; each
    definition runs one critical section, from acquiring the lock to releasing
    it or to going to sleep, and is entered again with what is left to do when
    the process wakes up.  [pstep] interleaves the processes that use a pipe. *)

From stdpp Require Import functions.
From S2P Require Import Prelude Words Params Locks.

Definition PIPESIZE : Z := 512.

(** The two channels processes sleep on: the addresses of the counters. *)
Inductive pchan := C_nread | C_nwrite.
#[export] Instance pchan_eq_dec : EqDecision pchan.
Proof. solve_decision. Defined.

Record pipe := Pipe {
  p_lock : bool;
  p_data : list Z;
  p_nread : Z;       (* number of bytes read *)
  p_nwrite : Z;      (* number of bytes written *)
  p_readopen : bool; (* read fd is still open *)
  p_writeopen : bool (* write fd is still open *)
}.

(** A pipe and the channels woken up since the lock was taken. *)
Record pst := Pst { ps_pipe : pipe; ps_woken : list pchan }.

Definition with_plock v p := Pipe v (p_data p) (p_nread p) (p_nwrite p) (p_readopen p) (p_writeopen p).
Definition with_writeopen v p := Pipe (p_lock p) (p_data p) (p_nread p) (p_nwrite p) (p_readopen p) v.
Definition with_readopen v p := Pipe (p_lock p) (p_data p) (p_nread p) (p_nwrite p) v (p_writeopen p).
Definition on_pipe {A} (c : M pipe A) : M pst A := zoom ps_pipe (λ p s, Pst p (ps_woken s)) c.
Definition pacquire : M pst unit := on_pipe (zoom p_lock with_plock spin_acquire).
Definition prelease : M pst unit := on_pipe (zoom p_lock with_plock spin_release).
Definition pwakeup (c : pchan) : M pst unit := modify (λ s, Pst (ps_pipe s) (ps_woken s ++ [c])).
Definition the_pipe : M pst pipe := gets ps_pipe.

(** The pipe [pipealloc] initialises in its page. *)
Definition new_pipe (data : list Z) : pipe := Pipe false data 0 0 true true.

(** [p->data[p->nwrite++ % PIPESIZE] = b] and [p->data[p->nread++ % PIPESIZE]] *)
Definition put_byte (b : Z) p : pipe :=
  Pipe (p_lock p) (<[Z.to_nat (p_nwrite p mod PIPESIZE) := b]> (p_data p)) (p_nread p) (u32 (p_nwrite p + 1))
    (p_readopen p) (p_writeopen p).
Definition next_byte p : Z := p_data p !!! Z.to_nat (p_nread p mod PIPESIZE).
Definition drop_byte p : pipe :=
  Pipe (p_lock p) (p_data p) (u32 (p_nread p + 1)) (p_nwrite p) (p_readopen p) (p_writeopen p).

(** A critical section ends with a value returned, or asleep with the rest of
    the work. *)
Inductive pres (A : Type) := Returns (n : Z) | Sleeps (c : pchan) (rest : A).
Arguments Returns {A} n.
Arguments Sleeps {A} c rest.

Fixpoint pipewrite_from (killed : bool) (addr : list Z) (n : Z) : M pst (pres (list Z)) :=
  match addr with
  | [] => pwakeup C_nread ;; prelease ;; ret (Returns n)
  | b :: addr' =>
      p ← the_pipe;
      if p_nwrite p =? u32 (p_nread p + PIPESIZE) then
        if negb (p_readopen p) || killed then prelease ;; ret (Returns (-1))
        else pwakeup C_nread ;; prelease ;; ret (Sleeps C_nwrite addr)
      else on_pipe (modify (put_byte b)) ;; pipewrite_from killed addr' n
  end.

(** [pipewrite(p, addr, n)] with [addr] the bytes still to be written. *)
Definition pipewrite (killed : bool) (addr : list Z) (n : Z) : M pst (pres (list Z)) :=
  pacquire ;; pipewrite_from killed addr n.

Fixpoint piperead_from (n : nat) : M pst (list Z) :=
  match n with
  | O => ret []
  | S n' =>
      p ← the_pipe;
      if p_nread p =? p_nwrite p then ret []
      else
        on_pipe (modify drop_byte) ;;
        rest ← piperead_from n';
        ret (next_byte p :: rest)
  end.

(** [piperead(p, addr, n)]: the result and the bytes stored at [addr]. *)
Definition piperead (killed : bool) (n : Z) : M pst (pres unit * list Z) :=
  pacquire ;;
  p ← the_pipe;
  if (p_nread p =? p_nwrite p) && p_writeopen p then
    if killed then prelease ;; ret (Returns (-1), [])
    else prelease ;; ret (Sleeps C_nread tt, [])
  else
    bytes ← piperead_from (Z.to_nat n);
    pwakeup C_nwrite ;;
    prelease ;;
    ret (Returns (Z.of_nat (length bytes)), bytes).

(** [pipeclose]: whether the caller has to free the page of the pipe. *)
Definition pipeclose (writable : bool) : M pst bool :=
  pacquire ;;
  (if writable then on_pipe (modify (with_writeopen false)) ;; pwakeup C_nread
   else on_pipe (modify (with_readopen false)) ;; pwakeup C_nwrite) ;;
  p ← the_pipe;
  prelease ;;
  ret (negb (p_readopen p) && negb (p_writeopen p)).

(** ** The buffer as a queue *)

Definition count p : Z := u32 (p_nwrite p - p_nread p).
Definition content p : list Z :=
  (λ i, p_data p !!! Z.to_nat ((p_nread p + Z.of_nat i) mod PIPESIZE)) <$> seq 0 (Z.to_nat (count p)).

Record pipe_ok p : Prop := {
  po_data : length (p_data p) = Z.to_nat PIPESIZE;
  po_nread : is_u32 (p_nread p);
  po_nwrite : is_u32 (p_nwrite p);
  po_count : count p ≤ PIPESIZE
}.

Lemma count_range p : 0 ≤ count p < 2 ^ 32.
Proof. apply u32_range. Qed.

Lemma u32_cong a b : (a - b) mod 2 ^ 32 = 0 → u32 a = u32 b.
Proof.
  intros H. unfold u32. apply Z.mod_divide in H as [q H]; [|done].
  replace a with (b + q * 2 ^ 32) by lia. by rewrite Z.mod_add.
Qed.

Lemma is_u32_eq a b : is_u32 a → is_u32 b → u32 (a - b) = 0 → a = b.
Proof.
  unfold is_u32, u32. intros Ha Hb H. apply Z.mod_divide in H as [q H]; [|done].
  assert (q = 0) as -> by nia. lia.
Qed.

Lemma empty_iff p : pipe_ok p → (p_nread p =? p_nwrite p) = true ↔ content p = [].
Proof.
  intros [_ Hr Hw _]. rewrite Z.eqb_eq. unfold content. split.
  - intros E. unfold count. rewrite E, Z.sub_diag. done.
  - intros E. apply fmap_nil_inv in E. pose proof (count_range p).
    destruct (Z.to_nat (count p)) eqn:En; [|done]. symmetry. apply is_u32_eq; [done|done|]. unfold count in *. lia.
Qed.

Lemma full_iff p : pipe_ok p → (p_nwrite p =? u32 (p_nread p + PIPESIZE)) = true ↔ count p = PIPESIZE.
Proof.
  intros [_ Hr Hw _]. rewrite Z.eqb_eq. unfold count, PIPESIZE. split.
  - intros ->. unfold u32. rewrite Zminus_mod_idemp_l. replace (p_nread p + 512 - p_nread p) with 512 by lia. done.
  - intros E. rewrite <- (u32_id (p_nwrite p)) by done. apply u32_cong.
    unfold u32 in E. rewrite Z.sub_add_distr, Zminus_mod, E. done.
Qed.

(** The index of the next byte written, relative to the next byte read. *)
Lemma wr_index p : pipe_ok p → p_nwrite p mod PIPESIZE = (p_nread p + count p) mod PIPESIZE.
Proof.
  intros [_ Hr Hw _]. unfold count, u32, PIPESIZE.
  pose proof (Z.div_mod (p_nwrite p - p_nread p) (2 ^ 32) ltac:(done)) as Hd.
  set (q := (p_nwrite p - p_nread p) / 2 ^ 32) in *.
  replace (p_nread p + (p_nwrite p - p_nread p) mod 2 ^ 32) with (p_nwrite p + - (q * 8388608) * 512) by lia.
  by rewrite Z.mod_add.
Qed.

Lemma mod_distinct a i j : 0 ≤ i < PIPESIZE → 0 ≤ j < PIPESIZE → (a + i) mod PIPESIZE = (a + j) mod PIPESIZE → i = j.
Proof.
  unfold PIPESIZE. intros Hi Hj E. pose proof (Z.div_mod (a + i) 512 ltac:(done)).
  pose proof (Z.div_mod (a + j) 512 ltac:(done)). lia.
Qed.

Lemma u32_lsucc a : is_u32 a → u32 (a + 1) mod PIPESIZE = (a + 1) mod PIPESIZE.
Proof. unfold PIPESIZE, u32. intros. by rewrite <- (Znumtheory.Zmod_div_mod 512 (2 ^ 32)) by (done || by exists 8388608). Qed.

Lemma count_put b p : pipe_ok p → count p < PIPESIZE → count (put_byte b p) = count p + 1.
Proof.
  intros [_ Hr Hw _] Hc. pose proof (count_range p) as Hc0. unfold count in *. cbn [put_byte p_nwrite p_nread].
  rewrite u32_sub_idemp_l. replace (p_nwrite p + 1 - p_nread p) with (p_nwrite p - p_nread p + 1) by lia.
  rewrite <- u32_add_idemp_l. apply u32_id. unfold is_u32, PIPESIZE in *. lia.
Qed.

Lemma put_ok b p : pipe_ok p → count p < PIPESIZE → pipe_ok (put_byte b p).
Proof.
  intros Hp Hc. pose proof (count_put b p Hp Hc) as Ec. destruct Hp as [Hd Hr Hw _]. split; simpl; try done.
  - by rewrite length_insert.
  - apply u32_range.
  - lia.
Qed.

Lemma content_put b p : pipe_ok p → count p < PIPESIZE → content (put_byte b p) = content p ++ [b].
Proof.
  intros Hp Hc. unfold content. rewrite count_put by done. pose proof (count_range p) as Hr.
  replace (Z.to_nat (count p + 1)) with (Z.to_nat (count p) + 1)%nat by lia.
  rewrite seq_app, fmap_app. cbn [seq]. f_equal.
  - apply list_fmap_ext. intros i x Hi. apply lookup_seq in Hi as [-> Hi]. simpl.
    rewrite wr_index by done. rewrite list_lookup_total_insert_ne; [done|]. intros E.
    apply Z2Nat.inj in E; [|by apply Z.mod_pos_bound..]. apply mod_distinct in E; unfold PIPESIZE in *; lia.
  - cbn [fmap list_fmap]. f_equal. rewrite Nat.add_0_l, Z2Nat.id by lia. cbn [put_byte p_nread p_data].
    rewrite wr_index by done. apply list_lookup_total_insert_eq. destruct Hp as [-> _ _ _].
    pose proof (Z.mod_pos_bound (p_nread p + count p) PIPESIZE ltac:(done)). unfold PIPESIZE in *. lia.
Qed.

Lemma count_drop p : pipe_ok p → 0 < count p → count (drop_byte p) = count p - 1.
Proof.
  intros [_ Hr Hw _] Hc. pose proof (count_range p) as Hc0. unfold count in *. cbn [drop_byte p_nwrite p_nread].
  assert (u32 (p_nwrite p - u32 (p_nread p + 1)) = u32 (p_nwrite p - (p_nread p + 1))) as ->
    by (unfold u32; apply Zminus_mod_idemp_r).
  replace (p_nwrite p - (p_nread p + 1)) with (p_nwrite p - p_nread p - 1) by lia.
  rewrite <- u32_sub_idemp_l. apply u32_id. unfold is_u32. lia.
Qed.

Lemma drop_ok p : pipe_ok p → 0 < count p → pipe_ok (drop_byte p).
Proof.
  intros Hp Hc. pose proof (count_drop p Hp Hc) as Ec. destruct Hp as [Hd Hr Hw Hcp]. split; simpl; try done.
  - apply u32_range.
  - lia.
Qed.

Lemma content_drop p : pipe_ok p → 0 < count p → content p = next_byte p :: content (drop_byte p).
Proof.
  intros Hp Hc. unfold content. rewrite count_drop by done.
  replace (Z.to_nat (count p)) with (S (Z.to_nat (count p - 1))) by lia.
  cbn [seq]. rewrite fmap_cons. f_equal; [unfold next_byte; do 3 f_equal; lia|].
  rewrite <- fmap_S_seq, <- list_fmap_compose. apply list_fmap_ext. intros i x Hi. simpl. do 2 f_equal.
  rewrite <- (Z.add_mod_idemp_l (u32 _)), u32_lsucc, Z.add_mod_idemp_l by (done || apply Hp). f_equal. lia.
Qed.

Lemma length_content p : length (content p) = Z.to_nat (count p).
Proof. unfold content. by rewrite length_fmap, length_seq. Qed.

(** ** One critical section *)

(** [done] was put into the pipe. *)
Record put_bytes p p' (done : list Z) : Prop := {
  pb_ok : pipe_ok p';
  pb_content : content p' = content p ++ done;
  pb_nread : p_nread p' = p_nread p;
  pb_nwrite : p_nwrite p' = u32 (p_nwrite p + Z.of_nat (length done));
  pb_ends : p_readopen p' = p_readopen p ∧ p_writeopen p' = p_writeopen p
}.

Lemma put_bytes_nil p p' : pipe_ok p' → content p' = content p → p_nread p' = p_nread p → p_nwrite p' = p_nwrite p →
  p_readopen p' = p_readopen p → p_writeopen p' = p_writeopen p → put_bytes p p' [].
Proof.
  intros Hok Hc Hr Hw H1 H2. split; try done; [by rewrite app_nil_r|].
  rewrite Hw, Z.add_0_r, u32_id; [done|]. rewrite <- Hw. apply Hok.
Qed.

Lemma put_bytes_cons b p p' done : pipe_ok p → count p < PIPESIZE →
  put_bytes (put_byte b p) p' done → put_bytes p p' (b :: done).
Proof.
  intros Hp Hc [Hok Hco Hr Hw [H1 H2]]. split; try done.
  - rewrite Hco, content_put by done. by rewrite <- (assoc_L (++)).
  - rewrite Hw. cbn [put_byte p_nwrite length]. rewrite u32_add_idemp_l. f_equal. lia.
Qed.

Lemma locked_same v p : content (with_plock v p) = content p ∧ count (with_plock v p) = count p.
Proof. done. Qed.

Lemma pipe_ok_lock v p : pipe_ok p → pipe_ok (with_plock v p).
Proof. by intros [? ? ? ?]. Qed.

Lemma wp_prelease p ws (Q : unit → pst → Prop) :
  p_lock p = true → Q tt (Pst (with_plock false p) ws) → wp prelease Q (Pst p ws).
Proof. intros Hl HQ. apply wp_zoom, wp_zoom. unfold wp, spin_release. cbn [ps_pipe]. by rewrite Hl. Qed.

Lemma wp_pacquire p ws (Q : unit → pst → Prop) :
  p_lock p = false → Q tt (Pst (with_plock true p) ws) → wp pacquire Q (Pst p ws).
Proof. intros Hl HQ. apply wp_zoom, wp_zoom. unfold wp, spin_acquire. cbn [ps_pipe]. by rewrite Hl. Qed.

(** What a critical section of [pipewrite] on [addr] does. *)
Definition wrote (killed : bool) (addr : list Z) (n : Z) (p : pipe) (ws : list pchan) (r : pres (list Z)) (s' : pst) : Prop :=
  p_lock (ps_pipe s') = false ∧ ∃ done rest, addr = done ++ rest ∧ put_bytes p (ps_pipe s') done ∧
  match r with
  | Returns m =>
      (m = n ∧ rest = [] ∧ ps_woken s' = ws ++ [C_nread]) ∨
      (m = -1 ∧ rest ≠ [] ∧ count (ps_pipe s') = PIPESIZE ∧ (p_readopen p = false ∨ killed = true) ∧ ps_woken s' = ws)
  | Sleeps c rest' =>
      c = C_nwrite ∧ rest' = rest ∧ rest ≠ [] ∧ count (ps_pipe s') = PIPESIZE ∧ p_readopen p = true ∧ killed = false ∧
      ps_woken s' = ws ++ [C_nread]
  end.

Lemma wp_pipewrite_from killed addr n p ws :
  pipe_ok p → p_lock p = true → wp (pipewrite_from killed addr n) (wrote killed addr n p ws) (Pst p ws).
Proof.
  revert p. induction addr as [|b addr IH]; intros p Hp Hl; cbn [pipewrite_from]; unfold pwakeup.
  - wp_step. wp_step. wp_step. apply wp_prelease; [done|]. wp_step. split; [done|].
    exists [], []. split; [done|]. split; [by apply put_bytes_nil; [apply pipe_ok_lock|..]|]. by left.
  - unfold the_pipe. wp_step. wp_step. cbn [ps_pipe]. pose proof (full_iff p Hp) as Hfull.
    destruct (p_nwrite p =? u32 (p_nread p + PIPESIZE)).
    + assert (Hc : count p = PIPESIZE) by by apply Hfull.
      assert (Hpb : put_bytes p (with_plock false p) []) by (by apply put_bytes_nil; [apply pipe_ok_lock|..]).
      destruct (negb (p_readopen p) || killed) eqn:E.
      * wp_step. apply wp_prelease; [done|]. wp_step. split; [done|]. exists [], (b :: addr).
        split_and!; try done. right. split_and!; try done. bool_props; naive_solver.
      * wp_step. wp_step. wp_step. apply wp_prelease; [done|]. wp_step. bool_props. split; [done|].
        exists [], (b :: addr). split_and!; done.
    + assert (Hc : count p < PIPESIZE).
      { pose proof (po_count _ Hp). destruct (decide (count p = PIPESIZE)) as [E|]; [|lia]. by apply Hfull in E. }
      wp_step. apply wp_zoom. wp_step. cbn [ps_pipe ps_woken]. eapply wp_mono; [apply IH; [by apply put_ok|done]|].
      intros r s' (Hl' & done & rest & -> & Hpb & Hr). split; [done|]. exists (b :: done), rest.
      split; [done|]. split; [by apply put_bytes_cons|]. done.
Qed.

Lemma wp_pipewrite killed addr n p :
  pipe_ok p → p_lock p = false → wp (pipewrite killed addr n) (wrote killed addr n p []) (Pst p []).
Proof.
  intros Hp Hl. unfold pipewrite. wp_step. apply wp_pacquire; [done|].
  eapply wp_mono; [apply wp_pipewrite_from; [by apply pipe_ok_lock|done]|].
  intros r s' (Hl' & done & rest & -> & [] & Hr). split; [done|]. by exists done, rest.
Qed.

Lemma wp_piperead_from n p ws :
  pipe_ok p → wp (piperead_from n) (λ bytes s', pipe_ok (ps_pipe s') ∧ content p = bytes ++ content (ps_pipe s') ∧
    length bytes = Nat.min n (length (content p)) ∧ p_lock (ps_pipe s') = p_lock p ∧
    p_readopen (ps_pipe s') = p_readopen p ∧ p_writeopen (ps_pipe s') = p_writeopen p ∧ ps_woken s' = ws) (Pst p ws).
Proof.
  revert p. induction n as [|n IH]; intros p Hp; cbn [piperead_from]; [by wp_step|].
  unfold the_pipe. wp_step. wp_step. cbn [ps_pipe]. pose proof (empty_iff p Hp) as He.
  destruct (p_nread p =? p_nwrite p).
  - wp_step. cbn [ps_pipe ps_woken]. rewrite (proj1 He eq_refl). done.
  - assert (Hc : 0 < count p).
    { pose proof (count_range p). destruct (decide (count p = 0)) as [E|]; [|lia].
      pose proof (length_content p) as Hlc. rewrite E in Hlc. apply nil_length_inv, He in Hlc. done. }
    wp_step. apply wp_zoom. wp_step. cbn [ps_pipe ps_woken]. wp_step. eapply wp_mono; [apply IH; by apply drop_ok|].
    intros bytes s' (Hok & Hco & Hlen & Hrest). wp_step. rewrite (content_drop p Hp Hc).
    split; [done|]. split; [by rewrite Hco|]. split; [simpl; lia|done].
Qed.

(** What a critical section of [piperead] does. *)
Definition readp (killed : bool) (n : Z) (p : pipe) (r : pres unit * list Z) (s' : pst) : Prop :=
  p_lock (ps_pipe s') = false ∧ pipe_ok (ps_pipe s') ∧
  p_readopen (ps_pipe s') = p_readopen p ∧ p_writeopen (ps_pipe s') = p_writeopen p ∧
  content p = r.2 ++ content (ps_pipe s') ∧
  match r.1 with
  | Returns m =>
      (m = Z.of_nat (length r.2) ∧ length r.2 = Nat.min (Z.to_nat n) (length (content p)) ∧
       (content p = [] → p_writeopen p = false) ∧ ps_woken s' = [C_nwrite]) ∨
      (m = -1 ∧ killed = true ∧ content p = [] ∧ ps_woken s' = [])
  | Sleeps c _ => c = C_nread ∧ content p = [] ∧ p_writeopen p = true ∧ killed = false ∧ ps_woken s' = []
  end.

Lemma wp_piperead killed n p :
  pipe_ok p → p_lock p = false → wp (piperead killed n) (readp killed n p) (Pst p []).
Proof.
  intros Hp Hl. unfold piperead, the_pipe, pwakeup. wp_step. apply wp_pacquire; [done|]. wp_step. wp_step. cbn [ps_pipe].
  change (p_nread (with_plock true p)) with (p_nread p). change (p_nwrite (with_plock true p)) with (p_nwrite p).
  change (p_writeopen (with_plock true p)) with (p_writeopen p).
  pose proof (empty_iff p Hp) as He. destruct ((p_nread p =? p_nwrite p) && p_writeopen p) eqn:E.
  - bool_props. match goal with H : (p_nread p = p_nwrite p) |- _ => rewrite H, Z.eqb_refl in He end.
    assert (Hnil : content p = []) by by apply He.
    destruct killed; (wp_step; apply wp_prelease; [done|]; wp_step); unfold readp; simpl;
      refine (conj eq_refl (conj (pipe_ok_lock false p Hp) (conj eq_refl (conj eq_refl (conj eq_refl _))))).
    + right. done.
    + done.
  - wp_step. eapply wp_mono; [apply (wp_piperead_from _ (with_plock true p)); by apply pipe_ok_lock|].
    intros bytes [p' ws'] (Hok & Hco & Hlen & Hlk & Hro & Hwo & Hws). cbn [ps_pipe ps_woken] in *. subst ws'.
    wp_step. wp_step. wp_step. apply wp_prelease; [done|]. wp_step. unfold readp. simpl.
    refine (conj eq_refl (conj (pipe_ok_lock false p' Hok) (conj Hro (conj Hwo (conj Hco _))))). left. split_and!; try done.
    intros Hnil. apply He in Hnil. rewrite Hnil in E. by simpl in E.
Qed.

Lemma wp_pipeclose writable p :
  pipe_ok p → p_lock p = false →
  wp (pipeclose writable) (λ freed s', p_lock (ps_pipe s') = false ∧ pipe_ok (ps_pipe s') ∧
    content (ps_pipe s') = content p ∧ count (ps_pipe s') = count p ∧
    p_readopen (ps_pipe s') = writable && p_readopen p ∧ p_writeopen (ps_pipe s') = negb writable && p_writeopen p ∧
    ps_woken s' = [if writable then C_nread else C_nwrite] ∧
    freed = negb (p_readopen (ps_pipe s')) && negb (p_writeopen (ps_pipe s'))) (Pst p []).
Proof.
  intros [Hd Hr Hw Hc] Hl. unfold pipeclose, the_pipe, pwakeup. wp_step. apply wp_pacquire; [done|]. wp_step.
  destruct writable; wp_step; (apply wp_zoom; wp_step; cbn [ps_pipe ps_woken]; wp_step; do 2 wp_step;
    wp_step; apply wp_prelease; [done|]; wp_step; simpl; split_and!; try done; by split).
Qed.
