(* ===== verification/PipeStep.v ===== *)
(** * Processes sharing a pipe

    Readers and writers of a pipe interleave at the critical sections of
    [pipewrite] and [piperead]; [sleep] and [wakeup] appear as the channel a
    process is asleep on.  Bytes come out in the order they went in, and a
    process only sleeps while the pipe gives it a reason to. *)

From stdpp Require Import functions.
From S2P Require Import Prelude Words Params Locks Pipe.

Inductive pjob := NoJob | Writing (rest : list Z) (n : Z) | Reading (n : Z).

Record pthread := PThread {
  pt_job : pjob;
  pt_asleep : option pchan;
  pt_killed : bool
}.

Record psys := PSys {
  q_pipe : pipe;
  q_thr : nat → pthread;
  q_sent : list Z;     (* every byte written so far *)
  q_recv : list Z      (* every byte read so far *)
}.

(** [wakeup] on each of the channels. *)
Definition wake_thread (ws : list pchan) (t : pthread) : pthread :=
  match pt_asleep t with
  | Some c => if decide (c ∈ ws) then PThread (pt_job t) None (pt_killed t) else t
  | None => t
  end.
Definition wake (ws : list pchan) (thr : nat → pthread) : nat → pthread := λ i, wake_thread ws (thr i).

(** How many bytes of [rest] a critical section put into the pipe. *)
Definition nwrote (p p' : pipe) : nat := Z.to_nat (u32 (p_nwrite p' - p_nwrite p)).

Definition after_write (t : pthread) (n : Z) (r : pres (list Z)) : pthread :=
  match r with
  | Returns _ => PThread NoJob None (pt_killed t)
  | Sleeps c rest => PThread (Writing rest n) (Some c) (pt_killed t)
  end.
Definition after_read (t : pthread) (n : Z) (r : pres unit) : pthread :=
  match r with
  | Returns _ => PThread NoJob None (pt_killed t)
  | Sleeps c _ => PThread (Reading n) (Some c) (pt_killed t)
  end.

(** A process calls [pipewrite] or [piperead] while its end is open, runs a
    critical section when it is awake, and an end is closed when no process is
    using it (the file behind a descriptor in use has a reference). *)
Inductive pstep : psys → psys → Prop :=
| pstep_call_write i bytes p thr sent recv k :
    thr i = PThread NoJob None k → p_writeopen p = true →
    pstep (PSys p thr sent recv)
      (PSys p (<[i := PThread (Writing bytes (Z.of_nat (length bytes))) None k]> thr) sent recv)
| pstep_call_read i n p thr sent recv k :
    thr i = PThread NoJob None k → p_readopen p = true →
    pstep (PSys p thr sent recv) (PSys p (<[i := PThread (Reading n) None k]> thr) sent recv)
| pstep_write i rest n k p p' ws r thr sent recv :
    thr i = PThread (Writing rest n) None k →
    pipewrite k rest n (Pst p []) = Ok r (Pst p' ws) →
    pstep (PSys p thr sent recv)
      (PSys p' (<[i := after_write (thr i) n r]> (wake ws thr)) (sent ++ take (nwrote p p') rest) recv)
| pstep_read i n k p p' ws r bytes thr sent recv :
    thr i = PThread (Reading n) None k →
    piperead k n (Pst p []) = Ok (r, bytes) (Pst p' ws) →
    pstep (PSys p thr sent recv)
      (PSys p' (<[i := after_read (thr i) n r]> (wake ws thr)) sent (recv ++ bytes))
| pstep_close_write p p' ws b thr sent recv :
    (∀ j rest n, pt_job (thr j) ≠ Writing rest n) →
    pipeclose true (Pst p []) = Ok b (Pst p' ws) →
    pstep (PSys p thr sent recv) (PSys p' (wake ws thr) sent recv)
| pstep_close_read p p' ws b thr sent recv :
    (∀ j n, pt_job (thr j) ≠ Reading n) →
    pipeclose false (Pst p []) = Ok b (Pst p' ws) →
    pstep (PSys p thr sent recv) (PSys p' (wake ws thr) sent recv)
| pstep_kill i p thr sent recv :
    pstep (PSys p thr sent recv) (PSys p (<[i := PThread (pt_job (thr i)) None true]> thr) sent recv).

(** Why a process may be asleep. *)
Definition may_sleep (p : pipe) (t : pthread) : Prop :=
  match pt_asleep t with
  | None => True
  | Some C_nread => (∃ n, pt_job t = Reading n) ∧ content p = [] ∧ p_writeopen p = true
  | Some C_nwrite => (∃ rest n, pt_job t = Writing rest n) ∧ count p = PIPESIZE ∧ p_readopen p = true
  end.
Definition end_open (p : pipe) (t : pthread) : Prop :=
  match pt_job t with
  | NoJob => pt_asleep t = None
  | Writing _ _ => p_writeopen p = true ∧ pt_asleep t ≠ Some C_nread
  | Reading _ => p_readopen p = true ∧ pt_asleep t ≠ Some C_nwrite
  end.

Record psys_inv (σ : psys) : Prop := {
  pi_ok : pipe_ok (q_pipe σ);
  pi_lock : p_lock (q_pipe σ) = false;
  pi_fifo : q_sent σ = q_recv σ ++ content (q_pipe σ);
  pi_open : ∀ i, end_open (q_pipe σ) (q_thr σ i);
  pi_sleep : (∀ i, pt_killed (q_thr σ i) = false) → ∀ i, may_sleep (q_pipe σ) (q_thr σ i)
}.

Lemma wake_job ws t : pt_job (wake_thread ws t) = pt_job t.
Proof. unfold wake_thread. destruct (pt_asleep t); [case_decide|]; done. Qed.
Lemma wake_killed ws t : pt_killed (wake_thread ws t) = pt_killed t.
Proof. unfold wake_thread. destruct (pt_asleep t); [case_decide|]; done. Qed.
Lemma wake_asleep ws t c : pt_asleep (wake_thread ws t) = Some c → pt_asleep t = Some c ∧ c ∉ ws.
Proof. unfold wake_thread. destruct (pt_asleep t) eqn:E; [case_decide|]; simpl; intros; naive_solver congruence. Qed.

Lemma insert_all {A} (P : A → Prop) (f : nat → A) i x :
  P x → (∀ j, j ≠ i → P (f j)) → ∀ j, P (<[i := x]> f j).
Proof.
  intros Hx Hf j. destruct (decide (j = i)) as [->|]; [by rewrite fn_lookup_insert|].
  rewrite fn_lookup_insert_ne by done. by apply Hf.
Qed.

Lemma end_open_wake p p' ws t :
  p_readopen p' = p_readopen p → p_writeopen p' = p_writeopen p → end_open p t → end_open p' (wake_thread ws t).
Proof.
  intros Hr Hw. unfold end_open. rewrite wake_job, Hr, Hw. unfold wake_thread.
  destruct t as [[] [c|] k]; simpl; try done; case_decide; simpl; naive_solver.
Qed.

(** The other processes after a critical section: those asleep on a channel
    that was not woken still have their reason. *)
Lemma may_sleep_wake p p' ws t :
  (C_nread ∉ ws → (∃ n, pt_job t = Reading n) → content p = [] → p_writeopen p = true → content p' = [] ∧ p_writeopen p' = true) →
  (C_nwrite ∉ ws → (∃ rest n, pt_job t = Writing rest n) → count p = PIPESIZE → p_readopen p = true →
     count p' = PIPESIZE ∧ p_readopen p' = true) →
  may_sleep p t → may_sleep p' (wake_thread ws t).
Proof.
  intros Hr Hw Hm. unfold may_sleep in *. rewrite wake_job.
  destruct (pt_asleep (wake_thread ws t)) as [c|] eqn:E; [|done].
  apply wake_asleep in E as [E Hc]. rewrite E in Hm. destruct c; naive_solver.
Qed.

(** Nobody killed after the step of process [i] means nobody killed before. *)
Lemma none_killed i t ws (thr : nat → pthread) :
  pt_killed t = pt_killed (thr i) → (∀ j, pt_killed (<[i := t]> (wake ws thr) j) = false) → ∀ j, pt_killed (thr j) = false.
Proof.
  intros Hi Hk j. specialize (Hk j). destruct (decide (j = i)) as [->|].
  - by rewrite fn_lookup_insert, Hi in Hk.
  - rewrite fn_lookup_insert_ne in Hk by done. unfold wake in Hk. by rewrite wake_killed in Hk.
Qed.

Lemma after_write_killed t n r : pt_killed (after_write t n r) = pt_killed t.
Proof. by destruct r. Qed.
Lemma after_read_killed t n r : pt_killed (after_read t n r) = pt_killed t.
Proof. by destruct r. Qed.

Lemma put_bytes_done p p' done : put_bytes p p' done →
  Z.of_nat (length done) = count p' - count p ∧ count p' ≤ PIPESIZE.
Proof.
  intros [Hok Hco _ _ _]. pose proof (po_count _ Hok). pose proof (length_content p') as E.
  pose proof (count_range p'). pose proof (count_range p). rewrite Hco, length_app, length_content in E. lia.
Qed.

Lemma nwrote_eq p p' done : pipe_ok p → put_bytes p p' done → nwrote p p' = length done.
Proof.
  intros Hp Hpb. pose proof (put_bytes_done p p' done Hpb). destruct Hpb as [Hok Hco Hr Hw _].
  unfold nwrote. rewrite Hw, u32_sub_idemp_l. pose proof (count_range p).
  replace (p_nwrite p + Z.of_nat (length done) - p_nwrite p) with (Z.of_nat (length done)) by lia.
  rewrite u32_id; [lia|]. unfold is_u32, PIPESIZE in *. lia.
Qed.

(** A full pipe stays full, and a reader is only left asleep when it was given
    nothing. *)
Lemma others_write k addr n p p' ws r t :
  wrote k addr n p [] r (Pst p' ws) → k = false → end_open p t → may_sleep p t → may_sleep p' (wake_thread ws t).
Proof.
  intros (_ & done & rest & -> & Hpb & Hr) -> Ho. pose proof (put_bytes_done p p' done Hpb).
  destruct Hpb as [Hok' _ _ _ [Hro Hwo]]. cbn [ps_pipe ps_woken] in *. apply may_sleep_wake.
  - intros Hn (m & Hj) Hc _. unfold end_open in Ho. rewrite Hj in Ho. destruct Ho as [Ho _].
    destruct r; [destruct Hr as [(_ & _ & ->)|(_ & _ & _ & [?|?] & _)]|destruct Hr as (_ & _ & _ & _ & _ & _ & ->)];
      solve [set_solver|congruence].
  - intros _ _ Hc Hro'. rewrite Hro. split; [lia|done].
Qed.

Lemma write_inv i rest n k p p' ws r thr sent recv :
  psys_inv (PSys p thr sent recv) → thr i = PThread (Writing rest n) None k →
  pipewrite k rest n (Pst p []) = Ok r (Pst p' ws) →
  psys_inv (PSys p' (<[i := after_write (thr i) n r]> (wake ws thr)) (sent ++ take (nwrote p p') rest) recv).
Proof.
  intros [Hok Hl Hf Ho Hs] Ht E. cbn [q_pipe q_thr q_sent q_recv] in *.
  pose proof (wp_pipewrite k rest n p Hok Hl) as Hw. unfold wp in Hw. rewrite E in Hw.
  pose proof (others_write k rest n p p' ws r) as Hothers. specialize (λ t, Hothers t Hw).
  destruct Hw as (Hl' & done & left & -> & Hpb & Hr). cbn [ps_pipe ps_woken] in *.
  pose proof (nwrote_eq p p' done Hok Hpb) as En. destruct Hpb as [Hok' Hco Hnr Hnw [Hro Hwo]].
  pose proof (Ho i) as Hoi. rewrite Ht in Hoi. cbn in Hoi.
  split; cbn [q_pipe q_thr q_sent q_recv]; [done|done| | |].
  - rewrite En, take_app_length, Hf, Hco. by rewrite (assoc_L (++)).
  - apply insert_all; [|intros j _; by apply (end_open_wake p)].
    rewrite Ht. destruct r; cbn; [done|]. destruct Hr as (-> & _). rewrite Hwo. naive_solver.
  - intros Hk. pose proof (none_killed _ _ _ _ (after_write_killed _ _ _) Hk) as Hk0. clear Hk. rename Hk0 into Hk. specialize (Hs Hk).
    pose proof (Hk i) as Hki. rewrite Ht in Hki. cbn in Hki. apply insert_all; [|intros j _; by apply Hothers].
    rewrite Ht. unfold may_sleep. destruct r as [m|c rest']; cbn; [done|].
    destruct Hr as (-> & -> & _ & Hc & Hro' & _). rewrite Hro. naive_solver.
Qed.

Lemma read_inv i n k p p' ws r bytes thr sent recv :
  psys_inv (PSys p thr sent recv) → thr i = PThread (Reading n) None k →
  piperead k n (Pst p []) = Ok (r, bytes) (Pst p' ws) →
  psys_inv (PSys p' (<[i := after_read (thr i) n r]> (wake ws thr)) sent (recv ++ bytes)).
Proof.
  intros [Hok Hl Hf Ho Hs] Ht E. cbn [q_pipe q_thr q_sent q_recv] in *.
  pose proof (wp_piperead k n p Hok Hl) as Hw. unfold wp in Hw. rewrite E in Hw.
  destruct Hw as (Hl' & Hok' & Hro & Hwo & Hco & Hr). cbn [ps_pipe ps_woken fst snd] in *.
  pose proof (Ho i) as Hoi. rewrite Ht in Hoi. cbn in Hoi.
  split; cbn [q_pipe q_thr q_sent q_recv]; [done|done| | |].
  - by rewrite Hf, Hco, (assoc_L (++)).
  - apply insert_all; [|intros j _; by apply (end_open_wake p)].
    rewrite Ht. destruct r; cbn; [done|]. destruct Hr as (-> & _). rewrite Hro. naive_solver.
  - intros Hk. pose proof (none_killed _ _ _ _ (after_read_killed _ _ _) Hk) as Hk0. clear Hk. rename Hk0 into Hk. specialize (Hs Hk).
    pose proof (Hk i) as Hki. rewrite Ht in Hki. cbn in Hki. apply insert_all.
    { rewrite Ht. unfold may_sleep. destruct r as [m|c rest']; cbn; [done|].
      destruct Hr as (-> & Hc & Hw' & _). rewrite Hwo, Hw'. rewrite Hc in Hco. symmetry in Hco.
      apply app_nil in Hco as [_ ->]. naive_solver. }
    intros j _. apply (may_sleep_wake p); [| |done].
    + intros _ _ Hc Hw'. rewrite Hwo, Hw'. rewrite Hc in Hco. symmetry in Hco. by apply app_nil in Hco as [_ ->].
    + intros Hn _ Hc _. assert (Hne : content p ≠ []).
      { intros Hnil. pose proof (length_content p) as HL. rewrite Hnil, Hc in HL. done. }
      destruct r; naive_solver set_solver.
Qed.

Lemma close_inv (writable : bool) p p' ws b thr sent recv :
  psys_inv (PSys p thr sent recv) → (∀ j, if writable then ∀ rest n, pt_job (thr j) ≠ Writing rest n else ∀ n, pt_job (thr j) ≠ Reading n) →
  pipeclose writable (Pst p []) = Ok b (Pst p' ws) → psys_inv (PSys p' (wake ws thr) sent recv).
Proof.
  intros [Hok Hl Hf Ho Hs] Hno E. cbn [q_pipe q_thr q_sent q_recv] in *.
  pose proof (wp_pipeclose writable p Hok Hl) as Hw. unfold wp in Hw. rewrite E in Hw.
  destruct Hw as (Hl' & Hok' & Hco & Hct & Hro & Hwo & Hws & _). cbn [ps_pipe ps_woken] in *.
  split; cbn [q_pipe q_thr q_sent q_recv]; [done|done|by rewrite Hco| |].
  - intros j. specialize (Ho j). specialize (Hno j). unfold end_open, wake in *. rewrite wake_job.
    destruct (pt_job (thr j)) eqn:Ej; unfold wake_thread.
    + by rewrite Ho.
    + destruct writable; [exfalso; eapply Hno; reflexivity|]. rewrite Hwo. simpl. destruct Ho as [-> Ho]. split; [done|].
      destruct (pt_asleep (thr j)) eqn:Ea; [case_decide|]; simpl; congruence.
    + destruct writable; [|exfalso; eapply Hno; reflexivity]. rewrite Hro. simpl. destruct Ho as [-> Ho]. split; [done|].
      destruct (pt_asleep (thr j)) eqn:Ea; [case_decide|]; simpl; congruence.
  - intros Hk j. assert (Hk0 : ∀ i, pt_killed (thr i) = false).
    { intros i. specialize (Hk i). unfold wake in Hk. by rewrite wake_killed in Hk. }
    apply (may_sleep_wake p); [| |by apply Hs]; rewrite Hws, ?Hco, ?Hct, ?Hro, ?Hwo; destruct writable; set_solver.
Qed.

Lemma pstep_inv σ σ' : psys_inv σ → pstep σ σ' → psys_inv σ'.
Proof.
  intros Hinv Hstep. destruct Hstep as [i bytes p thr sent recv k Ht Hopen|i n p thr sent recv k Ht Hopen|
    |i n k p p' ws r bytes|p p' ws b thr sent recv Hno|p p' ws b thr sent recv Hno|i p thr sent recv].
  - destruct Hinv as [Hok Hl Hf Ho Hs]. split; cbn [q_pipe q_thr q_sent q_recv] in *; try done.
    + by apply insert_all.
    + intros Hk. apply insert_all; [done|]. intros j _. apply Hs. intros m. specialize (Hk m).
      destruct (decide (m = i)) as [->|]; [rewrite fn_lookup_insert in Hk; by rewrite Ht|by rewrite fn_lookup_insert_ne in Hk].
  - destruct Hinv as [Hok Hl Hf Ho Hs]. split; cbn [q_pipe q_thr q_sent q_recv] in *; try done.
    + by apply insert_all.
    + intros Hk. apply insert_all; [done|]. intros j _. apply Hs. intros m. specialize (Hk m).
      destruct (decide (m = i)) as [->|]; [rewrite fn_lookup_insert in Hk; by rewrite Ht|by rewrite fn_lookup_insert_ne in Hk].
  - by eapply write_inv.
  - by eapply read_inv.
  - by eapply (close_inv true).
  - eapply (close_inv false); [done| |done]. done.
  - destruct Hinv as [Hok Hl Hf Ho Hs]. split; cbn [q_pipe q_thr q_sent q_recv] in *; try done.
    + apply insert_all; [|done]. specialize (Ho i). unfold end_open in *. simpl. destruct (pt_job (thr i)); naive_solver.
    + intros Hk. specialize (Hk i). by rewrite fn_lookup_insert in Hk.
Qed.

(** A pipe just made by [pipealloc], with no process in it. *)
Definition psys_init (data : list Z) : psys := PSys (new_pipe data) (λ _, PThread NoJob None false) [] [].

Lemma psys_init_inv data : length data = Z.to_nat PIPESIZE → psys_inv (psys_init data).
Proof. intros Hd. split; simpl; try done. Qed.

Lemma psys_reachable_inv data σ : length data = Z.to_nat PIPESIZE → rtc pstep (psys_init data) σ → psys_inv σ.
Proof.
  intros Hd Hr. apply psys_init_inv in Hd. induction Hr as [|σ1 σ2 σ3 H1 _ IH]; [done|]. apply IH. by eapply pstep_inv.
Qed.

(** ** Theorems *)

Definition reading (t : pthread) : Prop := ∃ n, pt_job t = Reading n.
Definition writing (t : pthread) : Prop := ∃ rest n, pt_job t = Writing rest n.

(** Process [i] can run its next critical section. *)
Definition can_run (σ : psys) (i : nat) : Prop :=
  pt_asleep (q_thr σ i) = None ∧
  match pt_job (q_thr σ i) with
  | NoJob => False
  | Writing rest n =>
      ∃ r s', pipewrite (pt_killed (q_thr σ i)) rest n (Pst (q_pipe σ) []) = Ok r s'
  | Reading n => ∃ r s', piperead (pt_killed (q_thr σ i)) n (Pst (q_pipe σ) []) = Ok r s'
  end.

Lemma awake_can_run σ i : psys_inv σ → pt_asleep (q_thr σ i) = None → pt_job (q_thr σ i) ≠ NoJob → can_run σ i.
Proof.
  intros [Hok Hl _ _ _] Ha Hj. split; [done|]. destruct (pt_job (q_thr σ i)); [done| |]; eapply wp_returns.
  - by apply wp_pipewrite.
  - by apply wp_piperead.
Qed.


(** C11: no wakeup is lost as long as no process is killed: a process asleep in
    [piperead] has an empty pipe with an open write end, one asleep in
    [pipewrite] has a full pipe with an open read end, and when one process
    reads and another writes, one of the two can run. *)
Theorem pipe_no_lost_wakeup data σ :
  length data = Z.to_nat PIPESIZE → rtc pstep (psys_init data) σ → (∀ i, pt_killed (q_thr σ i) = false) →
  (∀ i, pt_asleep (q_thr σ i) = Some C_nread → content (q_pipe σ) = [] ∧ p_writeopen (q_pipe σ) = true) ∧
  (∀ i, pt_asleep (q_thr σ i) = Some C_nwrite → count (q_pipe σ) = PIPESIZE ∧ p_readopen (q_pipe σ) = true) ∧
  (∀ i j, reading (q_thr σ i) → writing (q_thr σ j) → can_run σ i ∨ can_run σ j).
Proof.
  intros Hd Hr Hk. pose proof (psys_reachable_inv data σ Hd Hr) as Hinv. pose proof (pi_sleep _ Hinv Hk) as Hs.
  unfold may_sleep in Hs.
  assert (H1 : ∀ i, pt_asleep (q_thr σ i) = Some C_nread → content (q_pipe σ) = [] ∧ p_writeopen (q_pipe σ) = true).
  { intros i Ha. specialize (Hs i). rewrite Ha in Hs. naive_solver. }
  assert (H2 : ∀ i, pt_asleep (q_thr σ i) = Some C_nwrite → count (q_pipe σ) = PIPESIZE ∧ p_readopen (q_pipe σ) = true).
  { intros i Ha. specialize (Hs i). rewrite Ha in Hs. naive_solver. }
  refine (conj H1 (conj H2 _)). intros i j [n Hi] (rest & m & Hj).
  destruct (pt_asleep (q_thr σ i)) as [[]|] eqn:Ei; [|specialize (Hs i); rewrite Ei, Hi in Hs; naive_solver|].
  - right. apply awake_can_run; [done| |by rewrite Hj].
    destruct (pt_asleep (q_thr σ j)) as [[]|] eqn:Ej; [specialize (Hs j); rewrite Ej, Hj in Hs; naive_solver| |done].
    destruct (H1 i Ei) as [Hc _]. destruct (H2 j Ej) as [Hf _].
    pose proof (length_content (q_pipe σ)) as HL. by rewrite Hc, Hf in HL.
  - left. apply awake_can_run; [done|done|by rewrite Hi].
Qed.

(** *** Runs *)

Definition zeros : list Z := replicate 512 0.
Definition idle : nat → pthread := λ _, PThread NoJob None false.

(** Process 0 waits for a byte, process 1 writes two, process 0 wakes up and
    reads one of them. *)
Definition run_thr1 := <[0%nat := PThread (Reading 1) None false]> idle.
Definition run_thr2 := <[0%nat := PThread (Reading 1) (Some C_nread) false]> (wake [] run_thr1).
Definition run_thr3 := <[1%nat := PThread (Writing [65; 66] 2) None false]> run_thr2.
Definition run_pipe : pipe := Pipe false (65 :: 66 :: replicate 510 0) 0 2 true true.
Definition run_thr4 := <[1%nat := PThread NoJob None false]> (wake [C_nread] run_thr3).
Definition run_thr5 := <[0%nat := PThread NoJob None false]> (wake [C_nwrite] run_thr4).
Definition run_end : psys := PSys (drop_byte run_pipe) run_thr5 [65; 66] [65].

Lemma run_reachable : rtc pstep (psys_init zeros) run_end.
Proof.
  eapply rtc_l; [exact (pstep_call_read 0 1 (new_pipe zeros) idle [] [] false eq_refl eq_refl)|].
  eapply rtc_l; [refine (pstep_read 0 1 false _ (new_pipe zeros) [] (Sleeps C_nread tt) [] run_thr1 [] [] eq_refl _); vm_compute; reflexivity|].
  eapply rtc_l; [exact (pstep_call_write 1 [65; 66] (new_pipe zeros) run_thr2 [] [] false eq_refl eq_refl)|].
  eapply rtc_l; [refine (pstep_write 1 [65; 66] 2 false _ run_pipe [C_nread] (Returns 2) run_thr3 [] _ eq_refl _); vm_compute; reflexivity|].
  eapply rtc_l; [refine (pstep_read 0 1 false _ (drop_byte run_pipe) [C_nwrite] (Returns 1) [65] run_thr4 _ _ eq_refl _); vm_compute; reflexivity|].
  apply rtc_refl.
Qed.


(** Process 0 asleep, before the write. *)
Definition run_mid : psys := PSys (new_pipe zeros) run_thr2 [] [].

Lemma run_mid_reachable : rtc pstep (psys_init zeros) run_mid.
Proof.
  eapply rtc_l; [exact (pstep_call_read 0 1 (new_pipe zeros) idle [] [] false eq_refl eq_refl)|].
  eapply rtc_l; [refine (pstep_read 0 1 false _ (new_pipe zeros) [] (Sleeps C_nread tt) [] run_thr1 [] [] eq_refl _); vm_compute; reflexivity|].
  apply rtc_refl.
Qed.

Lemma pipe_no_lost_wakeup_witness :
  pt_asleep (q_thr run_mid 0) = Some C_nread ∧ content (q_pipe run_mid) = [] ∧ p_writeopen (q_pipe run_mid) = true.
Proof.
  split; [reflexivity|]. refine (proj1 (pipe_no_lost_wakeup zeros run_mid eq_refl run_mid_reachable _) 0%nat eq_refl).
  intros [|j]; reflexivity.
Defined.

(** A writer killed after it entered [pipewrite] fills the buffer and returns
    -1 without waking the readers: a reader sleeps although the pipe is full. *)
Definition k_thr3 := <[1%nat := PThread (Writing (replicate 513 7) 513) None false]> run_thr2.
Definition k_thr4 := <[1%nat := PThread (Writing (replicate 513 7) 513) None true]> k_thr3.
Definition k_thr5 := <[1%nat := PThread NoJob None true]> (wake [] k_thr4).
Definition k_pipe : pipe := Pipe false (replicate 512 7) 0 512 true true.
Definition k_end : psys := PSys k_pipe k_thr5 (replicate 512 7) [].

Theorem killed_writer_leaves_reader_asleep :
  rtc pstep (psys_init zeros) k_end ∧ pt_asleep (q_thr k_end 0) = Some C_nread ∧ pt_killed (q_thr k_end 0) = false ∧
  count (q_pipe k_end) = PIPESIZE ∧ pt_job (q_thr k_end 1) = NoJob.
Proof.
  split; [|repeat split; vm_compute; reflexivity].
  eapply rtc_l; [exact (pstep_call_read 0 1 (new_pipe zeros) idle [] [] false eq_refl eq_refl)|].
  eapply rtc_l; [refine (pstep_read 0 1 false _ (new_pipe zeros) [] (Sleeps C_nread tt) [] run_thr1 [] [] eq_refl _); vm_compute; reflexivity|].
  eapply rtc_l; [exact (pstep_call_write 1 (replicate 513 7) (new_pipe zeros) run_thr2 [] [] false eq_refl eq_refl)|].
  eapply rtc_l; [exact (pstep_kill 1 (new_pipe zeros) k_thr3 [] [])|].
  eapply rtc_l; [refine (pstep_write 1 (replicate 513 7) 513 true _ k_pipe [] (Returns (-1)) k_thr4 [] _ eq_refl _); vm_compute; reflexivity|].
  apply rtc_refl.
Qed.
