(* ===== verification/File.v ===== *)
(** * Open files (file.c) and the creation of pipes (pipe.c)

    The file table over the file system, the pipes and the page allocator.  A
    pipe lives in a page of its own; [fl_pipes] holds, by address, the pages in
    use as [struct pipe].  A call that has to wait ends [Sleep]ing, as in the
    layers below; what happens around the wait is in [PipeStep] and [ProcStep]. *)

From S2P Require Import Prelude Words Params Locks BufIface Log Fs Kalloc Pipe.

Inductive fdtype := FD_NONE | FD_PIPE | FD_INODE.
#[export] Instance fdtype_eq_dec : EqDecision fdtype.
Proof. solve_decision. Defined.

Record file := File {
  f_type : fdtype;
  f_ref : Z;          (* reference count *)
  f_readable : bool;
  f_writable : bool;
  f_pipe : Z;         (* address of the pipe *)
  f_ip : nat;         (* slot of the inode *)
  f_off : Z
}.

Definition fset_ref v f := File (f_type f) v (f_readable f) (f_writable f) (f_pipe f) (f_ip f) (f_off f).
Definition fset_type v f := File v (f_ref f) (f_readable f) (f_writable f) (f_pipe f) (f_ip f) (f_off f).
Definition fset_off v f := File (f_type f) (f_ref f) (f_readable f) (f_writable f) (f_pipe f) (f_ip f) v.
Definition fset_pipe (readable writable : bool) p f := File FD_PIPE (f_ref f) readable writable p (f_ip f) (f_off f).
Definition fset_inode (readable writable : bool) ip f := File FD_INODE (f_ref f) readable writable (f_pipe f) ip 0.
Definition zero_file : file := File FD_NONE 0 false false 0 0 0.
#[export] Instance file_inhabited : Inhabited file := populate zero_file.

Record files (S : Type) := Files {
  fl_fs : fs S;
  fl_lock : bool;            (* ftable.lock *)
  fl_file : list file;       (* ftable.file *)
  fl_pipes : gmap Z pipe;
  fl_mem : kmem
}.
Arguments Files {S}.
Arguments fl_fs {S}.
Arguments fl_lock {S}.
Arguments fl_file {S}.
Arguments fl_pipes {S}.
Arguments fl_mem {S}.

Section setters.
Context {S : Type}.
Implicit Types s : files S.
Definition with_fs (v : fs S) s : files S := Files v (fl_lock s) (fl_file s) (fl_pipes s) (fl_mem s).
Definition with_ftlock v s : files S := Files (fl_fs s) v (fl_file s) (fl_pipes s) (fl_mem s).
Definition with_file v s : files S := Files (fl_fs s) (fl_lock s) v (fl_pipes s) (fl_mem s).
Definition with_pipes v s : files S := Files (fl_fs s) (fl_lock s) (fl_file s) v (fl_mem s).
Definition with_mem v s : files S := Files (fl_fs s) (fl_lock s) (fl_file s) (fl_pipes s) v.
Definition filen s (f : nat) : file := fl_file s !!! f.
Definition fupd (f : nat) (g : file → file) s : files S := with_file (<[f := g (filen s f)]> (fl_file s)) s.
End setters.

Section files.
Context {S : Type} `{BufCache S} `{DevSw S} (kend : Z).

Definition on_fs {A} (c : M (fs S) A) : M (files S) A := zoom fl_fs with_fs c.
Definition on_mem {A} (c : M kmem A) : M (files S) A := zoom fl_mem with_mem c.
Definition ft_acquire : M (files S) unit := zoom fl_lock with_ftlock spin_acquire.
Definition ft_release : M (files S) unit := zoom fl_lock with_ftlock spin_release.
Definition fbegin_op : M (files S) unit := on_fs (on_log begin_op).
Definition fend_op : M (files S) unit := on_fs (on_log end_op).
Definition file_of (f : nat) : M (files S) file := gets (λ s, filen s f).

(** A critical section on the pipe at address [a]; nothing else may be there. *)
Definition on_pipe_at {A} (a : Z) (c : M pst A) : M (files S) A := λ s,
  match fl_pipes s !! a with
  | None => Fault
  | Some p =>
      match c (Pst p []) with
      | Ok x s' => Ok x (with_pipes (<[a := ps_pipe s']> (fl_pipes s)) s)
      | Panic msg => Panic msg
      | Sleep s' => Sleep (with_pipes (<[a := ps_pipe s']> (fl_pipes s)) s)
      | Fault => Fault
      end
  end.

Definition fileinit : M (files S) unit := modify (with_ftlock false).

(** The first file of the table without a reference. *)
Fixpoint free_file (l : list file) (i : nat) : option nat :=
  match l with
  | [] => None
  | f :: l' => if f_ref f =? 0 then Some i else free_file l' (Datatypes.S i)
  end.

Definition filealloc : M (files S) (option nat) :=
  ft_acquire ;;
  l ← gets fl_file;
  match free_file l 0 with
  | Some f => modify (fupd f (fset_ref 1)) ;; ft_release ;; ret (Some f)
  | None => ft_release ;; ret None
  end.

Definition filedup (f : nat) : M (files S) nat :=
  ft_acquire ;;
  x ← file_of f;
  if f_ref x <? 1 then panic "filedup" else
  modify (fupd f (fset_ref (f_ref x + 1))) ;;
  ft_release ;;
  ret f.

(** [pipeclose(p, writable)] with the page freed once both ends are closed. *)
Definition close_pipe (a : Z) (writable : bool) : M (files S) unit :=
  freed ← on_pipe_at a (pipeclose writable);
  whenM freed (modify (λ s, with_pipes (delete a (fl_pipes s)) s) ;; on_mem (kfree kend a)).

Definition fileclose (f : nat) : M (files S) unit :=
  ft_acquire ;;
  x ← file_of f;
  if f_ref x <? 1 then panic "fileclose" else
  modify (fupd f (fset_ref (f_ref x - 1))) ;;
  if 0 <? f_ref x - 1 then ft_release
  else
    modify (fupd f (λ y, fset_type FD_NONE (fset_ref 0 y))) ;;
    ft_release ;;
    match f_type x with
    | FD_PIPE => close_pipe (f_pipe x) (f_writable x)
    | FD_INODE => fbegin_op ;; on_fs (iput (f_ip x)) ;; fend_op
    | FD_NONE => ret tt
    end.

Definition filestat (f : nat) : M (files S) (Z * option stat) :=
  x ← file_of f;
  match f_type x with
  | FD_INODE =>
      on_fs (ilock (f_ip x)) ;;
      st ← on_fs (stati (f_ip x));
      on_fs (iunlock (f_ip x)) ;;
      ret (0, Some st)
  | _ => ret (-1, None)
  end.

(** [fileread(f, addr, n)]: the result and the bytes stored at [addr]. *)
Definition fileread (killed : bool) (f : nat) (n : Z) : M (files S) (Z * list Z) :=
  x ← file_of f;
  if negb (f_readable x) then ret (-1, []) else
  match f_type x with
  | FD_PIPE =>
      r ← on_pipe_at (f_pipe x) (piperead killed n);
      match r.1 with
      | Returns m => ret (m, r.2)
      | Sleeps _ _ => sleeping
      end
  | FD_INODE =>
      on_fs (ilock (f_ip x)) ;;
      r ← on_fs (readi (f_ip x) (f_off x) n);
      whenM (0 <? r.1) (modify (fupd f (fset_off (u32 (f_off x + r.1))))) ;;
      on_fs (iunlock (f_ip x)) ;;
      ret r
  | FD_NONE => panic "fileread"
  end.

(** Bytes of one log transaction: the i-node, the indirect block, and two
    blocks of slop for unaligned writes leave room for three data blocks and
    their bitmap blocks. *)
Definition max_write : Z := (MAXOPBLOCKS - 1 - 1 - 2) / 2 * 512.

(** The loop of [filewrite]: how many bytes were written when it ends. *)
Fixpoint filewrite_loop (fuel : nat) (f : nat) (addr : list Z) (n i : Z) : M (files S) Z :=
  match fuel with
  | O => fault
  | Datatypes.S fuel' =>
      if i <? n then
        let n1 := Z.min (n - i) max_write in
        x ← file_of f;
        fbegin_op ;;
        on_fs (ilock (f_ip x)) ;;
        r ← on_fs (writei (f_ip x) (slice (Z.to_nat i) (Z.to_nat n1) addr) (f_off x) n1);
        whenM (0 <? r) (modify (fupd f (fset_off (u32 (f_off x + r))))) ;;
        on_fs (iunlock (f_ip x)) ;;
        fend_op ;;
        if r <? 0 then ret i
        else if negb (r =? n1) then panic "short filewrite"
        else filewrite_loop fuel' f addr n (i + r)
      else ret i
  end.
Definition write_fuel (n : Z) : nat := Z.to_nat (n / max_write + 2).

(** [filewrite(f, addr, n)] with the [n] bytes at [addr]. *)
Definition filewrite (killed : bool) (f : nat) (addr : list Z) (n : Z) : M (files S) Z :=
  x ← file_of f;
  if negb (f_writable x) then ret (-1) else
  match f_type x with
  | FD_PIPE =>
      r ← on_pipe_at (f_pipe x) (pipewrite killed addr n);
      match r with
      | Returns m => ret m
      | Sleeps _ _ => sleeping
      end
  | FD_INODE =>
      i ← filewrite_loop (write_fuel n) f addr n 0;
      ret (if i =? n then n else -1)
  | FD_NONE => panic "filewrite"
  end.

(** ** Making a pipe *)

(** [data] starts behind the spinlock of [struct pipe]. *)
Definition pipe_data_off : nat := 52.

(** The [bad] exit of [pipealloc]: no page has been allocated there. *)
Definition pipealloc_bad (f0 f1 : option nat) : M (files S) (option (nat * nat)) :=
  match f0 with Some f => fileclose f | None => ret tt end ;;
  match f1 with Some f => fileclose f | None => ret tt end ;;
  ret None.

(** [pipealloc(&f0, &f1)]: the two files, or [None] for -1. *)
Definition pipealloc : M (files S) (option (nat * nat)) :=
  f0 ← filealloc;
  match f0 with
  | None => pipealloc_bad None None
  | Some rf =>
      f1 ← filealloc;
      match f1 with
      | None => pipealloc_bad (Some rf) None
      | Some wf =>
          p ← on_mem kalloc;
          if p =? 0 then pipealloc_bad (Some rf) (Some wf) else
          pg ← gets (λ s, default [] (km_pages (fl_mem s) !! p));
          modify (λ s, with_pipes (<[p := new_pipe (slice pipe_data_off (Z.to_nat PIPESIZE) pg)]> (fl_pipes s)) s) ;;
          modify (fupd rf (fset_pipe true false p)) ;;
          modify (fupd wf (fset_pipe false true p)) ;;
          ret (Some (rf, wf))
      end
  end.
End files.
