(* ===== verification/FileProps.v ===== *)
(** * Writing an open file (file.c)

    [filewrite] cuts a write into transactions.  Between two of them the log is
    empty and everything is on the disk; each transaction fits the space
    [begin_op] reserves.  The theorem is about the whole call: the bytes are in
    the file and on the disk when it returns. *)

From S2P Require Import Prelude Words Params CString Locks BufIface Redo Log LogCrash LogInv Fs FsRules.
From S2P Require Import Ring Bio BioLaws FsRules FsBlocks FsFile FsFileProps Kalloc Pipe File.

Section rest.
Context {S : Type} `{BufCacheLaws S} `{DevSw S}.
Implicit Types (s : fs S) (v : Z → block).

(** The state once [begin_op] has been called. *)
Definition with_op s : fs S := with_log (with_outstanding 1 (f_log s)) s.

(** The file of inode [ip] between two transactions of the only process that
    uses the log: the log is empty, the inode is valid, referenced and not
    locked, and the first transaction will find it ready. *)
Record file_rest s v ip : Prop := {
  rs_out : l_outstanding (f_log s) = 0;
  rs_n : lh_n (l_lh (f_log s)) = 0;
  rs_room : LOGSIZE ≤ l_size (f_log s);
  rs_ready : file_ready (with_op s) (l_size (f_log s) - 1) v ip;
  rs_home : inode_home s (inoden s ip);
  rs_lock : sl_locked (i_lock (inoden s ip)) = false ∧ sl_lk (i_lock (inoden s ip)) = false;
  rs_valid : i_valid (inoden s ip) = true;
  rs_ref : 1 ≤ i_ref (inoden s ip)
}.

(** ** The view of the blocks outside the log is what counts *)

Definition same_home s v v' : Prop := ∀ b, homeb s b → v' b = v b.

Section home.
Context (s : fs S) (v v' : Z → block).
Hypothesis Hv : same_home s v v'.
Hypothesis Hbm : bitmap_ok s v.

Lemma home_used b : 0 ≤ b < sb_size (f_sb s) → used (f_sb s) v' b = used (f_sb s) v b.
Proof. intros Hb. unfold used. by rewrite Hv by by apply (bm_home _ _ Hbm). Qed.

Lemma home_data b : data_ok s v b → data_ok s v' b.
Proof. intros Hb. eapply data_ok_view; [|exact Hb]. apply home_used. pose proof (do_range _ _ _ Hb). lia. Qed.

Lemma home_bitmap : bitmap_ok s v'.
Proof. destruct Hbm as [B1 B2 B3 B4]. split; try done. intros b Hb. rewrite home_used by done. by apply B4. Qed.

Lemma home_meta : meta_ok s v → meta_ok s v'.
Proof. intros Hm b Hb. rewrite home_used by done. by apply Hm. Qed.

Lemma home_nfree : nfree (f_sb s) v' = nfree (f_sb s) v.
Proof.
  unfold nfree. f_equal. apply filter_ext_in. intros x Hx%list_elem_of_In%elem_of_seq. by rewrite home_used by lia.
Qed.

Lemma home_addr i k : file_ok s v i → addr_of v' i k = addr_of v i k.
Proof. intros Hf. apply addr_of_view. intros Hi. apply Hv, (fo_ind _ _ _ Hf Hi). Qed.

Lemma home_file i : file_ok s v i → file_ok s v' i.
Proof.
  intros Hf. pose proof Hf as [F1 F2 F3 F4 F5 F6]. split; try done.
  - intros k Hk. rewrite home_addr by done. intros Hz. by apply home_data, F3.
  - intros Hz. by apply home_data, F4.
  - intros k Hk. rewrite home_addr by done. by apply F5.
  - intros k k' Hk Hk'. rewrite !home_addr by done. by apply F6.
Qed.

Lemma home_fbyte i o : file_ok s v i → 0 ≤ o < MAXFILE * BSIZE → fbyte v' i o = fbyte v i o.
Proof.
  intros Hf Ho. apply fbyte_ext; [by apply home_addr|]. intros Hz. apply Hv.
  by apply (fo_data _ _ _ Hf _ (off_block o Ho) Hz).
Qed.

Lemma home_outside i b : file_ok s v i → outside s v i b → outside s v' i b.
Proof.
  intros Hf (Hd & Hi & Hk). split_and!; [by apply home_data|done|]. intros k Hkm. rewrite home_addr by done. by apply Hk.
Qed.

Lemma home_mapped i n : file_ok s v i → mapped v i n → mapped v' i n.
Proof. intros Hf Hm k Hk Hn. rewrite home_addr by done. by apply Hm. Qed.
End home.

(** ** The pieces of a transaction *)

Lemma wp_begin s v ip (Q : unit → fs S → Prop) : file_rest s v ip → Q tt (with_op s) → wp (on_log begin_op) Q s.
Proof.
  intros Hr HQ. apply wp_zoom. pose proof (t_inv _ _ _ _ (fr_txs _ _ _ _ (rs_ready _ _ _ Hr))) as Hl. simpl in Hl.
  apply (log_inv_outstanding _ 0) in Hl; [|done].
  assert (E : with_outstanding 0 (with_outstanding 1 (f_log s)) = f_log s).
  { pose proof (rs_out _ _ _ Hr). destruct (f_log s); simpl in *. by subst. }
  rewrite E in Hl. eapply wp_mono; [apply wp_begin_op; [done|rewrite (rs_out _ _ _ Hr), (rs_n _ _ _ Hr); done]|].
  intros [] l' ->. rewrite (rs_out _ _ _ Hr). exact HQ.
Qed.

(** [s] with the lock of inode [ip] set. *)
Definition relocked ip (lk : sleeplock) s : fs S := iupd ip (iset_lock lk) s.

Lemma wp_ilock s ip (Q : unit → fs S → Prop) :
  (ip < length (ic_inode s))%nat → 1 ≤ i_ref (inoden s ip) → i_valid (inoden s ip) = true →
  sl_locked (i_lock (inoden s ip)) = false → sl_lk (i_lock (inoden s ip)) = false →
  Q tt (relocked ip (Sleeplock true false (f_pid s)) s) → wp (ilock ip) Q s.
Proof.
  intros Hip Hr Hval Hl Hk HQ. unfold ilock, inode_of. wp_step. wp_step.
  rewrite (proj2 (Z.ltb_ge _ _)) by done. wp_step. wp_step. wp_step. apply wp_zoom.
  destruct (i_lock (inoden s ip)) as [b1 b2 pid] eqn:E. simpl in Hl, Hk. subst b1 b2. unfold wp at 1.
  rewrite acquiresleep_free. wp_step. wp_step.
  assert (Hin : inoden (iupd ip (iset_lock (Sleeplock true false (f_pid s))) s) ip = iset_lock (Sleeplock true false (f_pid s)) (inoden s ip)).
  { unfold inoden, iupd. simpl. by apply list_lookup_total_insert_eq. }
  rewrite Hin. simpl. rewrite Hval. cbn [negb]. by wp_step.
Qed.

Lemma wp_iunlock s ip (Q : unit → fs S → Prop) :
  (ip < length (ic_inode s))%nat → 1 ≤ i_ref (inoden s ip) →
  i_lock (inoden s ip) = Sleeplock true false (f_pid s) →
  Q tt (relocked ip (Sleeplock false false 0) s) → wp (iunlock ip) Q s.
Proof.
  intros Hip Hr Hl HQ. unfold iunlock, inode_of. wp_step. wp_step. wp_step. apply wp_zoom. rewrite Hl. unfold wp at 1.
  rewrite holdingsleep_eq. rewrite Z.eqb_refl. cbn [andb].
  assert (Hid : iupd ip (iset_lock (Sleeplock true false (f_pid s))) s = s).
  { unfold iupd. rewrite <- Hl. assert (Hi : iset_lock (i_lock (inoden s ip)) (inoden s ip) = inoden s ip) by (by destruct (inoden s ip)).
    rewrite Hi. unfold with_ic_inode, inoden. rewrite list_insert_id; [by destruct s|]. by apply list_lookup_lookup_total_lt. }
  rewrite Hid. wp_step. wp_step. cbn [negb orb]. rewrite (proj2 (Z.ltb_ge _ _)) by done. apply wp_zoom. rewrite Hl.
  unfold wp. by rewrite releasesleep_eq.
Qed.

Lemma inoden_relocked ip lk s : (ip < length (ic_inode s))%nat → inoden (relocked ip lk s) ip = iset_lock lk (inoden s ip).
Proof. intros Hip. unfold inoden, relocked, iupd. simpl. by apply list_lookup_total_insert_eq. Qed.

(** The lock of the inode does not matter for the file. *)
Lemma file_ready_relocked s r v ip lk : file_ready s r v ip → file_ready (relocked ip lk s) r v ip.
Proof.
  intros [Ht Hip Hbm Hm Hf Hty Hsz Hmap]. assert (Hg : geo (relocked ip lk s) = geo s) by done.
  split; rewrite ?inoden_relocked by done; try done.
  - by eapply txs_log; [|exact Ht].
  - unfold relocked, iupd. simpl. by rewrite length_insert.
  - by apply (bitmap_ok_geo s).
  - apply (file_ok_geo s); [done|]. by destruct Hf.
Qed.
(** Everything outside the log is on the disk. *)
Definition on_disk s v : Prop := ∀ b, homeb s b → disk_of s !!! Z.to_nat b = v b.

Lemma wp_end s r v ip :
  file_ready s r v ip → l_outstanding (f_log s) = 1 → LOGSIZE ≤ l_size (f_log s) → inode_home s (inoden s ip) →
  sl_locked (i_lock (inoden s ip)) = false → sl_lk (i_lock (inoden s ip)) = false →
  i_valid (inoden s ip) = true → 1 ≤ i_ref (inoden s ip) →
  wp (on_log end_op) (λ _ s', ∃ l', s' = with_log l' s ∧ geo s' = geo s ∧
    ∃ v', same_home s v v' ∧ file_rest s' v' ip ∧ on_disk s' v') s.
Proof.
  intros [Ht Hip Hbm Hm Hf Hty Hsz Hmap] Hout Hroom Hih Hlk1 Hlk2 Hval Href. apply wp_zoom.
  pose proof Ht as [Hinv _ Hheld Hview _ _]. eapply wp_mono; [by apply wp_end_op_last|].
  intros [] l' (Hinv' & (E1 & E2 & _) & Ho' & Hn' & Hh' & Hd' & Hdisk & Hlen).
  set (s' := with_log l' s). assert (Hg : geo s' = geo s).
  { unfold geo, disk_of, cache_of, s'. simpl. by rewrite E1, E2, Hlen. }
  exists l'. split; [done|]. split; [done|].
  assert (Hclean : ∀ x, 0 ≤ x → c_view (l_cache l') x = c_disk (l_cache l') !!! Z.to_nat x).
  { intros x Hx. eapply state_clean; [apply (log_inv_state _ Hinv')|done| |by rewrite Hh'].
    rewrite <- (li_dirty _ Hinv'), Hd'. set_solver. }
  set (v' := c_view (l_cache l')). exists v'.
  assert (Hv : same_home s v v').
  { intros b Hb. unfold v'. assert (0 ≤ b) by apply Hb. rewrite Hclean, Hdisk by done. by apply Hview. }
  assert (Hv2 : same_home (with_op s') v v').
  { intros b Hb. apply Hv. apply (homeb_geo s (with_op s')); [|done]. exact Hg. }
  assert (Hg2 : geo (with_op s') = geo s) by exact Hg.
  assert (Hbm2 : bitmap_ok (with_op s') v) by (by apply (bitmap_ok_geo s)).
  assert (Hf2 : file_ok (with_op s') v (inoden s ip)) by (by apply (file_ok_geo s)).
  split; [done|]. split.
  - split; try done.
    + simpl. by rewrite E2.
    + split; try done.
      * split; try done; simpl.
        -- by apply log_inv_outstanding.
        -- lia.
        -- intros x Hx. right. by apply Hclean.
      * by apply (home_bitmap _ v).
      * apply (home_meta _ v); [done|done|]. by apply (meta_ok_geo s).
      * by apply (home_file _ v).
      * by apply (home_mapped (with_op s') v).
    + destruct Hih as [J1 J2 J3]. split; try done. by apply (homeb_geo s s').
  - intros b Hb. unfold disk_of, cache_of. simpl. symmetry. apply Hclean. apply Hb.
Qed.
End rest.

Section filewrite.
Context {S : Type} `{BufCacheLaws S} `{DevSw S}.
Implicit Types (s : files S) (v : Z → block).

(** The file of descriptor slot [f]: an open, writable file of inode [ip]. *)
Record open_for_write s (f ip : nat) (off : Z) : Prop := {
  ow_slot : (f < length (fl_file s))%nat;
  ow_type : f_type (filen s f) = FD_INODE;
  ow_writable : f_writable (filen s f) = true;
  ow_ip : f_ip (filen s f) = ip;
  ow_off : f_off (filen s f) = off
}.

Lemma write_effect_trans (s0 s1 s2 : fs S) v0 v1 v2 ip src1 src2 off :
  geo s1 = geo s0 → 0 ≤ off →
  write_effect s0 v0 ip src1 off s1 v1 → write_effect s1 v1 ip src2 (off + Z.of_nat (length src1)) s2 v2 →
  write_effect s0 v0 ip (src1 ++ src2) off s2 v2.
Proof.
  intros Hg Ho (B1 & Z1 & T1 & O1) (B2 & Z2 & T2 & O2). unfold write_effect. rewrite length_app. split_and!.
  - intros o Hob. rewrite B2, B1 by done. repeat case_decide; try lia; try done.
    + rewrite list_lookup_total_alt, (list_lookup_total_alt (src1 ++ src2)), lookup_app_r by lia.
      do 2 f_equal. lia.
    + rewrite list_lookup_total_alt, (list_lookup_total_alt (src1 ++ src2)), lookup_app_l by lia. done.
  - rewrite Z2, Z1. lia.
  - by rewrite T2.
  - assert (Hout : ∀ v i b, outside s1 v i b ↔ outside s0 v i b).
    { intros v i b. unfold outside.
      split; intros (Hd & ? & ?); (split; [|done]); [by apply (data_ok_geo s1)|by apply (data_ok_geo s0)]. }
    intros b Hb. destruct (O1 b Hb) as [E1 Hb1]. apply Hout in Hb1. destruct (O2 b Hb1) as [-> Hb2].
    split; [done|by apply Hout].
Qed.

(** The effect survives a commit, which only rewrites the log. *)
Lemma write_effect_home (s0 s1 s2 : fs S) v0 v1 v2 ip src off :
  geo s1 = geo s0 → bitmap_ok s1 v1 → file_ok s1 v1 (inoden s1 ip) → same_home s1 v1 v2 → 
  (∃ lk, inoden s2 ip = iset_lock lk (inoden s1 ip)) →
  write_effect s0 v0 ip src off s1 v1 → write_effect s0 v0 ip src off s2 v2.
Proof.
  intros Hg Hbm Hf Hv [lk Hi] (B1 & Z1 & T1 & O1). unfold write_effect. rewrite Hi. split_and!; try done.
  - intros o Hob. rewrite <- B1 by done. by apply (home_fbyte s1 v1 v2 Hv (inoden s1 ip)).
  - intros b Hb. destruct (O1 b Hb) as [E1 Hb1]. pose proof Hb as (Hd & _).
    split; [rewrite <- E1; apply Hv, (homeb_geo s0 s1); [done|apply Hd]|].
    assert (Hb1' : outside s1 v1 (inoden s1 ip) b).
    { destruct Hb1 as (? & ? & ?). split; [by apply (data_ok_geo s0)|done]. }
    destruct (home_outside s1 v1 v2 Hv Hbm (inoden s1 ip) b Hf Hb1') as (? & ? & ?).
    split; [by apply (data_ok_geo s1)|done].
Qed.

(** Blocks a transaction of [filewrite] may touch. *)
Lemma nblocks_max off n : 0 ≤ off → 0 ≤ n ≤ max_write → nblocks off n ≤ 4.
Proof.
  intros Ho Hn. unfold nblocks. destruct (n <=? 0) eqn:E; [lia|].
  pose proof (Z.mod_pos_bound off BSIZE ltac:(done)) as Hb. change max_write with 1536 in Hn. unfold BSIZE in *.
  apply Z.lt_succ_r. apply Z.div_lt_upper_bound; lia.
Qed.

(** One transaction of the loop. *)
Definition write_tx (f ip : nat) (src : list Z) (off n : Z) : M (files S) Z :=
  fbegin_op ;;
  on_fs (ilock ip) ;;
  r ← on_fs (writei ip src off n);
  whenM (0 <? r) (modify (fupd f (fset_off (u32 (off + r))))) ;;
  on_fs (iunlock ip) ;;
  fend_op ;;
  ret r.

Lemma wp_write_tx s f ip off src v :
  open_for_write s f ip off → file_rest (fl_fs s) v ip → Forall is_byte src → src ≠ [] →
  Z.of_nat (length src) ≤ max_write → 0 ≤ off ≤ i_size (inoden (fl_fs s) ip) →
  off + Z.of_nat (length src) ≤ MAXFILE * BSIZE → 8 ≤ Z.of_nat (nfree (f_sb (fl_fs s)) v) →
  wp (write_tx f ip src off (Z.of_nat (length src))) (λ r s', r = Z.of_nat (length src) ∧ open_for_write s' f ip (off + r) ∧ geo (fl_fs s') = geo (fl_fs s) ∧
    ∃ v', file_rest (fl_fs s') v' ip ∧ on_disk (fl_fs s') v' ∧ write_effect (fl_fs s) v ip src off (fl_fs s') v' ∧
      (nfree (f_sb (fl_fs s)) v ≤ 8 + nfree (f_sb (fl_fs s')) v')%nat) s.
Proof.
  intros [Ho1 Ho2 Ho3 Ho4 Ho5] Hrest Hsb Hne Hlen Hoff Hmax Hfree. destruct s as [fs0 lk fl pp mem]. cbn [fl_fs] in *.
  set (n := Z.of_nat (length src)) in *.
  assert (Hn : 0 < n) by (unfold n; destruct src; [done|simpl; lia]).
  pose proof Hrest as [R1 R2 R3 R4 R5 [R6 R6'] R7 R8]. pose proof (nblocks_max off n ltac:(lia) ltac:(lia)) as Hnb.
  unfold write_tx, fbegin_op. wp_step. apply wp_zoom. eapply wp_begin; [exact Hrest|].
  wp_step. apply wp_zoom. set (s1 := with_op fs0).
  assert (Hip : (ip < length (ic_inode s1))%nat) by apply R4.
  apply wp_ilock; [done|done|done|done|done|]. pose (s2 := relocked ip (Sleeplock true false (f_pid fs0)) s1).
  assert (Hr2 : file_ready s2 (l_size (f_log fs0) - 1) v ip) by (by apply file_ready_relocked).
  assert (Hi2 : inoden s2 ip = iset_lock (Sleeplock true false (f_pid fs0)) (inoden fs0 ip)) by (by apply (inoden_relocked ip _ s1)).
  wp_step. apply wp_zoom. refine (_ : wp _ _ s2). eapply wp_mono.
  { apply (wp_writei_full s2 (l_size (f_log fs0) - 1) v ip src off Hr2); rewrite ?Hi2; try done; fold n.
    - destruct R5 as [J1 J2 J3]. by split.
    - unfold LOGSIZE, MAXOPBLOCKS in R3. lia.
    - change (f_sb s2) with (f_sb fs0). lia. }
  fold n. intros r s3 (-> & v3 & Hr3 & He3 & (P & Hpid & Hicl & Hlx & Hsb3) & Hnf3). destruct P as (P1 & P2 & P3 & P4).
  rewrite Hi2 in P1, P2, P3, P4. simpl in P1, P2, P3, P4.
  assert (Hg3 : geo s3 = geo fs0).
  { destruct Hlx as (X1 & X2 & _ & X4). unfold geo, disk_of, cache_of in *. rewrite Hsb3, X1, X2, X4. done. }
  refine (_ : wp _ _ (Files s3 lk fl pp mem)). rewrite (proj2 (Z.ltb_lt 0 n)) by done. cbn [whenM]. wp_step. wp_step.
  set (fl' := <[f := fset_off (u32 (off + n)) (fl !!! f)]> fl).
  refine (_ : wp _ _ (Files s3 lk fl' pp mem)). wp_step. apply wp_zoom. cbn [fl_fs].
  pose proof (fr_ip _ _ _ _ Hr3) as Hip3.
  apply wp_iunlock; [done|by rewrite P3|by rewrite P2, Hpid|]. pose (s4 := relocked ip (Sleeplock false false 0) s3).
  assert (Hi4 : inoden s4 ip = iset_lock (Sleeplock false false 0) (inoden s3 ip)) by by apply inoden_relocked.
  pose proof (file_ready_relocked s3 _ v3 ip (Sleeplock false false 0) Hr3) as Hr4. fold s4 in Hr4.
  assert (Hg4 : geo s4 = geo fs0) by exact Hg3. destruct Hlx as (X1 & X2 & X3 & X4).
  unfold fend_op. wp_step. apply wp_zoom. refine (_ : wp _ _ s4). eapply wp_mono.
  { apply (wp_end s4 _ v3 ip Hr4); rewrite ?Hi4; simpl; try done.
    - change (l_size (f_log s4)) with (l_size (f_log s3)). by rewrite X2.
    - destruct R5 as [J1 J2 J3]. split; simpl; rewrite ?P1; change (f_sb s4) with (f_sb s3); rewrite ?Hsb3; try done.
      by apply (homeb_geo fs0 s4).
    - by rewrite P4.
    - by rewrite P3. }
  intros [] s5 (l' & -> & Hg5 & v5 & Hv5 & Hrest5 & Hdisk5). wp_step. split; [done|]. cbn [fl_fs with_fs].
  split; [|split; [by rewrite Hg5, Hg4|]].
  - assert (Ef : fl' !!! f = fset_off (u32 (off + n)) (fl !!! f)) by by apply list_lookup_total_insert_eq.
    split; unfold filen; cbn [fl_file with_fs]; rewrite ?Ef; try done.
    + unfold fl'. by rewrite length_insert.
    + simpl. apply u32_id. unfold is_u32. fslia.
  - exists v5. split; [done|]. split; [done|].
    pose proof (fr_bitmap _ _ _ _ Hr4) as Hbm4. pose proof (fr_file _ _ _ _ Hr4) as Hf4. split.
    + assert (He4 : write_effect fs0 v ip src off s4 v3).
      { destruct He3 as (B1 & Z1 & T1 & O1). rewrite Hi2 in B1, Z1, T1, O1. unfold write_effect. rewrite Hi4.
        refine (conj B1 (conj Z1 (conj T1 _))). intros b (Hd & Hb).
        destruct (O1 b) as [Eb (Hd' & Hb')]; [split; [by apply (data_ok_geo fs0)|exact Hb]|].
        split; [done|]. split; [by apply (data_ok_geo s2)|exact Hb']. }
      apply (write_effect_home fs0 s4 _ v v3 v5 ip src off); [done|done|done|done| |done].
      exists (Sleeplock false false 0). change (inoden s4 ip = iset_lock (Sleeplock false false 0) (inoden s4 ip)). by rewrite Hi4.
    + change (f_sb (with_log l' s4)) with (f_sb s4).
      rewrite (home_nfree s4 v3 v5 Hv5 Hbm4). change (f_sb s4) with (f_sb s3). rewrite Hsb3.
      change (f_sb s2) with (f_sb fs0) in *. lia.
Qed.

Lemma rest_on_disk (s : fs S) v ip : file_rest s v ip → on_disk s v.
Proof.
  intros Hr b Hb. assert (0 ≤ b) by apply Hb.
  destruct (t_clean _ _ _ _ (fr_txs _ _ _ _ (rs_ready _ _ _ Hr)) b) as [Hin|E]; [done| |by symmetry].
  unfold tx_blocks in Hin. simpl in Hin. rewrite (rs_n _ _ _ Hr) in Hin. by apply not_elem_of_nil in Hin.
Qed.

(** Transactions needed for [m] bytes. *)
Definition ntx (m : Z) : Z := (m + (max_write - 1)) / max_write.

Lemma ntx_step m : 0 < m → ntx m = 1 + ntx (m - Z.min m max_write) ∧ 0 ≤ ntx (m - Z.min m max_write).
Proof.
  intros Hm. unfold ntx. change max_write with 1536. destruct (Z.le_gt_cases m 1536).
  - rewrite Z.min_l, Z.sub_diag by done. change ((0 + (1536 - 1)) / 1536) with 0. split; [|done].
    symmetry. apply (Z.div_unique _ _ _ (m - 1)); lia.
  - rewrite Z.min_r by lia. replace (m + (1536 - 1)) with (m - 1536 + (1536 - 1) + 1 * 1536) by lia.
    rewrite Z.div_add by done. split; [lia|]. apply Z.div_pos; lia.
Qed.

Lemma write_effect_nil (s : fs S) v ip off : off ≤ i_size (inoden s ip) → write_effect s v ip [] off s v.
Proof.
  intros Ho. unfold write_effect. cbn [length]. split_and!; try done; [|lia].
  intros o Hob. by rewrite decide_False by lia.
Qed.

(** A turn of the loop is a transaction and what follows it. *)
Lemma loop_turn fuel f addr n i s : i < n →
  filewrite_loop (Datatypes.S fuel) f addr n i s =
  (let n1 := Z.min (n - i) max_write in
   bind (write_tx f (f_ip (filen s f)) (slice (Z.to_nat i) (Z.to_nat n1) addr) (f_off (filen s f)) n1) (λ r,
     if r <? 0 then ret i else if negb (r =? n1) then panic "short filewrite" else filewrite_loop fuel f addr n (i + r)) s).
Proof.
  intros Hin. cbn [filewrite_loop]. rewrite (proj2 (Z.ltb_lt _ _)) by done. cbn zeta.
  unfold file_of, gets. cbn [bind]. unfold bind at 1, write_tx.
  repeat (rewrite bind_assoc; apply bind_ext; intros ? ?). done.
Qed.

Lemma wp_filewrite_loop fuel s f ip off addr i v :
  open_for_write s f ip off → file_rest (fl_fs s) v ip → Forall is_byte addr → 0 ≤ i ≤ Z.of_nat (length addr) →
  0 ≤ off ≤ i_size (inoden (fl_fs s) ip) → off + (Z.of_nat (length addr) - i) ≤ MAXFILE * BSIZE →
  8 * ntx (Z.of_nat (length addr) - i) ≤ Z.of_nat (nfree (f_sb (fl_fs s)) v) →
  ntx (Z.of_nat (length addr) - i) < Z.of_nat fuel →
  wp (filewrite_loop fuel f addr (Z.of_nat (length addr)) i) (λ r s', r = Z.of_nat (length addr) ∧
    open_for_write s' f ip (off + (Z.of_nat (length addr) - i)) ∧ geo (fl_fs s') = geo (fl_fs s) ∧
    ∃ v', file_rest (fl_fs s') v' ip ∧ write_effect (fl_fs s) v ip (drop (Z.to_nat i) addr) off (fl_fs s') v') s.
Proof.
  set (n := Z.of_nat (length addr)). revert s off i v. induction fuel as [|fuel IH]; intros s off i v How Hrest Hby Hi Hoff Hmax Hfree Hfuel.
  { assert (0 ≤ ntx (n - i)); [|lia]. unfold ntx. apply Z.div_pos; [change max_write with 1536; lia|done]. }
  destruct (decide (i < n)) as [Hlt|Hge].
  - pose proof How as [O1 O2 O3 O4 O5]. destruct (ntx_step (n - i) ltac:(lia)) as [Estep Hpos].
    set (n1 := Z.min (n - i) max_write) in *. assert (Hn1 : 0 < n1 ≤ max_write) by (unfold n1; change max_write with 1536; lia).
    assert (Hlen : length (slice (Z.to_nat i) (Z.to_nat n1) addr) = Z.to_nat n1) by (apply length_slice; lia).
    eapply wp_eq; [by apply loop_turn|]. cbn zeta. fold n1. rewrite O4, O5. set (src := slice _ _ addr) in *.
    assert (En : Z.of_nat (length src) = n1) by lia. rewrite <- En at 1. wp_step. eapply wp_mono.
    { apply (wp_write_tx s f ip off src v How Hrest); [by apply Forall_slice| |lia|lia|lia|lia].
      intros E. rewrite E in Hlen. simpl in Hlen. lia. }
    rewrite En. intros r s1 (-> & How1 & Hg1 & v1 & Hrest1 & _ & He1 & Hn'). pose proof Hg1 as [= Esb _ _ _].
    rewrite (proj2 (Z.ltb_ge _ _)) by lia. rewrite Z.eqb_refl. cbn [negb].
    pose proof He1 as (_ & Hsz1 & _). rewrite En in Hsz1. eapply wp_mono.
    { apply (IH s1 (off + n1) (i + n1) v1 How1 Hrest1 Hby); [lia|lia|lia| |];
        replace (n - (i + n1)) with (n - i - n1) by lia; [rewrite Esb in *|]; lia. }
    intros r s2 (-> & How2 & Hg2 & v2 & Hrest2 & He2). split; [done|].
    split; [by replace (off + (n - i)) with (off + n1 + (n - (i + n1))) by lia|]. split; [congruence|]. exists v2. split; [done|].
    assert (Ed : drop (Z.to_nat i) addr = src ++ drop (Z.to_nat (i + n1)) addr).
    { unfold src, slice. rewrite <- (take_drop (Z.to_nat n1) (drop (Z.to_nat i) addr)) at 1. f_equal. rewrite drop_drop. f_equal. lia. }
    rewrite Ed. eapply write_effect_trans; [exact Hg1|lia|exact He1|]. by rewrite En.
  - cbn [filewrite_loop]. rewrite (proj2 (Z.ltb_ge _ _)) by lia. wp_step. assert (i = n) as -> by lia. split; [done|].
    rewrite Z.sub_diag, Z.add_0_r. split; [done|]. split; [done|]. exists v. split; [done|].
    rewrite drop_ge by lia. apply write_effect_nil. lia.
Qed.

End filewrite.

(** *** Witness: the file "f" of the demonstration image, open for writing *)

(** A state of an operation, taken back to before [begin_op] and [ilock]. *)
Definition idle_of {S} (ip : nat) (s : fs S) : fs S :=
  relocked ip (Sleeplock false false 0) (with_log (with_outstanding 0 (f_log s)) s).

Lemma with_op_idle {S} ip (s : fs S) : l_outstanding (f_log s) = 1 →
  with_op (idle_of ip s) = relocked ip (Sleeplock false false 0) s.
Proof. intros Ho. destruct s as [l sb icl ino pid cwd], l. simpl in Ho. by subst. Qed.

Lemma idle_rest {S} `{BufCacheLaws S} (s : fs S) v ip :
  file_ready s (l_size (f_log s) - 1) v ip → l_outstanding (f_log s) = 1 → lh_n (l_lh (f_log s)) = 0 →
  LOGSIZE ≤ l_size (f_log s) → inode_home s (inoden s ip) → i_valid (inoden s ip) = true → 1 ≤ i_ref (inoden s ip) →
  file_rest (idle_of ip s) v ip.
Proof.
  intros Hfr Ho Hn Hl [J1 J2 J3] Hv Hr. pose proof (fr_ip _ _ _ _ Hfr) as Hip.
  assert (Hi : inoden (idle_of ip s) ip = iset_lock (Sleeplock false false 0) (inoden s ip)).
  { by apply (inoden_relocked ip _ (with_log (with_outstanding 0 (f_log s)) s)). }
  split; rewrite ?Hi; try done.
  rewrite with_op_idle by done. by apply (file_ready_relocked s).
Qed.

Definition demo_files : files bst :=
  Files (idle_of 0 demo_open) false [File FD_INODE 1 true true 0 0 5] ∅ (Kmem false false 0 ∅).

Lemma demo_rest : file_rest (fl_fs demo_files) demo_view 0.
Proof.
  apply idle_rest; [exact demo_ready|reflexivity|reflexivity|done|exact demo_inode_home|reflexivity|].
  rewrite demo_open_inode. done.
Qed.

Lemma demo_nfree : (8 <=? nfree demo_sb demo_view)%nat = true.
Proof. vm_compute. reflexivity. Qed.

