(* ===== verification/Proc.v ===== *)
(** * The process table (proc.c)

    The operations on [ptable] that run with its lock held: finding and
    recycling slots, [wakeup1], [kill], the bookkeeping of [exit] and [wait],
    and the transfers between processes and schedulers.  A pointer to a process
    is the index of its slot; the register contents that [swtch] saves are the
    [context]. *)

From S2P Require Import Prelude Words Params Locks.

Inductive procstate := UNUSED | EMBRYO | SLEEPING | RUNNABLE | RUNNING | ZOMBIE.
#[export] Instance procstate_eq_dec : EqDecision procstate.
Proof. solve_decision. Defined.

(** Where a process sleeps: on a [struct proc] or at any other address. *)
Inductive chan := Ch_proc (i : nat) | Ch_addr (a : Z).
#[export] Instance chan_eq_dec : EqDecision chan.
Proof. solve_decision. Defined.

Record context := Context_ { cx_edi : Z; cx_esi : Z; cx_ebx : Z; cx_ebp : Z; cx_eip : Z }.

Record trapframe := Trapframe {
  tf_edi : Z; tf_esi : Z; tf_ebp : Z; tf_oesp : Z; tf_ebx : Z; tf_edx : Z; tf_ecx : Z; tf_eax : Z;
  tf_gs : Z; tf_fs : Z; tf_es : Z; tf_ds : Z; tf_trapno : Z;
  tf_err : Z; tf_eip : Z; tf_cs : Z; tf_eflags : Z; tf_esp : Z; tf_ss : Z
}.
Definition zero_tf : trapframe := Trapframe 0 0 0 0 0 0 0 0 0 0 0 0 0 0 0 0 0 0 0.
Definition tset_eax v t := Trapframe (tf_edi t) (tf_esi t) (tf_ebp t) (tf_oesp t) (tf_ebx t) (tf_edx t) (tf_ecx t) v
  (tf_gs t) (tf_fs t) (tf_es t) (tf_ds t) (tf_trapno t) (tf_err t) (tf_eip t) (tf_cs t) (tf_eflags t) (tf_esp t) (tf_ss t).
Definition tset_entry eip esp t := Trapframe (tf_edi t) (tf_esi t) (tf_ebp t) (tf_oesp t) (tf_ebx t) (tf_edx t) (tf_ecx t)
  (tf_eax t) (tf_gs t) (tf_fs t) (tf_es t) (tf_ds t) (tf_trapno t) (tf_err t) eip (tf_cs t) (tf_eflags t) esp (tf_ss t).

Record proc := Proc {
  p_sz : Z;                    (* size of process memory (bytes) *)
  p_pgdir : Z;                 (* page table *)
  p_kstack : Z;                (* bottom of kernel stack for this process *)
  p_state : procstate;
  p_pid : Z;
  p_parent : option nat;
  p_tf : trapframe;            (* trap frame for current syscall *)
  p_context : context;         (* swtch() here to run process *)
  p_chan : option chan;        (* if non-zero, sleeping on chan *)
  p_killed : bool;             (* if non-zero, have been killed *)
  p_ofile : list (option nat); (* open files *)
  p_cwd : option nat;          (* current directory *)
  p_name : list Z
}.

Definition pset_sz v p := Proc v (p_pgdir p) (p_kstack p) (p_state p) (p_pid p) (p_parent p) (p_tf p) (p_context p)
  (p_chan p) (p_killed p) (p_ofile p) (p_cwd p) (p_name p).
Definition pset_pgdir v p := Proc (p_sz p) v (p_kstack p) (p_state p) (p_pid p) (p_parent p) (p_tf p) (p_context p)
  (p_chan p) (p_killed p) (p_ofile p) (p_cwd p) (p_name p).
Definition pset_kstack v p := Proc (p_sz p) (p_pgdir p) v (p_state p) (p_pid p) (p_parent p) (p_tf p) (p_context p)
  (p_chan p) (p_killed p) (p_ofile p) (p_cwd p) (p_name p).
Definition pset_state v p := Proc (p_sz p) (p_pgdir p) (p_kstack p) v (p_pid p) (p_parent p) (p_tf p) (p_context p)
  (p_chan p) (p_killed p) (p_ofile p) (p_cwd p) (p_name p).
Definition pset_pid v p := Proc (p_sz p) (p_pgdir p) (p_kstack p) (p_state p) v (p_parent p) (p_tf p) (p_context p)
  (p_chan p) (p_killed p) (p_ofile p) (p_cwd p) (p_name p).
Definition pset_parent v p := Proc (p_sz p) (p_pgdir p) (p_kstack p) (p_state p) (p_pid p) v (p_tf p) (p_context p)
  (p_chan p) (p_killed p) (p_ofile p) (p_cwd p) (p_name p).
Definition pset_tf v p := Proc (p_sz p) (p_pgdir p) (p_kstack p) (p_state p) (p_pid p) (p_parent p) v (p_context p)
  (p_chan p) (p_killed p) (p_ofile p) (p_cwd p) (p_name p).
Definition pset_context v p := Proc (p_sz p) (p_pgdir p) (p_kstack p) (p_state p) (p_pid p) (p_parent p) (p_tf p) v
  (p_chan p) (p_killed p) (p_ofile p) (p_cwd p) (p_name p).
Definition pset_chan v p := Proc (p_sz p) (p_pgdir p) (p_kstack p) (p_state p) (p_pid p) (p_parent p) (p_tf p)
  (p_context p) v (p_killed p) (p_ofile p) (p_cwd p) (p_name p).
Definition pset_killed v p := Proc (p_sz p) (p_pgdir p) (p_kstack p) (p_state p) (p_pid p) (p_parent p) (p_tf p)
  (p_context p) (p_chan p) v (p_ofile p) (p_cwd p) (p_name p).
Definition pset_ofile v p := Proc (p_sz p) (p_pgdir p) (p_kstack p) (p_state p) (p_pid p) (p_parent p) (p_tf p)
  (p_context p) (p_chan p) (p_killed p) v (p_cwd p) (p_name p).
Definition pset_cwd v p := Proc (p_sz p) (p_pgdir p) (p_kstack p) (p_state p) (p_pid p) (p_parent p) (p_tf p)
  (p_context p) (p_chan p) (p_killed p) (p_ofile p) v (p_name p).
Definition pset_name v p := Proc (p_sz p) (p_pgdir p) (p_kstack p) (p_state p) (p_pid p) (p_parent p) (p_tf p)
  (p_context p) (p_chan p) (p_killed p) (p_ofile p) (p_cwd p) v.

Definition zero_proc : proc :=
  Proc 0 0 0 UNUSED 0 None zero_tf (Context_ 0 0 0 0 0) None false (replicate (Z.to_nat NOFILE) None) None (replicate 16 0).
#[export] Instance proc_inhabited : Inhabited proc := populate zero_proc.

Record ptable := Ptable {
  pt_lock : bool;
  pt_proc : list proc;
  pt_initproc : option nat;
  pt_nextpid : Z
}.
Definition with_ptlock v t := Ptable v (pt_proc t) (pt_initproc t) (pt_nextpid t).
Definition with_procs v t := Ptable (pt_lock t) v (pt_initproc t) (pt_nextpid t).
Definition with_initproc v t := Ptable (pt_lock t) (pt_proc t) v (pt_nextpid t).
Definition with_nextpid v t := Ptable (pt_lock t) (pt_proc t) (pt_initproc t) v.
Definition procn t (i : nat) : proc := pt_proc t !!! i.
Definition pupd (i : nat) (g : proc → proc) t : ptable := with_procs (<[i := g (procn t i)]> (pt_proc t)) t.

Definition pt_acquire : M ptable unit := zoom pt_lock with_ptlock spin_acquire.
Definition pt_release : M ptable unit := zoom pt_lock with_ptlock spin_release.
Definition proc_of (i : nat) : M ptable proc := gets (λ t, procn t i).

(** [pinit] and the zeroed table it finds. *)
Definition pinit : ptable := Ptable false (replicate (Z.to_nat NPROC) zero_proc) None 1.

(** The first slot that satisfies a test. *)
Fixpoint find_proc (f : proc → bool) (l : list proc) (i : nat) : option nat :=
  match l with
  | [] => None
  | p :: l' => if f p then Some i else find_proc f l' (S i)
  end.

Definition is_unused (p : proc) : bool := bool_decide (p_state p = UNUSED).
Definition is_runnable (p : proc) : bool := bool_decide (p_state p = RUNNABLE).

(** The first half of [allocproc]: claim an unused slot, give it a pid. *)
Definition claim_slot : M ptable (option nat) :=
  pt_acquire ;;
  l ← gets pt_proc;
  match find_proc is_unused l 0 with
  | None => pt_release ;; ret None
  | Some i =>
      pid ← gets pt_nextpid;
      modify (pupd i (λ p, pset_pid pid (pset_state EMBRYO p))) ;;
      modify (with_nextpid (i32 (pid + 1))) ;;
      pt_release ;;
      ret (Some i)
  end.

Definition wake_one (c : option chan) (p : proc) : proc :=
  if bool_decide (p_state p = SLEEPING) && bool_decide (p_chan p = c) then pset_state RUNNABLE p else p.

Definition wakeup1 (c : option chan) : M ptable unit := modify (λ t, with_procs (wake_one c <$> pt_proc t) t).

Definition wakeup (c : option chan) : M ptable unit := pt_acquire ;; wakeup1 c ;; pt_release.

Definition kill (pid : Z) : M ptable Z :=
  pt_acquire ;;
  l ← gets pt_proc;
  match find_proc (λ p, p_pid p =? pid) l 0 with
  | None => pt_release ;; ret (-1)
  | Some i =>
      modify (pupd i (pset_killed true)) ;;
      p ← proc_of i;
      whenM (bool_decide (p_state p = SLEEPING)) (modify (pupd i (pset_state RUNNABLE))) ;;
      pt_release ;;
      ret 0
  end.

(** [sched] on behalf of slot [cur]: its checks, before the switch to the
    scheduler; [ncli] and [intf] are the nesting depth and the interrupt flag
    of the processor. *)
Definition sched (ncli : Z) (intf : bool) (cur : nat) : M ptable unit :=
  locked ← gets pt_lock;
  if negb locked then panic "sched ptable.lock" else
  if negb (ncli =? 1) then panic "sched locks" else
  p ← proc_of cur;
  if bool_decide (p_state p = RUNNING) then panic "sched running" else
  if intf then panic "sched interruptible" else
  ret tt.

(** What [yield] and [sleep] do before control leaves the process; [ncli] is the
    number of locks the processor holds when they are called.  Interrupts are
    off as soon as a lock is held. *)
Definition yield_off (ncli : Z) (cur : nat) : M ptable unit :=
  pt_acquire ;; modify (pupd cur (pset_state RUNNABLE)) ;; sched (ncli + 1) false cur.

(** [sleep(chan, &ptable.lock)] *)
Definition sleep_off (ncli : Z) (cur : nat) (c : chan) : M ptable unit :=
  modify (pupd cur (λ p, pset_state SLEEPING (pset_chan (Some c) p))) ;; sched ncli false cur.

(** [sleep(chan, lk)] for another lock [lk], held by the caller: the process
    table is locked before [lk] is released. *)
Definition sleep (ncli : Z) (cur : nat) (c : chan) : M ptable unit := pt_acquire ;; sleep_off (ncli + 1 - 1) cur c.

(** What [sleep] does when control comes back. *)
Definition sleep_on (cur : nat) : M ptable unit := modify (pupd cur (pset_chan None)) ;; pt_release.

(** One pass of the scan in [wait] for the children of [cur]: the first zombie,
    and whether there are children. *)
Fixpoint wait_scan (cur : nat) (l : list proc) (i : nat) (havekids : bool) : option nat * bool :=
  match l with
  | [] => (None, havekids)
  | p :: l' =>
      if negb (bool_decide (p_parent p = Some cur)) then wait_scan cur l' (S i) havekids
      else if bool_decide (p_state p = ZOMBIE) then (Some i, true)
      else wait_scan cur l' (S i) true
  end.

(** A reaped slot. *)
Definition reap (p : proc) : proc :=
  pset_state UNUSED (pset_killed false (pset_name (<[0%nat := 0]> (p_name p)) (pset_parent None (pset_pid 0 (pset_kstack 0 p))))).

(** A turn of the loop in [wait]: a zombie was found, there is nothing to wait
    for, or the process is asleep on its own slot. *)
Inductive wait_turn := Found (i : nat) | NoChild | Waits.

Definition wait_find (ncli : Z) (cur : nat) : M ptable wait_turn :=
  t ← getS;
  let '(z, havekids) := wait_scan cur (pt_proc t) 0 false in
  match z with
  | Some i => ret (Found i)
  | None =>
      if negb havekids || p_killed (procn t cur) then pt_release ;; ret NoChild
      else sleep_off ncli cur (Ch_proc cur) ;; ret Waits
  end.

(** The end of a successful [wait], once what the zombie owned has been freed. *)
Definition wait_reap (i : nat) : M ptable Z :=
  p ← proc_of i;
  modify (pupd i reap) ;;
  pt_release ;;
  ret (p_pid p).

(** The loop of [exit] over the children: slot by slot, because [wakeup1] may
    change the state of a slot already seen or still to come. *)
Definition abandon_one (cur : nat) (i : Z) : M ptable unit :=
  p ← proc_of (Z.to_nat i);
  whenM (bool_decide (p_parent p = Some cur))
    (ini ← gets pt_initproc;
     modify (pupd (Z.to_nat i) (pset_parent ini)) ;;
     whenM (bool_decide (p_state p = ZOMBIE)) (wakeup1 (Ch_proc <$> ini))).

(** [exit] from the moment it takes the lock: it never comes back. *)
Definition exit_off (ncli : Z) (cur : nat) : M ptable unit :=
  pt_acquire ;;
  p ← proc_of cur;
  wakeup1 (Ch_proc <$> p_parent p) ;;
  for_loop (Z.to_nat NPROC) 0 (abandon_one cur) ;;
  modify (pupd cur (pset_state ZOMBIE)) ;;
  sched (ncli + 1) false cur.

(** The scheduler's scan from slot [i] of the table. *)
Definition pick_from (l : list proc) (i : nat) : option nat := find_proc is_runnable (drop i l) i.

(** The scheduler, from the point of its scan where it stands with the lock held
    to the switch to a process, or to the end of the pass. *)
Definition sched_pick (pos : nat) : M ptable (option nat) :=
  l ← gets pt_proc;
  match pick_from l pos with
  | Some i => modify (pupd i (pset_state RUNNING)) ;; ret (Some i)
  | None => pt_release ;; ret None
  end.

(** ** Table lemmas *)

Lemma procn_pupd i g t j : (i < length (pt_proc t))%nat →
  procn (pupd i g t) j = if decide (i = j) then g (procn t i) else procn t j.
Proof.
  intros Hi. unfold procn, pupd. cbn [with_procs pt_proc]. case_decide as E.
  - subst. by rewrite list_lookup_total_insert_eq.
  - by rewrite list_lookup_total_insert_ne.
Qed.

Lemma length_pupd i g t : length (pt_proc (pupd i g t)) = length (pt_proc t).
Proof. apply length_insert. Qed.

Lemma procn_out t i : (length (pt_proc t) ≤ i)%nat → procn t i = zero_proc.
Proof. intros Hi. unfold procn. rewrite list_lookup_total_alt, lookup_ge_None_2 by done. done. Qed.

Lemma find_proc_Some f l i0 i :
  find_proc f l i0 = Some i ↔ ∃ k p, i = (i0 + k)%nat ∧ l !! k = Some p ∧ f p = true ∧
    ∀ j q, (j < k)%nat → l !! j = Some q → f q = false.
Proof.
  revert i0. induction l as [|p l IH]; intros i0; simpl; [split; [done|intros (k & p & _ & H & _); done]|].
  destruct (f p) eqn:E.
  - split.
    + intros [= <-]. exists 0%nat, p. split_and!; [lia|done|done|lia].
    + intros (k & q & -> & Hk & Hq & Hmin). destruct k as [|k]; [f_equal; lia|].
      specialize (Hmin 0%nat p ltac:(lia) eq_refl). congruence.
  - rewrite IH. split.
    + intros (k & q & -> & Hk & Hq & Hmin). exists (S k), q. split_and!; [lia|done|done|].
      intros [|j] q' Hj Hl; [simpl in Hl; congruence|]. apply (Hmin j); [lia|done].
    + intros (k & q & -> & Hk & Hq & Hmin). destruct k as [|k]; [simpl in Hk; congruence|].
      exists k, q. split_and!; [lia|done|done|]. intros j q' Hj Hl. apply (Hmin (S j)); [lia|done].
Qed.

Lemma find_proc_None f l i0 : find_proc f l i0 = None ↔ ∀ k p, l !! k = Some p → f p = false.
Proof.
  revert i0. induction l as [|p l IH]; intros i0; simpl; [by split|]. destruct (f p) eqn:E.
  - split; [done|]. intros H. specialize (H 0%nat p eq_refl). congruence.
  - rewrite IH. split; intros H; [intros [|k] q Hq; [naive_solver|by apply (H k)]|intros k; apply (H (S k))].
Qed.

Lemma procn_lookup t i p : pt_proc t !! i = Some p → procn t i = p ∧ (i < length (pt_proc t))%nat.
Proof. intros Hi. split; [|by eapply lookup_lt_Some]. unfold procn. by apply list_lookup_total_correct. Qed.

(** The first slot that passes a test. *)
Lemma find_proc_first f t i : find_proc f (pt_proc t) 0 = Some i →
  (i < length (pt_proc t))%nat ∧ f (procn t i) = true ∧ ∀ j, (j < i)%nat → f (procn t j) = false.
Proof.
  intros (k & p & -> & Hk & Hf & Hmin)%find_proc_Some. simpl. destruct (procn_lookup t k p Hk) as [<- Hlt].
  split_and!; [done|done|]. intros j Hj. destruct (lookup_lt_is_Some_2 (pt_proc t) j ltac:(lia)) as [q Hq].
  destruct (procn_lookup t j q Hq) as [-> _]. by apply (Hmin j).
Qed.

Lemma find_proc_none f t i : find_proc f (pt_proc t) 0 = None → (i < length (pt_proc t))%nat → f (procn t i) = false.
Proof.
  intros H Hi. destruct (lookup_lt_is_Some_2 (pt_proc t) i Hi) as [q Hq].
  destruct (procn_lookup t i q Hq) as [-> _]. by apply (proj1 (find_proc_None f _ _) H i).
Qed.

Lemma procn_wake c t i : procn (with_procs (wake_one c <$> pt_proc t) t) i = wake_one c (procn t i).
Proof.
  unfold procn. cbn [with_procs pt_proc]. rewrite !list_lookup_total_alt, list_lookup_fmap.
  destruct (pt_proc t !! i); [done|]. simpl. unfold wake_one. by simpl.
Qed.

Lemma wait_scan_spec cur l i hk r :
  wait_scan cur l i hk = r →
  match r.1 with
  | Some z => ∃ k p, z = (i + k)%nat ∧ l !! k = Some p ∧ p_parent p = Some cur ∧ p_state p = ZOMBIE ∧
      ∀ j q, (j < k)%nat → l !! j = Some q → p_parent q = Some cur → p_state q ≠ ZOMBIE
  | None => (∀ k p, l !! k = Some p → p_parent p = Some cur → p_state p ≠ ZOMBIE) ∧
      (r.2 = hk || existsb (λ p, bool_decide (p_parent p = Some cur)) l)
  end.
Proof.
  intros <-. revert i hk. induction l as [|p l IH]; intros i hk; cbn [wait_scan existsb].
  - simpl. split; [done|]. by rewrite orb_false_r.
  - case_bool_decide as Ep; cbn [negb].
    + case_bool_decide as Es.
      * simpl. exists 0%nat, p. split_and!; [lia|done|done|done|lia].
      * specialize (IH (S i) true). destruct (wait_scan cur l (S i) true) as [[z|] h]; cbn [fst snd] in *.
        -- destruct IH as (k & q & -> & Hk & Hq & Hz & Hmin). exists (S k), q. split_and!; [lia|done|done|done|].
           intros [|j] q' Hj Hl; [naive_solver|]. apply (Hmin j); [lia|done].
        -- destruct IH as [Hn ->]. split; [intros [|k] q Hl; [naive_solver|by apply (Hn k)]|].
           cbn [orb]. by rewrite orb_true_r.
    + specialize (IH (S i) hk). destruct (wait_scan cur l (S i) hk) as [[z|] h]; cbn [fst snd] in *.
      * destruct IH as (k & q & -> & Hk & Hq & Hz & Hmin). exists (S k), q. split_and!; [lia|done|done|done|].
        intros [|j] q' Hj Hl; [naive_solver|]. apply (Hmin j); [lia|done].
      * destruct IH as [Hn ->]. split; [intros [|k] q Hl; [naive_solver|by apply (Hn k)]|done].
Qed.
