(* ===== verification/ProcStep.v ===== *)
(** * Processes, schedulers and processors (proc.c)

    Each processor is in its scheduler or runs a process; every step is one
    critical section of the process table, or a write that proc.c makes without
    the lock.  The invariant ties RUNNING processes to processors and shows that
    a parent asleep in [wait] is never left with a child it could reap. *)

From stdpp Require Import functions.
From S2P Require Import Prelude Words Params Locks Proc.

(** Where a processor is: between two passes of its scheduler, in a pass with
    the lock held, in a process that was just switched to and still has the
    scheduler's lock, or in a process. *)
Inductive cpu_at := CIdle | CScan (pos : nat) | CRes (i : nat) | CRun (i : nat).

(** How far a process is in [fork]: the slot it claimed, and whether the child's
    parent has been set. *)
Inductive fork_at := NoFork | Claimed (k : nat) | Copied (k : nat).

Record sys := Sys {
  y_tab : ptable;
  y_cpu : nat → cpu_at;
  y_fork : nat → fork_at;
  y_claims : Z            (* processes created so far *)
}.

(** A turn of [wait]: whether the process goes on. *)
Definition wait_step (i : nat) : M ptable bool :=
  r ← wait_find 1 i;
  match r with
  | Found k => wait_reap k ;; ret true
  | NoChild => ret true
  | Waits => ret false
  end.
Definition wait_call (i : nat) : M ptable bool := pt_acquire ;; wait_step i.
Definition wait_again (i : nat) : M ptable bool := modify (pupd i (pset_chan None)) ;; wait_step i.

(** [fork]'s last critical section. *)
Definition make_runnable (k : nat) : M ptable unit :=
  pt_acquire ;; modify (pupd k (pset_state RUNNABLE)) ;; pt_release.

(** What the other processes rely on in a slot. *)
Definition core (p : proc) : procstate * Z * option nat * option chan := (p_state p, p_pid p, p_parent p, p_chan p).

Inductive sstep : sys → sys → Prop :=
| st_scan c t t' cpu fk n :
    cpu c = CIdle → pt_acquire t = Ok tt t' → sstep (Sys t cpu fk n) (Sys t' (<[c := CScan 0]> cpu) fk n)
| st_pick c pos i t t' cpu fk n :
    cpu c = CScan pos → sched_pick pos t = Ok (Some i) t' → sstep (Sys t cpu fk n) (Sys t' (<[c := CRes i]> cpu) fk n)
| st_pass c pos t t' cpu fk n :
    cpu c = CScan pos → sched_pick pos t = Ok None t' → sstep (Sys t cpu fk n) (Sys t' (<[c := CIdle]> cpu) fk n)
| st_resume c i t t' cpu fk n :
    cpu c = CRes i → p_chan (procn t i) = None → pt_release t = Ok tt t' →
    sstep (Sys t cpu fk n) (Sys t' (<[c := CRun i]> cpu) fk n)
| st_awake c i a t t' cpu fk n :
    cpu c = CRes i → p_chan (procn t i) = Some (Ch_addr a) → sleep_on i t = Ok tt t' →
    sstep (Sys t cpu fk n) (Sys t' (<[c := CRun i]> cpu) fk n)
| st_wait_again c i j r t t' cpu fk n :
    cpu c = CRes i → p_chan (procn t i) = Some (Ch_proc j) → wait_again i t = Ok r t' →
    sstep (Sys t cpu fk n) (Sys t' (<[c := if r then CRun i else CScan (S i)]> cpu) fk n)
| st_wait c i r t t' cpu fk n :
    cpu c = CRun i → wait_call i t = Ok r t' →
    sstep (Sys t cpu fk n) (Sys t' (<[c := if r then CRun i else CScan (S i)]> cpu) fk n)
| st_yield c i t t' cpu fk n :
    cpu c = CRun i → yield_off 0 i t = Ok tt t' → sstep (Sys t cpu fk n) (Sys t' (<[c := CScan (S i)]> cpu) fk n)
| st_sleep c i a t t' cpu fk n :
    cpu c = CRun i → sleep 1 i (Ch_addr a) t = Ok tt t' → sstep (Sys t cpu fk n) (Sys t' (<[c := CScan (S i)]> cpu) fk n)
| st_exit c i t t' cpu fk n :
    cpu c = CRun i → pt_initproc t ≠ Some i → fk i = NoFork → exit_off 0 i t = Ok tt t' →
    sstep (Sys t cpu fk n) (Sys t' (<[c := CScan (S i)]> cpu) fk n)
| st_wakeup a t t' cpu fk n :
    wakeup (Some (Ch_addr a)) t = Ok tt t' → sstep (Sys t cpu fk n) (Sys t' cpu fk n)
| st_kill c i pid r t t' cpu fk n :
    cpu c = CRun i → kill pid t = Ok r t' → sstep (Sys t cpu fk n) (Sys t' cpu fk n)
| st_claim c i k t t' cpu fk n :
    cpu c = CRun i → fk i = NoFork → claim_slot t = Ok (Some k) t' →
    sstep (Sys t cpu fk n) (Sys t' cpu (<[i := Claimed k]> fk) (n + 1))
| st_fork_fail c i k t cpu fk n :
    cpu c = CRun i → fk i = Claimed k →
    sstep (Sys t cpu fk n) (Sys (pupd k (pset_state UNUSED) t) cpu (<[i := NoFork]> fk) n)
| st_fork_copied c i k t cpu fk n :
    cpu c = CRun i → fk i = Claimed k →
    sstep (Sys t cpu fk n) (Sys (pupd k (pset_parent (Some i)) t) cpu (<[i := Copied k]> fk) n)
| st_fork_done c i k t t' cpu fk n :
    cpu c = CRun i → fk i = Copied k → make_runnable k t = Ok tt t' →
    sstep (Sys t cpu fk n) (Sys t' cpu (<[i := NoFork]> fk) n)
| st_private c i g t cpu fk n :
    cpu c = CRun i → (∀ p, core (g p) = core p) → sstep (Sys t cpu fk n) (Sys (pupd i g t) cpu fk n).

(** The system once [userinit] has made the first process. *)
Definition first_proc : proc := pset_state RUNNABLE (pset_pid 1 zero_proc).
Definition sys_init : sys :=
  Sys (Ptable false (first_proc :: replicate (Z.to_nat NPROC - 1) zero_proc) (Some 0%nat) 2) (λ _, CIdle) (λ _, NoFork) 0.

(** ** The invariant *)

(** The processor holds the lock of the table. *)
Definition has_lock (a : cpu_at) : bool := match a with CScan _ | CRes _ => true | _ => false end.
(** The process on a processor. *)
Definition runs (a : cpu_at) : option nat := match a with CRes i | CRun i => Some i | _ => None end.
Definition fork_slot (f : fork_at) : option nat := match f with NoFork => None | Claimed k | Copied k => Some k end.

Definition child_of (t : ptable) (i k : nat) : Prop := p_parent (procn t k) = Some i.

(** A process that has started and not exited. *)
Definition alive (p : proc) : Prop := p_state p ≠ UNUSED ∧ p_state p ≠ EMBRYO ∧ p_state p ≠ ZOMBIE.

(** Process [i] is asleep in [wait]. *)
Definition in_wait (t : ptable) (i : nat) : Prop :=
  p_state (procn t i) = SLEEPING ∧ p_chan (procn t i) = Some (Ch_proc i).

(** ** What the critical sections do *)

Lemma bind_ok {S A B} (m : M S A) (f : A → M S B) s b s'' :
  bind m f s = Ok b s'' → ∃ a s', m s = Ok a s' ∧ f a s' = Ok b s''.
Proof. unfold bind. destruct (m s) as [a s'| | |]; naive_solver. Qed.

(** Take a computation that returned apart. *)
Ltac inv_ok :=
  repeat match goal with
  | H : bind _ _ _ = Ok _ _ |- _ => apply bind_ok in H as (? & ? & ? & H)
  | H : ret _ _ = Ok _ _ |- _ => unfold ret in H
  | H : modify _ _ = Ok _ _ |- _ => unfold modify in H
  | H : gets _ _ = Ok _ _ |- _ => unfold gets in H
  | H : getS _ = Ok _ _ |- _ => unfold getS in H
  | H : proc_of _ _ = Ok _ _ |- _ => unfold proc_of in H
  | H : Ok _ _ = Ok _ _ |- _ => injection H; clear H; intros; subst
  end.

Lemma acquire_ok t r t' : pt_acquire t = Ok r t' → pt_lock t = false ∧ t' = with_ptlock true t.
Proof. unfold pt_acquire, zoom, spin_acquire. destruct (pt_lock t); naive_solver. Qed.
Lemma release_ok t r t' : pt_release t = Ok r t' → pt_lock t = true ∧ t' = with_ptlock false t.
Proof. unfold pt_release, zoom, spin_release. destruct (pt_lock t); naive_solver. Qed.

Lemma sched_ok n b i t r t' : sched n b i t = Ok r t' → t' = t ∧ pt_lock t = true ∧ n = 1 ∧ p_state (procn t i) ≠ RUNNING.
Proof.
  unfold sched. intros H. inv_ok. destruct (pt_lock _) eqn:El; cbn [negb] in H; [|done].
  destruct (n =? 1) eqn:En; cbn [negb] in H; [|done]. inv_ok. case_bool_decide; [done|].
  destruct b; [done|]. inv_ok. bool_props. done.
Qed.

Lemma pick_ok pos t i t' : sched_pick pos t = Ok (Some i) t' →
  (i < length (pt_proc t))%nat ∧ p_state (procn t i) = RUNNABLE ∧ t' = pupd i (pset_state RUNNING) t.
Proof.
  unfold sched_pick, pick_from. intros H. inv_ok. destruct (find_proc _ _ _) as [k|] eqn:E; inv_ok; [|done].
  apply find_proc_Some in E as (m & p & -> & Hm & Hr & _). rewrite lookup_drop in Hm.
  destruct (procn_lookup _ _ _ Hm) as [<- Hl]. unfold is_runnable in Hr. bool_props. done.
Qed.

Lemma pass_ok pos t t' : sched_pick pos t = Ok None t' → pt_lock t = true ∧ t' = with_ptlock false t.
Proof.
  unfold sched_pick. intros H. inv_ok. destruct (pick_from _ _) as [k|] eqn:E; inv_ok; [done|].
  eapply release_ok. match goal with H : pt_release _ = _ |- _ => exact H end.
Qed.

Lemma wp_inv {S A} (c : M S A) Q s a s' : c s = Ok a s' → wp c Q s → Q a s'.
Proof. unfold wp. by intros ->. Qed.

Lemma lock_free {A} (f : unit → M ptable A) t r t' : bind pt_acquire f t = Ok r t' → pt_lock t = false.
Proof. intros (? & ? & H & _)%bind_ok. by apply acquire_ok in H as [? _]. Qed.

Lemma wp_pt_acquire t (Q : unit → ptable → Prop) : pt_lock t = false → Q tt (with_ptlock true t) → wp pt_acquire Q t.
Proof. intros Hl HQ. apply wp_zoom. unfold wp, spin_acquire. by rewrite Hl. Qed.
Lemma wp_pt_release t (Q : unit → ptable → Prop) : pt_lock t = true → Q tt (with_ptlock false t) → wp pt_release Q t.
Proof. intros Hl HQ. apply wp_zoom. unfold wp, spin_release. by rewrite Hl. Qed.

Lemma wp_sched i t (Q : unit → ptable → Prop) :
  pt_lock t = true → p_state (procn t i) ≠ RUNNING → Q tt t → wp (sched 1 false i) Q t.
Proof.
  intros Hl Hs HQ. unfold sched, proc_of. wp_step. wp_step. rewrite Hl. cbn [negb Z.eqb Pos.eqb]. wp_step. wp_step.
  rewrite bool_decide_false by done. by wp_step.
Qed.

Lemma pupd_state_ne i g t j s : (∀ p, p_state (g p) ≠ s) → (i < length (pt_proc t))%nat → j = i → p_state (procn (pupd i g t) j) ≠ s.
Proof. intros Hg Hi ->. rewrite procn_pupd by done. rewrite decide_True by done. apply Hg. Qed.

Definition asleep_on (c : chan) (p : proc) : proc := pset_state SLEEPING (pset_chan (Some c) p).
Definition kill_one (p : proc) : proc :=
  if bool_decide (p_state p = SLEEPING) then pset_state RUNNABLE (pset_killed true p) else pset_killed true p.

Section ops.
Context (t : ptable).
Implicit Types Q : unit → ptable → Prop.

Lemma wp_yield i Q : (i < length (pt_proc t))%nat → pt_lock t = false →
  Q tt (pupd i (pset_state RUNNABLE) (with_ptlock true t)) → wp (yield_off 0 i) Q t.
Proof.
  intros Hi Hl HQ. unfold yield_off. wp_step. apply wp_pt_acquire; [done|]. wp_step. wp_step.
  apply wp_sched; [done|by apply pupd_state_ne|done].
Qed.

Lemma wp_sleep i c Q : (i < length (pt_proc t))%nat → pt_lock t = false →
  Q tt (pupd i (asleep_on c) (with_ptlock true t)) → wp (sleep 1 i c) Q t.
Proof.
  intros Hi Hl HQ. unfold sleep, sleep_off. wp_step. apply wp_pt_acquire; [done|]. wp_step. wp_step.
  apply wp_sched; [done|by apply pupd_state_ne|done].
Qed.

Lemma wp_sleep_on i Q : pt_lock t = true → Q tt (with_ptlock false (pupd i (pset_chan None) t)) → wp (sleep_on i) Q t.
Proof. intros Hl HQ. unfold sleep_on. wp_step. wp_step. by apply wp_pt_release. Qed.

Lemma wp_wakeup c Q : pt_lock t = false → Q tt (with_procs (wake_one c <$> pt_proc t) t) → wp (wakeup c) Q t.
Proof.
  intros Hl HQ. unfold wakeup, wakeup1. wp_step. apply wp_pt_acquire; [done|]. wp_step. wp_step.
  apply wp_pt_release; [done|]. destruct t; simpl in *. by subst.
Qed.

Lemma wp_make_runnable k Q : pt_lock t = false → Q tt (pupd k (pset_state RUNNABLE) t) → wp (make_runnable k) Q t.
Proof.
  intros Hl HQ. unfold make_runnable. wp_step. apply wp_pt_acquire; [done|]. wp_step. wp_step.
  apply wp_pt_release; [done|]. destruct t; simpl in *. by subst.
Qed.

Lemma relock v : pt_lock t = v → with_ptlock v t = t.
Proof. destruct t; simpl. by intros ->. Qed.

Lemma wp_kill pid (Q : Z → ptable → Prop) : pt_lock t = false →
  ((∀ i, (i < length (pt_proc t))%nat → p_pid (procn t i) ≠ pid) → Q (-1) t) →
  (∀ i, (i < length (pt_proc t))%nat → p_pid (procn t i) = pid → (∀ j, (j < i)%nat → p_pid (procn t j) ≠ pid) →
     Q 0 (pupd i kill_one t)) →
  wp (kill pid) Q t.
Proof.
  intros Hl Hn Hs. unfold kill. wp_step. apply wp_pt_acquire; [done|]. wp_step. wp_step.
  cbn [with_ptlock pt_proc]. destruct (find_proc _ (pt_proc t) 0) as [i|] eqn:E.
  - destruct (find_proc_first _ t i E) as (Hi & Hf & Hmin).
    wp_step. wp_step. wp_step. unfold proc_of. wp_step.
    assert (Hp : procn (pupd i (pset_killed true) (with_ptlock true t)) i = pset_killed true (procn t i)).
    { rewrite procn_pupd by done. by rewrite decide_True. }
    rewrite Hp. assert (HQ : Q 0 (pupd i kill_one t)).
    { apply Hs; [done|lia|]. intros j Hj. specialize (Hmin j Hj). simpl in Hmin. lia. }
    clear Hs Hn. unfold kill_one, pupd in *. cbn [pset_killed p_state] in *. unfold whenM.
    case_bool_decide; wp_step; wp_step.
    + wp_step. apply wp_pt_release; [done|]. wp_step. rewrite <- (relock false Hl) in HQ. revert HQ.
      unfold with_procs, with_ptlock, procn. cbn [pt_proc pt_lock pt_initproc pt_nextpid].
      rewrite list_lookup_total_insert_eq, list_insert_insert by done. by rewrite decide_True.
    + rewrite <- (relock false Hl) in HQ. exact HQ.
  - wp_step. apply wp_pt_release; [done|]. wp_step. rewrite (relock false Hl : with_ptlock false (with_ptlock true t) = t).
    apply Hn. intros i Hi. pose proof (find_proc_none _ t i E Hi). simpl in *. lia.
Qed.

Definition claimed (pid : Z) (p : proc) : proc := pset_pid pid (pset_state EMBRYO p).

Lemma wp_claim (Q : option nat → ptable → Prop) : pt_lock t = false →
  ((∀ i, (i < length (pt_proc t))%nat → p_state (procn t i) ≠ UNUSED) → Q None t) →
  (∀ k, (k < length (pt_proc t))%nat → p_state (procn t k) = UNUSED → (∀ j, (j < k)%nat → p_state (procn t j) ≠ UNUSED) →
     Q (Some k) (with_nextpid (i32 (pt_nextpid t + 1)) (pupd k (claimed (pt_nextpid t)) t))) →
  wp claim_slot Q t.
Proof.
  intros Hl Hn Hs. unfold claim_slot. wp_step. apply wp_pt_acquire; [done|]. wp_step. wp_step.
  cbn [with_ptlock pt_proc]. destruct (find_proc _ (pt_proc t) 0) as [i|] eqn:E.
  - destruct (find_proc_first _ t i E) as (Hi & Hf & Hmin). unfold is_unused in *.
    wp_step. wp_step. wp_step. wp_step. wp_step. wp_step. wp_step. apply wp_pt_release; [done|]. wp_step.
    assert (HQ : Q (Some i) (with_nextpid (i32 (pt_nextpid t + 1)) (pupd i (claimed (pt_nextpid t)) t))).
    { apply Hs; [done|by bool_props|]. intros j Hj. specialize (Hmin j Hj). by bool_props. }
    clear -HQ Hl. destruct t; simpl in *. subst. exact HQ.
  - wp_step. apply wp_pt_release; [done|]. wp_step. rewrite (relock false Hl : with_ptlock false (with_ptlock true t) = t).
    apply Hn. intros i Hi. pose proof (find_proc_none _ t i E Hi). unfold is_unused in *. by bool_props.
Qed.
End ops.

(** The three ends of a turn of [wait]. *)
Lemma wp_wait_find i t (Q : wait_turn → ptable → Prop) : (i < length (pt_proc t))%nat → pt_lock t = true →
  (∀ k, (k < length (pt_proc t))%nat → child_of t i k → p_state (procn t k) = ZOMBIE →
     (∀ j, (j < k)%nat → child_of t i j → p_state (procn t j) ≠ ZOMBIE) → Q (Found k) t) →
  ((∀ k, child_of t i k → p_state (procn t k) ≠ ZOMBIE) → (∀ k, ¬ child_of t i k) ∨ p_killed (procn t i) = true →
     Q NoChild (with_ptlock false t)) →
  ((∀ k, child_of t i k → p_state (procn t k) ≠ ZOMBIE) → (∃ k, child_of t i k) → p_killed (procn t i) = false →
     Q Waits (pupd i (asleep_on (Ch_proc i)) t)) →
  wp (wait_find 1 i) Q t.
Proof.
  intros Hi Hl Hf Hno Hw. unfold wait_find. wp_step. wp_step.
  destruct (wait_scan i (pt_proc t) 0 false) as [z hk] eqn:E. pose proof (wait_scan_spec _ _ _ _ _ E) as Hs.
  cbn [fst snd] in Hs. destruct z as [k|].
  - destruct Hs as (m & p & -> & Hm & Hp & Hz & Hmin). destruct (procn_lookup _ _ _ Hm) as [Ep Hlt]. simpl.
    wp_step. apply Hf; [done|by unfold child_of; rewrite Ep|by rewrite Ep|]. intros j Hj.
    destruct (lookup_lt_is_Some_2 (pt_proc t) j ltac:(lia)) as [q Hq]. destruct (procn_lookup _ _ _ Hq) as [Eq _].
    unfold child_of. rewrite Eq. by apply (Hmin j).
  - destruct Hs as [Hn Hhk]. simpl in Hhk.
    assert (Hn' : ∀ k, child_of t i k → p_state (procn t k) ≠ ZOMBIE).
    { intros k Hk. destruct (decide (k < length (pt_proc t))%nat) as [Hlt|]; [|by rewrite procn_out by lia].
      destruct (lookup_lt_is_Some_2 (pt_proc t) k Hlt) as [q Hq]. destruct (procn_lookup _ _ _ Hq) as [Eq _].
      unfold child_of in Hk. rewrite Eq in *. by apply (Hn k). }
    destruct hk; cbn [negb orb].
    + destruct (p_killed (procn t i)) eqn:Ek.
      * wp_step. apply wp_pt_release; [done|]. wp_step. apply Hno; auto.
      * unfold sleep_off. wp_step. wp_step. wp_step. apply wp_sched; [done|by apply pupd_state_ne|]. wp_step.
        apply Hw; [done| |done]. symmetry in Hhk. apply existsb_exists in Hhk as (q & Hq & Hb).
        apply list_elem_of_In, list_elem_of_lookup in Hq as [k Hk]. exists k.
        destruct (procn_lookup _ _ _ Hk) as [Eq _]. unfold child_of. rewrite Eq. by bool_props.
    + wp_step. apply wp_pt_release; [done|]. wp_step. apply Hno; [done|]. left. intros k Hk.
      destruct (decide (k < length (pt_proc t))%nat) as [Hlt|]; [|by unfold child_of in Hk; rewrite procn_out in Hk by lia].
      destruct (lookup_lt_is_Some_2 (pt_proc t) k Hlt) as [q Hq]. destruct (procn_lookup _ _ _ Hq) as [Eq _].
      assert (existsb (λ p, bool_decide (p_parent p = Some i)) (pt_proc t) = true); [|congruence].
      apply existsb_exists. exists q. split; [apply list_elem_of_In; by apply list_elem_of_lookup_2 with k|].
      unfold child_of in Hk. rewrite Eq in Hk. by apply bool_decide_true.
Qed.

Lemma wp_wait_step i t (Q : bool → ptable → Prop) : (i < length (pt_proc t))%nat → pt_lock t = true →
  (∀ k, (k < length (pt_proc t))%nat → child_of t i k → p_state (procn t k) = ZOMBIE → Q true (with_ptlock false (pupd k reap t))) →
  Q true (with_ptlock false t) →
  ((∀ k, child_of t i k → p_state (procn t k) ≠ ZOMBIE) → Q false (pupd i (asleep_on (Ch_proc i)) t)) →
  wp (wait_step i) Q t.
Proof.
  intros Hi Hl Hf Hn Hw. unfold wait_step. wp_step. apply wp_wait_find; [done|done|..].
  - intros k Hk Hc Hz _. unfold wait_reap, proc_of. wp_step. wp_step. wp_step. wp_step. wp_step. wp_step. apply wp_pt_release; [done|].
    wp_step. wp_step. by apply Hf.
  - intros _ _. by wp_step.
  - intros Hz _ _. wp_step. by apply Hw.
Qed.

(** ** Exit *)

(** Slots may only have been woken up, and children of [cur] handed to init. *)
Record gave_up (cur : nat) (t t' : ptable) : Prop := {
  gu_len : length (pt_proc t') = length (pt_proc t);
  gu_lock : pt_lock t' = pt_lock t;
  gu_init : pt_initproc t' = pt_initproc t;
  gu_next : pt_nextpid t' = pt_nextpid t;
  gu_state : ∀ j, p_state (procn t' j) = p_state (procn t j) ∨
    (p_state (procn t j) = SLEEPING ∧ p_state (procn t' j) = RUNNABLE);
  gu_pid : ∀ j, p_pid (procn t' j) = p_pid (procn t j);
  gu_chan : ∀ j, p_chan (procn t' j) = p_chan (procn t j)
}.

Lemma gave_up_refl cur t : gave_up cur t t.
Proof. by split; auto. Qed.

Lemma gave_up_trans cur t1 t2 t3 : gave_up cur t1 t2 → gave_up cur t2 t3 → gave_up cur t1 t3.
Proof.
  intros [a1 b1 c1 d1 e1 f1 g1] [a2 b2 c2 d2 e2 f2 g2]. split; try congruence.
  intros j. specialize (e1 j). specialize (e2 j). intuition congruence.
Qed.

Lemma wake_one_fields c p :
  (p_state (wake_one c p) = p_state p ∨ (p_state p = SLEEPING ∧ p_state (wake_one c p) = RUNNABLE)) ∧
  p_pid (wake_one c p) = p_pid p ∧ p_chan (wake_one c p) = p_chan p ∧ p_parent (wake_one c p) = p_parent p.
Proof. unfold wake_one. destruct (bool_decide _ && bool_decide _) eqn:E; bool_props; simpl; auto. Qed.

Lemma gave_up_wake cur c t : gave_up cur t (with_procs (wake_one c <$> pt_proc t) t).
Proof. split; try done; [simpl; apply length_fmap|..]; intros j; rewrite procn_wake; apply wake_one_fields. Qed.

Lemma gave_up_parent cur i v t : (i < length (pt_proc t))%nat → gave_up cur t (pupd i (pset_parent v) t).
Proof.
  intros Hi. split; try done; [apply length_pupd|..]; intros j; rewrite procn_pupd by done; case_decide; subst; auto.
Qed.

(** Nobody waits on the channel that was just woken up. *)
Definition nobody_on (c : chan) (t : ptable) : Prop :=
  ∀ j, p_state (procn t j) = SLEEPING → p_chan (procn t j) ≠ Some c.

Lemma nobody_wake c t : nobody_on c (with_procs (wake_one (Some c) <$> pt_proc t) t).
Proof.
  intros j. rewrite procn_wake. unfold wake_one.
  destruct (bool_decide _ && bool_decide _) eqn:E; simpl; [done|]. intros Hs Hc.
  rewrite Hs, Hc, !bool_decide_true in E by done. done.
Qed.

Lemma nobody_gave_up cur c t t' : gave_up cur t t' → nobody_on c t → nobody_on c t'.
Proof. intros [] Hn j Hs. rewrite gu_chan0. apply Hn. destruct (gu_state0 j) as [E|[_ E]]; congruence. Qed.

(** The state after the first [m] slots have been looked at. *)
Record abandoned (cur ini : nat) (m : Z) (t t' : ptable) : Prop := {
  ab_gave : gave_up cur t t';
  ab_parent : ∀ j, p_parent (procn t' j) = if decide (Z.of_nat j < m ∧ p_parent (procn t j) = Some cur) then Some ini
    else p_parent (procn t j);
  ab_woken : ∀ j, Z.of_nat j < m → child_of t cur j → p_state (procn t j) = ZOMBIE → nobody_on (Ch_proc ini) t'
}.

Lemma abandoned_step cur ini i t t1 : pt_initproc t = Some ini →
  0 ≤ i < Z.of_nat (length (pt_proc t)) → abandoned cur ini i t t1 →
  wp (abandon_one cur i) (λ _, abandoned cur ini (i + 1) t) t1.
Proof.
  intros Hini Hi [Hg Hp Hw]. pose proof Hg as [Hlen _ Hgi _ Hst _ _]. unfold abandon_one, proc_of. wp_step. wp_step.
  assert (Ei : Z.of_nat (Z.to_nat i) = i) by lia.
  assert (Hpi : p_parent (procn t1 (Z.to_nat i)) = p_parent (procn t (Z.to_nat i))).
  { rewrite Hp. rewrite decide_False; [done|]. lia. }
  rewrite Hpi. unfold whenM. case_bool_decide as Ec.
  - wp_step. wp_step. rewrite Hgi, Hini. wp_step. wp_step.
    set (t2 := pupd (Z.to_nat i) (pset_parent (Some ini)) t1).
    assert (Hg2 : gave_up cur t t2). { eapply gave_up_trans; [exact Hg|]. apply gave_up_parent. lia. }
    assert (Hp2 : ∀ j, p_parent (procn t2 j) =
      if decide (Z.of_nat j < i + 1 ∧ p_parent (procn t j) = Some cur) then Some ini else p_parent (procn t j)).
    { intros j. unfold t2. rewrite procn_pupd by lia. destruct (decide (Z.to_nat i = j)) as [<-|Hne].
      - rewrite decide_True; [done|]. split; [lia|done].
      - rewrite Hp. assert (Hij : Z.of_nat j < i + 1 ↔ Z.of_nat j < i) by lia.
        destruct (decide (Z.of_nat j < i ∧ _)), (decide (Z.of_nat j < i + 1 ∧ _)); tauto || done. }
    assert (Hw2 : ∀ j, Z.of_nat j < i → child_of t cur j → p_state (procn t j) = ZOMBIE → nobody_on (Ch_proc ini) t2).
    { intros j Hj Hc Hz. eapply (nobody_gave_up cur _ t1); [|by apply (Hw j)]. apply gave_up_parent. lia. }
    cbn [whenM]. case_bool_decide as Ez.
    + unfold wakeup1. wp_step. split.
      * eapply gave_up_trans; [exact Hg2|]. apply gave_up_wake.
      * intros j. rewrite procn_wake, <- Hp2. apply wake_one_fields.
      * intros j Hj Hc Hz. apply nobody_wake.
    + wp_step. split; [done|done|]. intros j Hj Hc Hz. destruct (decide (Z.of_nat j = i)) as [E|]; [|apply (Hw2 j); [lia|done|done]].
      exfalso. apply Ez. replace (Z.to_nat i) with j by lia. destruct (Hst j) as [->|[? _]]; [done|congruence].
  - wp_step. split; [done| |].
    + intros j. rewrite Hp. destruct (decide (j = Z.to_nat i)) as [->|].
      * rewrite !decide_False; [done|tauto|tauto].
      * assert (Hij : Z.of_nat j < i + 1 ↔ Z.of_nat j < i) by lia.
        destruct (decide (Z.of_nat j < i ∧ _)), (decide (Z.of_nat j < i + 1 ∧ _)); tauto || done.
    + intros j Hj Hc Hz. destruct (decide (Z.of_nat j = i)) as [E|]; [|apply (Hw j); [lia|done|done]].
      exfalso. apply Ec. by replace (Z.to_nat i) with j by lia.
Qed.

(** What [exit] leaves in the table. *)
Record exited (cur ini : nat) (t t' : ptable) : Prop := {
  ex_len : length (pt_proc t') = length (pt_proc t);
  ex_lock : pt_lock t' = true;
  ex_init : pt_initproc t' = pt_initproc t;
  ex_next : pt_nextpid t' = pt_nextpid t;
  ex_state : p_state (procn t' cur) = ZOMBIE;
  ex_others : ∀ j, j ≠ cur → p_state (procn t' j) = p_state (procn t j) ∨
    (p_state (procn t j) = SLEEPING ∧ p_state (procn t' j) = RUNNABLE);
  ex_pid : ∀ j, p_pid (procn t' j) = p_pid (procn t j);
  ex_chan : ∀ j, p_chan (procn t' j) = p_chan (procn t j);
  ex_parent : ∀ j, p_parent (procn t' j) = if decide (p_parent (procn t j) = Some cur) then Some ini else p_parent (procn t j);
  ex_woken : ∀ q, child_of t q cur → nobody_on (Ch_proc q) t';
  ex_init_woken : ∀ j, child_of t cur j → p_state (procn t j) = ZOMBIE → nobody_on (Ch_proc ini) t'
}.

Lemma nobody_zombie c cur t : (cur < length (pt_proc t))%nat → nobody_on c t → nobody_on c (pupd cur (pset_state ZOMBIE) t).
Proof. intros Hc Hn j. rewrite procn_pupd by done. case_decide; [done|]. apply Hn. Qed.

Lemma wp_exit cur ini t : pt_initproc t = Some ini → length (pt_proc t) = Z.to_nat NPROC → (cur < length (pt_proc t))%nat →
  pt_lock t = false → wp (exit_off 0 cur) (λ _, exited cur ini t) t.
Proof.
  intros Hini Hlen Hc Hl. unfold exit_off, proc_of, wakeup1. wp_step. apply wp_pt_acquire; [done|]. do 4 wp_step.
  set (t1 := with_procs _ _). assert (Hg1 : gave_up cur (with_ptlock true t) t1) by apply gave_up_wake.
  assert (Hp1 : ∀ j, p_parent (procn t1 j) = p_parent (procn t j)).
  { intros j. unfold t1. rewrite procn_wake. apply wake_one_fields. }
  assert (Hw1 : ∀ q, child_of t q cur → nobody_on (Ch_proc q) t1).
  { intros q Hq. unfold t1. change (procn (with_ptlock true t) cur) with (procn t cur). rewrite Hq. apply nobody_wake. }
  clearbody t1. wp_step. eapply wp_mono.
  { apply (wp_for_loop (λ m s, abandoned cur ini m t1 s)).
    - split; [apply gave_up_refl| |lia]. intros j. rewrite decide_False; [done|lia].
    - intros i s Hi Hs. rewrite Z2Nat.id in Hi by done. apply abandoned_step; [by rewrite (gu_init _ _ _ Hg1)| |done].
      rewrite (gu_len _ _ _ Hg1). simpl. lia. }
  intros [] t2 [Hg2 Hp2 Hw2]. pose proof (gave_up_trans _ _ _ _ Hg1 Hg2) as Hg.
  destruct Hg as [Hgl Hgk Hgi Hgn Hgs Hgp Hgc]. cbn [with_ptlock pt_proc pt_lock pt_initproc pt_nextpid] in *.
  wp_step. wp_step. apply wp_sched; [done|apply pupd_state_ne; [done|lia|done]|].
  assert (Hs1 : ∀ j, p_state (procn t j) = ZOMBIE → p_state (procn t1 j) = ZOMBIE).
  { intros j Hz. destruct (gu_state _ _ _ Hg1 j) as [->|[E _]]; [done|]. by change (p_state (procn t j) = SLEEPING) in E; congruence. }
  split; try done.
  - by rewrite length_pupd.
  - rewrite procn_pupd by lia. by rewrite decide_True.
  - intros j Hj. rewrite procn_pupd by lia. rewrite decide_False by done. apply Hgs.
  - intros j. rewrite procn_pupd by lia. case_decide; subst; apply Hgp.
  - intros j. rewrite procn_pupd by lia. case_decide; subst; apply Hgc.
  - intros j. assert (Hj : p_parent (procn (pupd cur (pset_state ZOMBIE) t2) j) = p_parent (procn t2 j)).
    { rewrite procn_pupd by lia. by case_decide; subst. }
    rewrite Hj, Hp2, Hp1.
    destruct (decide (p_parent (procn t j) = Some cur)) as [E|E]; [|rewrite decide_False; [done|tauto]].
    rewrite decide_True; [done|]. split; [|done]. destruct (decide (j < length (pt_proc t))%nat); [lia|].
    by rewrite procn_out in E by lia.
  - intros q Hq. apply nobody_zombie; [lia|]. apply (nobody_gave_up cur _ t1); [done|by apply Hw1].
  - intros j Hj Hz. apply nobody_zombie; [lia|]. apply (Hw2 j); [|by unfold child_of; rewrite Hp1|by apply Hs1].
    destruct (decide (j < length (pt_proc t))%nat); [lia|]. unfold child_of in Hj. by rewrite procn_out in Hj by lia.
Qed.

(** ** Preservation *)

(** The slots a step does not act on. *)
Definition quiet (p p' : proc) : Prop :=
  (p_state p' = RUNNING ↔ p_state p = RUNNING) ∧ (p_state p = EMBRYO → p_state p' = EMBRYO) ∧ p_chan p' = p_chan p.

Lemma quiet_refl p : quiet p p.
Proof. done. Qed.

(** The part of the invariant about processors, and the part about forks. *)
Record cpu_inv (t : ptable) (cpu : nat → cpu_at) : Prop := {
  ci_lock : pt_lock t = true ↔ ∃ c, has_lock (cpu c) = true;
  ci_excl : ∀ c c', has_lock (cpu c) = true → has_lock (cpu c') = true → c = c';
  ci_running : ∀ i, p_state (procn t i) = RUNNING ↔ ∃ c, runs (cpu c) = Some i;
  ci_one : ∀ c c' i, runs (cpu c) = Some i → runs (cpu c') = Some i → c = c';
  ci_chan : ∀ c i, cpu c = CRun i → p_chan (procn t i) = None
}.

(** Processor [c] moves to [a'], acting on slot [i]. *)
Lemma cpu_inv_move t t' cpu c i a' :
  cpu_inv t cpu →
  (∀ j, j ≠ i → quiet (procn t j) (procn t' j)) →
  (runs (cpu c) = Some i ∨ (runs (cpu c) = None ∧ p_state (procn t i) ≠ RUNNING)) →
  (runs a' = Some i ∨ runs a' = None) →
  (p_state (procn t' i) = RUNNING ↔ runs a' = Some i) →
  (a' = CRun i → p_chan (procn t' i) = None) →
  (pt_lock t = false ∨ has_lock (cpu c) = true) →
  pt_lock t' = has_lock a' →
  cpu_inv t' (<[c := a']> cpu).
Proof.
  intros [Hl He Hr Ho Hc] Hq Hold Hnew Hst Hch Hlk Hlk'.
  assert (Hother : ∀ c', c' ≠ c → has_lock (cpu c') = false).
  { intros c' Hne. destruct (has_lock (cpu c')) eqn:E; [|done]. exfalso. destruct Hlk as [Hf|Hh]; [|by apply Hne, He].
    assert (pt_lock t = true) by (apply Hl; by exists c'). congruence. }
  assert (Hnoi : ∀ c', c' ≠ c → runs (cpu c') ≠ Some i).
  { intros c' Hne E. destruct Hold as [Hold|[_ Hold]]; [by apply Hne, (Ho c' c i)|]. apply Hold, Hr. by exists c'. }
  split.
  - rewrite Hlk'. split.
    + intros Ha. exists c. by rewrite fn_lookup_insert.
    + intros [c' Hc']. destruct (decide (c' = c)) as [->|]; [by rewrite fn_lookup_insert in Hc'|].
      rewrite fn_lookup_insert_ne, Hother in Hc' by done. done.
  - intros c1 c2 H1 H2. destruct (decide (c1 = c)) as [->|], (decide (c2 = c)) as [->|]; [done|..];
      rewrite ?fn_lookup_insert_ne, ?Hother in * by done; done.
  - intros j. destruct (decide (j = i)) as [->|Hji].
    + rewrite Hst. split.
      * intros E. exists c. by rewrite fn_lookup_insert.
      * intros [c' Hc']. destruct (decide (c' = c)) as [->|]; [by rewrite fn_lookup_insert in Hc'|].
        rewrite fn_lookup_insert_ne in Hc' by done. by apply Hnoi in Hc'.
    + destruct (Hq j Hji) as (-> & _ & _). rewrite Hr. split; intros [c' Hc'].
      * exists c'. destruct (decide (c' = c)) as [->|]; [|by rewrite fn_lookup_insert_ne].
        exfalso. destruct Hold as [?|[? _]]; congruence.
      * exists c'. destruct (decide (c' = c)) as [->|]; [|by rewrite fn_lookup_insert_ne in Hc'].
        rewrite fn_lookup_insert in Hc'. destruct Hnew; congruence.
  - intros c1 c2 j H1 H2. destruct (decide (c1 = c)) as [->|], (decide (c2 = c)) as [->|]; [done|..];
      rewrite ?fn_lookup_insert, ?fn_lookup_insert_ne in * by done.
    + exfalso. destruct Hnew as [E|E]; [|congruence]. apply (Hnoi c2); congruence.
    + exfalso. destruct Hnew as [E|E]; [|congruence]. apply (Hnoi c1); congruence.
    + by apply (Ho c1 c2 j).
  - intros c' j Hj. destruct (decide (c' = c)) as [->|].
    + rewrite fn_lookup_insert in Hj. subst a'. destruct Hnew as [[= ->]|]; [|done]. by apply Hch.
    + rewrite fn_lookup_insert_ne in Hj by done. assert (j ≠ i) by (intros ->; apply (Hnoi c'); [done|by rewrite Hj]).
      destruct (Hq j) as (_ & _ & ->); [done|]. by apply (Hc c').
Qed.

(** A step that leaves the processors where they are. *)
Lemma cpu_inv_stay t t' cpu :
  cpu_inv t cpu → pt_lock t' = pt_lock t → (∀ j, (p_state (procn t' j) = RUNNING ↔ p_state (procn t j) = RUNNING) ∧
    (p_state (procn t j) = RUNNING → p_chan (procn t' j) = p_chan (procn t j))) → cpu_inv t' cpu.
Proof.
  intros [Hl He Hr Ho Hc] Hlk Hq. split; try done.
  - by rewrite Hlk.
  - intros i. destruct (Hq i) as [-> _]. apply Hr.
  - intros c i E. destruct (Hq i) as [_ ->]; [by apply (Hc c)|]. apply Hr. exists c. by rewrite E.
Qed.

(** The part about parents and children. *)
Record tree_inv (t : ptable) : Prop := {
  ti_wchan : ∀ i j, p_chan (procn t i) = Some (Ch_proc j) → j = i;
  ti_wait : ∀ i k, in_wait t i → child_of t i k → p_state (procn t k) ≠ ZOMBIE;
  ti_parent : ∀ i, ¬ child_of t i i;
  ti_init : ∃ i, pt_initproc t = Some i ∧ alive (procn t i) ∧ p_parent (procn t i) = None;
  ti_adopt : ∀ i k, child_of t i k → alive (procn t i);
  ti_unused : ∀ k, p_state (procn t k) = UNUSED → p_parent (procn t k) = None
}.

(** A slot whose change the family relations do not notice. *)
Record calm (p p' : proc) : Prop := {
  cm_parent : p_parent p' = p_parent p;
  cm_zombie : p_state p' = ZOMBIE → p_state p = ZOMBIE;
  cm_alive : alive p → alive p';
  cm_unused : p_state p' = UNUSED → p_state p = UNUSED ∨ p_parent p = None;
  cm_wait : ∀ k, p_chan p' = Some (Ch_proc k) → p_chan p = Some (Ch_proc k) ∧ (p_state p' = SLEEPING → p_state p = SLEEPING)
}.

Lemma tree_inv_calm t t' : tree_inv t → pt_initproc t' = pt_initproc t → (∀ j, calm (procn t j) (procn t' j)) → tree_inv t'.
Proof.
  intros [H1 H2 H3 H4 H5 H6] Hi Hc. unfold child_of, in_wait in *. split; unfold child_of, in_wait.
  - intros i j Hj. apply H1. by apply (cm_wait _ _ (Hc i)).
  - intros i k [Hs Hch] Hk. rewrite (cm_parent _ _ (Hc k)) in Hk. intros Hz%(cm_zombie _ _ (Hc k)).
    apply (H2 i k); [|done|done]. destruct (cm_wait _ _ (Hc i) i Hch) as [? ?]. auto.
  - intros i. rewrite (cm_parent _ _ (Hc i)). apply H3.
  - destruct H4 as (i & ? & ? & ?). exists i. split_and!; [congruence|by apply (cm_alive _ _ (Hc i))|].
    by rewrite (cm_parent _ _ (Hc i)).
  - intros i k Hk. rewrite (cm_parent _ _ (Hc k)) in Hk. apply (cm_alive _ _ (Hc i)). by eapply H5.
  - intros k Hk. rewrite (cm_parent _ _ (Hc k)). apply (cm_unused _ _ (Hc k)) in Hk as [Hk|Hk]; auto.
Qed.

(** The part about children being made. *)
Record fork_inv (t : ptable) (fk : nat → fork_at) : Prop := {
  fi_embryo : ∀ i k, fork_slot (fk i) = Some k → p_state (procn t k) = EMBRYO;
  fi_one : ∀ i j k, fork_slot (fk i) = Some k → fork_slot (fk j) = Some k → i = j;
  fi_claimed : ∀ i k, fk i = Claimed k → p_parent (procn t k) = None
}.

Lemma fork_inv_stay t t' fk : fork_inv t fk →
  (∀ j, p_state (procn t j) = EMBRYO → p_state (procn t' j) = EMBRYO ∧
    (p_parent (procn t j) = None → p_parent (procn t' j) = None)) → fork_inv t' fk.
Proof.
  intros [H1 H2 H3] Hq. split; [|done|].
  - intros i k Hk. apply Hq. by eapply H1.
  - intros i k Hk. apply Hq; [|by eapply H3]. apply (H1 i). by rewrite Hk.
Qed.

(** The part about pids: as long as the counter has not wrapped around. *)
Definition pid_inv (t : ptable) (n : Z) : Prop :=
  0 ≤ n ∧ (n < 2 ^ 31 - 3 → pt_nextpid t = n + 2 ∧
  (∀ i, p_state (procn t i) ≠ UNUSED → 0 < p_pid (procn t i) < pt_nextpid t) ∧
  (∀ i j, p_state (procn t i) ≠ UNUSED → p_state (procn t j) ≠ UNUSED → p_pid (procn t i) = p_pid (procn t j) → i = j)).

Lemma pid_inv_same t t' n : pid_inv t n → pt_nextpid t' = pt_nextpid t →
  (∀ j, p_state (procn t' j) ≠ UNUSED → p_state (procn t j) ≠ UNUSED ∧ p_pid (procn t' j) = p_pid (procn t j)) → pid_inv t' n.
Proof.
  intros [Hn H] Hnx Hq. split; [done|]. intros Hlt. destruct (H Hlt) as (E & Hr & Hu). rewrite Hnx. split_and!; [done|..].
  - intros i Hi. destruct (Hq i Hi) as [? ->]. auto.
  - intros i j Hi Hj. destruct (Hq i Hi) as [? ->], (Hq j Hj) as [? ->]. auto.
Qed.

Record sinv (σ : sys) : Prop := {
  si_len : length (pt_proc (y_tab σ)) = Z.to_nat NPROC;
  si_cpu : cpu_inv (y_tab σ) (y_cpu σ);
  si_tree : tree_inv (y_tab σ);
  si_fork : fork_inv (y_tab σ) (y_fork σ);
  si_pid : pid_inv (y_tab σ) (y_claims σ)
}.

(** [t'] is [t] with slot [i] updated, up to the lock. *)
Record slot_upd (i : nat) (g : proc → proc) (t t' : ptable) : Prop := {
  su_len : length (pt_proc t') = length (pt_proc t);
  su_proc : ∀ j, procn t' j = if decide (i = j) then g (procn t i) else procn t j;
  su_init : pt_initproc t' = pt_initproc t;
  su_next : pt_nextpid t' = pt_nextpid t
}.

Lemma slot_upd_pupd i g t v w : (i < length (pt_proc t))%nat → slot_upd i g t (with_ptlock v (pupd i g (with_ptlock w t))).
Proof. intros Hi. split; [apply length_insert| |done|done]. intros j. by apply (procn_pupd i g t j). Qed.

Lemma slot_upd_id i v t : slot_upd i id t (with_ptlock v t).
Proof. split; try done. intros j. case_decide; by subst. Qed.

(** What a slot update has to respect besides the processors. *)
Record slot_safe (p p' : proc) : Prop := {
  ss_calm : calm p p';
  ss_embryo : p_state p = EMBRYO → p_state p' = EMBRYO;
  ss_unused : p_state p' ≠ UNUSED → p_state p ≠ UNUSED;
  ss_pid : p_pid p' = p_pid p
}.

Lemma calm_refl p : calm p p.
Proof. split; auto. Qed.
Lemma slot_safe_refl p : slot_safe p p.
Proof. split; auto using calm_refl. Qed.

Lemma sinv_tab t t' cpu cpu' fk n :
  sinv (Sys t cpu fk n) → cpu_inv t' cpu' → length (pt_proc t') = length (pt_proc t) →
  pt_initproc t' = pt_initproc t → pt_nextpid t' = pt_nextpid t →
  (∀ j, slot_safe (procn t j) (procn t' j)) → sinv (Sys t' cpu' fk n).
Proof.
  intros [Hl Hc Ht Hf Hp] Hc' Hlen Hi Hn Hs. cbn [y_tab y_cpu y_fork y_claims] in *.
  split; cbn [y_tab y_cpu y_fork y_claims]; [congruence|done|..].
  - apply (tree_inv_calm t); [done|done|]. intros j. apply Hs.
  - apply (fork_inv_stay t); [done|]. intros j Hj. destruct (Hs j) as [[Hpar _ _ _ _] He _ _]. split; [auto|by rewrite Hpar].
  - apply (pid_inv_same t); [done|done|]. intros j Hj. destruct (Hs j); auto.
Qed.

Lemma sinv_slot i g t t' cpu cpu' fk n :
  sinv (Sys t cpu fk n) → cpu_inv t' cpu' → slot_upd i g t t' → slot_safe (procn t i) (g (procn t i)) →
  sinv (Sys t' cpu' fk n).
Proof.
  intros Hs Hc [Hl Hp Hi Hn] Hss. apply (sinv_tab t t' cpu); [done..|]. intros j. rewrite Hp.
  case_decide; [by subst|apply slot_safe_refl].
Qed.

(** A processor moves, acting on a slot. *)
Lemma sinv_move i g t t' cpu c a' fk n :
  sinv (Sys t cpu fk n) → slot_upd i g t t' → slot_safe (procn t i) (g (procn t i)) →
  (runs (cpu c) = Some i ∨ (runs (cpu c) = None ∧ p_state (procn t i) ≠ RUNNING)) →
  (runs a' = Some i ∨ runs a' = None) →
  (p_state (g (procn t i)) = RUNNING ↔ runs a' = Some i) →
  (a' = CRun i → p_chan (g (procn t i)) = None) →
  (pt_lock t = false ∨ has_lock (cpu c) = true) → pt_lock t' = has_lock a' →
  sinv (Sys t' (<[c := a']> cpu) fk n).
Proof.
  intros Hs Hu Hss Ho Hn Hst Hch Hlk Hlk'. eapply sinv_slot; [done| |done|done].
  pose proof (su_proc _ _ _ _ Hu) as Hp. pose proof (Hp i) as Hpi. rewrite decide_True in Hpi by done.
  apply (cpu_inv_move t t' cpu c i a'); [by apply (si_cpu _ Hs)| |done|done|by rewrite Hpi|by rewrite Hpi|done|done].
  intros j Hj. rewrite Hp, decide_False by done. apply quiet_refl.
Qed.

Lemma sinv_range t cpu fk n i : sinv (Sys t cpu fk n) → p_state (procn t i) ≠ UNUSED → (i < length (pt_proc t))%nat.
Proof. intros _ Hs. destruct (decide (i < length (pt_proc t))%nat); [done|]. by rewrite procn_out in Hs by lia. Qed.

Lemma sinv_runs t cpu fk n c i : sinv (Sys t cpu fk n) → runs (cpu c) = Some i →
  p_state (procn t i) = RUNNING ∧ (i < length (pt_proc t))%nat.
Proof.
  intros Hs Hr. assert (Hst : p_state (procn t i) = RUNNING) by (apply (si_cpu _ Hs); by exists c).
  split; [done|]. eapply sinv_range; [done|congruence].
Qed.

(** A change of state that keeps a process alive and out of [wait]. *)
Lemma slot_safe_alive p p' :
  p_parent p' = p_parent p → p_pid p' = p_pid p → alive p → alive p' →
  (∀ k, p_chan p' = Some (Ch_proc k) → p_chan p = Some (Ch_proc k) ∧ p_state p' ≠ SLEEPING) → slot_safe p p'.
Proof.
  intros Hpar Hpid (A1 & A2 & A3) (B1 & B2 & B3) Hch. split; [split|..]; try done; try (unfold alive; tauto).
  intros k Hk. destruct (Hch k Hk). tauto.
Qed.

Ltac alive_tac := by (repeat split; simpl; congruence).

Lemma scan_inv c t t' cpu fk n : sinv (Sys t cpu fk n) → cpu c = CIdle → pt_acquire t = Ok tt t' →
  sinv (Sys t' (<[c := CScan 0]> cpu) fk n).
Proof.
  intros Hs Hc [Hl ->]%acquire_ok. pose proof (si_len _ Hs) as Hlen. simpl in Hlen.
  assert (Hst : p_state (procn t (Z.to_nat NPROC)) ≠ RUNNING) by (by rewrite procn_out by lia).
  apply (sinv_move (Z.to_nat NPROC) id t); auto using slot_upd_id, slot_safe_refl; rewrite ?Hc; simpl; auto; try done; by split.
Qed.

Lemma pass_inv c pos t t' cpu fk n : sinv (Sys t cpu fk n) → cpu c = CScan pos → sched_pick pos t = Ok None t' →
  sinv (Sys t' (<[c := CIdle]> cpu) fk n).
Proof.
  intros Hs Hc [Hl ->]%pass_ok. pose proof (si_len _ Hs) as Hlen. simpl in Hlen.
  assert (Hst : p_state (procn t (Z.to_nat NPROC)) ≠ RUNNING) by (by rewrite procn_out by lia).
  apply (sinv_move (Z.to_nat NPROC) id t); auto using slot_upd_id, slot_safe_refl; rewrite ?Hc; simpl; auto; try done; by split.
Qed.

Lemma pick_inv c pos i t t' cpu fk n : sinv (Sys t cpu fk n) → cpu c = CScan pos → sched_pick pos t = Ok (Some i) t' →
  sinv (Sys t' (<[c := CRes i]> cpu) fk n).
Proof.
  intros Hs Hc (Hi & Hst & ->)%pick_ok.
  assert (Hl : pt_lock t = true) by (apply (si_cpu _ Hs); exists c; cbn [y_cpu]; by rewrite Hc).
  apply (sinv_move i (pset_state RUNNING) t); rewrite ?Hc; simpl; auto; try done.
  - split; [apply length_pupd|by intros; apply procn_pupd|done|done].
  - apply slot_safe_alive; try done; try alive_tac.
  - right. split; congruence.
Qed.

Lemma resume_inv c i t t' cpu fk n : sinv (Sys t cpu fk n) → cpu c = CRes i → p_chan (procn t i) = None →
  pt_release t = Ok tt t' → sinv (Sys t' (<[c := CRun i]> cpu) fk n).
Proof.
  intros Hs Hc Hch [Hl ->]%release_ok. destruct (sinv_runs t cpu fk n c i Hs) as [Hst Hi]; [by rewrite Hc|].
  apply (sinv_move i id t); auto using slot_upd_id, slot_safe_refl; rewrite ?Hc; simpl; auto. done.
Qed.

Lemma awake_inv c i a t t' cpu fk n : sinv (Sys t cpu fk n) → cpu c = CRes i → p_chan (procn t i) = Some (Ch_addr a) →
  sleep_on i t = Ok tt t' → sinv (Sys t' (<[c := CRun i]> cpu) fk n).
Proof.
  intros Hs Hc Hch H. destruct (sinv_runs t cpu fk n c i Hs) as [Hst Hi]; [by rewrite Hc|].
  assert (Hl : pt_lock t = true) by (apply (si_cpu _ Hs); exists c; cbn [y_cpu]; by rewrite Hc).
  apply (wp_inv _ (λ _ u, u = with_ptlock false (pupd i (pset_chan None) t))) in H; [|by apply wp_sleep_on]. subst t'.
  apply (sinv_move i (pset_chan None) t); rewrite ?Hc; simpl; auto.
  - rewrite <- (relock t true Hl) at 2. by apply slot_upd_pupd.
  - apply slot_safe_alive; try done; alive_tac.
  - done.
Qed.

Lemma yield_inv c i t t' cpu fk n : sinv (Sys t cpu fk n) → cpu c = CRun i → yield_off 0 i t = Ok tt t' →
  sinv (Sys t' (<[c := CScan (S i)]> cpu) fk n).
Proof.
  intros Hs Hc H. destruct (sinv_runs t cpu fk n c i Hs) as [Hst Hi]; [by rewrite Hc|].
  pose proof (lock_free _ _ _ _ H) as Hl. 
  apply (wp_inv _ (λ _ u, u = pupd i (pset_state RUNNABLE) (with_ptlock true t))) in H; [|by apply wp_yield]. subst t'.
  apply (sinv_move i (pset_state RUNNABLE) t); rewrite ?Hc; simpl; auto; try done.
  - by apply (slot_upd_pupd i _ t true true).
  - apply slot_safe_alive; try done; alive_tac.
Qed.

(** Going to sleep: on an address, or on the own slot when there is no zombie. *)
Lemma asleep_inv c i ch t v cpu fk n : sinv (Sys t cpu fk n) → runs (cpu c) = Some i →
  (pt_lock t = false ∨ has_lock (cpu c) = true) →
  (∀ j, ch = Ch_proc j → j = i ∧ ∀ k, child_of t i k → p_state (procn t k) ≠ ZOMBIE) →
  sinv (Sys (with_ptlock true (pupd i (asleep_on ch) (with_ptlock v t))) (<[c := CScan (S i)]> cpu) fk n).
Proof.
  intros Hs Hc Hlk Hch. destruct (sinv_runs t cpu fk n c i Hs Hc) as [Hst Hi].
  pose proof (slot_upd_pupd i (asleep_on ch) t true v Hi) as Hu. set (t' := with_ptlock _ _) in *.
  destruct Hu as [Hlen Hp Hin Hnx]. pose proof Hs as [Hl0 Hc0 [T1 T2 T3 T4 T5 T6] Hf0 Hp0]. cbn [y_tab y_cpu y_fork y_claims] in *.
  assert (Hpar : ∀ j, p_parent (procn t' j) = p_parent (procn t j)) by (intros j; rewrite Hp; by case_decide; subst).
  assert (Hsj : ∀ j, j ≠ i → procn t' j = procn t j) by (intros j Hj; rewrite Hp; by rewrite decide_False).
  assert (Hsi : procn t' i = asleep_on ch (procn t i)) by (rewrite Hp; by rewrite decide_True).
  assert (Hal : ∀ j, alive (procn t j) → alive (procn t' j)).
  { intros j. destruct (decide (j = i)) as [->|]; [|by rewrite Hsj]. rewrite Hsi. intros _. alive_tac. }
  split; cbn [y_tab y_cpu y_fork y_claims]; [congruence|..].
  - apply (cpu_inv_move t t' cpu c i); auto; [intros j Hj; by rewrite Hsj|by rewrite Hsi|done].
  - unfold child_of, in_wait in *. split; unfold child_of, in_wait.
    + intros j k. destruct (decide (j = i)) as [->|]; [|rewrite Hsj by done; apply T1]. rewrite Hsi. simpl. intros [= ->]. by apply Hch.
    + intros j k [Hjs Hjc] Hk. rewrite Hpar in Hk. assert (Hz : p_state (procn t k) ≠ ZOMBIE).
      { destruct (decide (j = i)) as [->|Hj]; [|rewrite Hsj in Hjs, Hjc by done; by apply (T2 j k)].
        rewrite Hsi in Hjc. simpl in Hjc. injection Hjc as ->. by apply (proj2 (Hch i eq_refl) k). }
      destruct (decide (k = i)) as [->|]; [by rewrite Hsi|by rewrite Hsj].
    + intros j. rewrite Hpar. apply T3.
    + destruct T4 as (j & ? & ? & ?). exists j. split_and!; [congruence|auto|by rewrite Hpar].
    + intros j k. rewrite Hpar. eauto.
    + intros k. rewrite Hpar. destruct (decide (k = i)) as [->|]; [by rewrite Hsi|]. rewrite Hsj by done. apply T6.
  - apply (fork_inv_stay t); [done|]. intros j Hj. rewrite Hsj; [done|congruence].
  - apply (pid_inv_same t); [done|done|]. intros j. destruct (decide (j = i)) as [->|]; [rewrite Hsi|by rewrite Hsj].
    intros _. split; [congruence|done].
Qed.

Lemma sleep_inv c i a t t' cpu fk n : sinv (Sys t cpu fk n) → cpu c = CRun i → sleep 1 i (Ch_addr a) t = Ok tt t' →
  sinv (Sys t' (<[c := CScan (S i)]> cpu) fk n).
Proof.
  intros Hs Hc H. destruct (sinv_runs t cpu fk n c i Hs) as [Hst Hi]; [by rewrite Hc|].
  pose proof (lock_free _ _ _ _ H) as Hl. 
  apply (wp_inv _ (λ _ u, u = pupd i (asleep_on (Ch_addr a)) (with_ptlock true t))) in H; [|by apply wp_sleep]. subst t'.
  apply (asleep_inv c i (Ch_addr a) t true); [done|by rewrite Hc|auto|done].
Qed.

(** A zombie is reaped. *)
Lemma reap_inv i k t t' cpu cpu' fk n : sinv (Sys t cpu fk n) → cpu_inv t cpu' → (k < length (pt_proc t))%nat →
  child_of t i k → p_state (procn t k) = ZOMBIE → slot_upd k reap t t' → pt_lock t' = pt_lock t → sinv (Sys t' cpu' fk n).
Proof.
  intros [Hl0 Hc0 [T1 T2 T3 T4 T5 T6] Hf0 Hp0] Hc' Hk Hch Hz [Hlen Hp Hin Hnx] Hlk. cbn [y_tab y_cpu y_fork y_claims] in *.
  assert (Hsj : ∀ j, j ≠ k → procn t' j = procn t j) by (intros j Hj; rewrite Hp; by rewrite decide_False).
  assert (Hsk : procn t' k = reap (procn t k)) by (rewrite Hp; by rewrite decide_True).
  assert (Hal : ∀ j, alive (procn t j) → alive (procn t' j)).
  { intros j Hj. rewrite Hsj; [done|]. intros ->. by destruct Hj as (_ & _ & ?). }
  assert (Hpar : ∀ j q, p_parent (procn t' j) = Some q → p_parent (procn t j) = Some q ∧ j ≠ k).
  { intros j q. destruct (decide (j = k)) as [->|]; [by rewrite Hsk|by rewrite Hsj]. }
  split; cbn [y_tab y_cpu y_fork y_claims]; [congruence|..].
  - apply (cpu_inv_stay t); [done|done|]. intros j. destruct (decide (j = k)) as [->|]; [|by rewrite Hsj].
    rewrite Hsk, Hz. by simpl.
  - unfold child_of, in_wait in *. split; unfold child_of, in_wait.
    + intros j m. destruct (decide (j = k)) as [->|]; [rewrite Hsk; apply T1|rewrite Hsj by done; apply T1].
    + intros j m [Hs Hm] [Hc Hne]%Hpar. rewrite (Hsj m) by done. destruct (decide (j = k)) as [->|]; [by rewrite Hsk in Hs|].
      rewrite Hsj in Hs, Hm by done. by apply (T2 j m).
    + intros j [? _]%Hpar. by eapply T3.
    + destruct T4 as (j & ? & Ha & ?). exists j. split_and!; [congruence|auto|]. rewrite Hsj; [done|].
      intros ->. by destruct Ha as (_ & _ & ?).
    + intros j m [? _]%Hpar. eauto.
    + intros j. destruct (decide (j = k)) as [->|]; [by rewrite Hsk|rewrite Hsj by done; apply T6].
  - apply (fork_inv_stay t); [done|]. intros j Hj. rewrite Hsj; [done|congruence].
  - apply (pid_inv_same t); [done|done|]. intros j. destruct (decide (j = k)) as [->|]; [by rewrite Hsk|by rewrite Hsj].
Qed.

Lemma sinv_cpu_ext t cpu cpu' fk n : (∀ c, cpu' c = cpu c) → sinv (Sys t cpu fk n) → sinv (Sys t cpu' fk n).
Proof.
  intros E [Hl [C1 C2 C3 C4 C5] Ht Hf Hp]. cbn [y_tab y_cpu y_fork y_claims] in *. split; try done.
  split; cbn [y_tab y_cpu]; setoid_rewrite E; done.
Qed.

(** A turn of [wait], given that the process could have gone on running. *)
Lemma wait_step_inv c i (r : bool) t t' cpu fk n : (i < length (pt_proc t))%nat → pt_lock t = true →
  sinv (Sys (with_ptlock false t) (<[c := CRun i]> cpu) fk n) → wait_step i t = Ok r t' →
  sinv (Sys t' (<[c := if r then CRun i else CScan (S i)]> cpu) fk n).
Proof.
  intros Hi Hl Hs H. apply (wp_inv _ (λ (r : bool) u, sinv (Sys u (<[c := if r then CRun i else CScan (S i)]> cpu) fk n))) in H; [done|].
  apply wp_wait_step; [done|done|..].
  - intros k Hk Hch Hz. apply (reap_inv i k _ _ _ _ fk n Hs); [apply (si_cpu _ Hs)|done|done|done| |done].
    by apply (slot_upd_pupd k reap (with_ptlock false t) false true).
  - done.
  - intros Hz. destruct t as [lk procs ini nx]. simpl in Hl. subst lk. set (t := Ptable true procs ini nx) in *.
    pose proof (asleep_inv c i (Ch_proc i) (with_ptlock false t) true (<[c := CRun i]> cpu) fk n Hs) as Ha.
    rewrite fn_lookup_insert in Ha. specialize (Ha eq_refl (or_introl eq_refl)).
    eapply sinv_cpu_ext; [|apply Ha; intros j [= ->]; done].
    intros c'. destruct (decide (c' = c)) as [->|]; [by rewrite !fn_lookup_insert|by rewrite !fn_lookup_insert_ne].
Qed.

Lemma wait_inv c i (r : bool) t t' cpu fk n : sinv (Sys t cpu fk n) → cpu c = CRun i → wait_call i t = Ok r t' →
  sinv (Sys t' (<[c := if r then CRun i else CScan (S i)]> cpu) fk n).
Proof.
  intros Hs Hc H. destruct (sinv_runs t cpu fk n c i Hs) as [Hst Hi]; [by rewrite Hc|].
  apply bind_ok in H as (? & t1 & [Hl ->]%acquire_ok & H).
  eapply (wait_step_inv c i r (with_ptlock true t)); [done|done| |exact H].
  rewrite (relock t false Hl : with_ptlock false (with_ptlock true t) = t). eapply sinv_cpu_ext; [|exact Hs].
  intros c'. destruct (decide (c' = c)) as [->|]; [by rewrite fn_lookup_insert|by rewrite fn_lookup_insert_ne].
Qed.

Lemma wait_again_inv c i j (r : bool) t t' cpu fk n : sinv (Sys t cpu fk n) → cpu c = CRes i → p_chan (procn t i) = Some (Ch_proc j) →
  wait_again i t = Ok r t' → sinv (Sys t' (<[c := if r then CRun i else CScan (S i)]> cpu) fk n).
Proof.
  intros Hs Hc Hch H. destruct (sinv_runs t cpu fk n c i Hs) as [Hst Hi]; [by rewrite Hc|].
  assert (Hl : pt_lock t = true) by (apply (si_cpu _ Hs); exists c; cbn [y_cpu]; by rewrite Hc).
  unfold wait_again in H. apply bind_ok in H as ([] & t1 & H0 & H). injection H0 as <-.
  eapply (wait_step_inv c i r (pupd i (pset_chan None) t)); [by rewrite length_pupd|done| |exact H].
  apply (sinv_move i (pset_chan None) t); rewrite ?Hc; simpl; auto.
  - rewrite <- (relock t true Hl) at 2. by apply slot_upd_pupd.
  - apply slot_safe_alive; try done; alive_tac.
  - done.
Qed.

Lemma exit_inv c i t t' cpu fk n : sinv (Sys t cpu fk n) → cpu c = CRun i → pt_initproc t ≠ Some i → fk i = NoFork →
  exit_off 0 i t = Ok tt t' → sinv (Sys t' (<[c := CScan (S i)]> cpu) fk n).
Proof.
  intros Hs Hc Hni Hfk H. destruct (sinv_runs t cpu fk n c i Hs) as [Hst Hi]; [by rewrite Hc|].
  pose proof (lock_free _ _ _ _ H) as Hl. pose proof Hs as [Hl0 Hc0 [T1 T2 T3 (ini & T4 & Ta & Tp) T5 T6] Hf0 Hp0].
  cbn [y_tab y_cpu y_fork y_claims] in *. eapply (wp_inv _ (λ _, exited i ini t)) in H; [|by apply wp_exit].
  destruct H as [Elen Elk Ein Enx Est Eot Epid Ech Epar Ewo Eiw].
  assert (Hne : ini ≠ i) by congruence.
  assert (Hal : ∀ j, j ≠ i → alive (procn t j) → alive (procn t' j)).
  { intros j Hj (A1 & A2 & A3). unfold alive. destruct (Eot j Hj) as [->|[_ ->]]; done. }
  assert (Hwait : ∀ q, in_wait t' q → in_wait t q ∧ ¬ nobody_on (Ch_proc q) t').
  { intros q [Hqs Hqc]. split; [|intros Hn; by apply (Hn q)]. assert (q ≠ i) by congruence.
    split; [destruct (Eot q) as [E|[E _]]; congruence|by rewrite <- Ech]. }
  split; cbn [y_tab y_cpu y_fork y_claims]; [congruence|..].
  - apply (cpu_inv_move t t' cpu c i); rewrite ?Hc; simpl; auto; [|by rewrite Est|done].
    intros j Hj. split_and!; [|intros E; destruct (Eot j Hj) as [->|[? _]]; congruence|done].
    destruct (Eot j Hj) as [->|[E ->]]; [done|]. rewrite E. done.
  - unfold child_of in *. split; unfold child_of.
    + intros j k. rewrite Ech. apply T1.
    + intros q k Hq Hk Hz. destruct (Hwait q Hq) as [Hq0 Hno]. rewrite Epar in Hk. case_decide as Ek.
      * injection Hk as <-. assert (k ≠ i) by (intros ->; by apply (T3 i)).
        apply Hno, (Eiw k Ek). destruct (Eot k) as [E|[_ E]]; congruence.
      * destruct (decide (k = i)) as [->|Hki]; [by apply Hno, Ewo|]. apply (T2 q k Hq0 Hk).
        destruct (Eot k Hki) as [E|[_ E]]; congruence.
    + intros j. rewrite Epar. case_decide as Ej; [|apply T3]. intros [= ->]. congruence.
    + exists ini. split_and!; [congruence|by apply Hal|]. rewrite Epar, Tp. by rewrite decide_False.
    + intros j k. rewrite Epar. case_decide as Ek; [intros [= <-]; by apply Hal|]. intros Hk. apply Hal; [congruence|eauto].
    + intros k Hk. rewrite Epar. assert (k ≠ i) by congruence.
      assert (Hu : p_state (procn t k) = UNUSED) by (destruct (Eot k) as [E|[_ E]]; congruence).
      rewrite (T6 k Hu). by rewrite decide_False.
  - apply (fork_inv_stay t); [done|]. intros j Hj. assert (j ≠ i) by congruence. rewrite Epar.
    destruct (Eot j) as [->|[E _]]; [done| |congruence]. split; [done|]. intros ->. by rewrite decide_False.
  - apply (pid_inv_same t); [done|done|]. intros j Hj. split; [|apply Epid].
    destruct (decide (j = i)) as [->|Hji]; [congruence|]. destruct (Eot j Hji) as [E|[E _]]; congruence.
Qed.

(** Waking up, in [wakeup] or [kill], keeps everything. *)
Lemma slot_safe_woken p p' :
  p_parent p' = p_parent p → p_pid p' = p_pid p → p_chan p' = p_chan p →
  (p_state p' = p_state p ∨ (p_state p = SLEEPING ∧ p_state p' = RUNNABLE)) → slot_safe p p'.
Proof.
  intros H1 H2 H3 H4. split; [split|..]; unfold alive; try done; rewrite ?H3; intuition congruence.
Qed.

Lemma woken_inv t t' cpu fk n : sinv (Sys t cpu fk n) → length (pt_proc t') = length (pt_proc t) → pt_lock t' = pt_lock t →
  pt_initproc t' = pt_initproc t → pt_nextpid t' = pt_nextpid t →
  (∀ j, p_parent (procn t' j) = p_parent (procn t j) ∧ p_pid (procn t' j) = p_pid (procn t j) ∧ p_chan (procn t' j) = p_chan (procn t j) ∧
    (p_state (procn t' j) = p_state (procn t j) ∨ (p_state (procn t j) = SLEEPING ∧ p_state (procn t' j) = RUNNABLE))) →
  sinv (Sys t' cpu fk n).
Proof.
  intros Hs Hl Hk Hi Hn Hj. apply (sinv_tab t t' cpu); [done| |done..|].
  - apply (cpu_inv_stay t); [apply (si_cpu _ Hs)|done|]. intros j. destruct (Hj j) as (_ & _ & -> & Hst). intuition congruence.
  - intros j. destruct (Hj j) as (? & ? & ? & ?). by apply slot_safe_woken.
Qed.

Lemma wakeup_inv a t t' cpu fk n : sinv (Sys t cpu fk n) → wakeup (Some (Ch_addr a)) t = Ok tt t' → sinv (Sys t' cpu fk n).
Proof.
  intros Hs H. pose proof (lock_free _ _ _ _ H) as Hl.
  apply (wp_inv _ (λ _ u, u = with_procs (wake_one (Some (Ch_addr a)) <$> pt_proc t) t)) in H; [|by apply wp_wakeup]. subst t'.
  apply (woken_inv t); try done; [simpl; by rewrite length_fmap|].
  intros j. rewrite procn_wake. pose proof (wake_one_fields (Some (Ch_addr a)) (procn t j)). tauto.
Qed.

Lemma kill_one_fields p : p_parent (kill_one p) = p_parent p ∧ p_pid (kill_one p) = p_pid p ∧ p_chan (kill_one p) = p_chan p ∧
  p_killed (kill_one p) = true ∧
  (p_state (kill_one p) = p_state p ∨ (p_state p = SLEEPING ∧ p_state (kill_one p) = RUNNABLE)).
Proof. unfold kill_one. case_bool_decide; simpl; auto 10. Qed.

Lemma kill_inv pid r t t' cpu fk n : sinv (Sys t cpu fk n) → kill pid t = Ok r t' → sinv (Sys t' cpu fk n).
Proof.
  intros Hs H. pose proof (lock_free _ _ _ _ H) as Hl. apply (wp_inv _ (λ _ u, sinv (Sys u cpu fk n))) in H; [done|].
  apply wp_kill; [done|done|]. intros i Hi _ _. apply (woken_inv t); try done; [by rewrite length_pupd|].
  intros j. rewrite procn_pupd by done. case_decide; [|auto 10]. subst. pose proof (kill_one_fields (procn t j)). tauto.
Qed.

Lemma private_inv c i g t cpu fk n : sinv (Sys t cpu fk n) → cpu c = CRun i → (∀ p, core (g p) = core p) →
  sinv (Sys (pupd i g t) cpu fk n).
Proof.
  intros Hs Hc Hg. destruct (sinv_runs t cpu fk n c i Hs) as [Hst Hi]; [by rewrite Hc|].
  apply (woken_inv t); try done; [by rewrite length_pupd|]. intros j. rewrite procn_pupd by done. case_decide; [|auto 10].
  subst. specialize (Hg (procn t j)). unfold core in Hg. simplify_eq. auto 10.
Qed.

(** A slot on which only [fork] acts. *)
Lemma fork_slot_cpu k g t t' cpu : cpu_inv t cpu →
  (∀ j, procn t' j = if decide (k = j) then g (procn t k) else procn t j) → pt_lock t' = pt_lock t →
  p_state (procn t k) ≠ RUNNING → p_state (g (procn t k)) ≠ RUNNING → cpu_inv t' cpu.
Proof.
  intros Hc Hp Hl H1 H2. apply (cpu_inv_stay t); [done|done|]. intros j. rewrite Hp.
  case_decide; [subst; tauto|done].
Qed.

(** Process [i] is done with the slot it claimed. *)
Lemma fork_end_inv i k t t' fk : fork_inv t fk → fork_slot (fk i) = Some k → (∀ j, j ≠ k → procn t' j = procn t j) →
  fork_inv t' (<[i := NoFork]> fk).
Proof.
  intros [F1 F2 F3] Hfk Hsj.
  assert (Hlk : ∀ j m, fork_slot (<[i := NoFork]> fk j) = Some m → <[i := NoFork]> fk j = fk j ∧ m ≠ k).
  { intros j m. destruct (decide (j = i)) as [->|Hj]; [by rewrite fn_lookup_insert|]. rewrite fn_lookup_insert_ne by done.
    intros Hm. split; [done|]. intros ->. apply Hj. by apply (F2 j i k). }
  split.
  - intros j m Hm. destruct (Hlk j m Hm) as (E & Hne). rewrite E in Hm. rewrite Hsj by done. by eapply F1.
  - intros j1 j2 m H1 H2. destruct (Hlk _ _ H1) as (E1 & _), (Hlk _ _ H2) as (E2 & _). rewrite E1 in H1. rewrite E2 in H2. eauto.
  - intros j m Hm. destruct (Hlk j m) as (E & Hne); [by rewrite Hm|]. rewrite Hsj by done. apply (F3 j). congruence.
Qed.

(** The facts about a slot update that the fork steps use. *)
Lemma upd_cases k g t t' : (∀ j, procn t' j = if decide (k = j) then g (procn t k) else procn t j) →
  procn t' k = g (procn t k) ∧ ∀ j, j ≠ k → procn t' j = procn t j.
Proof. intros Hp. split; [rewrite Hp; by rewrite decide_True|]. intros j Hj. rewrite Hp. by rewrite decide_False. Qed.

(** The invariant after a claim, for any pid the slot is given. *)
Lemma claim_fork_inv i k t t' fk pid : fork_inv t fk → fk i = NoFork → p_state (procn t k) = UNUSED → p_parent (procn t k) = None →
  (∀ j, procn t' j = if decide (k = j) then claimed pid (procn t k) else procn t j) → fork_inv t' (<[i := Claimed k]> fk).
Proof.
  intros [H1 H2 H3] Hfk Hu Hpar [Hkk Hsj]%upd_cases.
  assert (Hne : ∀ j m, fork_slot (fk j) = Some m → m ≠ k) by (intros j m Hm ->; apply H1 in Hm; congruence).
  split.
  - intros j m. destruct (decide (j = i)) as [->|].
    + rewrite fn_lookup_insert. simpl. intros [= <-]. by rewrite Hkk.
    + rewrite fn_lookup_insert_ne by done. intros Hm. rewrite Hsj; eauto.
  - intros j1 j2 m. destruct (decide (j1 = i)) as [->|], (decide (j2 = i)) as [->|];
      rewrite ?fn_lookup_insert, ?fn_lookup_insert_ne by done; simpl; [done|..]; intros E1 E2.
    + injection E1 as <-. by apply Hne in E2.
    + injection E2 as <-. by apply Hne in E1.
    + eauto.
  - intros j m. destruct (decide (j = i)) as [->|].
    + rewrite fn_lookup_insert. intros [= <-]. by rewrite Hkk.
    + rewrite fn_lookup_insert_ne by done. intros Hm. rewrite Hsj; [by eapply H3|]. apply (Hne j). by rewrite Hm.
Qed.

Lemma claim_pid_inv k t t' n : pid_inv t n → p_state (procn t k) = UNUSED → pt_nextpid t' = i32 (pt_nextpid t + 1) →
  (∀ j, procn t' j = if decide (k = j) then claimed (pt_nextpid t) (procn t k) else procn t j) → pid_inv t' (n + 1).
Proof.
  intros [Hn H] Hu Hnx [Hkk Hsj]%upd_cases. split; [lia|]. intros Hlt. destruct H as (E & Hr & Hq); [lia|].
  assert (Enx : pt_nextpid t' = n + 3).
  { rewrite Hnx, E, i32_id; [lia|]. unfold is_i32. lia. }
  split_and!; [lia|..].
  - intros j Hj. destruct (decide (j = k)) as [->|]; [rewrite Hkk; simpl; lia|]. rewrite Hsj in * by done. specialize (Hr j Hj). lia.
  - intros j1 j2 Hj1 Hj2. destruct (decide (j1 = k)) as [->|], (decide (j2 = k)) as [->|]; [done|..];
      rewrite ?Hkk, ?Hsj in * by done; simpl; [specialize (Hr j2 Hj2); lia|specialize (Hr j1 Hj1); lia|auto].
Qed.

Lemma claim_inv c i k t t' cpu fk n : sinv (Sys t cpu fk n) → cpu c = CRun i → fk i = NoFork → claim_slot t = Ok (Some k) t' →
  sinv (Sys t' cpu (<[i := Claimed k]> fk) (n + 1)).
Proof.
  intros Hs Hc Hfk H. pose proof (lock_free _ _ _ _ H) as Hl.
  assert (Hw : wp claim_slot (λ r u, ∀ k, r = Some k → (k < length (pt_proc t))%nat ∧ p_state (procn t k) = UNUSED ∧
    u = with_nextpid (i32 (pt_nextpid t + 1)) (pupd k (claimed (pt_nextpid t)) t)) t).
  { apply wp_claim; [done|done|]. intros j Hj Hu _ j' [= <-]. done. }
  destruct (wp_inv _ _ _ _ _ H Hw k eq_refl) as (Hk & Hu & ->). clear H Hw.
  destruct Hs as [Hl0 Hc0 Ht0 Hf0 Hp0]. cbn [y_tab y_cpu y_fork y_claims] in *. set (t' := with_nextpid _ _).
  assert (Hp : ∀ j, procn t' j = if decide (k = j) then claimed (pt_nextpid t) (procn t k) else procn t j)
    by (intros; by apply procn_pupd).
  split; cbn [y_tab y_cpu y_fork y_claims].
  - unfold t'. cbn [with_nextpid pt_proc]. by rewrite length_pupd.
  - apply (fork_slot_cpu k (claimed (pt_nextpid t)) t); [done|done|done|congruence|done].
  - apply (tree_inv_calm t); [done|done|]. intros j. rewrite Hp. case_decide; [subst|apply calm_refl].
    split; try done; [intros (? & _); congruence].
  - apply (claim_fork_inv i k t _ fk (pt_nextpid t)); [done|done|done|by apply (ti_unused _ Ht0)|done].
  - by apply (claim_pid_inv k t).
Qed.

Lemma fork_fail_inv c i k t cpu fk n : sinv (Sys t cpu fk n) → cpu c = CRun i → fk i = Claimed k →
  sinv (Sys (pupd k (pset_state UNUSED) t) cpu (<[i := NoFork]> fk) n).
Proof.
  intros Hs Hc Hfk. assert (He : p_state (procn t k) = EMBRYO) by (apply (fi_embryo _ _ (si_fork _ Hs) i); cbn; by rewrite Hfk).
  assert (Hpar : p_parent (procn t k) = None) by (by apply (fi_claimed _ _ (si_fork _ Hs) i)).
  assert (Hk : (k < length (pt_proc t))%nat) by (eapply sinv_range; [done|congruence]).
  destruct Hs as [Hl0 Hc0 Ht0 Hf0 Hp0]. cbn [y_tab y_cpu y_fork y_claims] in *. set (t' := pupd _ _ _).
  assert (Hp : ∀ j, procn t' j = if decide (k = j) then pset_state UNUSED (procn t k) else procn t j) by (intros; by apply procn_pupd).
  destruct (upd_cases _ _ _ _ Hp) as [Hkk Hsj].
  split; cbn [y_tab y_cpu y_fork y_claims].
  - unfold t'. by rewrite length_pupd.
  - apply (fork_slot_cpu k (pset_state UNUSED) t); [done|done|done|congruence|done].
  - apply (tree_inv_calm t); [done|done|]. intros j. rewrite Hp. case_decide; [subst|apply calm_refl].
    split; try done; [intros (_ & ? & _); congruence|auto].
  - apply (fork_end_inv i k t); [done|by rewrite Hfk|done].
  - apply (pid_inv_same t); [done|done|]. intros j. destruct (decide (j = k)) as [->|]; [by rewrite Hkk|by rewrite Hsj].
Qed.

Lemma fork_copied_inv c i k t cpu fk n : sinv (Sys t cpu fk n) → cpu c = CRun i → fk i = Claimed k →
  sinv (Sys (pupd k (pset_parent (Some i)) t) cpu (<[i := Copied k]> fk) n).
Proof.
  intros Hs Hc Hfk. assert (He : p_state (procn t k) = EMBRYO) by (apply (fi_embryo _ _ (si_fork _ Hs) i); cbn; by rewrite Hfk).
  destruct (sinv_runs t cpu fk n c i Hs) as [Hst Hi]; [by rewrite Hc|].
  assert (Hk : (k < length (pt_proc t))%nat) by (eapply sinv_range; [done|congruence]). assert (Hki : k ≠ i) by congruence.
  pose proof Hs as [Hl0 Hc0 [T1 T2 T3 (ini & T4 & Ta & Tp) T5 T6] [F1 F2 F3] Hp0]. cbn [y_tab y_cpu y_fork y_claims] in *. set (t' := pupd _ _ _).
  assert (Hp : ∀ j, procn t' j = if decide (k = j) then pset_parent (Some i) (procn t k) else procn t j) by (intros; by apply procn_pupd).
  destruct (upd_cases _ _ _ _ Hp) as [Hkk Hsj].
  assert (Hsts : ∀ j, p_state (procn t' j) = p_state (procn t j) ∧ p_pid (procn t' j) = p_pid (procn t j) ∧ p_chan (procn t' j) = p_chan (procn t j))
    by (intros j; rewrite Hp; by case_decide; subst).
  assert (Hal : ∀ j, alive (procn t j) → alive (procn t' j)) by (intros j; unfold alive; by destruct (Hsts j) as (-> & _)).
  split; cbn [y_tab y_cpu y_fork y_claims].
  - unfold t'. by rewrite length_pupd.
  - apply (fork_slot_cpu k (pset_parent (Some i)) t); [done|done|done|congruence|simpl; congruence].
  - unfold child_of, in_wait in *. split; unfold child_of, in_wait.
    + intros j m. destruct (Hsts j) as (_ & _ & ->). apply T1.
    + intros j m. destruct (Hsts j) as (-> & _ & ->), (Hsts m) as (-> & _ & _). intros Hw.
      destruct (decide (m = k)) as [->|]; [congruence|]. rewrite Hsj by done. by apply T2.
    + intros j. destruct (decide (j = k)) as [->|]; [rewrite Hkk; simpl; congruence|by rewrite Hsj].
    + exists ini. split_and!; [done|by apply Hal|]. rewrite Hsj; [done|]. intros ->. by destruct Ta as (_ & ? & _).
    + intros j m. destruct (decide (m = k)) as [->|]; [rewrite Hkk; simpl; intros [= <-]|rewrite Hsj by done; eauto].
      apply Hal. alive_tac.
    + intros j. destruct (decide (j = k)) as [->|]; [rewrite Hkk; simpl; congruence|rewrite Hsj by done; apply T6].
  - assert (Hlk : ∀ j, fork_slot (<[i := Copied k]> fk j) = fork_slot (fk j)).
    { intros j. destruct (decide (j = i)) as [->|]; [by rewrite fn_lookup_insert, Hfk|by rewrite fn_lookup_insert_ne]. }
    split; [intros j m; rewrite Hlk|intros j1 j2 m; rewrite !Hlk; eauto|].
    + destruct (Hsts m) as (-> & _). eauto.
    + intros j m. destruct (decide (j = i)) as [->|]; [by rewrite fn_lookup_insert|]. rewrite fn_lookup_insert_ne by done. intros Hm.
      rewrite Hsj; [by eapply F3|]. intros ->. assert (j = i); [|done]. apply (F2 j i k); [by rewrite Hm|by rewrite Hfk].
  - apply (pid_inv_same t); [done|done|]. intros j. destruct (Hsts j) as (-> & -> & _). done.
Qed.

Lemma fork_done_inv c i k t t' cpu fk n : sinv (Sys t cpu fk n) → cpu c = CRun i → fk i = Copied k → make_runnable k t = Ok tt t' →
  sinv (Sys t' cpu (<[i := NoFork]> fk) n).
Proof.
  intros Hs Hc Hfk H. pose proof (lock_free _ _ _ _ H) as Hl.
  apply (wp_inv _ (λ _ u, u = pupd k (pset_state RUNNABLE) t)) in H; [|by apply wp_make_runnable]. subst t'.
  assert (He : p_state (procn t k) = EMBRYO) by (apply (fi_embryo _ _ (si_fork _ Hs) i); cbn; by rewrite Hfk).
  assert (Hk : (k < length (pt_proc t))%nat) by (eapply sinv_range; [done|congruence]).
  destruct Hs as [Hl0 Hc0 Ht0 Hf0 Hp0]. cbn [y_tab y_cpu y_fork y_claims] in *. set (t' := pupd _ _ _).
  assert (Hp : ∀ j, procn t' j = if decide (k = j) then pset_state RUNNABLE (procn t k) else procn t j) by (intros; by apply procn_pupd).
  destruct (upd_cases _ _ _ _ Hp) as [Hkk Hsj].
  split; cbn [y_tab y_cpu y_fork y_claims].
  - unfold t'. by rewrite length_pupd.
  - apply (fork_slot_cpu k (pset_state RUNNABLE) t); [done|done|done|congruence|done].
  - apply (tree_inv_calm t); [done|done|]. intros j. rewrite Hp. case_decide; [subst|apply calm_refl].
    split; try done.
  - apply (fork_end_inv i k t); [done|by rewrite Hfk|done].
  - apply (pid_inv_same t); [done|done|]. intros j. destruct (decide (j = k)) as [->|]; [rewrite Hkk|by rewrite Hsj].
    split; [congruence|done].
Qed.

Lemma sstep_inv σ σ' : sinv σ → sstep σ σ' → sinv σ'.
Proof.
  intros Hs Hstep. destruct Hstep.
  - by eapply scan_inv.
  - by eapply pick_inv.
  - by eapply pass_inv.
  - by eapply resume_inv.
  - by eapply awake_inv.
  - by eapply wait_again_inv.
  - by eapply wait_inv.
  - by eapply yield_inv.
  - by eapply sleep_inv.
  - by eapply exit_inv.
  - by eapply wakeup_inv.
  - by eapply kill_inv.
  - by eapply claim_inv.
  - by eapply fork_fail_inv.
  - by eapply fork_copied_inv.
  - by eapply fork_done_inv.
  - by eapply private_inv.
Qed.

Lemma init_slot j : procn (y_tab sys_init) j = if decide (j = 0%nat) then first_proc else zero_proc.
Proof.
  destruct j as [|j]; [done|]. rewrite decide_False by done. unfold procn. rewrite list_lookup_total_alt.
  cbn [sys_init y_tab pt_proc lookup list_lookup]. destruct (replicate _ _ !! j) as [p|] eqn:E; [|done].
  by apply lookup_replicate in E as [-> _].
Qed.

Lemma sys_init_inv : sinv sys_init.
Proof.
  split; [done|..].
  - split; try (intros; simpl in *; done).
    + split; [done|]. intros [c Hc]. done.
    + intros i. rewrite init_slot. split; [case_decide; done|]. intros [c Hc]. done.
  - split; unfold in_wait, child_of; try (intros i *; rewrite !init_slot; repeat case_decide; naive_solver).
    + exists 0%nat. rewrite init_slot. by repeat split.
  - split; done.
  - split; [done|]. intros _. split_and!; [done| |].
    + intros i. rewrite init_slot. by case_decide.
    + intros i j. rewrite !init_slot. repeat case_decide; subst; done.
Qed.

Lemma sys_reachable_inv σ : rtc sstep sys_init σ → sinv σ.
Proof.
  intros Hr. pose proof sys_init_inv as Hi. revert Hi. induction Hr as [|σ1 σ2 σ3 H1 _ IH]; [done|].
  intros Hi. apply IH. by eapply sstep_inv.
Qed.
