(* ===== verification/ProcProps.v ===== *)
(** * What the process table guarantees

    Theorems on the system of [ProcStep], on single critical sections of the
    process table, and on the order in which a scheduler runs processes. *)

From stdpp Require Import functions.
From S2P Require Import Prelude Words Params Locks Proc ProcStep.

(** C13: processors and processes.  In every reachable state the lock of the
    table is held by exactly one processor or free, a process is RUNNING exactly
    when some processor runs it, and no two processors run the same process. *)
Theorem one_cpu_per_process σ : rtc sstep sys_init σ →
  (pt_lock (y_tab σ) = true ↔ ∃ c, has_lock (y_cpu σ c) = true) ∧
  (∀ c c', has_lock (y_cpu σ c) = true → has_lock (y_cpu σ c') = true → c = c') ∧
  (∀ i, p_state (procn (y_tab σ) i) = RUNNING ↔ ∃ c, runs (y_cpu σ c) = Some i) ∧
  (∀ c c' i, runs (y_cpu σ c) = Some i → runs (y_cpu σ c') = Some i → c = c').
Proof. intros Hr. destruct (si_cpu _ (sys_reachable_inv σ Hr)). by split_and!. Qed.

(** C14: no wakeup is lost between [exit] and [wait].  In every reachable state a
    process asleep in [wait] has no zombie child, every process with a parent
    has one that is alive (orphans were given to init), and init is alive. *)
Theorem wait_no_lost_wakeup σ : rtc sstep sys_init σ →
  (∀ i k, in_wait (y_tab σ) i → child_of (y_tab σ) i k → p_state (procn (y_tab σ) k) ≠ ZOMBIE) ∧
  (∀ i k, child_of (y_tab σ) i k → alive (procn (y_tab σ) i) ∧ p_state (procn (y_tab σ) k) ≠ UNUSED) ∧
  ∃ i, pt_initproc (y_tab σ) = Some i ∧ alive (procn (y_tab σ) i).
Proof.
  intros Hr. destruct (si_tree _ (sys_reachable_inv σ Hr)) as [_ Hw _ (i & ? & ? & _) Ha Hu]. split_and!; [done| |by exists i].
  intros j k Hk. split; [by eapply Ha|]. intros Hs. apply Hu in Hs. unfold child_of in Hk. congruence.
Qed.

(** Until the pid counter wraps around, processes in use have different
    pids, all of them positive. *)
Theorem pids_unique σ : rtc sstep sys_init σ → y_claims σ < 2 ^ 31 - 3 →
  (∀ i, p_state (procn (y_tab σ) i) ≠ UNUSED → 0 < p_pid (procn (y_tab σ) i)) ∧
  (∀ i j, p_state (procn (y_tab σ) i) ≠ UNUSED → p_state (procn (y_tab σ) j) ≠ UNUSED →
     p_pid (procn (y_tab σ) i) = p_pid (procn (y_tab σ) j) → i = j).
Proof.
  intros Hr Hn. destruct (si_pid _ (sys_reachable_inv σ Hr)) as [_ H]. destruct (H Hn) as (_ & H1 & H2).
  split; [|done]. intros i Hi. by apply H1.
Qed.

(** The checks of [sched] never fail: in every reachable state in which the
    lock is free, a running process that yields, sleeps (holding the one lock it
    gives up), waits or, unless it is init, exits does so without a panic. *)
Theorem sched_never_panics σ c i : rtc sstep sys_init σ → pt_lock (y_tab σ) = false → y_cpu σ c = CRun i →
  (∃ t', yield_off 0 i (y_tab σ) = Ok tt t') ∧
  (∀ ch, ∃ t', sleep 1 i ch (y_tab σ) = Ok tt t') ∧
  (∃ r t', wait_call i (y_tab σ) = Ok r t') ∧
  (∃ t', exit_off 0 i (y_tab σ) = Ok tt t').
Proof.
  intros Hr Hl Hc. pose proof (sys_reachable_inv σ Hr) as Hs. destruct σ as [t cpu fk n]. cbn [y_tab y_cpu] in *.
  destruct (sinv_runs t cpu fk n c i Hs) as [Hst Hi]; [by rewrite Hc|]. pose proof (si_len _ Hs) as Hlen.
  destruct (ti_init _ (si_tree _ Hs)) as (ini & Hini & _). cbn [y_tab] in *.
  split_and!.
  - destruct (wp_returns (yield_off 0 i) (λ _ _, True) t) as ([] & t' & E); [by apply wp_yield|by exists t'].
  - intros ch. destruct (wp_returns (sleep 1 i ch) (λ _ _, True) t) as ([] & t' & E); [by apply wp_sleep|by exists t'].
  - apply (wp_returns _ (λ _ _, True)). unfold wait_call. wp_step. apply wp_pt_acquire; [done|]. by apply wp_wait_step.
  - destruct (wp_returns (exit_off 0 i) (λ _, exited i ini t) t) as ([] & t' & E); [by apply wp_exit|by exists t'].
Qed.

(** [kill] marks the first slot with the pid as killed and makes it runnable
    if it was asleep; it changes nothing else, and returns -1 exactly when no
    slot has the pid. *)
Theorem kill_correct pid t : pt_lock t = false →
  wp (kill pid) (λ r t', pt_lock t' = false ∧
    ((r = -1 ∧ t' = t ∧ ∀ i, (i < length (pt_proc t))%nat → p_pid (procn t i) ≠ pid) ∨
     (r = 0 ∧ ∃ i, (i < length (pt_proc t))%nat ∧ p_pid (procn t i) = pid ∧ (∀ j, (j < i)%nat → p_pid (procn t j) ≠ pid) ∧
        procn t' i = pset_killed true (if bool_decide (p_state (procn t i) = SLEEPING)
                                       then pset_state RUNNABLE (procn t i) else procn t i) ∧
        ∀ j, j ≠ i → procn t' j = procn t j))) t.
Proof.
  intros Hl. apply wp_kill; [done|..].
  - intros Hn. split; [done|]. left. done.
  - intros i Hi Hp Hmin. split; [done|]. right. split; [done|]. exists i. split_and!; [done|done|done|..].
    + rewrite procn_pupd by done. rewrite decide_True by done. unfold kill_one. by case_bool_decide.
    + intros j Hj. rewrite procn_pupd by done. by rewrite decide_False.
Qed.

(** ** The order of the scheduler *)

(** The processes a scheduler runs, when it finds the tables [tabs] each time it
    goes on scanning: from slot [pos], then from the slot behind the process it
    ran, and from slot 0 after a pass. *)
Fixpoint sched_order (tabs : list (list proc)) (pos : nat) : list nat :=
  match tabs with
  | [] => []
  | l :: tabs' =>
      match pick_from l pos with
      | Some i => i :: sched_order tabs' (S i)
      | None => sched_order tabs' 0
      end
  end.

Lemma pick_from_first l pos j p : (pos ≤ j)%nat → l !! j = Some p → p_state p = RUNNABLE →
  ∃ i, pick_from l pos = Some i ∧ (pos ≤ i ≤ j)%nat.
Proof.
  intros Hpos Hj Hr. unfold pick_from. destruct (find_proc is_runnable (drop pos l) pos) as [i|] eqn:E.
  - apply find_proc_Some in E as (k & q & -> & Hk & Hq & Hmin). exists (pos + k)%nat. split; [done|]. split; [lia|].
    destruct (decide (pos + k ≤ j)%nat); [done|]. exfalso.
    assert (is_runnable p = false); [|by unfold is_runnable in *; bool_props].
    apply (Hmin (j - pos)%nat); [lia|]. rewrite lookup_drop. by replace (pos + (j - pos))%nat with j by lia.
  - exfalso. pose proof (proj1 (find_proc_None _ _ _) E (j - pos)%nat p) as H. rewrite lookup_drop in H.
    replace (pos + (j - pos))%nat with j in H by lia. specialize (H Hj). unfold is_runnable in H. by bool_props.
Qed.

Definition ready (j : nat) (l : list proc) : Prop :=
  length l = Z.to_nat NPROC ∧ ∃ p, l !! j = Some p ∧ p_state p = RUNNABLE.

(** Within a pass. *)
Lemma fair_ahead j tabs pos : Forall (ready j) tabs → (pos ≤ j)%nat → (j - pos < length tabs)%nat → j ∈ sched_order tabs pos.
Proof.
  revert pos. induction tabs as [|l tabs IH]; intros pos Hall Hpos Hlen; simpl in *; [lia|].
  apply Forall_cons in Hall as [(_ & p & Hj & Hr) Hall]. destruct (pick_from_first l pos j p Hpos Hj Hr) as (i & -> & Hi).
  apply elem_of_cons. destruct (decide (j = i)) as [->|]; [by left|]. right. apply IH; [done|lia|lia].
Qed.

Lemma pick_from_ge l pos i : pick_from l pos = Some i → (pos ≤ i < length l)%nat.
Proof.
  unfold pick_from. intros (k & q & -> & Hk & _)%find_proc_Some. rewrite lookup_drop in Hk.
  apply lookup_lt_Some in Hk. lia.
Qed.


(** *** Witnesses *)

(** Init forks a child and waits for it; the child exits. *)
Lemma run_wait : ∃ σ, rtc sstep sys_init σ ∧ in_wait (y_tab σ) 0 ∧ child_of (y_tab σ) 0 1 ∧ y_claims σ = 1 ∧ y_cpu σ 0%nat = CRun 1 ∧
  pt_lock (y_tab σ) = false.
Proof.
  eexists. split.
  { eapply rtc_l; [eapply (st_scan 0); [reflexivity|vm_compute; reflexivity]|].
    eapply rtc_l; [eapply (st_pick 0); [reflexivity|vm_compute; reflexivity]|].
    eapply rtc_l; [eapply (st_resume 0); [reflexivity|reflexivity|vm_compute; reflexivity]|].
    eapply rtc_l; [eapply (st_claim 0); [reflexivity|reflexivity|vm_compute; reflexivity]|].
    eapply rtc_l; [eapply (st_fork_copied 0); [reflexivity|reflexivity]|].
    eapply rtc_l; [eapply (st_fork_done 0); [reflexivity|reflexivity|vm_compute; reflexivity]|].
    eapply rtc_l; [eapply (st_wait 0); [reflexivity|vm_compute; reflexivity]|].
    eapply rtc_l; [eapply (st_pick 0); [reflexivity|vm_compute; reflexivity]|].
    eapply rtc_l; [eapply (st_resume 0); [reflexivity|reflexivity|vm_compute; reflexivity]|].
    apply rtc_refl. }
  repeat split; reflexivity.
Qed.

Lemma one_cpu_per_process_witness : ∃ σ, y_cpu σ 0%nat = CRun 1 ∧ p_state (procn (y_tab σ) 1) = RUNNING.
Proof.
  destruct run_wait as (σ & Hr & _ & _ & _ & Hc & _). exists σ. split; [exact Hc|].
  apply (proj1 (proj2 (proj2 (one_cpu_per_process σ Hr)))). exists 0%nat. rewrite Hc. reflexivity.
Defined.

Lemma wait_no_lost_wakeup_witness : ∃ σ, in_wait (y_tab σ) 0 ∧ child_of (y_tab σ) 0 1 ∧ p_state (procn (y_tab σ) 1) ≠ ZOMBIE.
Proof.
  destruct run_wait as (σ & Hr & Hw & Hc & _). exists σ. split; [exact Hw|]. split; [exact Hc|].
  exact (proj1 (wait_no_lost_wakeup σ Hr) 0%nat 1%nat Hw Hc).
Defined.

Lemma pids_unique_witness : ∃ σ, y_claims σ = 1 ∧ ∀ i, p_state (procn (y_tab σ) i) ≠ UNUSED → 0 < p_pid (procn (y_tab σ) i).
Proof.
  destruct run_wait as (σ & Hr & _ & _ & Hn & _). exists σ. split; [exact Hn|].
  refine (proj1 (pids_unique σ Hr _)). rewrite Hn. reflexivity.
Defined.

Lemma sched_never_panics_witness : ∃ σ t', exit_off 0 1 (y_tab σ) = Ok tt t'.
Proof.
  destruct run_wait as (σ & Hr & _ & _ & _ & Hc & Hl). exists σ.
  exact (proj2 (proj2 (proj2 (sched_never_panics σ 0 1 Hr Hl Hc)))).
Defined.

Lemma kill_correct_witness : wp (kill 1) (λ r _, r = 0 ∨ r = -1) (y_tab sys_init).
Proof.
  eapply wp_mono; [exact (kill_correct 1 (y_tab sys_init) eq_refl)|]. intros r t' [_ [[H _]|[H _]]]; [right|left]; exact H.
Defined.


(** [kill(0)] finds an unused slot, whose pid is 0, and marks it as killed;
    [allocproc] does not clear the mark, so the next process created is born
    killed. *)
Theorem kill_zero_kills_next_child :
  wp (r ← kill 0; k ← claim_slot; ret (r, k)) (λ '(r, k) t', r = 0 ∧ k = Some 1%nat ∧
    p_pid (procn t' 1) = 2 ∧ p_killed (procn t' 1) = true) (y_tab sys_init).
Proof. vm_compute. auto. Qed.
