(* ===== verification/Kern.v ===== *)
(** * The life of a process (proc.c, vm.c, trap.c)

    The kernel state a system call runs in: open files, file system and memory
    below, the process table, and the process it runs for.  [fork], [exit],
    [wait], [growproc] and the first process are composed from the table
    operations of [Proc], the memory of [Vm] and the files of [File].  A call
    that gives up the processor ends [Sleep]ing in the state it leaves behind. *)

From S2P Require Import Prelude Words Params CString Locks BufIface Log Fs Kalloc Vm Pipe File Proc.

Record kern (S : Type) := Kern {
  k_files : files S;
  k_pt : ptable;
  k_cur : option nat;   (* mycpu()->proc *)
  k_cr3 : Z;            (* page table register *)
  k_esp0 : Z;           (* kernel stack in the task state segment *)
  k_first : bool;       (* forkret has not run yet *)
  k_tlock : bool;       (* tickslock *)
  k_ticks : Z
}.
Arguments Kern {S}.
Arguments k_files {S}.
Arguments k_pt {S}.
Arguments k_cur {S}.
Arguments k_cr3 {S}.
Arguments k_esp0 {S}.
Arguments k_first {S}.
Arguments k_tlock {S}.
Arguments k_ticks {S}.

Section setters.
Context {S : Type}.
Implicit Types s : kern S.
Definition with_files v s : kern S := Kern v (k_pt s) (k_cur s) (k_cr3 s) (k_esp0 s) (k_first s) (k_tlock s) (k_ticks s).
Definition with_pt v s : kern S := Kern (k_files s) v (k_cur s) (k_cr3 s) (k_esp0 s) (k_first s) (k_tlock s) (k_ticks s).
Definition with_cur v s : kern S := Kern (k_files s) (k_pt s) v (k_cr3 s) (k_esp0 s) (k_first s) (k_tlock s) (k_ticks s).
Definition with_cr3 v s : kern S := Kern (k_files s) (k_pt s) (k_cur s) v (k_esp0 s) (k_first s) (k_tlock s) (k_ticks s).
Definition with_esp0 v s : kern S := Kern (k_files s) (k_pt s) (k_cur s) (k_cr3 s) v (k_first s) (k_tlock s) (k_ticks s).
Definition with_first v s : kern S := Kern (k_files s) (k_pt s) (k_cur s) (k_cr3 s) (k_esp0 s) v (k_tlock s) (k_ticks s).
Definition with_tlock v s : kern S := Kern (k_files s) (k_pt s) (k_cur s) (k_cr3 s) (k_esp0 s) (k_first s) v (k_ticks s).
Definition with_ticks v s : kern S := Kern (k_files s) (k_pt s) (k_cur s) (k_cr3 s) (k_esp0 s) (k_first s) (k_tlock s) v.
Definition kproc s (i : nat) : proc := procn (k_pt s) i.
Definition kupd (i : nat) (g : proc → proc) s : kern S := with_pt (pupd i g (k_pt s)) s.

(** The file system as process [i] uses it. *)
Definition seen_by (p : proc) (f : fs S) : fs S :=
  Fs (f_log f) (f_sb f) (ic_lock f) (ic_inode f) (p_pid p) (default (Z.to_nat NINODE) (p_cwd p)).
Definition files_of_cur s : files S :=
  let f := k_files s in
  match k_cur s with
  | Some i => with_fs (seen_by (kproc s i) (fl_fs f)) f
  | None => f
  end.
End setters.

Section kern.
(** Linker symbols and the entry points of the assembly code. *)
Context {S : Type} `{BufCache S} `{DevSw S} (kend kdata trapret forkret_addr : Z).

Definition on_files {A} (c : M (files S) A) : M (kern S) A := zoom files_of_cur with_files c.
Definition on_kmem {A} (c : M kmem A) : M (kern S) A := on_files (on_mem c).
Definition on_kfs {A} (c : M (fs S) A) : M (kern S) A := on_files (on_fs c).
Definition on_pt {A} (c : M ptable A) : M (kern S) A := zoom k_pt with_pt c.
Definition kproc_of (i : nat) : M (kern S) proc := gets (λ s, kproc s i).

(** [myproc()] where the code uses the result as a pointer. *)
Definition myproc : M (kern S) nat := λ s, match k_cur s with Some i => Ok i s | None => Fault end.

(** ** Address spaces *)

(** [switchuvm(p)]: the checks, the task state and the page table register. *)
Definition switchuvm (i : nat) : M (kern S) unit :=
  p ← kproc_of i;
  if p_kstack p =? 0 then panic "switchuvm: no kstack" else
  if p_pgdir p =? 0 then panic "switchuvm: no pgdir" else
  modify (with_esp0 (u32 (p_kstack p + KSTACKSIZE))) ;;
  modify (with_cr3 (V2P (p_pgdir p))).

Definition switchkvm (kpgdir : Z) : M (kern S) unit := modify (with_cr3 (V2P kpgdir)).

(** ** Processes *)

(** Offsets on a new kernel stack: the trap frame is 76 bytes, below it the
    return address and the 20 bytes of the context. *)
Definition tf_off : Z := KSTACKSIZE - 76.
Definition ret_off : Z := tf_off - 4.
Definition context_off : Z := ret_off - 20.

Definition allocproc : M (kern S) (option nat) :=
  r ← on_pt claim_slot;
  match r with
  | None => ret None
  | Some i =>
      ks ← on_kmem kalloc;
      modify (kupd i (pset_kstack ks)) ;;
      if ks =? 0 then modify (kupd i (pset_state UNUSED)) ;; ret None
      else
        on_kmem (store_word (ks + ret_off) trapret) ;;
        modify (kupd i (pset_context (Context_ 0 0 0 0 forkret_addr))) ;;
        ret (Some i)
  end.

(** The registers [userinit] gives the first process. *)
Definition user_tf : trapframe :=
  Trapframe 0 0 0 0 0 0 0 0 0 0 (Z.lor (Z.shiftl SEG_UDATA 3) DPL_USER) (Z.lor (Z.shiftl SEG_UDATA 3) DPL_USER) 0
    0 0 (Z.lor (Z.shiftl SEG_UCODE 3) DPL_USER) FL_IF PGSIZE (Z.lor (Z.shiftl SEG_UDATA 3) DPL_USER).

Definition initcode_name : list Z := [105; 110; 105; 116; 99; 111; 100; 101; 0].

Definition userinit (initcode : list Z) : M (kern S) unit :=
  r ← allocproc;
  match r with
  | None => fault
  | Some i =>
      modify (λ s, with_pt (with_initproc (Some i) (k_pt s)) s) ;;
      pgdir ← on_kmem (setupkvm kend kdata);
      modify (kupd i (pset_pgdir pgdir)) ;;
      if pgdir =? 0 then panic "userinit: out of memory?" else
      on_kmem (inituvm pgdir initcode (Z.of_nat (length initcode))) ;;
      modify (kupd i (pset_sz PGSIZE)) ;;
      modify (kupd i (pset_tf user_tf)) ;;
      modify (λ s, kupd i (pset_name (safestrcpy (p_name (kproc s i)) (ptr_of initcode_name) 16)) s) ;;
      cwd ← on_kfs (namei [slash]);
      modify (kupd i (pset_cwd cwd)) ;;
      on_pt pt_acquire ;;
      modify (kupd i (pset_state RUNNABLE)) ;;
      on_pt pt_release
  end.

(** [growproc(n)]; the sum wraps around as the unsigned arithmetic does. *)
Definition growproc (n : Z) : M (kern S) Z :=
  cur ← myproc;
  p ← kproc_of cur;
  let sz := p_sz p in
  sz' ← (if 0 <? n then on_kmem (allocuvm kend (p_pgdir p) sz (u32 (sz + n)))
         else if n <? 0 then on_kmem (deallocuvm kend (p_pgdir p) sz (u32 (sz + n)))
         else ret sz);
  if negb (n =? 0) && (sz' =? 0) then ret (-1) else
  modify (kupd cur (pset_sz sz')) ;;
  switchuvm cur ;;
  ret 0.

(** The loop of [fork] over the open files. *)
Definition dup_fd (cur np : nat) (i : Z) : M (kern S) unit :=
  p ← kproc_of cur;
  match p_ofile p !!! Z.to_nat i with
  | None => ret tt
  | Some f =>
      f' ← on_files (filedup f);
      modify (λ s, kupd np (pset_ofile (<[Z.to_nat i := Some f']> (p_ofile (kproc s np)))) s)
  end.

Definition fork : M (kern S) Z :=
  cur ← myproc;
  r ← allocproc;
  match r with
  | None => ret (-1)
  | Some np =>
      p ← kproc_of cur;
      pgdir ← on_kmem (copyuvm kend kdata (p_pgdir p) (p_sz p));
      modify (kupd np (pset_pgdir pgdir)) ;;
      if pgdir =? 0 then
        q ← kproc_of np;
        on_kmem (kfree kend (p_kstack q)) ;;
        modify (kupd np (pset_kstack 0)) ;;
        modify (kupd np (pset_state UNUSED)) ;;
        ret (-1)
      else
        modify (kupd np (pset_sz (p_sz p))) ;;
        modify (kupd np (pset_parent (Some cur))) ;;
        modify (kupd np (pset_tf (tset_eax 0 (p_tf p)))) ;;
        for_loop (Z.to_nat NOFILE) 0 (dup_fd cur np) ;;
        (match p_cwd p with
         | None => fault
         | Some d => d' ← on_kfs (idup d); modify (kupd np (pset_cwd (Some d')))
         end) ;;
        modify (λ s, kupd np (pset_name (safestrcpy (p_name (kproc s np)) (ptr_of (p_name p)) 16)) s) ;;
        q ← kproc_of np;
        on_pt pt_acquire ;;
        modify (kupd np (pset_state RUNNABLE)) ;;
        on_pt pt_release ;;
        ret (p_pid q)
  end.

(** The loop of [exit] over the open files. *)
Definition close_fd (cur : nat) (fd : Z) : M (kern S) unit :=
  p ← kproc_of cur;
  match p_ofile p !!! Z.to_nat fd with
  | None => ret tt
  | Some f =>
      on_files (fileclose kend f) ;;
      modify (λ s, kupd cur (pset_ofile (<[Z.to_nat fd := None]> (p_ofile (kproc s cur)))) s)
  end.

(** [exit] does not return: the last thing it does is to leave the processor. *)
Definition exit {A} : M (kern S) A :=
  cur ← myproc;
  init ← gets (λ s, pt_initproc (k_pt s));
  if bool_decide (init = Some cur) then panic "init exiting" else
  for_loop (Z.to_nat NOFILE) 0 (close_fd cur) ;;
  on_files fbegin_op ;;
  p ← kproc_of cur;
  (match p_cwd p with None => fault | Some d => on_kfs (iput d) end) ;;
  on_files fend_op ;;
  modify (kupd cur (pset_cwd None)) ;;
  on_pt (exit_off 0 cur) ;;
  sleeping.

(** [wait] up to where it returns or goes to sleep; it scans again when it is
    woken up. *)
Definition wait : M (kern S) Z :=
  cur ← myproc;
  on_pt pt_acquire ;;
  r ← on_pt (wait_find 1 cur);
  match r with
  | Found i =>
      p ← kproc_of i;
      on_kmem (kfree kend (p_kstack p)) ;;
      on_kmem (freevm kend (p_pgdir p)) ;;
      on_pt (wait_reap i)
  | NoChild => ret (-1)
  | Waits => sleeping
  end.

(** [yield] up to the switch to the scheduler. *)
Definition yield {A} : M (kern S) A := cur ← myproc; on_pt (yield_off 0 cur) ;; sleeping.

(** The scheduler from slot [pos] of its scan, with the lock held, to the switch
    to the process it picks or to the end of the pass. *)
Definition scheduler_from (pos : nat) : M (kern S) (option nat) :=
  l ← gets (λ s, pt_proc (k_pt s));
  match pick_from l pos with
  | Some i =>
      modify (with_cur (Some i)) ;;
      switchuvm i ;;
      modify (kupd i (pset_state RUNNING)) ;;
      ret (Some i)
  | None => on_pt pt_release ;; ret None
  end.

(** What the scheduler does when the process comes back. *)
Definition scheduler_back (kpgdir : Z) : M (kern S) unit := switchkvm kpgdir ;; modify (with_cur None).

Definition forkret : M (kern S) unit :=
  on_pt pt_release ;;
  first ← gets k_first;
  whenM first
    (modify (with_first false) ;;
     on_kfs (iinit ROOTDEV) ;;
     on_kfs (on_log (initlog ROOTDEV))).
End kern.
