(* ===== verification/Syscall.v ===== *)
(** * System call arguments (syscall.c)

    The kernel reads arguments, strings and buffers through the page table of
    the calling process.  A load or a store that the page table does not allow
    is a fault in the kernel, which the checks of [fetchint], [argptr] and
    [fetchstr] are there to exclude. *)

From S2P Require Import Prelude Words Params Locks BufIface Bio BioLaws Log Fs FsRules Kalloc Vm VmRules VmMap VmUser VmGrow Pipe File Proc Kern.

(** The byte the kernel finds at a virtual address below KERNBASE, and a store
    there: the processor ignores PTE_U in kernel mode but not PTE_W. *)
Definition vload (k : kmem) (pgdir va : Z) : option Z :=
  let e := entry k pgdir va in
  if Z.land e PTE_P =? 0 then None
  else match km_pages k !! P2V (PTE_ADDR e) with
       | Some p => p !! Z.to_nat (va mod PGSIZE)
       | None => None
       end.
Definition vstore (k : kmem) (pgdir va b : Z) : option kmem :=
  let e := entry k pgdir va in
  if (Z.land e PTE_P =? 0) || (Z.land e PTE_W =? 0) then None
  else match km_pages k !! P2V (PTE_ADDR e) with
       | Some p => Some (with_pages (<[P2V (PTE_ADDR e) := <[Z.to_nat (va mod PGSIZE) := b]> p]> (km_pages k)) k)
       | None => None
       end.

Section syscall.
Context {S : Type} `{BufCache S} `{DevSw S}.

Definition uload (va : Z) : M (kern S) Z := λ s,
  match k_cur s with
  | None => Fault
  | Some i => match vload (fl_mem (k_files s)) (p_pgdir (kproc s i)) va with Some b => Ok b s | None => Fault end
  end.
Definition ustore (va b : Z) : M (kern S) unit := λ s,
  match k_cur s with
  | None => Fault
  | Some i => match vstore (fl_mem (k_files s)) (p_pgdir (kproc s i)) va b with
              | Some k => Ok tt (with_files (with_mem k (k_files s)) s)
              | None => Fault
              end
  end.

Fixpoint uread (n : nat) (va : Z) : M (kern S) (list Z) :=
  match n with
  | O => ret []
  | Datatypes.S n' => b ← uload va; l ← uread n' (u32 (va + 1)); ret (b :: l)
  end.
Fixpoint uwrite (va : Z) (bytes : list Z) : M (kern S) unit :=
  match bytes with
  | [] => ret tt
  | b :: l => ustore va b ;; uwrite (u32 (va + 1)) l
  end.

Definition curproc : M (kern S) proc := cur ← myproc; kproc_of cur.

(** [fetchint(addr, &i)]: [None] is -1. *)
Definition fetchint (addr : Z) : M (kern S) (option Z) :=
  p ← curproc;
  if (p_sz p <=? addr) || (p_sz p <? u32 (addr + 4)) then ret None
  else l ← uread 4 addr; ret (Some (i32 (le_val l))).

Fixpoint fetchstr_from (n : nat) (s : Z) : M (kern S) (option (list Z)) :=
  match n with
  | O => ret None
  | Datatypes.S n' =>
      b ← uload s;
      if b =? 0 then ret (Some [])
      else r ← fetchstr_from n' (s + 1); ret (cons b <$> r)
  end.

(** [fetchstr(addr, &p)]: the characters of the string before its NUL. *)
Definition fetchstr (addr : Z) : M (kern S) (option (list Z)) :=
  p ← curproc;
  if p_sz p <=? addr then ret None
  else fetchstr_from (Z.to_nat (p_sz p - addr)) addr.

Definition argint (n : Z) : M (kern S) (option Z) :=
  p ← curproc; fetchint (u32 (tf_esp (p_tf p) + 4 + 4 * n)).

(** [argptr(n, &p, size)]: the pointer. *)
Definition argptr (n size : Z) : M (kern S) (option Z) :=
  p ← curproc;
  r ← argint n;
  match r with
  | None => ret None
  | Some i =>
      if (size <? 0) || (p_sz p <=? u32 i) || (p_sz p <? u32 (u32 i + size)) then ret None
      else ret (Some (u32 i))
  end.

Definition argstr (n : Z) : M (kern S) (option (list Z)) :=
  r ← argint n;
  match r with
  | None => ret None
  | Some addr => fetchstr (u32 addr)
  end.
End syscall.

(** ** Theorems *)

Section props.
Context {S : Type} `{BufCache S} `{DevSw S}.
Implicit Types s : kern S.

(** The memory of the calling process: its size stays below the kernel, and
    every byte below the size is mapped and writable. *)
Record user_ok s (i : nat) : Prop := {
  uo_cur : k_cur s = Some i;
  uo_sz : 0 ≤ p_sz (kproc s i) ≤ KERNBASE;
  uo_mapped : ∀ va, 0 ≤ va < p_sz (kproc s i) → ∃ b, vload (fl_mem (k_files s)) (p_pgdir (kproc s i)) va = Some b;
  uo_writable : ∀ va, 0 ≤ va < p_sz (kproc s i) → Z.land (entry (fl_mem (k_files s)) (p_pgdir (kproc s i)) va) PTE_W ≠ 0
}.

(** The byte of user memory at [va]. *)
Definition umem s (i : nat) (va : Z) : Z := default 0 (vload (fl_mem (k_files s)) (p_pgdir (kproc s i)) va).

Lemma wp_uload s i va (Q : Z → kern S → Prop) :
  user_ok s i → 0 ≤ va < p_sz (kproc s i) → Q (umem s i va) s → wp (uload va) Q s.
Proof.
  intros Hu Hva HQ. destruct (uo_mapped _ _ Hu va Hva) as [b Hb]. unfold wp, uload, umem in *.
  rewrite (uo_cur _ _ Hu), Hb in *. done.
Qed.

(** The [n] bytes from [va] on. *)
Fixpoint ubytes s (i : nat) (va : Z) (n : nat) : list Z :=
  match n with
  | O => []
  | Datatypes.S n' => umem s i va :: ubytes s i (va + 1) n'
  end.

Lemma wp_uread s i n va (Q : list Z → kern S → Prop) :
  user_ok s i → 0 ≤ va → va + Z.of_nat n ≤ p_sz (kproc s i) → Q (ubytes s i va n) s → wp (uread n va) Q s.
Proof.
  intros Hu. revert va Q. induction n as [|n IH]; intros va Q Hva Hle HQ; cbn [uread]; [by wp_step|].
  wp_step. apply (wp_uload s i); [done|lia|]. wp_step. pose proof (uo_sz _ _ Hu).
  rewrite u32_id by (unfold is_u32, KERNBASE in *; lia). apply IH; [lia|lia|]. by wp_step.
Qed.

Lemma wp_curproc s i (Q : proc → kern S → Prop) : user_ok s i → Q (kproc s i) s → wp curproc Q s.
Proof.
  intros Hu HQ. unfold curproc, kproc_of. wp_step. unfold myproc, wp. rewrite (uo_cur _ _ Hu). exact HQ.
Qed.

(** A 32-bit check that does not wrap around below the kernel. *)
Lemma no_wrap a size sz : is_u32 a → 0 ≤ size < 2 ^ 31 → 0 ≤ sz ≤ KERNBASE →
  (sz <=? a) || (sz <? u32 (a + size)) = negb ((a <? sz) && (a + size <=? sz)).
Proof.
  intros Ha Hs Hz. unfold is_u32, KERNBASE in *. destruct (sz <=? a) eqn:E; [|rewrite u32_id by (unfold is_u32; lia)]; lia.
Qed.

Lemma wp_fetchint s i addr (Q : option Z → kern S → Prop) :
  user_ok s i → is_u32 addr →
  Q (if (addr <? p_sz (kproc s i)) && (addr + 4 <=? p_sz (kproc s i)) then Some (i32 (le_val (ubytes s i addr 4))) else None) s →
  wp (fetchint addr) Q s.
Proof.
  intros Hu Ha HQ. unfold fetchint. wp_step. apply (wp_curproc s i); [done|].
  rewrite no_wrap by (done || apply Hu || lia).
  destruct ((addr <? p_sz (kproc s i)) && (addr + 4 <=? p_sz (kproc s i))) eqn:E; cbn [negb]; [|by wp_step].
  bool_props. wp_step. unfold is_u32 in Ha. apply (wp_uread s i); [done|lia|lia|]. by wp_step.
Qed.

(** The address of the n-th argument. *)
Definition arg_addr s (i : nat) (n : Z) : Z := u32 (tf_esp (p_tf (kproc s i)) + 4 + 4 * n).
(** Its value, when it lies in the memory of the process. *)
Definition arg_val s (i : nat) (n : Z) : option Z :=
  let a := arg_addr s i n in
  if (a <? p_sz (kproc s i)) && (a + 4 <=? p_sz (kproc s i)) then Some (i32 (le_val (ubytes s i a 4))) else None.

Lemma wp_argint s i n (Q : option Z → kern S → Prop) : user_ok s i → Q (arg_val s i n) s → wp (argint n) Q s.
Proof.
  intros Hu HQ. unfold argint. wp_step. apply (wp_curproc s i); [done|]. apply (wp_fetchint s i); [done|apply u32_range|done].
Qed.

(** C16: [argptr] lets no pointer out of the process.  Whatever the stack pointer
    and the arguments are, it neither faults nor changes anything; it succeeds
    exactly when the argument word lies in the memory of the process and the
    block of [size] bytes at the pointer does too (without wrapping around),
    and then every byte of the block is mapped and writable. *)
Theorem argptr_safe s i n size : user_ok s i → size < 2 ^ 31 →
  wp (argptr n size) (λ r s', s' = s ∧
    match arg_val s i n with
    | Some v => r = if (0 <=? size) && (u32 v <? p_sz (kproc s i)) && (u32 v + size <=? p_sz (kproc s i)) then Some (u32 v) else None
    | None => r = None
    end ∧
    ∀ a, r = Some a → 0 ≤ size ∧ a + size ≤ p_sz (kproc s i) ∧ ∀ va, a ≤ va < a + size →
      is_Some (vload (fl_mem (k_files s)) (p_pgdir (kproc s i)) va) ∧
      Z.land (entry (fl_mem (k_files s)) (p_pgdir (kproc s i)) va) PTE_W ≠ 0) s.
Proof.
  intros Hu Hsz. unfold argptr. wp_step. apply (wp_curproc s i); [done|]. wp_step. apply (wp_argint s i); [done|].
  destruct (arg_val s i n) as [v|]; [|by wp_step]. destruct (size <? 0) eqn:E0; cbn [orb].
  { wp_step. split; [done|]. split; [|done]. by replace (0 <=? size) with false by lia. }
  pose proof (u32_range v) as Hv. rewrite no_wrap by (apply Hu || exact Hv || lia). replace (0 <=? size) with true by lia. cbn [andb].
  destruct ((u32 v <? p_sz (kproc s i)) && (u32 v + size <=? p_sz (kproc s i))) eqn:E; cbn [negb]; wp_step; [|done].
  apply andb_true_iff in E as [E1 E2]. split; [done|]. split; [done|]. intros a [= <-]. unfold is_u32 in Hv. split; [lia|]. split; [lia|]. intros va Hva. split.
  - destruct (uo_mapped _ _ Hu va) as [b Hb]; [lia|]. by exists b.
  - apply (uo_writable _ _ Hu). lia.
Qed.

(** [l] is the string at [addr]: bytes other than NUL up to a NUL, which lies in
    the memory of the process. *)
Fixpoint string_at s (i : nat) (addr : Z) (l : list Z) : Prop :=
  addr < p_sz (kproc s i) ∧
  match l with
  | [] => umem s i addr = 0
  | b :: l' => umem s i addr = b ∧ b ≠ 0 ∧ string_at s i (addr + 1) l'
  end.

Lemma wp_fetchstr_from s i n addr : user_ok s i → 0 ≤ addr → addr + Z.of_nat n = p_sz (kproc s i) →
  wp (fetchstr_from n addr) (λ r s', s' = s ∧
    match r with
    | Some l => string_at s i addr l
    | None => ∀ va, addr ≤ va < p_sz (kproc s i) → umem s i va ≠ 0
    end) s.
Proof.
  intros Hu. revert addr. induction n as [|n IH]; intros addr Ha Hn; cbn [fetchstr_from].
  - wp_step. split; [done|]. intros va Hva. lia.
  - wp_step. apply (wp_uload s i); [done|lia|]. destruct (umem s i addr =? 0) eqn:E.
    + wp_step. split; [done|]. split; [lia|]. by bool_props.
    + wp_step. eapply wp_mono; [apply IH; lia|]. intros r s' [-> Hr]. wp_step. split; [done|].
      destruct r as [l|]; simpl.
      * split; [lia|]. split; [done|]. split; [lia|done].
      * intros va Hva. destruct (decide (va = addr)) as [->|]; [lia|]. apply Hr. lia.
Qed.

(** [fetchstr] finds exactly the NUL-terminated strings of the process: it
    does not fault, changes nothing, and returns the string at the address when
    there is one that ends before the end of the memory, and -1 otherwise. *)
Theorem fetchstr_correct s i addr : user_ok s i → is_u32 addr →
  wp (fetchstr addr) (λ r s', s' = s ∧
    match r with
    | Some l => string_at s i addr l
    | None => ∀ va, addr ≤ va < p_sz (kproc s i) → umem s i va ≠ 0
    end) s.
Proof.
  intros Hu Ha. unfold fetchstr. wp_step. apply (wp_curproc s i); [done|]. unfold is_u32 in Ha.
  destruct (p_sz (kproc s i) <=? addr) eqn:E.
  - wp_step. split; [done|]. intros va Hva. lia.
  - apply wp_fetchstr_from; [done|lia|lia].
Qed.
End props.

(** *** Witnesses: a process with 100 bytes of memory *)

Definition small_proc : proc := pset_tf (tset_entry 0 16 zero_tf) (pset_sz 100 (pset_pgdir (spage 0) zero_proc)).
Definition small_kern : kern bst :=
  Kern (Files demo_fs false [] ∅ suser) (Ptable false [small_proc] None 2) (Some 0%nat) 0 0 false false 0.

Lemma suser_writable x : 0 ≤ x < 100 → Z.land (entry suser (spage 0) x) PTE_W ≠ 0.
Proof.
  intros Hx. destruct suser_grown as (free & Has & _ & Hg).
  assert (Hp : in_pages 0 100 x).
  { split; [lia|]. rewrite (page_of_same 0); [lia|done|unfold PGSIZE; lia]. }
  destruct (Hg x ltac:(unfold KERNBASE; lia) Hp) as [E _]. rewrite E.
  generalize (V2P (frame suser (spage 0) x)). intros a. unfold pte_of, PTE_P, PTE_W, PTE_U.
  intros Ez; apply Z.bits_inj_iff in Ez; specialize (Ez 1).
  rewrite Z.land_spec, !Z.lor_spec, Z.bits_0 in Ez; cbn in Ez; rewrite ?orb_true_r in Ez; done.
Qed.

Lemma small_user_ok : user_ok small_kern 0.
Proof.
  split; [done|unfold KERNBASE; simpl; lia| |].
  - intros va Hva. change (p_sz (kproc small_kern 0)) with 100 in Hva. change (p_pgdir (kproc small_kern 0)) with (spage 0).
    change (fl_mem (k_files small_kern)) with suser. pose proof (suser_user va Hva) as Hu.
    destruct suser_grown as (free & Has & _).
    destruct (ubyte_frame (spage 0) suser free (spage 0) va Has ltac:(unfold KERNBASE; lia) Hu) as (_ & Hlen & Hpg).
    unfold vload. pose proof (land_present _ (proj1 Hu)) as Hp. destruct (Z.land _ PTE_P =? 0); [done|].
    unfold frame in Hpg, Hlen. rewrite Hpg. apply lookup_lt_is_Some_2. rewrite Hlen. unfold npage.
    pose proof (Z.mod_pos_bound va PGSIZE ltac:(done)). lia.
  - intros va Hva. exact (suser_writable va Hva).
Qed.

Lemma argptr_safe_witness : wp (argptr 0 8) (λ r s', s' = small_kern) small_kern.
Proof.
  eapply wp_mono; [exact (argptr_safe small_kern 0 0 8 small_user_ok ltac:(lia))|]. intros r s' [E _]. exact E.
Defined.

Lemma fetchstr_correct_witness : wp (fetchstr 20) (λ r s', s' = small_kern) small_kern.
Proof.
  eapply wp_mono; [exact (fetchstr_correct small_kern 0 20 small_user_ok ltac:(unfold is_u32; lia))|]. intros r s' [E _]. exact E.
Defined.
