(* ===== verification/Exec.v ===== *)
(** * Loading programs (exec.c, vm.c)

    [exec] builds a new address space from an ELF file, pushes the arguments,
    and only then commits to it; every failure before that frees what was built
    and leaves the process as it was. *)

From S2P Require Import Prelude Words Params CString Locks BufIface Log Fs Kalloc Vm Pipe File Proc Kern.

Section exec.
Context {S : Type} `{BufCache S} `{DevSw S} (kend kdata : Z).

(** [loaduvm(pgdir, addr, ip, offset, sz)], reading straight into the pages. *)
Fixpoint loaduvm_from (fuel : nat) (pgdir addr : Z) (ip : nat) (offset sz i : Z) : M (files S) Z :=
  match fuel with
  | O => fault
  | Datatypes.S f =>
      if i <? sz then
        r ← on_mem (walkpgdir pgdir (u32 (addr + i)) false);
        match r with
        | None => panic "loaduvm: address should exist"
        | Some pte =>
            w ← on_mem (load_word pte);
            let pa := PTE_ADDR w in
            let n := if sz - i <? PGSIZE then sz - i else PGSIZE in
            r ← on_fs (readi ip (u32 (offset + i)) n);
            p ← on_mem (load_page (P2V pa));
            on_mem (store_page (P2V pa) (splice 0 r.2 p)) ;;
            if negb (r.1 =? n) then ret (-1)
            else loaduvm_from f pgdir addr ip offset sz (u32 (i + PGSIZE))
        end
      else ret 0
  end.

Definition loaduvm (pgdir addr : Z) (ip : nat) (offset sz : Z) : M (files S) Z :=
  if negb (addr mod PGSIZE =? 0) then panic "loaduvm: addr must be page aligned"
  else loaduvm_from (Z.to_nat (sz / PGSIZE + 2)) pgdir addr ip offset sz 0.

(** The loop over the program headers: [n] of them are left, the next one at
    offset [off].  The new size, or [None] for [goto bad]. *)
Fixpoint exec_load (n : nat) (ip : nat) (off pgdir sz : Z) : M (kern S) (option Z) :=
  match n with
  | O => ret (Some sz)
  | Datatypes.S n' =>
      r ← on_kfs (readi ip off sizeof_proghdr);
      if negb (r.1 =? sizeof_proghdr) then ret None else
      let ph := get_proghdr r.2 in
      if negb (ph_type ph =? ELF_PROG_LOAD) then exec_load n' ip (u32 (off + sizeof_proghdr)) pgdir sz else
      if ph_memsz ph <? ph_filesz ph then ret None else
      if u32 (ph_vaddr ph + ph_memsz ph) <? ph_vaddr ph then ret None else
      sz ← on_kmem (allocuvm kend pgdir sz (u32 (ph_vaddr ph + ph_memsz ph)));
      if sz =? 0 then ret None else
      if negb (ph_vaddr ph mod PGSIZE =? 0) then ret None else
      r ← on_files (loaduvm pgdir (ph_vaddr ph) ip (ph_off ph) (ph_filesz ph));
      if r <? 0 then ret None else
      exec_load n' ip (u32 (off + sizeof_proghdr)) pgdir sz
  end.

(** The loop over the arguments: the stack pointer and the pointers pushed so
    far, last first. *)
Fixpoint push_args (pgdir : Z) (argv : list (list Z)) (argc sp : Z) (ptrs : list Z) : M (kern S) (option (Z * list Z)) :=
  match argv with
  | [] => ret (Some (sp, ptrs))
  | s :: argv' =>
      if MAXARG <=? argc then ret None else
      let len := Z.of_nat (length s) + 1 in
      let sp := Z.land (u32 (sp - len)) (Z.lnot 3) in
      r ← on_kmem (copyout pgdir sp (s ++ [0]) len);
      if r <? 0 then ret None
      else push_args pgdir argv' (argc + 1) sp (sp :: ptrs)
  end.

(** The words below the strings: a fake return address, argc, argv, and the
    argument pointers with the null that ends them. *)
Definition ustack (argc sp : Z) (ptrs : list Z) : list Z :=
  [4294967295; argc; u32 (sp - (argc + 1) * 4)] ++ rev ptrs ++ [0].

(** The last element of the path, for the name of the process. *)
Fixpoint last_elem (last s : list Z) : list Z :=
  match s with
  | [] => last
  | c :: s' => last_elem (if c =? slash then s' else last) s'
  end.

(** The [bad] exit: [pgdir] is 0 before [setupkvm], [ip] is [None] once the file
    is closed. *)
Definition exec_bad (pgdir : Z) (ip : option nat) : M (kern S) Z :=
  whenM (negb (pgdir =? 0)) (on_kmem (freevm kend pgdir)) ;;
  (match ip with
   | Some ip => on_kfs (iunlockput ip) ;; on_files fend_op
   | None => ret tt
   end) ;;
  ret (-1).

(** From the user stack on; the file is closed. *)
Definition exec_stack (path : list Z) (argv : list (list Z)) (entry pgdir sz : Z) : M (kern S) Z :=
  cur ← myproc;
  let sz := PGROUNDUP sz in
  sz ← on_kmem (allocuvm kend pgdir sz (u32 (sz + 2 * PGSIZE)));
  if sz =? 0 then exec_bad pgdir None else
  on_kmem (clearpteu pgdir (u32 (sz - 2 * PGSIZE))) ;;
  r ← push_args pgdir argv 0 sz [];
  match r with
  | None => exec_bad pgdir None
  | Some (sp, ptrs) =>
      let argc := Z.of_nat (length ptrs) in
      let words := ustack argc sp ptrs in
      let sp := u32 (sp - (3 + argc + 1) * 4) in
      r ← on_kmem (copyout pgdir sp (concat (le 4 <$> words)) ((3 + argc + 1) * 4));
      if r <? 0 then exec_bad pgdir None else
      modify (λ s, kupd cur (pset_name (safestrcpy (p_name (kproc s cur)) (ptr_of (last_elem path path ++ [0])) 16)) s) ;;
      p ← kproc_of cur;
      let oldpgdir := p_pgdir p in
      modify (kupd cur (pset_pgdir pgdir)) ;;
      modify (kupd cur (pset_sz sz)) ;;
      modify (kupd cur (pset_tf (tset_entry entry sp (p_tf p)))) ;;
      switchuvm cur ;;
      on_kmem (freevm kend oldpgdir) ;;
      ret 0
  end.

Definition exec (path : list Z) (argv : list (list Z)) : M (kern S) Z :=
  on_files fbegin_op ;;
  r ← on_kfs (namei path);
  match r with
  | None => on_files fend_op ;; ret (-1)
  | Some ip =>
      on_kfs (ilock ip) ;;
      r ← on_kfs (readi ip 0 sizeof_elfhdr);
      let elf := get_elfhdr r.2 in
      if negb (r.1 =? sizeof_elfhdr) then exec_bad 0 (Some ip) else
      if negb (elf_magic elf =? ELF_MAGIC) then exec_bad 0 (Some ip) else
      pgdir ← on_kmem (setupkvm kend kdata);
      if pgdir =? 0 then exec_bad 0 (Some ip) else
      r ← exec_load (Z.to_nat (elf_phnum elf)) ip (elf_phoff elf) pgdir 0;
      match r with
      | None => exec_bad pgdir (Some ip)
      | Some sz =>
          on_kfs (iunlockput ip) ;;
          on_files fend_op ;;
          exec_stack path argv (elf_entry elf) pgdir sz
      end
  end.
End exec.
