(* ===== verification/Sysfile.v ===== *)
(** * System calls on files (sysfile.c)

    The descriptor table of the calling process over the file table, and the
    operations on directories.  The part of a call that works on the file system
    alone is a computation on [fs]; the system call fetches its arguments from
    user memory and runs it. *)

From S2P Require Import Prelude Words Params CString Locks BufIface Log Fs Kalloc Vm Pipe File Proc Kern Syscall Exec.

Definition dot : list Z := [46].
Definition dotdot : list Z := [46; 46].

Section directories.
Context {S : Type} `{BufCache S} `{DevSw S}.

Definition new_name : list Z := replicate (Z.to_nat DIRSIZ) 0.

(** [dirlink(dp, name, inum) < 0] *)
Definition dirlink_fails (dp : nat) (name : cptr) (inum : Z) : M (fs S) bool := r ← dirlink dp name inum; ret (r <? 0).

(** The scan of [isdirempty] from [off], and the whole of it. *)
Fixpoint isdirempty_from (fuel : nat) (dp : nat) (off : Z) : M (fs S) bool :=
  match fuel with
  | O => fault
  | Datatypes.S f =>
      i ← inode_of dp;
      if off <? i_size i then
        r ← readi dp off sizeof_dirent;
        if negb (r.1 =? sizeof_dirent) then panic "isdirempty: readi" else
        if negb (de_inum r.2 =? 0) then ret false
        else isdirempty_from f dp (off + sizeof_dirent)
      else ret true
  end.
Definition isdirempty (dp : nat) : M (fs S) bool :=
  i ← inode_of dp; isdirempty_from (dir_fuel (i_size i)) dp (2 * sizeof_dirent).

(** The [bad] exit of [sys_link]: take the link count back. *)
Definition link_bad (ip : nat) : M (fs S) Z :=
  ilock ip ;;
  modify (λ s, iupd ip (iset_nlink (i16 (i_nlink (inoden s ip) - 1))) s) ;;
  iupdate ip ;;
  iunlockput ip ;;
  on_log end_op ;;
  ret (-1).

Definition link (old new : list Z) : M (fs S) Z :=
  on_log begin_op ;;
  r ← namei old;
  match r with
  | None => on_log end_op ;; ret (-1)
  | Some ip =>
      ilock ip ;;
      i ← inode_of ip;
      if i_type i =? T_DIR then iunlockput ip ;; on_log end_op ;; ret (-1) else
      modify (λ s, iupd ip (iset_nlink (i16 (i_nlink (inoden s ip) + 1))) s) ;;
      iupdate ip ;;
      iunlock ip ;;
      r ← nameiparent new new_name;
      match r with
      | (None, _) => link_bad ip
      | (Some dp, name) =>
          ilock dp ;;
          d ← inode_of dp;
          i ← inode_of ip;
          bad ← (if negb (i_dev d =? i_dev i) then ret true else dirlink_fails dp (ptr_of name) (i_inum i));
          if bad : bool then iunlockput dp ;; link_bad ip
          else iunlockput dp ;; iput ip ;; on_log end_op ;; ret 0
      end
  end.

(** The [bad] exit of [sys_unlink]. *)
Definition unlink_bad (dp : nat) : M (fs S) Z := iunlockput dp ;; on_log end_op ;; ret (-1).

Definition unlink (path : list Z) : M (fs S) Z :=
  on_log begin_op ;;
  r ← nameiparent path new_name;
  match r with
  | (None, _) => on_log end_op ;; ret (-1)
  | (Some dp, name) =>
      ilock dp ;;
      if (namecmp (ptr_of name) (ptr_of dot) =? 0) || (namecmp (ptr_of name) (ptr_of dotdot) =? 0) then unlink_bad dp else
      r ← dirlookup dp (ptr_of name);
      match r with
      | None => unlink_bad dp
      | Some (ip, off) =>
          ilock ip ;;
          i ← inode_of ip;
          if i_nlink i <? 1 then panic "unlink: nlink < 1" else
          full ← (if i_type i =? T_DIR then e ← isdirempty ip; ret (negb e) else ret false);
          if full : bool then iunlockput ip ;; unlink_bad dp else
          n ← writei dp (replicate (Z.to_nat sizeof_dirent) 0) off sizeof_dirent;
          if negb (n =? sizeof_dirent) then panic "unlink: writei" else
          whenM (i_type i =? T_DIR)
            (modify (λ s, iupd dp (iset_nlink (i16 (i_nlink (inoden s dp) - 1))) s) ;; iupdate dp) ;;
          iunlockput dp ;;
          modify (λ s, iupd ip (iset_nlink (i16 (i_nlink (inoden s ip) - 1))) s) ;;
          iupdate ip ;;
          iunlockput ip ;;
          on_log end_op ;;
          ret 0
      end
  end.

Definition create (path : list Z) (type major minor : Z) : M (fs S) (option nat) :=
  r ← nameiparent path new_name;
  match r with
  | (None, _) => ret None
  | (Some dp, name) =>
      ilock dp ;;
      r ← dirlookup dp (ptr_of name);
      match r with
      | Some (ip, _) =>
          iunlockput dp ;;
          ilock ip ;;
          i ← inode_of ip;
          if (type =? T_FILE) && (i_type i =? T_FILE) then ret (Some ip)
          else iunlockput ip ;; ret None
      | None =>
          d ← inode_of dp;
          ip ← ialloc (i_dev d) type;
          ilock ip ;;
          modify (iupd ip (iset_dev_minor major minor)) ;;
          modify (iupd ip (iset_nlink 1)) ;;
          iupdate ip ;;
          i ← inode_of ip;
          whenM (type =? T_DIR)
            (modify (λ s, iupd dp (iset_nlink (i16 (i_nlink (inoden s dp) + 1))) s) ;;
             iupdate dp ;;
             bad1 ← dirlink_fails ip (ptr_of dot) (i_inum i);
             bad ← (if bad1 : bool then ret true else dirlink_fails ip (ptr_of dotdot) (i_inum d));
             if bad : bool then panic "create dots" else ret tt) ;;
          bad ← dirlink_fails dp (ptr_of name) (i_inum i);
          if bad : bool then panic "create: dirlink" else
          iunlockput dp ;;
          ret (Some ip)
      end
  end.

(** [sys_mkdir] and [sys_mknod] once their arguments are known. *)
Definition make_node (path : option (list Z)) (type major minor : Z) : M (fs S) Z :=
  r ← (match path with None => ret None | Some p => create p type major minor end);
  match r with
  | None => on_log end_op ;; ret (-1)
  | Some ip => iunlockput ip ;; on_log end_op ;; ret 0
  end.

(** The inode [sys_open] opens, locked, with the transaction still open; [None]
    when it failed and the transaction is closed. *)
Definition open_inode (path : list Z) (omode : Z) : M (fs S) (option nat) :=
  on_log begin_op ;;
  if negb (Z.land omode O_CREATE =? 0) then
    r ← create path T_FILE 0 0;
    match r with
    | None => on_log end_op ;; ret None
    | Some ip => ret (Some ip)
    end
  else
    r ← namei path;
    match r with
    | None => on_log end_op ;; ret None
    | Some ip =>
        ilock ip ;;
        i ← inode_of ip;
        if (i_type i =? T_DIR) && negb (omode =? O_RDONLY) then
          iunlockput ip ;; on_log end_op ;; ret None
        else ret (Some ip)
    end.
End directories.

Section sysfile.
Context {S : Type} `{BufCache S} `{DevSw S} (kend kdata : Z).

(** [argfd(n, &fd, &f)] *)
Definition argfd (n : Z) : M (kern S) (option (Z * nat)) :=
  r ← argint n;
  match r with
  | None => ret None
  | Some fd =>
      if (fd <? 0) || (NOFILE <=? fd) then ret None else
      p ← curproc;
      match p_ofile p !!! Z.to_nat fd with
      | None => ret None
      | Some f => ret (Some (fd, f))
      end
  end.

Definition set_fd (fd : nat) (v : option nat) : M (kern S) unit :=
  cur ← myproc; modify (λ s, kupd cur (pset_ofile (<[fd := v]> (p_ofile (kproc s cur)))) s).

(** [fdalloc(f)]: the lowest descriptor that is free, or -1. *)
Definition fdalloc (f : nat) : M (kern S) Z :=
  p ← curproc;
  match free_fd (p_ofile p) 0 with
  | None => ret (-1)
  | Some fd => set_fd fd (Some f) ;; ret (Z.of_nat fd)
  end.

Definition sys_dup : M (kern S) Z :=
  r ← argfd 0;
  match r with
  | None => ret (-1)
  | Some (_, f) =>
      fd ← fdalloc f;
      if fd <? 0 then ret (-1)
      else on_files (filedup f) ;; ret fd
  end.

Definition sys_read : M (kern S) Z :=
  r ← argfd 0;
  match r with
  | None => ret (-1)
  | Some (_, f) =>
      r ← argint 2;
      match r with
      | None => ret (-1)
      | Some n =>
          r ← argptr 1 n;
          match r with
          | None => ret (-1)
          | Some p =>
              c ← curproc;
              r ← on_files (fileread (p_killed c) f n);
              uwrite p r.2 ;;
              ret r.1
          end
      end
  end.

Definition sys_write : M (kern S) Z :=
  r ← argfd 0;
  match r with
  | None => ret (-1)
  | Some (_, f) =>
      r ← argint 2;
      match r with
      | None => ret (-1)
      | Some n =>
          r ← argptr 1 n;
          match r with
          | None => ret (-1)
          | Some p =>
              c ← curproc;
              bytes ← uread (Z.to_nat n) p;
              on_files (filewrite (p_killed c) f bytes n)
          end
      end
  end.

Definition sys_close : M (kern S) Z :=
  r ← argfd 0;
  match r with
  | None => ret (-1)
  | Some (fd, f) =>
      set_fd (Z.to_nat fd) None ;;
      on_files (fileclose kend f) ;;
      ret 0
  end.

(** [stati] stores the fields of [struct stat] at the user's address; the
    padding behind the two short fields is not written. *)
Definition write_stat (p : Z) (st : stat) : M (kern S) unit :=
  uwrite p (le 2 (st_type st)) ;;
  uwrite (u32 (p + 4)) (le 4 (st_dev st)) ;;
  uwrite (u32 (p + 8)) (le 4 (st_ino st)) ;;
  uwrite (u32 (p + 12)) (le 2 (st_nlink st)) ;;
  uwrite (u32 (p + 16)) (le 4 (st_size st)).

Definition sys_fstat : M (kern S) Z :=
  r ← argfd 0;
  match r with
  | None => ret (-1)
  | Some (_, f) =>
      r ← argptr 1 20;
      match r with
      | None => ret (-1)
      | Some p =>
          r ← on_files (filestat f);
          match r.2 with Some st => write_stat p st | None => ret tt end ;;
          ret r.1
      end
  end.

Definition sys_link : M (kern S) Z :=
  old ← argstr 0;
  match old with
  | None => ret (-1)
  | Some old =>
      new ← argstr 1;
      match new with
      | None => ret (-1)
      | Some new => on_kfs (link old new)
      end
  end.

Definition sys_unlink : M (kern S) Z :=
  path ← argstr 0;
  match path with
  | None => ret (-1)
  | Some path => on_kfs (unlink path)
  end.

(** The end of [sys_open] for the locked inode [ip]. *)
Definition open_file (ip : nat) (omode : Z) : M (kern S) Z :=
  let bad : M (kern S) Z := on_kfs (iunlockput ip) ;; on_files fend_op ;; ret (-1) in
  r ← on_files filealloc;
  match r with
  | None => bad
  | Some f =>
      fd ← fdalloc f;
      if fd <? 0 then on_files (fileclose kend f) ;; bad
      else
        on_kfs (iunlock ip) ;;
        on_files fend_op ;;
        on_files (modify (fupd f (fset_inode (Z.land omode O_WRONLY =? 0)
          (negb (Z.land omode O_WRONLY =? 0) || negb (Z.land omode O_RDWR =? 0)) ip))) ;;
        ret fd
  end.

Definition sys_open : M (kern S) Z :=
  path ← argstr 0;
  match path with
  | None => ret (-1)
  | Some path =>
      omode ← argint 1;
      match omode with
      | None => ret (-1)
      | Some omode =>
          r ← on_kfs (open_inode path omode);
          match r with
          | None => ret (-1)
          | Some ip => open_file ip omode
          end
      end
  end.

Definition sys_mkdir : M (kern S) Z :=
  on_files fbegin_op ;;
  path ← argstr 0;
  on_kfs (make_node path T_DIR 0 0).

Definition sys_mknod : M (kern S) Z :=
  on_files fbegin_op ;;
  path ← argstr 0;
  match path with
  | None => on_kfs (make_node None T_DEV 0 0)
  | Some _ =>
      major ← argint 1;
      match major with
      | None => on_kfs (make_node None T_DEV 0 0)
      | Some major =>
          minor ← argint 2;
          match minor with
          | None => on_kfs (make_node None T_DEV 0 0)
          | Some minor => on_kfs (make_node path T_DEV (i16 major) (i16 minor))
          end
      end
  end.

Definition sys_chdir : M (kern S) Z :=
  cur ← myproc;
  on_files fbegin_op ;;
  path ← argstr 0;
  r ← (match path with None => ret None | Some path => on_kfs (namei path) end);
  match r with
  | None => on_files fend_op ;; ret (-1)
  | Some ip =>
      on_kfs (ilock ip) ;;
      i ← on_kfs (inode_of ip);
      if negb (i_type i =? T_DIR) then on_kfs (iunlockput ip) ;; on_files fend_op ;; ret (-1)
      else
        on_kfs (iunlock ip) ;;
        p ← kproc_of cur;
        (match p_cwd p with None => fault | Some d => on_kfs (iput d) end) ;;
        on_files fend_op ;;
        modify (kupd cur (pset_cwd (Some ip))) ;;
        ret 0
  end.

(** The loop of [sys_exec] over the argument pointers: at most [n] more. *)
Fixpoint fetch_argv (n : nat) (uargv : Z) : M (kern S) (option (list (list Z))) :=
  match n with
  | O => ret None
  | Datatypes.S n' =>
      r ← fetchint uargv;
      match r with
      | None => ret None
      | Some uarg =>
          if uarg =? 0 then ret (Some [])
          else
            str ← fetchstr (u32 uarg);
            match str with
            | None => ret None
            | Some str => rest ← fetch_argv n' (u32 (uargv + 4)); ret (cons str <$> rest)
            end
      end
  end.

Definition sys_exec : M (kern S) Z :=
  path ← argstr 0;
  match path with
  | None => ret (-1)
  | Some path =>
      uargv ← argint 1;
      match uargv with
      | None => ret (-1)
      | Some uargv =>
          argv ← fetch_argv (Z.to_nat MAXARG) (u32 uargv);
          match argv with
          | None => ret (-1)
          | Some argv => exec kend kdata path argv
          end
      end
  end.

Definition sys_pipe : M (kern S) Z :=
  fdp ← argptr 0 8;
  match fdp with
  | None => ret (-1)
  | Some fdp =>
      r ← on_files (pipealloc kend);
      match r with
      | None => ret (-1)
      | Some (rf, wf) =>
          fd0 ← fdalloc rf;
          fd1 ← (if fd0 <? 0 then ret (-1) else fdalloc wf);
          if (fd0 <? 0) || (fd1 <? 0) then
            whenM (0 <=? fd0) (set_fd (Z.to_nat fd0) None) ;;
            on_files (fileclose kend rf) ;;
            on_files (fileclose kend wf) ;;
            ret (-1)
          else
            uwrite fdp (le 4 fd0) ;;
            uwrite (u32 (fdp + 4)) (le 4 fd1) ;;
            ret 0
      end
  end.
End sysfile.
