(* ===== verification/Trap.v ===== *)
(** * Traps, the system call dispatcher and the system calls on processes (trap.c, syscall.c, sysproc.c)

    [trap] runs for the process on the processor, or for none when an interrupt
    arrives in the scheduler.  The drivers it calls on a device interrupt are
    computations given as parameters: they are the interrupt handlers of ide.c,
    kbd.c and uart.c.  Messages printed on the console are not part of the
    state. *)

From S2P Require Import Prelude Words Params Locks BufIface Log Fs Kalloc Vm Pipe File Proc Kern Syscall Exec Sysfile.

(** ** System calls on processes (sysproc.c) *)

(** The channel [&ticks]. *)
Definition ticks_chan : chan := Ch_addr 0.

Section sysproc.
Context {S : Type} `{BufCache S} `{DevSw S} (kend kdata trapret forkret_addr : Z).

Definition t_acquire : M (kern S) unit := zoom k_tlock with_tlock spin_acquire.
Definition t_release : M (kern S) unit := zoom k_tlock with_tlock spin_release.

Definition sys_fork : M (kern S) Z := fork kend kdata trapret forkret_addr.
Definition sys_exit : M (kern S) Z := exit kend.
Definition sys_wait : M (kern S) Z := wait kend.

Definition sys_kill : M (kern S) Z :=
  r ← argint 0;
  match r with
  | None => ret (-1)
  | Some pid => on_pt (kill pid)
  end.

Definition sys_getpid : M (kern S) Z := p ← curproc; ret (p_pid p).

Definition sys_sbrk : M (kern S) Z :=
  r ← argint 0;
  match r with
  | None => ret (-1)
  | Some n =>
      p ← curproc;
      let addr := i32 (p_sz p) in
      r ← growproc kend n;
      if r <? 0 then ret (-1) else ret addr
  end.

(** One turn of the loop in [sys_sleep], entered with [tickslock] held: the
    comparison is unsigned.  Asleep, the process has given the lock up. *)
Definition sleep_turn (ticks0 n : Z) : M (kern S) Z :=
  ticks ← gets k_ticks;
  if u32 (ticks - ticks0) <? u32 n then
    p ← curproc;
    if p_killed p then t_release ;; ret (-1)
    else
      cur ← myproc;
      on_pt pt_acquire ;;
      t_release ;;
      on_pt (sleep_off 1 cur ticks_chan) ;;
      sleeping
  else t_release ;; ret 0.

Definition sys_sleep : M (kern S) Z :=
  r ← argint 0;
  match r with
  | None => ret (-1)
  | Some n =>
      t_acquire ;;
      ticks0 ← gets k_ticks;
      sleep_turn ticks0 n
  end.

Definition sys_uptime : M (kern S) Z :=
  t_acquire ;;
  xticks ← gets k_ticks;
  t_release ;;
  ret (i32 xticks).
End sysproc.

(** ** trap.c and syscall.c: dispatch *)

Section trap.
Context {S : Type} `{BufCache S} `{DevSw S} (kend kdata trapret forkret_addr : Z).
(** Interrupt handlers of the devices. *)
Context (ideintr kbdintr uartintr : M (kern S) unit).

(** The table of system calls, by number. *)
Definition syscalls (num : Z) : option (M (kern S) Z) :=
  nth (Z.to_nat num)
    [None;
     Some (sys_fork kend kdata trapret forkret_addr);
     Some (sys_exit kend);
     Some (sys_wait kend);
     Some (sys_pipe kend);
     Some sys_read;
     Some sys_kill;
     Some (sys_exec kend kdata);
     Some sys_fstat;
     Some sys_chdir;
     Some sys_dup;
     Some sys_getpid;
     Some (sys_sbrk kend);
     Some sys_sleep;
     Some sys_uptime;
     Some (sys_open kend);
     Some sys_write;
     Some sys_mknod;
     Some sys_unlink;
     Some sys_link;
     Some sys_mkdir;
     Some (sys_close kend)] None.

(** [curproc->tf->eax = v] *)
Definition set_eax (cur : nat) (v : Z) : M (kern S) unit :=
  modify (λ s, kupd cur (pset_tf (tset_eax (u32 v) (p_tf (kproc s cur)))) s).

Definition syscall : M (kern S) unit :=
  cur ← myproc;
  p ← kproc_of cur;
  let num := i32 (tf_eax (p_tf p)) in
  match (if (0 <? num) && (num <? 22) then syscalls num else None) with
  | Some call => r ← call; set_eax cur r
  | None => set_eax cur (-1)
  end.

(** The timer interrupt: the clock ticks on processor 0. *)
Definition clock_tick : M (kern S) unit :=
  t_acquire ;;
  modify (λ s, with_ticks (u32 (k_ticks s + 1)) s) ;;
  on_pt (wakeup (Some ticks_chan)) ;;
  t_release.

(** The device part of [trap]: [None] when the trap is no known interrupt. *)
Definition interrupt (cpuid trapno : Z) : option (M (kern S) unit) :=
  if trapno =? T_IRQ0 + IRQ_TIMER then Some (whenM (cpuid =? 0) clock_tick)
  else if trapno =? T_IRQ0 + IRQ_IDE then Some ideintr
  else if trapno =? T_IRQ0 + IRQ_IDE + 1 then Some (ret tt)
  else if trapno =? T_IRQ0 + IRQ_KBD then Some kbdintr
  else if trapno =? T_IRQ0 + IRQ_COM1 then Some uartintr
  else if trapno =? T_IRQ0 + 7 then Some (ret tt)
  else if trapno =? T_IRQ0 + IRQ_SPURIOUS then Some (ret tt)
  else None.

(** [if(myproc() && myproc()->killed && (tf->cs&3) == DPL_USER) exit();] *)
Definition exit_if_killed (tf : trapframe) : M (kern S) unit :=
  cur ← gets k_cur;
  match cur with
  | None => ret tt
  | Some i => p ← kproc_of i; whenM (p_killed p && (Z.land (tf_cs tf) 3 =? DPL_USER)) (exit kend)
  end.

Definition trap (cpuid : Z) (tf : trapframe) : M (kern S) unit :=
  if tf_trapno tf =? T_SYSCALL then
    cur ← myproc;
    p ← kproc_of cur;
    whenM (p_killed p) (exit kend) ;;
    modify (kupd cur (pset_tf tf)) ;;
    syscall ;;
    p ← kproc_of cur;
    whenM (p_killed p) (exit kend)
  else
    (match interrupt cpuid (tf_trapno tf) with
     | Some handler => handler
     | None =>
         cur ← gets k_cur;
         match cur with
         | Some i =>
             if Z.land (tf_cs tf) 3 =? 0 then panic "trap"
             else modify (kupd i (pset_killed true))
         | None => panic "trap"
         end
     end) ;;
    exit_if_killed tf ;;
    cur ← gets k_cur;
    (match cur with
     | Some i =>
         p ← kproc_of i;
         whenM (bool_decide (p_state p = RUNNING) && (tf_trapno tf =? T_IRQ0 + IRQ_TIMER)) yield
     | None => ret tt
     end) ;;
    exit_if_killed tf.
End trap.
