(* ===== verification/Format.v ===== *)
(** * Numbers and arguments of formatted output (console.c, printf.c)

    What the two [printint] routines print, as the list of its characters, and
    the arguments of a format.  [atoi] reads back what they print. *)

From Stdlib Require Import Strings.Ascii.
From S2P Require Import Prelude Words CString.

(** A C string literal, without its NUL. *)
Fixpoint lit (s : string) : list Z :=
  match s with
  | EmptyString => []
  | String c s' => Z.of_N (N_of_ascii c) :: lit s'
  end.
Definition lf : list Z := [10].

(** [do buf[i++] = digits[x % base]; while((x /= base) != 0)], last digit first. *)
Fixpoint digits_of (fuel : nat) (digits : list Z) (base x : Z) : list Z :=
  match fuel with
  | O => []
  | S f =>
      digits !!! Z.to_nat (x mod base) ::
      (if x / base =? 0 then [] else digits_of f digits base (x / base))
  end.

(** The characters [printint(xx, base, sgn)] prints; at most 32 digits. *)
Definition int_chars (digits : list Z) (xx base : Z) (sgn : bool) : list Z :=
  let neg := sgn && (xx <? 0) in
  let x := if neg then u32 (- xx) else u32 xx in
  rev (digits_of 32 digits base x ++ (if neg then [45] else [])).

(** An argument of [cprintf] or [printf]: a word, or a pointer to a string. *)
Inductive parg := PInt (x : Z) | PStr (s : option (list Z)).
Definition null_str : list Z := [40; 110; 117; 108; 108; 41].
Definition str_of (a : parg) : list Z := match a with PStr (Some s) => s | PStr None => null_str | PInt _ => [] end.

(** ** [atoi] reads the decimal digits *)

Definition add_digit (n c : Z) : Z := i32 (n * 10 + c - 48).

(** On the bytes of a string of digits. *)
Lemma atoi_from_digits l : ∀ fuel p n, (length l < fuel)%nat → (∀ i, p i = ptr_of l i) →
  Forall (λ c, 48 ≤ c ≤ 57) l → atoi_from fuel p n = Some (fold_left add_digit l n).
Proof.
  induction l as [|c l IH]; intros [|fuel] p n Hf Hp Hl; simpl in *; try lia; rewrite Hp; [done|].
  inversion Hl; subst. unfold ptr_of at 1 2 3. simpl. rewrite (proj2 (Z.leb_le _ _)), (proj2 (Z.leb_le _ _)) by lia. simpl.
  apply IH; [lia| |done]. intros i. unfold shift. by rewrite Hp.
Qed.

Lemma fold_digits f : ∀ x digits, (∀ d, 0 ≤ d < 10 → digits !!! Z.to_nat d = 48 + d) → (0 < f)%nat → 0 ≤ x < 10 ^ Z.of_nat f → x < 2 ^ 31 →
  fold_left add_digit (rev (digits_of f digits 10 x)) 0 = x ∧ Forall (λ c, 48 ≤ c ≤ 57) (digits_of f digits 10 x).
Proof.
  induction f as [|f IH]; intros x digits Hd Hf Hx Hm; [lia|]. cbn [digits_of rev]. rewrite fold_left_app.
  pose proof (Z.mod_pos_bound x 10 ltac:(done)) as Hr. pose proof (Z.div_mod x 10 ltac:(done)) as Hdm. rewrite (Hd _ Hr).
  assert (Hq : fold_left add_digit (rev (if x / 10 =? 0 then [] else digits_of f digits 10 (x / 10))) 0 = x / 10 ∧
    Forall (λ c, 48 ≤ c ≤ 57) (if x / 10 =? 0 then [] else digits_of f digits 10 (x / 10))).
  { destruct (x / 10 =? 0) eqn:E; [split; [simpl; lia|by constructor]|]. rewrite Nat2Z.inj_succ, Z.pow_succ_r in Hx by lia.
    apply Z.eqb_neq in E. apply IH; [done| |split; [apply Z.div_pos; lia|apply Z.div_lt_upper_bound; lia]|lia].
    destruct f; [|lia]. simpl in Hx. exfalso. apply E. apply Z.div_small. lia. }
  destruct Hq as [Hq Hq']. split; [|constructor; [lia|done]]. rewrite Hq. cbn [fold_left]. unfold add_digit.
  rewrite i32_id; [lia|]. unfold is_i32. lia.
Qed.

Lemma length_digits f digits base x : (length (digits_of f digits base x) ≤ f)%nat.
Proof.
  revert x. induction f as [|f IH]; intros x; simpl; [lia|]. destruct (x / base =? 0); simpl; [lia|]. specialize (IH (x / base)). lia.
Qed.

(** The decimal form of a number that is not negative. *)
Lemma atoi_int_chars digits n : (∀ d, 0 ≤ d < 10 → digits !!! Z.to_nat d = 48 + d) → 0 ≤ n < 2 ^ 31 →
  atoi 33 (ptr_of (int_chars digits n 10 true)) = Some n.
Proof.
  intros Hd Hn. unfold int_chars. rewrite (proj2 (Z.ltb_ge n 0)) by lia. cbn [andb]. rewrite app_nil_r, u32_id by (unfold is_u32; lia).
  destruct (fold_digits 32 n digits Hd ltac:(lia) ltac:(split; [lia|]; apply Z.lt_trans with (2 ^ 31); [lia|done]) ltac:(lia)) as [E Hall].
  unfold atoi. rewrite (atoi_from_digits (rev (digits_of 32 digits 10 n))); [by rewrite E| |done|].
  - rewrite length_rev. pose proof (length_digits 32 digits 10 n). lia.
  - apply Forall_rev. exact Hall.
Qed.

(** A number prints as at most 11 characters in base 10, [printint]'s buffer has 16. *)
Lemma digits_bound f : ∀ digits base x k, 2 ≤ base → 0 ≤ x < base ^ Z.of_nat k → (0 < k)%nat → (length (digits_of f digits base x) ≤ k)%nat.
Proof.
  induction f as [|f IH]; intros digits base x k Hb Hx Hk; simpl; [lia|]. destruct (x / base =? 0) eqn:E; simpl; [lia|].
  destruct k as [|k]; [lia|]. rewrite Nat2Z.inj_succ, Z.pow_succ_r in Hx by lia. apply le_n_S. apply Z.eqb_neq in E.
  destruct k as [|k]; [simpl in Hx; exfalso; apply E, Z.div_small; lia|].
  apply IH; [done| |lia]. split; [apply Z.div_pos; lia|apply Z.div_lt_upper_bound; lia].
Qed.

Lemma int_chars_fit digits xx base sgn : base = 10 ∨ base = 16 → (length (int_chars digits xx base sgn) ≤ 11)%nat.
Proof.
  intros Hb. unfold int_chars. rewrite length_rev, length_app.
  set (x := if sgn && (xx <? 0) then u32 (- xx) else u32 xx).
  assert (Hx : is_u32 x) by (unfold x; destruct (_ && _); apply u32_range).
  assert (length (digits_of 32 digits base x) ≤ 10)%nat.
  { unfold is_u32 in Hx. apply digits_bound; [lia| |lia]. destruct Hb as [-> | ->]; (split; [lia|]); eapply Z.lt_trans; try apply Hx; done. }
  destruct (sgn && (xx <? 0)); cbn [length]; lia.
Qed.
