(* ===== verification/Console.v ===== *)
(** * The console (console.c)

    The screen as a grid of cells with a cursor, the serial line as the list of
    characters sent, and the keyboard input as the ring buffer of console.c with
    its read, write and edit indices.  [consoleread] is one critical section of
    the loop, entered again when the process wakes up; the inode lock that
    [consoleread] and [consolewrite] give up meanwhile belongs to the caller's
    layer.  Key presses arrive as the list of characters [getc] delivers. *)

From S2P Require Import Prelude Words Params Locks Format.

(** ** State *)

Record cga := Cga { cg_pos : Z; cg_crt : list Z }.
Record input := Input {
  in_buf : list Z;
  in_r : Z;   (* read index *)
  in_w : Z;   (* write index *)
  in_e : Z    (* edit index *)
}.
Record cons := Cons {
  cn_lock : bool;
  cn_locking : bool;
  cn_panicked : bool;
  cn_uart : list Z;      (* characters sent to the serial line *)
  cn_cga : cga;
  cn_in : input;
  cn_woken : bool        (* wakeup(&input.r) was called *)
}.

Definition with_clock v c := Cons v (cn_locking c) (cn_panicked c) (cn_uart c) (cn_cga c) (cn_in c) (cn_woken c).
Definition with_locking v c := Cons (cn_lock c) v (cn_panicked c) (cn_uart c) (cn_cga c) (cn_in c) (cn_woken c).
Definition with_uart v c := Cons (cn_lock c) (cn_locking c) (cn_panicked c) v (cn_cga c) (cn_in c) (cn_woken c).
Definition with_cga v c := Cons (cn_lock c) (cn_locking c) (cn_panicked c) (cn_uart c) v (cn_in c) (cn_woken c).
Definition with_in v c := Cons (cn_lock c) (cn_locking c) (cn_panicked c) (cn_uart c) (cn_cga c) v (cn_woken c).
Definition with_woken v c := Cons (cn_lock c) (cn_locking c) (cn_panicked c) (cn_uart c) (cn_cga c) (cn_in c) v.

Definition c_acquire : M cons unit := zoom cn_lock with_clock spin_acquire.
Definition c_release : M cons unit := zoom cn_lock with_clock spin_release.

(** ** The screen *)

Definition BACKSPACE : Z := 256.
Definition COLS : Z := 80.
(** Cells of the screen memory: 25 rows. *)
Definition NCELLS : Z := 25 * COLS.

Definition store_cell (pos v : Z) : M cga unit := λ g,
  if (0 <=? pos) && (pos <? NCELLS) then Ok tt (Cga (cg_pos g) (<[Z.to_nat pos := v]> (cg_crt g))) else Fault.

(** [memmove(crt, crt+80, sizeof(crt[0])*23*80)] and the [memset] of the rest. *)
Definition scroll (pos : Z) (crt : list Z) : list Z :=
  let crt := take (Z.to_nat (23 * COLS)) (drop (Z.to_nat COLS) crt) ++ drop (Z.to_nat (23 * COLS)) crt in
  take (Z.to_nat pos) crt ++ replicate (Z.to_nat (24 * COLS - pos)) 0 ++ drop (Z.to_nat (24 * COLS)) crt.

Definition cgaputc (c : Z) : M cga unit :=
  pos ← gets cg_pos;
  pos ← (if c =? 10 then ret (pos + (COLS - pos mod COLS))
         else if c =? BACKSPACE then ret (if 0 <? pos then pos - 1 else pos)
         else store_cell pos (Z.lor (Z.land c 255) 1792) ;; ret (pos + 1));
  if (pos <? 0) || (25 * COLS <? pos) then panic "pos under/overflow" else
  pos ← (if 24 <=? pos / COLS then
           modify (λ g, Cga (cg_pos g) (scroll (pos - COLS) (cg_crt g))) ;; ret (pos - COLS)
         else ret pos);
  modify (λ g, Cga (pos mod 65536) (cg_crt g)) ;;
  store_cell pos (Z.lor 32 1792).

Definition uartputc (c : Z) : M cons unit := modify (λ s, with_uart (cn_uart s ++ [c]) s).

(** A processor that finds another one panicked stops for good. *)
Definition consputc (c : Z) : M cons unit :=
  p ← gets cn_panicked;
  if p : bool then panic "frozen" else
  (if c =? BACKSPACE then uartputc 8 ;; uartputc 32 ;; uartputc 8 else uartputc c) ;;
  zoom cn_cga with_cga (cgaputc c).

(** ** Input *)

Definition INPUT_BUF : Z := 128.
(** [C(x)] is [x - '@']. *)
Definition ctrl (x : Z) : Z := x - 64.
Definition ctrl_P : Z := ctrl 80.
Definition ctrl_U : Z := ctrl 85.
Definition ctrl_H : Z := ctrl 72.
Definition ctrl_D : Z := ctrl 68.

Definition in_at (i : input) (k : Z) : Z := in_buf i !!! Z.to_nat (k mod INPUT_BUF).
Definition set_e v i := Input (in_buf i) (in_r i) (in_w i) v.
Definition set_w v i := Input (in_buf i) (in_r i) v (in_e i).
Definition set_r v i := Input (in_buf i) v (in_w i) (in_e i).
Definition put_e c i := Input (<[Z.to_nat (in_e i mod INPUT_BUF) := c]> (in_buf i)) (in_r i) (in_w i) (u32 (in_e i + 1)).
Definition on_in (f : input → input) : M cons unit := modify (λ s, with_in (f (cn_in s)) s).

(** The loop of kill line: at most INPUT_BUF characters. *)
Fixpoint kill_line (fuel : nat) : M cons unit :=
  match fuel with
  | O => ret tt
  | S f =>
      i ← gets cn_in;
      if negb (in_e i =? in_w i) && negb (in_at i (u32 (in_e i - 1)) =? 10) then
        on_in (set_e (u32 (in_e i - 1))) ;;
        consputc BACKSPACE ;;
        kill_line f
      else ret tt
  end.

(** One character: whether a process listing was asked for. *)
Definition console_key (c : Z) : M cons bool :=
  i ← gets cn_in;
  if c =? ctrl_P then ret true
  else if c =? ctrl_U then kill_line (Z.to_nat INPUT_BUF) ;; ret false
  else if (c =? ctrl_H) || (c =? 127) then
    whenM (negb (in_e i =? in_w i)) (on_in (set_e (u32 (in_e i - 1))) ;; consputc BACKSPACE) ;;
    ret false
  else
    whenM (negb (c =? 0) && (u32 (in_e i - in_r i) <? INPUT_BUF))
      (let c := if c =? 13 then 10 else c in
       on_in (put_e (u8 c)) ;;
       consputc c ;;
       i ← gets cn_in;
       whenM ((c =? 10) || (c =? ctrl_D) || (in_e i =? u32 (in_r i + INPUT_BUF)))
         (on_in (set_w (in_e i)) ;; modify (with_woken true))) ;;
    ret false.

Fixpoint console_keys (keys : list Z) (dump : bool) : M cons bool :=
  match keys with
  | [] => ret dump
  | c :: keys' => d ← console_key c; console_keys keys' (dump || d)
  end.

(** [consoleintr(getc)] with the characters [getc] returns before it returns a
    negative number; whether it goes on to [procdump]. *)
Definition consoleintr (keys : list Z) : M cons bool :=
  c_acquire ;;
  d ← console_keys keys false;
  c_release ;;
  ret d.

(** A critical section of [consoleread] returns or goes to sleep with [n] bytes
    still wanted. *)
Inductive cres := CReturns (n : Z) | CSleeps (n : Z).

Fixpoint read_loop (fuel : nat) (killed : bool) (target n : Z) : M cons (cres * list Z) :=
  match fuel with
  | O => c_release ;; ret (CReturns (target - n), [])
  | S f =>
      i ← gets cn_in;
      if in_r i =? in_w i then
        if killed then c_release ;; ret (CReturns (-1), [])
        else c_release ;; ret (CSleeps n, [])
      else
        let c := in_at i (in_r i) in
        on_in (set_r (u32 (in_r i + 1))) ;;
        if c =? ctrl_D then
          whenM (n <? target) (on_in (set_r (u32 (u32 (in_r i + 1) - 1)))) ;;
          c_release ;;
          ret (CReturns (target - n), [])
        else if c =? 10 then c_release ;; ret (CReturns (target - (n - 1)), [c])
        else
          r ← read_loop f killed target (n - 1);
          ret (r.1, c :: r.2)
  end.

(** [consoleread] for the bytes still wanted, [n] of [target]: the outcome and
    the bytes stored at [dst]. *)
Definition consoleread (killed : bool) (target n : Z) : M cons (cres * list Z) :=
  c_acquire ;; read_loop (Z.to_nat n) killed target n.

Fixpoint put_chars (l : list Z) : M cons unit :=
  match l with
  | [] => ret tt
  | c :: l' => consputc c ;; put_chars l'
  end.

(** [consolewrite(ip, buf, n)] with the [n] bytes at [buf]. *)
Definition consolewrite (buf : list Z) : M cons Z :=
  c_acquire ;; put_chars ((λ c, Z.land c 255) <$> buf) ;; c_release ;; ret (Z.of_nat (length buf)).

(** ** Printing numbers and formats *)

(** The digits of the kernel's [printint]. *)
Definition hexdigits : list Z := [48; 49; 50; 51; 52; 53; 54; 55; 56; 57; 97; 98; 99; 100; 101; 102].

Definition printint (xx base : Z) (sgn : bool) : M cons unit := put_chars (int_chars hexdigits xx base sgn).

(** The loop of [cprintf] over the format; an argument that is missing or of the
    wrong kind is undefined behaviour, a fault. *)
Fixpoint cprintf_from (fmt : list Z) (args : list parg) : M cons unit :=
  match fmt with
  | [] => ret tt
  | c :: fmt1 =>
      if negb (c =? 37) then consputc c ;; cprintf_from fmt1 args
      else
        match fmt1 with
        | [] => ret tt
        | c :: fmt' =>
            if (c =? 100) || (c =? 120) || (c =? 112) then
              match args with
              | PInt x :: args' =>
                  (if c =? 100 then printint (i32 x) 10 true else printint (i32 x) 16 false) ;;
                  cprintf_from fmt' args'
              | _ => fault
              end
            else if c =? 115 then
              match args with
              | PStr s :: args' => put_chars (str_of (PStr s)) ;; cprintf_from fmt' args'
              | _ => fault
              end
            else if c =? 37 then consputc 37 ;; cprintf_from fmt' args
            else consputc 37 ;; consputc c ;; cprintf_from fmt' args
        end
  end.

Definition cprintf (fmt : list Z) (args : list parg) : M cons unit :=
  locking ← gets cn_locking;
  whenM locking c_acquire ;;
  cprintf_from fmt args ;;
  whenM locking c_release.

(** ** The screen never overflows *)

Record cga_ok (g : cga) : Prop := {
  go_pos : 0 ≤ cg_pos g < 24 * COLS;
  go_len : length (cg_crt g) = Z.to_nat NCELLS
}.

Lemma wp_store_cell g pos v (Q : unit → cga → Prop) : 0 ≤ pos < NCELLS →
  Q tt (Cga (cg_pos g) (<[Z.to_nat pos := v]> (cg_crt g))) → wp (store_cell pos v) Q g.
Proof.
  intros Hp HQ. unfold wp, store_cell. rewrite (proj2 (Z.leb_le _ _)), (proj2 (Z.ltb_lt _ _)) by lia. exact HQ.
Qed.

Lemma length_scroll pos crt : 0 ≤ pos ≤ 24 * COLS → length crt = Z.to_nat NCELLS → length (scroll pos crt) = Z.to_nat NCELLS.
Proof.
  intros Hp Hl. unfold scroll. rewrite !length_app, !length_take, !length_drop, length_replicate, !length_app, !length_take, !length_drop, Hl.
  unfold NCELLS, COLS in *. lia.
Qed.

(** The end of [cgaputc]: scroll if needed, then move and show the cursor. *)
Definition cga_end (pos : Z) (crt : list Z) : cga :=
  let '(pos, crt) := if 24 <=? pos / COLS then (pos - COLS, scroll (pos - COLS) crt) else (pos, crt) in
  Cga pos (<[Z.to_nat pos := Z.lor 32 1792]> crt).

(** The cursor and the cells after the character, before scrolling. *)
Definition cga_put (c : Z) (g : cga) : Z * list Z :=
  if c =? 10 then (cg_pos g + (COLS - cg_pos g mod COLS), cg_crt g)
  else if c =? BACKSPACE then (Z.max 0 (cg_pos g - 1), cg_crt g)
  else (cg_pos g + 1, <[Z.to_nat (cg_pos g) := Z.lor (Z.land c 255) 1792]> (cg_crt g)).

Lemma cga_put_range c g : cga_ok g → 0 ≤ (cga_put c g).1 ≤ 24 * COLS ∧ length (cga_put c g).2 = Z.to_nat NCELLS.
Proof.
  intros [Hp Hl]. unfold cga_put. pose proof (Z.mod_pos_bound (cg_pos g) COLS ltac:(done)).
  pose proof (Z.div_mod (cg_pos g) COLS ltac:(done)) as Hd. destruct (c =? 10); [|destruct (c =? BACKSPACE)]; simpl.
  - split; [|done]. unfold COLS in *. assert (cg_pos g / 80 < 24) by (apply Z.div_lt_upper_bound; lia). lia.
  - split; [lia|done].
  - split; [lia|by rewrite length_insert].
Qed.

Lemma wp_cgaputc c g (Q : unit → cga → Prop) :
  cga_ok g → Q tt (cga_end (cga_put c g).1 (cga_put c g).2) → wp (cgaputc c) Q g.
Proof.
  intros Hok HQ. pose proof (cga_put_range c g Hok) as [Hr Hlen]. destruct Hok as [Hp Hl]. unfold cgaputc. wp_step. wp_step. wp_step.
  assert (Hput : wp (if c =? 10 then ret (cg_pos g + (COLS - cg_pos g mod COLS))
         else if c =? BACKSPACE then ret (if 0 <? cg_pos g then cg_pos g - 1 else cg_pos g)
         else store_cell (cg_pos g) (Z.lor (Z.land c 255) 1792) ;; ret (cg_pos g + 1))
       (λ p g', p = (cga_put c g).1 ∧ g' = Cga (cg_pos g) (cga_put c g).2) g).
  { unfold cga_put. destruct (c =? 10); [wp_step; by destruct g|]. destruct (c =? BACKSPACE).
    - wp_step. split; [|by destruct g]. simpl. destruct (0 <? cg_pos g) eqn:E; lia.
    - wp_step. apply wp_store_cell; [unfold NCELLS, COLS in *; lia|]. by wp_step. }
  eapply wp_mono; [exact Hput|]. intros p g' [-> ->]. clear Hput. destruct (cga_put c g) as [p crt]. cbn [fst snd] in *.
  rewrite (proj2 (Z.ltb_ge p 0)), (proj2 (Z.ltb_ge (25 * COLS) p)) by (unfold COLS in *; lia). cbn [orb]. wp_step.
  unfold cga_end in HQ. destruct (24 <=? p / COLS) eqn:E.
  - assert (Ep : p = 24 * COLS).
    { apply Z.leb_le in E. unfold COLS in *. pose proof (Z.div_mod p 80 ltac:(done)). pose proof (Z.mod_pos_bound p 80 ltac:(done)). lia. }
    wp_step. wp_step. wp_step. wp_step. wp_step. apply wp_store_cell; [subst; done|]. subst p. exact HQ.
  - assert (Hlt : p < 24 * COLS).
    { apply Z.leb_gt in E. unfold COLS in *. pose proof (Z.div_mod p 80 ltac:(done)). pose proof (Z.mod_pos_bound p 80 ltac:(done)). lia. }
    wp_step. wp_step. wp_step. apply wp_store_cell; [unfold NCELLS, COLS in *; lia|]. cbn [cg_pos cg_crt].
    rewrite Z.mod_small by (unfold COLS in *; lia). exact HQ.
Qed.

Lemma cga_end_ok p crt : 0 ≤ p ≤ 24 * COLS → length crt = Z.to_nat NCELLS → cga_ok (cga_end p crt).
Proof.
  intros Hp Hl. unfold cga_end. pose proof (Z.div_mod p COLS ltac:(done)). pose proof (Z.mod_pos_bound p COLS ltac:(done)).
  destruct (24 <=? p / COLS) eqn:E; split; cbn [cg_pos cg_crt]; rewrite ?length_insert; unfold COLS in *; try lia; try done.
  apply length_scroll; unfold COLS; [lia|done].
Qed.
