(* ===== verification/ConsoleSpec.v ===== *)
(** * The console as a line editor

    The ring buffer of console.c refines a line editor: the finished lines that
    wait for a reader and the line being edited.  [consoleintr] performs the
    editing keys on it, [consoleread] takes characters out up to the end of a
    line or an end of file. *)

From S2P Require Import Prelude Words Params Locks Console.

(** ** The abstract editor *)

Record editor := Editor { ed_ready : list Z; ed_line : list Z }.

(** Finish the line being edited. *)
Definition finish (ed : editor) : editor := Editor (ed_ready ed ++ ed_line ed) [].

Definition ed_type (c : Z) (ed : editor) : editor :=
  let ed' := Editor (ed_ready ed) (ed_line ed ++ [c]) in
  if (c =? 10) || (c =? ctrl_D) || (Z.of_nat (length (ed_ready ed' ++ ed_line ed')) =? INPUT_BUF) then finish ed' else ed'.

Definition ed_key (ed : editor) (c : Z) : editor :=
  if c =? ctrl_P then ed
  else if c =? ctrl_U then Editor (ed_ready ed) []
  else if (c =? ctrl_H) || (c =? 127) then Editor (ed_ready ed) (removelast (ed_line ed))
  else if negb (c =? 0) && (Z.of_nat (length (ed_ready ed ++ ed_line ed)) <? INPUT_BUF)
  then ed_type (if c =? 13 then 10 else c) ed
  else ed.

(** A line being edited has no newline. *)
Definition ed_ok (ed : editor) : Prop := Forall (λ c, c ≠ 10) (ed_line ed).

Lemma ed_key_ok ed c : ed_ok ed → ed_ok (ed_key ed c).
Proof.
  unfold ed_ok, ed_key. intros H. destruct (c =? ctrl_P); [done|]. destruct (c =? ctrl_U); [by constructor|].
  destruct ((c =? ctrl_H) || (c =? 127)).
  { simpl. destruct (ed_line ed) as [|x l] eqn:E using rev_ind; [by constructor|]. rewrite removelast_last. by apply Forall_app in H as []. }
  destruct (_ && _); [|done]. unfold ed_type. simpl. set (d := if c =? 13 then 10 else c).
  destruct (d =? 10) eqn:E; simpl; [by constructor|]. destruct (_ || _); [by constructor|]. simpl. apply Forall_app; split; [done|].
  constructor; [lia|done].
Qed.

(** What a read of [n] more of [target] characters finds in [l]: the outcome, the
    characters delivered and what stays. *)
Fixpoint ed_read (n : nat) (killed : bool) (target : Z) (l : list Z) : cres * list Z * list Z :=
  match n with
  | O => (CReturns target, [], l)
  | S n' =>
      match l with
      | [] => (if killed then CReturns (-1) else CSleeps (Z.of_nat n), [], [])
      | c :: l' =>
          if c =? ctrl_D then (CReturns (target - Z.of_nat n), [], if Z.of_nat n <? target then l else l')
          else if c =? 10 then (CReturns (target - Z.of_nat n'), [c], l')
          else let '(r, bytes, rest) := ed_read n' killed target l' in (r, c :: bytes, rest)
      end
  end.

(** ** The ring buffer as lists *)

(** [n] characters from index [a] on. *)
Definition ring (buf : list Z) (a : Z) (n : nat) : list Z :=
  (λ k, buf !!! Z.to_nat ((a + Z.of_nat k) mod INPUT_BUF)) <$> seq 0 n.

(** The buffer and its indices hold the editor's two lists, one after the other. *)
Record repr (i : input) (ed : editor) : Prop := {
  re_buf : length (in_buf i) = Z.to_nat INPUT_BUF;
  re_r : is_u32 (in_r i);
  re_w : in_w i = u32 (in_r i + Z.of_nat (length (ed_ready ed)));
  re_e : in_e i = u32 (in_r i + Z.of_nat (length (ed_ready ed ++ ed_line ed)));
  re_fits : Z.of_nat (length (ed_ready ed ++ ed_line ed)) ≤ INPUT_BUF;
  re_ring : ring (in_buf i) (in_r i) (length (ed_ready ed ++ ed_line ed)) = ed_ready ed ++ ed_line ed
}.

Lemma length_ring buf a n : length (ring buf a n) = n.
Proof. unfold ring. by rewrite length_fmap, length_seq. Qed.

Lemma ring_app buf a n m : ring buf a (n + m) = ring buf a n ++ ring buf (a + Z.of_nat n) m.
Proof.
  unfold ring. rewrite seq_app, fmap_app. f_equal. rewrite <- (Nat.add_0_r (0 + n)), <- fmap_add_seq, <- list_fmap_compose.
  apply list_fmap_ext. intros k x _. simpl. do 3 f_equal. lia.
Qed.

Lemma mod_u32 a : u32 a mod INPUT_BUF = a mod INPUT_BUF.
Proof. unfold u32, INPUT_BUF. symmetry. apply Znumtheory.Zmod_div_mod; [done|done|by exists 33554432]. Qed.

Lemma ring_start buf a n : ring buf (u32 a) n = ring buf a n.
Proof.
  unfold ring. apply list_fmap_ext. intros k x _. do 2 f_equal.
  rewrite <- (Z.add_mod_idemp_l (u32 a)), mod_u32, Z.add_mod_idemp_l by done. done.
Qed.

Lemma ring_S buf a n : ring buf a (S n) = buf !!! Z.to_nat (a mod INPUT_BUF) :: ring buf (a + 1) n.
Proof. pose proof (ring_app buf a 1 n) as E. simpl in E. rewrite E. unfold ring at 1. simpl. by rewrite Z.add_0_r. Qed.

(** Storing behind a piece of the ring that leaves room. *)
Lemma ring_insert buf a n c : (Z.of_nat n < INPUT_BUF) →
  ring (<[Z.to_nat ((a + Z.of_nat n) mod INPUT_BUF) := c]> buf) a n = ring buf a n.
Proof.
  intros Hn. unfold ring. apply list_fmap_ext. intros k x Hk. apply lookup_seq in Hk as [-> Hk]. simpl.
  apply list_lookup_total_insert_ne. intros E. apply Z2Nat.inj in E; [|by apply Z.mod_pos_bound..].
  unfold INPUT_BUF in *. pose proof (Z.div_mod (a + Z.of_nat n) 128 ltac:(done)). pose proof (Z.div_mod (a + Z.of_nat k) 128 ltac:(done)). lia.
Qed.

(** ** Indices *)

Lemma u32_off_eq a m n : 0 ≤ m < 2 ^ 32 → 0 ≤ n < 2 ^ 32 → (u32 (a + m) =? u32 (a + n)) = (m =? n).
Proof.
  intros Hm Hn. destruct (Z.eqb_spec m n) as [->|Hne]; [by apply Z.eqb_eq|]. apply Z.eqb_neq. intros E. apply Hne.
  assert (E' : u32 (u32 (a + m) - a) = u32 (u32 (a + n) - a)) by by rewrite E.
  rewrite !u32_sub_idemp_l in E'. replace (a + m - a) with m in E' by lia. replace (a + n - a) with n in E' by lia.
  by rewrite !u32_id in E'.
Qed.

Lemma u32_pred a n : u32 (u32 (a + n) - 1) = u32 (a + (n - 1)).
Proof. rewrite u32_sub_idemp_l. f_equal. lia. Qed.

Lemma u32_succ a n : u32 (u32 (a + n) + 1) = u32 (a + (n + 1)).
Proof. rewrite u32_add_idemp_l. f_equal. lia. Qed.

Section indices.
Context (i : input) (ed : editor) (Hr : repr i ed).

Lemma repr_len : 0 ≤ Z.of_nat (length (ed_ready ed ++ ed_line ed)) ≤ 128.
Proof. destruct Hr. unfold INPUT_BUF in *. lia. Qed.

Lemma repr_empty_line : (in_e i =? in_w i) = (length (ed_line ed) =? 0)%nat.
Proof.
  pose proof repr_len as Hl. rewrite (re_e _ _ Hr), (re_w _ _ Hr). rewrite length_app in *. rewrite u32_off_eq by lia.
  apply eq_true_iff_eq. rewrite Z.eqb_eq, Nat.eqb_eq. lia.
Qed.

Lemma repr_empty_ready : (in_r i =? in_w i) = (length (ed_ready ed) =? 0)%nat.
Proof.
  pose proof repr_len as Hl. rewrite (re_w _ _ Hr). rewrite length_app in Hl.
  rewrite <- (u32_id (in_r i)) at 1 by apply (re_r _ _ Hr). rewrite <- (Z.add_0_r (in_r i)) at 1. rewrite u32_off_eq by lia.
  apply eq_true_iff_eq. rewrite Z.eqb_eq, Nat.eqb_eq. lia.
Qed.

Lemma repr_room : u32 (in_e i - in_r i) = Z.of_nat (length (ed_ready ed ++ ed_line ed)).
Proof.
  pose proof repr_len. rewrite (re_e _ _ Hr), u32_sub_idemp_l.
  match goal with |- u32 (?a + ?b - ?a) = _ => replace (a + b - a) with b by lia end. apply u32_id. unfold is_u32. lia.
Qed.

Lemma repr_full : (in_e i =? u32 (in_r i + INPUT_BUF)) = (Z.of_nat (length (ed_ready ed ++ ed_line ed)) =? INPUT_BUF).
Proof. pose proof repr_len. rewrite (re_e _ _ Hr). apply u32_off_eq; [lia|done]. Qed.

(** The character at offset [k] of what the buffer holds. *)
Lemma repr_at k c : (ed_ready ed ++ ed_line ed) !! k = Some c → in_at i (u32 (in_r i + Z.of_nat k)) = c.
Proof.
  intros Hk. pose proof (lookup_lt_Some _ _ _ Hk) as Hlt. rewrite <- (re_ring _ _ Hr) in Hk. unfold ring in Hk.
  rewrite list_lookup_fmap, lookup_seq_lt in Hk by done. simpl in Hk. injection Hk as <-. unfold in_at. by rewrite mod_u32.
Qed.

End indices.

(** ** Moving the indices *)

Section moves.
Context (i : input) (ed : editor) (Hr : repr i ed).

Lemma repr_drop_last : ed_line ed ≠ [] →
  repr (set_e (u32 (in_e i - 1)) i) (Editor (ed_ready ed) (removelast (ed_line ed))).
Proof.
  intros Hne. destruct (exists_last Hne) as (l & c & E). destruct Hr as [Hb Hr0 Hw He Hf Hg]. rewrite E in *.
  rewrite removelast_last. rewrite app_assoc in *. rewrite length_app in *. simpl length in *. split; cbn [set_e in_buf in_r in_w in_e ed_ready ed_line]; try done.
  - rewrite He, u32_pred. f_equal. rewrite ?length_app; simpl; lia.
  - lia.
  - rewrite ring_app in Hg. apply app_inj_1 in Hg as [Hg _]; [done|apply length_ring].
Qed.

Lemma repr_put c : (Z.of_nat (length (ed_ready ed ++ ed_line ed)) < INPUT_BUF) →
  repr (put_e c i) (Editor (ed_ready ed) (ed_line ed ++ [c])).
Proof.
  intros Hlt. destruct Hr as [Hb Hr0 Hw He Hf Hg]. split; cbn [put_e in_buf in_r in_w in_e ed_ready ed_line]; rewrite ?app_assoc, ?length_insert; try done.
  - rewrite He, u32_succ, length_app. simpl. f_equal. rewrite ?length_app; simpl; lia.
  - rewrite length_app. simpl. unfold INPUT_BUF in *. lia.
  - rewrite length_app. simpl. rewrite ring_app, He, mod_u32, ring_insert, Hg by done. f_equal. rewrite ring_S. f_equal.
    apply list_lookup_total_insert_eq. rewrite Hb. apply Z2Nat.inj_lt; try done; by apply Z.mod_pos_bound.
Qed.

Lemma repr_finish : repr (set_w (in_e i) i) (finish ed).
Proof.
  destruct Hr as [Hb Hr0 Hw He Hf Hg]. split; cbn [set_w in_buf in_r in_w in_e finish ed_ready ed_line]; rewrite ?app_nil_r; done.
Qed.

Lemma repr_take c l : ed_ready ed = c :: l → repr (set_r (u32 (in_r i + 1)) i) (Editor l (ed_line ed)).
Proof.
  intros E. destruct Hr as [Hb Hr0 Hw He Hf Hg]. rewrite E in *. simpl app in *. simpl length in *.
  split; cbn [set_r in_buf in_r in_w in_e ed_ready ed_line]; try done.
  - apply u32_range.
  - rewrite Hw, u32_add_idemp_l. f_equal. lia.
  - rewrite He, u32_add_idemp_l. f_equal. lia.
  - lia.
  - rewrite ring_S in Hg. injection Hg as _ Hg. by rewrite ring_start.
Qed.

End moves.

(** ** Keys *)

Definition screen_ok (s : cons) : Prop := cn_panicked s = false ∧ cga_ok (cn_cga s).

Lemma wp_consputc c s (Q : unit → cons → Prop) : screen_ok s →
  (∀ s', screen_ok s' → cn_lock s' = cn_lock s → cn_in s' = cn_in s → cn_woken s' = cn_woken s → Q tt s') →
  wp (consputc c) Q s.
Proof.
  intros [Hp Hg] HQ. unfold consputc. wp_step. wp_step. rewrite Hp. wp_step.
  assert (Hu : wp (if c =? BACKSPACE then uartputc 8 ;; uartputc 32 ;; uartputc 8 else uartputc c) (λ _ s', ∃ u, s' = with_uart u s) s)
    by (unfold uartputc; destruct (c =? BACKSPACE); wp_steps; by eexists).
  eapply wp_mono; [exact Hu|]. intros [] s1 [u ->]. apply wp_zoom, wp_cgaputc; [done|]. pose proof (cga_put_range c _ Hg) as [Hr Hl].
  apply HQ; try done. split; [done|]. by apply cga_end_ok.
Qed.

Section keys.
Context (r0 : list Z).

(** The editor a console holds, with the lock held; readers that slept when the
    finished characters were [r0] have been woken if there are more. *)
Record sim (ed : editor) (s : cons) : Prop := {
  si_screen : screen_ok s;
  si_lock : cn_lock s = true;
  si_repr : repr (cn_in s) ed;
  si_ok : ed_ok ed;
  si_woken : ed_ready ed = r0 ∨ cn_woken s = true
}.

Lemma sim_put ed s s' : sim ed s → screen_ok s' → cn_lock s' = cn_lock s → cn_woken s' = cn_woken s →
  ∀ ed', repr (cn_in s') ed' → ed_ok ed' → ed_ready ed' = ed_ready ed → sim ed' s'.
Proof. intros [] ? El Ew ed' ? ? Er. split; [done|congruence|done|done|]. by rewrite Er, Ew. Qed.

(** Erasing the last character of a line. *)
Lemma wp_erase ed s (Q : unit → cons → Prop) : sim ed s → ed_line ed ≠ [] →
  (∀ s', sim (Editor (ed_ready ed) (removelast (ed_line ed))) s' → Q tt s') →
  wp (on_in (set_e (u32 (in_e (cn_in s) - 1))) ;; consputc BACKSPACE) Q s.
Proof.
  intros Hs Hne HQ. unfold on_in. wp_steps. apply wp_consputc; [apply Hs|]. cbn. intros s' Hsc El Ei Ew. apply HQ.
  eapply sim_put; try done. - rewrite Ei. apply repr_drop_last; [apply Hs|done].
  - pose proof (si_ok _ _ Hs) as Ho. unfold ed_ok in *. simpl. destruct (exists_last Hne) as (l & c & E). rewrite E in *.
    rewrite removelast_last. by apply Forall_app in Ho as [].
Qed.

(** Kill line erases all of it: there is no newline to stop at. *)
Lemma wp_kill_line fuel : ∀ ed s (Q : unit → cons → Prop), sim ed s → (length (ed_line ed) ≤ fuel)%nat →
  (∀ s', sim (Editor (ed_ready ed) []) s' → Q tt s') → wp (kill_line fuel) Q s.
Proof.
  induction fuel as [|f IH]; intros ed s Q Hs Hf HQ; simpl.
  { wp_step. apply HQ. destruct ed as [rd [|]]; [done|simpl in Hf; lia]. }
  wp_step. wp_step. rewrite (repr_empty_line _ _ (si_repr _ _ Hs)). destruct (ed_line ed) as [|x l] eqn:El.
  { simpl. wp_step. apply HQ. destruct ed as [rd li]. simpl in El. by subst. }
  assert (Hne : ed_line ed ≠ []) by by rewrite El. destruct (exists_last Hne) as (l' & c & E).
  assert (Hc : in_at (cn_in s) (u32 (in_e (cn_in s) - 1)) = c).
  { rewrite (re_e _ _ (si_repr _ _ Hs)), u32_pred. rewrite E, app_assoc, length_app. simpl.
    replace (Z.of_nat (length (ed_ready ed ++ l') + 1) - 1) with (Z.of_nat (length (ed_ready ed ++ l'))) by lia.
    apply (repr_at _ ed (si_repr _ _ Hs)). rewrite E, app_assoc. by apply list_lookup_middle. }
  rewrite Hc. assert (c ≠ 10) as Hc10. { pose proof (si_ok _ _ Hs) as Ho. unfold ed_ok in Ho. rewrite E, Forall_app, Forall_singleton in Ho. tauto. }
  rewrite (proj2 (Z.eqb_neq _ _) Hc10). simpl. eapply wp_eq; [symmetry; apply bind_assoc|]. wp_step. apply (wp_erase ed); [done|done|].
  intros s' Hs'. apply (IH _ _ _ Hs'); [|done]. simpl. rewrite E, removelast_last. rewrite <- El, E in Hf. rewrite length_app in Hf. simpl in Hf. lia.
Qed.

(** An ordinary key. *)
Lemma wp_type c ed s (Q : unit → cons → Prop) : sim ed s → is_byte c →
  Z.of_nat (length (ed_ready ed ++ ed_line ed)) < INPUT_BUF →
  (∀ s', sim (ed_type c ed) s' → Q tt s') →
  wp (on_in (put_e (u8 c)) ;; consputc c ;;
      i ← gets cn_in;
      whenM ((c =? 10) || (c =? ctrl_D) || (in_e i =? u32 (in_r i + INPUT_BUF)))
        (on_in (set_w (in_e i)) ;; modify (with_woken true))) Q s.
Proof.
  intros Hs Hb Hlt HQ. unfold on_in. wp_step. wp_step. wp_step. apply wp_consputc; [apply Hs|]. cbn. intros s' Hsc El Ei Ew.
  replace (u8 c) with c in Ei by (unfold u8, is_byte in *; by rewrite Z.mod_small).
  pose proof (repr_put _ _ (si_repr _ _ Hs) c Hlt) as Hput. rewrite <- Ei in Hput. wp_step. wp_step.
  rewrite (repr_full _ _ Hput). unfold ed_type in HQ. destruct (_ || _) eqn:Ef; simpl.
  - wp_steps. apply HQ. split; cbn; [done| |by apply repr_finish|by constructor|by right]. rewrite El. apply Hs.
  - apply wp_ret. apply HQ. eapply sim_put; try done. unfold ed_ok. simpl. apply Forall_app; split; [apply Hs|].
    apply orb_false_iff in Ef as [Ef _]. apply orb_false_iff in Ef as [Ef _]. constructor; [lia|done].
Qed.

Lemma wp_console_key c ed s (Q : bool → cons → Prop) : sim ed s → is_byte c →
  (∀ s', sim (ed_key ed c) s' → Q (c =? ctrl_P) s') → wp (console_key c) Q s.
Proof.
  intros Hs Hb HQ. unfold console_key, ed_key in *. wp_step. wp_step. destruct (c =? ctrl_P); [wp_step; by apply HQ|].
  destruct (c =? ctrl_U).
  { wp_step. apply (wp_kill_line _ ed); [done| |intros s' Hs'; wp_step; by apply HQ].
    pose proof (repr_len _ _ (si_repr _ _ Hs)) as Hl. rewrite length_app in Hl. unfold INPUT_BUF. lia. }
  destruct (_ || _).
  { wp_step. rewrite (repr_empty_line _ _ (si_repr _ _ Hs)). destruct (ed_line ed) as [|x l] eqn:El.
    - simpl. wp_step. wp_step. apply HQ. destruct ed as [rd li]. simpl in El. by subst.
    - simpl. apply (wp_erase ed); [done|by rewrite El|]. intros s' Hs'. wp_step. apply HQ. by rewrite El in Hs'. }
  wp_step. rewrite (repr_room _ _ (si_repr _ _ Hs)). destruct (_ && _) eqn:Ef; simpl.
  - apply andb_true_iff in Ef as [_ Hlt]. apply Z.ltb_lt in Hlt. apply (wp_type _ ed); [done| |done|intros s' Hs'; wp_step; by apply HQ].
    destruct (c =? 13); [by unfold is_byte|done].
  - wp_step. wp_step. by apply HQ.
Qed.

Lemma wp_console_keys keys : ∀ d ed s (Q : bool → cons → Prop), sim ed s → Forall is_byte keys →
  (∀ s', sim (fold_left ed_key keys ed) s' → Q (d || existsb (λ c, c =? ctrl_P) keys) s') → wp (console_keys keys d) Q s.
Proof.
  induction keys as [|c keys IH]; intros d ed s Q Hs Hb HQ; simpl in *.
  { wp_step. rewrite <- (orb_false_r d). by apply HQ. }
  inversion Hb; subst. wp_step. apply (wp_console_key c ed); [done|done|]. intros s' Hs'. apply (IH _ _ _ _ Hs'); [done|].
  intros s2 Hs2. rewrite <- orb_assoc. by apply HQ.
Qed.

End keys.

(** ** Reading *)

Lemma repr_head i ed c l : repr i ed → ed_ready ed = c :: l → in_at i (in_r i) = c.
Proof.
  intros Hr E. rewrite <- (u32_id (in_r i) (re_r _ _ Hr)), <- (Z.add_0_r (in_r i)). apply (repr_at i ed Hr 0). by rewrite E.
Qed.

Lemma wp_c_release s (Q : unit → cons → Prop) : cn_lock s = true → Q tt (with_clock false s) → wp c_release Q s.
Proof. intros El HQ. unfold c_release. apply wp_zoom. unfold wp, spin_release. by rewrite El. Qed.

Lemma wp_c_acquire s (Q : unit → cons → Prop) : cn_lock s = false → Q tt (with_clock true s) → wp c_acquire Q s.
Proof. intros El HQ. unfold c_acquire. apply wp_zoom. unfold wp, spin_acquire. by rewrite El. Qed.

(** What [consoleread] changes: the lock and the read index. *)
Definition read_post (ed : editor) (rest : list Z) (s s' : cons) : Prop :=
  cn_lock s' = false ∧ repr (cn_in s') (Editor rest (ed_line ed)) ∧ cn_cga s' = cn_cga s ∧ cn_panicked s' = cn_panicked s.

Lemma wp_read_loop n killed target : ∀ ed s, cn_lock s = true → repr (cn_in s) ed →
  wp (read_loop n killed target (Z.of_nat n)) (λ r s', ∃ rest, ed_read n killed target (ed_ready ed) = (r, rest) ∧ read_post ed rest s s') s.
Proof.
  induction n as [|n IH]; intros ed s El Hr; cbn [read_loop ed_read].
  { wp_step. apply wp_c_release; [done|]. wp_step. rewrite Z.sub_0_r. eexists. split; [done|]. destruct ed. by repeat split; try apply Hr. }
  wp_step. wp_step. rewrite (repr_empty_ready _ _ Hr). destruct (ed_ready ed) as [|c l] eqn:Er.
  { cbn [length Nat.eqb]. cbv iota. destruct ed as [rd li]. simpl in Er. subst rd.
    destruct killed; wp_step; (apply wp_c_release; [done|]); wp_step; eexists; split; try done. }
  cbn [length Nat.eqb]. cbv iota. rewrite (repr_head _ _ _ _ Hr Er). unfold on_in. wp_step. wp_step.
  pose proof (repr_take _ _ Hr c l Er) as Ht. destruct (c =? ctrl_D).
  { wp_step. destruct (Z.of_nat (S n) <? target); simpl; wp_steps; (apply wp_c_release; [done|]); wp_step; eexists; (split; [done|]).
    - split; [done|split; [|done]]. cbn. replace (u32 (u32 (in_r (cn_in s) + 1) - 1)) with (in_r (cn_in s)).
      + rewrite <- Er. by destruct ed, (cn_in s).
      + rewrite u32_pred. rewrite Z.add_0_r. symmetry. apply u32_id, (re_r _ _ Hr).
    - done. }
  replace (Z.of_nat (S n) - 1) with (Z.of_nat n) by lia. destruct (c =? 10).
  { wp_step. apply wp_c_release; [done|]. wp_step. by eexists. }
  wp_step. eapply wp_mono; [apply (IH (Editor l (ed_line ed)) (with_in (set_r (u32 (in_r (cn_in s) + 1)) (cn_in s)) s)); done|].
  intros [r bytes] s' (rest & E & Hp). simpl in E. wp_step. rewrite E. by eexists.
Qed.

(** ** The two entry points *)

Lemma wp_consoleintr keys ed s (Q : bool → cons → Prop) :
  screen_ok s → cn_lock s = false → repr (cn_in s) ed → ed_ok ed → Forall is_byte keys →
  (∀ s', let ed' := fold_left ed_key keys ed in
    screen_ok s' → cn_lock s' = false → repr (cn_in s') ed' → ed_ok ed' →
    ed_ready ed' = ed_ready ed ∨ cn_woken s' = true → Q (existsb (λ c, c =? ctrl_P) keys) s') →
  wp (consoleintr keys) Q s.
Proof.
  intros Hsc El Hr Ho Hb HQ. unfold consoleintr. wp_step. apply wp_c_acquire; [done|]. wp_step.
  apply (wp_console_keys (ed_ready ed) keys false ed); [by split; [..|left]|done|].
  intros s' [Hsc' El' Hr' Ho' Hw']. wp_step. apply wp_c_release; [done|]. wp_step. by apply HQ.
Qed.

Lemma wp_consoleread n killed target ed s : cn_lock s = false → repr (cn_in s) ed →
  wp (consoleread killed target (Z.of_nat n)) (λ r s', ∃ rest, ed_read n killed target (ed_ready ed) = (r, rest) ∧ read_post ed rest s s') s.
Proof.
  intros El Hr. unfold consoleread. wp_step. apply wp_c_acquire; [done|]. rewrite Nat2Z.id.
  by apply (wp_read_loop n killed target ed (with_clock true s)).
Qed.

(** C17: The console input buffer refines a line editor.  Whatever bytes the
    keyboard interrupt delivers, [consoleintr] returns with the lock released and
    the screen intact, and the ring buffer with its wrapping 32-bit indices holds
    what the editor would: ^U empties the line, backspace drops its last
    character, other keys are appended while there is room, and newline, ^D or a
    full buffer hand the line to the readers, who are then woken up. *)
Theorem consoleintr_refines keys ed s :
  screen_ok s → cn_lock s = false → repr (cn_in s) ed → ed_ok ed → Forall is_byte keys →
  wp (consoleintr keys)
    (λ d s', let ed' := fold_left ed_key keys ed in
       d = existsb (λ c, c =? ctrl_P) keys ∧ screen_ok s' ∧ cn_lock s' = false ∧ repr (cn_in s') ed' ∧ ed_ok ed' ∧
       (ed_ready ed' = ed_ready ed ∨ cn_woken s' = true)) s.
Proof. intros. eapply wp_consoleintr; by try intros. Qed.

(** Printable characters. *)
Definition printable (c : Z) : Prop := 32 ≤ c < 127.

Lemma type_printable l : ∀ rd li, Forall printable l → (Z.of_nat (length (rd ++ li ++ l)) < INPUT_BUF) →
  fold_left ed_key l (Editor rd li) = Editor rd (li ++ l).
Proof.
  induction l as [|c l IH]; intros rd li Hp Hl; simpl; [by rewrite app_nil_r|]. inversion Hp as [|?? Hc Hp']; subst. unfold printable in Hc.
  replace (ed_key (Editor rd li) c) with (Editor rd (li ++ [c])).
  - rewrite IH; [by rewrite <- app_assoc|done|by rewrite <- app_assoc].
  - unfold ed_key, ed_type, ctrl_P, ctrl_U, ctrl_H, ctrl_D, ctrl. cbn [ed_ready ed_line]. rewrite !length_app in *. simpl in *.
    repeat match goal with |- context [?a =? ?b] => rewrite (proj2 (Z.eqb_neq a b)) by (unfold INPUT_BUF in *; lia) end.
    simpl. by rewrite (proj2 (Z.ltb_lt _ _)) by (unfold INPUT_BUF in *; lia).
Qed.

Lemma type_line l : Forall printable l → Z.of_nat (length l) < INPUT_BUF →
  fold_left ed_key (l ++ [13]) (Editor [] []) = Editor (l ++ [10]) [].
Proof.
  intros Hp Hl. rewrite fold_left_app, type_printable by done. simpl. unfold ed_key, ed_type, finish. simpl.
  by rewrite (proj2 (Z.ltb_lt _ _)) by done.
Qed.

Lemma read_line l : ∀ n killed target, Forall printable l → (length l < n)%nat →
  ed_read n killed target (l ++ [10]) = (CReturns (target - Z.of_nat (n - length l - 1)), l ++ [10], []).
Proof.
  induction l as [|c l IH]; intros [|n] killed target Hp Hn; simpl in *; try lia; [by rewrite Nat.sub_0_r|].
  inversion Hp as [|?? Hc Hp']; subst. unfold printable in Hc.
  rewrite (proj2 (Z.eqb_neq c ctrl_D)), (proj2 (Z.eqb_neq c 10)) by (unfold ctrl_D, ctrl; lia). rewrite IH by (done || lia). done.
Qed.

(** What is typed is what is read.  A line of printable characters that fits
    the buffer, typed on an empty console and ended with the Enter key, is what the next
    [consoleread] of a longer buffer returns: the line and a newline, their number
    as the result, and the console is empty again. *)
Theorem typed_line_read l n s :
  screen_ok s → cn_lock s = false → repr (cn_in s) (Editor [] []) →
  Forall printable l → Z.of_nat (length l) < INPUT_BUF → (length l < n)%nat →
  wp (_ ← consoleintr (l ++ [13]); consoleread false (Z.of_nat n) (Z.of_nat n))
    (λ r s', r = (CReturns (Z.of_nat (length l + 1)), l ++ [10]) ∧ repr (cn_in s') (Editor [] []) ∧ cn_lock s' = false) s.
Proof.
  intros Hsc El Hr Hp Hl Hn. wp_step. eapply wp_consoleintr; try done; [by constructor| |].
  { apply Forall_app; split; [|by repeat constructor]. eapply Forall_impl; [done|]. unfold printable, is_byte. intros; simpl in *; lia. }
  cbv zeta. rewrite type_line by done. intros s' _ El' Hr' _ _. eapply wp_mono; [by apply wp_consoleread|].
  intros [r bytes] s2 (rest & E & Hl2 & Hr2 & _). simpl in E. rewrite read_line in E by done. injection E as <- <- <-.
  split; [|done]. do 2 f_equal. lia.
Qed.

(** The screen is safe.  From a cursor on one of the first 24 rows, [cgaputc] of any
    character neither panics nor touches a cell outside the screen memory; it leaves the
    cursor on one of the first 24 rows, and shows exactly what newline, backspace
    or the character ask for, scrolled by one row at the bottom. *)
Theorem cgaputc_safe c g : cga_ok g →
  wp (cgaputc c) (λ _ g', cga_ok g' ∧ g' = cga_end (cga_put c g).1 (cga_put c g).2) g.
Proof. intros Hg. apply wp_cgaputc; [done|]. split; [|done]. pose proof (cga_put_range c g Hg) as []. by apply cga_end_ok. Qed.

(** ** An example: the console after the buffer's indices have wrapped *)

Definition demo_cons : cons :=
  Cons false true false [] (Cga (24 * COLS - 3) (replicate (Z.to_nat NCELLS) 0))
    (Input (replicate (Z.to_nat INPUT_BUF) 0) (2 ^ 32 - 2) (2 ^ 32 - 2) (2 ^ 32 - 2)) false.

Lemma demo_cons_repr : repr (cn_in demo_cons) (Editor [] []).
Proof. by split. Qed.

Lemma demo_cons_screen : screen_ok demo_cons.
Proof. split; [done|]. split; [done|]. by rewrite <- (length_replicate (Z.to_nat NCELLS) 0). Qed.

Lemma consoleintr_refines_witness :
  wp (consoleintr [97; 98; ctrl_H; 99; 13; 100])
    (λ d s', let ed' := fold_left ed_key [97; 98; ctrl_H; 99; 13; 100] (Editor [] []) in
       d = existsb (λ c, c =? ctrl_P) [97; 98; ctrl_H; 99; 13; 100] ∧ screen_ok s' ∧ cn_lock s' = false ∧ repr (cn_in s') ed' ∧ ed_ok ed' ∧
       (ed_ready ed' = [] ∨ cn_woken s' = true)) demo_cons
  ∧ fold_left ed_key [97; 98; ctrl_H; 99; 13; 100] (Editor [] []) = Editor [97; 99; 10] [100].
Proof.
  split; [|reflexivity]. apply (consoleintr_refines _ (Editor [] []) demo_cons demo_cons_screen eq_refl demo_cons_repr).
  - constructor.
  - repeat constructor; vm_compute; discriminate.
Defined.

Lemma typed_line_read_witness :
  wp (_ ← consoleintr ([104; 105] ++ [13]); consoleread false (Z.of_nat 100) (Z.of_nat 100))
    (λ r s', r = (CReturns (Z.of_nat (2 + 1)), [104; 105] ++ [10]) ∧ repr (cn_in s') (Editor [] []) ∧ cn_lock s' = false) demo_cons.
Proof.
  apply (typed_line_read [104; 105] 100 demo_cons demo_cons_screen eq_refl demo_cons_repr).
  - repeat constructor; vm_compute; discriminate.
  - reflexivity.
  - simpl. lia.
Defined.

Lemma cgaputc_safe_witness :
  wp (cgaputc 10) (λ _ g', cga_ok g' ∧ g' = cga_end (cga_put 10 (cn_cga demo_cons)).1 (cga_put 10 (cn_cga demo_cons)).2) (cn_cga demo_cons).
Proof. apply (cgaputc_safe 10 (cn_cga demo_cons)). exact (proj2 demo_cons_screen). Defined.
