(* ===== verification/Ports.v ===== *)
(** * Input and output ports (x86.h)

    A device is a state that answers reads and takes writes on the ports of the
    machine; every driver is written over an arbitrary one.  What a driver
    relies on is stated where the driver is, as laws of its device. *)

From S2P Require Import Prelude Words.

Class PortIO (D : Type) := {
  dev_in8 : Z → D → Z * D;
  dev_out8 : Z → Z → D → D;
  dev_in32 : Z → D → Z * D;
  dev_out32 : Z → Z → D → D
}.

Section ports.
Context {D : Type} `{PortIO D}.

Definition inb (port : Z) : M D Z := λ d, let '(v, d') := dev_in8 port d in Ok (u8 v) d'.
Definition outb (port data : Z) : M D unit := modify (dev_out8 port (u8 data)).

(** [insl] stores [cnt] words; the result is the bytes it leaves at [addr]. *)
Fixpoint insl (port : Z) (cnt : nat) : M D (list Z) :=
  match cnt with
  | O => ret []
  | S n =>
      w ← (λ d, let '(v, d') := dev_in32 port d in Ok v d');
      rest ← insl port n;
      ret (le 4 w ++ rest)
  end.

(** [outsl] writes the first [cnt] words at [addr]. *)
Fixpoint outsl (port : Z) (addr : list Z) (cnt : nat) : M D unit :=
  match cnt with
  | O => ret tt
  | S n => modify (dev_out32 port (get_u32 0 addr)) ;; outsl port (drop 4 addr) n
  end.

Lemma wp_inb port (Q : Z → D → Prop) d :
  (let '(v, d') := dev_in8 port d in Q (u8 v) d') → wp (inb port) Q d.
Proof. unfold wp, inb. by destruct (dev_in8 port d). Qed.

Lemma wp_outb port data (Q : unit → D → Prop) d : Q tt (dev_out8 port (u8 data) d) → wp (outb port data) Q d.
Proof. done. Qed.
End ports.
