(* ===== verification/Ata.v ===== *)
(** * What the disk drivers rely on: an ATA disk in PIO mode

    The registers of the task file select a drive and a sector; a read command
    makes the sector available word by word on the data port, a write command
    takes a sector word by word.  The disk is a parameter: [AtaDisk] gives the
    part of its state the laws speak of, and [AtaLaws] states the behaviour of
    the standard that the drivers use.  [polls] bounds how often the status is
    read before the disk is ready. *)

From stdpp Require Import functions.
From S2P Require Import Prelude Words Ports.

Inductive ata_cmd :=
| A_idle
| A_read (drive lba : Z) (n : nat)         (* [n] words of the sector were read *)
| A_write (drive lba : Z) (bs : list Z).   (* these bytes of it have arrived *)

Definition nsect : nat := 512.
Definition nwords : nat := 128.

Class AtaDisk (D : Type) := {
  ad_reg : D → Z → Z;                (* the task file *)
  ad_cmd : D → ata_cmd;              (* the command in progress *)
  ad_sector : D → Z → Z → list Z;    (* the bytes of a sector of a drive *)
  ad_busy : D → nat                  (* status reads until it is ready *)
}.

(** The drive and the sector the registers select (28-bit addressing). *)
Definition reg_drive (r : Z → Z) : Z := Z.land (Z.shiftr (r 0x1f6) 4) 1.
Definition reg_lba (r : Z → Z) : Z :=
  r 0x1f3 + 256 * r 0x1f4 + 65536 * r 0x1f5 + 16777216 * Z.land (r 0x1f6) 15.

Definition task_reg (p : Z) : bool := (0x1f2 <=? p) && (p <=? 0x1f6).

(** What a disk holds, by drive and sector. *)
Definition upd_sector (f : Z → Z → list Z) (drive lba : Z) (bs : list Z) : Z → Z → list Z :=
  λ dr l, if decide (dr = drive ∧ l = lba) then bs else f dr l.

Class AtaLaws (D : Type) `{PortIO D, AtaDisk D} (polls : nat) : Prop := {
  al_sector d drive lba : length (ad_sector d drive lba) = nsect ∧ Forall is_byte (ad_sector d drive lba);
  (** the status register: busy for a while, then ready *)
  al_busy d : (ad_busy d < polls)%nat;
  al_status d : let '(v, d') := dev_in8 0x1f7 d in
    ad_reg d' = ad_reg d ∧ ad_cmd d' = ad_cmd d ∧ ad_sector d' = ad_sector d ∧
    if decide (ad_busy d = 0%nat)
    then Z.land (u8 v) 0xc0 = 0x40 ∧ Z.land (u8 v) 0x21 = 0 ∧ ad_busy d' = 0%nat
    else Z.land (u8 v) 0xc0 ≠ 0x40 ∧ (ad_busy d' < ad_busy d)%nat;
  (** the registers hold what was written to them *)
  al_reg d p v : task_reg p = true → ad_cmd d = A_idle → let d' := dev_out8 p v d in
    ad_reg d' = <[p := v]> (ad_reg d) ∧ ad_cmd d' = A_idle ∧ ad_sector d' = ad_sector d;
  (** the control register only switches interrupts *)
  al_control d v : let d' := dev_out8 0x3f6 v d in
    ad_reg d' = ad_reg d ∧ ad_cmd d' = ad_cmd d ∧ ad_sector d' = ad_sector d;
  (** commands for one sector *)
  al_read d : ad_cmd d = A_idle → ad_reg d 0x1f2 = 1 → let d' := dev_out8 0x1f7 0x20 d in
    ad_cmd d' = A_read (reg_drive (ad_reg d)) (reg_lba (ad_reg d)) 0 ∧ ad_sector d' = ad_sector d;
  al_write d : ad_cmd d = A_idle → ad_reg d 0x1f2 = 1 → let d' := dev_out8 0x1f7 0x30 d in
    ad_cmd d' = A_write (reg_drive (ad_reg d)) (reg_lba (ad_reg d)) [] ∧ ad_sector d' = ad_sector d;
  (** the data port; a write command takes its data at once *)
  al_in d drive lba n : ad_cmd d = A_read drive lba n → ad_busy d = 0%nat → (n < nwords)%nat →
    let '(w, d') := dev_in32 0x1f0 d in
    w = get_u32 (4 * n) (ad_sector d drive lba) ∧ ad_busy d' = 0%nat ∧ ad_sector d' = ad_sector d ∧
    ad_cmd d' = if decide (S n = nwords) then A_idle else A_read drive lba (S n);
  al_out d drive lba bs w : ad_cmd d = A_write drive lba bs → (length bs + 4 ≤ nsect)%nat → is_u32 w →
    let d' := dev_out32 0x1f0 w d in
    if decide (length bs + 4 = nsect)%nat
    then ad_cmd d' = A_idle ∧ ad_sector d' = upd_sector (ad_sector d) drive lba (bs ++ le 4 w)
    else ad_cmd d' = A_write drive lba (bs ++ le 4 w) ∧ ad_sector d' = ad_sector d
}.

Lemma lba_bytes n : 0 ≤ n < 2 ^ 28 →
  Z.land n 0xff + 256 * Z.land (Z.shiftr n 8) 0xff + 65536 * Z.land (Z.shiftr n 16) 0xff +
    16777216 * Z.land (Z.shiftr n 24) 15 = n.
Proof.
  intros Hn. rewrite !Z.shiftr_div_pow2 by lia.
  change 0xff with (2 ^ 8 - 1). change 15 with (2 ^ 4 - 1). rewrite !land_ones_low by lia.
  rewrite (Z.mod_small (n / 2 ^ 24)) by (split; [apply Z.div_pos; lia|apply Z.div_lt_upper_bound; lia]).
  change (2 ^ 24) with (2 ^ 8 * (2 ^ 8 * 2 ^ 8)). change (2 ^ 16) with (2 ^ 8 * 2 ^ 8).
  rewrite <- !Z.div_div by lia. pose proof (Z.div_mod n (2 ^ 8) ltac:(lia)).
  pose proof (Z.div_mod (n / 2 ^ 8) (2 ^ 8) ltac:(lia)). pose proof (Z.div_mod (n / 2 ^ 8 / 2 ^ 8) (2 ^ 8) ltac:(lia)). lia.
Qed.

Section ata.
Context {D : Type} {polls : nat} `{!PortIO D, !AtaDisk D, Hlaws : !AtaLaws D polls}.
Implicit Types (d : D).

Lemma wp_outb_reg p v (Q : unit → D → Prop) d :
  task_reg p = true → ad_cmd d = A_idle →
  (∀ d', ad_reg d' = <[p := u8 v]> (ad_reg d) → ad_cmd d' = A_idle → ad_sector d' = ad_sector d → Q tt d') →
  wp (outb p v) Q d.
Proof. intros Hp Hc HQ. apply wp_outb. destruct (al_reg d p (u8 v) Hp Hc) as (? & ? & ?). by apply HQ. Qed.

(** Reading the rest of a sector. *)
Lemma wp_insl_sector cnt n d drive lba :
  ad_cmd d = A_read drive lba n → ad_busy d = 0%nat → (n + S cnt = nwords)%nat →
  wp (insl 0x1f0 (S cnt)) (λ bs d', bs = drop (4 * n) (ad_sector d drive lba) ∧
    ad_cmd d' = A_idle ∧ ad_sector d' = ad_sector d) d.
Proof.
  revert n d. induction cnt as [|cnt IH]; intros n d Hc Hb Hn; cbn [insl]; wp_step; unfold wp at 1;
    pose proof (al_in d drive lba n Hc Hb ltac:(lia)) as Hin; destruct (dev_in32 0x1f0 d) as [w d'];
    destruct Hin as (-> & Hb' & Hs & Hc'); destruct (al_sector d drive lba) as [Hl Hby];
    assert (Hw : le 4 (get_u32 (4 * n) (ad_sector d drive lba)) = slice (4 * n) 4 (ad_sector d drive lba)).
  1,3: unfold get_u32, get_le; assert (E : length (slice (4 * n) 4 (ad_sector d drive lba)) = 4%nat)
      by (apply length_slice; rewrite Hl; unfold nsect, nwords in *; lia);
    rewrite <- E at 1; apply le_le_val; by apply Forall_slice.
  - rewrite decide_True in Hc' by lia. wp_steps. split_and!; [|done|done]. rewrite Hw, app_nil_r.
    unfold slice. rewrite take_ge; [done|]. rewrite length_drop, Hl. unfold nsect, nwords in *. lia.
  - rewrite decide_False in Hc' by lia. wp_step. eapply wp_mono; [apply (IH (S n) d'); [done|done|lia]|].
    intros bs d2 (-> & Hc2 & Hs2). wp_step. split_and!; [|done|congruence]. rewrite Hw, Hs.
    unfold slice. replace (4 * S n)%nat with (4 * n + 4)%nat by lia. rewrite <- drop_drop. apply take_drop.
Qed.

(** Writing the rest of one. *)
Lemma wp_outsl_sector cnt d drive lba bs rest :
  ad_cmd d = A_write drive lba bs → length rest = (4 * S cnt)%nat → (length bs + length rest = nsect)%nat →
  Forall is_byte rest →
  wp (outsl 0x1f0 rest (S cnt)) (λ _ d', ad_cmd d' = A_idle ∧
    ad_sector d' = upd_sector (ad_sector d) drive lba (bs ++ rest)) d.
Proof.
  revert d bs rest. induction cnt as [|cnt IH]; intros d bs rest Hc Hl Hn Hb; cbn [outsl]; wp_step; wp_step;
    assert (Hw : le 4 (get_u32 0 rest) = take 4 rest) by
      (unfold get_u32, get_le, slice; rewrite drop_0;
       assert (E : length (take 4 rest) = 4%nat) by (rewrite length_take; lia);
       rewrite <- E at 1; apply le_le_val; by apply Forall_take);
    pose proof (al_out d drive lba bs (get_u32 0 rest) Hc ltac:(lia) (get_le_range 4 0 rest Hb)) as Ho; cbv zeta in Ho.
  - rewrite decide_True in Ho by lia. destruct Ho as [Hc' Hs']. wp_step. split; [done|].
    rewrite Hs', Hw, take_ge by lia. done.
  - rewrite decide_False in Ho by lia. destruct Ho as [Hc' Hs']. rewrite Hw in Hc'.
    eapply wp_mono; [apply (IH _ (bs ++ take 4 rest)); [done| | |by apply Forall_drop]|].
    + rewrite length_drop. lia.
    + rewrite length_app, length_take, length_drop. lia.
    + intros [] d2 [Hc2 Hs2]. split; [done|]. by rewrite Hs2, Hs', <- (assoc_L (++)), take_drop.
Qed.
End ata.

(** ** A disk with these laws

    It is busy for one status read after a command and remembers the sectors
    written to it; all others are zero. *)

Record demo_disk := Demo {
  dm_reg : Z → Z;
  dm_cmd : ata_cmd;
  dm_log : list (Z * Z * list Z);    (* sectors written, the last one first *)
  dm_busy : bool
}.

(** A sector is 512 bytes, whatever was stored. *)
Definition bytes_of (bs : list Z) : list Z := u8 <$> bs.
Definition sector_of (bs : list Z) : list Z := take nsect (bytes_of bs ++ replicate nsect 0).

Fixpoint logged (l : list (Z * Z * list Z)) : Z → Z → list Z :=
  match l with
  | [] => λ _ _, replicate nsect 0
  | (drive, lba, bs) :: l' => upd_sector (logged l') drive lba (sector_of bs)
  end.

#[global] Instance demo_ata : AtaDisk demo_disk := {|
  ad_reg := dm_reg;
  ad_cmd d := match dm_cmd d with A_write drive lba bs => A_write drive lba (bytes_of bs) | c => c end;
  ad_sector d := logged (dm_log d);
  ad_busy d := if dm_busy d then 1%nat else 0%nat
|}.

Definition demo_command (v : Z) (d : demo_disk) : ata_cmd :=
  if v =? 0x20 then A_read (reg_drive (dm_reg d)) (reg_lba (dm_reg d)) 0
  else if v =? 0x30 then A_write (reg_drive (dm_reg d)) (reg_lba (dm_reg d)) []
  else dm_cmd d.

#[global] Instance demo_io : PortIO demo_disk := {|
  dev_in8 p d := if dm_busy d then (0x80, Demo (dm_reg d) (dm_cmd d) (dm_log d) false) else (0x40, d);
  dev_out8 p v d :=
    if task_reg p then Demo (<[p := v]> (dm_reg d)) (dm_cmd d) (dm_log d) (dm_busy d)
    else if p =? 0x1f7 then Demo (dm_reg d) (demo_command v d) (dm_log d) true else d;
  dev_in32 p d :=
    match dm_cmd d with
    | A_read drive lba n =>
        (get_u32 (4 * n) (logged (dm_log d) drive lba),
         Demo (dm_reg d) (if decide (S n = nwords) then A_idle else A_read drive lba (S n)) (dm_log d) (dm_busy d))
    | _ => (0, d)
    end;
  dev_out32 p w d :=
    match dm_cmd d with
    | A_write drive lba bs =>
        if decide (length bs + 4 = nsect)%nat
        then Demo (dm_reg d) A_idle ((drive, lba, bs ++ le 4 w) :: dm_log d) (dm_busy d)
        else Demo (dm_reg d) (A_write drive lba (bs ++ le 4 w)) (dm_log d) (dm_busy d)
    | _ => d
    end
|}.

Lemma bytes_of_id bs : Forall is_byte bs → bytes_of bs = bs.
Proof.
  intros Hb. unfold bytes_of. induction Hb as [|x l Hx _ IH]; [done|]. rewrite fmap_cons, IH. f_equal.
  unfold u8. apply Z.mod_small, Hx.
Qed.

Lemma sector_of_ok bs : length (sector_of bs) = nsect ∧ Forall is_byte (sector_of bs).
Proof.
  unfold sector_of. split; [rewrite length_take, length_app, length_replicate; lia|].
  apply Forall_take, Forall_app. split; [|apply Forall_replicate; unfold is_byte; lia].
  unfold bytes_of. apply Forall_fmap, Forall_true. intros x. apply u8_range.
Qed.

Lemma sector_of_id bs : length bs = nsect → sector_of bs = bytes_of bs.
Proof. intros Hl. unfold sector_of. rewrite take_app_le, take_ge; [done|..]; unfold bytes_of; rewrite length_fmap; lia. Qed.

Lemma logged_ok l drive lba : length (logged l drive lba) = nsect ∧ Forall is_byte (logged l drive lba).
Proof.
  induction l as [|[[dr a] bs] l IH]; cbn [logged].
  - split; [apply length_replicate|apply Forall_replicate; unfold is_byte; lia].
  - unfold upd_sector. case_decide; [apply sector_of_ok|done].
Qed.

#[global] Instance demo_laws : AtaLaws demo_disk 2.
Proof.
  split.
  - intros d drive lba. apply logged_ok.
  - intros d. simpl. destruct (dm_busy d); lia.
  - intros d. simpl. destruct (dm_busy d) eqn:E; simpl; rewrite ?E; split_and!; (done || lia).
  - intros d p v Hp Hc. simpl in *. by rewrite Hp.
  - intros d v. done.
  - intros d Hc Hr. done.
  - intros d Hc Hr. done.
  - intros d drive lba n Hc Hb Hn. simpl in *. destruct (dm_cmd d) eqn:Ec; simplify_eq. split_and!; [done|done|done|].
    simpl. by case_decide.
  - intros d drive lba bs w Hc Hl Hw. cbn [ad_cmd ad_sector dev_out32 demo_ata demo_io] in *. destruct (dm_cmd d) as [|? ? ?|dr a bs0] eqn:Ec; simplify_eq.
    assert (Hlen : length (bytes_of bs0) = length bs0) by (unfold bytes_of; apply length_fmap).
    assert (Hle : bytes_of (bs0 ++ le 4 w) = bytes_of bs0 ++ le 4 w).
    { unfold bytes_of at 1. rewrite fmap_app. f_equal. apply bytes_of_id, le_bytes. }
    rewrite Hlen. case_decide as Hd; cbn [dm_cmd dm_log logged]; (split; [|]); try done.
    + rewrite sector_of_id; [by rewrite Hle|]. rewrite length_app, length_le. lia.
    + by rewrite Hle.
Qed.
