(* ===== verification/Ide.v ===== *)
(** * The IDE disk driver (ide.c)

    The driver keeps a queue of buffers linked through [qnext]; the first one is
    the request the disk is working on.  [iderw] puts a buffer at the end and
    sleeps until the interrupt handler [ideintr] is done with it.  The two run
    one at a time under [idelock]; a definition is one critical section, and
    [iderw_again] is what a process runs when it wakes up.

    The disk is any device with the laws of [Ata]; the loops that wait for it
    run at most [polls] times. *)

From stdpp Require Import functions.
From S2P Require Import Prelude Words Params Locks BufIface Bio Ports Ata.

Definition SECTOR_SIZE : Z := 512.
Definition IDE_BSY : Z := 0x80.
Definition IDE_DRDY : Z := 0x40.
Definition IDE_DF : Z := 0x20.
Definition IDE_ERR : Z := 0x01.
Definition IDE_CMD_READ : Z := 0x20.
Definition IDE_CMD_WRITE : Z := 0x30.
Definition IDE_CMD_RDMUL : Z := 0xc4.
Definition IDE_CMD_WRMUL : Z := 0xc5.

Record ide (D : Type) := Ide {
  idelock : bool;
  idequeue : option nat;            (* the buf now being read or written *)
  id_qnext : list (option nat);     (* qnext of each buffer *)
  id_bufs : list buf;
  havedisk1 : bool;
  id_woken : list nat;              (* the channels woken up *)
  id_dev : D
}.
Arguments Ide {D}.
Arguments idelock {D}.
Arguments idequeue {D}.
Arguments id_qnext {D}.
Arguments id_bufs {D}.
Arguments havedisk1 {D}.
Arguments id_woken {D}.
Arguments id_dev {D}.

(** A pointer to a link of the queue: [&idequeue] or [&b->qnext]. *)
Inductive qlink := Q_head | Q_next (b : nat).

Section ide.
Context {D : Type} `{PortIO D} (polls : nat).
Implicit Types (s : ide D).

Definition with_idelock v s := Ide v (idequeue s) (id_qnext s) (id_bufs s) (havedisk1 s) (id_woken s) (id_dev s).
Definition with_idequeue v s := Ide (idelock s) v (id_qnext s) (id_bufs s) (havedisk1 s) (id_woken s) (id_dev s).
Definition with_qnext v s := Ide (idelock s) (idequeue s) v (id_bufs s) (havedisk1 s) (id_woken s) (id_dev s).
Definition with_bufs v s := Ide (idelock s) (idequeue s) (id_qnext s) v (havedisk1 s) (id_woken s) (id_dev s).
Definition with_havedisk1 v s := Ide (idelock s) (idequeue s) (id_qnext s) (id_bufs s) v (id_woken s) (id_dev s).
Definition with_woken v s := Ide (idelock s) (idequeue s) (id_qnext s) (id_bufs s) (havedisk1 s) v (id_dev s).
Definition with_dev (v : D) s := Ide (idelock s) (idequeue s) (id_qnext s) (id_bufs s) (havedisk1 s) (id_woken s) v.

Definition on_dev {A} (c : M D A) : M (ide D) A := zoom id_dev with_dev c.
Definition ide_acquire : M (ide D) unit := zoom idelock with_idelock spin_acquire.
Definition ide_release : M (ide D) unit := zoom idelock with_idelock spin_release.
Definition the_buf (b : nat) : M (ide D) buf := gets (λ s, id_bufs s !!! b).
Definition buf_upd (b : nat) (f : buf → buf) : M (ide D) unit :=
  modify (λ s, with_bufs (alter f b (id_bufs s)) s).
Definition ide_wakeup (b : nat) : M (ide D) unit := modify (λ s, with_woken (id_woken s ++ [b]) s).

(** Wait for IDE disk to become ready. *)
Fixpoint idewait_from (fuel : nat) (checkerr : bool) : M D Z :=
  match fuel with
  | O => fault
  | S f =>
      r ← inb 0x1f7;
      if negb (Z.land r (Z.lor IDE_BSY IDE_DRDY) =? IDE_DRDY) then idewait_from f checkerr
      else if checkerr && negb (Z.land r (Z.lor IDE_DF IDE_ERR) =? 0) then ret (-1)
      else ret 0
  end.
Definition idewait (checkerr : bool) : M D Z := idewait_from polls checkerr.

(** Check if disk 1 is present. *)
Fixpoint find_disk1 (n : nat) : M D bool :=
  match n with
  | O => ret false
  | S n' => r ← inb 0x1f7; if negb (r =? 0) then ret true else find_disk1 n'
  end.

(** [ioapicenable] routes the interrupt of the disk to the last processor. *)
Definition ideinit (ioapicenable : M (ide D) unit) : M (ide D) unit :=
  modify (with_idelock false) ;;
  ioapicenable ;;
  on_dev (idewait false) ;;
  on_dev (outb 0x1f6 (Z.lor 0xe0 (Z.shiftl 1 4))) ;;
  found ← on_dev (find_disk1 1000);
  whenM found (modify (with_havedisk1 true)) ;;
  on_dev (outb 0x1f6 (Z.lor 0xe0 (Z.shiftl 0 4))).

(** Start the request for b.  Caller must hold idelock. *)
Definition idestart (b : option nat) : M (ide D) unit :=
  match b with
  | None => panic "idestart"
  | Some i =>
      bp ← the_buf i;
      if FSSIZE <=? b_blockno bp then panic "incorrect blockno" else
      let sector_per_block := BSIZE / SECTOR_SIZE in
      let sector := i32 (b_blockno bp * sector_per_block) in
      let read_cmd := if sector_per_block =? 1 then IDE_CMD_READ else IDE_CMD_RDMUL in
      let write_cmd := if sector_per_block =? 1 then IDE_CMD_WRITE else IDE_CMD_WRMUL in
      if 7 <? sector_per_block then panic "idestart" else
      on_dev (
        idewait false ;;
        outb 0x3f6 0 ;;
        outb 0x1f2 sector_per_block ;;
        outb 0x1f3 (Z.land sector 0xff) ;;
        outb 0x1f4 (Z.land (Z.shiftr sector 8) 0xff) ;;
        outb 0x1f5 (Z.land (Z.shiftr sector 16) 0xff) ;;
        outb 0x1f6 (Z.lor (Z.lor 0xe0 (Z.shiftl (Z.land (b_dev bp) 1) 4)) (Z.land (Z.shiftr sector 24) 0x0f)) ;;
        if negb (Z.land (b_flags bp) B_DIRTY =? 0) then
          outb 0x1f7 write_cmd ;;
          outsl 0x1f0 (b_data bp) (Z.to_nat (BSIZE / 4))
        else outb 0x1f7 read_cmd)
  end.

(** Interrupt handler. *)
Definition ideintr : M (ide D) unit :=
  ide_acquire ;;
  q ← gets idequeue;
  match q with
  | None => ide_release
  | Some b =>
      modify (λ s, with_idequeue (id_qnext s !!! b) s) ;;
      bp ← the_buf b;
      whenM (Z.land (b_flags bp) B_DIRTY =? 0)
        (r ← on_dev (idewait true);
         whenM (0 <=? r)
           (data ← on_dev (insl 0x1f0 (Z.to_nat (BSIZE / 4)));
            buf_upd b (set_data data))) ;;
      buf_upd b (λ bp, set_flags (Z.lor (b_flags bp) B_VALID) bp) ;;
      buf_upd b (λ bp, set_flags (Z.land (b_flags bp) (Z.lnot B_DIRTY)) bp) ;;
      ide_wakeup b ;;
      q' ← gets idequeue;
      whenM (bool_decide (q' ≠ None)) (idestart q') ;;
      ide_release
  end.

Definition link_at (pp : qlink) s : option nat :=
  match pp with Q_head => idequeue s | Q_next b => id_qnext s !!! b end.
Definition set_link (pp : qlink) (v : option nat) s : ide D :=
  match pp with Q_head => with_idequeue v s | Q_next b => with_qnext (<[b := v]> (id_qnext s)) s end.

(** The end of the queue; it is no longer than the array of buffers. *)
Fixpoint queue_end (fuel : nat) (pp : qlink) : M (ide D) qlink :=
  match fuel with
  | O => fault
  | S f =>
      v ← gets (link_at pp);
      match v with
      | None => ret pp
      | Some b => queue_end f (Q_next b)
      end
  end.

(** Append b to idequeue. *)
Definition enqueue (b : nat) : M (ide D) unit :=
  modify (set_link (Q_next b) None) ;;
  n ← gets (λ s, length (id_bufs s));
  pp ← queue_end (S n) Q_head;
  modify (set_link pp (Some b)).

Definition request_done (bp : buf) : bool := Z.land (b_flags bp) (Z.lor B_VALID B_DIRTY) =? B_VALID.

(** One turn of the loop that waits for the request: whether it is finished,
    or the process is asleep. *)
Definition iderw_wait (b : nat) : M (ide D) bool :=
  bp ← the_buf b;
  ide_release ;;
  ret (request_done bp).

(** Sync buf with disk. *)
Definition ide_rw (pid : Z) (b : nat) : M (ide D) bool :=
  held ← zoom (λ s, b_lock (id_bufs s !!! b)) (λ l s, with_bufs (alter (set_lock l) b (id_bufs s)) s) (holdingsleep pid);
  if negb held then panic "iderw: buf not locked" else
  bp ← the_buf b;
  if request_done bp then panic "iderw: nothing to do" else
  h ← gets havedisk1;
  if negb (b_dev bp =? 0) && negb h then panic "iderw: ide disk 1 not present" else
  ide_acquire ;;
  enqueue b ;;
  q ← gets idequeue;
  whenM (bool_decide (q = Some b)) (idestart (Some b)) ;;
  iderw_wait b.

Definition iderw_again (b : nat) : M (ide D) bool :=
  ide_acquire ;;
  iderw_wait b.
End ide.
