(* ===== verification/IdeSpec.v ===== *)
(** * The operations of the IDE driver, one critical section at a time

    The invariant ties the queue to the disk: the disk is idle exactly when no
    request is queued or when the data of the first one has been written, and
    otherwise it is reading the sector of the first. *)

From stdpp Require Import functions.
From S2P Require Import Prelude Words Params Locks BufIface Bio Ports Ata Ide.

(** ** Buffers *)

Definition dirty (bp : buf) : bool := negb (Z.land (b_flags bp) B_DIRTY =? 0).
Definition b_drive (bp : buf) : Z := Z.land (b_dev bp) 1.

Record buf_wf (bp : buf) : Prop := {
  bw_len : length (b_data bp) = nsect;
  bw_bytes : Forall is_byte (b_data bp);
  bw_block : 0 ≤ b_blockno bp < FSSIZE
}.

(** What the interrupt handler makes of a buffer. *)
Definition finish (data : list Z) (bp : buf) : buf :=
  set_flags (Z.land (Z.lor (b_flags bp) B_VALID) (Z.lnot B_DIRTY)) (set_data data bp).

Lemma finish_done data bp : request_done (finish data bp) = true.
Proof.
  unfold request_done, finish. cbn [b_flags set_flags]. apply Z.eqb_eq. rewrite <- Z.land_assoc.
  change (Z.land (Z.lnot B_DIRTY) (Z.lor B_VALID B_DIRTY)) with B_VALID.
  rewrite Z.land_lor_distr_l, Z.land_diag.
  apply Z.bits_inj'. intros n _. rewrite Z.lor_spec, Z.land_spec. by destruct (Z.testbit (b_flags bp) n), (Z.testbit B_VALID n).
Qed.

Lemma done_clean bp : request_done bp = true → dirty bp = false.
Proof.
  unfold request_done, dirty. intros E%Z.eqb_eq. apply negb_false_iff, Z.eqb_eq.
  assert (E2 : Z.land (b_flags bp) B_DIRTY = Z.land (Z.land (b_flags bp) (Z.lor B_VALID B_DIRTY)) B_DIRTY).
  { rewrite <- Z.land_assoc. done. }
  by rewrite E2, E.
Qed.

Lemma list_alter_alter {A} (f g : A → A) b (l : list A) : alter f b (alter g b l) = alter (f ∘ g) b l.
Proof.
  apply list_eq. intros i. destruct (decide (i = b)) as [->|]; [|by rewrite !list_lookup_alter_ne].
  rewrite !list_lookup_alter_eq. by destruct (l !! b).
Qed.

(** ** The registers *)

(** The drive and head register. *)
Definition drive_reg (drive hi : Z) : Z := Z.lor (Z.lor 0xe0 (Z.shiftl drive 4)) hi.

Lemma drive_reg_eq drive hi : 0 ≤ drive < 2 → 0 ≤ hi < 16 →
  Z.land (drive_reg drive hi) 15 = hi ∧ Z.land (Z.shiftr (drive_reg drive hi) 4) 1 = drive ∧ is_byte (drive_reg drive hi).
Proof.
  intros Hd Hh.
  assert (Hall : forallb (λ x, forallb (λ y, (Z.land (drive_reg x y) 15 =? y) &&
    (Z.land (Z.shiftr (drive_reg x y) 4) 1 =? x) && (0 <=? drive_reg x y) && (drive_reg x y <? 256)) (seqZ 0 16)) (seqZ 0 2) = true) by done.
  rewrite forallb_forall in Hall. specialize (Hall drive ltac:(apply list_elem_of_In, elem_of_seqZ; lia)).
  rewrite forallb_forall in Hall. specialize (Hall hi ltac:(apply list_elem_of_In, elem_of_seqZ; lia)).
  unfold is_byte. repeat apply andb_true_iff in Hall as [Hall ?]. bool_props. lia.
Qed.

Lemma land1_range x : 0 ≤ Z.land x 1 < 2.
Proof. change 1 with (2 ^ 1 - 1). rewrite land_ones_low by lia. by apply Z.mod_pos_bound. Qed.

Section spec.
Context {D : Type} {polls : nat} `{!PortIO D, !AtaDisk D, Hlaws : !AtaLaws D polls}.
Implicit Types (d : D) (s : ide D) (q : list nat).
Notation ideintr := (ideintr polls).
Notation idestart := (idestart polls).
Notation ide_rw := (ide_rw polls).

(** ** The disk *)

Lemma wp_idewait_from fuel checkerr d : (ad_busy d < fuel)%nat →
  wp (idewait_from fuel checkerr) (λ r d', r = 0 ∧ ad_busy d' = 0%nat ∧ ad_reg d' = ad_reg d ∧ ad_cmd d' = ad_cmd d ∧
    ad_sector d' = ad_sector d) d.
Proof.
  revert d. induction fuel as [|f IH]; intros d Hb; [lia|]. cbn [idewait_from]. wp_step. apply wp_inb.
  pose proof (al_status d) as Hs. destruct (dev_in8 0x1f7 d) as [v d'].
  destruct Hs as (Er & Ec & Es & Hst). change (Z.lor IDE_BSY IDE_DRDY) with 0xc0. change (Z.lor IDE_DF IDE_ERR) with 0x21.
  change IDE_DRDY with 0x40.
  case_decide as Hb0.
  - destruct Hst as (E1 & E2 & Hb'). rewrite E1, E2. change (0x40 =? 0x40) with true. change (0 =? 0) with true.
    cbn [negb]. rewrite andb_false_r. wp_step. done.
  - destruct Hst as [Hne Hlt]. rewrite (proj2 (Z.eqb_neq _ _) Hne). cbn [negb]. cbn match.
    eapply wp_mono; [apply (IH d'); lia|]. intros r d2 (-> & ? & ? & ? & ?). split_and!; (done || congruence).
Qed.

Lemma wp_idewait checkerr d :
  wp (idewait polls checkerr) (λ r d', r = 0 ∧ ad_busy d' = 0%nat ∧ ad_reg d' = ad_reg d ∧ ad_cmd d' = ad_cmd d ∧
    ad_sector d' = ad_sector d) d.
Proof. apply wp_idewait_from, al_busy. Qed.

(** The command for a buffer, given to an idle disk. *)
Definition dev_after d (bp : buf) d' : Prop :=
  if dirty bp
  then ad_cmd d' = A_idle ∧ ad_sector d' = upd_sector (ad_sector d) (b_drive bp) (b_blockno bp) (b_data bp)
  else ad_cmd d' = A_read (b_drive bp) (b_blockno bp) 0 ∧ ad_sector d' = ad_sector d.

Lemma wp_set_reg p v (Q : unit → D → Prop) d :
  task_reg p = true → is_byte v → ad_cmd d = A_idle →
  (∀ d', ad_reg d' = <[p := v]> (ad_reg d) → ad_cmd d' = A_idle → ad_sector d' = ad_sector d → Q tt d') →
  wp (outb p v) Q d.
Proof.
  intros Hp Hv Hc HQ. apply wp_outb_reg; [done|done|].
  assert (u8 v = v) as -> by (unfold u8; apply Z.mod_small; apply Hv). done.
Qed.

Lemma wp_idestart b s : ad_cmd (id_dev s) = A_idle → buf_wf (id_bufs s !!! b) →
  wp (idestart (Some b)) (λ _ s', ∃ d', s' = with_dev d' s ∧ dev_after (id_dev s) (id_bufs s !!! b) d') s.
Proof.
  intros Hc [Hlen Hbytes Hblk]. unfold idestart, Ide.idestart. wp_step. unfold the_buf. wp_step. set (bp := id_bufs s !!! b) in *.
  rewrite (proj2 (Z.leb_gt FSSIZE (b_blockno bp))) by lia.
  change (BSIZE / SECTOR_SIZE) with 1. change (7 <? 1) with false. change (1 =? 1) with true. cbv zeta. cbn match.
  rewrite Z.mul_1_r, i32_id by (unfold is_i32, FSSIZE in *; lia). set (n := b_blockno bp) in *.
  assert (Hby : ∀ x, is_byte (Z.land x 0xff)).
  { intros x. change 0xff with (2 ^ 8 - 1). rewrite land_ones_low by lia. by apply Z.mod_pos_bound. }
  assert (Hhi : 0 ≤ Z.land (Z.shiftr n 24) 0x0f < 16).
  { change 0x0f with (2 ^ 4 - 1). rewrite land_ones_low by lia. by apply Z.mod_pos_bound. }
  destruct (drive_reg_eq (b_drive bp) _ (land1_range _) Hhi) as (Elo & Edr & Hdr).
  unfold on_dev. apply wp_zoom. wp_step. eapply wp_mono; [apply wp_idewait|]. intros _ d1 (_ & _ & _ & Ec1 & Es1).
  wp_step. apply wp_outb. destruct (al_control d1 (u8 0)) as (_ & Ec2 & Es2). set (d2 := dev_out8 _ _ d1) in *.
  do 5 (wp_step; apply wp_set_reg; [done|first [done|apply Hby|exact Hdr|unfold is_byte; lia]|congruence|]; intros ? ? ? ?).
  match goal with H1 : ad_reg ?d = _, H2 : ad_cmd ?d = A_idle |- wp _ _ ?d => rename d into d3; rename H2 into Hc3 end.
  assert (Ereg : ad_reg d3 0x1f2 = 1 ∧ reg_drive (ad_reg d3) = b_drive bp ∧ reg_lba (ad_reg d3) = n).
  { unfold reg_drive, reg_lba. repeat match goal with E : ad_reg _ = _ |- _ => rewrite E; clear E end.
    rewrite !fn_lookup_insert. repeat (rewrite fn_lookup_insert_ne by done; rewrite ?fn_lookup_insert).
    unfold drive_reg in Elo, Edr. fold (b_drive bp). rewrite Elo, Edr. split_and!; [done|done|].
    apply lba_bytes. unfold FSSIZE in Hblk. lia. }
  destruct Ereg as (E2 & Edrv & Elba).
  assert (Esec : ad_sector d3 = ad_sector (id_dev s)) by congruence.
  unfold dev_after. fold (dirty bp). destruct (dirty bp) eqn:Edirty.
  - wp_step. apply wp_outb. change (u8 IDE_CMD_WRITE) with 0x30. destruct (al_write d3 Hc3 E2) as [Hc4 Hs4].
    rewrite Edrv, Elba in Hc4. change (Z.to_nat (BSIZE / 4)) with (S 127).
    eapply wp_mono; [apply (wp_outsl_sector 127 _ (b_drive bp) n [] (b_data bp) Hc4); [by rewrite Hlen|by rewrite Hlen|done]|].
    intros [] d5 [Hc5 Hs5]. exists d5. split; [done|]. split; [done|]. by rewrite Hs5, Hs4, Esec.
  - apply wp_outb. change (u8 IDE_CMD_READ) with 0x20. destruct (al_read d3 Hc3 E2) as [Hc4 Hs4].
    rewrite Edrv, Elba in Hc4. eexists. split; [done|]. split; [done|]. by rewrite Hs4, Esec.
Qed.

(** ** The queue *)

Fixpoint qchain (nx : list (option nat)) (h : option nat) q : Prop :=
  match q with
  | [] => h = None
  | b :: q' => h = Some b ∧ (b < length nx)%nat ∧ qchain nx (nx !!! b) q'
  end.

Lemma qchain_insert nx h q b v : b ∉ q → qchain nx h q → qchain (<[b := v]> nx) h q.
Proof.
  revert h. induction q as [|c q IH]; intros h Hb; [done|]. cbn [qchain]. intros (-> & Hc & Hq).
  apply not_elem_of_cons in Hb as [Hne Hb]. split_and!; [done|by rewrite length_insert|].
  rewrite list_lookup_total_insert_ne by done. by apply IH.
Qed.

(** What the disk is doing for the first request. *)
Definition dev_ok d (bufs : list buf) q : Prop :=
  match q with
  | [] => ad_cmd d = A_idle
  | b :: _ =>
      let bp := bufs !!! b in
      if dirty bp then ad_cmd d = A_idle ∧ ad_sector d (b_drive bp) (b_blockno bp) = b_data bp
      else ad_cmd d = A_read (b_drive bp) (b_blockno bp) 0
  end.

Record ide_inv s q : Prop := {
  ii_lock : idelock s = false;
  ii_queue : qchain (id_qnext s) (idequeue s) q;
  ii_nodup : NoDup q;
  ii_length : length (id_qnext s) = length (id_bufs s);
  ii_bufs : ∀ b, b ∈ q → buf_wf (id_bufs s !!! b) ∧ request_done (id_bufs s !!! b) = false;
  ii_dev : dev_ok (id_dev s) (id_bufs s) q
}.

Lemma queue_in_range nx h q b : qchain nx h q → b ∈ q → (b < length nx)%nat.
Proof.
  revert h. induction q as [|c q IH]; intros h; [by intros _ ?%not_elem_of_nil|].
  intros (_ & Hc & Hq) [->|Hb]%elem_of_cons; [done|by apply (IH _ Hq)].
Qed.

Lemma queue_length nx h q : qchain nx h q → NoDup q → (length q ≤ length nx)%nat.
Proof.
  intros Hq Hnd. rewrite <- (length_seq (length nx) 0). apply submseteq_length, NoDup_submseteq; [done|].
  intros b Hb. apply elem_of_seq. pose proof (queue_in_range nx h q b Hq Hb). lia.
Qed.

(** The loop that looks for the end of the queue. *)
Lemma wp_queue_end q pp fuel s :
  qchain (id_qnext s) (link_at pp s) q → (length q < fuel)%nat →
  wp (queue_end fuel pp) (λ pp' s', s' = s ∧ pp' = default pp (Q_next <$> last q)) s.
Proof.
  revert pp fuel. induction q as [|b q IH]; intros pp fuel Hq Hf; (destruct fuel as [|fuel]; [simpl in Hf; lia|]);
    cbn [queue_end]; wp_step; wp_step.
  - cbn [qchain] in Hq. rewrite Hq. wp_step. done.
  - destruct Hq as (-> & _ & Hq). cbn in Hf. eapply wp_mono; [apply (IH (Q_next b)); [done|lia]|].
    intros pp' s' [-> ->]. split; [done|]. rewrite last_cons. by destruct (last q).
Qed.

(** Writing the link at the end appends. *)
Lemma qchain_append nx h q b : b ∉ q → (b < length nx)%nat → nx !!! b = None → qchain nx h q → NoDup q →
  match last q with
  | None => h = None
  | Some c => qchain (<[c := Some b]> nx) h (q ++ [b])
  end.
Proof.
  revert h. induction q as [|c q IH]; intros h Hb Hlt Hn Hq Hnd; [done|]. rewrite last_cons.
  destruct Hq as (-> & Hc & Hq). apply not_elem_of_cons in Hb as [Hne Hb]. apply NoDup_cons in Hnd as [Hcq Hnd].
  specialize (IH _ Hb Hlt Hn Hq Hnd). destruct (last q) as [e|] eqn:El.
  - cbn [qchain app]. rewrite length_insert. split_and!; [done|done|]. rewrite list_lookup_total_insert_ne; [done|].
    intros ->. apply Hcq. by apply last_Some_elem_of.
  - apply last_None in El as ->. cbn [qchain app].
    rewrite length_insert, list_lookup_total_insert_eq, list_lookup_total_insert_ne by done. done.
Qed.

(** ** [iderw] up to the point where it sleeps *)

Lemma set_lock_same (bufs : list buf) b : (b < length bufs)%nat →
  alter (set_lock (b_lock (bufs !!! b))) b bufs = bufs.
Proof.
  intros Hb. apply list_eq. intros i. destruct (decide (i = b)) as [->|].
  - rewrite list_lookup_alter_eq. destruct (lookup_lt_is_Some_2 bufs b Hb) as [bp E].
    rewrite E, (list_lookup_total_correct _ _ _ E). by destruct bp.
  - by rewrite list_lookup_alter_ne.
Qed.

Lemma wp_enqueue b s q : qchain (id_qnext s) (idequeue s) q → NoDup q → length (id_qnext s) = length (id_bufs s) →
  b ∉ q → (b < length (id_bufs s))%nat →
  wp (enqueue b) (λ _ s', ∃ nx h, s' = with_idequeue h (with_qnext nx s) ∧ length nx = length (id_bufs s) ∧
    qchain nx h (q ++ [b]) ∧ (h = Some b ↔ q = [])) s.
Proof.
  intros Hq Hnd Hl Hb Hlt. unfold enqueue. do 5 wp_step. cbn [set_link].
  pose proof (qchain_insert _ _ _ b None Hb Hq) as Hq2. set (nx2 := <[b:=None]> (id_qnext s)) in *.
  assert (Hl2 : length nx2 = length (id_bufs s)) by (unfold nx2; by rewrite length_insert).
  assert (Hn2 : nx2 !!! b = None) by (unfold nx2; rewrite list_lookup_total_insert_eq by lia; done).
  eapply wp_mono; [apply (wp_queue_end q Q_head); [done|]|].
  { pose proof (queue_length _ _ _ Hq Hnd). cbn. lia. }
  intros pp s' [-> ->]. wp_step. pose proof (qchain_append nx2 (idequeue s) q b Hb ltac:(lia) Hn2 Hq2 Hnd) as Hap.
  destruct (last q) as [e|] eqn:El; cbn [fmap option_fmap option_map default set_link with_qnext].
  - exists (<[e:=Some b]> nx2), (idequeue s). split_and!; [by destruct s|by rewrite length_insert|done|]. split.
    + intros E. exfalso. destruct q as [|c q]; [done|]. destruct Hq as (E2 & _). rewrite E in E2. injection E2 as <-.
      apply Hb. by left.
    + by intros ->.
  - apply last_None in El as ->. exists nx2, (Some b). split_and!; [by destruct s|done| |done].
    cbn [app qchain]. split_and!; [done|lia|done].
Qed.

Lemma dev_after_ok d bp d' (bufs : list buf) b : bufs !!! b = bp → dev_after d bp d' → dev_ok d' bufs [b].
Proof.
  intros E. unfold dev_after, dev_ok. rewrite E. destruct (dirty bp); [|tauto]. intros [Hc Hs]. split; [done|].
  rewrite Hs. unfold upd_sector. by rewrite decide_True.
Qed.

Lemma wp_ide_rw pid b s q :
  ide_inv s q → b ∉ q → (b < length (id_bufs s))%nat → buf_wf (id_bufs s !!! b) →
  b_lock (id_bufs s !!! b) = Sleeplock true false pid → request_done (id_bufs s !!! b) = false →
  (b_dev (id_bufs s !!! b) = 0 ∨ havedisk1 s = true) →
  wp (ide_rw pid b) (λ r s', r = false ∧ ide_inv s' (q ++ [b]) ∧ id_bufs s' = id_bufs s ∧ id_woken s' = id_woken s ∧
    havedisk1 s' = havedisk1 s ∧
    if decide (q = []) then dev_after (id_dev s) (id_bufs s !!! b) (id_dev s') else id_dev s' = id_dev s) s.
Proof.
  intros [Hlk Hq Hnd Hl Hbs Hdev] Hb Hlt Hwf Hlock Hnd' Hdisk. unfold ide_rw, Ide.ide_rw. wp_step.
  apply wp_zoom. rewrite Hlock. unfold wp at 1. rewrite holdingsleep_eq, Z.eqb_refl. cbn [andb negb].
  rewrite <- Hlock, set_lock_same by done. replace (with_bufs (id_bufs s) s) with s by (by destruct s).
  wp_step. unfold the_buf. wp_step. rewrite Hnd'. wp_step. wp_step.
  assert (negb (b_dev (id_bufs s !!! b) =? 0) && negb (havedisk1 s) = false) as ->.
  { destruct Hdisk as [->| ->]; [done|by rewrite andb_false_r]. }
  wp_step. unfold ide_acquire. apply wp_zoom. rewrite Hlk. unfold wp at 1, spin_acquire.
  set (s1 := with_idelock true s).
  wp_step. eapply wp_mono; [by apply (wp_enqueue b s1 q)|]. intros [] s2 (nx & h & -> & Hl2 & Hq2 & Hh). wp_step. wp_step.
  set (s2 := with_idequeue h (with_qnext nx s1)). cbn [idequeue with_idequeue]. wp_step.
  assert (Hbs2 : ∀ c, c ∈ q ++ [b] → buf_wf (id_bufs s !!! c) ∧ request_done (id_bufs s !!! c) = false).
  { intros c [Hc| ->%list_elem_of_singleton]%elem_of_app; [by apply Hbs|done]. }
  assert (Hnd2 : NoDup (q ++ [b])).
  { apply NoDup_app. split_and!; [done| |apply NoDup_singleton]. by intros x Hx ->%list_elem_of_singleton. }
  destruct (decide (q = [])) as [Hqe|Hqe].
  - rewrite bool_decide_true by by apply Hh. cbn [whenM]. subst q.
    eapply wp_mono; [by apply (wp_idestart b s2)|]. intros [] s3 (d' & -> & Hd). unfold iderw_wait, the_buf.
    wp_step. wp_step. wp_step. unfold ide_release. apply wp_zoom. unfold wp, spin_release. cbn.
    split; [done|]. split; [|done]. split; try done. by apply (dev_after_ok (id_dev s) (id_bufs s !!! b)).
  - rewrite bool_decide_false by (intros E; by apply Hqe, Hh). cbn [whenM]. wp_step. unfold iderw_wait, the_buf.
    wp_step. wp_step. wp_step. unfold ide_release. apply wp_zoom. unfold wp, spin_release. cbn.
    split; [done|]. split; [|done]. split; try done. by destruct q.
Qed.

(** ** The interrupt handler *)

Lemma wp_ideintr_none s : ide_inv s [] → wp ideintr (λ _ s', s' = s) s.
Proof.
  intros [Hlk Hq _ _ _ _]. cbn [qchain] in Hq. unfold ideintr, Ide.ideintr. wp_step. unfold ide_acquire. apply wp_zoom.
  rewrite Hlk. unfold wp at 1, spin_acquire. wp_step. wp_step. cbn [idequeue with_idelock]. rewrite Hq.
  unfold ide_release. apply wp_zoom. unfold wp, spin_release. cbn. destruct s. simpl in *. by subst.
Qed.

(** The data a request ends with. *)
Definition answer d (bp : buf) : list Z :=
  if dirty bp then b_data bp else ad_sector d (b_drive bp) (b_blockno bp).

(** The first part of the handler: the data of the first request. *)
Definition take_data (b : nat) (bp : buf) : M (ide D) unit :=
  whenM (Z.land (b_flags bp) B_DIRTY =? 0)
    (r ← on_dev (idewait polls true);
     whenM (0 <=? r)
       (data ← on_dev (insl 0x1f0 (Z.to_nat (BSIZE / 4)));
        buf_upd b (set_data data))).

Lemma wp_take_data b s q : let bp := id_bufs s !!! b in
  (b < length (id_bufs s))%nat → dev_ok (id_dev s) (id_bufs s) (b :: q) →
  wp (take_data b bp) (λ _ s', ∃ d', s' = with_dev d' (with_bufs (alter (set_data (answer (id_dev s) bp)) b (id_bufs s)) s) ∧
    ad_cmd d' = A_idle ∧ ad_sector d' = ad_sector (id_dev s)) s.
Proof.
  intros bp Hlt Hdev. unfold take_data, answer. cbn [dev_ok] in Hdev. fold bp in Hdev.
  assert (Ed : (Z.land (b_flags bp) B_DIRTY =? 0) = negb (dirty bp)) by (unfold dirty; by rewrite negb_involutive).
  rewrite Ed. destruct (dirty bp) eqn:Edirty; cbn [negb whenM].
  - wp_step. exists (id_dev s). destruct Hdev as [Hc _]. split; [|done].
    replace (alter _ b (id_bufs s)) with (id_bufs s); [by destruct s|]. apply list_eq. intros i. destruct (decide (i = b)) as [->|].
    + rewrite list_lookup_alter_eq. destruct (lookup_lt_is_Some_2 _ _ Hlt) as [bp' E]. unfold bp.
      rewrite E, (list_lookup_total_correct _ _ _ E). by destruct bp'.
    + by rewrite list_lookup_alter_ne.
  - wp_step. unfold on_dev. apply wp_zoom. eapply wp_mono; [apply wp_idewait|].
    intros r d1 (-> & Hb1 & _ & Hc1 & Hs1). change (0 <=? 0) with true. cbn [whenM]. wp_step. apply wp_zoom.
    cbn [id_dev with_dev]. change (Z.to_nat (BSIZE / 4)) with (S 127).
    eapply wp_mono; [apply (wp_insl_sector 127 0 d1 (b_drive bp) (b_blockno bp)); [congruence|done|done]|].
    intros bs d2 (-> & Hc2 & Hs2). unfold buf_upd. wp_step. exists d2. split_and!; [|done|congruence].
    rewrite drop_0, Hs1. by destruct s.
Qed.

(** The sectors once the next request was started. *)
Definition sectors_after d (bufs : list buf) q : Z → Z → list Z :=
  match q with
  | [] => ad_sector d
  | b :: _ =>
      let bp := bufs !!! b in
      if dirty bp then upd_sector (ad_sector d) (b_drive bp) (b_blockno bp) (b_data bp) else ad_sector d
  end.

Lemma wp_ideintr b s q : ide_inv s (b :: q) →
  wp ideintr (λ _ s', ide_inv s' q ∧
    id_bufs s' = alter (finish (answer (id_dev s) (id_bufs s !!! b))) b (id_bufs s) ∧
    id_woken s' = id_woken s ++ [b] ∧ havedisk1 s' = havedisk1 s ∧
    ad_sector (id_dev s') = sectors_after (id_dev s) (id_bufs s) q) s.
Proof.
  intros [Hlk Hq Hnd Hl Hbs Hdev]. destruct Hq as (Hh & Hlt & Hq). apply NoDup_cons in Hnd as [Hbq Hnd].
  unfold ideintr, Ide.ideintr. wp_step. unfold ide_acquire. apply wp_zoom.
  rewrite Hlk. unfold wp at 1, spin_acquire. wp_step. wp_step. cbn [idequeue with_idelock]. rewrite Hh.
  wp_step. wp_step. cbn [id_qnext with_idelock]. set (s1 := with_idequeue _ _). unfold the_buf. wp_step. wp_step.
  change (id_bufs s1) with (id_bufs s). set (bp := id_bufs s !!! b).
  wp_step. eapply wp_mono; [apply (wp_take_data b s1 q); [change (id_bufs s1) with (id_bufs s); lia|done]|].
  change (id_bufs s1) with (id_bufs s). change (id_dev s1) with (id_dev s). fold bp.
  intros [] s2 (d2 & -> & Hc2 & Hs2). unfold buf_upd, ide_wakeup. do 6 wp_step.
  cbn [id_bufs with_dev with_bufs]. set (bufs' := alter _ b (alter _ b (alter _ b _))).
  assert (Eb : bufs' = alter (finish (answer (id_dev s) bp)) b (id_bufs s)).
  { unfold bufs'. rewrite !list_alter_alter. done. }
  assert (Hother : ∀ c, c ∈ q → bufs' !!! c = id_bufs s !!! c).
  { intros c Hc. rewrite Eb. apply list_lookup_total_alter_ne. by intros ->. }
  wp_step. wp_step. cbn [idequeue with_woken with_bufs with_dev with_idequeue s1].
  wp_step. destruct q as [|c q]; cbn [qchain] in Hq.
  - rewrite Hq. cbn [whenM bool_decide]. rewrite bool_decide_false by (by intros []). cbn [whenM]. wp_step.
    unfold ide_release. apply wp_zoom. unfold wp, spin_release. cbn. split; [|by rewrite Eb].
    split; try done; cbn; [by rewrite Eb, length_alter|]. by intros e ?%not_elem_of_nil.
  - destruct Hq as (Hc & Hclt & Hq). rewrite Hc, bool_decide_true by done. cbn [whenM].
    destruct (Hbs c ltac:(set_solver)) as [Hcwf _]. eapply wp_mono.
    { apply (wp_idestart c); cbn [id_dev id_bufs with_woken with_bufs with_dev]; [done|]. rewrite Hother by by left. done. }
    intros [] s4 (d4 & -> & Hd4). unfold ide_release. apply wp_zoom. unfold wp, spin_release. cbn.
    cbn [id_dev id_bufs with_woken with_bufs with_dev] in Hd4. rewrite Hother in Hd4 by by left.
    split; [split|]; try done.
    + cbn. by rewrite Eb, length_alter.
    + intros e He. cbn. rewrite Hother by done. apply Hbs. by right.
    + apply (dev_after_ok d2 (id_bufs s !!! c)); [by apply Hother; left|done].
    + split_and!; try done. unfold sectors_after, dev_after in *. destruct (dirty (id_bufs s !!! c)); rewrite <- Hs2; apply Hd4.
Qed.
End spec.
