(* ===== verification/IdeStep.v ===== *)
(** * Processes and the disk: requests through the IDE driver

    Processes call [iderw], sleep and wake up while the disk interrupts; the
    history of the system is the list of requests in the order the calls were
    made and the list of the answers.  Whatever the interleaving, the answers
    are those of a disk that serves one request after the other in that order
    ([answers]), no process is left asleep, and a single request is what the
    in-memory disk of memide.c would have done. *)

From stdpp Require Import functions gmap.
From S2P Require Import Prelude Words Params Locks BufIface Bio BioLaws Ports Ata Ide IdeSpec.

(** ** The reference: one request at a time *)

Notation disk := (Z → Z → list Z) (only parsing).

Record ireq := Req {
  r_buf : nat;
  r_drive : Z;
  r_block : Z;
  r_write : option (list Z)   (* the data of a write *)
}.

Definition req_of (bp : buf) (b : nat) : ireq :=
  Req b (b_drive bp) (b_blockno bp) (if dirty bp then Some (b_data bp) else None).

Definition req_disk (f : disk) (r : ireq) : disk :=
  match r_write r with Some data => upd_sector f (r_drive r) (r_block r) data | None => f end.
Definition req_answer (f : disk) (r : ireq) : list Z :=
  match r_write r with Some data => data | None => f (r_drive r) (r_block r) end.

Definition disk_after (f : disk) (rs : list ireq) : disk := foldl req_disk f rs.
Fixpoint answers (f : disk) (rs : list ireq) : list (list Z) :=
  match rs with
  | [] => []
  | r :: rs' => req_answer f r :: answers (req_disk f r) rs'
  end.

Lemma answers_snoc f rs r : answers f (rs ++ [r]) = answers f rs ++ [req_answer (disk_after f rs) r].
Proof. revert f. induction rs as [|r' rs IH]; intros f; [done|]. cbn [answers app disk_after foldl]. by rewrite IH. Qed.

Lemma disk_after_snoc f rs r : disk_after f (rs ++ [r]) = req_disk (disk_after f rs) r.
Proof. unfold disk_after. by rewrite foldl_app. Qed.

Lemma length_answers f rs : length (answers f rs) = length rs.
Proof. revert f. induction rs as [|r rs IH]; intros f; [done|]. cbn. by rewrite IH. Qed.

Section sys.
Context {D : Type} {polls : nat} `{!PortIO D, !AtaDisk D, Hlaws : !AtaLaws D polls}.
Implicit Types (s : ide D) (q : list nat).

Record isys := ISys {
  is_ide : ide D;
  is_reqs : list ireq;       (* the requests made so far *)
  is_ans : list (list Z);    (* the data of the buffers when they were finished *)
  is_wait : gset nat;        (* buffers whose [iderw] has not returned *)
  is_asleep : gset nat       (* those of them whose process is asleep *)
}.

Definition bufof s (b : nat) : buf := id_bufs s !!! b.

(** A process may ask for [b]: it holds the lock of the buffer, and there is
    something to do. *)
Record may_call s (pid : Z) (b : nat) : Prop := {
  mc_range : (b < length (id_bufs s))%nat;
  mc_wf : buf_wf (bufof s b);
  mc_lock : b_lock (bufof s b) = Sleeplock true false pid;
  mc_todo : request_done (bufof s b) = false;
  mc_disk : b_dev (bufof s b) = 0 ∨ havedisk1 s = true
}.

(** The disk interrupts: the handler runs and wakes up whoever sleeps on the
    buffers it is done with. *)
Inductive intr : isys → isys → Prop :=
| intr_run s s' reqs ans wait asleep :
    ideintr polls (with_woken [] s) = Ok tt s' →
    intr (ISys s reqs ans wait asleep)
      (ISys s' reqs (ans ++ ((λ b, b_data (bufof s' b)) <$> id_woken s')) wait (asleep ∖ list_to_set (id_woken s'))).

(** Besides, the holder of a buffer may change it, call [iderw], and go on when
    it was woken up. *)
Inductive istep : isys → isys → Prop :=
| istep_own s reqs ans wait asleep b bp :
    b ∉ wait → istep (ISys s reqs ans wait asleep)
      (ISys (with_bufs (<[b := bp]> (id_bufs s)) s) reqs ans wait asleep)
| istep_call s s' reqs ans wait asleep pid b r :
    b ∉ wait → may_call s pid b → ide_rw polls pid b s = Ok r s' →
    istep (ISys s reqs ans wait asleep)
      (ISys s' (reqs ++ [req_of (bufof s b) b]) ans ({[b]} ∪ wait) (if r then asleep else {[b]} ∪ asleep))
| istep_intr σ σ' : intr σ σ' → istep σ σ'
| istep_again s s' reqs ans wait asleep b r :
    b ∈ wait → b ∉ asleep → iderw_again b s = Ok r s' →
    istep (ISys s reqs ans wait asleep)
      (ISys s' reqs ans (if r then wait ∖ {[b]} else wait) (if r then asleep else {[b]} ∪ asleep)).

(** The last request for [b] is at position [n]. *)
Definition last_for (rs : list ireq) (b n : nat) : Prop :=
  (∃ r, rs !! n = Some r ∧ r_buf r = b) ∧ ∀ m r, rs !! m = Some r → r_buf r = b → (m ≤ n)%nat.

Lemma last_for_other rs r b n : last_for rs b n → r_buf r ≠ b → last_for (rs ++ [r]) b n.
Proof.
  intros [(r0 & Hr0 & Hb) Hm] Hne. split; [exists r0; split; [by apply lookup_app_l_Some|done]|].
  intros m r' [Hl|[Hge Hl]]%lookup_app_Some Hb'; [by apply (Hm m r')|].
  apply list_lookup_singleton_Some in Hl as [_ <-]. done.
Qed.

Lemma last_for_snoc rs r : last_for (rs ++ [r]) (r_buf r) (length rs).
Proof.
  split; [exists r; split; [by rewrite lookup_app_r, Nat.sub_diag by lia|done]|].
  intros m r' Hl%lookup_lt_Some _. rewrite length_app in Hl. cbn in Hl. lia.
Qed.

(** Requests [done] were answered, the ones of the queue [q] are to come. *)
Record sys_inv (f0 : disk) (σ : isys) q (done : list ireq) : Prop := {
  si_ide : ide_inv (is_ide σ) q;
  si_reqs : is_reqs σ = done ++ ((λ b, req_of (bufof (is_ide σ) b) b) <$> q);
  si_ans : is_ans σ = answers f0 done;
  si_disk : ad_sector (id_dev (is_ide σ)) =
    disk_after f0 (done ++ take 1 ((λ b, req_of (bufof (is_ide σ) b) b) <$> q));
  si_queue : ∀ b, b ∈ q → b ∈ is_wait σ;
  si_asleep : ∀ b, b ∈ is_asleep σ → b ∈ q;
  si_done : ∀ b, b ∈ is_wait σ → b ∉ q → request_done (bufof (is_ide σ) b) = true ∧
    ∃ n, last_for done b n ∧ is_ans σ !! n = Some (b_data (bufof (is_ide σ) b))
}.

Lemma fmap_req_same s s' q : (∀ b, b ∈ q → bufof s' b = bufof s b) →
  (λ b, req_of (bufof s' b) b) <$> q = (λ b, req_of (bufof s b) b) <$> q.
Proof. intros Hs. apply list_fmap_ext. intros i b Hb%list_elem_of_lookup_2. by rewrite Hs. Qed.

Lemma inv_own f0 s reqs ans wait asleep q done b bp :
  sys_inv f0 (ISys s reqs ans wait asleep) q done → b ∉ wait →
  sys_inv f0 (ISys (with_bufs (<[b := bp]> (id_bufs s)) s) reqs ans wait asleep) q done.
Proof.
  intros [[Hlk Hq Hnd Hl Hbs Hdev] Hr Ha Hd Hqw Has Hdone] Hb. cbn [is_ide is_reqs is_ans is_wait is_asleep] in *.
  assert (Hsame : ∀ c, c ∈ wait → bufof (with_bufs (<[b := bp]> (id_bufs s)) s) c = bufof s c).
  { intros c Hc. unfold bufof. cbn. apply list_lookup_total_insert_ne. by intros ->. }
  split; cbn [is_ide is_reqs is_ans is_wait is_asleep].
  - split; try done.
    + cbn. by rewrite length_insert.
    + intros c Hc. fold (bufof (with_bufs (<[b := bp]> (id_bufs s)) s) c). rewrite Hsame by by apply Hqw. by apply Hbs.
    + destruct q as [|c q]; [done|]. unfold dev_ok in *. cbn [id_dev with_bufs].
      fold (bufof (with_bufs (<[b := bp]> (id_bufs s)) s) c). rewrite Hsame by (apply Hqw; by left). done.
  - rewrite (fmap_req_same s); [done|]. intros c Hc. by apply Hsame, Hqw.
  - done.
  - rewrite (fmap_req_same s); [done|]. intros c Hc. by apply Hsame, Hqw.
  - done.
  - done.
  - intros c Hc Hcq. rewrite Hsame by done. by apply Hdone.
Qed.

Lemma inv_call f0 s reqs ans wait asleep q done pid b :
  sys_inv f0 (ISys s reqs ans wait asleep) q done → b ∉ wait → may_call s pid b →
  wp (ide_rw polls pid b) (λ r s', r = false ∧ sys_inv f0
    (ISys s' (reqs ++ [req_of (bufof s b) b]) ans ({[b]} ∪ wait) ({[b]} ∪ asleep)) (q ++ [b]) done) s.
Proof.
  intros [Hi Hr Ha Hd Hqw Has Hdone] Hb [Hlt Hwf Hlock Htodo Hdisk]. cbn [is_ide is_reqs is_ans is_wait is_asleep] in *.
  assert (Hbq : b ∉ q) by (intros ?; by apply Hb, Hqw).
  eapply wp_mono; [by apply (wp_ide_rw pid b s q)|]. intros r s' (-> & Hi' & Eb & _ & _ & Hdev). split; [done|].
  assert (Hsame : ∀ c, bufof s' c = bufof s c) by (intros c; unfold bufof; by rewrite Eb).
  assert (Ef : ∀ l : list nat, (λ c, req_of (bufof s' c) c) <$> l = (λ c, req_of (bufof s c) c) <$> l).
  { intros l. apply fmap_req_same. done. }
  split; cbn [is_ide is_reqs is_ans is_wait is_asleep].
  - done.
  - by rewrite Ef, fmap_app, Hr, <- (assoc_L (++)).
  - done.
  - rewrite Ef, fmap_app. case_decide as Hqe.
    + subst q. cbn [fmap list_fmap app take] in *. rewrite disk_after_snoc. rewrite app_nil_r in Hd. rewrite <- Hd.
      fold (bufof s b) in Hdev. unfold dev_after in Hdev. unfold req_disk, req_of. cbn [r_write r_drive r_block].
      destruct (dirty (bufof s b)); apply Hdev.
    + rewrite take_app_le; [by rewrite Hdev|]. rewrite length_fmap. destruct q; [done|]. cbn. lia.
  - intros c [Hc| ->%list_elem_of_singleton]%elem_of_app; [|set_solver]. apply Hqw in Hc. set_solver.
  - intros c Hc. apply elem_of_app. apply elem_of_union in Hc as [->%elem_of_singleton|Hc]; [right; by left|].
    left. by apply Has.
  - intros c Hc Hcq. rewrite Hsame. apply not_elem_of_app in Hcq as [Hcq Hcb]. apply Hdone; [|done]. set_solver.
Qed.

Lemma inv_intr f0 s reqs ans wait asleep b q done :
  sys_inv f0 (ISys s reqs ans wait asleep) (b :: q) done →
  wp (ideintr polls) (λ _ s', id_woken s' = [b] ∧
    sys_inv f0 (ISys s' reqs (ans ++ [b_data (bufof s' b)]) wait (asleep ∖ {[b]})) q
      (done ++ [req_of (bufof s b) b])) (with_woken [] s).
Proof.
  intros [Hi Hr Ha Hd Hqw Has Hdone]. cbn [is_ide is_reqs is_ans is_wait is_asleep] in *.
  assert (Hi' : ide_inv (with_woken [] s) (b :: q)) by (destruct Hi; by split).
  pose proof (ii_nodup _ _ Hi) as Hnd. apply NoDup_cons in Hnd as [Hbq Hnd].
  assert (Hlt : (b < length (id_bufs s))%nat).
  { rewrite <- (ii_length _ _ Hi). apply (queue_in_range _ _ _ b (ii_queue _ _ Hi)). by left. }
  eapply wp_mono; [by apply (wp_ideintr b)|]. cbn [id_dev id_bufs id_woken with_woken]. fold (bufof s b).
  intros [] s' (Hinv & Eb & Ew & _ & Es). split; [done|].
  set (r := req_of (bufof s b) b) in *. cbn [fmap list_fmap take] in Hd. fold r in Hd. rewrite disk_after_snoc in Hd.
  assert (Hother : ∀ c, c ≠ b → bufof s' c = bufof s c).
  { intros c Hc. unfold bufof. rewrite Eb. by apply list_lookup_total_alter_ne. }
  assert (Hbuf : bufof s' b = finish (answer (id_dev s) (bufof s b)) (bufof s b)).
  { destruct (lookup_lt_is_Some_2 _ _ Hlt) as [bp E]. pose proof (list_lookup_total_correct _ _ _ E) as Et.
    fold (bufof s b) in Et. rewrite Et in *. unfold bufof. rewrite Eb.
    apply list_lookup_total_correct. by rewrite list_lookup_alter_eq, E. }
  assert (Ef : (λ c, req_of (bufof s' c) c) <$> q = (λ c, req_of (bufof s c) c) <$> q).
  { apply fmap_req_same. intros c Hc. apply Hother. by intros ->. }
  assert (Eans : b_data (bufof s' b) = req_answer (disk_after f0 done) r).
  { rewrite Hbuf. cbn [b_data finish set_flags set_data]. unfold answer, r, req_answer, req_of. cbn [r_write r_drive r_block].
    destruct (dirty (bufof s b)) eqn:Edirty; [done|]. rewrite Hd. unfold r, req_disk, req_of. cbn [r_write]. by rewrite Edirty. }
  assert (Hlast : ans ++ [b_data (bufof s' b)] = answers f0 (done ++ [r])) by by rewrite answers_snoc, Eans, Ha.
  split; cbn [is_ide is_reqs is_ans is_wait is_asleep].
  - done.
  - rewrite Ef, Hr, <- (assoc_L (++)). done.
  - done.
  - rewrite Ef, Es. unfold sectors_after. destruct q as [|c q]; cbn [fmap list_fmap take].
    + by rewrite app_nil_r, disk_after_snoc.
    + rewrite disk_after_snoc, disk_after_snoc, <- Hd. fold (bufof s c). unfold req_disk, req_of. cbn [r_write r_drive r_block].
      by destruct (dirty (bufof s c)).
  - intros c Hc. apply Hqw. by right.
  - intros c Hc. apply elem_of_difference in Hc as [Hc Hcb]. apply Has, elem_of_cons in Hc as [->|]; [set_solver|done].
  - intros c Hc Hcq. destruct (decide (c = b)) as [->|Hne].
    + split; [rewrite Hbuf; apply finish_done|]. exists (length done). split.
      * apply last_for_snoc.
      * rewrite Hlast, answers_snoc, lookup_app_r, length_answers, Nat.sub_diag by (rewrite length_answers; lia).
        by rewrite Eans.
    + rewrite Hother by done. destruct (Hdone c Hc) as [Hd1 (n & Hn & Hans)].
      { apply not_elem_of_cons. done. }
      split; [done|]. exists n. split; [by apply last_for_other; [|apply not_eq_sym]|by apply lookup_app_l_Some].
Qed.

Lemma again_eq s b : idelock s = false → iderw_again b s = Ok (request_done (bufof s b)) s.
Proof. destruct s. cbn. by intros ->. Qed.

Lemma inv_again f0 s reqs ans wait asleep q done b r s' :
  sys_inv f0 (ISys s reqs ans wait asleep) q done → b ∈ wait → iderw_again b s = Ok r s' →
  sys_inv f0 (ISys s' reqs ans (if r then wait ∖ {[b]} else wait) (if r then asleep else {[b]} ∪ asleep)) q done ∧
  r = request_done (bufof s b) ∧ s' = s.
Proof.
  intros [Hi Hr Ha Hd Hqw Has Hdone] Hb. cbn [is_ide is_reqs is_ans is_wait is_asleep] in *.
  rewrite (again_eq s b (ii_lock _ _ Hi)). intros E. injection E as <- <-. split; [|done]. destruct (request_done (bufof s b)) eqn:Er; split; cbn [is_ide is_reqs is_ans is_wait is_asleep]; try done.
  - intros c Hc. apply elem_of_difference. split; [by apply Hqw|]. intros ->%elem_of_singleton.
    destruct (ii_bufs _ _ Hi b Hc) as [_ E]. unfold bufof in Er. congruence.
  - intros c Hc. apply Hdone. set_solver.
  - intros c Hc. apply elem_of_union in Hc as [->%elem_of_singleton|Hc]; [|by apply Has].
    destruct (decide (b ∈ q)) as [|Hn]; [done|]. destruct (Hdone b Hb Hn) as [E _]. congruence.
Qed.

(** ** The system *)

Definition start s : isys := ISys s [] [] ∅ ∅.

Lemma istart_inv s : ide_inv s [] → sys_inv (ad_sector (id_dev s)) (start s) [] [].
Proof. intros Hi. split; try done; cbn; intros b; set_solver. Qed.

Lemma inv_woken f0 s reqs ans wait asleep q done : sys_inv f0 (ISys s reqs ans wait asleep) q done →
  sys_inv f0 (ISys (with_woken [] s) reqs ans wait asleep) q done.
Proof. intros [[] ? ? ? ? ? ?]. by split. Qed.

(** An interrupt serves the first request of the queue, if there is one. *)
Lemma inv_interrupt f0 σ σ' q done : sys_inv f0 σ q done → intr σ σ' →
  is_reqs σ' = is_reqs σ ∧ is_wait σ' = is_wait σ ∧
  match q with
  | [] => sys_inv f0 σ' [] done ∧ is_asleep σ' = is_asleep σ
  | b :: q' => sys_inv f0 σ' q' (done ++ [req_of (bufof (is_ide σ) b) b])
  end.
Proof.
  intros Hinv Hs. destruct Hs as [s s' reqs ans wait asleep E]. split; [done|]. split; [done|]. destruct q as [|b q].
  - pose proof (inv_woken _ _ _ _ _ _ _ _ Hinv) as Hw. pose proof (wp_ideintr_none (polls := polls) _ (si_ide _ _ _ _ Hw)) as Hn.
    unfold wp in Hn. cbn [is_ide] in Hn. rewrite E in Hn. subst s'. cbn [id_woken with_woken fmap list_fmap list_to_set is_asleep].
    rewrite app_nil_r, difference_empty_L. done.
  - pose proof (inv_intr f0 s reqs ans wait asleep b q done Hinv) as Hw. unfold wp in Hw. rewrite E in Hw.
    destruct Hw as [Ew Hw]. rewrite Ew. cbn [fmap list_fmap list_to_set is_ide]. by rewrite (right_id_L ∅ (∪)).
Qed.

Lemma inv_step f0 σ σ' q done : sys_inv f0 σ q done → istep σ σ' → ∃ q' done', sys_inv f0 σ' q' done'.
Proof.
  intros Hinv Hs. destruct Hs as [s reqs ans wait asleep b bp Hb|s s' reqs ans wait asleep pid b r Hb Hm E|σ σ' Hi|s s' reqs ans wait asleep b r Hb Ha E].
  - exists q, done. by apply inv_own.
  - pose proof (inv_call f0 s reqs ans wait asleep q done pid b Hinv Hb Hm) as Hw. unfold wp in Hw. rewrite E in Hw.
    destruct Hw as [-> Hw]. by eauto.
  - destruct (inv_interrupt f0 σ σ' q done Hinv Hi) as (_ & _ & Hq). destruct q; [destruct Hq|]; eauto.
  - destruct (inv_again f0 s reqs ans wait asleep q done b r s' Hinv Hb E) as [Hinv' _]. eauto.
Qed.

Lemma reach_inv s σ : ide_inv s [] → rtc istep (start s) σ →
  ∃ q done, sys_inv (ad_sector (id_dev s)) σ q done.
Proof.
  intros Hi Hr. set (f0 := ad_sector (id_dev s)).
  assert (H0 : ∃ q done, sys_inv f0 (start s) q done) by (exists [], []; by apply istart_inv).
  revert H0. generalize (start s) Hr. clear Hr. intros σ0 Hr. induction Hr as [|x y z Hxy _ IH]; [done|].
  intros (q & done & Hinv). apply IH. by eapply inv_step.
Qed.


Lemma interrupt_ok f0 σ q done : sys_inv f0 σ q done → ∃ σ', intr σ σ'.
Proof.
  intros Hinv. destruct σ as [s reqs ans wait asleep]. pose proof (inv_woken _ _ _ _ _ _ _ _ Hinv) as Hw.
  assert (∃ s', ideintr polls (with_woken [] s) = Ok tt s') as [s' E]; [|eexists; by constructor].
  destruct q as [|b q].
  - pose proof (wp_ideintr_none (polls := polls) _ (si_ide _ _ _ _ Hw)) as Hn. cbn [is_ide] in Hn. apply wp_ok in Hn as ([] & s' & E & _). eauto.
  - pose proof (wp_ideintr (polls := polls) b _ q (si_ide _ _ _ _ Hw)) as Hn. cbn [is_ide] in Hn. apply wp_ok in Hn as ([] & s' & E & _). eauto.
Qed.


(** ** One request at a time: the memory disk *)

(** The two disks hold the same blocks. *)
Definition same_disk (bs : bst) s : Prop :=
  ∀ n, 0 ≤ n < disksize bs → memdisk bs !!! Z.to_nat n = ad_sector (id_dev s) 1 n.

(** A process makes a request, sleeps, the disk interrupts, and it goes on. *)
Definition ide_sync (pid : Z) (b : nat) : M (ide D) bool :=
  r ← ide_rw polls pid b;
  ideintr polls ;;
  if r then ret true else iderw_again b.

Lemma wp_ide_sync pid b s : ide_inv s [] → may_call s pid b →
  wp (ide_sync pid b) (λ r s', r = true ∧ ide_inv s' [] ∧
    id_bufs s' = alter (finish (req_answer (ad_sector (id_dev s)) (req_of (bufof s b) b))) b (id_bufs s) ∧
    ad_sector (id_dev s') = req_disk (ad_sector (id_dev s)) (req_of (bufof s b) b)) s.
Proof.
  intros Hi [Hlt Hwf Hlock Htodo Hdisk]. unfold ide_sync. wp_step.
  eapply wp_mono; [apply (wp_ide_rw pid b s [] Hi); (done || apply not_elem_of_nil)|].
  intros r s1 (-> & Hi1 & Eb & _ & _ & Hdev). rewrite decide_True in Hdev by done. cbn [app] in Hi1.
  wp_step. eapply wp_mono; [by apply (wp_ideintr b s1 [])|]. intros [] s2 (Hi2 & Eb2 & _ & _ & Es2).
  assert (Ea : answer (id_dev s1) (bufof s b) = req_answer (ad_sector (id_dev s)) (req_of (bufof s b) b)).
  { unfold answer, req_answer, req_of, dev_after in *. cbn [r_write r_drive r_block]. fold (bufof s b) in Hdev.
    destruct (dirty (bufof s b)); [done|]. destruct Hdev as [_ ->]. done. }
  rewrite Eb in Eb2. fold (bufof s b) in Eb2. rewrite Ea in Eb2.
  unfold wp. rewrite (again_eq s2 b (ii_lock _ _ Hi2)). split_and!; [|done|done|].
  - unfold bufof. rewrite Eb2. destruct (lookup_lt_is_Some_2 _ _ Hlt) as [bp E].
    erewrite list_lookup_total_correct by (rewrite list_lookup_alter_eq, E; done). apply finish_done.
  - rewrite Es2. cbn [sectors_after]. unfold dev_after in Hdev. fold (bufof s b) in Hdev.
    unfold req_disk, req_of. cbn [r_write r_drive r_block]. destruct (dirty (bufof s b)); apply Hdev.
Qed.

Lemma finish_flags f : Z.land f B_DIRTY = 0 → Z.lor f B_VALID = Z.land (Z.lor f B_VALID) (Z.lnot B_DIRTY).
Proof.
  intros Hf. apply Z.bits_inj'. intros n Hn. rewrite Z.land_spec, !Z.lor_spec, Z.lnot_spec by done.
  assert (Hb : Z.testbit f n && Z.testbit B_DIRTY n = false) by (rewrite <- Z.land_spec, Hf; apply Z.bits_0).
  destruct (decide (n = 2)) as [->|Hne].
  - change (Z.testbit B_DIRTY 2) with true in *. change (Z.testbit B_VALID 2) with false. by destruct (Z.testbit f 2).
  - assert (Z.testbit B_DIRTY n = false) as ->; [|by rewrite andb_true_r].
    change B_DIRTY with (2 ^ 2). apply Z.pow2_bits_false. lia.
Qed.

(** [iderw] of memide.c. *)
Lemma wp_mem_iderw (bs : bst) b : (b < length (bc_buf bs))%nat →
  b_lock (bufn bs b) = Sleeplock true false (cur_pid bs) → request_done (bufn bs b) = false →
  b_dev (bufn bs b) = 1 → 0 ≤ b_blockno (bufn bs b) < disksize bs →
  let n := Z.to_nat (b_blockno (bufn bs b)) in
  wp (iderw b) (λ _ bs', bc_buf bs' = alter (finish (if dirty (bufn bs b) then b_data (bufn bs b) else memdisk bs !!! n)) b (bc_buf bs) ∧
    memdisk bs' = if dirty (bufn bs b) then <[n := b_data (bufn bs b)]> (memdisk bs) else memdisk bs) bs.
Proof.
  intros Hlt Hlock Htodo Hdev Hblk n. unfold iderw. wp_step. apply wp_holdingsleep; [done|]. cbn [negb]. wp_step. wp_step.
  fold (request_done (bufn bs b)). rewrite Htodo. rewrite Hdev. change (1 =? 1) with true. cbn [negb]. wp_step. wp_step.
  rewrite (proj2 (Z.leb_gt _ _)) by lia. fold (dirty (bufn bs b)).
  assert (Hup : ∀ f : buf → buf, <[b := f (bufn bs b)]> (bc_buf bs) = alter f b (bc_buf bs)).
  { intros f. apply list_eq. intros i. destruct (decide (i = b)) as [->|]; [|by rewrite list_lookup_insert_ne, list_lookup_alter_ne].
    rewrite list_lookup_insert_eq, list_lookup_alter_eq by done. unfold bufn. destruct (lookup_lt_is_Some_2 _ _ Hlt) as [bp E].
    by rewrite E, (list_lookup_total_correct _ _ _ E). }
  set (bp := bufn bs b) in *. wp_step. destruct (dirty bp) eqn:Ed; cbn match.
  - do 4 wp_step. split; [|done]. unfold upd, bufn. cbn [bc_buf with_bc_buf with_disk].
    rewrite !list_lookup_total_insert_eq, list_insert_insert_eq by (rewrite ?length_insert; done).
    fold (bufn bs b) bp. rewrite <- Hup. f_equal. unfold finish. cbn [b_flags set_flags].
    rewrite Z.land_lor_distr_l. change (Z.land B_VALID (Z.lnot B_DIRTY)) with B_VALID. by destruct bp.
  - do 2 wp_step. split; [|done]. unfold upd, bufn. cbn [bc_buf with_bc_buf].
    rewrite !list_lookup_total_insert_eq, list_insert_insert_eq by (rewrite ?length_insert; done).
    fold (bufn bs b) bp. rewrite <- Hup. f_equal. unfold finish. cbn [b_flags set_data set_flags].
    rewrite <- finish_flags; [done|]. unfold dirty in Ed. by apply negb_false_iff, Z.eqb_eq in Ed.
Qed.

(** Used by one process at a time, the IDE driver is the memory disk the
    rest of the kernel is verified over: after a request, the sleep and the
    interrupt that ends it, the buffers and the disk are exactly what [iderw] of
    memide.c makes of the same buffers and the same disk. *)
Theorem ide_refines_memide pid b (bs : bst) s :
  ide_inv s [] → may_call s pid b → bc_buf bs = id_bufs s → cur_pid bs = pid →
  b_dev (bufof s b) = 1 → b_blockno (bufof s b) < disksize bs → same_disk bs s →
  wp (ide_sync pid b) (λ r s', r = true ∧ ide_inv s' [] ∧
    wp (iderw b) (λ _ bs', bc_buf bs' = id_bufs s' ∧ same_disk bs' s') bs) s.
Proof.
  intros Hi Hm Eb Ep Hdev Hblk Hsame. eapply wp_mono; [by apply wp_ide_sync|]. intros r s' (-> & Hi' & Eb' & Es').
  split; [done|]. split; [done|]. destruct Hm as [Hlt [_ _ Hb0] Hlock Htodo _].
  assert (Ebuf : bufn bs b = bufof s b) by (unfold bufn, bufof; by rewrite Eb).
  eapply wp_mono; [apply wp_mem_iderw; rewrite ?Ebuf, ?Eb, ?Ep; (done || lia)|]. intros [] bs' [E1 E2]. rewrite Ebuf in *.
  set (bp := bufof s b) in *. assert (Edrive : b_drive bp = 1) by (unfold b_drive; by rewrite Hdev).
  unfold req_answer, req_disk, req_of in *. cbn [r_write r_drive r_block] in *. rewrite Edrive in *. split.
  - rewrite E1, Eb', Eb. destruct (dirty bp); [done|]. by rewrite Hsame by lia.
  - intros n Hn. rewrite Es', E2. unfold disksize in *. rewrite E2 in Hn. destruct (dirty bp); [|by apply Hsame].
    rewrite length_insert in Hn. unfold upd_sector. destruct (decide (n = b_blockno bp)) as [->|Hne].
    + rewrite decide_True, list_lookup_total_insert_eq by (done || lia). done.
    + rewrite decide_False, list_lookup_total_insert_ne by (lia || naive_solver). by apply Hsame.
Qed.
End sys.

(** ** Witnesses: a process writes block 5 of the second disk *)

Definition wbuf : buf := Buf B_DIRTY 1 5 (Sleeplock true false 7) 1 0 0 (replicate nsect 65).
Definition wdisk : demo_disk := Demo (λ _, 0) A_idle [] false.
Definition wide : ide demo_disk := Ide false None [None] [wbuf] true [] wdisk.

Lemma wide_inv : ide_inv wide [].
Proof. split; try done; [by constructor|]. by intros b ?%not_elem_of_nil. Qed.

Lemma wide_call : may_call wide 7 0.
Proof.
  split; [cbn; lia| |done|done|by right]. split; [apply length_replicate|apply Forall_replicate; unfold is_byte; lia|].
  cbn. unfold FSSIZE. lia.
Qed.

Lemma wide_trace : ∃ σ, rtc (istep (polls := 2)) (start wide) σ ∧ is_reqs σ = [req_of wbuf 0].
Proof.
  pose proof (inv_call (polls := 2) _ wide [] [] ∅ ∅ [] [] 7 0 (istart_inv wide wide_inv) ltac:(set_solver) wide_call) as Hw.
  apply wp_ok in Hw as (r & s' & E & -> & _).
  eexists. split; [apply rtc_once; by eapply (istep_call wide s' [] [] ∅ ∅ 7 0 false); [set_solver|apply wide_call|]|done].
Qed.



Definition wmem : bst := Bst false [wbuf] (replicate 10 (replicate nsect 0)) 7 [].

Lemma ide_refines_memide_witness :
  wp (ide_sync (polls := 2) 7 0) (λ r s', r = true ∧ ide_inv s' [] ∧
    wp (iderw 0) (λ _ bs', bc_buf bs' = id_bufs s' ∧ same_disk bs' s') wmem) wide.
Proof.
  apply (ide_refines_memide (polls := 2) 7 0 wmem wide wide_inv wide_call); try reflexivity.
  intros n Hn. change (disksize wmem) with 10 in Hn.
  apply list_lookup_total_correct, lookup_replicate. split; [done|lia].
Defined.
