(* ===== verification/Boot.v ===== *)
(** * The boot loader (bootmain.c)

    [bootmain] reads the kernel's ELF image from the disk, sector by sector,
    and puts its segments where the program headers say.  Memory is a byte per
    physical address; the disk is any ATA disk (see [Ata]), and the loops that
    wait for it run at most [polls] times. *)

From stdpp Require Import functions.
From S2P Require Import Prelude Words Params Ports Ata.

Definition SECTSIZE : Z := 512.
Definition scratch : Z := 0x10000.

Record boot (D : Type) := BootSt { bt_mem : Z → Z; bt_dev : D }.
Arguments BootSt {D}.
Arguments bt_mem {D}.
Arguments bt_dev {D}.

Definition store_bytes (a : Z) (bs : list Z) (m : Z → Z) : Z → Z :=
  λ x, if decide (a ≤ x < a + Z.of_nat (length bs)) then bs !!! Z.to_nat (x - a) else m x.
Definition load_bytes (a : Z) (n : nat) (m : Z → Z) : list Z := m <$> seqZ a (Z.of_nat n).

Definition read_elf (m : Z → Z) : elfhdr := get_elfhdr (load_bytes scratch (Z.to_nat sizeof_elfhdr) m).
Definition read_ph (m : Z → Z) (ph : Z) : proghdr := get_proghdr (load_bytes ph (Z.to_nat sizeof_proghdr) m).

Section boot.
Context {D : Type} `{PortIO D} (polls : nat).

Definition disk_io {A} (c : M D A) : M (boot D) A := zoom bt_dev (λ d s, BootSt (bt_mem s) d) c.
Definition put_mem (a : Z) (bs : list Z) : M (boot D) unit := modify (λ s, BootSt (store_bytes a bs (bt_mem s)) (bt_dev s)).

Fixpoint waitdisk_from (fuel : nat) : M D unit :=
  match fuel with
  | O => fault
  | S f => r ← inb 0x1f7; if negb (Z.land r 0xC0 =? 0x40) then waitdisk_from f else ret tt
  end.
Definition waitdisk : M D unit := waitdisk_from polls.

(** Read a single sector at offset into dst. *)
Definition readsect (dst offset : Z) : M (boot D) unit :=
  bs ← disk_io (
    waitdisk ;;
    outb 0x1f2 1 ;;
    outb 0x1f3 offset ;;
    outb 0x1f4 (Z.shiftr offset 8) ;;
    outb 0x1f5 (Z.shiftr offset 16) ;;
    outb 0x1f6 (Z.lor (Z.shiftr offset 24) 0xe0) ;;
    outb 0x1f7 0x20 ;;
    waitdisk ;;
    insl 0x1f0 (Z.to_nat (SECTSIZE / 4)));
  put_mem dst bs.

Fixpoint readseg_from (fuel : nat) (pa epa offset : Z) : M (boot D) unit :=
  match fuel with
  | O => fault
  | S f =>
      if pa <? epa then
        readsect pa offset ;;
        readseg_from f (u32 (pa + SECTSIZE)) epa (u32 (offset + 1))
      else ret tt
  end.

(** Read 'count' bytes at 'offset' from kernel into physical address 'pa'; one
    turn per sector. *)
Definition readseg (pa count offset : Z) : M (boot D) unit :=
  let epa := u32 (pa + count) in
  let pa := u32 (pa - offset mod SECTSIZE) in
  let offset := u32 (offset / SECTSIZE + 1) in
  readseg_from (Z.to_nat (epa / SECTSIZE + 2)) pa epa offset.

(** The file's part of a segment, and zeroes for the rest of it. *)
Definition load_segment (h : proghdr) : M (boot D) unit :=
  readseg (ph_paddr h) (ph_filesz h) (ph_off h) ;;
  whenM (ph_filesz h <? ph_memsz h)
    (put_mem (u32 (ph_paddr h + ph_filesz h)) (replicate (Z.to_nat (ph_memsz h - ph_filesz h)) 0)).

(** Load each program segment. *)
Fixpoint load_segments (n : nat) (ph : Z) : M (boot D) unit :=
  match n with
  | O => ret tt
  | S n' =>
      h ← gets (λ s, read_ph (bt_mem s) ph);
      load_segment h ;;
      load_segments n' (ph + sizeof_proghdr)
  end.

(** The address the loader jumps to, or nothing when the image is not ELF. *)
Definition bootmain : M (boot D) (option Z) :=
  readseg scratch 4096 0 ;;
  elf ← gets (λ s, read_elf (bt_mem s));
  if negb (elf_magic elf =? ELF_MAGIC) then ret None
  else
    load_segments (Z.to_nat (elf_phnum elf)) (scratch + elf_phoff elf) ;;
    elf ← gets (λ s, read_elf (bt_mem s));
    ret (Some (elf_entry elf)).
End boot.

(** ** Sectors *)

Section spec.
Context {D : Type} {polls : nat} `{!PortIO D, !AtaDisk D, Hlaws : !AtaLaws D polls}.
Implicit Types (d : D) (s : boot D).

(** The kernel image: the bytes from sector 1 of the first drive on. *)
Definition image d (j : Z) : Z := ad_sector d 0 (j / SECTSIZE + 1) !!! Z.to_nat (j mod SECTSIZE).

(** An idle disk that still holds what [d] held. *)
Definition idle_as d s : Prop := ad_cmd (bt_dev s) = A_idle ∧ ad_sector (bt_dev s) = ad_sector d.

Lemma wp_waitdisk d : wp (waitdisk polls) (λ _ d', ad_busy d' = 0%nat ∧ ad_reg d' = ad_reg d ∧ ad_cmd d' = ad_cmd d ∧
  ad_sector d' = ad_sector d) d.
Proof.
  assert (Hf : ∀ fuel d, (ad_busy d < fuel)%nat → wp (waitdisk_from fuel) (λ _ d', ad_busy d' = 0%nat ∧
    ad_reg d' = ad_reg d ∧ ad_cmd d' = ad_cmd d ∧ ad_sector d' = ad_sector d) d); [|apply Hf, al_busy].
  clear d. intros fuel. induction fuel as [|f IH]; intros d Hb; [lia|]. cbn [waitdisk_from]. wp_step. apply wp_inb.
  pose proof (al_status d) as Hs. destruct (dev_in8 0x1f7 d) as [v d']. destruct Hs as (Er & Ec & Es & Hst). case_decide as Hb0.
  - destruct Hst as (E1 & _ & Hb'). rewrite E1. change (0x40 =? 0x40) with true. cbn [negb]. wp_step. done.
  - destruct Hst as [Hne Hlt]. rewrite (proj2 (Z.eqb_neq _ _) Hne). cbn [negb]. cbn match.
    eapply wp_mono; [apply (IH d'); lia|]. intros [] d2 (? & ? & ? & ?). split_and!; (done || congruence).
Qed.

(** The last register: the top bits of the sector, and drive 0. *)
Lemma top_reg y : 0 ≤ y < 16 → Z.land (u8 (Z.lor y 0xe0)) 15 = y ∧ Z.land (Z.shiftr (u8 (Z.lor y 0xe0)) 4) 1 = 0.
Proof.
  intros Hy. assert (Hall : forallb (λ y, (Z.land (u8 (Z.lor y 0xe0)) 15 =? y) &&
    (Z.land (Z.shiftr (u8 (Z.lor y 0xe0)) 4) 1 =? 0)) (seqZ 0 16) = true) by done.
  rewrite forallb_forall in Hall. specialize (Hall y ltac:(apply list_elem_of_In, elem_of_seqZ; lia)).
  apply andb_true_iff in Hall as [H1 H2]. bool_props. done.
Qed.

Lemma u8_land x : u8 x = Z.land x 0xff.
Proof. change 0xff with (2 ^ 8 - 1). by rewrite land_ones_low by lia. Qed.

Lemma wp_readsect dst offset s : ad_cmd (bt_dev s) = A_idle → 0 ≤ offset < 2 ^ 28 →
  wp (readsect polls dst offset) (λ _ s', idle_as (bt_dev s) s' ∧
    bt_mem s' = store_bytes dst (ad_sector (bt_dev s) 0 offset) (bt_mem s)) s.
Proof.
  intros Hc Ho. unfold readsect, disk_io. wp_step. apply wp_zoom. wp_step. eapply wp_mono; [apply wp_waitdisk|].
  intros [] d1 (_ & _ & Ec1 & Es1). rewrite Hc in Ec1.
  do 5 (wp_step; apply wp_outb_reg; [done|done|]; intros ? ? ? ?).
  match goal with H1 : ad_reg ?d = _, H2 : ad_cmd ?d = A_idle |- wp _ _ ?d => rename d into d2; rename H2 into Hc2 end.
  assert (Hhi : 0 ≤ Z.shiftr offset 24 < 16).
  { rewrite Z.shiftr_div_pow2 by lia. split; [apply Z.div_pos; lia|apply Z.div_lt_upper_bound; lia]. }
  destruct (top_reg _ Hhi) as [Elo Edr].
  assert (Ereg : ad_reg d2 0x1f2 = 1 ∧ reg_drive (ad_reg d2) = 0 ∧ reg_lba (ad_reg d2) = offset).
  { unfold reg_drive, reg_lba. repeat match goal with E : ad_reg _ = _ |- _ => rewrite E; clear E end.
    rewrite !fn_lookup_insert. repeat (rewrite fn_lookup_insert_ne by done; rewrite ?fn_lookup_insert).
    rewrite Elo, Edr. split_and!; [done|done|]. rewrite !u8_land. etrans; [|apply (lba_bytes offset Ho)].
    f_equal. f_equal. change 15 with (2 ^ 4 - 1). rewrite land_ones_low, Z.mod_small by (simpl; lia). done. }
  destruct Ereg as (E2 & Edrv & Elba). assert (Esec : ad_sector d2 = ad_sector (bt_dev s)) by congruence.
  wp_step. apply wp_outb. change (u8 0x20) with 0x20. destruct (al_read d2 Hc2 E2) as [Hc3 Hs3]. rewrite Edrv, Elba in Hc3.
  wp_step. eapply wp_mono; [apply wp_waitdisk|]. intros [] d4 (Hb4 & _ & Ec4 & Es4).
  change (Z.to_nat (SECTSIZE / 4)) with (S 127).
  eapply wp_mono; [apply (wp_insl_sector 127 0 d4 0 offset); [congruence|done|done]|].
  intros bs d5 (-> & Hc5 & Es5). unfold put_mem. wp_step. cbn [bt_mem bt_dev]. rewrite drop_0.
  assert (Esec4 : ad_sector d4 = ad_sector (bt_dev s)) by congruence. rewrite Esec4.
  split; [split; cbn; [done|congruence]|done].
Qed.

(** ** Segments *)

(** Memory from [lo] to [hi] is the image from [off] on; the rest is as before. *)
Definition filled d (m m' : Z → Z) (lo hi off : Z) : Prop :=
  ∀ x, m' x = if decide (lo ≤ x < hi) then image d (off + (x - lo)) else m x.

Lemma filled_sector d m m1 m2 lo hi sec : 0 ≤ sec →
  m1 = store_bytes lo (ad_sector d 0 (sec + 1)) m → (lo + SECTSIZE ≤ hi) →
  filled d m1 m2 (lo + SECTSIZE) hi ((sec + 1) * SECTSIZE) → filled d m m2 lo hi (sec * SECTSIZE).
Proof.
  intros Hs -> Hhi Hf x. rewrite (Hf x). destruct (al_sector d 0 (sec + 1)) as [Hl _].
  destruct (decide (lo + SECTSIZE ≤ x < hi)) as [Hd|Hd].
  - rewrite decide_True by (unfold SECTSIZE in *; lia). f_equal. lia.
  - unfold store_bytes. rewrite Hl. unfold nsect, SECTSIZE in *. destruct (decide (lo ≤ x < hi)) as [Hd2|Hd2].
    + rewrite decide_True by lia. unfold image, SECTSIZE. rewrite (Z.add_comm (sec * 512)), Z.div_add, Z.mod_add by done.
      rewrite Z.div_small, Z.mod_small by lia. by rewrite Z.add_0_l.
    + rewrite decide_False by lia. done.
Qed.

Lemma wp_readseg_from fuel pa epa sec d s :
  idle_as d s → 0 ≤ sec → sec + 1 + (epa - pa + 511) / 512 < 2 ^ 28 → 0 ≤ pa → epa + 512 < 2 ^ 32 →
  (0 < fuel)%nat → epa ≤ pa + (Z.of_nat fuel - 1) * SECTSIZE →
  wp (readseg_from polls fuel pa epa (sec + 1)) (λ _ s', idle_as d s' ∧ ∃ hi, filled d (bt_mem s) (bt_mem s') pa hi (sec * SECTSIZE) ∧
    epa ≤ hi ∧ pa ≤ hi ∧ (hi < epa + SECTSIZE ∨ hi = pa)) s.
Proof.
  revert pa sec s. induction fuel as [|f IH]; intros pa sec s [Hc Hs] Hsec Hbig Hpa Hepa Hf Hlen; [lia|].
  cbn [readseg_from]. destruct (pa <? epa) eqn:E; bool_props.
  - assert (Hq : (epa - pa + 511) / 512 = (epa - (pa + 512) + 511) / 512 + 1).
    { replace (epa - pa + 511) with (epa - (pa + 512) + 511 + 1 * 512) by lia. by rewrite Z.div_add. }
    pose proof (Z.div_mod (epa - (pa + 512) + 511) 512 ltac:(done)). pose proof (Z.mod_pos_bound (epa - (pa + 512) + 511) 512 ltac:(done)).
    wp_step. eapply wp_mono; [apply wp_readsect; [done|lia]|]. intros [] s1 ([Hc1 Hs1] & Em1).
    rewrite !u32_id by (unfold is_u32, SECTSIZE in *; lia). eapply wp_mono.
    { apply (IH (pa + SECTSIZE) (sec + 1) s1); unfold SECTSIZE in *; try lia. split; [done|congruence]. }
    intros [] s2 (Hi2 & hi & Hf2 & Hhi1 & Hhi3 & Hhi2). split; [done|]. exists hi. split.
    + apply (filled_sector d _ (bt_mem s1) _ pa hi sec Hsec); [by rewrite Em1, Hs|unfold SECTSIZE in *; lia|done].
    + unfold SECTSIZE in *. lia.
  - wp_step. split; [done|]. exists pa. split; [|lia]. intros x. by rewrite decide_False by lia.
Qed.

(** What [readseg] leaves in memory. *)
Lemma wp_readseg pa count offset d s :
  idle_as d s → is_u32 offset → 0 ≤ count → 0 ≤ pa - offset mod SECTSIZE → pa + count + 512 < 2 ^ 32 →
  wp (readseg polls pa count offset) (λ _ s', idle_as d s' ∧ ∃ hi,
    filled d (bt_mem s) (bt_mem s') (pa - offset mod SECTSIZE) hi (offset - offset mod SECTSIZE) ∧
    pa + count ≤ hi ∧ hi < pa + count + SECTSIZE) s.
Proof.
  intros Hi Ho Hcnt Hpa Hend. unfold readseg. unfold is_u32 in Ho. pose proof (Z.mod_pos_bound offset SECTSIZE ltac:(done)).
  pose proof (Z.div_mod offset SECTSIZE ltac:(done)) as Hdm. unfold SECTSIZE in *.
  rewrite !u32_id by (unfold is_u32; lia). set (lo := pa - offset mod 512) in *.
  pose proof (Z.div_mod (pa + count) 512 ltac:(done)). pose proof (Z.mod_pos_bound (pa + count) 512 ltac:(done)).
  pose proof (Z.div_mod (pa + count - lo + 511) 512 ltac:(done)). pose proof (Z.mod_pos_bound (pa + count - lo + 511) 512 ltac:(done)).
  eapply wp_mono.
  { apply (wp_readseg_from _ lo (pa + count) (offset / 512) d s Hi); unfold SECTSIZE; try lia. }
  intros [] s' (Hi' & hi & Hf & Hh1 & Hh2 & Hh3). split; [done|]. exists hi. unfold SECTSIZE in *.
  replace (offset - offset mod 512) with (offset / 512 * 512) by lia. split; [done|lia].
Qed.

(** ** The kernel *)

Definition image_bytes d (off n : Z) : list Z := image d <$> seqZ off n.
Definition image_elf d : elfhdr := get_elfhdr (image_bytes d 0 sizeof_elfhdr).
Definition image_ph d (i : Z) : proghdr :=
  get_proghdr (image_bytes d (elf_phoff (image_elf d) + sizeof_proghdr * i) sizeof_proghdr).

(** The first byte [readseg] writes for a segment, and the end of the segment. *)
Definition seg_lo (h : proghdr) : Z := ph_paddr h - ph_off h mod SECTSIZE.
Definition seg_end (h : proghdr) : Z := ph_paddr h + Z.max (ph_filesz h) (ph_memsz h).

(** An image the loader is meant for: an ELF file with its program headers on
    the first page, and segments in increasing order above the scratch page. *)
Record bootable d : Prop := {
  bo_magic : elf_magic (image_elf d) = ELF_MAGIC;
  bo_headers : elf_phoff (image_elf d) + sizeof_proghdr * elf_phnum (image_elf d) ≤ 4096;
  bo_above : ∀ i, 0 ≤ i < elf_phnum (image_elf d) →
    scratch + 4096 + 512 ≤ seg_lo (image_ph d i) ∧ seg_end (image_ph d i) + 512 < 2 ^ 32;
  bo_order : ∀ i j, 0 ≤ i < j → j < elf_phnum (image_elf d) → seg_end (image_ph d i) ≤ seg_lo (image_ph d j)
}.

(** The segment is in memory: the bytes of the file, then zeroes. *)
Definition seg_loaded d (h : proghdr) (m : Z → Z) : Prop :=
  ∀ j, (0 ≤ j < ph_filesz h → m (ph_paddr h + j) = image d (ph_off h + j)) ∧
       (ph_filesz h ≤ j < ph_memsz h → m (ph_paddr h + j) = 0).

Definition header_kept d (m : Z → Z) : Prop := ∀ x, 0 ≤ x < 4096 → m (scratch + x) = image d x.

Lemma load_image d m o (n : nat) : header_kept d m → 0 ≤ o → o + Z.of_nat n ≤ 4096 →
  load_bytes (scratch + o) n m = image_bytes d o (Z.of_nat n).
Proof.
  intros Hh Ho Hn. unfold load_bytes, image_bytes. rewrite <- (fmap_add_seqZ scratch o), <- list_fmap_compose.
  apply list_fmap_ext. intros i x Hx. apply list_elem_of_lookup_2, elem_of_seqZ in Hx. cbn. apply Hh. lia.
Qed.

Lemma image_byte d j : is_byte (image d j).
Proof.
  unfold image. destruct (al_sector d 0 (j / SECTSIZE + 1)) as [Hl Hb].
  destruct (lookup_lt_is_Some_2 (ad_sector d 0 (j / SECTSIZE + 1)) (Z.to_nat (j mod SECTSIZE))) as [x Hx].
  { rewrite Hl. pose proof (Z.mod_pos_bound j SECTSIZE ltac:(done)). unfold nsect, SECTSIZE in *. lia. }
  rewrite (list_lookup_total_correct _ _ _ Hx). by apply (Forall_lookup_1 _ _ _ _ Hb Hx).
Qed.

Lemma image_ph_range d i : let h := image_ph d i in
  is_u32 (ph_off h) ∧ is_u32 (ph_paddr h) ∧ is_u32 (ph_filesz h) ∧ is_u32 (ph_memsz h).
Proof.
  cbv zeta. unfold image_ph. set (l := image_bytes d _ _).
  assert (Hb : Forall is_byte l) by (apply Forall_fmap, Forall_true; intros; apply image_byte).
  pose proof (λ off, get_le_range 4 off l Hb) as Hr. change (256 ^ Z.of_nat 4) with (2 ^ 32) in Hr.
  split_and!; apply Hr.
Qed.

(** One segment. *)
Lemma wp_load_segment d s h : idle_as d s → is_u32 (ph_off h) → is_u32 (ph_filesz h) → is_u32 (ph_memsz h) →
  0 ≤ seg_lo h → seg_end h + 512 < 2 ^ 32 →
  wp (load_segment polls h) (λ _ s', idle_as d s' ∧ seg_loaded d h (bt_mem s') ∧ ∀ x, x < seg_lo h → bt_mem s' x = bt_mem s x) s.
Proof.
  intros Hi Ho Hf Hm Hlo Hend. unfold load_segment. unfold seg_lo, seg_end, is_u32 in *. pose proof (Z.mod_pos_bound (ph_off h) SECTSIZE ltac:(done)).
  wp_step. eapply wp_mono; [apply (wp_readseg _ _ _ d s Hi); unfold is_u32, SECTSIZE in *; lia|].
  intros [] s1 (Hi1 & hi & Hfill & Hhi & _).
  assert (Hfile : ∀ j, 0 ≤ j < ph_filesz h → bt_mem s1 (ph_paddr h + j) = image d (ph_off h + j)).
  { intros j Hj. rewrite Hfill, decide_True by lia. f_equal. lia. }
  assert (Hbelow : ∀ x, x < ph_paddr h - ph_off h mod SECTSIZE → bt_mem s1 x = bt_mem s x).
  { intros x Hx. by rewrite Hfill, decide_False by lia. }
  destruct (ph_filesz h <? ph_memsz h) eqn:E; bool_props; cbn [whenM].
  - unfold put_mem. wp_step. rewrite u32_id by (unfold is_u32; lia). cbn [bt_mem bt_dev]. split_and!; [done| |].
    + intros j. unfold store_bytes. rewrite length_replicate. split; intros Hj.
      * rewrite decide_False by lia. by apply Hfile.
      * rewrite decide_True by lia. apply lookup_total_replicate_2. lia.
    + intros x Hx. cbn [bt_mem]. unfold store_bytes. rewrite decide_False by lia. by apply Hbelow.
  - wp_step. split_and!; [done| |done]. intros j. split; [apply Hfile|lia].
Qed.

Lemma wp_load_segments n i d s : bootable d → idle_as d s → header_kept d (bt_mem s) →
  0 ≤ i → i + Z.of_nat n = elf_phnum (image_elf d) → 0 ≤ elf_phoff (image_elf d) →
  (∀ j, 0 ≤ j < i → seg_loaded d (image_ph d j) (bt_mem s)) →
  wp (load_segments polls n (scratch + elf_phoff (image_elf d) + sizeof_proghdr * i)) (λ _ s',
    idle_as d s' ∧ header_kept d (bt_mem s') ∧
    ∀ j, 0 ≤ j < elf_phnum (image_elf d) → seg_loaded d (image_ph d j) (bt_mem s')) s.
Proof.
  intros Hb. revert i s. induction n as [|n IH]; intros i s Hi Hh Hi0 Hn Hoff Hdone; cbn [load_segments].
  { wp_step. split; [done|]. split; [done|]. intros j Hj. apply Hdone. lia. }
  destruct (bo_above d Hb i ltac:(lia)) as [Habove Hend]. pose proof (bo_headers d Hb) as Hhd.
  wp_step. wp_step. assert (Eh : read_ph (bt_mem s) (scratch + elf_phoff (image_elf d) + sizeof_proghdr * i) = image_ph d i).
  { unfold read_ph, image_ph. f_equal. rewrite <- Z.add_assoc. rewrite (load_image d); [done|done| |]; unfold sizeof_proghdr in *; lia. }
  rewrite Eh. destruct (image_ph_range d i) as (R1 & R2 & R3 & R4). set (h := image_ph d i) in *.
  wp_step. eapply wp_mono; [apply (wp_load_segment d s h); try done; unfold scratch in *; lia|].
  intros [] s1 (Hi1 & Hl1 & Hsame).
  assert (Hh1 : header_kept d (bt_mem s1)).
  { intros x Hx. rewrite Hsame by lia. by apply Hh. }
  replace (scratch + elf_phoff (image_elf d) + sizeof_proghdr * i + sizeof_proghdr)
    with (scratch + elf_phoff (image_elf d) + sizeof_proghdr * (i + 1)) by (unfold sizeof_proghdr; lia).
  apply (IH (i + 1)); try done; try lia. intros j Hj. destruct (decide (j = i)) as [->|]; [done|].
  pose proof (bo_order d Hb j i ltac:(lia) ltac:(lia)) as Hord. fold h in Hord. unfold seg_end in Hord.
  intros x. destruct (Hdone j ltac:(lia) x) as [Hx1 Hx2]. destruct (image_ph_range d j) as (_ & _ & R5 & _). unfold is_u32 in *.
  split; intros Hx; rewrite Hsame by lia; auto.
Qed.

End spec.

(** ** Witness: an image with one segment of four bytes and a bss of four *)

Definition wsector : list Z :=
  put_u32 72 8 (put_u32 68 4 (put_u32 64 0x100000 (put_u32 56 512
    (put_u16 44 1 (put_u32 28 52 (put_u32 24 0x10000c (put_u32 0 ELF_MAGIC (replicate nsect 0)))))))).
Definition wkernel : list Z := [1; 2; 3; 4] ++ replicate 508 9.
Definition wboot : boot demo_disk := BootSt (λ _, 0) (Demo (λ _, 0) A_idle [(0, 1, wsector); (0, 2, wkernel)] false).

Lemma wboot_elf : image_elf (bt_dev wboot) = Elfhdr ELF_MAGIC 0x10000c 52 1.
Proof. vm_compute. reflexivity. Qed.

Lemma wboot_ph : image_ph (bt_dev wboot) 0 = Proghdr 0 512 0 0x100000 4 8.
Proof. vm_compute. reflexivity. Qed.

Lemma wboot_ok : bootable (bt_dev wboot).
Proof.
  split; rewrite ?wboot_elf; cbn [elf_magic elf_phoff elf_phnum]; [done|done| |lia].
  intros i Hi. assert (i = 0) as -> by lia. rewrite wboot_ph.
  split; vm_compute; [intros [=]|reflexivity].
Qed.


(** The four bytes arrive, and the four after them are zero. *)
Lemma wboot_runs : match bootmain 2 wboot with
  | Ok r s' => r = Some 0x10000c ∧ load_bytes 0x100000 8 (bt_mem s') = [1; 2; 3; 4; 0; 0; 0; 0]
  | _ => False
  end.
Proof. vm_compute. done. Qed.
