(* ===== verification/Kbd.v ===== *)
(** * The keyboard (kbd.c, kbd.h)

    [kbdgetc] turns the scan codes of the keyboard controller into characters,
    remembering which modifier keys are down; [kbdintr] feeds them to the
    console.  The controller is a device that holds a queue of scan codes. *)

From S2P Require Import Prelude Words Locks Ports Console ConsoleSpec.

Definition KBSTATP : Z := 0x64.
Definition KBS_DIB : Z := 0x01.
Definition KBDATAP : Z := 0x60.

Definition SHIFT : Z := 1.
Definition CTL : Z := 2.
Definition ALT : Z := 4.
Definition CAPSLOCK : Z := 8.
Definition NUMLOCK : Z := 16.
Definition SCROLLLOCK : Z := 32.
Definition E0ESC : Z := 64.

Definition KEY_HOME : Z := 0xE0.
Definition KEY_END : Z := 0xE1.
Definition KEY_UP : Z := 0xE2.
Definition KEY_DN : Z := 0xE3.
Definition KEY_LF : Z := 0xE4.
Definition KEY_RT : Z := 0xE5.
Definition KEY_PGUP : Z := 0xE6.
Definition KEY_PGDN : Z := 0xE7.
Definition KEY_INS : Z := 0xE8.
Definition KEY_DEL : Z := 0xE9.

(** [C(x)] as the unsigned character it is stored as. *)
Definition kctl (x : Z) : Z := u8 (x - 64).

(** An array of 256 with designated initialisers. *)
Definition table (start : list Z) (at_ : list (nat * Z)) : list Z :=
  foldl (λ t '(i, v), <[i := v]> t) (start ++ replicate (256 - length start) 0) at_.

Definition shiftcode : list Z := table []
  [(0x1D, CTL); (0x2A, SHIFT); (0x36, SHIFT); (0x38, ALT); (0x9D, CTL); (0xB8, ALT)]%nat.
Definition togglecode : list Z := table [] [(0x3A, CAPSLOCK); (0x45, NUMLOCK); (0x46, SCROLLLOCK)]%nat.

Definition NO : Z := 0.
Definition keypad (enter div : Z) : list (nat * Z) :=
  [(0x9C, enter); (0xB5, div); (0xC8, KEY_UP); (0xD0, KEY_DN); (0xC9, KEY_PGUP); (0xD1, KEY_PGDN); (0xCB, KEY_LF);
   (0xCD, KEY_RT); (0x97, KEY_HOME); (0xCF, KEY_END); (0xD2, KEY_INS); (0xD3, KEY_DEL)]%nat.

Definition normalmap : list Z := table
  [NO; 0x1B; 49; 50; 51; 52; 53; 54;          (* 0x00: 1 2 3 4 5 6 *)
   55; 56; 57; 48; 45; 61; 8; 9;              (* 7 8 9 0 - = BS TAB *)
   113; 119; 101; 114; 116; 121; 117; 105;    (* 0x10: q w e r t y u i *)
   111; 112; 91; 93; 10; NO; 97; 115;         (* o p [ ] NL, a s *)
   100; 102; 103; 104; 106; 107; 108; 59;     (* 0x20: d f g h j k l ; *)
   39; 96; NO; 92; 122; 120; 99; 118;         (* quote ` , backslash z x c v *)
   98; 110; 109; 44; 46; 47; NO; 42;          (* 0x30: b n m , . /, star *)
   NO; 32; NO; NO; NO; NO; NO; NO;
   NO; NO; NO; NO; NO; NO; NO; 55;            (* 0x40: 7 *)
   56; 57; 45; 52; 53; 54; 43; 49;            (* 8 9 - 4 5 6 + 1 *)
   50; 51; 48; 46; NO; NO; NO; NO]            (* 0x50: 2 3 0 . *)
  (keypad 10 47).

Definition shiftmap : list Z := table
  [NO; 27; 33; 64; 35; 36; 37; 94;            (* 0x00: ! @ # $ % ^ *)
   38; 42; 40; 41; 95; 43; 8; 9;              (* & star ( ) _ + BS TAB *)
   81; 87; 69; 82; 84; 89; 85; 73;            (* 0x10: Q W E R T Y U I *)
   79; 80; 123; 125; 10; NO; 65; 83;          (* O P { } NL, A S *)
   68; 70; 71; 72; 74; 75; 76; 58;            (* 0x20: D F G H J K L : *)
   34; 126; NO; 124; 90; 88; 67; 86;          (* double quote ~, | Z X C V *)
   66; 78; 77; 60; 62; 63; NO; 42;            (* 0x30: B N M < > ?, star *)
   NO; 32; NO; NO; NO; NO; NO; NO;
   NO; NO; NO; NO; NO; NO; NO; 55;            (* 0x40: 7 *)
   56; 57; 45; 52; 53; 54; 43; 49;            (* 8 9 - 4 5 6 + 1 *)
   50; 51; 48; 46; NO; NO; NO; NO]            (* 0x50: 2 3 0 . *)
  (keypad 10 47).

Definition ctlmap : list Z := table
  [NO; NO; NO; NO; NO; NO; NO; NO;
   NO; NO; NO; NO; NO; NO; NO; NO;
   kctl 81; kctl 87; kctl 69; kctl 82; kctl 84; kctl 89; kctl 85; kctl 73;   (* Q W E R T Y U I *)
   kctl 79; kctl 80; NO; NO; 13; NO; kctl 65; kctl 83;                       (* O P, CR, A S *)
   kctl 68; kctl 70; kctl 71; kctl 72; kctl 74; kctl 75; kctl 76; NO;        (* D F G H J K L *)
   NO; NO; NO; kctl 92; kctl 90; kctl 88; kctl 67; kctl 86;                  (* backslash Z X C V *)
   kctl 66; kctl 78; kctl 77; NO; NO; kctl 47; NO; NO]                       (* B N M, / *)
  (keypad 13 (kctl 47)).

Definition charcode : list (list Z) := [normalmap; shiftmap; ctlmap; ctlmap].

(** [a[i]]; nothing is read outside the array. *)
Definition index {A} (a : list A) (i : Z) : M Z A :=
  match a !! Z.to_nat i with Some v => ret v | None => fault end.

(** The state is the static variable [shift].  A key that went down: *)
Definition key_char (data : Z) : M Z Z :=
  shift ← getS;
  sc ← index shiftcode data;
  tc ← index togglecode data;
  let shift := Z.lxor (Z.lor shift sc) tc in
  putS shift ;;
  map ← index charcode (Z.land shift (Z.lor CTL SHIFT));
  c ← index map data;
  if negb (Z.land shift CAPSLOCK =? 0) then
    if (97 <=? c) && (c <=? 122) then ret (u32 (c + (65 - 97)))
    else if (65 <=? c) && (c <=? 90) then ret (u32 (c + (97 - 65)))
    else ret c
  else ret c.

(** Any scan code: *)
Definition kbd_code (data : Z) : M Z Z :=
  shift ← getS;
  if data =? 0xE0 then putS (Z.lor shift E0ESC) ;; ret 0
  else if negb (Z.land data 0x80 =? 0) then
    let data := if negb (Z.land shift E0ESC =? 0) then data else Z.land data 0x7F in
    sc ← index shiftcode data;
    putS (Z.land shift (Z.lnot (Z.lor sc E0ESC))) ;;
    ret 0
  else if negb (Z.land shift E0ESC =? 0) then
    putS (Z.land shift (Z.lnot E0ESC)) ;;
    key_char (Z.lor data 0x80)
  else key_char data.

Record kbd (D : Type) := Kbd { kb_shift : Z; kb_dev : D }.
Arguments Kbd {D}.
Arguments kb_shift {D}.
Arguments kb_dev {D}.

Section kbd.
Context {D : Type} `{PortIO D}.

Definition on_kdev {A} (c : M D A) : M (kbd D) A := zoom kb_dev (λ d s, Kbd (kb_shift s) d) c.

Definition kbdgetc : M (kbd D) Z :=
  st ← on_kdev (inb KBSTATP);
  if Z.land st KBS_DIB =? 0 then ret (-1) else
  data ← on_kdev (inb KBDATAP);
  zoom kb_shift (λ v s, Kbd v (kb_dev s)) (kbd_code data).

(** What [consoleintr(kbdgetc)] gets before it gets a negative number. *)
Fixpoint kbd_keys (fuel : nat) : M (kbd D) (list Z) :=
  match fuel with
  | O => fault
  | S f => c ← kbdgetc; if c <? 0 then ret [] else rest ← kbd_keys f; ret (c :: rest)
  end.
End kbd.

(** The keyboard, the console, and [kbdintr] with room for [fuel] scan codes. *)
Record kcons (D : Type) := Kcons { kc_kbd : kbd D; kc_cons : cons }.
Arguments Kcons {D}.
Arguments kc_kbd {D}.
Arguments kc_cons {D}.

Section kbdintr.
Context {D : Type} `{PortIO D}.
Definition on_cons {A} (c : M cons A) : M (kcons D) A := zoom kc_cons (λ x s, Kcons (kc_kbd s) x) c.
Definition kbdintr (fuel : nat) : M (kcons D) bool :=
  keys ← zoom kc_kbd (λ x s, Kcons x (kc_cons s)) (kbd_keys fuel);
  on_cons (consoleintr keys).
End kbdintr.

(** ** Every scan code in every state *)

(** The characters of a list of scan codes. *)
Fixpoint kbd_run (codes : list Z) : M Z (list Z) :=
  match codes with
  | [] => ret []
  | b :: codes' => c ← kbd_code b; rest ← kbd_run codes'; ret (c :: rest)
  end.

Definition shift_ok (shift : Z) : Prop := 0 ≤ shift < 128.
Definition code_ok (shift data : Z) : bool :=
  match kbd_code data shift with
  | Ok c shift' => (0 <=? c) && (c <? 256) && (0 <=? shift') && (shift' <? 128)
  | _ => false
  end.

Lemma all_codes_ok : forallb (λ shift, forallb (code_ok shift) (seqZ 0 256)) (seqZ 0 128) = true.
Proof. vm_compute. reflexivity. Qed.

Lemma wp_kbd_code shift data : shift_ok shift → is_byte data →
  wp (kbd_code data) (λ c shift', is_byte c ∧ shift_ok shift') shift.
Proof.
  intros Hs Hd. pose proof all_codes_ok as Hall. rewrite forallb_forall in Hall.
  specialize (Hall shift ltac:(apply list_elem_of_In, elem_of_seqZ; unfold shift_ok in Hs; lia)).
  rewrite forallb_forall in Hall. specialize (Hall data ltac:(apply list_elem_of_In, elem_of_seqZ; unfold is_byte in Hd; lia)).
  unfold code_ok, wp in *. destruct (kbd_code data shift); try done.
  repeat apply andb_true_iff in Hall as [Hall ?]. bool_props. unfold is_byte, shift_ok. lia.
Qed.

Lemma wp_kbd_run codes shift : shift_ok shift → Forall is_byte codes →
  wp (kbd_run codes) (λ cs shift', Forall is_byte cs ∧ shift_ok shift') shift.
Proof.
  intros Hs Hc. revert shift Hs. induction Hc as [|b codes Hb _ IH]; intros shift Hs; cbn [kbd_run].
  - wp_step. done.
  - wp_step. eapply wp_mono; [by apply wp_kbd_code|]. intros c shift1 [Hc1 Hs1]. wp_step.
    eapply wp_mono; [by apply IH|]. intros cs shift2 [Hc2 Hs2]. wp_step. by split; [constructor|].
Qed.

Section type.
Context {D : Type} `{!PortIO D}.

(** C22: [kbdgetc] is type safe on any keyboard: whatever the ports answer, it
    reads no array out of bounds, its result is -1 or an unsigned character, and
    the modifier bits stay the seven that are defined. *)
Theorem kbdgetc_type (s : kbd D) : shift_ok (kb_shift s) →
  wp kbdgetc (λ c s', (c = -1 ∨ is_byte c) ∧ shift_ok (kb_shift s')) s.
Proof.
  intros Hs. unfold kbdgetc, on_kdev. wp_step. apply wp_zoom, wp_inb. destruct (dev_in8 KBSTATP (kb_dev s)) as [v d1].
  wp_step; [wp_step; by split; [left|]|]. wp_step. apply wp_zoom, wp_inb. cbn [kb_dev].
  destruct (dev_in8 KBDATAP d1) as [v2 d2]. apply wp_zoom. cbn [kb_shift]. eapply wp_mono; [apply wp_kbd_code; [done|apply u8_range]|].
  intros c shift' [Hc Hs']. by split; [right|].
Qed.
End type.

(** ** Typing *)

(** The scan codes of pressing and releasing the key of a character, with the
    left shift key held where it takes it. *)
Definition position (c : Z) (map : list Z) : option nat := fst <$> list_find (λ x, x = c) map.
Definition scancodes (c : Z) : list Z :=
  match position c normalmap with
  | Some i => [Z.of_nat i; Z.of_nat i + 128]
  | None => match position c shiftmap with
            | Some i => [0x2A; Z.of_nat i; Z.of_nat i + 128; 0xAA]
            | None => []
            end
  end.
Definition scan_line (l : list Z) : list Z := (l ≫= scancodes) ++ scancodes 10.

Definition nonzero (l : list Z) : list Z := filter (λ c, c ≠ 0) l.
Definition types (c : Z) : bool :=
  forallb (λ b, (0 <=? b) && (b <? 256)) (scancodes c) &&
  match kbd_run (scancodes c) 0 with
  | Ok cs shift' => bool_decide (nonzero cs = [c]) && (shift' =? 0)
  | _ => false
  end.

Lemma all_types : forallb types (10 :: seqZ 32 95) = true.
Proof. vm_compute. reflexivity. Qed.

Lemma types_key c : printable c ∨ c = 10 → Forall is_byte (scancodes c) ∧
  ∃ cs, kbd_run (scancodes c) 0 = Ok cs 0 ∧ nonzero cs = [c].
Proof.
  intros Hc. pose proof all_types as Hall. rewrite forallb_forall in Hall. specialize (Hall c).
  assert (Hin : In c (10 :: seqZ 32 95)).
  { apply list_elem_of_In, elem_of_cons. destruct Hc as [Hc| ->]; [right|by left]. apply elem_of_seqZ. unfold printable in Hc. lia. }
  specialize (Hall Hin). unfold types in Hall. apply andb_true_iff in Hall as [Hby Hall]. split.
  - apply Forall_forall. intros b Hb. rewrite forallb_forall in Hby. apply list_elem_of_In in Hb.
    specialize (Hby b Hb). apply andb_true_iff in Hby as [? ?]. bool_props. unfold is_byte. lia.
  - destruct (kbd_run (scancodes c) 0) as [cs shift'| | |]; try done. apply andb_true_iff in Hall as [H1 H2].
    apply bool_decide_eq_true in H1. apply Z.eqb_eq in H2 as ->. by exists cs.
Qed.

Lemma kbd_run_app l1 l2 s : kbd_run (l1 ++ l2) s = (a ← kbd_run l1; b ← kbd_run l2; ret (a ++ b)) s.
Proof.
  revert s. induction l1 as [|x l1 IH]; intros s; cbn [kbd_run app].
  - unfold bind, ret. by destruct (kbd_run l2 s).
  - unfold bind in *. destruct (kbd_code x s) as [c s1| | |]; try done. rewrite IH.
    destruct (kbd_run l1 s1) as [a s2| | |]; try done. cbn. by destruct (kbd_run l2 s2).
Qed.

Lemma types_line l : Forall printable l → Forall is_byte (scan_line l) ∧
  ∃ cs, kbd_run (scan_line l) 0 = Ok cs 0 ∧ nonzero cs = l ++ [10].
Proof.
  unfold scan_line. intros Hl. induction Hl as [|c l Hc _ IH].
  - destruct (types_key 10 (or_intror eq_refl)) as [? ?]. done.
  - destruct (types_key c (or_introl Hc)) as [Hb (cs1 & E1 & F1)]. destruct IH as [Hb2 (cs2 & E2 & F2)].
    rewrite bind_cons, <- (assoc_L (++)). split; [by apply Forall_app|].
    exists (cs1 ++ cs2). split; [|unfold nonzero in *; by rewrite filter_app, F1, F2].
    rewrite kbd_run_app. unfold bind. by rewrite E1, E2.
Qed.

(** ** The controller and the console *)

Class KbdCtl (D : Type) `{PortIO D} := {
  kq : D → list Z;
  kq_bytes d : Forall is_byte (kq d);
  (** the status tells whether there is a scan code *)
  kq_status d : let '(v, d') := dev_in8 KBSTATP d in
    kq d' = kq d ∧ (Z.land (u8 v) KBS_DIB = 0 ↔ kq d = []);
  (** reading the data port takes the oldest *)
  kq_data d : let '(v, d') := dev_in8 KBDATAP d in
    match kq d with [] => True | b :: q => v = b ∧ kq d' = q end
}.

Section line.
Context {D : Type} `{!PortIO D, !KbdCtl D}.

Lemma wp_kbd_keys fuel (s : kbd D) cs shift' :
  kbd_run (kq (kb_dev s)) (kb_shift s) = Ok cs shift' → shift_ok (kb_shift s) → (length (kq (kb_dev s)) < fuel)%nat →
  wp (kbd_keys fuel) (λ keys s', keys = cs ∧ kb_shift s' = shift' ∧ kq (kb_dev s') = []) s.
Proof.
  revert s cs. induction fuel as [|f IH]; intros s cs Hr Hs Hf; [lia|]. cbn [kbd_keys].
  wp_step. unfold kbdgetc, on_kdev. wp_step. apply wp_zoom, wp_inb. pose proof (kq_status (kb_dev s)) as Hst.
  destruct (dev_in8 KBSTATP (kb_dev s)) as [v d1]. destruct Hst as [Eq Hdib].
  destruct (kq (kb_dev s)) as [|b q] eqn:Ek; cbn [kbd_run] in Hr.
  - rewrite (proj2 Hdib eq_refl). change (0 =? 0) with true. cbn match. wp_step. change (-1 <? 0) with true. cbn match. wp_step.
    injection Hr as <- <-. done.
  - rewrite (proj2 (Z.eqb_neq _ 0)) by (intros E; by apply Hdib in E). wp_step. apply wp_zoom, wp_inb. cbn [kb_dev].
    pose proof (kq_data d1) as Hd. destruct (dev_in8 KBDATAP d1) as [v2 d2]. rewrite Eq in Hd. destruct Hd as [-> Eq2].
    pose proof (kq_bytes (kb_dev s)) as Hb. rewrite Ek in Hb. apply Forall_cons in Hb as [Hb1 _].
    assert (u8 b = b) as -> by (unfold u8; apply Z.mod_small, Hb1). apply wp_zoom. cbn [kb_shift].
    pose proof (wp_kbd_code (kb_shift s) b Hs Hb1) as Hw. unfold bind in Hr. unfold wp in Hw |- * at 1.
    destruct (kbd_code b (kb_shift s)) as [c s1| | |]; try done. destruct Hw as [Hc Hs1].
    rewrite (proj2 (Z.ltb_ge c 0)) by apply Hc. wp_step. destruct (kbd_run q s1) as [cs1 s2| | |] eqn:E2; try done.
    injection Hr as <- <-. eapply wp_mono; [apply (IH _ cs1)|]; cbn [kb_shift kb_dev]; rewrite ?Eq2; try done; [cbn in Hf; lia|].
    intros keys s' (-> & ? & ?). wp_step. done.
Qed.

(** A zero, as a modifier or a released key gives, is no key for the console. *)
Lemma fold_nonzero keys ed : fold_left ed_key keys ed = fold_left ed_key (nonzero keys) ed.
Proof.
  revert ed. induction keys as [|c keys IH]; intros ed; [done|]. unfold nonzero. rewrite filter_cons. cbn [fold_left].
  case_decide as Hc; cbn [fold_left]; [apply IH|]. assert (c = 0) as -> by (destruct (decide (c = 0)); [done|by destruct Hc]).
  apply IH.
Qed.

Lemma type_line_nl l : Forall printable l → Z.of_nat (length l) < INPUT_BUF →
  fold_left ed_key (l ++ [10]) (Editor [] []) = Editor (l ++ [10]) [].
Proof.
  intros Hp Hl. rewrite fold_left_app, type_printable by done. simpl. unfold ed_key, ed_type, finish. simpl.
  by rewrite (proj2 (Z.ltb_lt _ _)) by done.
Qed.

End line.

(** ** Witnesses: a controller that is a list of scan codes *)

Definition demo_kbd := list Z.
#[global] Instance demo_kbd_io : PortIO demo_kbd := {|
  dev_in8 p d :=
    if p =? KBSTATP then (match d with [] => 0 | _ => 1 end, d)
    else match d with [] => (0, d) | b :: q => (u8 b, q) end;
  dev_out8 _ _ d := d;
  dev_in32 _ d := (0, d);
  dev_out32 _ _ d := d
|}.
#[global] Program Instance demo_kbd_ctl : KbdCtl demo_kbd := {| kq d := u8 <$> d |}.
Next Obligation. intros d. apply Forall_fmap, Forall_true. intros x. apply u8_range. Qed.
Next Obligation. intros d. simpl. split; [done|]. destruct d; done. Qed.
Next Obligation. intros d. simpl. by destruct d. Qed.

Lemma kbdgetc_type_witness : wp kbdgetc (λ c s', (c = -1 ∨ is_byte c) ∧ shift_ok (kb_shift s')) (Kbd (D := demo_kbd) 9 [0xE0; 0x1D]).
Proof. apply (kbdgetc_type (D := demo_kbd)). vm_compute. split; [discriminate|reflexivity]. Defined.

Definition wcons : kcons demo_kbd := Kcons (Kbd 0 (scan_line [72; 105; 33])) demo_cons.


(** The Home key (E0 47) gives no key: the tables have [KEY_HOME] at 97. *)
Lemma home_key_lost : kbd_run [0xE0; 0x47] 0 = Ok [0; 0] 0 ∧ normalmap !! 0x97%nat = Some KEY_HOME.
Proof. vm_compute. done. Qed.
