(* ===== verification/Mp.v ===== *)
(** * Multiprocessor tables (mp.c, mp.h)

    The BIOS leaves a floating pointer structure in low memory that points to
    the configuration table, a header followed by entries of several kinds.
    [mem] is the memory at the kernel's virtual addresses, which nothing here
    writes; the state is the globals [mpinit] fills and the ports of the
    machine. *)

From S2P Require Import Prelude Words Params CString Spinlock Ports.

(** ** mp.h *)
Definition sizeof_mp : Z := 16.
Definition sizeof_mpconf : Z := 44.
Definition sizeof_mpproc : Z := 20.
Definition sizeof_mpioapic : Z := 8.
Definition MPPROC : Z := 0.
Definition MPBUS : Z := 1.
Definition MPIOAPIC : Z := 2.
Definition MPIOINTR : Z := 3.
Definition MPLINTR : Z := 4.

Section search.
Variable m : mem.

Definition bytes_at (a : Z) : cptr := λ i, m (a + Z.of_nat i).
Definition load16 (a : Z) : Z := m a + 256 * m (a + 1).

(** Fields of [struct mp] and [struct mpconf]. *)
Definition mp_physaddr (a : Z) : Z := load32 m (a + 4).
Definition mp_imcrp (a : Z) : Z := m (a + 12).
Definition conf_length (a : Z) : Z := load16 (a + 4).
Definition conf_version (a : Z) : Z := m (a + 6).
Definition conf_lapicaddr (a : Z) : Z := load32 m (a + 36).

Fixpoint sum_from (addr : Z) (len : nat) (i sum : Z) : Z :=
  match len with
  | O => sum
  | S n => sum_from addr n (i + 1) (i32 (sum + m (addr + i)))
  end.
Definition sum (addr len : Z) : Z := u8 (sum_from addr (Z.to_nat len) 0 0).

Definition sig_MP : list Z := [95; 77; 80; 95].
Definition sig_PCMP : list Z := [80; 67; 77; 80].

(** Look for an MP structure in the len bytes at addr. *)
Fixpoint mpsearch1_from (fuel : nat) (p e : Z) : option Z :=
  match fuel with
  | O => None
  | S f =>
      if p <? e then
        if (memcmp (bytes_at p) (ptr_of sig_MP) 4 =? 0) && (sum p sizeof_mp =? 0) then Some p
        else mpsearch1_from f (p + sizeof_mp) e
      else None
  end.
Definition mpsearch1 (a len : Z) : option Z :=
  let addr := P2V a in
  mpsearch1_from (Z.to_nat (len / sizeof_mp + 1)) addr (addr + len).

(** The three places the specification names. *)
Definition mpsearch : option Z :=
  let bda := P2V 0x400 in
  let p := Z.shiftl (Z.lor (Z.shiftl (m (bda + 0x0F)) 8) (m (bda + 0x0E))) 4 in
  let early :=
    if negb (p =? 0) then mpsearch1 p 1024
    else let p := Z.lor (Z.shiftl (m (bda + 0x14)) 8) (m (bda + 0x13)) * 1024 in
         mpsearch1 (u32 (p - 1024)) 1024 in
  match early with
  | Some mp => Some mp
  | None => mpsearch1 0xF0000 0x10000
  end.

(** [*pmp] and the configuration table. *)
Definition mpconfig : option (Z * Z) :=
  match mpsearch with
  | None => None
  | Some mp =>
      if mp_physaddr mp =? 0 then None else
      let conf := P2V (mp_physaddr mp) in
      if negb (memcmp (bytes_at conf) (ptr_of sig_PCMP) 4 =? 0) then None else
      if negb (conf_version conf =? 1) && negb (conf_version conf =? 4) then None else
      if negb (sum conf (conf_length conf) =? 0) then None else
      Some (mp, conf)
  end.
End search.

(** ** mpinit *)

Record mpst (D : Type) := MpSt {
  cpus : list cpu;
  ncpu : Z;
  ioapicid : Z;
  lapic : Z;
  mp_io : D
}.
Arguments MpSt {D}.
Arguments cpus {D}.
Arguments ncpu {D}.
Arguments ioapicid {D}.
Arguments lapic {D}.
Arguments mp_io {D}.

Section mpinit.
Context {D : Type} `{PortIO D}.
Variable m : mem.

Definition with_mp_io (d : D) (s : mpst D) := MpSt (cpus s) (ncpu s) (ioapicid s) (lapic s) d.
Definition with_lapic v (s : mpst D) := MpSt (cpus s) (ncpu s) (ioapicid s) v (mp_io s).
Definition with_ioapicid v (s : mpst D) := MpSt (cpus s) (ncpu s) v (lapic s) (mp_io s).

(** [if(ncpu < NCPU){ cpus[ncpu].apicid = proc->apicid; ncpu++; }] *)
Definition add_cpu (apicid : Z) (s : mpst D) : mpst D :=
  if ncpu s <? NCPU then
    MpSt (alter (λ c, Cpu apicid (c_ncli c) (c_intena c)) (Z.to_nat (ncpu s)) (cpus s))
      (ncpu s + 1) (ioapicid s) (lapic s) (mp_io s)
  else s.

(** The loop over the entries; the result is [ismp].  The [break] of the
    default case leaves the switch, and the loop goes on at the same [p]. *)
Fixpoint mp_entries (fuel : nat) (p e : Z) (ismp : bool) : M (mpst D) bool :=
  match fuel with
  | O => fault
  | S f =>
      if p <? e then
        let t := m p in
        if t =? MPPROC then
          modify (add_cpu (m (p + 1))) ;;
          mp_entries f (p + sizeof_mpproc) e ismp
        else if t =? MPIOAPIC then
          modify (with_ioapicid (m (p + 1))) ;;
          mp_entries f (p + sizeof_mpioapic) e ismp
        else if (t =? MPBUS) || (t =? MPIOINTR) || (t =? MPLINTR) then
          mp_entries f (p + 8) e ismp
        else mp_entries f p e false
      else ret ismp
  end.

Definition mpinit (fuel : nat) : M (mpst D) unit :=
  match mpconfig m with
  | None => panic "Expect to run on an SMP"
  | Some (mp, conf) =>
      modify (with_lapic (conf_lapicaddr m conf)) ;;
      ismp ← mp_entries fuel (conf + sizeof_mpconf) (conf + conf_length m conf) true;
      if negb ismp then panic "Didn't find a suitable machine" else
      whenM (negb (mp_imcrp m mp =? 0))
        (zoom mp_io with_mp_io
           (outb 0x22 0x70 ;;
            v ← inb 0x23;
            outb 0x23 (Z.lor v 1)))
  end.
End mpinit.

(** ** The table as a list of entries *)

Inductive entry :=
  | EProc (apicid : Z) (rest : list Z)
  | EIoapic (apicno : Z) (rest : list Z)
  | EOther (type : Z) (rest : list Z).

Definition encode1 (e : entry) : list Z :=
  match e with
  | EProc a r => MPPROC :: a :: r
  | EIoapic a r => MPIOAPIC :: a :: r
  | EOther t r => t :: r
  end.
Definition encode (es : list entry) : list Z := concat (encode1 <$> es).

Definition entry_wf (e : entry) : Prop :=
  match e with
  | EProc _ r => length r = 18%nat
  | EIoapic _ r => length r = 6%nat
  | EOther t r => (t = MPBUS ∨ t = MPIOINTR ∨ t = MPLINTR) ∧ length r = 7%nat
  end.

Fixpoint apicids (es : list entry) : list Z :=
  match es with
  | [] => []
  | EProc a _ :: es' => a :: apicids es'
  | _ :: es' => apicids es'
  end.
Fixpoint last_ioapic (es : list entry) (d : Z) : Z :=
  match es with
  | [] => d
  | EIoapic a _ :: es' => last_ioapic es' a
  | _ :: es' => last_ioapic es' d
  end.

(** The bytes [l] are in memory at [a]. *)
Definition at_addr (m : mem) (a : Z) (l : list Z) : Prop :=
  ∀ i x, l !! i = Some x → m (a + Z.of_nat i) = x.

Lemma at_addr_app m a l1 l2 :
  at_addr m a (l1 ++ l2) → at_addr m a l1 ∧ at_addr m (a + Z.of_nat (length l1)) l2.
Proof.
  intros Ha. split; intros i x Hi.
  - apply Ha. by apply lookup_app_l_Some.
  - rewrite <- Z.add_assoc, <- Nat2Z.inj_add. apply Ha.
    rewrite lookup_app_r by lia. rewrite <- Hi. f_equal. lia.
Qed.

(** The search of [mycpu] over an array of different IDs. *)
Lemma ids_found (l : list cpu) ids :
  c_apicid <$> l = ids → NoDup ids → ∀ k a, ids !! k = Some a → find_cpu l 0 a = Some k.
Proof.
  intros <- Hnd k a Hk. pose proof (lookup_lt_Some _ _ _ Hk) as Hkl. rewrite length_fmap in Hkl.
  rewrite list_lookup_fmap in Hk. apply fmap_Some in Hk as (c & Hc & ->).
  rewrite (find_cpu_spec _ 0 k); [done|done|by rewrite (list_lookup_total_correct _ _ _ Hc)|].
  intros j Hj Hja. destruct (lookup_lt_is_Some_2 _ _ Hj) as [c' Hc'].
  rewrite (list_lookup_total_correct _ _ _ Hc') in Hja.
  eapply (NoDup_lookup _ _ _ (c_apicid c)); [exact Hnd|..]; rewrite list_lookup_fmap; [by rewrite Hc', <- Hja|by rewrite Hc].
Qed.

Section mpinit_spec.
Context {D : Type} `{PortIO D}.
Variable m : mem.
Implicit Types (s : mpst D) (es : list entry).

Definition add_entry (e : entry) s : mpst D :=
  match e with
  | EProc a _ => add_cpu a s
  | EIoapic a _ => with_ioapicid a s
  | EOther _ _ => s
  end.

(** The loop takes the entries one by one. *)
Lemma wp_entries e fuel ismp es : ∀ f p s (Q : bool → mpst D → Prop),
  Forall entry_wf es → at_addr m p (encode es) → p + Z.of_nat (length (encode es)) ≤ e →
  f = (length es + fuel)%nat →
  wp (mp_entries m fuel (p + Z.of_nat (length (encode es))) e ismp) Q (foldl (flip add_entry) s es) →
  wp (mp_entries m f p e ismp) Q s.
Proof.
  induction es as [|en es IH]; intros f p s Q Hwf Hat He -> HQ.
  - change (length (encode [])) with 0%nat in HQ. by rewrite Z.add_0_r in HQ.
  - apply Forall_cons in Hwf as [Hw Hwf]. change (encode (en :: es)) with (encode1 en ++ encode es) in *.
    pose proof (at_addr_app _ _ _ _ Hat) as [H1 H2]. rewrite length_app, Nat2Z.inj_add, Z.add_assoc in HQ, He.
    cbn [length Nat.add mp_entries].
    destruct en as [a r|a r|t r]; simpl in Hw; cbn [encode1] in *; pose proof (H1 0%nat _ eq_refl) as Ht;
      rewrite Z.add_0_r in Ht; rewrite Ht.
    + pose proof (H1 1%nat _ eq_refl) as Hid. change (Z.of_nat 1) with 1 in Hid. rewrite Hid. simpl length in *.
      rewrite (proj2 (Z.ltb_lt _ _)) by lia. change (MPPROC =? MPPROC) with true. cbn match. wp_steps.
      rewrite Hw in H2, HQ, He. change (Z.of_nat 20) with sizeof_mpproc in *. eapply IH; by eauto.
    + pose proof (H1 1%nat _ eq_refl) as Hid. change (Z.of_nat 1) with 1 in Hid. rewrite Hid. simpl length in *.
      rewrite (proj2 (Z.ltb_lt _ _)) by lia. change (MPIOAPIC =? MPPROC) with false.
      change (MPIOAPIC =? MPIOAPIC) with true. cbn match. wp_steps.
      rewrite Hw in H2, HQ, He. change (Z.of_nat 8) with sizeof_mpioapic in *. eapply IH; by eauto.
    + destruct Hw as [Htt Hw]. simpl length in *. rewrite (proj2 (Z.ltb_lt _ _)) by lia.
      assert (Hb : (t =? MPPROC) = false ∧ (t =? MPIOAPIC) = false ∧
        (t =? MPBUS) || (t =? MPIOINTR) || (t =? MPLINTR) = true) by (by destruct Htt as [->|[->| ->]]).
      destruct Hb as (-> & -> & ->). rewrite Hw in H2, HQ, He. change (Z.of_nat 8) with 8 in *. eapply IH; by eauto.
Qed.

(** What the entries leave in the globals. *)
Record took s (ids : list Z) : Prop := {
  tk_len : length (cpus s) = Z.to_nat NCPU;
  tk_n : ncpu s = Z.of_nat (length (take (Z.to_nat NCPU) ids));
  tk_ids : c_apicid <$> take (Z.to_nat (ncpu s)) (cpus s) = take (Z.to_nat NCPU) ids
}.

Lemma took_add s ids a : took s ids → took (add_cpu a s) (ids ++ [a]).
Proof.
  intros [Hl Hn Hi]. unfold add_cpu. change (Z.to_nat NCPU) with 8%nat in *. rewrite length_take in Hn.
  destruct (ncpu s <? NCPU) eqn:E; bool_props; change NCPU with 8 in E.
  - assert (Hlen : (length ids < 8)%nat) by lia. rewrite (take_ge ids) in Hi by lia. split; cbn [cpus ncpu]; change (Z.to_nat NCPU) with 8%nat.
    + by rewrite length_alter.
    + rewrite length_take, length_app. cbn [length]. lia.
    + rewrite (take_ge (ids ++ [a])) by (rewrite length_app; simpl; lia).
      replace (Z.to_nat (ncpu s + 1)) with (S (Z.to_nat (ncpu s))) by lia.
      destruct (lookup_lt_is_Some_2 (cpus s) (Z.to_nat (ncpu s))) as [c Hc]; [lia|].
      rewrite (take_S_r _ _ (Cpu a (c_ncli c) (c_intena c))).
      * rewrite take_alter_ge by lia. by rewrite fmap_app, Hi.
      * by rewrite list_lookup_alter_eq, Hc.
  - assert (Hge : (8 ≤ length ids)%nat) by lia.
    split; [done| |]; change (Z.to_nat NCPU) with 8%nat; rewrite take_app_le by lia; [by rewrite length_take|done].
Qed.

Lemma took_entries es : ∀ s ids, took s ids →
  let s' := foldl (flip add_entry) s es in
  took s' (ids ++ apicids es) ∧ ioapicid s' = last_ioapic es (ioapicid s) ∧ lapic s' = lapic s ∧ mp_io s' = mp_io s.
Proof.
  induction es as [|e es IH]; intros s ids Ht; cbn [foldl apicids last_ioapic]; [by rewrite app_nil_r|].
  destruct e as [a r|a r|t r].
  - destruct (IH (add_cpu a s) (ids ++ [a]) (took_add _ _ a Ht)) as (H1 & H2 & H3 & H4).
    rewrite <- app_assoc in H1. cbn [app] in H1. cbv zeta. simpl flip. split; [done|].
    assert (Hadd : ioapicid (add_cpu a s) = ioapicid s ∧ lapic (add_cpu a s) = lapic s ∧ mp_io (add_cpu a s) = mp_io s).
    { unfold add_cpu. by destruct (_ <? _). }
    destruct Hadd as (E1 & E2 & E3). by rewrite <- E1, <- E2, <- E3.
  - destruct (IH (with_ioapicid a s) ids) as (H1 & H2 & H3 & H4); [by destruct Ht|]. done.
  - by apply IH.
Qed.

(** A header [mpconfig] accepts. *)
Record conf_ok (mp conf : Z) : Prop := {
  co_mp : mpsearch m = Some mp;
  co_phys : mp_physaddr m mp ≠ 0 ∧ conf = P2V (mp_physaddr m mp);
  co_sig : at_addr m conf sig_PCMP;
  co_version : conf_version m conf = 1 ∨ conf_version m conf = 4;
  co_sum : sum m conf (conf_length m conf) = 0
}.

Lemma memcmp_at a sig n : at_addr m a sig → length sig = n → memcmp (bytes_at m a) (ptr_of sig) n = 0.
Proof.
  intros Ha Hn. apply memcmp_zero_iff. intros i Hi. unfold bytes_at, ptr_of.
  destruct (lookup_lt_is_Some_2 sig i ltac:(lia)) as [x Hx]. rewrite (Ha _ _ Hx).
  symmetry. by apply nth_lookup_Some.
Qed.

Lemma mpconfig_ok mp conf : conf_ok mp conf → mpconfig m = Some (mp, conf).
Proof.
  intros [Hmp [Hp ->] Hs Hv Hc]. unfold mpconfig. rewrite Hmp, (proj2 (Z.eqb_neq _ _)) by done.
  rewrite (memcmp_at _ _ 4 Hs eq_refl). rewrite Hc. destruct Hv as [-> | ->]; done.
Qed.

(** The write that masks the external interrupts: select the IMCR, set bit 0. *)
Definition imcr_masked (d : D) : D :=
  let '(v, d') := dev_in8 0x23 (dev_out8 0x22 0x70 d) in dev_out8 0x23 (u8 (Z.lor (u8 v) 1)) d'.

Lemma wp_imcr (d : D) (Q : unit → D → Prop) : Q tt (imcr_masked d) →
  wp (outb 0x22 0x70 ;; v ← inb 0x23; outb 0x23 (Z.lor v 1)) Q d.
Proof.
  unfold imcr_masked. intros HQ. wp_step. apply wp_outb. wp_step. apply wp_inb. change (u8 0x70) with 0x70.
  destruct (dev_in8 _ _) as [v d']. by apply wp_outb.
Qed.

Lemma took_start s : length (cpus s) = Z.to_nat NCPU → ncpu s = 0 → took s [].
Proof. intros Hl Hn. split; [done|done|]. by rewrite Hn. Qed.

(** C30: when the BIOS tables hold a valid header followed by the entries
    [es], [mpinit] returns after one turn per entry: [cpus] holds the local
    APIC IDs of the first eight processor entries in their order, so that the
    search of [mycpu] finds each processor at its place when the IDs differ,
    [ioapicid] is that of the last I/O APIC entry, [lapic] the address of the
    header, and the interrupt mode register is switched when the floating
    pointer says there is one. *)
Theorem mpinit_correct mp conf es s fuel :
  conf_ok mp conf → Forall entry_wf es → at_addr m (conf + sizeof_mpconf) (encode es) →
  conf_length m conf = sizeof_mpconf + Z.of_nat (length (encode es)) →
  length (cpus s) = Z.to_nat NCPU → ncpu s = 0 → (length es < fuel)%nat →
  wp (mpinit m fuel) (λ _ s',
    let ids := take (Z.to_nat NCPU) (apicids es) in
    ncpu s' = Z.of_nat (length ids) ∧ c_apicid <$> take (length ids) (cpus s') = ids ∧
    (NoDup (apicids es) → ∀ k a, ids !! k = Some a →
       find_cpu (take (length ids) (cpus s')) 0 a = Some k) ∧
    ioapicid s' = last_ioapic es (ioapicid s) ∧ lapic s' = conf_lapicaddr m conf ∧
    mp_io s' = if mp_imcrp m mp =? 0 then mp_io s else imcr_masked (mp_io s)) s.
Proof.
  intros Hc Hwf Hat Hlen Hl Hn Hfu. unfold mpinit. rewrite (mpconfig_ok mp conf Hc). wp_step. wp_step. wp_step.
  set (s1 := with_lapic _ _).
  destruct (took_entries es s1 [] (took_start s1 Hl Hn)) as (Ht & Hio & Hla & Hd). cbn [app] in Ht.
  apply (wp_entries _ (fuel - length es) true es fuel); [done..|rewrite Hlen; lia|lia|].
  destruct (fuel - length es)%nat as [|f] eqn:Ef; [lia|]. cbn [mp_entries].
  rewrite (proj2 (Z.ltb_ge _ _)) by (rewrite Hlen; lia). wp_step. cbn match beta iota delta [negb].
  set (s' := foldl _ _ _) in *. destruct Ht as [Hl' Hn' Hi'].
  assert (Hids : ncpu s' = Z.of_nat (length (take (Z.to_nat NCPU) (apicids es)))) by done.
  rewrite Hn', Nat2Z.id in Hi'. set (ids := take (Z.to_nat NCPU) (apicids es)) in *.
  assert (Hfind : NoDup (apicids es) → ∀ k a, ids !! k = Some a → find_cpu (take (length ids) (cpus s')) 0 a = Some k).
  { intros Hnd. apply ids_found; [done|].
    rewrite <- (take_drop (Z.to_nat NCPU) (apicids es)) in Hnd. by apply NoDup_app in Hnd as [? _]. }
  unfold whenM. destruct (mp_imcrp m mp =? 0); cbn [negb]; [wp_step; by rewrite Hla, Hio, Hd|].
  apply wp_zoom, wp_imcr. cbn [ncpu cpus ioapicid lapic mp_io with_mp_io]. by rewrite Hla, Hio, Hd.
Qed.

(** An entry of a type mp.h does not name is not skipped: the loop stays at
    it, and the panic after the loop is never reached. *)
Lemma unknown_entry_stuck p e ismp s fuel :
  p < e → 4 < m p → mp_entries m fuel p e ismp s = Fault.
Proof.
  intros Hp Ht. revert ismp. induction fuel as [|f IH]; intros ismp; [done|]. cbn [mp_entries].
  rewrite (proj2 (Z.ltb_lt _ _)) by done. unfold MPPROC, MPIOAPIC, MPBUS, MPIOINTR, MPLINTR.
  rewrite !(proj2 (Z.eqb_neq (m p) _)) by lia. apply IH.
Qed.
End mpinit_spec.

(** A machine with two processors and one I/O APIC, whose ports record what is
    written to them. *)
#[local] Instance trace_io : PortIO (list (Z * Z)) := {
  dev_in8 _ d := (0, d);
  dev_out8 p v d := d ++ [(p, v)];
  dev_in32 _ d := (0, d);
  dev_out32 _ _ d := d
}.
Definition demo_es : list entry :=
  [EProc 5 (replicate 18 0); EProc 3 (replicate 18 0); EOther MPBUS [0; 73; 83; 65; 32; 32; 32]; EIoapic 9 (replicate 6 0)].
Definition demo_mp : list Z := [95; 77; 80; 95; 16; 252; 9; 0; 1; 4; 11; 0; 128; 0; 0; 0].
Definition demo_hdr : list Z :=
  [80; 67; 77; 80; 100; 0; 4; 53] ++ replicate 26 0 ++ [4; 0; 0; 0; 224; 254; 0; 0; 0; 0].
Definition demo_mem : mem := λ a,
  if a =? P2V 0x40E then 0xC0 else if a =? P2V 0x40F then 0x9F else
  if a <? P2V 0x9FC00 then 0 else nth (Z.to_nat (a - P2V 0x9FC00)) (demo_mp ++ demo_hdr ++ encode demo_es) 0.
Definition demo_mpst : mpst (list (Z * Z)) := MpSt (replicate 8 (Cpu 0 0 false)) 0 0 0 [].

Definition checked_at (m : mem) (a : Z) (l : list Z) : bool :=
  forallb (λ i, m (a + Z.of_nat i) =? nth i l 0) (seq 0 (length l)).
Lemma checked_at_ok m a l : checked_at m a l = true → at_addr m a l.
Proof.
  intros Hc i x Hi. unfold checked_at in Hc. rewrite forallb_forall in Hc.
  rewrite (proj1 (Z.eqb_eq _ _) (Hc i ltac:(apply list_elem_of_In, elem_of_seq; apply lookup_lt_Some in Hi; lia))).
  by apply nth_lookup_Some.
Qed.

Lemma mpinit_correct_witness :
  wp (mpinit demo_mem 5) (λ _ s', ncpu s' = 2 ∧ c_apicid <$> take 2 (cpus s') = [5; 3] ∧
    find_cpu (take 2 (cpus s')) 0 3 = Some 1%nat ∧ ioapicid s' = 9 ∧ lapic s' = 0xFEE00000 ∧
    mp_io s' = [(0x22, 0x70); (0x23, 1)]) demo_mpst.
Proof.
  eapply wp_mono.
  - apply (mpinit_correct demo_mem (P2V 0x9FC00) (P2V 0x9FC10) demo_es demo_mpst 5).
    + split; [by vm_compute|by vm_compute|apply checked_at_ok; by vm_compute|right; by vm_compute|by vm_compute].
    + repeat constructor.
    + apply checked_at_ok. by vm_compute.
    + by vm_compute.
    + done.
    + done.
    + simpl. lia.
  - intros _ s' (Hn & Hids & Hfind & Hio & Hla & Hd). split_and!; try done.
    apply Hfind; [|done]. repeat constructor; set_solver.
Defined.
