(* ===== verification/Apic.v ===== *)
(** * Interrupt controllers (lapic.c, ioapic.c, picirq.c)

    Memory-mapped registers are a device that answers 32-bit reads and takes
    32-bit writes; the controllers are described by the laws of their data
    sheets.  The real-time clock, also in lapic.c, is in Cmos.v. *)

From S2P Require Import Prelude Words Params CString Ports.

Class MMIO (D : Type) := {
  mm_read : Z → D → Z * D;
  mm_write : Z → Z → D → D
}.

Section mmio.
Context {D : Type} `{MMIO D}.
Definition mmio_get (a : Z) : M D Z := λ d, let '(v, d') := mm_read a d in Ok (u32 v) d'.
Definition mmio_set (a v : Z) : M D unit := modify (mm_write a (u32 v)).

Lemma wp_mmio_get a (Q : Z → D → Prop) d :
  (let '(v, d') := mm_read a d in Q (u32 v) d') → wp (mmio_get a) Q d.
Proof. unfold wp, mmio_get. by destruct (mm_read a d). Qed.
Lemma wp_mmio_set a v (Q : unit → D → Prop) d : Q tt (mm_write a (u32 v) d) → wp (mmio_set a v) Q d.
Proof. done. Qed.
End mmio.

(** ** The I/O APIC (ioapic.c) *)

Definition IOAPIC : Z := 0xFEC00000.
Definition REG_ID : Z := 0x00.
Definition REG_VER : Z := 0x01.
Definition REG_TABLE : Z := 0x10.
Definition INT_DISABLED : Z := 0x00010000.
Definition ioapic_data : Z := IOAPIC + 16.   (* &ioapic->data *)

Section ioapic.
Context {D : Type} `{MMIO D}.
Implicit Types d : D.

Definition ioapicread (reg : Z) : M D Z := mmio_set IOAPIC reg ;; mmio_get ioapic_data.
Definition ioapicwrite (reg data : Z) : M D unit := mmio_set IOAPIC reg ;; mmio_set ioapic_data data.

(** The message printed when the two IDs differ is left out. *)
Definition ioapicinit : M D unit :=
  v ← ioapicread REG_VER;
  let maxintr := Z.land (Z.shiftr v 16) 0xFF in
  _ ← ioapicread REG_ID;
  for_loop (Z.to_nat (maxintr + 1)) 0 (λ i,
    ioapicwrite (REG_TABLE + 2 * i) (Z.lor INT_DISABLED (T_IRQ0 + i)) ;;
    ioapicwrite (REG_TABLE + 2 * i + 1) 0).

Definition ioapicenable (irq cpunum : Z) : M D unit :=
  ioapicwrite (REG_TABLE + 2 * irq) (T_IRQ0 + irq) ;;
  ioapicwrite (REG_TABLE + 2 * irq + 1) (Z.shiftl cpunum 24).
End ioapic.

(** Bits of a redirection register that can be written: in the low word all
    but the delivery status and the remote IRR, in the high word the
    destination. *)
Definition writable (reg : Z) : Z := if Z.even reg then 0x1AFFF else 0xFF000000.

(** The data sheet: a select register of eight bits, and behind it the
    registers; entry [i] of the table is the registers [16 + 2i] and [17 + 2i]. *)
Class IoApic (D : Type) `{MMIO D} := {
  ia_sel : D → Z;
  ia_reg : D → Z → Z;
  ia_maxintr : D → Z;
  ia_select v d : let d' := mm_write IOAPIC v d in
    ia_sel d' = v mod 256 ∧ (∀ r, ia_reg d' r = ia_reg d r) ∧ ia_maxintr d' = ia_maxintr d;
  ia_read d : let '(v, d') := mm_read ioapic_data d in
    v = ia_reg d (ia_sel d) ∧ (∀ r, ia_reg d' r = ia_reg d r) ∧ ia_maxintr d' = ia_maxintr d;
  ia_write v d : let d' := mm_write ioapic_data v d in
    REG_TABLE ≤ ia_sel d < REG_TABLE + 2 * (ia_maxintr d + 1) →
    (∀ r, ia_reg d' r = if r =? ia_sel d then Z.land v (writable r) else ia_reg d r) ∧
    ia_maxintr d' = ia_maxintr d;
  ia_ver d : Z.land (Z.shiftr (u32 (ia_reg d REG_VER)) 16) 0xFF = ia_maxintr d;
  ia_max d : 0 ≤ ia_maxintr d < 120
}.

Section ioapic_spec.
Context {D : Type} `{IA : IoApic D}.
Implicit Types d : D.

(** Entry [i] of the redirection table: masked or not, with its vector, and
    the processors it goes to. *)
Definition redir_entry d (i : Z) : Z * Z := (ia_reg d (REG_TABLE + 2 * i), ia_reg d (REG_TABLE + 2 * i + 1)).
Definition masked (i : Z) : Z * Z := (Z.lor INT_DISABLED (T_IRQ0 + i), 0).
Definition routed (i cpu : Z) : Z * Z := (T_IRQ0 + i, Z.shiftl cpu 24).

Lemma wp_ioapicread reg (Q : Z → D → Prop) d :
  0 ≤ reg < 256 →
  (∀ d', (∀ r, ia_reg d' r = ia_reg d r) → ia_maxintr d' = ia_maxintr d → Q (u32 (ia_reg d reg)) d') →
  wp (ioapicread reg) Q d.
Proof.
  intros Hr HQ. unfold ioapicread. wp_step. apply wp_mmio_set. apply wp_mmio_get.
  rewrite u32_id by (unfold is_u32; lia). destruct (ia_select reg d) as (Hs & Hreg & Hm).
  pose proof (ia_read (mm_write IOAPIC reg d)) as Hrd. destruct (mm_read _ _) as [v d'].
  destruct Hrd as (-> & Hreg' & Hm'). rewrite Hs, Hreg, Z.mod_small by done.
  apply HQ; [intros; by rewrite Hreg', Hreg|by rewrite Hm', Hm].
Qed.

Lemma wp_ioapicwrite reg v (Q : unit → D → Prop) d :
  REG_TABLE ≤ reg < REG_TABLE + 2 * (ia_maxintr d + 1) → is_u32 v → Z.land v (writable reg) = v →
  (∀ d', (∀ r, ia_reg d' r = if r =? reg then v else ia_reg d r) → ia_maxintr d' = ia_maxintr d → Q tt d') →
  wp (ioapicwrite reg v) Q d.
Proof.
  intros Hr Hv Hw HQ. pose proof (ia_max d) as Hmax. unfold REG_TABLE in *.
  unfold ioapicwrite. wp_step. apply wp_mmio_set. apply wp_mmio_set.
  rewrite (u32_id reg), (u32_id v) by (done || unfold is_u32; lia).
  destruct (ia_select reg d) as (Hs & Hreg & Hm). rewrite Z.mod_small in Hs by lia.
  destruct (ia_write v (mm_write IOAPIC reg d)) as (Hreg' & Hm'); [rewrite Hs, Hm; done|].
  apply HQ; [|by rewrite Hm', Hm]. intros r. rewrite Hreg', Hs. destruct (r =? reg) eqn:E; bool_props; [by subst|done].
Qed.

Lemma even_low i : Z.even (REG_TABLE + 2 * i) = true.
Proof. unfold REG_TABLE. rewrite Z.even_add, Z.even_mul. done. Qed.
Lemma even_high i : Z.even (REG_TABLE + 2 * i + 1) = false.
Proof. rewrite Z.even_add, even_low. done. Qed.

(** Vectors and destinations survive the write masks; checked one by one. *)
Lemma small_cases (P : Z → bool) n : forallb P (seqZ 0 n) = true → ∀ i, 0 ≤ i < n → P i = true.
Proof. intros HP i Hi. rewrite forallb_forall in HP. apply HP. apply list_elem_of_In, elem_of_seqZ. lia. Qed.

Lemma masked_writable i : 0 ≤ i < 120 → Z.land (masked i).1 0x1AFFF = (masked i).1.
Proof.
  intros Hi. apply Z.eqb_eq. revert i Hi.
  apply (small_cases (λ i, Z.land (masked i).1 0x1AFFF =? (masked i).1) 120). by vm_compute.
Qed.
Lemma routed_writable i : 0 ≤ i < 120 → Z.land (T_IRQ0 + i) 0x1AFFF = T_IRQ0 + i.
Proof.
  intros Hi. apply Z.eqb_eq. revert i Hi.
  apply (small_cases (λ i, Z.land (T_IRQ0 + i) 0x1AFFF =? T_IRQ0 + i) 120). by vm_compute.
Qed.
Lemma masked_u32 i : 0 ≤ i < 120 → 0 ≤ (masked i).1 < 2 ^ 32.
Proof.
  intros Hi. assert (HP : (0 <=? (masked i).1) && ((masked i).1 <? 2 ^ 32) = true); [|bool_props; lia].
  revert i Hi. apply small_cases. by vm_compute.
Qed.
Lemma dest_writable c : 0 ≤ c < 256 → is_u32 (Z.shiftl c 24) ∧ Z.land (Z.shiftl c 24) 0xFF000000 = Z.shiftl c 24.
Proof.
  intros Hc. split; [unfold is_u32; rewrite Z.shiftl_mul_pow2 by lia; lia|].
  apply Z.eqb_eq. revert c Hc. apply (small_cases (λ c, Z.land (Z.shiftl c 24) 0xFF000000 =? Z.shiftl c 24) 256).
  by vm_compute.
Qed.

(** Writing both words of entry [i] sets it and nothing else. *)
Lemma wp_set_entry i lo hi (Q : unit → D → Prop) d :
  0 ≤ i ≤ ia_maxintr d → is_u32 lo → Z.land lo 0x1AFFF = lo → is_u32 hi → Z.land hi 0xFF000000 = hi →
  (∀ d', (∀ j, redir_entry d' j = if j =? i then (lo, hi) else redir_entry d j) → ia_maxintr d' = ia_maxintr d → Q tt d') →
  wp (ioapicwrite (REG_TABLE + 2 * i) lo ;; ioapicwrite (REG_TABLE + 2 * i + 1) hi) Q d.
Proof.
  intros Hi Hlo Hlw Hhi Hhw HQ. wp_step.
  apply wp_ioapicwrite; [unfold REG_TABLE; lia|done|unfold writable; by rewrite even_low|].
  intros d1 H1 Hm1. apply wp_ioapicwrite; [rewrite Hm1; unfold REG_TABLE; lia|done|unfold writable; by rewrite even_high|].
  intros d2 H2 Hm2. apply HQ; [|by rewrite Hm2]. intros j. unfold redir_entry. rewrite !H2, !H1.
  destruct (j =? i) eqn:E; bool_props.
  - subst j. rewrite Z.eqb_refl, (proj2 (Z.eqb_neq (REG_TABLE + 2 * i) _)), Z.eqb_refl by lia. done.
  - by rewrite !(proj2 (Z.eqb_neq _ _)) by lia.
Qed.

Lemma wp_ioapicinit (Q : unit → D → Prop) d :
  (∀ d', (∀ i, 0 ≤ i ≤ ia_maxintr d → redir_entry d' i = masked i) → ia_maxintr d' = ia_maxintr d → Q tt d') →
  wp ioapicinit Q d.
Proof.
  intros HQ. unfold ioapicinit. pose proof (ia_max d) as Hmax.
  wp_step. apply wp_ioapicread; [done|]. intros d1 Hr1 Hm1. rewrite <- Hr1, ia_ver, Hm1.
  wp_step. apply wp_ioapicread; [done|]. intros d2 _ Hm2. rewrite Hm1 in Hm2. cbv beta.
  eapply wp_mono.
  - apply (wp_for_loop (λ k d', ia_maxintr d' = ia_maxintr d ∧ ∀ i, 0 ≤ i < k → redir_entry d' i = masked i)).
    + split; [done|]. intros; lia.
    + intros k d' Hk [Hm Hd]. rewrite Z2Nat.id in Hk by lia.
      apply wp_set_entry; [lia|apply masked_u32; lia|apply masked_writable; lia|done|done|].
      intros d'' Hd'' Hm''. split; [by rewrite Hm''|]. intros i Hi. rewrite Hd''.
      destruct (i =? k) eqn:E; bool_props; [by subst|apply Hd; lia].
  - intros [] d' [Hm Hd]. apply HQ; [|done]. intros i Hi. apply Hd. lia.
Qed.

Definition enable_all (l : list (Z * Z)) : M D unit :=
  foldr (λ ic k, ioapicenable ic.1 ic.2 ;; k) (ret tt) l.

Lemma wp_enable_all l : ∀ (Q : unit → D → Prop) d,
  NoDup l.*1 → Forall (λ ic, 0 ≤ ic.1 ≤ ia_maxintr d ∧ 0 ≤ ic.2 < 256) l →
  (∀ d', ia_maxintr d' = ia_maxintr d →
    (∀ i c, (i, c) ∈ l → redir_entry d' i = routed i c) → (∀ i, i ∉ l.*1 → redir_entry d' i = redir_entry d i) → Q tt d') →
  wp (enable_all l) Q d.
Proof.
  induction l as [|[i c] l IH]; intros Q d Hnd Hl HQ; cbn [enable_all foldr].
  - wp_step. apply HQ; [done|set_solver|done].
  - apply Forall_cons in Hl as [[Hi Hc] Hl]. simpl in Hi, Hc. cbn [fmap list_fmap] in Hnd.
    apply NoDup_cons in Hnd as [Hni Hnd]. pose proof (ia_max d) as Hmax.
    wp_step. destruct (dest_writable c Hc) as [Hu Hw].
    apply wp_set_entry; [done|unfold is_u32, T_IRQ0; simpl; lia|apply routed_writable; simpl; lia|done|done|].
    intros d1 H1 Hm1. apply IH; [done|by rewrite Hm1|]. intros d2 Hm2 Hin Hout. apply HQ; [by rewrite Hm2| |].
    + intros j c' [[= -> ->]|Hj]%elem_of_cons; [|by apply Hin].
      rewrite Hout, H1 by done. by rewrite Z.eqb_refl.
    + cbn [fmap list_fmap]. intros j Hj. rewrite Hout by set_solver. rewrite H1.
      rewrite (proj2 (Z.eqb_neq _ _)) by set_solver. done.
Qed.

(** [ioapicinit] followed by any calls of [ioapicenable] for different
    interrupt lines leaves the redirection table of an I/O APIC that behaves
    as its data sheet says with exactly those lines unmasked, each with its
    vector and routed to the processor asked for, and every other line masked. *)
Theorem ioapic_routes l d :
  NoDup l.*1 → Forall (λ ic, 0 ≤ ic.1 ≤ ia_maxintr d ∧ 0 ≤ ic.2 < 256) l →
  wp (ioapicinit ;; enable_all l) (λ _ d', ∀ i, 0 ≤ i ≤ ia_maxintr d →
    (∀ c, (i, c) ∈ l → redir_entry d' i = routed i c) ∧ (i ∉ l.*1 → redir_entry d' i = masked i)) d.
Proof.
  intros Hnd Hl. wp_step. apply wp_ioapicinit. intros d1 Hr Hm. apply wp_enable_all; [done|by rewrite Hm|].
  intros d2 _ Hin Hout i Hi. split; [intros c Hc; by apply Hin|]. intros Hni. rewrite Hout by done. by apply Hr.
Qed.
End ioapic_spec.

(** An I/O APIC with 24 lines. *)
Record demo_ioapic := DemoIoapic { di_sel : Z; di_regs : Z → Z }.
Definition demo_reg (d : demo_ioapic) (r : Z) : Z := if r =? REG_VER then 0x170011 else di_regs d r.
#[global] Instance demo_mmio : MMIO demo_ioapic := {
  mm_read a d := (demo_reg d (di_sel d), d);
  mm_write a v d :=
    if a =? IOAPIC then DemoIoapic (v mod 256) (di_regs d)
    else DemoIoapic (di_sel d) (λ r, if r =? di_sel d then Z.land v (writable r) else di_regs d r)
}.
#[global] Program Instance demo_ioapic_laws : IoApic demo_ioapic := {|
  ia_sel := di_sel;
  ia_reg := demo_reg;
  ia_maxintr _ := 23
|}.
Next Obligation. done. Qed.
Next Obligation. done. Qed.
Next Obligation.
  intros v d d' Hs. split; [|done]. intros r. unfold d', demo_reg. simpl.
  destruct (r =? REG_VER) eqn:E; bool_props; [|done].
  rewrite (proj2 (Z.eqb_neq _ _)); [done|]. subst. unfold REG_VER, REG_TABLE in *. lia.
Qed.
Next Obligation. done. Qed.
Next Obligation. done. Qed.

Lemma ioapic_routes_witness :
  wp (ioapicinit ;; enable_all [(IRQ_KBD, 0); (IRQ_COM1, 0); (IRQ_IDE, 1)])
    (λ _ d', redir_entry d' IRQ_IDE = (46, Z.shiftl 1 24) ∧ redir_entry d' IRQ_TIMER = (0x10020, 0))
    (DemoIoapic 0 (λ _, 0)).
Proof.
  eapply wp_mono.
  - apply (ioapic_routes [(IRQ_KBD, 0); (IRQ_COM1, 0); (IRQ_IDE, 1)] (DemoIoapic 0 (λ _, 0))).
    + apply (bool_decide_unpack _). by vm_compute.
    + repeat constructor; done.
  - intros [] d' Hd. split.
    + apply (Hd IRQ_IDE); [done|]. set_solver.
    + destruct (Hd IRQ_TIMER) as [_ Ht]; [done|]. apply Ht. apply (bool_decide_unpack _). by vm_compute.
Defined.

(** ** The 8259A controllers (picirq.c) *)

Definition IO_PIC1 : Z := 0x20.
Definition IO_PIC2 : Z := 0xA0.
Definition picinit {D} `{PortIO D} : M D unit :=
  outb (IO_PIC1 + 1) 0xFF ;;
  outb (IO_PIC2 + 1) 0xFF.

(** ** The local APIC (lapic.c) *)

Module Lapic.
Definition ID : Z := 0x0020 / 4.
Definition VER : Z := 0x0030 / 4.
Definition TPR : Z := 0x0080 / 4.
Definition EOI : Z := 0x00B0 / 4.
Definition SVR : Z := 0x00F0 / 4.
Definition ENABLE : Z := 0x00000100.
Definition ESR : Z := 0x0280 / 4.
Definition ICRLO : Z := 0x0300 / 4.
Definition INIT : Z := 0x00000500.
Definition STARTUP : Z := 0x00000600.
Definition DELIVS : Z := 0x00001000.
Definition ASSERT : Z := 0x00004000.
Definition LEVEL : Z := 0x00008000.
Definition BCAST : Z := 0x00080000.
Definition ICRHI : Z := 0x0310 / 4.
Definition TIMER : Z := 0x0320 / 4.
Definition X1 : Z := 0x0000000B.
Definition PERIODIC : Z := 0x00020000.
Definition PCINT : Z := 0x0340 / 4.
Definition LINT0 : Z := 0x0350 / 4.
Definition LINT1 : Z := 0x0360 / 4.
Definition ERROR : Z := 0x0370 / 4.
Definition MASKED : Z := 0x00010000.
Definition TICR : Z := 0x0380 / 4.
Definition TDCR : Z := 0x03E0 / 4.
Definition IRQ_ERROR : Z := 19.
Definition CMOS_PORT : Z := 0x70.

Section lapic.
Context {D : Type} `{MMIO D}.
(** The pointer [lapic]; null when mp.c found no table. *)
Variable lapic : Z.

Definition lapicw (index value : Z) : M D unit :=
  mmio_set (lapic + 4 * index) value ;;
  _ ← mmio_get (lapic + 4 * ID);
  ret tt.

(** [while(lapic[ICRLO] & DELIVS) ;] *)
Fixpoint wait_delivered (polls : nat) : M D unit :=
  match polls with
  | O => fault
  | S n =>
      v ← mmio_get (lapic + 4 * ICRLO);
      if Z.land v DELIVS =? 0 then ret tt else wait_delivered n
  end.

Definition lapicinit (polls : nat) : M D unit :=
  if lapic =? 0 then ret tt else
  lapicw SVR (Z.lor ENABLE (T_IRQ0 + IRQ_SPURIOUS)) ;;
  lapicw TDCR X1 ;;
  lapicw TIMER (Z.lor PERIODIC (T_IRQ0 + IRQ_TIMER)) ;;
  lapicw TICR 10000000 ;;
  lapicw LINT0 MASKED ;;
  lapicw LINT1 MASKED ;;
  ver ← mmio_get (lapic + 4 * VER);
  whenM (4 <=? Z.land (Z.shiftr ver 16) 0xFF) (lapicw PCINT MASKED) ;;
  lapicw ERROR (T_IRQ0 + IRQ_ERROR) ;;
  lapicw ESR 0 ;;
  lapicw ESR 0 ;;
  lapicw EOI 0 ;;
  lapicw ICRHI 0 ;;
  lapicw ICRLO (Z.lor (Z.lor BCAST INIT) LEVEL) ;;
  wait_delivered polls ;;
  lapicw TPR 0.

Definition lapicid : M D Z :=
  if lapic =? 0 then ret 0 else
  v ← mmio_get (lapic + 4 * ID);
  ret (i32 (Z.shiftr v 24)).

Definition lapiceoi : M D unit := whenM (negb (lapic =? 0)) (lapicw EOI 0).
End lapic.

Definition microdelay {S} (us : Z) : M S unit := ret tt.

(** The machine as [lapicstartap] sees it: memory, registers and ports. *)
Record ap_mach (D : Type) := ApMach { ap_mem : mem; ap_dev : D }.
Arguments ApMach {D}.
Arguments ap_mem {D}.
Arguments ap_dev {D}.

Section startap.
Context {D : Type} `{MMIO D, PortIO D}.
Variable lapic : Z.
Definition on_dev {A} (c : M D A) : M (ap_mach D) A :=
  zoom ap_dev (λ d s, ApMach (ap_mem s) d) c.
Definition store16 (a v : Z) : M (ap_mach D) unit :=
  modify (λ s, ApMach (mset (mset (ap_mem s) a (u8 v)) (a + 1) (u8 (Z.shiftr v 8))) (ap_dev s)).

(** Start additional processor running entry code at addr. *)
Definition lapicstartap (apicid addr : Z) : M (ap_mach D) unit :=
  on_dev (outb CMOS_PORT 0xF) ;;
  on_dev (outb (CMOS_PORT + 1) 0x0A) ;;
  let wrv := P2V (Z.lor (Z.shiftl 0x40 4) 0x67) in
  store16 wrv 0 ;;
  store16 (wrv + 2) (Z.shiftr addr 4) ;;
  on_dev (lapicw lapic ICRHI (Z.shiftl apicid 24)) ;;
  on_dev (lapicw lapic ICRLO (Z.lor (Z.lor INIT LEVEL) ASSERT)) ;;
  microdelay 200 ;;
  on_dev (lapicw lapic ICRLO (Z.lor INIT LEVEL)) ;;
  microdelay 100 ;;
  for_loop 2 0 (λ _,
    on_dev (lapicw lapic ICRHI (Z.shiftl apicid 24)) ;;
    on_dev (lapicw lapic ICRLO (Z.lor STARTUP (Z.shiftr addr 12))) ;;
    microdelay 200).
End startap.
End Lapic.
