(* ===== verification/Messages.v ===== *)
(** * What the kernel prints about itself (console.c: consoleinit, panic; proc.c: procdump)

    [panic] and [procdump] print with [cprintf] on the console of [Console]; the
    theorems give what they send to the serial line, which is also what appears
    on the screen. *)

From S2P Require Import Prelude Words Params Format Locks Spinlock Proc Console ConsoleSpec Apic.

Section messages.
(** Words of kernel memory, for the call stacks. *)
Context (stack : Z → Z).

Definition with_panicked v c := Cons (cn_lock c) (cn_locking c) v (cn_uart c) (cn_cga c) (cn_in c) (cn_woken c).

(** [for(i=0; i<10; i++) cprintf(" %p", pcs[i])] *)
Fixpoint print_pcs (pcs : list Z) : M cons unit :=
  match pcs with
  | [] => ret tt
  | pc :: rest => cprintf (lit " %p") [PInt pc] ;; print_pcs rest
  end.

(** Up to the loop in which the processor stays; [frame] is the address of the
    parameter [s]. *)
Definition panic_message (lapicid : Z) (s : list Z) (frame : Z) : M cons unit :=
  modify (with_locking false) ;;
  cprintf (lit "lapicid %d: panic: ") [PInt lapicid] ;;
  cprintf s [] ;;
  cprintf lf [] ;;
  print_pcs (getcallerpcs stack frame) ;;
  modify (with_panicked true).

(** The string [states] gives for a state; every state has one. *)
Definition state_name (st : procstate) : list Z :=
  match st with
  | UNUSED => lit "unused"
  | EMBRYO => lit "embryo"
  | SLEEPING => lit "sleep "
  | RUNNABLE => lit "runble"
  | RUNNING => lit "run   "
  | ZOMBIE => lit "zombie"
  end.

(** [for(i=0; i<10 && pc[i] != 0; i++)] *)
Fixpoint print_until0 (pcs : list Z) : M cons unit :=
  match pcs with
  | [] => ret tt
  | pc :: rest => if pc =? 0 then ret tt else cprintf (lit " %p") [PInt pc] ;; print_until0 rest
  end.

Definition dump_proc (p : proc) : M cons unit :=
  if bool_decide (p_state p = UNUSED) then ret tt else
  cprintf (lit "%d %s %s") [PInt (p_pid p); PStr (Some (state_name (p_state p))); PStr (Some (p_name p))] ;;
  whenM (bool_decide (p_state p = SLEEPING)) (print_until0 (getcallerpcs stack (u32 (cx_ebp (p_context p) + 8)))) ;;
  cprintf lf [].
Fixpoint procdump (procs : list proc) : M cons unit :=
  match procs with
  | [] => ret tt
  | p :: rest => dump_proc p ;; procdump rest
  end.

(** ** Printing *)

(** [s'] is [s] with [l] sent to the serial line. *)
Definition sent (l : list Z) (s s' : cons) : Prop :=
  screen_ok s' ∧ cn_uart s' = cn_uart s ++ l ∧ cn_lock s' = cn_lock s ∧ cn_locking s' = cn_locking s.

Lemma sent_trans l1 l2 s1 s2 s3 : sent l1 s1 s2 → sent l2 s2 s3 → sent (l1 ++ l2) s1 s3.
Proof.
  intros (_ & U1 & L1 & K1) (S2 & U2 & L2 & K2). split; [done|]. split; [by rewrite U2, U1, app_assoc|]. split; congruence.
Qed.
Lemma sent_nil s : screen_ok s → sent [] s s.
Proof. intros Hs. by split_and!; [|rewrite app_nil_r|..]. Qed.

Notation char := (λ c, c ≠ BACKSPACE).

Lemma wp_consputc_sent c s : screen_ok s → char c → wp (consputc c) (λ _, sent [c] s) s.
Proof.
  intros [Hp Hg] Hc. unfold consputc. wp_step. wp_step. rewrite Hp, (proj2 (Z.eqb_neq _ _)) by done. wp_step. unfold uartputc. wp_step.
  apply wp_zoom, wp_cgaputc; [done|]. pose proof (cga_put_range c _ Hg) as [Hr Hl]. split_and!; try done. split; [done|]. by apply cga_end_ok.
Qed.
Lemma wp_put_chars l : Forall char l → ∀ s, screen_ok s → wp (put_chars l) (λ _, sent l s) s.
Proof.
  induction 1 as [|c l Hc _ IH]; intros s Hs; cbn [put_chars]; [wp_step; by apply sent_nil|].
  wp_step. eapply wp_mono; [by apply wp_consputc_sent|]. intros [] s1 H1. eapply wp_mono; [apply IH, H1|].
  intros [] s2 H2. exact (sent_trans [c] l _ _ _ H1 H2).
Qed.

(** What a format prints. *)
Fixpoint expand (fmt : list Z) (args : list parg) : option (list Z) :=
  match fmt with
  | [] => Some []
  | c :: fmt1 =>
      if negb (c =? 37) then (c ::.) <$> expand fmt1 args
      else
        match fmt1 with
        | [] => Some []
        | c :: fmt' =>
            if (c =? 100) || (c =? 120) || (c =? 112) then
              match args with
              | PInt x :: args' =>
                  (int_chars hexdigits (i32 x) (if c =? 100 then 10 else 16) (c =? 100) ++.) <$> expand fmt' args'
              | _ => None
              end
            else if c =? 115 then
              match args with
              | PStr s :: args' => (str_of (PStr s) ++.) <$> expand fmt' args'
              | _ => None
              end
            else if c =? 37 then (37 ::.) <$> expand fmt' args
            else (λ l, 37 :: c :: l) <$> expand fmt' args
        end
  end.

Lemma hexdigit_char n : char (hexdigits !!! n).
Proof.
  destruct (hexdigits !! n) as [c|] eqn:E.
  - rewrite (list_lookup_total_correct _ _ _ E). apply list_elem_of_lookup_2 in E. unfold hexdigits in E.
    by repeat (apply elem_of_cons in E as [->|E]; [done|]); apply elem_of_nil in E.
  - rewrite list_lookup_total_alt, E. done.
Qed.
Lemma int_chars_char x base sgn : Forall char (int_chars hexdigits x base sgn).
Proof.
  assert (Hd : ∀ fuel y, Forall char (digits_of fuel hexdigits base y)).
  { induction fuel as [|f IH]; intros y; cbn [digits_of]; constructor; [apply hexdigit_char|]. destruct (_ =? 0); [constructor|apply IH]. }
  unfold int_chars. apply Forall_rev, Forall_app. split; [apply Hd|]. destruct (_ && _); by repeat constructor.
Qed.

Definition arg_ok (a : parg) : Prop := match a with PInt _ => True | PStr _ => Forall char (str_of a) end.

Lemma wp_cprintf_from n : ∀ fmt args l s, (length fmt ≤ n)%nat → expand fmt args = Some l → Forall char fmt → Forall arg_ok args → screen_ok s →
  wp (cprintf_from fmt args) (λ _, sent l s) s.
Proof.
  induction n as [|n IH]; intros [|c fmt] args l s Hn Hl Hf Ha Hs; try (simpl in Hn; lia); cbn [expand cprintf_from] in *.
  1,2: injection Hl as <-; wp_step; by apply sent_nil.
  inversion Hf as [|? ? Hc Hf1]; subst. simpl in Hn.
  assert (step : ∀ (m : M cons unit) l1 fmt' args' l2, wp m (λ _, sent l1 s) s → (length fmt' ≤ n)%nat → expand fmt' args' = Some l2 →
    Forall char fmt' → Forall arg_ok args' → wp (m ;; cprintf_from fmt' args') (λ _, sent (l1 ++ l2) s) s).
  { intros m l1 fmt' args' l2 Hm Hn' He Hf' Ha'. wp_step. eapply wp_mono; [exact Hm|]. intros [] s1 H1.
    eapply wp_mono; [apply (IH fmt' args' l2); try done; apply H1|]. intros [] s2 H2. by apply (sent_trans _ _ s s1). }
  destruct (c =? 37); cbn [negb] in *.
  - destruct fmt as [|d fmt]; [injection Hl as <-; wp_step; by apply sent_nil|]. inversion Hf1 as [|? ? Hd Hf2]; subst. simpl in Hn.
    destruct ((d =? 100) || (d =? 120) || (d =? 112)).
    + destruct args as [|[x|] args]; try done. inversion Ha as [|? ? _ Ha']; subst. destruct (expand fmt args) as [l2|] eqn:E; [|done].
      injection Hl as <-. apply (step _ _ fmt args l2); try done; [|lia].
      destruct (d =? 100); apply wp_put_chars; (done || apply int_chars_char).
    + destruct (d =? 115).
      * destruct args as [|[|o] args]; try done. inversion Ha as [|? ? Ho Ha']; subst. destruct (expand fmt args) as [l2|] eqn:E; [|done].
        injection Hl as <-. apply (step _ _ fmt args l2); try done; [by apply wp_put_chars|lia].
      * destruct (expand fmt args) as [l2|] eqn:E; destruct (d =? 37); try done; injection Hl as <-.
        -- apply (step _ [37] fmt args l2); try done; [by apply wp_consputc_sent|lia].
        -- wp_step. eapply wp_mono; [by apply wp_consputc_sent|]. intros [] s1 H1. wp_step.
           eapply wp_mono; [apply wp_consputc_sent; [apply H1|done]|]. intros [] s2 H2.
           eapply wp_mono; [apply (IH fmt args l2); try done; [lia|apply H2]|]. intros [] s3 H3.
           apply (sent_trans [37] (d :: l2) s s1); [done|]. by apply (sent_trans [d] l2 s1 s2).
  - destruct (expand fmt args) as [l2|] eqn:E; [|done]. injection Hl as <-.
    apply (step _ [c] fmt args l2); try done; [by apply wp_consputc_sent|lia].
Qed.

Lemma wp_cprintf fmt args l s : expand fmt args = Some l → Forall char fmt → Forall arg_ok args → screen_ok s →
  (cn_locking s = true → cn_lock s = false) → wp (cprintf fmt args) (λ _, sent l s) s.
Proof.
  intros Hl Hf Ha Hs Hlk. unfold cprintf. wp_step. wp_step. wp_step. unfold whenM. destruct (cn_locking s) eqn:Ek.
  - apply wp_c_acquire; [by apply Hlk|]. wp_step. eapply wp_mono; [by apply (wp_cprintf_from (length fmt) fmt args l)|].
    intros [] s1 (S1 & U1 & L1 & K1). apply wp_c_release; [done|]. split_and!; try done. cbn. by rewrite Hlk.
  - wp_step. wp_step. eapply wp_mono; [by apply (wp_cprintf_from (length fmt) fmt args l)|]. intros [] s1 H1. by wp_step.
Qed.

(** A string without a percent sign. *)
Lemma expand_plain l : Forall (λ c, c ≠ 37) l → expand l [] = Some l.
Proof. induction 1 as [|c l Hc _ IH]; [done|]. cbn [expand]. rewrite (proj2 (Z.eqb_neq _ _)) by done. cbn [negb]. by rewrite IH. Qed.

(** ** panic *)

Definition dec_text (x : Z) : list Z := int_chars hexdigits (i32 x) 10 true.
Definition pc_text (pc : Z) : list Z := lit " " ++ int_chars hexdigits (i32 pc) 16 false.
Definition panic_text (lapicid : Z) (msg pcs : list Z) : list Z :=
  lit "lapicid " ++ dec_text lapicid ++ lit ": panic: " ++ msg ++ lf ++ concat (pc_text <$> pcs).

Lemma wp_print_pc pc s : screen_ok s → (cn_locking s = true → cn_lock s = false) → wp (cprintf (lit " %p") [PInt pc]) (λ _, sent (pc_text pc) s) s.
Proof.
  intros Hs Hlk. apply wp_cprintf; try done; [|by repeat constructor|by repeat constructor].
  unfold pc_text. cbn [expand lit]. simpl. by rewrite app_nil_r.
Qed.
Lemma wp_print_pcs pcs : ∀ s, screen_ok s → cn_locking s = false → wp (print_pcs pcs) (λ _, sent (concat (pc_text <$> pcs)) s) s.
Proof.
  induction pcs as [|pc pcs IH]; intros s Hs Hk; cbn [print_pcs fmap list_fmap concat]; [wp_step; by apply sent_nil|].
  wp_step. eapply wp_mono; [apply wp_print_pc; [done|by rewrite Hk]|]. intros [] s1 H1.
  eapply wp_mono; [apply IH; [apply H1|destruct H1 as (_ & _ & _ & ->); done]|]. intros [] s2 H2. by apply (sent_trans _ _ s s1).
Qed.

(** [panic] prints its message and the call stack even when the console lock is
    held, by this processor or by another one, and leaves the lock as it is;
    then every processor that prints stops. *)
Theorem panic_prints lapicid msg frame s :
  screen_ok s → Forall (λ c, c ≠ 37 ∧ c ≠ BACKSPACE) msg →
  wp (panic_message lapicid msg frame) (λ _ s',
    cn_uart s' = cn_uart s ++ panic_text lapicid msg (getcallerpcs stack frame) ∧ cn_lock s' = cn_lock s ∧
    ∀ c, consputc c s' = Panic "frozen") s.
Proof.
  intros Hs Hm. unfold panic_message. wp_step. wp_step. set (s0 := with_locking false s). assert (Hs0 : screen_ok s0) by done. wp_step.
  eapply wp_mono; [apply (wp_cprintf _ _ (lit "lapicid " ++ dec_text lapicid ++ lit ": panic: ") s0); try done; by repeat constructor|].
  intros [] s1 H1. assert (K1 : cn_locking s1 = false) by (by destruct H1 as (_ & _ & _ & ->)). wp_step.
  eapply wp_mono; [apply (wp_cprintf msg [] msg); [apply expand_plain|..]|].
  { eapply Forall_impl; [exact Hm|]. by intros ? []. } { eapply Forall_impl; [exact Hm|]. by intros ? []. } { constructor. } { apply H1. } { by rewrite K1. }
  intros [] s2 H2. assert (K2 : cn_locking s2 = false) by (by destruct H2 as (_ & _ & _ & ->)). wp_step.
  eapply wp_mono; [apply (wp_cprintf lf [] lf); [done|by repeat constructor|constructor|apply H2|by rewrite K2]|].
  intros [] s3 H3. assert (K3 : cn_locking s3 = false) by (by destruct H3 as (_ & _ & _ & ->)). wp_step.
  eapply wp_mono; [apply wp_print_pcs; [apply H3|done]|]. intros [] s4 H4. wp_step.
  destruct (sent_trans _ _ _ _ _ (sent_trans _ _ _ _ _ (sent_trans _ _ _ _ _ H1 H2) H3) H4) as (_ & U & L & _). cbn [cn_uart with_panicked cn_lock].
  split_and!; [|by rewrite L|done]. rewrite U. unfold panic_text. by rewrite !app_assoc.
Qed.

(** ** procdump *)

Fixpoint until0 (pcs : list Z) : list Z :=
  match pcs with
  | [] => []
  | pc :: rest => if pc =? 0 then [] else pc_text pc ++ until0 rest
  end.
Definition proc_text (p : proc) : list Z :=
  if decide (p_state p = UNUSED) then [] else
  dec_text (p_pid p) ++ lit " " ++ state_name (p_state p) ++ lit " " ++ p_name p ++
  (if decide (p_state p = SLEEPING) then until0 (getcallerpcs stack (u32 (cx_ebp (p_context p) + 8))) else []) ++ lf.

(** The console can be printed on: its lock is free, if it is used. *)
Definition printable (s : cons) : Prop := screen_ok s ∧ (cn_locking s = true → cn_lock s = false).
Lemma sent_printable l s s' : printable s → sent l s s' → printable s'.
Proof. intros [_ Hl] (Hs & _ & E1 & E2). split; [done|]. by rewrite E1, E2. Qed.

Lemma wp_print_until0 pcs : ∀ s, printable s → wp (print_until0 pcs) (λ _, sent (until0 pcs) s) s.
Proof.
  induction pcs as [|pc pcs IH]; intros s [Hs Hk]; cbn [print_until0 until0]; [wp_step; by apply sent_nil|].
  destruct (pc =? 0); [wp_step; by apply sent_nil|]. wp_step. eapply wp_mono; [by apply wp_print_pc|]. intros [] s1 H1.
  eapply wp_mono; [apply IH; by apply (sent_printable (pc_text pc) s)|]. intros [] s2 H2. by apply (sent_trans _ _ s s1).
Qed.

Lemma state_name_char st : Forall char (state_name st).
Proof. destruct st; by repeat constructor. Qed.

Lemma wp_dump_proc p s : Forall char (p_name p) → printable s → wp (dump_proc p) (λ _, sent (proc_text p) s) s.
Proof.
  intros Hn Hs. unfold dump_proc, proc_text. case_bool_decide; [rewrite decide_True by done; wp_step; by apply sent_nil, Hs|].
  rewrite decide_False by done. wp_step.
  eapply wp_mono; [apply (wp_cprintf _ _ (dec_text (p_pid p) ++ lit " " ++ state_name (p_state p) ++ lit " " ++ p_name p) s); try apply Hs|].
  { simpl. by rewrite app_nil_r. } { by repeat constructor. } { repeat constructor; [apply state_name_char|done]. }
  intros [] s1 H1. pose proof (sent_printable _ _ _ Hs H1) as P1. wp_step.
  eapply (wp_mono _ (λ _, sent (if decide (p_state p = SLEEPING) then until0 (getcallerpcs stack (u32 (cx_ebp (p_context p) + 8))) else []) s1)).
  { unfold whenM. case_bool_decide; [rewrite decide_True by done; by apply wp_print_until0|rewrite decide_False by done; wp_step; apply sent_nil, P1]. }
  intros [] s2 H2. pose proof (sent_printable _ _ _ P1 H2) as P2.
  eapply wp_mono; [apply (wp_cprintf lf [] lf); [done|by repeat constructor|constructor|apply P2..]|]. intros [] s3 H3.
  pose proof (sent_trans _ _ _ _ _ (sent_trans _ _ _ _ _ H1 H2) H3) as Hall. by rewrite <- !app_assoc in Hall.
Qed.

(** [procdump] prints one line for every process in the order of the table:
    its number, its state and its name, and the call stack of one that sleeps. *)
Theorem procdump_lists procs s : Forall (λ p, Forall char (p_name p)) procs → printable s →
  wp (procdump procs) (λ _ s', cn_uart s' = cn_uart s ++ concat (proc_text <$> procs)) s.
Proof.
  intros Hn Hs. enough (wp (procdump procs) (λ _, sent (concat (proc_text <$> procs)) s) s) as H
    by (eapply wp_mono; [exact H|]; by intros [] s' (_ & U & _)).
  revert s Hs. induction Hn as [|p procs Hp _ IH]; intros s Hs; cbn [procdump fmap list_fmap concat]; [wp_step; by apply sent_nil, Hs|].
  wp_step. eapply wp_mono; [by apply wp_dump_proc|]. intros [] s1 H1. eapply wp_mono; [apply IH; by apply (sent_printable (proc_text p) s)|].
  intros [] s2 H2. by apply (sent_trans _ _ s s1).
Qed.
End messages.

(** ** consoleinit *)

Definition CONSOLE : Z := 1.
(** The functions that [devsw] can point to. *)
Inductive devfn := Consolewrite | Consoleread.
Record devsw := Devsw { d_read : option devfn; d_write : option devfn }.

Section consoleinit.
Context {D : Type} `{!MMIO D}.
Record initst := Initst { is_cons : cons; is_devsw : list devsw; is_dev : D }.

Definition consoleinit : M initst unit :=
  modify (λ s, Initst (with_clock false (is_cons s)) (is_devsw s) (is_dev s)) ;;
  modify (λ s, Initst (is_cons s) (alter (λ d, Devsw (d_read d) (Some Consolewrite)) (Z.to_nat CONSOLE) (is_devsw s)) (is_dev s)) ;;
  modify (λ s, Initst (is_cons s) (alter (λ d, Devsw (Some Consoleread) (d_write d)) (Z.to_nat CONSOLE) (is_devsw s)) (is_dev s)) ;;
  modify (λ s, Initst (with_locking true (is_cons s)) (is_devsw s) (is_dev s)) ;;
  zoom is_dev (λ d s, Initst (is_cons s) (is_devsw s) d) (ioapicenable IRQ_KBD 0).

(** After [consoleinit] the console can be printed on, its device is served
    by the two routines, and keyboard interrupts go to the first processor. *)
Lemma wp_consoleinit `{!IoApic D} s :
  screen_ok (is_cons s) → length (is_devsw s) = Z.to_nat NDEV → IRQ_KBD ≤ ia_maxintr (is_dev s) →
  wp consoleinit (λ _ s', printable (is_cons s') ∧ cn_locking (is_cons s') = true ∧
    is_devsw s' !! Z.to_nat CONSOLE = Some (Devsw (Some Consoleread) (Some Consolewrite)) ∧
    redir_entry (is_dev s') IRQ_KBD = routed IRQ_KBD 0) s.
Proof.
  intros Hs Hl Hm. unfold consoleinit. do 8 wp_step. apply wp_zoom. cbn [is_dev is_cons is_devsw].
  apply wp_set_entry; [by split; [|exact Hm]|by vm_compute|done|by vm_compute|done|]. intros d' Hd _. cbn [is_dev is_cons is_devsw].
  split_and!; [done|done| |by rewrite Hd].
  destruct (lookup_lt_is_Some_2 (is_devsw s) (Z.to_nat CONSOLE)) as [x Hx]; [rewrite Hl; vm_compute; lia|].
  by rewrite !list_lookup_alter_eq, Hx.
Qed.
End consoleinit.
