(* ===== verification/ApicSpec.v ===== *)
(** * Starting the other processors (lapic.c)

    The local APIC as Intel's manual describes it: configuration registers
    that keep what is written, and the interrupt command register, whose INIT
    message makes a processor wait and whose STARTUP message sends a waiting
    processor to the page of its vector. *)

From S2P Require Import Prelude Words Params CString Ports Apic.
Import Lapic.

Record apic := Apic {
  a_cfg : gmap Z Z;            (* configuration registers *)
  a_dest : Z;                  (* destination of the next message *)
  a_wait : gset Z;             (* processors that wait for a STARTUP *)
  a_started : list (Z * Z)     (* processors started, with their first address *)
}.

Definition cfg_regs : list Z := [TPR; SVR; TIMER; PCINT; LINT0; LINT1; ERROR; TICR; TDCR].

(** A message to [a_dest]; one without ASSERT synchronises the arbitration IDs. *)
Definition send (v : Z) (a : apic) : apic :=
  let mode := Z.land v 0x700 in
  if mode =? INIT then
    if Z.land v ASSERT =? 0 then a
    else Apic (a_cfg a) (a_dest a) ({[a_dest a]} ∪ a_wait a) (a_started a)
  else if mode =? STARTUP then
    if decide (a_dest a ∈ a_wait a) then
      Apic (a_cfg a) (a_dest a) (a_wait a ∖ {[a_dest a]}) (a_started a ++ [(a_dest a, Z.land v 0xFF * 4096)])
    else a
  else a.
Definition apic_write (r v : Z) (a : apic) : apic :=
  if r =? ICRHI then Apic (a_cfg a) (Z.shiftr v 24) (a_wait a) (a_started a)
  else if r =? ICRLO then send v a
  else if bool_decide (r ∈ cfg_regs) then Apic (<[r := v]> (a_cfg a)) (a_dest a) (a_wait a) (a_started a)
  else a.

(** A device whose registers at [base] are such an APIC; a message is delivered
    within [polls] reads of the command register. *)
Class LocalApic (D : Type) `{MMIO D, PortIO D} (base : Z) (polls : nat) := {
  la_st : D → apic;
  la_busy : D → nat;
  la_write r v d : 0 ≤ r < 256 → la_st (mm_write (base + 4 * r) v d) = apic_write r v (la_st d);
  la_read r d : 0 ≤ r < 256 → let '(v, d') := mm_read (base + 4 * r) d in
    la_st d' = la_st d ∧ (r = ICRLO → Z.land v DELIVS ≠ 0 → (la_busy d' < la_busy d)%nat);
  la_polls d : (la_busy d < polls)%nat;
  la_ports p v d : la_st (dev_out8 p v d) = la_st d
}.

Section lapic_spec.
Context {D : Type} `{!MMIO D, !PortIO D} (base : Z) (polls : nat).
Context `{LA : !LocalApic D base polls}.
Implicit Types d : D.

Lemma wp_lapicw r v (Q : unit → D → Prop) d :
  0 ≤ r < 256 → (∀ d', la_st d' = apic_write r (u32 v) (la_st d) → Q tt d') → wp (lapicw base r v) Q d.
Proof.
  intros Hr HQ. unfold lapicw. wp_step. apply wp_mmio_set. wp_step. apply wp_mmio_get.
  pose proof (la_read ID (mm_write (base + 4 * r) (u32 v) d) ltac:(done)) as Hrd.
  destruct (mm_read _ _) as [x d']. destruct Hrd as [Hst _]. wp_step. apply HQ. by rewrite Hst, la_write.
Qed.

Lemma land_DELIVS v : Z.land (u32 v) DELIVS = Z.land v DELIVS.
Proof.
  unfold u32. rewrite <- (land_ones_low v 32) by lia. rewrite <- Z.land_assoc. reflexivity.
Qed.

Lemma wp_wait_delivered n (Q : unit → D → Prop) d :
  (la_busy d < n)%nat → (∀ d', la_st d' = la_st d → Q tt d') → wp (wait_delivered base n) Q d.
Proof.
  revert d. induction n as [|n IH]; intros d Hn HQ; [lia|]. cbn [wait_delivered]. wp_step. apply wp_mmio_get.
  pose proof (la_read ICRLO d ltac:(done)) as Hrd. destruct (mm_read _ _) as [v d'].
  destruct Hrd as [Hst Hb]. rewrite land_DELIVS. destruct (_ =? 0) eqn:E; bool_props.
  - wp_step. by apply HQ.
  - apply IH; [specialize (Hb eq_refl E); lia|]. intros d2 H2. apply HQ. by rewrite H2.
Qed.

(** What [lapicinit] leaves: the unit enabled with its spurious vector, the
    timer periodic, the local lines masked, errors routed, all priorities
    accepted; no processor is started. *)
Definition lapic_ready (a a' : apic) : Prop :=
  Forall (λ rv, a_cfg a' !! rv.1 = Some rv.2)
    [(SVR, 0x100 + 63); (TDCR, 0xB); (TIMER, 0x20000 + 32); (TICR, 10000000); (LINT0, 0x10000);
     (LINT1, 0x10000); (ERROR, 51); (TPR, 0)] ∧
  a_wait a' = a_wait a ∧ a_started a' = a_started a.

Lemma apic_cfg r v a : bool_decide (r ∈ cfg_regs) = true → r ≠ ICRHI → r ≠ ICRLO →
  apic_write r v a = Apic (<[r := v]> (a_cfg a)) (a_dest a) (a_wait a) (a_started a).
Proof.
  intros Hr H1 H2. unfold apic_write. by rewrite !(proj2 (Z.eqb_neq _ _)), Hr by done.
Qed.
Lemma apic_ignored r v a : bool_decide (r ∈ cfg_regs) = false → r ≠ ICRHI → r ≠ ICRLO → apic_write r v a = a.
Proof. intros Hr H1 H2. unfold apic_write. by rewrite !(proj2 (Z.eqb_neq _ _)), Hr by done. Qed.

Lemma wp_lapicinit d :
  base ≠ 0 → wp (lapicinit base polls) (λ _ d', lapic_ready (la_st d) (la_st d')) d.
Proof.
  intros Hb. unfold lapicinit. rewrite (proj2 (Z.eqb_neq _ _)) by done.
  do 6 (wp_step; apply wp_lapicw; [done|]; let d' := fresh "d" in let H := fresh "H" in intros d' H;
    rewrite apic_cfg in H by done; cbv beta).
  wp_step. apply wp_mmio_get. pose proof (la_read VER d5 ltac:(done)) as Hrd.
  destruct (mm_read _ _) as [ver d6]. destruct Hrd as [H5 _]. cbv beta.
  wp_step. assert (Hpc : wp (whenM (4 <=? Z.land (Z.shiftr (u32 ver) 16) 0xFF) (lapicw base PCINT MASKED))
    (λ _ d', la_st d' = la_st d5 ∨ la_st d' = apic_write PCINT (u32 MASKED) (la_st d5)) d6).
  { unfold whenM. destruct (4 <=? _); [|wp_step; by left]. apply wp_lapicw; [done|].
    intros d' Hd'. right. by rewrite Hd', H5. }
  eapply wp_mono; [exact Hpc|]. intros [] d7 H7. clear Hpc. rewrite apic_cfg in H7 by done. cbv beta.
  wp_step. apply wp_lapicw; [done|]. intros d8 H8. rewrite apic_cfg in H8 by done. cbv beta.
  do 3 (wp_step; apply wp_lapicw; [done|]; let d' := fresh "e" in let H := fresh "He" in intros d' H;
    rewrite apic_ignored in H by done; cbv beta).
  wp_step. apply wp_lapicw; [done|]. intros d9 H9. cbv beta.
  wp_step. apply wp_lapicw; [done|]. intros d10 H10. cbv beta.
  wp_step. apply wp_wait_delivered; [apply la_polls|]. intros d11 H11. cbv beta.
  apply wp_lapicw; [done|]. intros d12 H12. rewrite apic_cfg in H12 by done.
  rewrite H11, H10 in H12. rewrite H9, He1, He0, He, H8 in H12. rewrite H12. clear -H H0 H1 H2 H3 H4 H7.
  unfold lapic_ready. change (apic_write ICRLO (u32 (Z.lor (Z.lor BCAST INIT) LEVEL))) with (λ a : apic, a).
  change (apic_write ICRHI (u32 0)) with (λ a, Apic (a_cfg a) 0 (a_wait a) (a_started a)). cbn [a_cfg a_wait a_started].
  assert (Hd5 : a_wait (la_st d5) = a_wait (la_st d) ∧ a_started (la_st d5) = a_started (la_st d)).
  { rewrite H4, H3, H2, H1, H0, H. done. }
  assert (Hcfg : ∃ k, a_cfg (la_st d7) = k (a_cfg (la_st d5)) ∧ (k = id ∨ k = <[PCINT := u32 MASKED]>)).
  { destruct H7 as [-> | ->]; [by exists id; split; [|left]|by eexists; split; [|right]]. }
  assert (Hws : a_wait (la_st d7) = a_wait (la_st d5) ∧ a_started (la_st d7) = a_started (la_st d5)) by (by destruct H7 as [-> | ->]).
  destruct Hws as [-> ->]. destruct Hd5 as [-> ->]. split; [|done].
  destruct Hcfg as (k & -> & Hk). rewrite H4, H3, H2, H1, H0, H. cbn [a_cfg].
  repeat constructor; simpl fst; simpl snd; destruct Hk as [-> | ->]; unfold id; by simplify_map_eq.
Qed.

(** *** Starting a processor *)

Lemma dest_u32 c : 0 ≤ c < 256 → Z.shiftr (u32 (Z.shiftl c 24)) 24 = c.
Proof.
  intros Hc. apply Z.eqb_eq. revert c Hc.
  apply (small_cases (λ c, Z.shiftr (u32 (Z.shiftl c 24)) 24 =? c)). by vm_compute.
Qed.

(** The STARTUP message of a page below 1 MiB. *)
Lemma startup_word pg : 0 ≤ pg < 256 →
  let v := u32 (Z.lor STARTUP (Z.shiftr (pg * 4096) 12)) in
  Z.land v 0x700 = STARTUP ∧ Z.land v 0xFF * 4096 = pg * 4096.
Proof.
  intros Hp. cbv zeta. set (v := u32 _).
  assert (Hb : (Z.land v 0x700 =? STARTUP) && (Z.land v 0xFF * 4096 =? pg * 4096) = true); [|bool_props; by split].
  subst v. revert pg Hp. apply small_cases. by vm_compute.
Qed.

Lemma write_icrhi c a : 0 ≤ c < 256 →
  apic_write ICRHI (u32 (Z.shiftl c 24)) a = Apic (a_cfg a) c (a_wait a) (a_started a).
Proof. intros Hc. unfold apic_write. simpl. by rewrite dest_u32. Qed.

Lemma write_startup pg a : 0 ≤ pg < 256 →
  apic_write ICRLO (u32 (Z.lor STARTUP (Z.shiftr (pg * 4096) 12))) a =
  if decide (a_dest a ∈ a_wait a) then
    Apic (a_cfg a) (a_dest a) (a_wait a ∖ {[a_dest a]}) (a_started a ++ [(a_dest a, pg * 4096)])
  else a.
Proof.
  intros Hp. destruct (startup_word pg Hp) as [Hm Hv]. unfold apic_write. change (ICRLO =? ICRHI) with false.
  rewrite Z.eqb_refl. cbv iota. unfold send. rewrite Hm, Hv. done.
Qed.

Lemma wp_on_lapicw r v (Q : unit → ap_mach D → Prop) s :
  0 ≤ r < 256 →
  (∀ d', la_st d' = apic_write r (u32 v) (la_st (ap_dev s)) → Q tt (ApMach (ap_mem s) d')) →
  wp (on_dev (lapicw base r v)) Q s.
Proof. intros Hr HQ. apply wp_zoom. by apply wp_lapicw. Qed.

Lemma wp_on_outb p v (Q : unit → ap_mach D → Prop) s :
  (∀ d', la_st d' = la_st (ap_dev s) → Q tt (ApMach (ap_mem s) d')) → wp (on_dev (outb p v)) Q s.
Proof. intros HQ. apply wp_zoom. apply wp_outb. apply HQ. apply la_ports. Qed.

(** The two halves of the warm reset vector at 40:67. *)
Definition reset_vector (m : mem) : Z * Z :=
  let a := P2V 0x467 in (m a + 256 * m (a + 1), m (a + 2) + 256 * m (a + 3)).

Lemma reset_vector_set m pg : 0 ≤ pg < 256 →
  let w := P2V (Z.lor (Z.shiftl 0x40 4) 0x67) in let v := Z.shiftr (pg * 4096) 4 in
  reset_vector (mset (mset (mset (mset m w (u8 0)) (w + 1) (u8 (Z.shiftr 0 8))) (w + 2) (u8 v))
    (w + 2 + 1) (u8 (Z.shiftr v 8))) = (0, pg * 256).
Proof.
  intros Hp. cbv zeta. set (v := Z.shiftr (pg * 4096) 4).
  transitivity (0, u8 v + 256 * u8 (Z.shiftr v 8)); [reflexivity|]. f_equal. apply Z.eqb_eq. subst v. revert pg Hp.
  apply (small_cases (λ pg, u8 (Z.shiftr (pg * 4096) 4) + 256 * u8 (Z.shiftr (Z.shiftr (pg * 4096) 4) 8) =? pg * 256)).
  by vm_compute.
Qed.

(** On a local APIC that behaves as the manual says, [lapicstartap] starts
    processor [apicid] at address [addr], a page boundary below 1 MiB, exactly
    once, the second STARTUP message being ignored; no other processor is
    started or reset, and the warm reset vector in low memory is the segment
    and offset of [addr]. *)
Theorem lapicstartap_correct apicid pg (s : ap_mach D) :
  0 ≤ apicid < 256 → 0 ≤ pg < 256 →
  wp (lapicstartap base apicid (pg * 4096)) (λ _ s',
    a_started (la_st (ap_dev s')) = a_started (la_st (ap_dev s)) ++ [(apicid, pg * 4096)] ∧
    a_wait (la_st (ap_dev s')) = a_wait (la_st (ap_dev s)) ∖ {[apicid]} ∧
    a_cfg (la_st (ap_dev s')) = a_cfg (la_st (ap_dev s)) ∧
    reset_vector (ap_mem s') = (0, pg * 256) ∧
    ∀ a, (a < P2V 0x467 ∨ P2V 0x46B ≤ a) → ap_mem s' a = ap_mem s a) s.
Proof.
  intros Hc Hp. unfold lapicstartap, store16, microdelay.
  wp_step. apply wp_on_outb. intros d1 H1. wp_step. apply wp_on_outb. intros d2 H2. cbv beta zeta.
  cbn [ap_dev ap_mem] in *. wp_step. wp_step. wp_step. wp_step. cbn [ap_dev ap_mem].
  set (m' := mset _ _ _). wp_step. apply wp_on_lapicw; [done|]. intros d3 H3. rewrite write_icrhi in H3 by done.
  wp_step. apply wp_on_lapicw; [done|]. intros d4 H4. wp_step. wp_step.
  wp_step. apply wp_on_lapicw; [done|]. intros d5 H5. wp_step. wp_step. cbn [for_loop ap_dev ap_mem] in *.
  wp_step. wp_step. apply wp_on_lapicw; [done|]. intros d6 H6. rewrite write_icrhi in H6 by done.
  wp_step. apply wp_on_lapicw; [done|]. intros d7 H7. wp_step. wp_step.
  wp_step. apply wp_on_lapicw; [done|]. intros d8 H8. rewrite write_icrhi in H8 by done.
  wp_step. apply wp_on_lapicw; [done|]. intros d9 H9. wp_steps. cbn [ap_dev ap_mem] in *.
  rewrite write_startup in H7, H9 by done.
  rewrite H2, H1 in H3. rewrite H3 in H4. rewrite H4 in H5. rewrite H5 in H6.
  change (apic_write ICRLO (u32 (Z.lor INIT LEVEL))) with (λ a : apic, a) in H6.
  rewrite H6 in H7. cbn [a_dest a_wait] in H7.
  rewrite decide_True in H7 by (unfold apic_write, send; simpl; set_solver).
  rewrite H7 in H8. rewrite H8 in H9. cbn [a_dest a_wait] in H9.
  rewrite decide_False in H9 by set_solver. rewrite H9. cbn [a_started a_wait a_cfg].
  split_and!; [done|unfold apic_write, send; simpl; set_solver|done|..].
  - by apply (reset_vector_set (ap_mem s)).
  - intros a Ha. unfold m'. rewrite !mset_ne; [done|..]; intros ->; vm_compute in Ha; destruct Ha; done.
Qed.
End lapic_spec.

(** An APIC at its usual address that delivers at once. *)
Definition LAPIC_BASE : Z := 0xFEE00000.
Record demo_lapic := DemoLapic { dl_apic : apic }.
#[global] Instance demo_lapic_mmio : MMIO demo_lapic := {
  mm_read a d := (0, d);
  mm_write a v d := DemoLapic (apic_write ((a - LAPIC_BASE) / 4) v (dl_apic d))
}.
#[global] Instance demo_lapic_ports : PortIO demo_lapic := {
  dev_in8 _ d := (0, d);
  dev_out8 _ _ d := d;
  dev_in32 _ d := (0, d);
  dev_out32 _ _ d := d
}.
#[global] Program Instance demo_lapic_laws : LocalApic demo_lapic LAPIC_BASE 1 := {|
  la_st := dl_apic;
  la_busy _ := 0%nat
|}.
Next Obligation.
  intros r v d Hr. simpl. replace (LAPIC_BASE + 4 * r - LAPIC_BASE) with (r * 4) by lia. by rewrite Z.div_mul.
Qed.
Next Obligation. done. Qed.
Next Obligation. simpl. lia. Qed.
Next Obligation. done. Qed.

Lemma lapicstartap_correct_witness :
  wp (lapicstartap LAPIC_BASE 3 0x7000) (λ _ s',
    a_started (la_st (ap_dev s')) = [(3, 0x7000)] ∧ reset_vector (ap_mem s') = (0, 0x700))
    (ApMach (λ _, 0) (DemoLapic (Apic ∅ 0 ∅ []))).
Proof.
  eapply wp_mono.
  - apply (lapicstartap_correct LAPIC_BASE 1 3 7 (ApMach (λ _, 0) (DemoLapic (Apic ∅ 0 ∅ [])))); done.
  - intros [] s' (Hs & _ & _ & Hr & _). by split.
Defined.
