(* ===== verification/Cmos.v ===== *)
(** * The real-time clock (lapic.c: cmostime)

    The clock updates its registers on its own, once a second, while the
    kernel reads them one by one.  [cmostime] reads them twice and compares.
    The clock is a device with a sequence of register contents, [rtc_time k]
    after the [k]-th update; an update can only come some time after the one
    before, announced by the update-in-progress bit. *)

From S2P Require Import Prelude Words Ports Apic.
Import Lapic.

Definition CMOS_RETURN : Z := 0x71.
Definition CMOS_STATA : Z := 0x0a.
Definition CMOS_STATB : Z := 0x0b.
Definition CMOS_UIP : Z := 128.
Definition SECS : Z := 0x00.
Definition MINS : Z := 0x02.
Definition HOURS : Z := 0x04.
Definition DAY : Z := 0x07.
Definition MONTH : Z := 0x08.
Definition YEAR : Z := 0x09.

(** date.h *)
Record rtcdate := Rtcdate {
  second : Z;
  minute : Z;
  hour : Z;
  day : Z;
  month : Z;
  year : Z
}.
#[global] Instance rtcdate_eq_dec : EqDecision rtcdate.
Proof. solve_decision. Defined.

Section cmos.
Context {D : Type} `{PortIO D}.

Definition cmos_read (reg : Z) : M D Z := outb CMOS_PORT reg ;; microdelay 200 ;; inb CMOS_RETURN.

Definition fill_rtcdate : M D rtcdate :=
  s ← cmos_read SECS;
  m ← cmos_read MINS;
  h ← cmos_read HOURS;
  d ← cmos_read DAY;
  mo ← cmos_read MONTH;
  y ← cmos_read YEAR;
  ret (Rtcdate s m h d mo y).

(** make sure CMOS doesn't modify time while we read it *)
Fixpoint stable_date (fuel : nat) : M D rtcdate :=
  match fuel with
  | O => fault
  | S f =>
      t1 ← fill_rtcdate;
      a ← cmos_read CMOS_STATA;
      if negb (Z.land a CMOS_UIP =? 0) then stable_date f else
      t2 ← fill_rtcdate;
      if decide (t1 = t2) then ret t1 else stable_date f
  end.

Definition CONV (x : Z) : Z := Z.shiftr x 4 * 10 + Z.land x 0xf.
Definition convert (t : rtcdate) : rtcdate :=
  Rtcdate (CONV (second t)) (CONV (minute t)) (CONV (hour t)) (CONV (day t)) (CONV (month t)) (CONV (year t)).

Definition cmostime (fuel : nat) : M D rtcdate :=
  sb ← cmos_read CMOS_STATB;
  let bcd := Z.land sb 4 =? 0 in
  t1 ← stable_date fuel;
  let t1 := if bcd then convert t1 else t1 in
  ret (Rtcdate (second t1) (minute t1) (hour t1) (day t1) (month t1) (year t1 + 2000)).
End cmos.

(** ** The clock *)

(** A register read is two accesses, a turn of the loop twenty-six. *)
Definition quiet : Z := 64.

(** What one access may do to the number of updates and to their age, the
    accesses since the last one. *)
Definition moves (ticks ticks' : nat) (age age' : Z) : Prop :=
  (ticks' = ticks ∧ age' = age + 1) ∨ (ticks' = S ticks ∧ age' = 0 ∧ quiet ≤ age).

(** Reading a register gives its content at that moment; the update and the
    bit that announces it come no earlier than [quiet] accesses after the last
    update, and no later than [period]. *)
Class Rtc (D : Type) `{PortIO D} (period : Z) := {
  rtc_time : nat → Z → Z;
  rtc_mode : Z;
  rtc_ticks : D → nat;
  rtc_age : D → Z;
  rtc_sel : D → Z;
  rtc_range d : 0 ≤ rtc_age d < period;
  rtc_bytes k r : is_byte (rtc_time k r);
  rtc_select v d : let d' := dev_out8 CMOS_PORT v d in
    moves (rtc_ticks d) (rtc_ticks d') (rtc_age d) (rtc_age d') ∧ rtc_sel d' = v;
  rtc_read d : let '(v, d') := dev_in8 CMOS_RETURN d in
    moves (rtc_ticks d) (rtc_ticks d') (rtc_age d) (rtc_age d') ∧
    (rtc_sel d ∈ [SECS; MINS; HOURS; DAY; MONTH; YEAR] → v = rtc_time (rtc_ticks d) (rtc_sel d)) ∧
    (rtc_sel d = CMOS_STATB → v = rtc_mode) ∧
    (rtc_sel d = CMOS_STATA → Z.land v CMOS_UIP ≠ 0 → quiet ≤ rtc_age d)
}.

(** The date in the registers after update [k]. *)
Definition date_at {D} `{Rtc D period} (k : nat) : rtcdate :=
  Rtcdate (rtc_time k SECS) (rtc_time k MINS) (rtc_time k HOURS) (rtc_time k DAY) (rtc_time k MONTH)
    (rtc_time k YEAR).
Definition decode {D} `{Rtc D period} (k : nat) : rtcdate :=
  let t := if Z.land (u8 rtc_mode) 4 =? 0 then convert (date_at k) else date_at k in
  Rtcdate (second t) (minute t) (hour t) (day t) (month t) (year t + 2000).

Section rtc_spec.
Context {D : Type} `{!PortIO D} (period : Z) `{R : !Rtc D period}.
Implicit Types d : D.

(** [n] accesses, with at most one update among them. *)
Definition elapsed (n : Z) d d' : Prop :=
  (rtc_ticks d' = rtc_ticks d ∧ rtc_age d' = rtc_age d + n) ∨
  (rtc_ticks d' = S (rtc_ticks d) ∧ 0 ≤ rtc_age d' < n ∧ quiet ≤ rtc_age d + n).

Lemma elapsed_trans n m d1 d2 d3 :
  0 ≤ n → 0 ≤ m → n + m ≤ quiet → elapsed n d1 d2 → elapsed m d2 d3 → elapsed (n + m) d1 d3.
Proof. unfold elapsed. intros Hn Hm Hq [[E1 A1]|[E1 A1]] [[E2 A2]|[E2 A2]]; rewrite E2, E1; lia || (right; lia) || (left; lia). Qed.

Lemma moves_elapsed d d' : moves (rtc_ticks d) (rtc_ticks d') (rtc_age d) (rtc_age d') → elapsed 1 d d'.
Proof. unfold moves, elapsed. intros [[-> ->]|(-> & -> & Hq)]; [by left|right; lia]. Qed.

Lemma elapsed_ticks n d d' : elapsed n d d' → (rtc_ticks d ≤ rtc_ticks d' ≤ S (rtc_ticks d))%nat.
Proof. intros [[-> _]|[-> _]]; lia. Qed.

(** A register read happens at some moment in between. *)
Lemma wp_cmos_read reg (Q : Z → D → Prop) d :
  is_byte reg →
  (∀ v d1 d', elapsed 1 d d1 → elapsed 1 d1 d' →
    (reg ∈ [SECS; MINS; HOURS; DAY; MONTH; YEAR] → v = rtc_time (rtc_ticks d1) reg) →
    (reg = CMOS_STATB → v = u8 rtc_mode) →
    (reg = CMOS_STATA → Z.land v CMOS_UIP ≠ 0 → quiet ≤ rtc_age d1) → Q v d') →
  wp (cmos_read reg) Q d.
Proof.
  intros Hr HQ. unfold cmos_read, microdelay. wp_step. apply wp_outb. wp_steps. apply wp_inb.
  replace (u8 reg) with reg by (symmetry; by apply Z.mod_small).
  destruct (rtc_select reg d) as [Hm Hs]. set (d1 := dev_out8 CMOS_PORT reg d) in *.
  pose proof (rtc_read d1) as Hrd. destruct (dev_in8 _ d1) as [v d']. rewrite Hs in Hrd.
  destruct Hrd as (Hm' & Hv & Hb & Ha). apply (HQ _ d1); [by apply moves_elapsed..| | |].
  - intros Hin. rewrite (Hv Hin). apply Z.mod_small. apply rtc_bytes.
  - intros Hin. by rewrite (Hb Hin).
  - intros Hin. intros Hu. apply (Ha Hin). intros E. apply Hu. unfold u8.
    rewrite <- (land_ones_low v 8) by lia. rewrite <- Z.land_assoc. exact E.
Qed.

Lemma wp_cmos_field reg (Q : Z → D → Prop) d :
  reg ∈ [SECS; MINS; HOURS; DAY; MONTH; YEAR] →
  (∀ k d', elapsed 2 d d' → (rtc_ticks d ≤ k ≤ rtc_ticks d')%nat → Q (rtc_time k reg) d') →
  wp (cmos_read reg) Q d.
Proof.
  intros Hin HQ. apply wp_cmos_read.
  { repeat (apply elem_of_cons in Hin as [->|Hin]; [by vm_compute|]). by apply not_elem_of_nil in Hin. }
  intros v d1 d' H1 H2 Hv _ _. rewrite (Hv Hin). apply HQ.
  - by apply (elapsed_trans 1 1 d d1).
  - apply elapsed_ticks in H1, H2. lia.
Qed.

(** A date read while nothing was updated is the date. *)
Lemma wp_fill (Q : rtcdate → D → Prop) d :
  (∀ t d', elapsed 12 d d' → (rtc_ticks d' = rtc_ticks d → t = date_at (rtc_ticks d)) → Q t d') →
  wp fill_rtcdate Q d.
Proof.
  intros HQ. unfold fill_rtcdate.
  wp_step. apply wp_cmos_field; [set_solver|]. intros k1 d1 E1 K1. cbv beta.
  wp_step. apply wp_cmos_field; [set_solver|]. intros k2 d2 E2 K2. cbv beta.
  wp_step. apply wp_cmos_field; [set_solver|]. intros k3 d3 E3 K3. cbv beta.
  wp_step. apply wp_cmos_field; [set_solver|]. intros k4 d4 E4 K4. cbv beta.
  wp_step. apply wp_cmos_field; [set_solver|]. intros k5 d5 E5 K5. cbv beta.
  wp_step. apply wp_cmos_field; [set_solver|]. intros k6 d6 E6 K6. cbv beta. wp_step.
  pose proof (elapsed_trans 2 2 d d1 d2 ltac:(done) ltac:(done) ltac:(done) E1 E2) as F2.
  pose proof (elapsed_trans 4 2 d d2 d3 ltac:(done) ltac:(done) ltac:(done) F2 E3) as F3.
  pose proof (elapsed_trans 6 2 d d3 d4 ltac:(done) ltac:(done) ltac:(done) F3 E4) as F4.
  pose proof (elapsed_trans 8 2 d d4 d5 ltac:(done) ltac:(done) ltac:(done) F4 E5) as F5.
  pose proof (elapsed_trans 10 2 d d5 d6 ltac:(done) ltac:(done) ltac:(done) F5 E6) as F6.
  apply HQ; [exact F6|]. intros Heq.
  apply elapsed_ticks in E1, E2, E3, E4, E5, E6. unfold date_at.
  repeat f_equal; lia.
Qed.

(** The loop ends, with a date that was in the registers. *)
Lemma wp_stable fuel d :
  (rtc_age d + 26 < quiet ∧ (0 < fuel)%nat ∨ period - rtc_age d < Z.of_nat fuel) →
  wp (stable_date fuel) (λ t d', ∃ k, (rtc_ticks d ≤ k ≤ rtc_ticks d')%nat ∧ t = date_at k) d.
Proof.
  revert d. induction fuel as [|f IH]; intros d Hf; [pose proof (rtc_range d); lia|]. cbn [stable_date].
  assert (Hrec : ∀ d' n, elapsed n d d' → 0 < n ≤ 26 → quiet ≤ rtc_age d + 26 →
    wp (stable_date f) (λ t d', ∃ k, (rtc_ticks d ≤ k ≤ rtc_ticks d')%nat ∧ t = date_at k) d').
  { intros d' n He Hn Hq. eapply wp_mono.
    - apply IH. destruct Hf as [[Hf _]|Hf]; [lia|]. pose proof (rtc_range d).
      destruct He as [[_ ->]|(_ & Ha & _)]; [right; lia|left; unfold quiet in *; lia].
    - intros t d2 (k & Hk & ->). apply elapsed_ticks in He. exists k. split; [lia|done]. }
  wp_step. apply wp_fill. intros t1 d1 E1 T1. cbv beta.
  wp_step. apply wp_cmos_read; [by vm_compute|]. intros v d1' d2 E1' E2 _ _ Hu. cbv beta.
  pose proof (elapsed_trans 1 1 d1 d1' d2 ltac:(done) ltac:(done) ltac:(done) E1' E2) as E12.
  pose proof (elapsed_trans 12 1 d d1 d1' ltac:(done) ltac:(done) ltac:(done) E1 E1') as F1.
  pose proof (elapsed_trans 12 2 d d1 d2 ltac:(done) ltac:(done) ltac:(done) E1 E12) as F2.
  destruct (Z.land v CMOS_UIP =? 0) eqn:E; bool_props; cbn [negb].
  2:{ apply (Hrec d2 14); [done|lia|]. specialize (Hu eq_refl E). destruct F1 as [[_ Ha]|(_ & Ha & _)]; unfold quiet in *; lia. }
  wp_step. apply wp_fill. intros t2 d3 E3 T2. cbv beta.
  pose proof (elapsed_trans 14 12 d d2 d3 ltac:(done) ltac:(done) ltac:(done) F2 E3) as F3.
  pose proof (elapsed_ticks _ _ _ E1). pose proof (elapsed_ticks _ _ _ E12).
  pose proof (elapsed_ticks _ _ _ E3). pose proof (elapsed_ticks _ _ _ F3).
  destruct (decide (t1 = t2)) as [Heq|Hne].
  - wp_step. destruct (decide (rtc_ticks d1 = rtc_ticks d)) as [Hsame|Hd].
    + exists (rtc_ticks d). split; [lia|by apply T1].
    + exists (rtc_ticks d2). split; [lia|]. rewrite Heq. apply T2. lia.
  - apply (Hrec d3 26); [done|lia|]. destruct F3 as [[Hk _]|(_ & _ & Hq)]; [|lia].
    destruct Hne. rewrite T1, T2 by lia. f_equal. lia.
Qed.

End rtc_spec.

(** BCD: two decimal digits in the two halves of a byte. *)
Lemma CONV_bcd a b : 0 ≤ a < 10 → 0 ≤ b < 10 → CONV (16 * a + b) = 10 * a + b.
Proof.
  intros Ha Hb. unfold CONV. rewrite Z.shiftr_div_pow2 by lia. change (2 ^ 4) with 16.
  change 0xf with (2 ^ 4 - 1). rewrite land_ones_low by lia. change (2 ^ 4) with 16.
  Z.to_euclidean_division_equations. lia.
Qed.

(** A clock that is updated every hundred accesses and announces it at ninety. *)
Record demo_rtc := DemoRtc { dr_n : nat; dr_sel : Z }.
Definition demo_date (k : nat) (r : Z) : Z := u8 (Z.of_nat k + r).
Definition demo_age (d : demo_rtc) : Z := Z.of_nat (dr_n d) mod 100.
Definition demo_ticks (d : demo_rtc) : nat := Z.to_nat (Z.of_nat (dr_n d) / 100).
#[global] Instance demo_rtc_ports : PortIO demo_rtc := {
  dev_in8 _ d :=
    (if dr_sel d =? CMOS_STATA then (if 90 <=? demo_age d then CMOS_UIP else 0)
     else if dr_sel d =? CMOS_STATB then 4
     else demo_date (demo_ticks d) (dr_sel d), DemoRtc (S (dr_n d)) (dr_sel d));
  dev_out8 _ v d := DemoRtc (S (dr_n d)) v;
  dev_in32 _ d := (0, d);
  dev_out32 _ _ d := d
}.
Lemma demo_moves n s s' :
  moves (demo_ticks (DemoRtc n s)) (demo_ticks (DemoRtc (S n) s')) (demo_age (DemoRtc n s)) (demo_age (DemoRtc (S n) s')).
Proof.
  unfold moves, demo_ticks, demo_age, quiet. cbn [dr_n]. rewrite Nat2Z.inj_succ.
  pose proof (Z.div_mod (Z.of_nat n) 100 ltac:(lia)) as E. pose proof (Z.mod_pos_bound (Z.of_nat n) 100 ltac:(lia)) as B.
  pose proof (Z.div_pos (Z.of_nat n) 100 ltac:(lia) ltac:(lia)) as P.
  destruct (decide (Z.of_nat n mod 100 = 99)) as [H99|H99].
  - right. rewrite <- (Z.div_unique (Z.succ (Z.of_nat n)) 100 (Z.of_nat n / 100 + 1) 0) by lia.
    rewrite <- (Z.mod_unique (Z.succ (Z.of_nat n)) 100 (Z.of_nat n / 100 + 1) 0) by lia. lia.
  - left. rewrite <- (Z.div_unique (Z.succ (Z.of_nat n)) 100 (Z.of_nat n / 100) (Z.of_nat n mod 100 + 1)) by lia.
    rewrite <- (Z.mod_unique (Z.succ (Z.of_nat n)) 100 (Z.of_nat n / 100) (Z.of_nat n mod 100 + 1)) by lia. done.
Qed.
#[global] Program Instance demo_rtc_laws : Rtc demo_rtc 100 := {|
  rtc_time := demo_date;
  rtc_mode := 4;
  rtc_ticks := demo_ticks;
  rtc_age := demo_age;
  rtc_sel := dr_sel
|}.
Next Obligation. intros d. unfold demo_age. apply Z.mod_pos_bound. lia. Qed.
Next Obligation. intros. apply u8_range. Qed.
Next Obligation. intros v [n s]. split; [apply demo_moves|done]. Qed.
Next Obligation.
  intros [n s]. simpl. split; [apply demo_moves|]. split_and!.
  - intros Hin. rewrite !(proj2 (Z.eqb_neq s _)); [done|..]; intros ->;
      repeat (apply elem_of_cons in Hin as [Hin|Hin]; [discriminate Hin|]); by apply not_elem_of_nil in Hin.
  - intros ->. done.
  - intros ->. simpl. case_if; [|done]. unfold quiet. lia.
Qed.


(** Started just before an update, it returns the date after it. *)
Example cmostime_at_update : match cmostime 101 (DemoRtc 85 0) with Ok r _ => r = decode 1 | _ => False end.
Proof. vm_compute. reflexivity. Qed.
