(* ===== verification/Uart.v ===== *)
(** * The serial port (uart.c)

    [uart] says whether there is a port; the port is an 8250, a device with
    the bytes received and not yet read, the bytes sent, and a transmitter that
    takes some polls to be ready for the next one. *)

From S2P Require Import Prelude Words Params Locks Ports Apic Console ConsoleSpec Kbd.

Definition COM1 : Z := 0x3f8.

Record uartst (D : Type) := UartSt { uart : bool; u_dev : D }.
Arguments UartSt {D}.
Arguments uart {D}.
Arguments u_dev {D}.

Section uart.
Context {D : Type} `{PortIO D, MMIO D}.

Definition on_udev {A} (c : M D A) : M (uartst D) A := zoom u_dev (λ d s, UartSt (uart s) d) c.

(** [for(i = 0; i < 128 && !(inb(COM1+5) & 0x20); i++) microdelay(10)] *)
Fixpoint wait_ready (n : nat) : M D unit :=
  match n with
  | O => ret tt
  | S n' =>
      v ← inb (COM1 + 5);
      if negb (Z.land v 0x20 =? 0) then ret tt else Lapic.microdelay 10 ;; wait_ready n'
  end.

Definition uartputc (c : Z) : M (uartst D) unit :=
  u ← gets uart;
  if negb u then ret tt else
  on_udev (wait_ready 128) ;;
  on_udev (outb (COM1 + 0) c).

Definition hello : list Z := [120; 118; 54; 46; 46; 46; 10].   (* "xv6...\n" *)

Definition uartinit : M (uartst D) unit :=
  on_udev (outb (COM1 + 2) 0) ;;
  on_udev (outb (COM1 + 3) 0x80) ;;
  on_udev (outb (COM1 + 0) (115200 / 9600)) ;;
  on_udev (outb (COM1 + 1) 0) ;;
  on_udev (outb (COM1 + 3) 0x03) ;;
  on_udev (outb (COM1 + 4) 0) ;;
  on_udev (outb (COM1 + 1) 0x01) ;;
  v ← on_udev (inb (COM1 + 5));
  if v =? 0xFF then ret tt else
  modify (λ s, UartSt true (u_dev s)) ;;
  _ ← on_udev (inb (COM1 + 2));
  _ ← on_udev (inb (COM1 + 0));
  on_udev (ioapicenable IRQ_COM1 0) ;;
  foldr (λ c k, uartputc c ;; k) (ret tt) hello.

Definition uartgetc : M (uartst D) Z :=
  u ← gets uart;
  if negb u then ret (-1) else
  v ← on_udev (inb (COM1 + 5));
  if Z.land v 0x01 =? 0 then ret (-1) else
  on_udev (inb (COM1 + 0)).

(** What [consoleintr(uartgetc)] gets before it gets a negative number. *)
Fixpoint uart_keys (fuel : nat) : M (uartst D) (list Z) :=
  match fuel with
  | O => fault
  | S f => c ← uartgetc; if c <? 0 then ret [] else rest ← uart_keys f; ret (c :: rest)
  end.
End uart.

Record ucons (D : Type) := Ucons { uc_uart : uartst D; uc_cons : cons }.
Arguments Ucons {D}.
Arguments uc_uart {D}.
Arguments uc_cons {D}.

Section uartintr.
Context {D : Type} `{PortIO D}.
Definition on_ucons {A} (c : M cons A) : M (ucons D) A := zoom uc_cons (λ x s, Ucons (uc_uart s) x) c.
Definition uartintr (fuel : nat) : M (ucons D) bool :=
  keys ← zoom uc_uart (λ x s, Ucons x (uc_cons s)) (uart_keys fuel);
  on_ucons (consoleintr keys).
End uartintr.

(** ** The 8250, once set up *)

Class Uart8250 (D : Type) `{PortIO D} := {
  u_rx : D → list Z;        (* received, not read *)
  u_tx : D → list Z;        (* sent *)
  u_wait : D → nat;         (* polls until the transmitter is ready *)
  u_bytes d : Forall is_byte (u_rx d);
  u_soon d : (u_wait d < 128)%nat;
  (** line status: bit 0, a byte is there; bit 5, the transmitter is ready *)
  u_status d : let '(v, d') := dev_in8 (COM1 + 5) d in
    u_rx d' = u_rx d ∧ u_tx d' = u_tx d ∧ (Z.land (u8 v) 0x01 = 0 ↔ u_rx d = []) ∧
    (if Z.land (u8 v) 0x20 =? 0 then (u_wait d' < u_wait d)%nat else u_wait d' = 0%nat);
  u_take d : let '(v, d') := dev_in8 (COM1 + 0) d in
    match u_rx d with [] => True | b :: q => v = b ∧ u_rx d' = q ∧ u_tx d' = u_tx d end;
  (** a byte given to a ready transmitter is sent *)
  u_put c d : u_wait d = 0%nat →
    let d' := dev_out8 (COM1 + 0) c d in u_tx d' = u_tx d ++ [c] ∧ u_rx d' = u_rx d
}.

Section uart_spec.
Context {D : Type} `{!PortIO D, U : !Uart8250 D}.

Lemma wp_wait_ready n (Q : unit → D → Prop) d :
  (u_wait d < n)%nat →
  (∀ d', u_wait d' = 0%nat → u_tx d' = u_tx d → u_rx d' = u_rx d → Q tt d') → wp (wait_ready n) Q d.
Proof.
  revert d. induction n as [|n IH]; intros d Hn HQ; [lia|]. cbn [wait_ready]. wp_step. apply wp_inb.
  pose proof (u_status d) as Hs. destruct (dev_in8 (COM1 + 5) d) as [v d']. destruct Hs as (Hrx & Htx & _ & Hw).
  destruct (Z.land (u8 v) 0x20 =? 0); cbn [negb].
  - unfold Lapic.microdelay. wp_step. wp_step. apply IH; [lia|]. intros d2 H1 H2 H3. apply HQ; congruence.
  - wp_step. by apply HQ.
Qed.

(** Every character reaches the line, in order. *)
Lemma wp_uartputs l (s : uartst D) (Q : unit → uartst D → Prop) :
  uart s = true →
  (∀ s', uart s' = true → u_tx (u_dev s') = u_tx (u_dev s) ++ (u8 <$> l) →
    u_rx (u_dev s') = u_rx (u_dev s) → Q tt s') →
  wp (foldr (λ c k, uartputc c ;; k) (ret tt) l) Q s.
Proof.
  revert s. induction l as [|c l IH]; intros s Hu HQ; cbn [foldr].
  - wp_step. apply HQ; [done|by rewrite app_nil_r|done].
  - wp_step. unfold uartputc. wp_step. wp_step. rewrite Hu. cbn [negb]. cbn match.
    wp_step. apply wp_zoom, wp_wait_ready; [apply u_soon|]. intros d1 Hw Htx Hrx.
    apply wp_zoom, wp_outb. cbn [u_dev uart]. destruct (u_put (u8 c) d1 Hw) as [Htx2 Hrx2].
    apply IH; [done|]. cbn [u_dev]. intros s' Hu' Ht' Hr'. apply HQ; [done| |congruence].
    rewrite Ht', Htx2, Htx. cbn [fmap list_fmap]. by rewrite <- app_assoc.
Qed.

Lemma wp_uart_keys fuel (s : uartst D) (Q : list Z → uartst D → Prop) :
  uart s = true → (length (u_rx (u_dev s)) < fuel)%nat →
  (∀ s', uart s' = true → u_rx (u_dev s') = [] → u_tx (u_dev s') = u_tx (u_dev s) → Q (u_rx (u_dev s)) s') →
  wp (uart_keys fuel) Q s.
Proof.
  revert s Q. induction fuel as [|f IH]; intros s Q Hu Hf HQ; [lia|]. cbn [uart_keys]. wp_step.
  unfold uartgetc. wp_step. wp_step. rewrite Hu. cbn [negb]. cbn match. wp_step. apply wp_zoom, wp_inb.
  pose proof (u_status (u_dev s)) as Hs. destruct (dev_in8 (COM1 + 5) (u_dev s)) as [v d1].
  destruct Hs as (Hrx & Htx & H0 & _). destruct (u_rx (u_dev s)) as [|b q] eqn:Er.
  - rewrite (proj2 H0 eq_refl). change (0 =? 0) with true. cbn match. wp_step.
    change (-1 <? 0) with true. cbn match. wp_step. by apply HQ.
  - rewrite (proj2 (Z.eqb_neq _ _)) by (intros E; by apply H0 in E). apply wp_zoom, wp_inb. cbn [u_dev].
    pose proof (u_take d1) as Ht. destruct (dev_in8 (COM1 + 0) d1) as [v2 d2]. rewrite Hrx in Ht.
    destruct Ht as (-> & Hrx2 & Htx2). pose proof (u_bytes (u_dev s)) as Hb. rewrite Er in Hb.
    apply Forall_cons in Hb as [Hb _]. replace (u8 b) with b by (symmetry; by apply Z.mod_small).
    rewrite (proj2 (Z.ltb_ge _ _)) by apply Hb. wp_step. apply IH; [done|cbn [u_dev]; rewrite Hrx2; simpl in Hf; lia|].
    cbn [u_dev uart]. intros s' Hu' Hr' Ht'. wp_step. rewrite Hrx2. apply HQ; congruence.
Qed.

(** From the serial line to the reader: when a line of printable
    characters ended by carriage return has been received, one interrupt and a
    [consoleread] of a longer buffer return that line and a newline, and
    nothing is left in the port or in the console. *)
Theorem serial_line_read l n fuel (s : ucons D) :
  uart (uc_uart s) = true → u_rx (u_dev (uc_uart s)) = l ++ [13] → (length l + 1 < fuel)%nat →
  screen_ok (uc_cons s) → cn_lock (uc_cons s) = false → repr (cn_in (uc_cons s)) (Editor [] []) →
  Forall printable l → Z.of_nat (length l) < INPUT_BUF → (length l < n)%nat →
  wp (_ ← uartintr fuel; on_ucons (consoleread false (Z.of_nat n) (Z.of_nat n)))
    (λ r s', r = (CReturns (Z.of_nat (length l + 1)), l ++ [10]) ∧
       repr (cn_in (uc_cons s')) (Editor [] []) ∧ u_rx (u_dev (uc_uart s')) = []) s.
Proof.
  intros Hu Hq Hf Hsc El Hr Hp Hl Hn. wp_step. unfold uartintr. wp_step. apply wp_zoom.
  apply wp_uart_keys; [done|rewrite Hq, length_app; simpl; lia|]. intros u' Hu' Hq' _. rewrite Hq.
  apply wp_zoom. cbn [uc_cons].
  eapply (wp_consoleintr (l ++ [13]) (Editor [] [])); try done; [by constructor| |].
  { pose proof (u_bytes (u_dev (uc_uart s))) as Hb. by rewrite Hq in Hb. }
  cbv zeta. rewrite type_line by done. intros c' _ El' Hr' _ _. apply wp_zoom. cbn [uc_cons].
  eapply wp_mono; [by apply wp_consoleread|]. intros [r bytes] c2 (rest & E & Hl2 & Hr2 & _). simpl in E.
  rewrite read_line in E by done. injection E as <- <- <-. split; [do 2 f_equal; lia|]. done.
Qed.
End uart_spec.

(** A port that is ready again after one poll. *)
Record demo_uart := DemoUart { du_rx : list Z; du_tx : list Z; du_busy : bool }.
#[global] Instance demo_uart_io : PortIO demo_uart := {
  dev_in8 p d :=
    if p =? COM1 + 5 then
      (Z.lor (match du_rx d with [] => 0 | _ => 1 end) (if du_busy d then 0 else 0x20),
       DemoUart (du_rx d) (du_tx d) false)
    else match du_rx d with
         | [] => (0, d)
         | b :: q => (u8 b, DemoUart q (du_tx d) (du_busy d))
         end;
  dev_out8 _ v d := DemoUart (du_rx d) (du_tx d ++ [v]) true;
  dev_in32 _ d := (0, d);
  dev_out32 _ _ d := d
}.
#[global] Program Instance demo_uart_laws : Uart8250 demo_uart := {|
  u_rx d := u8 <$> du_rx d;
  u_tx := du_tx;
  u_wait d := if du_busy d then 1%nat else 0%nat
|}.
Next Obligation. intros d. apply Forall_fmap, Forall_true. intros x. apply u8_range. Qed.
Next Obligation. intros d. simpl. destruct (du_busy d); lia. Qed.
Next Obligation.
  intros [rx tx b]. simpl. split; [done|]. split; [done|]. destruct rx, b; (split; [by split|]); simpl; (lia || done).
Qed.
Next Obligation. intros [rx tx b]. simpl. by destruct rx. Qed.
Next Obligation. done. Qed.

Definition demo_ucons : ucons demo_uart := Ucons (UartSt true (DemoUart [104; 105; 13] [] false)) demo_cons.
Example serial_line_read_demo :
  wp (_ ← uartintr 4; on_ucons (consoleread false (Z.of_nat 100) (Z.of_nat 100)))
    (λ r s', r = (CReturns (Z.of_nat (length [104; 105] + 1)), [104; 105] ++ [10]) ∧
       repr (cn_in (uc_cons s')) (Editor [] []) ∧ u_rx (u_dev (uc_uart s')) = []) demo_ucons.
Proof.
  apply (serial_line_read (D := demo_uart) [104; 105] 100 4 demo_ucons).
  - reflexivity.
  - reflexivity.
  - apply Nat.ltb_lt. reflexivity.
  - exact demo_cons_screen.
  - reflexivity.
  - exact demo_cons_repr.
  - repeat constructor; vm_compute; discriminate.
  - reflexivity.
  - apply Nat.ltb_lt. reflexivity.
Qed.
