(* ===== verification/Segs.v ===== *)
(** * Segment and gate descriptors (mmu.h, vm.c: seginit; trap.c: tvinit)

    The tables the processor consults before it lets a user program enter the
    kernel: descriptors are C bit fields, packed into 64 bits, and the
    processor takes them apart again.  [bits] and the functions of the second
    part are the processor's reading of a descriptor. *)

From S2P Require Import Prelude Words Params Spinlock.

Definition SEG_KCODE : Z := 1.
Definition SEG_KDATA : Z := 2.
Definition SEG_TSS : Z := 5.
Definition NSEGS : Z := 6.
Definition STA_X : Z := 0x8.
Definition STA_W : Z := 0x2.
Definition STA_R : Z := 0x2.
Definition STS_T32A : Z := 0x9.
Definition STS_IG32 : Z := 0xE.
Definition STS_TG32 : Z := 0xF.

(** Bit fields, first field in the low bits. *)
Fixpoint pack (fields : list (Z * Z)) : Z :=
  match fields with
  | [] => 0
  | (w, v) :: rest => v mod 2 ^ w + 2 ^ w * pack rest
  end.

Record segdesc := Segdesc {
  lim_15_0 : Z; base_15_0 : Z; base_23_16 : Z; sd_type : Z; sd_s : Z; sd_dpl : Z; sd_p : Z;
  lim_19_16 : Z; avl : Z; sd_rsv1 : Z; db : Z; g : Z; base_31_24 : Z
}.
Definition seg_word (d : segdesc) : Z :=
  pack [(16, lim_15_0 d); (16, base_15_0 d); (8, base_23_16 d); (4, sd_type d); (1, sd_s d); (2, sd_dpl d);
        (1, sd_p d); (4, lim_19_16 d); (1, avl d); (1, sd_rsv1 d); (1, db d); (1, g d); (8, base_31_24 d)].

Definition SEG (type base lim dpl : Z) : segdesc :=
  Segdesc (Z.land (Z.shiftr lim 12) 0xffff) (Z.land base 0xffff) (Z.land (Z.shiftr base 16) 0xff) type 1 dpl 1
    (Z.shiftr lim 28) 0 0 1 1 (Z.shiftr base 24).
Definition SEG16 (type base lim dpl : Z) : segdesc :=
  Segdesc (Z.land lim 0xffff) (Z.land base 0xffff) (Z.land (Z.shiftr base 16) 0xff) type 1 dpl 1
    (Z.shiftr lim 16) 0 0 1 0 (Z.shiftr base 24).

Record gatedesc := Gatedesc {
  off_15_0 : Z; gd_cs : Z; gd_args : Z; gd_rsv1 : Z; gd_type : Z; gd_s : Z; gd_dpl : Z; gd_p : Z; off_31_16 : Z
}.
Definition gate_word (d : gatedesc) : Z :=
  pack [(16, off_15_0 d); (16, gd_cs d); (5, gd_args d); (3, gd_rsv1 d); (4, gd_type d); (1, gd_s d);
        (2, gd_dpl d); (1, gd_p d); (16, off_31_16 d)].
Definition SETGATE (istrap : bool) (sel off d : Z) : gatedesc :=
  Gatedesc (Z.land off 0xffff) sel 0 0 (if istrap then STS_TG32 else STS_IG32) 0 d 1 (Z.shiftr off 16).

(** ** vm.c and trap.c *)

(** A processor's table and the register that points to it. *)
Record gdtst := Gdtst { gdt : list Z; gdtr : option (Z * Z) }.

Definition set_seg (i : Z) (d : segdesc) : M gdtst unit :=
  modify (λ s, Gdtst (<[Z.to_nat i := seg_word d]> (gdt s)) (gdtr s)).

(** The pseudo-descriptor of [lgdt] and [lidt]: three 16-bit words, from which
    the processor takes the limit and the base. *)
Definition pseudo_desc (p size : Z) : list Z := [u16 (size - 1); u16 p; u16 (Z.shiftr p 16)].
Definition load_desc (pd : list Z) : Z * Z := (pd !!! 0%nat, pd !!! 1%nat + 2 ^ 16 * pd !!! 2%nat).
Definition lgdt (p size : Z) : M gdtst unit :=
  modify (λ s, Gdtst (gdt s) (Some (load_desc (pseudo_desc p size)))).

(** [addr] is the address of [c->gdt]. *)
Definition seginit (addr : Z) : M gdtst unit :=
  set_seg SEG_KCODE (SEG (Z.lor STA_X STA_R) 0 0xffffffff 0) ;;
  set_seg SEG_KDATA (SEG STA_W 0 0xffffffff 0) ;;
  set_seg SEG_UCODE (SEG (Z.lor STA_X STA_R) 0 0xffffffff DPL_USER) ;;
  set_seg SEG_UDATA (SEG STA_W 0 0xffffffff DPL_USER) ;;
  lgdt addr (8 * NSEGS).

(** The task state part of [switchuvm]: the descriptor of the task state at
    [ts], and the offset of its I/O map. *)
Definition sizeof_taskstate : Z := 104.
Definition tss_iomb : Z := 0xFFFF.
Definition set_tss (ts : Z) : M gdtst unit :=
  let d := SEG16 STS_T32A ts (sizeof_taskstate - 1) 0 in
  set_seg SEG_TSS (Segdesc (lim_15_0 d) (base_15_0 d) (base_23_16 d) (sd_type d) 0 (sd_dpl d) (sd_p d)
    (lim_19_16 d) (avl d) (sd_rsv1 d) (db d) (g d) (base_31_24 d)).

Record idtst := Idtst { idt : list Z; tickslock : spinlock; idtr : option (Z * Z) }.
Definition set_gate (i : Z) (d : gatedesc) : M idtst unit :=
  modify (λ s, Idtst (<[Z.to_nat i := gate_word d]> (idt s)) (tickslock s) (idtr s)).

Section tvinit.
Variable vectors : Z → Z.   (* vectors.S: the entry points *)
Definition tvinit : M idtst unit :=
  for_loop 256 0 (λ i, set_gate i (SETGATE false (Z.shiftl SEG_KCODE 3) (vectors i) 0)) ;;
  set_gate T_SYSCALL (SETGATE true (Z.shiftl SEG_KCODE 3) (vectors T_SYSCALL) DPL_USER) ;;
  modify (λ s, Idtst (idt s) (Spinlock 0 "time" None (lk_pcs (tickslock s))) (idtr s)).
End tvinit.
Definition idtinit (addr : Z) : M idtst unit :=
  modify (λ s, Idtst (idt s) (tickslock s) (Some (load_desc (pseudo_desc addr (8 * 256))))).

(** ** How the processor reads a descriptor *)

Definition bits (off w x : Z) : Z := (x / 2 ^ off) mod 2 ^ w.
Definition seg_base (x : Z) : Z := bits 16 16 x + 2 ^ 16 * bits 32 8 x + 2 ^ 24 * bits 56 8 x.
Definition seg_limit (x : Z) : Z :=
  let lim := bits 0 16 x + 2 ^ 16 * bits 48 4 x in
  if bits 55 1 x =? 1 then lim * 4096 + 4095 else lim.
Definition desc_type (x : Z) : Z := bits 40 4 x.
Definition desc_s (x : Z) : Z := bits 44 1 x.
Definition desc_dpl (x : Z) : Z := bits 45 2 x.
Definition desc_p (x : Z) : Z := bits 47 1 x.
Definition gate_sel (x : Z) : Z := bits 16 16 x.
Definition gate_offset (x : Z) : Z := bits 0 16 x + 2 ^ 16 * bits 48 16 x.

(** A program at privilege level [cpl] may execute [int] through gate [x]. *)
Definition int_allowed (cpl x : Z) : bool := (desc_p x =? 1) && (cpl <=? desc_dpl x).
(** It may load an application segment. *)
Definition seg_allowed (cpl x : Z) : bool := (desc_p x =? 1) && (desc_s x =? 1) && (cpl <=? desc_dpl x).
(** It may use I/O port [p]: the bit of the map must lie within the segment. *)
Definition port_in_map (tss iomb p : Z) : bool := iomb + p / 8 + 1 <=? seg_limit tss.

(** ** Packing and reading *)

Lemma bits_here w v rest : 0 ≤ w → bits 0 w (pack ((w, v) :: rest)) = v mod 2 ^ w.
Proof.
  intros Hw. unfold bits. cbn [pack]. rewrite Z.pow_0_r, Z.div_1_r, Z.mul_comm, Z.mod_add by lia.
  by apply Z.mod_mod, Z.pow_nonzero.
Qed.
Lemma bits_skip w0 v rest off w :
  0 ≤ w0 ≤ off → bits off w (pack ((w0, v) :: rest)) = bits (off - w0) w (pack rest).
Proof.
  intros Hw. unfold bits. cbn [pack]. f_equal. replace off with (w0 + (off - w0)) at 1 by lia.
  assert (0 < 2 ^ w0) by (apply Z.pow_pos_nonneg; lia).
  assert (0 < 2 ^ (off - w0)) by (apply Z.pow_pos_nonneg; lia).
  rewrite Z.pow_add_r, <- Z.div_div by lia. f_equal.
  rewrite Z.mul_comm, Z.div_add by lia. rewrite Z.div_small by (by apply Z.mod_pos_bound). done.
Qed.

Ltac read_bits :=
  repeat (first [rewrite bits_here by lia | rewrite bits_skip by lia];
    repeat match goal with
    | |- context [bits (?a - ?b) ?w ?x] => let c := eval vm_compute in (a - b) in change (a - b) with c
    end).

(** The processor sees in a gate what [SETGATE] was given. *)
Lemma gate_read istrap sel off d :
  0 ≤ sel < 2 ^ 16 → is_u32 off → 0 ≤ d < 4 →
  let x := gate_word (SETGATE istrap sel off d) in
  gate_sel x = sel ∧ gate_offset x = off ∧ desc_dpl x = d ∧ desc_p x = 1 ∧ desc_s x = 0 ∧
  desc_type x = if istrap then STS_TG32 else STS_IG32.
Proof.
  intros Hs Ho Hd. cbv zeta. unfold gate_word, gate_sel, gate_offset, desc_dpl, desc_p, desc_s, desc_type, SETGATE.
  cbn [off_15_0 gd_cs gd_args gd_rsv1 gd_type gd_s gd_dpl gd_p off_31_16]. split_and!; read_bits.
  - by apply Z.mod_small.
  - change 0xffff with (2 ^ 16 - 1). rewrite land_ones_low, Z.mod_mod by lia.
    rewrite Z.shiftr_div_pow2 by lia. unfold is_u32 in Ho.
    rewrite (Z.mod_small (off / 2 ^ 16)) by (Z.to_euclidean_division_equations; lia).
    rewrite (Z.div_mod off (2 ^ 16)) at 3 by lia. lia.
  - by apply Z.mod_small.
  - done.
  - done.
  - by destruct istrap.
Qed.

Lemma wp_set_gate i d (Q : unit → idtst → Prop) s :
  Q tt (Idtst (<[Z.to_nat i := gate_word d]> (idt s)) (tickslock s) (idtr s)) → wp (set_gate i d) Q s.
Proof. done. Qed.

(** C32: after [tvinit], whatever the entry points are, a user program can
    enter the kernel with an [int] instruction through exactly one of the 256
    gates, the one for system calls; every gate leads to its own entry point in
    the kernel's code segment, and every one but that of system calls turns
    interrupts off. *)
Theorem idt_protection vectors s :
  length (idt s) = 256%nat → (∀ i, is_u32 (vectors i)) →
  wp (tvinit vectors) (λ _ s', ∀ n, 0 ≤ n < 256 →
    let x := idt s' !!! Z.to_nat n in
    int_allowed 3 x = (n =? T_SYSCALL) ∧ gate_sel x = 8 * SEG_KCODE ∧ gate_offset x = vectors n ∧
    desc_p x = 1 ∧ desc_s x = 0 ∧ desc_type x = if n =? T_SYSCALL then STS_TG32 else STS_IG32) s.
Proof.
  intros Hl Hv. unfold tvinit. wp_step. eapply wp_mono.
  - apply (wp_for_loop (λ k s', length (idt s') = 256%nat ∧ ∀ n, 0 ≤ n < k →
      idt s' !!! Z.to_nat n = gate_word (SETGATE false (Z.shiftl SEG_KCODE 3) (vectors n) 0))).
    + split; [done|]. intros; lia.
    + intros k s' Hk [Hl' Hs']. apply wp_set_gate. cbn [idt]. split; [by rewrite length_insert|].
      intros n Hn. destruct (decide (n = k)) as [->|Hne].
      * apply list_lookup_total_insert_eq. lia.
      * rewrite list_lookup_total_insert_ne by lia. apply Hs'. lia.
  - intros [] s' [Hl' Hs']. wp_step. apply wp_set_gate. wp_step. cbn [idt]. intros n Hn. cbv zeta.
    unfold int_allowed. destruct (n =? T_SYSCALL) eqn:E; bool_props.
    + subst n. rewrite list_lookup_total_insert_eq by (rewrite Hl'; by vm_compute; lia).
      destruct (gate_read true (Z.shiftl SEG_KCODE 3) (vectors T_SYSCALL) DPL_USER) as (-> & -> & -> & -> & -> & ->); done.
    + rewrite list_lookup_total_insert_ne by (unfold T_SYSCALL in *; lia). rewrite Hs' by lia.
      destruct (gate_read false (Z.shiftl SEG_KCODE 3) (vectors n) 0) as (-> & -> & -> & -> & -> & ->); done.
Qed.

Lemma idt_protection_witness :
  wp (tvinit (λ i, 0x80100000 + u8 i)) (λ _ s', int_allowed 3 (idt s' !!! 64%nat) = true ∧
    int_allowed 3 (idt s' !!! 13%nat) = false) (Idtst (replicate 256 0) (Spinlock 1 "" None []) None).
Proof.
  eapply wp_mono.
  - apply (idt_protection (λ i, 0x80100000 + u8 i) (Idtst (replicate 256 0) (Spinlock 1 "" None []) None)); [done|].
    intros i. pose proof (u8_range i) as [? ?]. unfold is_u32. lia.
  - intros [] s' H. split; [by apply (H 64)|by apply (H 13)].
Defined.

(** *** Segments *)

(** After [seginit] a user program can load the two user segments and no other
    one; the four segments cover the whole address space, and the register
    points to the table. *)
Lemma wp_seginit addr s :
  is_u32 addr → length (gdt s) = Z.to_nat NSEGS → (∀ i, i ∈ [0; SEG_TSS] → desc_s (gdt s !!! Z.to_nat i) = 0) →
  wp (seginit addr) (λ _ s', gdtr s' = Some (8 * NSEGS - 1, addr) ∧ ∀ i, 0 ≤ i < NSEGS →
    let x := gdt s' !!! Z.to_nat i in
    seg_allowed 3 x = (i =? SEG_UCODE) || (i =? SEG_UDATA) ∧
    (1 ≤ i ≤ 4 → seg_base x = 0 ∧ seg_limit x = 0xffffffff)) s.
Proof.
  intros Ha Hl Hs. unfold seginit, set_seg, lgdt. wp_steps. cbn [gdt gdtr]. split.
  - unfold load_desc, pseudo_desc. simpl. do 2 f_equal. unfold u16, is_u32 in *.
    rewrite Z.shiftr_div_pow2 by lia. Z.to_euclidean_division_equations. lia.
  - change (Z.to_nat NSEGS) with 6%nat in Hl. destruct (gdt s) as [|g0 [|g1 [|g2 [|g3 [|g4 [|g5 [|]]]]]]]; try done.
    pose proof (Hs 0 ltac:(set_solver)) as H0. pose proof (Hs SEG_TSS ltac:(set_solver)) as H5. simpl in H0, H5.
    intros i Hi. change NSEGS with 6 in Hi. unfold seg_allowed.
    assert (Hc : i = 0 ∨ i = 1 ∨ i = 2 ∨ i = 3 ∨ i = 4 ∨ i = 5) by lia.
    destruct Hc as [->|[->|[->|[->|[->| ->]]]]]; cbv zeta.
    2,3,4,5: split; [by vm_compute|]; intros _; split; by vm_compute.
    all: split; [|intros; lia].
    + match goal with |- context [?l !!! Z.to_nat 0] => change (l !!! Z.to_nat 0) with g0 end.
      rewrite H0. by destruct (_ =? 1).
    + match goal with |- context [?l !!! Z.to_nat 5] => change (l !!! Z.to_nat 5) with g5 end.
      rewrite H5. by destruct (_ =? 1).
Qed.

(** The task state segment ends before its I/O map starts: with an I/O
    privilege level of zero no port can be used from user mode. *)
Lemma no_user_io ts p s :
  length (gdt s) = Z.to_nat NSEGS → 0 ≤ p < 2 ^ 16 →
  wp (set_tss ts) (λ _ s', port_in_map (gdt s' !!! Z.to_nat SEG_TSS) tss_iomb p = false) s.
Proof.
  intros Hl Hp. unfold set_tss, set_seg. wp_step. cbn [gdt].
  rewrite list_lookup_total_insert_eq by (rewrite Hl; vm_compute; lia).
  unfold port_in_map. apply Z.leb_gt.
  assert (Hlim : seg_limit (seg_word (Segdesc (Z.land 103 0xffff) (Z.land ts 0xffff) (Z.land (Z.shiftr ts 16) 0xff)
    STS_T32A 0 0 1 (Z.shiftr 103 16) 0 0 1 0 (Z.shiftr ts 24))) = 103).
  { unfold seg_limit, seg_word. cbn [lim_15_0 base_15_0 base_23_16 sd_type sd_s sd_dpl sd_p lim_19_16 avl sd_rsv1 db g base_31_24].
    read_bits. done. }
  unfold SEG16. cbn [lim_15_0 base_15_0 base_23_16 sd_type sd_s sd_dpl sd_p lim_19_16 avl sd_rsv1 db g base_31_24].
  change (sizeof_taskstate - 1) with 103. rewrite Hlim. unfold tss_iomb. assert (0 ≤ p / 8) by (apply Z.div_pos; lia). lia.
Qed.
