(* ===== verification/X86.v ===== *)
(** * The processor, as far as the assembly files use it

    Registers, the stack, segments, gates and the instructions of swtch.S,
    trapasm.S, usys.S, initcode.S, entry.S, entryother.S, bootasm.S and the entry
    points vectors.pl generates.  Memory is words at addresses that are multiples of four; any
    other access faults.  What the manual leaves open is a parameter: the
    upper half of the word in which a selector is pushed, and the arithmetic flags
    after an addition.  The second half has the rules for the instructions and
    the tactics that execute a block. *)

From S2P Require Import Prelude Words Params Segs.

Inductive reg := EAX | ECX | EDX | EBX | ESP | EBP | ESI | EDI.
Inductive sreg := CS | DS | ES | FS | GS | SS.
Inductive creg := CR0 | CR3 | CR4.
Scheme Equality for reg.
Scheme Equality for sreg.
Scheme Equality for creg.

Record machine := Machine {
  m_reg : reg → Z;
  m_seg : sreg → Z;
  m_cr : creg → Z;
  m_eip : Z;
  m_eflags : Z;
  m_mem : Z → Z;
  m_idt : Z → Z;               (* the gates, by vector *)
  m_gdt : Z → Z;               (* the segment descriptors, by index *)
  m_tss : Z * Z                (* ss0 and esp0 of the task state segment *)
}.

Definition set_reg (r : reg) (v : Z) (s : machine) : machine :=
  Machine (λ r', if reg_beq r' r then v else m_reg s r') (m_seg s) (m_cr s) (m_eip s) (m_eflags s) (m_mem s) (m_idt s) (m_gdt s) (m_tss s).
Definition set_sreg (r : sreg) (v : Z) (s : machine) : machine :=
  Machine (m_reg s) (λ r', if sreg_beq r' r then v else m_seg s r') (m_cr s) (m_eip s) (m_eflags s) (m_mem s) (m_idt s) (m_gdt s) (m_tss s).
Definition set_creg (r : creg) (v : Z) (s : machine) : machine :=
  Machine (m_reg s) (m_seg s) (λ r', if creg_beq r' r then v else m_cr s r') (m_eip s) (m_eflags s) (m_mem s) (m_idt s) (m_gdt s) (m_tss s).
Definition set_eip (v : Z) (s : machine) : machine :=
  Machine (m_reg s) (m_seg s) (m_cr s) v (m_eflags s) (m_mem s) (m_idt s) (m_gdt s) (m_tss s).
Definition set_eflags (v : Z) (s : machine) : machine :=
  Machine (m_reg s) (m_seg s) (m_cr s) (m_eip s) v (m_mem s) (m_idt s) (m_gdt s) (m_tss s).
Definition put (m : Z → Z) (a v : Z) : Z → Z := λ b, if b =? a then v else m b.
Definition set_mem (a v : Z) (s : machine) : machine :=
  Machine (m_reg s) (m_seg s) (m_cr s) (m_eip s) (m_eflags s) (put (m_mem s) a v) (m_idt s) (m_gdt s) (m_tss s).

Definition set_gdt (t : Z → Z) (s : machine) : machine :=
  Machine (m_reg s) (m_seg s) (m_cr s) (m_eip s) (m_eflags s) (m_mem s) (m_idt s) t (m_tss s).

(** ** Memory and the stack *)

Definition mload (a : Z) : M machine Z :=
  if a mod 4 =? 0 then gets (λ s, m_mem s a) else fault.
Definition mstore (a v : Z) : M machine unit :=
  if a mod 4 =? 0 then modify (set_mem a v) else fault.
Definition get (r : reg) : M machine Z := gets (λ s, m_reg s r).
Definition push (v : Z) : M machine unit :=
  sp ← get ESP;
  mstore (u32 (sp - 4)) v ;;
  modify (set_reg ESP (u32 (sp - 4))).
Definition pop : M machine Z :=
  sp ← get ESP;
  v ← mload sp;
  modify (set_reg ESP (u32 (sp + 4))) ;;
  ret v.

(** ** Instructions, in the order of operands of the sources *)

Inductive instr :=
| Movl_imm (v : Z) (r : reg)              (* movl $v, %r *)
| Movl (r r' : reg)                       (* movl %r, %r' *)
| Movl_load (d : Z) (b r : reg)           (* movl d(%b), %r *)
| Movl_abs (a : Z) (r : reg)              (* movl (a), %r *)
| Movl_store (r b : reg)                  (* movl %r, (%b) *)
| Movw_imm (v : Z)                        (* movw $v, %ax *)
| Movw_seg (r : sreg)                     (* movw %ax, %r *)
| Movl_from_cr (r : creg)                 (* movl %cr, %eax *)
| Movl_to_cr (r : creg)                   (* movl %eax, %cr *)
| Orl_eax (v : Z)                         (* orl $v, %eax *)
| Pushl (r : reg) | Pushl_imm (v : Z) | Pushl_seg (r : sreg)
| Popl (r : reg) | Popl_seg (r : sreg)
| Pushal | Popal
| Addl_esp (v : Z)                        (* addl $v, %esp *)
| Jmp (a : Z) | Jmp_eax | Ret | Iret
| Cli
| Xorw_ax                                 (* xorw %ax, %ax *)
| Lgdt (table : Z → Z)
| Ljmp (sel a : Z)                        (* ljmp $sel, $a *)
| Call (a next : Z)                       (* call a, with the address behind it *)
| Call_abs (p next : Z).                  (* call *(p) *)

Section exec.
(** The upper half of the word when a selector is pushed over an old word, and
    the flags after arithmetic. *)
Context (upper : Z → Z) (alu_flags : Z → Z).

(** The arithmetic flags CF, PF, AF, ZF, SF and OF. *)
Definition ARITH : Z := 0x8D5.
Definition set_arith : M machine unit :=
  modify (λ s, set_eflags (Z.lor (Z.ldiff (m_eflags s) ARITH) (Z.land (alu_flags (m_eflags s)) ARITH)) s).

Definition selector_word (old sel : Z) : Z := sel + 2 ^ 16 * u16 (upper old).
Definition push_seg (r : sreg) : M machine unit :=
  sp ← get ESP;
  old ← mload (u32 (sp - 4));
  sel ← gets (λ s, m_seg s r);
  push (selector_word old sel).

(** [iret] to an outer level makes the data segments of the inner one null. *)
Definition null_inner (s : machine) (cpl : Z) (r : sreg) : Z :=
  let sel := m_seg s r in
  if (sel / 8 =? 0) || (cpl <=? desc_dpl (m_gdt s (sel / 8))) then sel else 0.
Definition cpl (s : machine) : Z := m_seg s CS mod 4.

Definition iret : M machine unit :=
  eip ← pop;
  cs ← pop;
  fl ← pop;
  old ← gets cpl;
  (if old <? u16 cs mod 4 then
     sp ← pop;
     ss ← pop;
     modify (set_reg ESP sp) ;;
     modify (set_sreg SS (u16 ss)) ;;
     s ← getS;
     modify (set_sreg DS (null_inner s (u16 cs mod 4) DS)) ;;
     modify (set_sreg ES (null_inner s (u16 cs mod 4) ES)) ;;
     modify (set_sreg FS (null_inner s (u16 cs mod 4) FS)) ;;
     modify (set_sreg GS (null_inner s (u16 cs mod 4) GS))
   else ret tt) ;;
  modify (set_sreg CS (u16 cs)) ;;
  modify (set_eflags fl) ;;
  modify (set_eip eip).

Definition exec1 (i : instr) : M machine unit :=
  match i with
  | Movl_imm v r => modify (set_reg r v)
  | Movl r r' => v ← get r; modify (set_reg r' v)
  | Movl_load d b r => a ← get b; v ← mload (u32 (a + d)); modify (set_reg r v)
  | Movl_abs a r => v ← mload a; modify (set_reg r v)
  | Movl_store r b => v ← get r; a ← get b; mstore a v
  | Movw_imm v => a ← get EAX; modify (set_reg EAX (a - u16 a + u16 v))
  | Movw_seg r => a ← get EAX; modify (set_sreg r (u16 a))
  | Movl_from_cr r => v ← gets (λ s, m_cr s r); modify (set_reg EAX v)
  | Movl_to_cr r => v ← get EAX; modify (set_creg r v)
  | Orl_eax v => a ← get EAX; modify (set_reg EAX (Z.lor a v)) ;; set_arith
  | Pushl r => v ← get r; push v
  | Pushl_imm v => push v
  | Pushl_seg r => push_seg r
  | Popl r => v ← pop; modify (set_reg r v)
  | Popl_seg r => v ← pop; modify (set_sreg r (u16 v))
  | Pushal =>
      sp ← get ESP;
      v ← get EAX; push v ;; v ← get ECX; push v ;; v ← get EDX; push v ;; v ← get EBX; push v ;;
      push sp ;;
      v ← get EBP; push v ;; v ← get ESI; push v ;; v ← get EDI; push v
  | Popal =>
      v ← pop; modify (set_reg EDI v) ;; v ← pop; modify (set_reg ESI v) ;; v ← pop; modify (set_reg EBP v) ;;
      _ ← pop;
      v ← pop; modify (set_reg EBX v) ;; v ← pop; modify (set_reg EDX v) ;; v ← pop; modify (set_reg ECX v) ;;
      v ← pop; modify (set_reg EAX v)
  | Addl_esp v =>
      sp ← get ESP;
      modify (set_reg ESP (u32 (sp + v))) ;;
      set_arith
  | Jmp a => modify (set_eip a)
  | Jmp_eax => a ← get EAX; modify (set_eip a)
  | Ret => a ← pop; modify (set_eip a)
  | Iret => iret
  | Cli => modify (λ s, set_eflags (Z.ldiff (m_eflags s) FL_IF) s)
  | Xorw_ax => a ← get EAX; modify (set_reg EAX (a - u16 a)) ;; set_arith
  | Lgdt table => modify (set_gdt table)
  | Ljmp sel a => modify (set_sreg CS sel) ;; modify (set_eip a)
  | Call a next => push next ;; modify (set_eip a)
  | Call_abs p next => a ← mload p; push next ;; modify (set_eip a)
  end.

(** Instructions that follow each other.  Only the last of a block changes
    [m_eip], to where execution goes on. *)
Fixpoint block (l : list instr) : M machine unit :=
  match l with
  | [] => ret tt
  | i :: l' => exec1 i ;; block l'
  end.

(** The exceptions for which the processor pushes an error code: double fault,
    invalid task state, segment not present, stack fault, general protection,
    page fault and alignment check. *)
Definition error_code_vectors : list Z := [8; 10; 11; 12; 13; 14; 17].
Definition pushes_err (n : Z) : bool := bool_decide (n ∈ error_code_vectors).

(** An interrupt, exception or [int] through the gate of vector [n].  From user
    mode the stack is that of the task state segment.  [eip] is where execution
    will go on; some exceptions push an error code. *)
Definition push_sel_over (sel : Z) : M machine unit :=
  sp ← get ESP;
  old ← mload (u32 (sp - 4));
  push (selector_word old sel).
Definition deliver (n : Z) (err : option Z) : M machine unit :=
  s ← getS;
  let x := m_idt s n in
  (if 0 <? cpl s then
     modify (set_sreg SS (m_tss s).1) ;;
     modify (set_reg ESP (m_tss s).2) ;;
     push_sel_over (m_seg s SS) ;;
     push (m_reg s ESP)
   else ret tt) ;;
  push (m_eflags s) ;;
  push_sel_over (m_seg s CS) ;;
  push (m_eip s) ;;
  (match err with Some e => push e | None => ret tt end) ;;
  modify (set_sreg CS (gate_sel x)) ;;
  modify (set_eip (gate_offset x)) ;;
  if desc_type x =? STS_IG32 then modify (λ s, set_eflags (Z.ldiff (m_eflags s) FL_IF) s) else ret tt.
End exec.

(** ** Rules for the instructions (X86) *)

Lemma put_eq m a v b : b = a → put m a v b = v.
Proof. intros ->. unfold put. by rewrite Z.eqb_refl. Qed.
Lemma put_ne m a v b : b ≠ a → put m a v b = m b.
Proof. intros Hb. unfold put. by rewrite (proj2 (Z.eqb_neq _ _)). Qed.

(** A stack pointer with [n] words below it and [k] above. *)
Definition sp_ok (n k : Z) (sp : Z) : Prop := sp mod 4 = 0 ∧ 4 * n ≤ sp ∧ sp + 4 * k < 2 ^ 32.

Ltac sp_solve := unfold sp_ok in *; Z.to_euclidean_division_equations; lia.

Lemma aligned_plus a d : a mod 4 = 0 → d mod 4 = 0 → ((a + d) mod 4 =? 0) = true.
Proof. intros. apply Z.eqb_eq. Z.to_euclidean_division_equations. lia. Qed.

Lemma wp_mload a (Q : Z → machine → Prop) s : a mod 4 = 0 → Q (m_mem s a) s → wp (mload a) Q s.
Proof. intros Ha HQ. unfold mload. rewrite Ha. by wp_step. Qed.
Lemma wp_mstore a v (Q : unit → machine → Prop) s : a mod 4 = 0 → Q tt (set_mem a v s) → wp (mstore a v) Q s.
Proof. intros Ha HQ. unfold mstore. rewrite Ha. by wp_step. Qed.

Lemma wp_push v (Q : unit → machine → Prop) s : sp_ok 1 0 (m_reg s ESP) →
  Q tt (set_reg ESP (m_reg s ESP - 4) (set_mem (m_reg s ESP - 4) v s)) → wp (push v) Q s.
Proof.
  intros Hsp HQ. unfold push, get. wp_step. wp_step. rewrite u32_id by (unfold is_u32; sp_solve).
  wp_step. apply wp_mstore; [sp_solve|]. by wp_step.
Qed.
Lemma wp_pop (Q : Z → machine → Prop) s : sp_ok 0 1 (m_reg s ESP) →
  Q (m_mem s (m_reg s ESP)) (set_reg ESP (m_reg s ESP + 4) s) → wp pop Q s.
Proof.
  intros Hsp HQ. unfold pop, get. wp_step. wp_step. wp_step. apply wp_mload; [sp_solve|].
  rewrite u32_id by (unfold is_u32; sp_solve). wp_step. wp_step. by wp_step.
Qed.

(** ** Pushing a list of words *)

(** [s] is [s0] with the words [l] pushed below [E], the last one first. *)
Record stacked (s0 : machine) (E : Z) (l : list Z) (s : machine) : Prop := {
  st_esp : m_reg s ESP = E - 4 * Z.of_nat (length l);
  st_word i w : l !! i = Some w → m_mem s (E - 4 * Z.of_nat (length l) + 4 * Z.of_nat i) = w;
  st_frame a : a < E - 4 * Z.of_nat (length l) ∨ E ≤ a → m_mem s a = m_mem s0 a;
  st_reg r : r ≠ ESP → m_reg s r = m_reg s0 r;
  st_seg : m_seg s = m_seg s0;
  st_cr : m_cr s = m_cr s0;
  st_eip : m_eip s = m_eip s0;
  st_eflags : m_eflags s = m_eflags s0;
  st_tables : m_idt s = m_idt s0 ∧ m_gdt s = m_gdt s0 ∧ m_tss s = m_tss s0
}.

Lemma stacked_nil s : stacked s (m_reg s ESP) [] s.
Proof. split; try done. simpl. lia. Qed.

Lemma stacked_push s0 E l v s : stacked s0 E l s → sp_ok (Z.of_nat (length l) + 1) 0 E →
  wp (push v) (λ _ s', stacked s0 E (v :: l) s') s.
Proof.
  intros [He Hw Hf Hr Hs Hc Hi Hg Ht] Hsp. apply wp_push; [rewrite He; sp_solve|]. rewrite He. cbn [length]. split; try done; cbn.
  - lia.
  - intros [|i] w Hlw; simpl in Hlw.
    + injection Hlw as <-. apply put_eq. lia.
    + pose proof (lookup_lt_Some _ _ _ Hlw). rewrite put_ne by lia. rewrite <- (Hw i w Hlw). f_equal. lia.
  - intros a Ha. rewrite put_ne by lia. apply Hf. lia.
  - intros r Hne. destruct r; try done; by apply Hr.
Qed.

(** Changes elsewhere leave the words alone. *)
Lemma stacked_sreg r v s0 E l s : stacked s0 E l s → stacked (set_sreg r v s0) E l (set_sreg r v s).
Proof. intros [He Hw Hf Hr Hs Hc Hi Hg Ht]. split; try done. cbn. by rewrite Hs. Qed.
Lemma stacked_eip v s0 E l s : stacked s0 E l s → stacked (set_eip v s0) E l (set_eip v s).
Proof. intros [He Hw Hf Hr Hs Hc Hi Hg Ht]. by split. Qed.
Lemma stacked_eflags v s0 E l s : stacked s0 E l s → stacked (set_eflags v s0) E l (set_eflags v s).
Proof. intros [He Hw Hf Hr Hs Hc Hi Hg Ht]. by split. Qed.
Lemma stacked_reg r v s0 E l s : r ≠ ESP → stacked s0 E l s → stacked (set_reg r v s0) E l (set_reg r v s).
Proof.
  intros Hne [He Hw Hf Hr Hs Hc Hi Hg Ht]. split; try done; cbn.
  - by destruct r.
  - intros r' Hne'. destruct (reg_beq r' r); [done|by apply Hr].
Qed.

Section selectors.
Context (upper : Z → Z).

Lemma u16_selector old sel : 0 ≤ sel < 2 ^ 16 → u16 (selector_word upper old sel) = sel.
Proof.
  intros Hs. unfold selector_word, u16. rewrite Z.mul_comm, Z.mod_add by lia. by apply Z.mod_small.
Qed.
Lemma stacked_push_sel s0 E l sel s : stacked s0 E l s → sp_ok (Z.of_nat (length l) + 1) 0 E → 0 ≤ sel < 2 ^ 16 →
  wp (push_sel_over upper sel) (λ _ s', ∃ w, u16 w = sel ∧ stacked s0 E (w :: l) s') s.
Proof.
  intros Hst Hsp Hsel. pose proof (st_esp _ _ _ _ Hst) as He. unfold push_sel_over, get. wp_step. wp_step. wp_step. rewrite He.
  rewrite u32_id by (unfold is_u32; sp_solve). apply wp_mload; [sp_solve|]. eapply wp_mono; [by apply stacked_push|].
  intros [] s' Hs'. eexists. split; [by apply u16_selector|done].
Qed.
Lemma stacked_push_seg s0 E l r s : stacked s0 E l s → sp_ok (Z.of_nat (length l) + 1) 0 E → 0 ≤ m_seg s0 r < 2 ^ 16 →
  wp (push_seg upper r) (λ _ s', ∃ w, u16 w = m_seg s0 r ∧ stacked s0 E (w :: l) s') s.
Proof.
  intros Hst Hsp Hsel. unfold push_seg, get. wp_step. wp_step. wp_step. pose proof (st_esp _ _ _ _ Hst) as He. rewrite He.
  rewrite u32_id by (unfold is_u32; sp_solve). apply wp_mload; [sp_solve|]. wp_step. wp_step. rewrite (st_seg _ _ _ _ Hst).
  eapply wp_mono; [by apply stacked_push|]. intros [] s' Hs'. eexists. split; [by apply u16_selector|done].
Qed.
End selectors.

(** ** Symbolic execution *)

Ltac x86_simpl := cbn [m_reg m_seg m_cr m_eip m_eflags m_mem m_idt m_gdt m_tss set_reg set_sreg set_creg set_eip set_eflags set_gdt set_mem
  reg_beq sreg_beq creg_beq].
Ltac x86_step :=
  match goal with
  | |- wp pop _ _ => apply wp_pop; [x86_simpl; sp_solve|x86_simpl]
  | |- wp (push _) _ _ => apply wp_push; [x86_simpl; sp_solve|x86_simpl]
  | |- wp (get _) _ _ => unfold get; wp_step; x86_simpl
  | |- wp (mload (u32 _)) _ _ => rewrite u32_id by (unfold is_u32; sp_solve)
  | |- wp (mload _) _ _ => apply wp_mload; [x86_simpl; sp_solve|x86_simpl]
  | |- wp (mstore _ _) _ _ => apply wp_mstore; [x86_simpl; sp_solve|x86_simpl]
  | |- wp (bind _ _) _ _ => wp_step
  | |- wp (set_arith _) _ _ => unfold set_arith; wp_step; x86_simpl
  | |- wp (modify _) _ _ => wp_step; x86_simpl
  | |- wp (gets _) _ _ => wp_step; x86_simpl
  end.
Ltac put_solve := repeat first [rewrite put_eq by lia | rewrite put_ne by lia].

(** One push onto the words [Hst] speaks of. *)
Ltac push_step Hst :=
  eapply wp_mono; [first
    [ eapply stacked_push; [exact Hst|cbn [length]; sp_solve]
    | eapply stacked_push_sel; [exact Hst|cbn [length]; sp_solve|auto]
    | eapply stacked_push_seg; [exact Hst|cbn [length]; sp_solve|auto] ]|];
  match type of Hst with stacked _ _ _ ?s => clear dependent s; first [intros [] s [? [? Hst]]|intros [] s Hst]; cbv beta in Hst end.
Ltac bind_steps := repeat lazymatch goal with |- wp (bind _ _) _ _ => wp_step | |- wp (gets _) _ _ => wp_step end.
