(* ===== verification/UsysAsm.v ===== *)
(** * System calls from user mode (usys.S, initcode.S)

    The stub of a system call puts its number in eax and traps; the arguments
    stay where the C caller pushed them, and the result is found in eax. *)

From S2P Require Import Prelude Words Params Spinlock Segs Proc Kern X86 TrapAsm.

Definition SYS_exit : Z := 2.
Definition SYS_exec : Z := 7.

Section usys.
Context (upper : Z → Z) (alu_flags : Z → Z).
Context (vectors : Z → Z) (alltraps trap_return : Z) (c_trap : M machine unit).

(** [int $n], with the address of the instruction behind it: the gate must
    allow it. *)
Definition int_instr (n next : Z) : M machine unit :=
  s ← getS;
  if int_allowed (cpl s) (m_idt s n) then
    modify (set_eip next) ;;
    trap_path upper alu_flags vectors alltraps trap_return c_trap n 0
  else fault.

(** SYSCALL(name) *)
Definition usys_stub (num next : Z) : M machine unit :=
  block upper alu_flags [Movl_imm num EAX] ;;
  int_instr T_SYSCALL next ;;
  at_label upper alu_flags next [Ret].

(** The start of initcode.S. *)
Definition initcode_start (argv init next : Z) : M machine unit :=
  block upper alu_flags [Pushl_imm argv; Pushl_imm init; Pushl_imm 0; Movl_imm SYS_exec EAX] ;;
  int_instr T_SYSCALL next.
(** Its loop, once around. *)
Definition initcode_exit (next : Z) : M machine unit :=
  block upper alu_flags [Movl_imm SYS_exit EAX] ;;
  int_instr T_SYSCALL next.

(** What the kernel has set up for a program in user mode. *)
Record user_mode (s : machine) : Prop := {
  um_cs : m_seg s CS mod 4 = 3;
  um_sel : selectors s;
  um_ss0 : 0 ≤ (m_tss s).1 < 2 ^ 16;
  um_kstack : sp_ok 21 0 (m_tss s).2;
  um_int : int_allowed 3 (m_idt s T_SYSCALL) = true;
  um_gate : gate_offset (m_idt s T_SYSCALL) = vectors T_SYSCALL;
  um_kcode : gate_sel (m_idt s T_SYSCALL) mod 4 = 0;
  um_data : ∀ r, r ∈ [GS; FS; ES; DS] → user_sel (m_gdt s) (m_seg s r)
}.

(** The frame of a system call at the instruction before [next]. *)
Definition syscall_frame (s : machine) (next : Z) : trapframe :=
  frame_of (set_eip next s) ((m_tss s).2 - 44) T_SYSCALL 0.

(** A system call whose result is [res] of the frame. *)
Lemma wp_int_syscall res next s : user_mode s → trap_does c_trap (λ tf, tset_eax (res tf) tf) →
  wp (int_instr T_SYSCALL next) (λ _ s', running (tset_eax (res (syscall_frame s next)) (syscall_frame s next)) s' ∧
    ∀ a, trap_keeps c_trap a → a < (m_tss s).2 - 84 ∨ (m_tss s).2 ≤ a → m_mem s' a = m_mem s a) s.
Proof.
  intros [Hcs Hsel Hss0 Hk Hint Hgate Hkc Hd] Hf. unfold int_instr. wp_step. wp_step. unfold cpl. rewrite Hcs, Hint. wp_step. wp_step.
  apply (wp_trap_path upper alu_flags vectors alltraps trap_return c_trap T_SYSCALL 0 (λ tf, tset_eax (res tf) tf) (set_eip next s)); try done.
  split; cbn; [done|]. split_and!; apply Hd; set_solver.
Qed.

Lemma user_mode_regs s s' : m_seg s' = m_seg s → m_tss s' = m_tss s → m_idt s' = m_idt s → m_gdt s' = m_gdt s → user_mode s → user_mode s'.
Proof. intros E1 E2 E3 E4 [? ? ? ? ? ? ? ?]. split; rewrite ?E1, ?E2, ?E3, ?E4; try done. by intros r; rewrite E1. Qed.


(** The first process asks for [exec(init, argv)]: the kernel finds the number
    in eax and the two pointers above the (zero) return address. *)
Theorem initcode_execs argv init next res s : user_mode s → trap_does c_trap (λ tf, tset_eax (res tf) tf) → sp_ok 3 0 (m_reg s ESP) →
  ∃ s1, tf_eax (syscall_frame s1 next) = SYS_exec ∧ tf_esp (syscall_frame s1 next) = m_reg s ESP - 12 ∧
    m_mem s1 (m_reg s ESP - 12 + 4) = init ∧ m_mem s1 (m_reg s ESP - 12 + 8) = argv ∧
    wp (initcode_start argv init next) (λ _ s', running (tset_eax (res (syscall_frame s1 next)) (syscall_frame s1 next)) s') s.
Proof.
  intros Hu Hf Hsp. remember (m_reg s ESP) as E eqn:HE. assert (HE0 : m_reg s ESP = E) by done. clear HE.
  set (s1 := set_reg EAX SYS_exec (set_reg ESP (E - 4 - 4 - 4) (set_mem (E - 4 - 4 - 4) 0
    (set_reg ESP (E - 4 - 4) (set_mem (E - 4 - 4) init (set_reg ESP (E - 4) (set_mem (E - 4) argv s))))))).
  exists s1. split_and!; [done|cbn; lia|unfold s1; x86_simpl; put_solve; done|unfold s1; x86_simpl; put_solve; done|].
  unfold initcode_start. wp_step. cbn [X86.block exec1]. repeat (x86_step; rewrite ?HE0). wp_step. fold s1.
  eapply wp_mono; [apply (wp_int_syscall res next s1); [by apply (user_mode_regs s)|done]|]. by intros [] s' [Hr _].
Qed.
End usys.

(** A kernel that leaves the number of the call in eax. *)
Lemma demo_returns_number : trap_does demo_return (λ tf, tset_eax (tf_eax tf) tf).
Proof. intros s Hsp. eapply wp_mono; [by apply demo_trap_does|]. intros [] s' (? & ? & ? & ? & Hr). split_and!; [done..|]. by rewrite Hr; destruct (read_tf (m_mem s) _). Qed.
Lemma demo_keeps a : trap_keeps demo_return a.
Proof.
  intros s Hsp. unfold demo_return. cbn [block exec1]. wp_step. wp_step. apply wp_pop; [sp_solve|]. wp_step. wp_step. done.
Qed.
Lemma demo_user_mode : user_mode demo_vectors demo_user.
Proof.
  split; try (vm_compute; reflexivity).
  - apply demo_selectors.
  - cbn. lia.
  - unfold sp_ok. split_and!; num_solve.
  - intros r _. right. by vm_compute.
Qed.

