(* ===== verification/EntryAsm.v ===== *)
(** * Starting a processor (bootasm.S, entry.S, entryother.S; entrypgdir of main.c)

    From the BIOS to [bootmain] in 32-bit mode, from the boot loader to [main]
    with paging on, and from a STARTUP message to [mpenter].  Memory is
    addressed as the instructions address it; the low addresses stay where they
    are when paging is turned on, which is what [entry_maps] shows.  The lines
    behind the calls of C functions that do not return are left out. *)

From S2P Require Import Prelude Words Params Spinlock Ports Segs X86 TrapAsm.

Definition CR0_PE : Z := 0x1.
Definition CR0_WP : Z := 0x10000.
Definition CR0_PG : Z := 0x80000000.
Definition CR4_PSE : Z := 0x10.

(** ** Page directories with large pages *)

Definition entrypgdir : list Z :=
  <[Z.to_nat (Z.shiftr KERNBASE PDXSHIFT) := Z.lor (Z.lor PTE_P PTE_W) PTE_PS]>
    (<[0%nat := Z.lor (Z.lor PTE_P PTE_W) PTE_PS]> (replicate (Z.to_nat NPDENTRIES) 0)).

(** The processor's translation of a linear address, where the entry of the
    page directory is a 4 MByte page or is not present. *)
Definition translate (s : machine) (va : Z) : option Z :=
  if Z.land (m_cr s CR0) CR0_PG =? 0 then Some va else
  let pde := m_mem s (Z.land (m_cr s CR3) 0xfffff000 + 4 * PDX va) in
  if (Z.land pde PTE_P =? 0) || (Z.land pde PTE_PS =? 0) || (Z.land (m_cr s CR4) CR4_PSE =? 0) then None
  else Some (Z.land pde 0xffc00000 + va mod 2 ^ 22).

(** The page directory in memory. *)
Definition pgdir_at (m : Z → Z) (a : Z) : Prop := ∀ i e, entrypgdir !! i = Some e → m (a + 4 * Z.of_nat i) = e.

(** ** The code *)

Definition SEG_ASM (type base lim : Z) : Z :=
  pack [(16, Z.land (Z.shiftr lim 12) 0xffff); (16, Z.land base 0xffff);
        (8, Z.land (Z.shiftr base 16) 0xff); (8, Z.lor 0x90 type);
        (8, Z.lor 0xC0 (Z.land (Z.shiftr lim 28) 0xf)); (8, Z.land (Z.shiftr base 24) 0xff)].
(** The table of bootasm.S and of entryother.S. *)
Definition boot_gdt (i : Z) : Z :=
  if i =? 1 then SEG_ASM (Z.lor STA_X STA_R) 0 0xffffffff
  else if i =? 2 then SEG_ASM STA_W 0 0xffffffff else 0.

Definition entry_code (pgdir stack main : Z) : list instr :=
  [Movl_from_cr CR4; Orl_eax CR4_PSE; Movl_to_cr CR4;
   Movl_imm (V2P pgdir) EAX; Movl_to_cr CR3;
   Movl_from_cr CR0; Orl_eax (Z.lor CR0_PG CR0_WP); Movl_to_cr CR0;
   Movl_imm (stack + KSTACKSIZE) ESP; Movl_imm main EAX; Jmp_eax].

Definition clear_segs : list instr := [Cli; Xorw_ax; Movw_seg DS; Movw_seg ES; Movw_seg SS].
Definition protect (start32 : Z) : list instr :=
  [Lgdt boot_gdt; Movl_from_cr CR0; Orl_eax CR0_PE; Movl_to_cr CR0; Ljmp (Z.shiftl SEG_KCODE 3) start32].
Definition data_segs : list instr :=
  [Movw_imm (Z.shiftl SEG_KDATA 3); Movw_seg DS; Movw_seg ES; Movw_seg SS; Movw_imm 0; Movw_seg FS; Movw_seg GS].

Definition other16_code (start32 : Z) : list instr := clear_segs ++ protect start32.
Definition other32_code (start next : Z) : list instr :=
  data_segs ++
  [Movl_from_cr CR4; Orl_eax CR4_PSE; Movl_to_cr CR4;
   Movl_abs (start - 12) EAX; Movl_to_cr CR3;
   Movl_from_cr CR0; Orl_eax (Z.lor (Z.lor CR0_PE CR0_PG) CR0_WP); Movl_to_cr CR0;
   Movl_abs (start - 4) ESP; Call_abs (start - 8) next].
Definition boot32_code (start bootmain next : Z) : list instr := data_segs ++ [Movl_imm start ESP; Call bootmain next].

Section entry.
Context (upper : Z → Z) (alu_flags : Z → Z).
Notation block := (block upper alu_flags).
Notation at_label := (at_label upper alu_flags).

(** ** entry.S *)

Lemma large_page_entry : entrypgdir !! 0%nat = Some 0x83 ∧ entrypgdir !! Z.to_nat (Z.shiftr KERNBASE PDXSHIFT) = Some 0x83.
Proof. by vm_compute. Qed.
Lemma other_entries i e : entrypgdir !! i = Some e → i ≠ 0%nat → i ≠ Z.to_nat (Z.shiftr KERNBASE PDXSHIFT) → e = 0.
Proof.
  unfold entrypgdir. intros Hi H0 Hk. rewrite list_lookup_insert_ne in Hi by done. rewrite list_lookup_insert_ne in Hi by done.
  by apply lookup_replicate in Hi as [-> _].
Qed.

(** Paging is on, with large pages and the entry page directory. *)
Record entry_paging (pgdir : Z) (s : machine) : Prop := {
  ep_pg : Z.land (m_cr s CR0) CR0_PG ≠ 0;
  ep_pse : Z.land (m_cr s CR4) CR4_PSE ≠ 0;
  ep_cr3 : Z.land (m_cr s CR3) 0xfffff000 = pgdir;
  ep_dir : pgdir_at (m_mem s) pgdir
}.

(** The map of the entry page directory: the first 4 MByte of memory, at their
    own address and at KERNBASE. *)
Definition entry_map (va : Z) : option Z :=
  if va <? 2 ^ 22 then Some va
  else if (KERNBASE <=? va) && (va <? KERNBASE + 2 ^ 22) then Some (va - KERNBASE) else None.

Lemma entry_maps pgdir s va : entry_paging pgdir s → 0 ≤ va < 2 ^ 32 → translate s va = entry_map va.
Proof.
  intros [Hpg Hpse H3 Hdir] Hva. unfold translate. rewrite (proj2 (Z.eqb_neq _ _) Hpg), (proj2 (Z.eqb_neq _ _) Hpse), H3.
  rewrite PDX_eq by lia. set (i := Z.to_nat ((va / 2 ^ 22) mod 1024)).
  assert (Hi : (va / 2 ^ 22) mod 1024 = va / 2 ^ 22) by (apply Z.mod_small; Z.to_euclidean_division_equations; lia).
  assert (Hlen : length entrypgdir = 1024%nat) by (by vm_compute).
  destruct (lookup_lt_is_Some_2 entrypgdir i) as [e He]; [rewrite Hlen; unfold i; Z.to_euclidean_division_equations; lia|].
  replace (4 * ((va / 2 ^ 22) mod 1024)) with (4 * Z.of_nat i) by (unfold i; rewrite Z2Nat.id; [done|apply Z.mod_pos_bound; lia]).
  rewrite (Hdir i e He). destruct large_page_entry as [H0 Hk]. change (Z.to_nat (Z.shiftr KERNBASE PDXSHIFT)) with 512%nat in *.
  unfold entry_map. change KERNBASE with (512 * 2 ^ 22).
  destruct (decide (i = 0%nat)) as [E0|E0]; [|destruct (decide (i = 512%nat)) as [Ek|Ek]].
  - rewrite E0 in He. rewrite H0 in He. injection He as <-. change (Z.land 0x83 PTE_P =? 0) with false. change (Z.land 0x83 PTE_PS =? 0) with false. change (Z.land 0x83 0xffc00000) with 0. cbn [orb]. assert (va < 2 ^ 22) by (unfold i in E0; Z.to_euclidean_division_equations; lia).
    rewrite (proj2 (Z.ltb_lt _ _)) by done. rewrite Z.mod_small by lia. done.
  - rewrite Ek in He. rewrite Hk in He. injection He as <-. change (Z.land 0x83 PTE_P =? 0) with false. change (Z.land 0x83 PTE_PS =? 0) with false. change (Z.land 0x83 0xffc00000) with 0. cbn [orb].
    assert (512 * 2 ^ 22 ≤ va < 513 * 2 ^ 22) by (unfold i in Ek; Z.to_euclidean_division_equations; lia).
    rewrite (proj2 (Z.ltb_ge va (2 ^ 22))), (proj2 (Z.leb_le (512 * 2 ^ 22) va)), (proj2 (Z.ltb_lt va (512 * 2 ^ 22 + 2 ^ 22))) by lia. cbn [andb].
    f_equal. Z.to_euclidean_division_equations. lia.
  - rewrite (other_entries i e He E0 Ek). change (Z.land 0 PTE_P =? 0) with true. cbn [orb].
    assert (2 ^ 22 ≤ va ∧ (va < 512 * 2 ^ 22 ∨ 513 * 2 ^ 22 ≤ va)) as [? Hc] by (unfold i in E0, Ek; Z.to_euclidean_division_equations; lia).
    rewrite (proj2 (Z.ltb_ge _ _)) by lia. destruct ((_ <=? _) && _) eqn:E; [lia|done].
Qed.

Lemma lor_bit n a v c : 0 ≤ n → Z.testbit v n = true → Z.testbit c n = true → Z.land (Z.lor a v) c ≠ 0.
Proof.
  intros Hn Hv Hc E. apply (f_equal (λ z, Z.testbit z n)) in E. rewrite Z.land_spec, Z.lor_spec, Hv, Hc, Z.bits_0, orb_true_r in E. done.
Qed.

(** The kernel is entered with paging on.  From the boot loader, entry.S
    reaches [main] on the boot stack with a mapping in which the first 4 MByte of
    physical memory appear at their own address, so that entry.S itself goes
    on, and at KERNBASE, where the kernel is linked, and in which no other
    address is mapped. *)
Theorem entry_reaches_main pgdir stack main s :
  pgdir_at (m_mem s) (V2P pgdir) → Z.land (V2P pgdir) 0xfffff000 = V2P pgdir →
  wp (block (entry_code pgdir stack main)) (λ _ s', m_eip s' = main ∧ m_reg s' ESP = stack + KSTACKSIZE ∧
    m_mem s' = m_mem s ∧ ∀ va, 0 ≤ va < 2 ^ 32 → translate s' va = entry_map va) s.
Proof.
  intros Hdir Hal. unfold entry_code. cbn [X86.block exec1]. repeat x86_step. wp_step. x86_simpl. split_and!; [done..|].
  intros va Hva. apply (entry_maps (V2P pgdir)); [|done]. split; x86_simpl; [by apply (lor_bit 31)|by apply (lor_bit 4)|done|done].
Qed.

(** ** 32-bit mode *)

(** Interrupts off, flat segments, protected mode. *)
Record protected (s : machine) : Prop := {
  pm_cs : m_seg s CS = Z.shiftl SEG_KCODE 3;
  pm_data : m_seg s DS = Z.shiftl SEG_KDATA 3 ∧ m_seg s ES = Z.shiftl SEG_KDATA 3 ∧ m_seg s SS = Z.shiftl SEG_KDATA 3;
  pm_null : m_seg s FS = 0 ∧ m_seg s GS = 0;
  pm_gdt : m_gdt s = boot_gdt;
  pm_pe : Z.land (m_cr s CR0) CR0_PE ≠ 0;
  pm_if : Z.testbit (m_eflags s) 9 = false
}.

(** The segments of the table cover all addresses, for the kernel only. *)
Lemma boot_gdt_flat i : i = 1 ∨ i = 2 →
  seg_base (boot_gdt i) = 0 ∧ seg_limit (boot_gdt i) = 0xffffffff ∧ desc_dpl (boot_gdt i) = 0 ∧ desc_p (boot_gdt i) = 1 ∧ desc_s (boot_gdt i) = 1.
Proof. intros [->| ->]; by vm_compute. Qed.

Lemma arith_if x y : Z.testbit (Z.lor (Z.ldiff x ARITH) (Z.land y ARITH)) 9 = Z.testbit x 9.
Proof. rewrite Z.lor_spec, Z.ldiff_spec, Z.land_spec. change (Z.testbit ARITH 9) with false. by rewrite andb_true_r, andb_false_r, orb_false_r. Qed.
Lemma cli_if x : Z.testbit (Z.ldiff x FL_IF) 9 = false.
Proof. rewrite Z.ldiff_spec. change (Z.testbit FL_IF 9) with true. apply andb_false_r. Qed.
Lemma xorw_low a : u16 (a - u16 a) = 0.
Proof. unfold u16. Z.to_euclidean_division_equations. lia. Qed.

(** ** entryother.S *)

(** A second processor reaches mpenter.  From the STARTUP message, with
    the three words that [startothers] stores below the code, entryother.S calls
    the function at start-8 on the stack at start-4, in 32-bit mode with flat
    segments, interrupts off and paging on through the page directory at
    start-12. *)
Theorem other_reaches_mpenter start start32 next s :
  start mod 4 = 0 → sp_ok 1 0 (m_mem s (start - 4)) → pgdir_at (m_mem s) (m_mem s (start - 12)) →
  Z.land (m_mem s (start - 12)) 0xfffff000 = m_mem s (start - 12) →
  let sp := m_mem s (start - 4) in
  (sp - 4 < m_mem s (start - 12) ∨ m_mem s (start - 12) + 4096 ≤ sp - 4) →
  wp (block (other16_code start32) ;; at_label start32 (other32_code start next)) (λ _ s',
    m_eip s' = m_mem s (start - 8) ∧ m_reg s' ESP = sp - 4 ∧ m_mem s' = put (m_mem s) (sp - 4) next ∧ protected s' ∧
    ∀ va, 0 ≤ va < 2 ^ 32 → translate s' va = entry_map va) s.
Proof.
  intros Hal Hsp Hdir H3 sp Hout. wp_step. unfold other16_code, clear_segs, protect. cbn [X86.block exec1 app].
  repeat x86_step. wp_step. unfold TrapAsm.at_label. wp_step. wp_step. x86_simpl. rewrite Z.eqb_refl.
  unfold other32_code, data_segs. cbn [X86.block exec1 app]. repeat x86_step. wp_step. x86_simpl. fold sp.
  split_and!; [done|done|done| |].
  - split; x86_simpl; rewrite ?movw_low by done; try done.
    + by apply (lor_bit 0).
    + by rewrite !arith_if, cli_if.
  - intros va Hva. apply (entry_maps (m_mem s (start - 12))); [|done].
    split; x86_simpl; [by apply (lor_bit 31)|by apply (lor_bit 4)|done|].
    intros i e Hi. rewrite put_ne; [by apply Hdir|]. apply lookup_lt_Some in Hi. change (length entrypgdir) with 1024%nat in Hi. lia.
Qed.

(** ** bootasm.S *)

Section boot.
Context {D : Type} `{PortIO D}.

(** [inb $0x64,%al; testb $0x2,%al; jnz ...] *)
Fixpoint wait_8042 (polls : nat) : M D unit :=
  match polls with
  | O => fault
  | S n =>
      v ← inb 0x64;
      if Z.land v 0x2 =? 0 then ret tt else wait_8042 n
  end.
Definition seta20 (polls : nat) : M D unit :=
  wait_8042 polls ;;
  outb 0x64 0xd1 ;;
  wait_8042 polls ;;
  outb 0x60 0xdf.

(** The processor and the devices. *)
Definition on_cpu {A} (c : M machine A) : M (machine * D) A := zoom fst (λ x s, (x, s.2)) c.
Definition on_ports {A} (c : M D A) : M (machine * D) A := zoom snd (λ x s, (s.1, x)) c.

Definition bootasm (polls : nat) (start start32 bootmain next : Z) : M (machine * D) unit :=
  on_cpu (block clear_segs) ;;
  on_ports (seta20 polls) ;;
  on_cpu (block (protect start32)) ;;
  on_cpu (at_label start32 (boot32_code start bootmain next)).

(** The keyboard controller as far as the gate of address line 20 goes: status
    bit 1 while it is busy; after command 0xd1 the next byte for port 0x60
    is its output port, with the gate as bit 1. *)
Class A20Gate := {
  ag_busy : D → nat;
  ag_port_next : D → bool;
  ag_a20 : D → bool;
  ag_status d : let '(v, d') := dev_in8 0x64 d in
    (Z.land (u8 v) 0x2 = 0 ↔ ag_busy d = 0%nat) ∧ ag_busy d' = pred (ag_busy d) ∧ ag_port_next d' = ag_port_next d ∧ ag_a20 d' = ag_a20 d;
  ag_command d : ag_busy d = 0%nat → ag_port_next (dev_out8 0x64 0xd1 d) = true;
  ag_output v d : ag_busy d = 0%nat → ag_port_next d = true → ag_a20 (dev_out8 0x60 v d) = Z.testbit v 1
}.

Context {HA : A20Gate}.

Lemma wp_wait_8042 polls d : (ag_busy d < polls)%nat → wp (wait_8042 polls) (λ _ d', ag_busy d' = 0%nat ∧ ag_port_next d' = ag_port_next d) d.
Proof.
  revert d. induction polls as [|n IH]; intros d Hb; [lia|]. cbn [wait_8042]. wp_step. apply wp_inb. pose proof (ag_status d) as Hs.
  destruct (dev_in8 0x64 d) as [v d']. destruct Hs as (Hv & Hb' & Hp & _). destruct (Z.eqb_spec (Z.land (u8 v) 0x2) 0) as [E|E].
  - wp_step. apply Hv in E. split; [lia|done].
  - eapply wp_mono; [apply IH; destruct (ag_busy d); [by destruct E; apply Hv|simpl in Hb'; lia]|]. intros [] d2 [? ->]. done.
Qed.

(** Address line 20 is on, however long the controller is busy each time, up
    to the number of polls. *)
Lemma wp_seta20 polls d : (∀ d, ag_busy d < polls)%nat → wp (seta20 polls) (λ _ d', ag_a20 d' = true) d.
Proof.
  intros Hb. unfold seta20. wp_step. eapply wp_mono; [by apply wp_wait_8042|]. intros [] d1 [Hb1 _]. wp_step. apply wp_outb.
  wp_step. eapply wp_mono; [by apply wp_wait_8042|]. intros [] d2 [Hb2 Hp2]. apply wp_outb. rewrite ag_output; [done|done|].
  rewrite Hp2. by apply ag_command.
Qed.

(** The boot sector reaches bootmain.  From the BIOS, bootasm.S calls
    [bootmain] in 32-bit mode with flat segments, interrupts off, address line
    20 on and the stack below the boot sector. *)
Theorem bootasm_reaches_bootmain polls start start32 bootmain next s d :
  sp_ok 1 0 start → (∀ d, ag_busy d < polls)%nat →
  wp (bootasm polls start start32 bootmain next) (λ _ x, m_eip x.1 = bootmain ∧ m_reg x.1 ESP = start - 4 ∧
    m_mem x.1 (start - 4) = next ∧ protected x.1 ∧ ag_a20 x.2 = true) (s, d).
Proof.
  intros Hsp Hb. unfold bootasm. wp_step. apply wp_zoom. unfold clear_segs. cbn [X86.block exec1 fst snd]. repeat x86_step. wp_step.
  cbn [fst snd]. wp_step. apply wp_zoom. cbn [fst snd]. eapply wp_mono; [by apply wp_seta20|]. intros [] d' Ha.
  wp_step. apply wp_zoom. unfold protect. cbn [X86.block exec1 fst snd]. repeat x86_step. wp_step. cbn [fst snd].
  apply wp_zoom. unfold TrapAsm.at_label. cbn [fst snd]. wp_step. wp_step. x86_simpl. rewrite Z.eqb_refl.
  unfold boot32_code, data_segs. cbn [X86.block exec1 app]. repeat x86_step. wp_step. cbn [fst snd]. x86_simpl.
  split_and!; [done|done|by apply put_eq| |done].
  split; x86_simpl; rewrite ?movw_low by done; try done.
  - by apply (lor_bit 0).
  - by rewrite !arith_if, cli_if.
Qed.
End boot.
End entry.

(** ** A machine *)

Definition word_table (a : Z) (l : list Z) (m : Z → Z) : Z → Z := λ b,
  if (a <=? b) && (b <? a + 4 * Z.of_nat (length l)) then l !!! Z.to_nat ((b - a) / 4) else m b.
Lemma word_table_at a m : pgdir_at (word_table a entrypgdir m) a.
Proof.
  intros i e Hi. pose proof (lookup_lt_Some _ _ _ Hi) as Hl. unfold word_table.
  rewrite (proj2 (Z.leb_le _ _)), (proj2 (Z.ltb_lt _ _)) by lia. cbn [andb].
  replace ((a + 4 * Z.of_nat i - a) / 4) with (Z.of_nat i) by (Z.to_euclidean_division_equations; lia).
  rewrite Nat2Z.id. by apply list_lookup_total_correct.
Qed.
Definition demo_boot (m : Z → Z) : machine :=
  Machine (λ _, 0) (λ _, 0) (λ _, 0) 0 FL_IF m (λ _, 0) (λ _, 0) (0, 0).

Lemma entry_reaches_main_witness :
  wp (block no_upper same_flags (entry_code (P2V 0x109000) (P2V 0x10b000) (P2V 0x103000))) (λ _ s',
    m_eip s' = P2V 0x103000 ∧ translate s' (P2V 0x103000) = Some 0x103000 ∧ translate s' 0x500000 = None)
    (demo_boot (word_table 0x109000 entrypgdir (λ _, 0))).
Proof.
  eapply wp_mono.
  - apply (entry_reaches_main no_upper same_flags (P2V 0x109000) (P2V 0x10b000) (P2V 0x103000)).
    + apply word_table_at.
    + reflexivity.
  - intros [] s' (H1 & _ & _ & H2). split; [exact H1|]. rewrite !H2 by (vm_compute; split; [discriminate|reflexivity]).
    split; reflexivity.
Defined.

(** The words below 0x7000: page directory, function, stack. *)
Definition demo_words : Z → Z :=
  put (put (put (word_table 0x109000 entrypgdir (λ _, 0)) 0x6ff4 0x109000) 0x6ff8 (P2V 0x104000)) 0x6ffc (P2V 0x200000).

Lemma other_reaches_mpenter_witness :
  wp (block no_upper same_flags (other16_code 0x7020) ;; at_label no_upper same_flags 0x7020 (other32_code 0x7000 0x7080)) (λ _ s',
    m_eip s' = P2V 0x104000 ∧ m_reg s' ESP = P2V 0x200000 - 4 ∧ translate s' (P2V 0x200000 - 4) = Some 0x1ffffc) (demo_boot demo_words).
Proof.
  eapply wp_mono.
  - apply (other_reaches_mpenter no_upper same_flags 0x7000 0x7020 0x7080).
    + reflexivity.
    + unfold sp_ok. split_and!; num_solve.
    + intros i e Hi. pose proof (lookup_lt_Some _ _ _ Hi) as Hl. change (length entrypgdir) with 1024%nat in Hl.
      change (m_mem (demo_boot demo_words)) with demo_words. change (demo_words (0x7000 - 12)) with 0x109000.
      unfold demo_words. rewrite !put_ne by lia. by apply word_table_at.
    + reflexivity.
    + right. vm_compute. discriminate.
  - intros [] s' (H1 & H2 & _ & _ & H3). split; [exact H1|]. split; [exact H2|].
    rewrite H3 by (vm_compute; split; [discriminate|reflexivity]). reflexivity.
Defined.

(** A controller that is busy for one poll after each byte. *)
Record demo_8042 := Demo8042 { d8_busy : bool; d8_next : bool; d8_a20 : bool }.
#[global] Instance demo_8042_ports : PortIO demo_8042 := {
  dev_in8 _ d := (if d8_busy d then 2 else 0, Demo8042 false (d8_next d) (d8_a20 d));
  dev_out8 p v d :=
    if p =? 0x64 then Demo8042 true (v =? 0xd1) (d8_a20 d)
    else if d8_next d then Demo8042 true false (Z.testbit v 1) else d;
  dev_in32 _ d := (0, d);
  dev_out32 _ _ d := d
}.
#[global] Program Instance demo_8042_gate : A20Gate := {|
  ag_busy d := if d8_busy d then 1%nat else 0%nat;
  ag_port_next := d8_next;
  ag_a20 := d8_a20
|}.
Next Obligation. by intros [[] n a]. Qed.
Next Obligation. by intros [[] n a]. Qed.
Next Obligation. intros v [b n a] _ Hn. simpl in *. by rewrite Hn. Qed.

Lemma bootasm_reaches_bootmain_witness :
  wp (bootasm no_upper same_flags 3 0x7c00 0x7c40 0x7d49 0x7c60) (λ _ x, m_eip x.1 = 0x7d49 ∧ m_reg x.1 ESP = 0x7bfc ∧ d8_a20 x.2 = true)
    (demo_boot (λ _, 0), Demo8042 true false false).
Proof.
  eapply wp_mono.
  - apply (bootasm_reaches_bootmain no_upper same_flags 3 0x7c00 0x7c40 0x7d49 0x7c60).
    + unfold sp_ok. split_and!; num_solve.
    + intros [[] n a]; simpl; lia.
  - intros [] x (H1 & H2 & _ & _ & H3). split; [exact H1|]. split; [exact H2|exact H3].
Defined.
