(* ===== verification/MpMain.v ===== *)
(** * Starting the other processors (main.c: startothers, mpenter, mpmain; vm.c: kvmalloc)

    The boot processor copies entryother.S to 0x7000, leaves three words below
    it, sends the STARTUP message and waits until the flag of the processor is
    set.  What the other processor does is its own code: entryother.S
    ([EntryAsm]) on the memory it finds, then [mpenter].  When it runs, between
    two reads of the flag, is up to [turn].

    Every processor has its registers, its local APIC and its entry of [cpus];
    a processor is the entry with its APIC ID.  Memory is the pages of the
    allocator, and the bytes of the kernel and below. *)

From S2P Require Import Prelude Words Params CString Spinlock Kalloc Vm VmRules VmMap VmFork Ports Apic ApicSpec Segs X86 TrapAsm EntryAsm Mp.
Import Lapic.

(** An entry of [cpus] with the registers of its processor. *)
Record core (D : Type) := Core {
  co_cpu : cpu;
  co_started : Z;               (* started *)
  co_gdt : gdtst;               (* gdt, and the register that points to it *)
  co_idtr : option (Z * Z);
  co_cr3 : Z;
  co_dev : D;                   (* its local APIC *)
  co_esp : Z                    (* the stack pointer at the entry of mpenter *)
}.
Arguments Core {D}.
Arguments co_cpu {D}.
Arguments co_started {D}.
Arguments co_gdt {D}.
Arguments co_idtr {D}.
Arguments co_cr3 {D}.
Arguments co_dev {D}.
Arguments co_esp {D}.

Record board (D : Type) := Board {
  b_kmem : kmem;
  b_low : ap_mach D;            (* memory below the allocator's; the boot processor's APIC and ports *)
  b_cores : list (core D);      (* cpus[0], ..., cpus[ncpu-1] *)
  b_idt : list Z * spinlock;    (* idt and tickslock *)
  b_kpgdir : Z;
  b_ran : nat;                  (* STARTUP messages that have been acted upon *)
  b_time : nat
}.
Arguments Board {D}.
Arguments b_kmem {D}.
Arguments b_low {D}.
Arguments b_cores {D}.
Arguments b_idt {D}.
Arguments b_kpgdir {D}.
Arguments b_ran {D}.
Arguments b_time {D}.

(** What the linker and the assembler choose. *)
Record linked := Linked {
  l_kend : Z;                   (* end *)
  l_kdata : Z;                  (* data *)
  l_mpenter : Z;
  l_entrypgdir : Z;
  l_other : Z;                  (* _binary_entryother_start *)
  l_other_size : Z;             (* _binary_entryother_size *)
  l_other_bytes : list Z;       (* the assembled entryother.S *)
  l_off32 : Z;                  (* the offsets of start32 and of the instruction after the call in it *)
  l_off_next : Z;
  l_idt : Z;
  l_gdt : nat → Z               (* cpus[i].gdt *)
}.

Section main.
Context {D : Type} `{!MMIO D, !PortIO D} (base : Z) (polls : nat) `{LA : !LocalApic D base polls}.
Context (upper : Z → Z) (alu_flags : Z → Z) (L : linked).
(** The registers of a processor after the STARTUP message. *)
Context (reset : machine).
(** Does a started processor run before the read number [t]? *)
Context (turn : nat → bool).
Implicit Types b : board D.

Definition set_kmem k b := Board k (b_low b) (b_cores b) (b_idt b) (b_kpgdir b) (b_ran b) (b_time b).
Definition set_low l b := Board (b_kmem b) l (b_cores b) (b_idt b) (b_kpgdir b) (b_ran b) (b_time b).
Definition set_cores l b := Board (b_kmem b) (b_low b) l (b_idt b) (b_kpgdir b) (b_ran b) (b_time b).
Definition set_idt t b := Board (b_kmem b) (b_low b) (b_cores b) t (b_kpgdir b) (b_ran b) (b_time b).
Definition set_kpgdir d b := Board (b_kmem b) (b_low b) (b_cores b) (b_idt b) d (b_ran b) (b_time b).
Definition set_ran n b := Board (b_kmem b) (b_low b) (b_cores b) (b_idt b) (b_kpgdir b) n (b_time b).
Definition set_time n b := Board (b_kmem b) (b_low b) (b_cores b) (b_idt b) (b_kpgdir b) (b_ran b) n.

Definition with_started v (c : core D) := Core (co_cpu c) v (co_gdt c) (co_idtr c) (co_cr3 c) (co_dev c) (co_esp c).
Definition with_gdt v (c : core D) := Core (co_cpu c) (co_started c) v (co_idtr c) (co_cr3 c) (co_dev c) (co_esp c).
Definition with_idtr v (c : core D) := Core (co_cpu c) (co_started c) (co_gdt c) v (co_cr3 c) (co_dev c) (co_esp c).
Definition with_cr3 v (c : core D) := Core (co_cpu c) (co_started c) (co_gdt c) (co_idtr c) v (co_dev c) (co_esp c).
Definition with_dev (v : D) (c : core D) := Core (co_cpu c) (co_started c) (co_gdt c) (co_idtr c) (co_cr3 c) v (co_esp c).
Definition with_esp v (c : core D) := Core (co_cpu c) (co_started c) (co_gdt c) (co_idtr c) (co_cr3 c) (co_dev c) v.

Definition on_kmem {A} (c : M kmem A) : M (board D) A := zoom b_kmem set_kmem c.
Definition on_low {A} (c : M (ap_mach D) A) : M (board D) A := zoom b_low set_low c.
(** On the processor [i]. *)
Definition on_core {A} (i : nat) (c : M (core D) A) : M (board D) A := λ b,
  match b_cores b !! i with
  | None => Fault
  | Some co =>
      match c co with
      | Ok a co' => Ok a (set_cores (<[i := co']> (b_cores b)) b)
      | Panic msg => Panic msg
      | Sleep co' => Sleep (set_cores (<[i := co']> (b_cores b)) b)
      | Fault => Fault
      end
  end.
Definition store_low (a v : Z) : M (board D) unit :=
  modify (λ b, set_low (ApMach (store32 (ap_mem (b_low b)) a v) (ap_dev (b_low b))) b).

(** [mycpu] on the processor with APIC ID [id] and FL_IF [fl]. *)
Definition this_cpu (fl : bool) (id : Z) : M (board D) nat :=
  if fl then panic "mycpu called with interrupts enabled"
  else
    cores ← gets b_cores;
    match find_cpu (co_cpu <$> cores) 0 id with
    | Some i => ret i
    | None => panic "unknown apicid"
    end.

(** ** vm.c *)

Definition load_kpgdir (i : nat) : M (board D) unit :=
  d ← gets b_kpgdir;
  on_core i (modify (with_cr3 (V2P d))).
Definition kvmalloc (i : nat) : M (board D) unit :=
  d ← on_kmem (setupkvm (l_kend L) (l_kdata L));
  modify (set_kpgdir d) ;;
  load_kpgdir i.

(** ** main.c *)

(** Up to the call of [scheduler]; the message is left out. *)
Definition mpmain (i : nat) : M (board D) unit :=
  t ← gets b_idt;
  on_core i (zoom (λ c, Idtst t.1 t.2 (co_idtr c)) (λ s, with_idtr (idtr s)) (idtinit (l_idt L))) ;;
  on_core i (modify (with_started 1)).

Definition mpenter (fl : bool) (id : Z) : M (board D) unit :=
  i ← this_cpu fl id;
  load_kpgdir i ;;
  on_core i (zoom co_gdt with_gdt (seginit (l_gdt L i))) ;;
  on_core i (zoom co_dev with_dev (lapicinit base polls)) ;;
  mpmain i.

(** *** The other processor *)

(** Physical memory as a started processor finds it. *)
Definition words (m : mem) : Z → Z := λ a, load32 m (P2V a).
Definition reset_machine (addr : Z) (m : mem) : machine :=
  Machine (m_reg reset) (m_seg reset) (m_cr reset) addr (m_eflags reset) (words m) (m_idt reset) (m_gdt reset) (m_tss reset).
(** It executes what is at [addr]; the word it pushes goes to the page its
    stack pointer is mapped to. *)
Definition ap_boot (id addr : Z) : M (board D) unit :=
  m ← gets (λ b, ap_mem (b_low b));
  if negb (bool_decide (read_bytes m (P2V addr) (Z.of_nat (length (l_other_bytes L))) = l_other_bytes L)) then fault
  else
    match (block upper alu_flags (other16_code (addr + l_off32 L)) ;;
           at_label upper alu_flags (addr + l_off32 L) (other32_code addr (addr + l_off_next L))) (reset_machine addr m) with
    | Ok _ s =>
        let sp := m_reg s ESP in
        match translate s sp, translate s (m_eip s) with
        | Some pa, Some _ =>
            if m_eip s =? l_mpenter L then
              on_kmem (store_word (P2V pa) (m_mem s sp)) ;;
              i ← this_cpu false id;
              on_core i (modify (with_esp sp)) ;;
              mpenter (Z.testbit (m_eflags s) 9) id
            else fault
        | _, _ => fault
        end
    | _ => fault
    end.
(** The next processor with a STARTUP message runs. *)
Definition run_started : M (board D) unit :=
  b ← getS;
  match a_started (la_st (ap_dev (b_low b))) !! b_ran b with
  | None => ret tt
  | Some (id, addr) => modify (set_ran (S (b_ran b))) ;; ap_boot id addr
  end.
Definition others_run : M (board D) unit :=
  t ← gets b_time;
  modify (set_time (S t)) ;;
  whenM (turn t) run_started.

(** *** The boot processor *)

(** [while(c->started == 0) ;] *)
Fixpoint wait_started (fuel : nat) (i : nat) : M (board D) unit :=
  match fuel with
  | O => fault
  | S n =>
      others_run ;;
      b ← getS;
      match b_cores b !! i with
      | None => fault
      | Some c => if co_started c =? 0 then wait_started n i else ret tt
      end
  end.

Definition code : Z := P2V 0x7000.
Definition startother (fuel : nat) (c : nat) : M (board D) unit :=
  stack ← on_kmem kalloc;
  store_low (code - 4) (u32 (stack + KSTACKSIZE)) ;;
  store_low (code - 8) (l_mpenter L) ;;
  store_low (code - 12) (V2P (l_entrypgdir L)) ;;
  b ← getS;
  match b_cores b !! c with
  | None => fault
  | Some co =>
      on_low (lapicstartap base (c_apicid (co_cpu co)) (V2P code)) ;;
      wait_started fuel c
  end.
(** [fl] and [id] are the flag and the APIC ID of the boot processor. *)
Definition startothers (fuel : nat) (fl : bool) (id : Z) : M (board D) unit :=
  modify (λ b, set_low (ApMach (memmove (ap_mem (b_low b)) code (l_other L) (l_other_size L)) (ap_dev (b_low b))) b) ;;
  n ← gets (λ b, length (b_cores b));
  for_loop n 0 (λ c,
    me ← this_cpu fl id;
    if c =? Z.of_nat me then ret tt else startother fuel (Z.to_nat c)).

(** ** Words in memory *)

Lemma load32_ext m m' a : (∀ x, a ≤ x < a + 4 → m' x = m x) → 0 ≤ a → a + 4 ≤ 2 ^ 32 → load32 m' a = load32 m a.
Proof. intros He H0 H1. unfold load32. rewrite !u32_id by (unfold is_u32; lia). rewrite !He by lia. done. Qed.
Lemma store32_ne m a v x : 0 ≤ a → a + 4 ≤ 2 ^ 32 → x < a ∨ a + 4 ≤ x → store32 m a v x = m x.
Proof. intros H0 H1 Hx. unfold store32. rewrite !u32_id by (unfold is_u32; lia). by rewrite !mset_ne by lia. Qed.
Lemma load_store32 m a v : 0 ≤ a → a + 4 ≤ 2 ^ 32 → is_u32 v → load32 (store32 m a v) a = v.
Proof.
  intros H0 H1 Hv. unfold load32, store32. rewrite !u32_id by (unfold is_u32; lia).
  rewrite mset_eq, (mset_ne _ (a + 3)), (mset_ne _ (a + 2)), (mset_ne _ (a + 1)), mset_eq by lia.
  rewrite (mset_ne _ (a + 3)), (mset_ne _ (a + 2)), mset_eq, (mset_ne _ (a + 3)), mset_eq by lia.
  unfold u8, is_u32 in *. rewrite !Z.shiftr_div_pow2 by lia. Z.to_euclidean_division_equations. lia.
Qed.
Lemma load_store32_ne m a v x : 0 ≤ a → a + 4 ≤ 2 ^ 32 → 0 ≤ x → x + 4 ≤ 2 ^ 32 → x + 4 ≤ a ∨ a + 4 ≤ x →
  load32 (store32 m a v) x = load32 m x.
Proof. intros. apply load32_ext; [|done..]. intros y Hy. apply store32_ne; lia. Qed.

(** ** Assumptions *)

(** The image of entryother.S fits into its page, and the kernel lies in the
    part of memory that the entry page directory maps. *)
Record link_ok : Prop := {
  lk_size : l_other_size L = Z.of_nat (length (l_other_bytes L)) ∧ l_other_size L ≤ PGSIZE;
  lk_other : 0 ≤ l_other L ∧ l_other L + l_other_size L < 2 ^ 32;
  lk_mpenter : KERNBASE ≤ l_mpenter L < KERNBASE + 2 ^ 22;
  lk_dir : KERNBASE + EXTMEM ≤ l_entrypgdir L ∧ l_entrypgdir L + PGSIZE ≤ KERNBASE + 2 ^ 22 ∧ l_entrypgdir L mod PGSIZE = 0;
  lk_tables : is_u32 (l_idt L) ∧ ∀ i, is_u32 (l_gdt L i)
}.

(** An entry of [cpus] before its processor starts. *)
Record fresh (c : core D) : Prop := {
  fr_id : 0 ≤ c_apicid (co_cpu c) < 256;
  fr_started : co_started c = 0;
  fr_gdt : length (gdt (co_gdt c)) = Z.to_nat NSEGS;
  fr_sys : ∀ i, i ∈ [0; SEG_TSS] → desc_s (gdt (co_gdt c) !!! Z.to_nat i) = 0
}.

(** ... and when it is about to call [scheduler]. *)
Record up (kpgdir : Z) (i : nat) (sp : Z) (c c' : core D) : Prop := {
  up_cpu : co_cpu c' = co_cpu c;
  up_started : co_started c' = 1;
  up_cr3 : co_cr3 c' = V2P kpgdir;
  up_gdtr : gdtr (co_gdt c') = Some (8 * NSEGS - 1, l_gdt L i);
  up_gdt : ∀ n, 0 ≤ n < NSEGS → seg_allowed 3 (gdt (co_gdt c') !!! Z.to_nat n) = (n =? SEG_UCODE) || (n =? SEG_UDATA);
  up_idtr : co_idtr c' = Some (8 * 256 - 1, l_idt L);
  up_apic : lapic_ready (la_st (co_dev c)) (la_st (co_dev c'));
  up_esp : co_esp c' = sp
}.

Lemma wp_on_core {A} i c (p : M (core D) A) (Q : A → board D → Prop) b :
  b_cores b !! i = Some c → wp p (λ a c', Q a (set_cores (<[i := c']> (b_cores b)) b)) c → wp (on_core i p) Q b.
Proof. intros Hc Hp. unfold wp, on_core in *. rewrite Hc. by destruct (p c). Qed.

Lemma set_cores_twice i c c' b : set_cores (<[i := c']> (b_cores (set_cores (<[i := c]> (b_cores b)) b))) (set_cores (<[i := c]> (b_cores b)) b) = set_cores (<[i := c']> (b_cores b)) b.
Proof. unfold set_cores. cbn. by rewrite list_insert_insert_eq. Qed.
Lemma core_set i c c' b : b_cores b !! i = Some c → b_cores (set_cores (<[i := c']> (b_cores b)) b) !! i = Some c'.
Proof. intros Hc. cbn. apply list_lookup_insert_eq. by apply lookup_lt_Some in Hc. Qed.

Lemma wp_this_cpu id i (Q : nat → board D → Prop) b :
  find_cpu (co_cpu <$> b_cores b) 0 id = Some i → Q i b → wp (this_cpu false id) Q b.
Proof. intros Hf HQ. unfold this_cpu. wp_step. wp_step. rewrite Hf. by wp_step. Qed.

(** ** mpenter *)

Lemma load_desc_u32 p n : is_u32 p → 1 ≤ n ≤ 2 ^ 16 → load_desc (pseudo_desc p n) = (n - 1, p).
Proof.
  intros Hp Hn. unfold load_desc, pseudo_desc, is_u32 in *. simpl. unfold u16. f_equal; [apply Z.mod_small; lia|].
  rewrite Z.shiftr_div_pow2 by lia. Z.to_euclidean_division_equations. lia.
Qed.

Lemma wp_mpenter id i c b :
  link_ok → base ≠ 0 → b_cores b !! i = Some c → find_cpu (co_cpu <$> b_cores b) 0 id = Some i → fresh c →
  wp (mpenter false id) (λ _ b', ∃ c', b' = set_cores (<[i := c']> (b_cores b)) b ∧ up (b_kpgdir b) i (co_esp c) c c') b.
Proof.
  intros HL Hbase Hc Hf [Hid Hst Hgl Hgs]. destruct (lk_tables HL) as [Hidt Hgdt]. unfold mpenter. wp_step. apply (wp_this_cpu id i); [done|].
  wp_step. unfold load_kpgdir. wp_step. wp_step. apply (wp_on_core i c); [done|]. wp_step.
  wp_step. eapply wp_on_core; [by apply (core_set i c)|]. apply wp_zoom. eapply wp_mono; [by apply wp_seginit|].
  intros [] g [Hgr Hg]. rewrite set_cores_twice. wp_step. eapply wp_on_core; [by apply (core_set i c)|]. apply wp_zoom.
  eapply wp_mono; [by apply wp_lapicinit|]. intros [] d Hd. rewrite set_cores_twice. unfold mpmain. wp_step. wp_step. wp_step.
  eapply wp_on_core; [by apply (core_set i c)|]. apply wp_zoom. unfold idtinit. wp_step. rewrite set_cores_twice.
  eapply wp_on_core; [by apply (core_set i c)|]. wp_step. rewrite set_cores_twice. eexists. split; [done|].
  split; cbn; try done.
  - intros n Hn. by apply Hg.
  - by rewrite load_desc_u32.
Qed.

(** ** A started processor *)

(** Memory as the boot processor leaves it for the other one. *)
Record placed (m : mem) : Prop := {
  pl_image : read_bytes m code (Z.of_nat (length (l_other_bytes L))) = l_other_bytes L;
  pl_dir : pgdir_at (words m) (V2P (l_entrypgdir L))
}.
Record told (m : mem) (sp : Z) : Prop := {
  to_sp : words m (0x7000 - 4) = sp;
  to_fn : words m (0x7000 - 8) = l_mpenter L;
  to_dir : words m (0x7000 - 12) = V2P (l_entrypgdir L)
}.
(** A page that can be a stack: one of the allocator's that the entry page
    directory maps. *)
Definition stack_page (k : kmem) (a : Z) : Prop :=
  page_addr (l_kend L) a ∧ a + PGSIZE ≤ KERNBASE + 2 ^ 22 ∧ ∃ p, km_pages k !! a = Some p ∧ length p = npage.

(** From [b] to [b'] the processor [i] has come up on the stack [a]. *)
Record booted b (i : nat) (c : core D) (a : Z) b' : Prop := {
  bt_low : b_low b' = b_low b;
  bt_kpgdir : b_kpgdir b' = b_kpgdir b;
  bt_cores : ∃ c', b_cores b' = <[i := c']> (b_cores b) ∧ up (b_kpgdir b) i (a + KSTACKSIZE - 4) c c';
  bt_kmem : ∃ p, length p = npage ∧ b_kmem b' = put_page a p (b_kmem b)
}.

Lemma V2P_dir : link_ok → V2P (l_entrypgdir L) = l_entrypgdir L - KERNBASE ∧
  Z.land (V2P (l_entrypgdir L)) 0xfffff000 = V2P (l_entrypgdir L).
Proof.
  intros HL. destruct (lk_dir HL) as (H1 & H2 & H3). unfold V2P, EXTMEM, KERNBASE, PGSIZE in *.
  rewrite u32_id by (unfold is_u32; lia). split; [done|].
  set (x := l_entrypgdir L - 0x80000000). assert (Hx : x = 4096 * (x / 4096)) by (unfold x; Z.to_euclidean_division_equations; lia).
  assert (0 ≤ x / 4096 < 2 ^ 10) by (unfold x; Z.to_euclidean_division_equations; lia).
  rewrite Hx. apply Z.eqb_eq.
  apply (small_cases (λ q, Z.land (4096 * q) 0xfffff000 =? 4096 * q) (2 ^ 10)); [by vm_compute|done].
Qed.

Lemma P2V_dir i : link_ok → 0 ≤ i < 1024 → P2V (V2P (l_entrypgdir L) + 4 * i) = l_entrypgdir L + 4 * i.
Proof.
  intros HL Hi. destruct (V2P_dir HL) as [-> _]. destruct (lk_dir HL) as (Hd1 & Hd2 & _). unfold P2V, KERNBASE, EXTMEM, PGSIZE in *.
  rewrite u32_id by (unfold is_u32; lia). lia.
Qed.

Lemma stack_map a : KERNBASE ≤ a → a + PGSIZE ≤ KERNBASE + 2 ^ 22 → a mod PGSIZE = 0 →
  let sp := a + KSTACKSIZE in
  sp_ok 1 0 sp ∧ is_u32 (sp - 4) ∧ entry_map (sp - 4) = Some (sp - 4 - KERNBASE) ∧
  P2V (sp - 4 - KERNBASE) = sp - 4 ∧ page_of (sp - 4) = a.
Proof.
  intros H1 H2 H3. cbv zeta. unfold KSTACKSIZE, PGSIZE, KERNBASE in *. split_and!.
  - split_and!; Z.to_euclidean_division_equations; lia.
  - unfold is_u32. lia.
  - unfold entry_map, KERNBASE. rewrite (proj2 (Z.ltb_ge _ _)), (proj2 (Z.leb_le _ _)), (proj2 (Z.ltb_lt _ _)) by lia. done.
  - unfold P2V, KERNBASE. rewrite u32_id by (unfold is_u32; lia). lia.
  - unfold page_of, PGSIZE. Z.to_euclidean_division_equations. lia.
Qed.

Lemma wp_ap_boot id i c a b :
  link_ok → base ≠ 0 → placed (ap_mem (b_low b)) → told (ap_mem (b_low b)) (a + KSTACKSIZE) → stack_page (b_kmem b) a →
  b_cores b !! i = Some c → find_cpu (co_cpu <$> b_cores b) 0 id = Some i → fresh c →
  wp (ap_boot id 0x7000) (λ _ b', booted b i c a b' ∧ b_ran b' = b_ran b ∧ b_time b' = b_time b) b.
Proof.
  intros HL Hbase [Himg Hdir] [Hsp Hfn Hpd] ((Hal & _ & Hrng) & Htop & p & Hp & Hlp) Hc Hf Hfr. unfold ap_boot. wp_step. wp_step.
  change (P2V 0x7000) with code. rewrite bool_decide_true by done. cbn [negb].
  destruct (V2P_dir HL) as [Ed Hd]. destruct (lk_dir HL) as (Hd1 & Hd2 & _). destruct (lk_mpenter HL) as [Hm1 Hm2].
  destruct (stack_map a) as (Hspok & Hspu & Hmap & Hp2v & Hpg); [lia|done|done|].
  pose proof (other_reaches_mpenter upper alu_flags 0x7000 (0x7000 + l_off32 L) (0x7000 + l_off_next L) (reset_machine 0x7000 (ap_mem (b_low b)))) as Hw.
  cbn [m_mem reset_machine] in Hw. rewrite Hsp, Hfn, Hpd in Hw. cbv zeta in Hw.
  specialize (Hw eq_refl Hspok Hdir Hd). apply wp_ok in Hw as ([] & s & -> & He & Hr & Hm & Hpm & Htr).
  2: { right. rewrite Ed. unfold KSTACKSIZE, PGSIZE, KERNBASE, EXTMEM in *. lia. }
  rewrite Hr, He, !Htr, Hmap by (unfold is_u32, KERNBASE in *; lia).
  assert (entry_map (l_mpenter L) = Some (l_mpenter L - KERNBASE)) as ->.
  { unfold entry_map. rewrite (proj2 (Z.ltb_ge _ _)), (proj2 (Z.leb_le _ _)), (proj2 (Z.ltb_lt _ _)); [done|unfold KERNBASE in *; lia..]. }
  rewrite Z.eqb_refl, Hp2v. wp_step. apply wp_zoom. apply (wp_store_word _ _ p); [by rewrite Hpg|]. rewrite Hpg.
  wp_step. apply (wp_this_cpu id i); [done|]. wp_step. apply (wp_on_core i c); [done|]. wp_step. rewrite (pm_if _ Hpm).
  set (b1 := set_cores _ _). eapply wp_mono; [apply (wp_mpenter id i (with_esp (a + KSTACKSIZE - 4) c)); try done|].
  - unfold b1. by apply (core_set i c).
  - cbn. rewrite list_fmap_insert. cbn. rewrite list_insert_id; [done|]. by rewrite list_lookup_fmap, Hc.
  - by destruct Hfr.
  - intros [] b' (c' & -> & Hup). unfold b1. split; [|done]. split; cbn; [done|done|..].
    + exists c'. rewrite list_insert_insert_eq. split; [done|]. by destruct Hup.
    + eexists. split; [|done]. unfold put_u32. rewrite length_put_le; [done|]. rewrite Hlp. unfold npage, PGSIZE, KSTACKSIZE in *.
      Z.to_euclidean_division_equations. lia.
Qed.

(** Every read of the flag is followed within [fuel] reads by a turn of the
    other processor. *)
Definition fair (fuel : nat) : Prop := ∀ t, ∃ k, (k < fuel)%nat ∧ turn (t + k) = true.

Lemma wp_wait_started fuel id i c a b :
  link_ok → base ≠ 0 → placed (ap_mem (b_low b)) → told (ap_mem (b_low b)) (a + KSTACKSIZE) → stack_page (b_kmem b) a →
  b_cores b !! i = Some c → find_cpu (co_cpu <$> b_cores b) 0 id = Some i → fresh c →
  a_started (la_st (ap_dev (b_low b))) !! b_ran b = Some (id, 0x7000) → (∃ k, (k < fuel)%nat ∧ turn (b_time b + k) = true) →
  wp (wait_started fuel i) (λ _ b', booted b i c a b' ∧ b_ran b' = S (b_ran b)) b.
Proof.
  intros HL Hbase Hpl Hto Hst Hc Hf Hfr. remember (b_time b) as t eqn:Ht. revert t b Hpl Hto Hst Hc Hf Ht.
  induction fuel as [|n IH]; intros t b Hpl Hto Hst Hc Hf -> Hs (k & Hk & Htk); [lia|]. cbn [wait_started]. wp_step. unfold others_run.
  wp_step. wp_step. wp_step. wp_step. unfold whenM. destruct (turn (b_time b)) eqn:Et.
  - unfold run_started. wp_step. wp_step. cbn. rewrite Hs. wp_step. wp_step.
    eapply wp_mono; [by apply (wp_ap_boot id i c a)|]. intros [] b' [[H1 H2 (c' & H3 & H4) H5] [H6 _]]. wp_step. wp_step.
    cbn in H3. rewrite H3, list_lookup_insert_eq by (by apply lookup_lt_Some in Hc). rewrite (up_started _ _ _ _ _ H4). change (1 =? 0) with false. cbn match. wp_step.
    split; [|done]. by split; [done|done|exists c'|].
  - wp_step. wp_step. wp_step. cbn. rewrite Hc, (fr_started _ Hfr). change (0 =? 0) with true. cbn match.
    destruct k as [|k]; [by rewrite Nat.add_0_r, Et in Htk|].
    eapply wp_mono; [apply (IH (S (b_time b)) (set_time (S (b_time b)) b)); try done|].
    + exists k. split; [lia|]. by rewrite <- plus_n_Sm in Htk.
    + intros [] b' [[H1 H2 H3 H4] H5]. by split.
Qed.

(** ** startothers *)

Lemma placed_ext m m' : link_ok → (∀ x, code ≤ x → m' x = m x) → placed m → placed m'.
Proof.
  intros HL He [Hi Hd]. destruct (lk_dir HL) as (Hd1 & Hd2 & _). split.
  - etrans; [|exact Hi]. apply read_bytes_ext. intros j Hj. apply He. lia.
  - intros j e Hj. rewrite <- (Hd j e Hj). apply lookup_lt_Some in Hj. change (length entrypgdir) with 1024%nat in Hj.
    unfold words. rewrite P2V_dir by (done || lia). unfold KERNBASE, EXTMEM, PGSIZE in *.
    apply load32_ext; [|lia..]. intros x Hx. apply He. change code with 0x80007000. lia.
Qed.

(** The three words below the code, after the stores and the reset vector. *)
Lemma told_stored m m' sp : link_ok → is_u32 sp →
  (∀ x, (x < P2V 0x467 ∨ P2V 0x46B ≤ x) →
     m' x = store32 (store32 (store32 m (code - 4) sp) (code - 8) (l_mpenter L)) (code - 12) (V2P (l_entrypgdir L)) x) →
  told m' sp.
Proof.
  intros HL Hsp He. destruct (lk_mpenter HL) as [Hm1 Hm2]. change (P2V 0x46B) with 0x8000046B in He.
  change code with 0x80007000 in He.
  assert (Hl : ∀ a, 0x8000046B ≤ a → a + 4 ≤ 2 ^ 32 → load32 m' a = load32 (store32 (store32 (store32 m (0x80007000 - 4) sp) (0x80007000 - 8) (l_mpenter L)) (0x80007000 - 12) (V2P (l_entrypgdir L))) a).
  { intros a H1 H2. apply load32_ext; [|lia..]. intros x Hx. apply He. right. lia. }
  split; unfold words.
  - change (P2V (0x7000 - 4)) with (0x80007000 - 4). rewrite Hl, !load_store32_ne by lia. by apply load_store32.
  - change (P2V (0x7000 - 8)) with (0x80007000 - 8). rewrite Hl, load_store32_ne by lia. apply load_store32; [lia..|].
    unfold is_u32, KERNBASE in *. lia.
  - change (P2V (0x7000 - 12)) with (0x80007000 - 12). rewrite Hl by lia. apply load_store32; [lia..|]. apply u32_range.
Qed.

Lemma wp_startother fuel i c a free b :
  link_ok → base ≠ 0 → fair fuel → placed (ap_mem (b_low b)) → kmem_ok (l_kend L) (b_kmem b) (a :: free) → a + PGSIZE ≤ KERNBASE + 2 ^ 22 →
  b_cores b !! i = Some c → find_cpu (co_cpu <$> b_cores b) 0 (c_apicid (co_cpu c)) = Some i → fresh c →
  b_ran b = length (a_started (la_st (ap_dev (b_low b)))) →
  wp (startother fuel i) (λ _ b', placed (ap_mem (b_low b')) ∧ kmem_ok (l_kend L) (b_kmem b') free ∧ b_kpgdir b' = b_kpgdir b ∧
    (∃ c', b_cores b' = <[i := c']> (b_cores b) ∧ up (b_kpgdir b) i (a + KSTACKSIZE - 4) c c') ∧
    a_started (la_st (ap_dev (b_low b'))) = a_started (la_st (ap_dev (b_low b))) ++ [(c_apicid (co_cpu c), 0x7000)] ∧
    b_ran b' = length (a_started (la_st (ap_dev (b_low b'))))) b.
Proof.
  intros HL Hbase Hfair Hpl Hk Htop Hc Hf Hfr Hran. pose proof (ko_addr _ _ _ Hk) as Ha. inversion Ha as [|? ? Hpa _]; subst.
  pose proof (ko_nodup _ _ _ Hk) as Hnd. inversion Hnd as [|? ? Hni _]; subst. destruct (ko_all _ _ _ Hk a Hpa) as [p Hp].
  pose proof (ko_pages _ _ _ Hk a p Hp) as Hlp.
  assert (Hsp : is_u32 (a + KSTACKSIZE)) by (destruct Hpa as (_ & _ & ? & _); unfold is_u32, KSTACKSIZE, PGSIZE, KERNBASE in *; lia).
  unfold startother. wp_step. apply wp_zoom. apply (wp_kalloc (l_kend L) _ (a :: free)); [done|]. intros next Hk'.
  rewrite (u32_id (a + KSTACKSIZE)) by done. unfold store_low. do 8 wp_step. cbn. rewrite Hc. wp_step. apply wp_zoom. cbn. change (V2P code) with (7 * 4096).
  eapply wp_mono; [apply (lapicstartap_correct base polls (c_apicid (co_cpu c)) 7); [by apply (fr_id _ Hfr)|done]|]. cbn.
  intros [] s (Hst & _ & _ & _ & Hm). eapply wp_mono.
  - apply (wp_wait_started fuel (c_apicid (co_cpu c)) i c a); try done; cbn.
    + eapply placed_ext; [done| |exact Hpl]. intros x Hx. change code with 0x80007000 in *.
      rewrite Hm by (right; change (P2V 0x46B) with 0x8000046B; lia). by rewrite !store32_ne by lia.
    + by eapply told_stored.
    + split; [done|]. split; [done|]. by exists p.
    + by rewrite Hst, Hran, list_lookup_middle.
  - intros [] b' [[H1 H2 H3 (p' & Hp' & H4)] H5]. cbn in *. rewrite H1. split_and!; try done.
    + eapply placed_ext; [done| |exact Hpl]. intros x Hx. change code with 0x80007000 in *.
      rewrite Hm by (right; change (P2V 0x46B) with 0x8000046B; lia). by rewrite !store32_ne by lia.
    + rewrite H4. by apply put_page_ok.
    + rewrite H5, Hst, Hran, length_app. simpl. lia.
Qed.

(** How many processors other than [me] come before [i]. *)
Definition rank (me i : nat) : nat := if decide (i ≤ me)%nat then i else pred i.

Lemma delete_take_S {A} (l : list A) me k x : l !! k = Some x →
  delete me (take (S k) l) = if decide (k = me) then delete me (take k l) else delete me (take k l) ++ [x].
Proof.
  intros Hx. pose proof (lookup_lt_Some _ _ _ Hx). rewrite !delete_take_drop, (take_S_r _ _ x Hx). case_decide as E.
  - subst. rewrite take_app_le, !drop_ge; [done|rewrite ?length_app, ?length_take; simpl; lia..].
  - destruct (decide (k < me)%nat).
    + rewrite (take_ge (take k l ++ [x])), (take_ge (take k l)), !drop_ge; [by rewrite !app_nil_r|rewrite ?length_app, ?length_take; simpl; lia..].
    + rewrite take_app_le, drop_app_le by (rewrite length_take; lia). by rewrite (assoc_L (++)).
Qed.

(** The board before [startothers], with [me] the boot processor. *)
Record boot_board (me : nat) (id : Z) (free : list Z) b : Prop := {
  bb_dir : pgdir_at (words (ap_mem (b_low b))) (V2P (l_entrypgdir L));
  bb_image : read_bytes (ap_mem (b_low b)) (l_other L) (l_other_size L) = l_other_bytes L;
  bb_kmem : kmem_ok (l_kend L) (b_kmem b) free;
  bb_low4 : Forall (λ a, a + PGSIZE ≤ KERNBASE + 2 ^ 22) free;
  bb_enough : (length (b_cores b) ≤ S (length free))%nat;
  bb_ids : NoDup (c_apicid ∘ co_cpu <$> b_cores b);
  bb_me : ∃ c, b_cores b !! me = Some c ∧ c_apicid (co_cpu c) = id;
  bb_fresh : ∀ i c, b_cores b !! i = Some c → i ≠ me → fresh c;
  bb_ran : b_ran b = length (a_started (la_st (ap_dev (b_low b))))
}.

(** After the first [k] turns of the loop. *)
Record started_to (me : nat) (free : list Z) b0 (k : nat) b : Prop := {
  sd_placed : placed (ap_mem (b_low b));
  sd_kmem : kmem_ok (l_kend L) (b_kmem b) (drop (rank me k) free);
  sd_kpgdir : b_kpgdir b = b_kpgdir b0;
  sd_len : length (b_cores b) = length (b_cores b0);
  sd_core i c : b_cores b0 !! i = Some c → ∃ c', b_cores b !! i = Some c' ∧
    if decide (i < k ∧ i ≠ me)%nat
    then ∃ a, free !! rank me i = Some a ∧ up (b_kpgdir b0) i (a + KSTACKSIZE - 4) c c' else c' = c;
  sd_sent : a_started (la_st (ap_dev (b_low b))) =
    a_started (la_st (ap_dev (b_low b0))) ++ ((λ c, (c_apicid (co_cpu c), 0x7000)) <$> delete me (take k (b_cores b0)));
  sd_ran : b_ran b = length (a_started (la_st (ap_dev (b_low b))))
}.

Lemma started_cpus me free b0 k b : started_to me free b0 k b → co_cpu <$> b_cores b = co_cpu <$> b_cores b0.
Proof.
  intros Hs. apply list_eq. intros i. rewrite !list_lookup_fmap. destruct (b_cores b0 !! i) as [c|] eqn:E.
  - destruct (sd_core _ _ _ _ _ Hs i c E) as (c' & -> & Hc). simpl. f_equal.
    destruct (decide _) as [_|_]; [|by subst]. destruct Hc as (a & _ & Hu). by apply (up_cpu _ _ _ _ _ Hu).
  - apply lookup_ge_None in E. by rewrite (proj2 (lookup_ge_None _ _)) by (rewrite (sd_len _ _ _ _ _ Hs); lia).
Qed.

Lemma started_next me id free b0 k c fuel b : link_ok → base ≠ 0 → fair fuel → boot_board me id free b0 →
  b_cores b0 !! k = Some c → started_to me free b0 k b →
  wp (if Z.of_nat k =? Z.of_nat me then ret tt else startother fuel k) (λ _, started_to me free b0 (S k)) b.
Proof.
  intros HL Hbase Hfair [Hdir Himg Hk Hlow Hen Hids Hme Hfr Hran0] Hc Hs. pose proof (started_cpus _ _ _ _ _ Hs) as Hcpu.
  destruct Hs as [Hpl Hkm Hkp Hlen Hco Hsent Hran]. destruct (Z.of_nat k =? Z.of_nat me) eqn:E; bool_props.
  - apply Nat2Z.inj in E as ->. wp_step. split; try done.
    + assert (rank me (S me) = rank me me) as ->; [|done]. unfold rank. rewrite decide_False, decide_True by lia. done.
    + intros i ci Hi. destruct (Hco i ci Hi) as (c' & Hc' & Hx). exists c'. split; [done|].
      destruct (decide (i < me ∧ i ≠ me)%nat), (decide (i < S me ∧ i ≠ me)%nat); (done || lia).
    + rewrite (delete_take_S _ _ _ _ Hc), decide_True by done. done.
  - assert (Hkm' : k ≠ me) by lia. pose proof (lookup_lt_Some _ _ _ Hc) as Hkl. destruct Hme as (cm & Hm & _).
    pose proof (lookup_lt_Some _ _ _ Hm) as Hml.
    assert (Hrl : (rank me k < length free)%nat) by (unfold rank; case_decide; lia).
    assert (HrS : rank me (S k) = S (rank me k)) by (unfold rank; repeat case_decide; lia).
    destruct (lookup_lt_is_Some_2 _ _ Hrl) as [a Ha]. rewrite (drop_S _ _ _ Ha) in Hkm.
    destruct (Hco k c Hc) as (c' & Hc' & Hx). rewrite decide_False in Hx by lia. subst c'.
    eapply wp_mono; [apply (wp_startother fuel k c a (drop (S (rank me k)) free)); try done|].
    + by apply (Forall_lookup_1 _ _ _ _ Hlow Ha).
    + rewrite Hcpu. apply (ids_found _ (c_apicid <$> (co_cpu <$> b_cores b0))); [done|by rewrite <- list_fmap_compose|].
      by rewrite !list_lookup_fmap, Hc.
    + by apply (Hfr k).
    + intros [] b' (H1 & H2 & H3 & (c' & H4 & H5) & H6 & H7). split; try done.
      * by rewrite HrS.
      * by rewrite H3.
      * by rewrite H4, length_insert.
      * intros i ci Hi. rewrite H4. destruct (decide (i = k)) as [->|Hne].
        -- rewrite list_lookup_insert_eq by (rewrite Hlen; lia). exists c'. split; [done|]. rewrite decide_True by lia.
           exists a. split; [done|]. rewrite Hc in Hi. injection Hi as <-. by rewrite <- Hkp.
        -- rewrite list_lookup_insert_ne by done. destruct (Hco i ci Hi) as (x & Hx & Hy). exists x. split; [done|].
           destruct (decide (i < k ∧ i ≠ me)%nat), (decide (i < S k ∧ i ≠ me)%nat); (done || lia).
      * rewrite H6, Hsent, (delete_take_S _ _ _ _ Hc), decide_False by done. by rewrite fmap_app, (assoc_L (++)).
Qed.

Lemma started_0 me id free b : link_ok → boot_board me id free b →
  started_to me free b 0 (set_low (ApMach (memmove (ap_mem (b_low b)) code (l_other L) (l_other_size L)) (ap_dev (b_low b))) b).
Proof.
  intros HL [Hdir Himg Hk Hlow Hen Hids Hme Hfr Hran]. destruct (lk_size HL) as [Hsz Hle]. destruct (lk_other HL) as [Ho1 Ho2].
  assert (Hmv : ∀ x, memmove (ap_mem (b_low b)) code (l_other L) (l_other_size L) x = if (code <=? x) && (x <? code + l_other_size L)
    then ap_mem (b_low b) (l_other L + (x - code)) else ap_mem (b_low b) x).
  { intros x. apply memmove_spec; change code with 0x80007000; unfold PGSIZE in *; lia. }
  split; cbn; try done.
  - split.
    + rewrite <- Himg, Himg, <- Hsz. etrans; [|exact Himg]. apply read_bytes_ext. intros i Hi. rewrite Hmv.
      rewrite (proj2 (Z.leb_le _ _)), (proj2 (Z.ltb_lt _ _)) by lia. cbn. f_equal. lia.
    + intros i e Hi. rewrite <- (Hdir i e Hi). apply lookup_lt_Some in Hi. change (length entrypgdir) with 1024%nat in Hi.
      destruct (lk_dir HL) as (Hd1 & Hd2 & _). unfold words. rewrite P2V_dir by (done || lia). unfold KERNBASE, EXTMEM, PGSIZE in *.
      apply load32_ext; [|lia..]. intros x Hx. rewrite Hmv, (proj2 (Z.ltb_ge _ _)), andb_false_r; [done|].
      change code with 0x80007000. lia.
  - intros i c Hi. exists c. split; [done|]. by rewrite decide_False by lia.
  - by rewrite app_nil_r.
Qed.


(** The kernel's page table, when there were pages for it. *)
Lemma wp_kvmalloc i c free b : kmem_ok (l_kend L) (b_kmem b) free → b_cores b !! i = Some c →
  KERNBASE < l_kend L → KERNLINK < l_kdata L < KERNBASE + PHYSTOP ∧ l_kdata L mod PGSIZE = 0 →
  wp (kvmalloc i) (λ _ b', b_cores b' !! i = Some (with_cr3 (V2P (b_kpgdir b')) c) ∧
    (b_kpgdir b' ≠ 0 → kernel_part (l_kdata L) (b_kmem b') (b_kpgdir b'))) b.
Proof.
  intros Hk Hc Hend Hdata. unfold kvmalloc, load_kpgdir. wp_step. apply wp_zoom. eapply wp_mono; [by apply (wp_setupkvm (l_kend L) Hend (l_kdata L) Hdata _ free)|].
  intros d k' Hd. wp_step. wp_step. wp_step. wp_step. apply (wp_on_core i c); [done|]. wp_step. split; [by apply (core_set i c)|].
  cbn. intros Hne. destruct Hd as [(_ & f & _ & _ & _ & Hkp)|[? _]]; done.
Qed.

(** Until [kinit2], which [main] calls after [startothers], all free pages are
    in the part of memory that the entry page directory maps: whatever the
    allocator hands out can be a stack. *)
Lemma kinit1_low k : KERNBASE ≤ l_kend L ≤ P2V (4 * 1024 * 1024) →
  (∀ a p, km_pages k !! a = Some p → length p = npage) → (∀ a, page_addr (l_kend L) a → is_Some (km_pages k !! a)) → km_freelist k = 0 →
  wp (kinit1 (l_kend L) (l_kend L) (P2V (4 * 1024 * 1024))) (λ _ k', ∃ free, kmem_ok (l_kend L) k' free ∧
    Forall (λ a, a + PGSIZE ≤ KERNBASE + 2 ^ 22) free) k.
Proof.
  intros Hend Hlen Hall Hf. change (P2V (4 * 1024 * 1024)) with (KERNBASE + 4194304) in *. unfold kinit1. do 4 wp_step. eapply wp_mono.
  { apply (wp_freerange (l_kend L) (l_kend L) (KERNBASE + 4194304) _ []); try done; try (unfold PHYSTOP; lia).
    - split; try done; by constructor.
    - intros x _ _. apply not_elem_of_nil. }
  intros [] k1 (_ & l & Hk & Hl). exists l. split; [done|]. apply Forall_forall. intros a Ha. apply Hl in Ha as [Ha|[[Hm _] Hr]].
  { by apply elem_of_nil in Ha. }
  unfold PGSIZE, KERNBASE in *. Z.to_euclidean_division_equations. lia.
Qed.
End main.

(** ** A board *)

(** Two processors; the entry page directory at 0x109000, the first bytes of
    entryother.S at 0x10a000. *)
Definition demo_linked : linked :=
  Linked boot_end (P2V 0x108000) (P2V 0x103a80) (P2V 0x109000) (P2V 0x10a000) 5 [0xfa; 0x31; 0xc0; 0x8e; 0xd8] 0x20 0x70
    (P2V 0x10c000) (λ i, P2V (0x10d000 + 176 * Z.of_nat i)).
Definition demo_low : mem := λ x,
  if (0x80109000 <=? x) && (x <? 0x8010a000) then u8 (Z.shiftr (entrypgdir !!! Z.to_nat ((x - 0x80109000) / 4)) (8 * (x mod 4)))
  else if (0x8010a000 <=? x) && (x <? 0x8010a005) then l_other_bytes demo_linked !!! Z.to_nat (x - 0x8010a000) else 0.
Definition demo_core (id : Z) : core demo_lapic :=
  Core (Cpu id 0 false) 0 (Gdtst (replicate 6 0) None) None 0 (DemoLapic (Apic ∅ 0 ∅ [])) 0.
Definition demo_stack : Z := KERNBASE + 0x300000.
Definition demo_board : board demo_lapic :=
  Board (freed demo_stack boot_kmem) (ApMach demo_low (DemoLapic (Apic ∅ 0 ∅ []))) [demo_core 0; demo_core 3]
    (replicate 256 0, Spinlock 0 "time" None []) (P2V 0x3ff000) 0 0.

Lemma demo_linked_ok : link_ok demo_linked.
Proof.
  split.
  - done.
  - by vm_compute.
  - by vm_compute.
  - vm_compute. split_and!; done.
  - split; [by vm_compute|]. intros i. apply u32_range.
Qed.
Lemma demo_low_dir : pgdir_at (words demo_low) (V2P (l_entrypgdir demo_linked)).
Proof.
  assert (Hall : ∀ i, 0 ≤ i < 1024 → (words demo_low (0x109000 + 4 * i) =? entrypgdir !!! Z.to_nat i) = true)
    by (apply (small_cases (λ i, words demo_low (0x109000 + 4 * i) =? entrypgdir !!! Z.to_nat i)); by vm_compute).
  intros i e Hi. pose proof (lookup_lt_Some _ _ _ Hi) as Hl. change (length entrypgdir) with 1024%nat in Hl.
  specialize (Hall (Z.of_nat i) ltac:(lia)). apply Z.eqb_eq in Hall. change (V2P (l_entrypgdir demo_linked)) with 0x109000.
  rewrite Hall, Nat2Z.id. by apply list_lookup_total_correct.
Qed.
Lemma demo_board_ok : boot_board LAPIC_BASE 1 demo_linked 0 0 [demo_stack] demo_board.
Proof.
  split.
  - apply demo_low_dir.
  - by vm_compute.
  - apply freed_ok; [|set_solver|apply boot_kmem_ok]. unfold page_addr. by vm_compute.
  - by repeat constructor.
  - simpl. lia.
  - by apply (bool_decide_unpack _).
  - by exists (demo_core 0).
  - intros [|[|i]] c Hi Hne; simpl in Hi; [done| |done]. injection Hi as <-. split; [simpl; lia|done|done|].
    intros i Hi. by repeat (apply elem_of_cons in Hi as [->|Hi]; [done|]); apply elem_of_nil in Hi.
  - done.
Qed.

(** The other processor gets every third turn. *)
Definition demo_turn (t : nat) : bool := (t mod 3 =? 2)%nat.
Lemma demo_fair : fair demo_turn 3.
Proof.
  intros t. exists (2 - t mod 3)%nat. pose proof (Nat.mod_upper_bound t 3 ltac:(lia)). split; [lia|]. apply Nat.eqb_eq.
  pose proof (Nat.div_mod_eq t 3). replace (t + (2 - t mod 3))%nat with (2 + t / 3 * 3)%nat by lia. by rewrite Nat.Div0.mod_add.
Qed.

