(* ===== verification/Printf.v ===== *)
(** * Formatted output of user programs (printf.c)

    [printf] writes one byte at a time, so its effect on a file descriptor is the
    list of the bytes it writes, whether or not the descriptor accepts them.  A
    format that asks for an argument that was not passed is undefined behaviour,
    [None]. *)

From S2P Require Import Prelude Words CString Format.

Definition udigits : list Z := [48; 49; 50; 51; 52; 53; 54; 55; 56; 57; 65; 66; 67; 68; 69; 70].

(** The bytes [printint(fd, xx, base, sgn)] writes. *)
Definition uprintint (xx base : Z) (sgn : bool) : list Z := int_chars udigits xx base sgn.

(** The loop on the format; [state] tells whether a percent sign came before. *)
Fixpoint printf_from (state : Z) (fmt : list Z) (args : list parg) : option (list Z) :=
  match fmt with
  | [] => Some []
  | c :: fmt' =>
      if state =? 0 then
        if c =? 37 then printf_from 37 fmt' args
        else (λ out, c :: out) <$> printf_from 0 fmt' args
      else if state =? 37 then
        if c =? 100 then
          match args with
          | PInt x :: args' => (λ out, uprintint (i32 x) 10 true ++ out) <$> printf_from 0 fmt' args'
          | _ => None
          end
        else if (c =? 120) || (c =? 112) then
          match args with
          | PInt x :: args' => (λ out, uprintint (i32 x) 16 false ++ out) <$> printf_from 0 fmt' args'
          | _ => None
          end
        else if c =? 115 then
          match args with
          | PStr s :: args' => (λ out, str_of (PStr s) ++ out) <$> printf_from 0 fmt' args'
          | _ => None
          end
        else if c =? 99 then
          match args with
          | PInt x :: args' => (λ out, u8 x :: out) <$> printf_from 0 fmt' args'
          | _ => None
          end
        else if c =? 37 then (λ out, c :: out) <$> printf_from 0 fmt' args
        else (λ out, 37 :: c :: out) <$> printf_from 0 fmt' args
      else printf_from state fmt' args
  end.

(** The bytes [printf(fd, fmt, ...)] writes to [fd]; the format without its NUL. *)
Definition printf (fmt : list Z) (args : list parg) : option (list Z) := printf_from 0 fmt args.

(** ** What a format means *)

(** A piece of a format: a character that stands for itself, or a conversion with
    the argument it consumes. *)
Inductive piece :=
| Lit (c : Z)
| Percent
| Dec (x : Z)
| Hex (x : Z)
| Ptr (x : Z)
| Str (s : option (list Z))
| Chr (x : Z).

Definition piece_fmt (p : piece) : list Z :=
  match p with
  | Lit c => [c] | Percent => [37; 37] | Dec _ => [37; 100] | Hex _ => [37; 120] | Ptr _ => [37; 112] | Str _ => [37; 115] | Chr _ => [37; 99]
  end.
Definition piece_args (p : piece) : list parg :=
  match p with Dec x | Hex x | Ptr x | Chr x => [PInt x] | Str s => [PStr s] | _ => [] end.
Definition piece_text (p : piece) : list Z :=
  match p with
  | Lit c => [c]
  | Percent => [37]
  | Dec x => int_chars udigits (i32 x) 10 true
  | Hex x | Ptr x => int_chars udigits (i32 x) 16 false
  | Str (Some s) => s
  | Str None => null_str
  | Chr x => [u8 x]
  end.
Definition piece_ok (p : piece) : Prop := match p with Lit c => c ≠ 37 | _ => True end.

(** [printf] writes exactly the text its format describes: for any sequence
    of literal characters and conversions, given the arguments the conversions
    ask for, the bytes written are the texts of the pieces in order. *)
Theorem printf_correct l : Forall piece_ok l →
  printf (concat (piece_fmt <$> l)) (concat (piece_args <$> l)) = Some (concat (piece_text <$> l)).
Proof.
  unfold printf. induction 1 as [|p l Hp Hl IH]; [done|]. rewrite !fmap_cons, !concat_cons. revert IH.
  generalize (concat (piece_fmt <$> l)), (concat (piece_args <$> l)), (concat (piece_text <$> l)). intros fmt args text IH.
  destruct p as [c| |x|x|x|[s|]|x]; simpl in Hp |- *.
  { rewrite (proj2 (Z.eqb_neq c 37)) by done. by rewrite IH. }
  all: by rewrite IH.
Qed.

Lemma printf_correct_witness :
  printf (concat (piece_fmt <$> [Lit 120; Lit 61; Dec (-42 mod 2 ^ 32); Lit 32; Hex 255; Str None]))
    (concat (piece_args <$> [Lit 120; Lit 61; Dec (-42 mod 2 ^ 32); Lit 32; Hex 255; Str None]))
  = Some [120; 61; 45; 52; 50; 32; 70; 70; 40; 110; 117; 108; 108; 41].
Proof.
  apply (printf_correct [Lit 120; Lit 61; Dec (-42 mod 2 ^ 32); Lit 32; Hex 255; Str None]). repeat constructor; discriminate.
Defined.

(** Numbers survive printing and parsing: for every [int] that is not
    negative, [atoi] of what [printf("%d")] writes is the number again. *)
Theorem printf_atoi n : 0 ≤ n < 2 ^ 31 →
  ∃ out, printf [37; 100] [PInt n] = Some out ∧ atoi 33 (ptr_of out) = Some n ∧ (length out ≤ 11)%nat.
Proof.
  intros Hn. exists (int_chars udigits n 10 true). split; [|split].
  - unfold printf, uprintint. simpl. unfold uprintint. rewrite app_nil_r, i32_id by (unfold is_i32; lia). done.
  - apply atoi_int_chars; [|done]. intros d Hd. assert (Hc : d ∈ [0; 1; 2; 3; 4; 5; 6; 7; 8; 9]) by (rewrite !elem_of_cons; lia).
    rewrite !elem_of_cons, elem_of_nil in Hc. by decompose [or] Hc; subst.
  - apply int_chars_fit. by left.
Qed.

Lemma printf_atoi_witness :
  ∃ out, printf [37; 100] [PInt 2147483647] = Some out ∧ atoi 33 (ptr_of out) = Some 2147483647 ∧ (length out ≤ 11)%nat.
Proof. apply (printf_atoi 2147483647). split; [discriminate|reflexivity]. Defined.
