(* ===== verification/Uprog.v ===== *)
(** * User programs (cat.c, wc.c, echo.c, ls.c, rm.c, mkdir.c, ln.c, kill.c, forktest.c, zombie.c, stressfs.c; gets and stat of ulib.c)

    A program sees the kernel through its system calls, [UserOS]: what they
    return is up to the system.  A function of a program returns [true], or
    [false] when it has called [exit]. *)

From S2P Require Import Prelude Words Params CString Format Printf Fs.

Class UserOS (S : Type) := {
  u_open : list Z → Z → M S Z;
  u_read : Z → Z → M S (Z * list Z);
  u_write : Z → list Z → M S Z;
  u_close : Z → M S Z;
  u_fstat : Z → M S (Z * stat);
  u_unlink : list Z → M S Z;
  u_mkdir : list Z → M S Z;
  u_link : list Z → list Z → M S Z;
  u_kill : Z → M S Z
}.

(** The calls that make processes and devices.  [u_fork] gives the result in
    the parent; [u_exec] is true when the program took the place of the
    caller. *)
Class ProcOS (S : Type) := {
  u_fork : M S Z;
  u_exec : list Z → list (list Z) → M S bool;
  u_wait : M S Z;
  u_sleep : Z → M S Z;
  u_mknod : list Z → Z → Z → M S Z;
  u_dup : Z → M S Z;
  u_chdir : list Z → M S Z
}.

Section uprog.
Context {S : Type} `{UserOS S}.

(** [printf(fd, fmt, ...)]: one [write] per byte. *)
Fixpoint put_all (fd : Z) (bytes : list Z) : M S unit :=
  match bytes with
  | [] => ret tt
  | c :: rest => _ ← u_write fd [c]; put_all fd rest
  end.
Definition uprintf (fd : Z) (fmt : list Z) (args : list parg) : M S unit :=
  match printf fmt args with
  | Some bytes => put_all fd bytes
  | None => fault
  end.
Definition arg_str (s : list Z) : parg := PStr (Some s).

(** ** ulib.c *)

(** The loop of [gets]: the bytes put in the buffer from index [i] on. *)
Fixpoint gets_from (fuel : nat) (i max : Z) : M S (list Z) :=
  match fuel with
  | O => fault
  | Datatypes.S f =>
      if i + 1 <? max then
        r ← u_read 0 1;
        let '(cc, bytes) := r in
        if cc <? 1 then ret [] else
        let c := bytes !!! 0%nat in
        if (c =? 10) || (c =? 13) then ret [c] else
        rest ← gets_from f (i + 1) max;
        ret (c :: rest)
      else ret []
  end.
Definition ugets (max : Z) : M S (list Z) :=
  l ← gets_from (Datatypes.S (Z.to_nat max)) 0 max;
  ret (l ++ [0]).

Definition no_stat : stat := Stat 0 0 0 0 0.
Definition ustat (n : list Z) : M S (Z * stat) :=
  fd ← u_open n O_RDONLY;
  if fd <? 0 then ret (-1, no_stat) else
  r ← u_fstat fd;
  _ ← u_close fd;
  ret r.

(** ** cat.c *)

Fixpoint cat_from (fuel : nat) (fd : Z) : M S bool :=
  match fuel with
  | O => fault
  | Datatypes.S f =>
      r ← u_read fd 512;
      let '(n, buf) := r in
      if 0 <? n then
        w ← u_write 1 buf;
        if negb (w =? n) then uprintf 1 (lit "cat: write error" ++ lf) [] ;; ret false
        else cat_from f fd
      else if n <? 0 then uprintf 1 (lit "cat: read error" ++ lf) [] ;; ret false
      else ret true
  end.

(** The loop of the three programs that open each argument in turn. *)
Fixpoint each_file (who : list Z) (work : Z → list Z → M S bool) (argv : list (list Z)) : M S unit :=
  match argv with
  | [] => ret tt
  | a :: rest =>
      fd ← u_open a 0;
      if fd <? 0 then uprintf 1 (who ++ lit ": cannot open %s" ++ lf) [arg_str a] else
      ok ← work fd a;
      if negb ok then ret tt else
      _ ← u_close fd;
      each_file who work rest
  end.

(** [argv] without the name of the program. *)
Definition cat_main (fuel : nat) (argv : list (list Z)) : M S unit :=
  match argv with
  | [] => _ ← cat_from fuel 0; ret tt
  | _ => each_file (lit "cat") (λ fd _, cat_from fuel fd) argv
  end.

(** ** wc.c *)

Record counts := Counts { cl : Z; cw : Z; cc_ : Z; inword : bool }.
Definition blanks : list Z := [32; 13; 9; 10; 11].   (* " \r\t\n\v" *)

(** One byte of the loop on the buffer. *)
Definition wc_byte (k : counts) (b : Z) : counts :=
  let c := i32 (cc_ k + 1) in
  let l := if b =? 10 then i32 (cl k + 1) else cl k in
  match strchr 7 (ptr_of blanks) b with
  | Some (Some _) => Counts l (cw k) c false
  | _ => if negb (inword k) then Counts l (i32 (cw k + 1)) c true else Counts l (cw k) c (inword k)
  end.

Fixpoint wc_from (fuel : nat) (fd : Z) (name : list Z) (k : counts) : M S bool :=
  match fuel with
  | O => fault
  | Datatypes.S f =>
      r ← u_read fd 512;
      let '(n, buf) := r in
      if 0 <? n then wc_from f fd name (foldl wc_byte k (take (Z.to_nat n) buf))
      else if n <? 0 then uprintf 1 (lit "wc: read error" ++ lf) [] ;; ret false
      else uprintf 1 (lit "%d %d %d %s" ++ lf) [PInt (cl k); PInt (cw k); PInt (cc_ k); arg_str name] ;; ret true
  end.
Definition wc (fuel : nat) (fd : Z) (name : list Z) : M S bool := wc_from fuel fd name (Counts 0 0 0 false).

Definition wc_main (fuel : nat) (argv : list (list Z)) : M S unit :=
  match argv with
  | [] => _ ← wc fuel 0 []; ret tt
  | _ => each_file (lit "wc") (wc fuel) argv
  end.

(** ** echo.c, rm.c, mkdir.c, ln.c, kill.c *)

Fixpoint echo_main (argv : list (list Z)) : M S unit :=
  match argv with
  | [] => ret tt
  | a :: rest =>
      uprintf 1 (lit "%s%s") [arg_str a; arg_str (match rest with [] => lf | _ => lit " " end)] ;;
      echo_main rest
  end.

(** The loop that stops at the first failure. *)
Fixpoint until_fail (call : list Z → M S Z) (fmt : list Z) (argv : list (list Z)) : M S unit :=
  match argv with
  | [] => ret tt
  | a :: rest =>
      r ← call a;
      if r <? 0 then uprintf 2 fmt [arg_str a] else until_fail call fmt rest
  end.
Definition rm_main (argv : list (list Z)) : M S unit :=
  match argv with
  | [] => uprintf 2 (lit "Usage: rm files..." ++ lf) []
  | _ => until_fail u_unlink (lit "rm: %s failed to delete" ++ lf) argv
  end.
Definition mkdir_main (argv : list (list Z)) : M S unit :=
  match argv with
  | [] => uprintf 2 (lit "Usage: mkdir files..." ++ lf) []
  | _ => until_fail u_mkdir (lit "mkdir: %s failed to create" ++ lf) argv
  end.

Definition ln_main (argv : list (list Z)) : M S unit :=
  match argv with
  | [old; new] =>
      r ← u_link old new;
      whenM (r <? 0) (uprintf 2 (lit "link %s %s: failed" ++ lf) [arg_str old; arg_str new])
  | _ => uprintf 2 (lit "Usage: ln old new" ++ lf) []
  end.

Fixpoint kill_each (argv : list (list Z)) : M S unit :=
  match argv with
  | [] => ret tt
  | a :: rest =>
      match atoi (Datatypes.S (length a)) (ptr_of a) with
      | Some pid => _ ← u_kill pid; kill_each rest
      | None => fault
      end
  end.
Definition kill_main (argv : list (list Z)) : M S unit :=
  match argv with
  | [] => uprintf 2 (lit "usage: kill pid..." ++ lf) []
  | _ => kill_each argv
  end.

(** ** ls.c *)

(** The part after the last slash, padded with blanks to [DIRSIZ]. *)
Fixpoint after_slash (path : list Z) (last : list Z) : list Z :=
  match path with
  | [] => last
  | c :: path' => after_slash path' (if c =? 47 then path' else last)
  end.
Definition fmtname (path : list Z) : list Z :=
  let p := after_slash path path in
  if DIRSIZ <=? Z.of_nat (length p) then p
  else p ++ replicate (Z.to_nat DIRSIZ - length p) 32.

Definition print_stat (path : list Z) (st : stat) : M S unit :=
  uprintf 1 (lit "%s %d %d %d" ++ lf) [arg_str (fmtname path); PInt (st_type st); PInt (st_ino st); PInt (st_size st)].

(** The loop on the entries of the directory [path]. *)
Fixpoint ls_entries (fuel : nat) (fd : Z) (path : list Z) : M S unit :=
  match fuel with
  | O => fault
  | Datatypes.S f =>
      r ← u_read fd sizeof_dirent;
      let '(n, de) := r in
      if negb (n =? sizeof_dirent) then ret tt else
      if de_inum de =? 0 then ls_entries f fd path else
      let buf := path ++ [47] ++ cpre (ptr_of (de_name de)) (Z.to_nat DIRSIZ) in
      r ← ustat buf;
      let '(rc, st) := r in
      (if rc <? 0 then uprintf 1 (lit "ls: cannot stat %s" ++ lf) [arg_str buf] else print_stat buf st) ;;
      ls_entries f fd path
  end.

Definition ls (fuel : nat) (path : list Z) : M S unit :=
  fd ← u_open path 0;
  if fd <? 0 then uprintf 2 (lit "ls: cannot open %s" ++ lf) [arg_str path] else
  r ← u_fstat fd;
  let '(rc, st) := r in
  if rc <? 0 then
    uprintf 2 (lit "ls: cannot stat %s" ++ lf) [arg_str path] ;;
    _ ← u_close fd; ret tt
  else
  (if st_type st =? T_FILE then print_stat path st
   else if st_type st =? T_DIR then
     if 512 <? Z.of_nat (length path) + 1 + DIRSIZ + 1 then uprintf 1 (lit "ls: path too long" ++ lf) []
     else ls_entries fuel fd path
   else ret tt) ;;
  _ ← u_close fd;
  ret tt.

Fixpoint ls_each (fuel : nat) (argv : list (list Z)) : M S unit :=
  match argv with
  | [] => ret tt
  | a :: rest => ls fuel a ;; ls_each fuel rest
  end.
Definition ls_main (fuel : nat) (argv : list (list Z)) : M S unit :=
  match argv with
  | [] => ls fuel (lit ".")
  | _ => ls_each fuel argv
  end.

(** ** forktest.c, zombie.c and stressfs.c *)

Context `{ProcOS S}.

(** The [printf] of forktest.c writes its format. *)
Definition ft_printf (fd : Z) (s : list Z) : M S unit := _ ← u_write fd s; ret tt.
Definition FORKTEST_N : Z := 1000.

(** The first loop: the number of children made.  A child only exits. *)
Fixpoint fork_loop (fuel : nat) (n : Z) : M S Z :=
  match fuel with
  | O => ret n
  | Datatypes.S f =>
      pid ← u_fork;
      if pid <? 0 then ret n else fork_loop f (n + 1)
  end.
Fixpoint wait_loop (n : nat) : M S bool :=
  match n with
  | O => ret true
  | Datatypes.S n' =>
      pid ← u_wait;
      if pid <? 0 then ft_printf 1 (lit "wait stopped early" ++ lf) ;; ret false else wait_loop n'
  end.
Definition forktest_main : M S unit :=
  ft_printf 1 (lit "fork test" ++ lf) ;;
  n ← fork_loop (Z.to_nat FORKTEST_N) 0;
  if n =? FORKTEST_N then ft_printf 1 (lit "fork claimed to work N times!" ++ lf) else
  ok ← wait_loop (Z.to_nat n);
  if negb ok then ret tt else
  pid ← u_wait;
  if negb (pid =? -1) then ft_printf 1 (lit "wait got too many" ++ lf)
  else ft_printf 1 (lit "fork test OK" ++ lf).

(** The child exits at once. *)
Definition zombie_main : M S unit :=
  pid ← u_fork;
  whenM (0 <? pid) (_ ← u_sleep 5; ret tt).

(** What a process does when it has left the loop with [i]. *)
Fixpoint repeat_call (n : nat) (call : M S unit) : M S unit :=
  match n with
  | O => ret tt
  | Datatypes.S n' => call ;; repeat_call n' call
  end.
Definition stressfs_work (i : Z) : M S unit :=
  uprintf 1 (lit "write %d" ++ lf) [PInt i] ;;
  let path := lit "stressfs" ++ [48 + i] in
  fd ← u_open path (Z.lor O_CREATE O_RDWR);
  repeat_call 20 (_ ← u_write fd (replicate 512 97); ret tt) ;;
  _ ← u_close fd;
  uprintf 1 (lit "read" ++ lf) [] ;;
  fd ← u_open path O_RDONLY;
  repeat_call 20 (_ ← u_read fd 512; ret tt) ;;
  _ ← u_close fd;
  _ ← u_wait;
  ret tt.
(** The loop from [i] on, with [k] turns left: the parent leaves it, the child
    goes on as a process of its own from [i + 1] on. *)
Fixpoint stressfs_from (k : nat) (i : Z) : M S unit :=
  match k with
  | O => stressfs_work i
  | Datatypes.S k' =>
      pid ← u_fork;
      if 0 <? pid then stressfs_work i else stressfs_from k' (i + 1)
  end.
Definition stressfs_main : M S unit :=
  uprintf 1 (lit "stressfs starting" ++ lf) [] ;;
  stressfs_from 4 0.
End uprog.
