(* ===== verification/UprogSpec.v ===== *)
(** * What cat, wc and forktest print

    Over any system whose descriptors are byte streams, delivered in pieces of
    any size, and whose output is taken completely. *)

From S2P Require Import Prelude Words Params CString Format Printf Fs Uprog.

Class UserLaws (S : Type) `{UserOS S} := {
  f_content : list Z → option (list Z);     (* the files, by name *)
  stream : S → Z → option (list Z);         (* what a descriptor has still to give *)
  out : S → Z → list Z;                     (* what has been written to one *)
  room : S → nat;                           (* descriptors that can be opened *)
  law_open path s : (0 < room s)%nat → wp (u_open path 0) (λ fd s',
    (∀ fd', out s' fd' = out s fd') ∧
    match f_content path with
    | Some c => 0 ≤ fd ∧ stream s' fd = Some c ∧ Datatypes.S (room s') = room s
    | None => fd < 0
    end) s;
  law_read fd n c s : stream s fd = Some c → 0 < n → wp (u_read fd n) (λ r s',
    ∃ rest, c = r.2 ++ rest ∧ r.1 = Z.of_nat (length r.2) ∧ r.1 ≤ n ∧ (c ≠ [] → r.2 ≠ []) ∧
      stream s' fd = Some rest ∧ (∀ fd', out s' fd' = out s fd') ∧ room s' = room s) s;
  law_write fd bytes s : fd = 1 ∨ fd = 2 → wp (u_write fd bytes) (λ k s',
    k = Z.of_nat (length bytes) ∧ (∀ fd', out s' fd' = if fd' =? fd then out s fd ++ bytes else out s fd') ∧
    (∀ fd', stream s' fd' = stream s fd') ∧ room s' = room s) s;
  law_close fd c s : stream s fd = Some c → 0 ≤ fd → wp (u_close fd) (λ _ s',
    (∀ fd', out s' fd' = out s fd') ∧ room s' = Datatypes.S (room s)) s
}.

Section spec.
Context {S : Type} `{!UserOS S, L : !UserLaws S}.
Implicit Types s : S.

(** Standard output grew by [bytes]; nothing else changed for the program. *)
Definition wrote (bytes : list Z) s s' : Prop :=
  out s' 1 = out s 1 ++ bytes ∧ (∀ fd, stream s' fd = stream s fd) ∧ room s' = room s.

Lemma wrote_trans b1 b2 s1 s2 s3 : wrote b1 s1 s2 → wrote b2 s2 s3 → wrote (b1 ++ b2) s1 s3.
Proof.
  intros (O1 & S1 & R1) (O2 & S2 & R2). split; [by rewrite O2, O1, app_assoc|]. split; [intros; by rewrite S2, S1|congruence].
Qed.

Lemma wp_write1 bytes s :
  wp (u_write 1 bytes) (λ k s', k = Z.of_nat (length bytes) ∧ wrote bytes s s') s.
Proof.
  eapply wp_mono; [apply law_write; by left|]. intros k s' (-> & Ho & Hs & Hr). split; [done|].
  split; [by rewrite Ho|done].
Qed.

Lemma wp_put_all bytes s : wp (put_all 1 bytes) (λ _, wrote bytes s) s.
Proof.
  revert s. induction bytes as [|c bytes IH]; intros s; cbn [put_all].
  - wp_step. split; [by rewrite app_nil_r|done].
  - wp_step. eapply wp_mono; [apply wp_write1|]. intros k s1 [_ H1]. eapply wp_mono; [apply IH|].
    intros [] s2 H2. exact (wrote_trans [c] bytes _ _ _ H1 H2).
Qed.

Lemma wp_uprintf fmt args bytes s : printf fmt args = Some bytes → wp (uprintf 1 fmt args) (λ _, wrote bytes s) s.
Proof. intros Hp. unfold uprintf. rewrite Hp. apply wp_put_all. Qed.

(** ** cat *)

Lemma wp_cat_from fuel fd c s :
  stream s fd = Some c → (length c < fuel)%nat →
  wp (cat_from fuel fd) (λ ok s', ok = true ∧ out s' 1 = out s 1 ++ c ∧ stream s' fd = Some [] ∧ room s' = room s) s.
Proof.
  revert c s. induction fuel as [|f IH]; intros c s Hs Hf; [lia|]. cbn [cat_from].
  wp_step. eapply wp_mono; [by apply (law_read fd 512 c)|].
  intros [n buf] s1 (rest & -> & Hn & Hle & Hne & Hs1 & Ho1 & Hr1). simpl in Hn, Hle, Hne. cbv beta iota. subst n.
  destruct buf as [|b buf].
  - change (0 <? Z.of_nat (length [])) with false. cbn match. change (Z.of_nat (length []) <? 0) with false. cbn match.
    destruct rest; [|by destruct Hne]. wp_step. split_and!; [done|by rewrite Ho1, app_nil_r|done|done].
  - rewrite (proj2 (Z.ltb_lt _ _)) by (simpl; lia). wp_step. eapply wp_mono; [apply wp_write1|].
    intros k s2 (-> & Ho2 & Hs2 & Hr2). rewrite Z.eqb_refl. cbn [negb].
    eapply wp_mono; [apply (IH rest); [by rewrite Hs2|rewrite length_app in Hf; simpl in Hf; lia]|].
    intros ok s3 (-> & Ho3 & Hs3 & Hr3). split_and!; [done| |done|congruence].
    rewrite Ho3, Ho2, Ho1, <- app_assoc. done.
Qed.

(** ** The loop over the arguments *)

(** What the arguments print: the text of each file, until one cannot be opened. *)
Fixpoint per_file (who : list Z) (text : list Z → list Z → list Z) (argv : list (list Z)) : list Z :=
  match argv with
  | [] => []
  | a :: rest =>
      match f_content a with
      | Some c => text a c ++ per_file who text rest
      | None => who ++ lit ": cannot open " ++ a ++ lf
      end
  end.

Definition total_length (argv : list (list Z)) : nat :=
  foldr (λ a n, length (default [] (f_content a)) + n)%nat 0%nat argv.

Lemma printf_lit l fmt args bytes : Forall (λ c, c ≠ 37) l → printf fmt args = Some bytes → printf (l ++ fmt) args = Some (l ++ bytes).
Proof.
  intros Hl Hp. unfold printf in *. induction Hl as [|c l Hc _ IH]; [done|]. cbn [app printf_from].
  rewrite (proj2 (Z.eqb_neq c 37)) by done. change (0 =? 0) with true. cbn match. by rewrite IH.
Qed.
Lemma printf_str (str : list Z) fmt args bytes : printf fmt args = Some bytes → printf (37 :: 115 :: fmt) (arg_str str :: args) = Some (str ++ bytes).
Proof. intros Hp. unfold printf in *. simpl. by rewrite Hp. Qed.

Lemma wp_each_file who work text argv : ∀ s,
  Forall (λ c, c ≠ 37) who → (0 < room s)%nat →
  (∀ fd a c s, a ∈ argv → f_content a = Some c → stream s fd = Some c → wp (work fd a) (λ ok s', ok = true ∧
     out s' 1 = out s 1 ++ text a c ∧ is_Some (stream s' fd) ∧ room s' = room s) s) →
  wp (each_file who work argv) (λ _ s', out s' 1 = out s 1 ++ per_file who text argv) s.
Proof.
  induction argv as [|a argv IH]; intros s Hwho Hroom Hwork; cbn [each_file per_file].
  - wp_step. by rewrite app_nil_r.
  - wp_step. eapply wp_mono; [by apply law_open|]. intros fd s1 [Ho1 Hopen]. cbv beta.
    destruct (f_content a) as [c|] eqn:Hc.
    + destruct Hopen as (Hfd & Hs1 & Hr1). rewrite (proj2 (Z.ltb_ge _ _)) by done.
      wp_step. eapply wp_mono; [apply (Hwork fd a c); [set_solver|done|done]|].
      intros ok s2 (-> & Ho2 & [r Hs2] & Hr2). cbn [negb]. wp_step. eapply wp_mono; [by eapply law_close|].
      intros _ s3 (Ho3 & Hr3). cbv beta. eapply wp_mono; [apply IH; [done|lia|]|].
      { intros fd' a' c' s' Ha'. apply Hwork. set_solver. }
      intros [] s4 Ho4. rewrite Ho4, Ho3, Ho2, Ho1, <- app_assoc. done.
    + rewrite (proj2 (Z.ltb_lt _ _)) by done.
      eapply wp_mono; [apply (wp_uprintf _ _ (who ++ lit ": cannot open " ++ a ++ lf))|].
      * apply printf_lit; [done|]. change (lit ": cannot open %s" ++ lf) with (lit ": cannot open " ++ (37 :: 115 :: lf)).
        apply printf_lit; [by repeat constructor|]. by apply printf_str.
      * intros [] s2 (Ho2 & _). by rewrite Ho2, Ho1.
Qed.

Lemma total_length_in argv a c : a ∈ argv → f_content a = Some c → (length c ≤ total_length argv)%nat.
Proof.
  induction argv as [|a' argv IH]; [set_solver|]. cbn [total_length foldr].
  intros [->|Ha]%elem_of_cons Hc; [rewrite Hc; simpl; lia|]. specialize (IH Ha Hc). unfold total_length in IH. lia.
Qed.

(** [cat] with arguments prints the files one after the other; a name that
    cannot be opened ends it with a message. *)
Theorem cat_correct fuel a argv s :
  (0 < room s)%nat → (total_length (a :: argv) < fuel)%nat →
  wp (cat_main fuel (a :: argv)) (λ _ s', out s' 1 = out s 1 ++ per_file (lit "cat") (λ _ c, c) (a :: argv)) s.
Proof.
  intros Hroom Hf. unfold cat_main. apply wp_each_file; [by repeat constructor|done|].
  intros fd a' c s' Ha Hc Hs. pose proof (total_length_in _ _ _ Ha Hc).
  eapply wp_mono; [apply (wp_cat_from fuel fd c); [done|lia]|].
  intros ok s2 (-> & Ho & Hs2 & Hr). split_and!; [done..|by eexists|done].
Qed.

(** ** wc *)

Definition blank_byte (b : Z) : bool := bool_decide (b ∈ blanks).

(** The maximal runs of bytes that are not blank. *)
Fixpoint runs (cur : list Z) (l : list Z) : list (list Z) :=
  match l with
  | [] => [cur]
  | b :: l' => if blank_byte b then cur :: runs [] l' else runs (cur ++ [b]) l'
  end.
Definition words (l : list Z) : list (list Z) := filter (λ w, w ≠ []) (runs [] l).
Definition lines (l : list Z) : list Z := filter (λ b, b = 10) l.

Lemma strchr_blanks b : strchr 7 (ptr_of blanks) b = Some None ↔ blank_byte b = false.
Proof.
  unfold blank_byte. rewrite bool_decide_eq_false. unfold strchr, blanks. cbn [strchr_from ptr_of nth].
  change (32 =? 0) with false. change (13 =? 0) with false. change (9 =? 0) with false. change (10 =? 0) with false.
  change (11 =? 0) with false. change (0 =? 0) with true. cbn match.
  repeat (case_if; [split; [done|intros Hn; destruct Hn; subst; set_solver]|]).
  split; [|done]. intros _ Hin. repeat (apply elem_of_cons in Hin as [->|Hin]; [lia|]). by apply not_elem_of_nil in Hin.
Qed.

Lemma strchr_total b : ∃ r, strchr 7 (ptr_of blanks) b = Some r.
Proof.
  unfold strchr, blanks. cbn [strchr_from ptr_of nth]. repeat case_if; (by eauto) || done.
Qed.

(** A run that has been counted when it began. *)
Definition begun (cur : list Z) : nat := if decide (cur = []) then 0%nat else 1%nat.

Lemma wc_fold l : ∀ k cur,
  inword k = bool_decide (cur ≠ []) →
  0 ≤ cl k → 0 ≤ cw k → 0 ≤ cc_ k →
  cl k + Z.of_nat (length l) < 2 ^ 31 → cw k + Z.of_nat (length l) < 2 ^ 31 → cc_ k + Z.of_nat (length l) < 2 ^ 31 →
  let k' := foldl wc_byte k l in
  cl k' = cl k + Z.of_nat (length (lines l)) ∧
  cw k' + Z.of_nat (begun cur) = cw k + Z.of_nat (length (filter (λ w, w ≠ []) (runs cur l))) ∧
  cc_ k' = cc_ k + Z.of_nat (length l).
Proof.
  induction l as [|b l IH]; intros k cur Hin H1 H2 H3 B1 B2 B3; cbn [foldl runs].
  - unfold lines, begun. rewrite filter_nil, filter_cons, filter_nil. simpl. destruct (decide (cur = [])); case_decide; simpl; naive_solver lia.
  - cbn [length] in *. assert (Hl : length (lines (b :: l)) = ((if (b =? 10)%Z then 1 else 0) + length (lines l))%nat).
    { unfold lines. rewrite filter_cons. case_decide; destruct (Z.eqb_spec b 10); done. }
    rewrite Hl. unfold wc_byte at 2 4 6. destruct (strchr_total b) as [r Hr].
    pose proof (strchr_blanks b) as Hb. rewrite Hr in Hb |- *.
    rewrite (i32_id (cc_ k + 1)) by (unfold is_i32; lia).
    assert (Hcl : (if b =? 10 then i32 (cl k + 1) else cl k) = cl k + if b =? 10 then 1 else 0).
    { destruct (b =? 10); [apply i32_id; unfold is_i32; lia|lia]. }
    rewrite Hcl. destruct r as [i|].
    + assert (blank_byte b = true) as -> by (destruct (blank_byte b); [done|]; discriminate (proj2 Hb eq_refl)).
      destruct (IH (Counts (cl k + if b =? 10 then 1 else 0) (cw k) (cc_ k + 1) false) []) as (R1 & R2 & R3);
        cbn [cl cw cc_ inword]; try done; try (destruct (b =? 10); lia).
      cbn [cl cw cc_ inword] in *. split_and!; [rewrite R1; destruct (b =? 10); lia| |lia].
      rewrite filter_cons. unfold begun in *. rewrite decide_True in R2 by done.
      destruct (decide (cur = [])) as [->|Hc]; case_decide; simpl; try done; lia.
    + rewrite (proj1 Hb eq_refl).
      assert (Hbeg : begun (cur ++ [b]) = 1%nat) by (unfold begun; rewrite decide_False; [done|by destruct cur]).
      destruct (inword k) eqn:Ein; cbn [negb].
      * destruct (IH (Counts (cl k + if b =? 10 then 1 else 0) (cw k) (cc_ k + 1) true) (cur ++ [b])) as (R1 & R2 & R3);
          cbn [cl cw cc_ inword]; try (destruct (b =? 10); lia).
        { symmetry. apply bool_decide_eq_true. by destruct cur. }
        cbn [cl cw cc_ inword] in *. symmetry in Hin. apply bool_decide_eq_true in Hin.
        unfold begun in *. rewrite (decide_False (P := cur = [])) by done.
        rewrite Hbeg in R2. split_and!; [rewrite R1; destruct (b =? 10); lia|lia|lia].
      * symmetry in Hin. apply bool_decide_eq_false in Hin. assert (cur = []) as -> by (destruct cur; [done|by destruct Hin]).
        rewrite (i32_id (cw k + 1)) by (unfold is_i32; lia).
        destruct (IH (Counts (cl k + if b =? 10 then 1 else 0) (cw k + 1) (cc_ k + 1) true) ([] ++ [b])) as (R1 & R2 & R3);
          cbn [cl cw cc_ inword]; try done; try (destruct (b =? 10); lia).
        cbn [cl cw cc_ inword] in *. rewrite Hbeg in R2. unfold begun. rewrite decide_True by done.
        split_and!; [rewrite R1; destruct (b =? 10); lia|lia|lia].
Qed.

Lemma runs_le l : ∀ cur, (length (filter (λ w, w ≠ []) (runs cur l)) ≤ begun cur + length l)%nat.
Proof.
  induction l as [|b l IH]; intros cur; cbn [runs].
  - rewrite filter_cons, filter_nil. unfold begun. destruct (decide (cur = [])); case_decide; simpl; naive_solver lia.
  - destruct (blank_byte b).
    + rewrite filter_cons. specialize (IH []). unfold begun in *. rewrite decide_True in IH by done.
      destruct (decide (cur = [])); case_decide; simpl; naive_solver lia.
    + specialize (IH (cur ++ [b])). unfold begun in *. rewrite decide_False in IH by (by destruct cur).
      simpl. destruct (decide (cur = [])); lia.
Qed.
Lemma words_le c : (length (words c) ≤ length c)%nat.
Proof. exact (runs_le c []). Qed.

(** The line [wc] prints for a file. *)
Definition dec (n : nat) : list Z := uprintint (Z.of_nat n) 10 true.
Definition wc_text (name c : list Z) : list Z :=
  dec (length (lines c)) ++ [32] ++ dec (length (words c)) ++ [32] ++ dec (length c) ++ [32] ++ name ++ lf.

Lemma wc_counts c : Z.of_nat (length c) < 2 ^ 31 →
  let k := foldl wc_byte (Counts 0 0 0 false) c in
  cl k = Z.of_nat (length (lines c)) ∧ cw k = Z.of_nat (length (words c)) ∧ cc_ k = Z.of_nat (length c).
Proof.
  intros Hc. destruct (wc_fold c (Counts 0 0 0 false) []) as (R1 & R2 & R3); cbn [cl cw cc_ inword] in *; try done; try lia.
  unfold begun in R2. rewrite decide_True in R2 by done. cbv zeta. split_and!; [lia| |lia]. unfold words. lia.
Qed.

Lemma printf_dec x fmt args bytes :
  printf fmt args = Some bytes → printf (37 :: 100 :: fmt) (PInt x :: args) = Some (uprintint (i32 x) 10 true ++ bytes).
Proof. intros Hp. unfold printf in *. cbn [printf_from]. by rewrite Hp. Qed.

Lemma wc_format l w c name :
  printf (lit "%d %d %d %s" ++ lf) [PInt l; PInt w; PInt c; arg_str name] =
  Some (uprintint (i32 l) 10 true ++ [32] ++ uprintint (i32 w) 10 true ++ [32] ++ uprintint (i32 c) 10 true ++ [32] ++ name ++ lf).
Proof.
  change (lit "%d %d %d %s" ++ lf) with (37 :: 100 :: [32] ++ (37 :: 100 :: [32] ++ (37 :: 100 :: [32] ++ (37 :: 115 :: lf)))).
  apply printf_dec, printf_lit; [by repeat constructor|]. apply printf_dec, printf_lit; [by repeat constructor|].
  apply printf_dec, printf_lit; [by repeat constructor|]. by apply printf_str.
Qed.

Lemma wp_wc_from fuel fd name c : ∀ k s,
  stream s fd = Some c → (length c < fuel)%nat →
  let k' := foldl wc_byte k c in
  wp (wc_from fuel fd name k) (λ ok s', ok = true ∧
    out s' 1 = out s 1 ++ (uprintint (i32 (cl k')) 10 true ++ [32] ++ uprintint (i32 (cw k')) 10 true ++ [32] ++
      uprintint (i32 (cc_ k')) 10 true ++ [32] ++ name ++ lf) ∧
    stream s' fd = Some [] ∧ room s' = room s) s.
Proof.
  revert c. induction fuel as [|f IH]; intros c k s Hs Hf; [lia|]. cbn [wc_from].
  wp_step. eapply wp_mono; [by apply (law_read fd 512 c)|].
  intros [n buf] s1 (rest & -> & Hn & Hle & Hne & Hs1 & Ho1 & Hr1). simpl in Hn, Hle, Hne. cbv beta iota. subst n.
  destruct buf as [|b buf].
  - change (0 <? Z.of_nat (length [])) with false. cbn match. change (Z.of_nat (length []) <? 0) with false. cbn match.
    destruct rest; [|by destruct Hne]. cbn [app foldl]. wp_step.
    eapply wp_mono; [apply wp_uprintf, wc_format|]. intros [] s2 (Ho2 & Hs2 & Hr2). wp_step.
    split_and!; [done|by rewrite Ho2, Ho1|by rewrite Hs2|congruence].
  - rewrite (proj2 (Z.ltb_lt _ _)) by (simpl; lia). rewrite Nat2Z.id, firstn_all, foldl_app.
    eapply wp_mono; [apply (IH rest); [done|rewrite length_app in Hf; simpl in Hf; lia]|].
    intros ok s3 (-> & Ho3 & Hs3 & Hr3). split_and!; [done|by rewrite Ho3, Ho1|done|congruence].
Qed.

(** C38: [wc] prints for each file, in the order of the arguments, its number
    of newlines, its number of maximal runs of non-blank bytes and its number
    of bytes, however the system cuts the file into reads; a name that cannot
    be opened ends it with a message. *)
Theorem wc_correct fuel a argv s :
  (0 < room s)%nat → (total_length (a :: argv) < fuel)%nat → Z.of_nat (total_length (a :: argv)) < 2 ^ 31 →
  wp (wc_main fuel (a :: argv)) (λ _ s', out s' 1 = out s 1 ++ per_file (lit "wc") wc_text (a :: argv)) s.
Proof.
  intros Hroom Hf Hb. unfold wc_main. apply wp_each_file; [by repeat constructor|done|].
  intros fd a' c s' Ha Hc Hs. pose proof (total_length_in _ _ _ Ha Hc) as Hl.
  eapply wp_mono; [apply (wp_wc_from fuel fd a' c); [done|lia]|].
  intros ok s2 (-> & Ho & Hs2 & Hr). destruct (wc_counts c) as (E1 & E2 & E3); [lia|].
  assert (Hw : (length (lines c) ≤ length c)%nat) by apply length_filter.
  split_and!; [done| |by eexists|done]. rewrite Ho, E1, E2, E3. unfold wc_text, dec.
  rewrite !i32_id; [done|unfold is_i32; lia| |unfold is_i32; lia].
  pose proof (words_le c). unfold is_i32. lia.
Qed.
End spec.

(** ** forktest *)

(** Processes as the parent counts them: [kids] it has made and not waited for,
    at most [slots] more.  A fork may fail before the slots run out. *)
Class ForkLaws (S : Type) `{UserOS S, ProcOS S} `{!UserLaws S} := {
  kids : S → nat;
  slots : S → nat;
  law_fork s : wp u_fork (λ pid s', (∀ fd, out s' fd = out s fd) ∧
    (pid < 0 ∧ kids s' = kids s ∨ 0 < pid ∧ kids s' = Datatypes.S (kids s) ∧ Datatypes.S (slots s') = slots s)) s;
  law_wait s : wp u_wait (λ pid s', (∀ fd, out s' fd = out s fd) ∧
    match kids s with
    | O => pid = -1
    | Datatypes.S n => 0 ≤ pid ∧ kids s' = n
    end) s;
  law_write_kids fd bytes s : wp (u_write fd bytes) (λ _ s', kids s' = kids s ∧ slots s' = slots s) s
}.

Section forktest.
Context {S : Type} `{!UserOS S, !ProcOS S, !UserLaws S, !ForkLaws S}.
Implicit Types s : S.

Lemma wp_ft_printf l s : wp (ft_printf 1 l) (λ _ s', out s' 1 = out s 1 ++ l ∧ kids s' = kids s ∧ slots s' = slots s) s.
Proof.
  unfold ft_printf. wp_step. eapply wp_mono; [apply wp_both; [apply wp_write1|apply law_write_kids]|].
  intros k s' [[_ (Ho & _)] [Hk Hl]]. by wp_step.
Qed.

Lemma wp_fork_loop fuel : ∀ n s, (slots s < fuel)%nat → wp (fork_loop fuel n) (λ r s',
  out s' 1 = out s 1 ∧ r = n + Z.of_nat (kids s') - Z.of_nat (kids s) ∧ (kids s ≤ kids s' ≤ kids s + slots s)%nat) s.
Proof.
  induction fuel as [|f IH]; intros n s Hs; [lia|]. cbn [fork_loop]. wp_step. eapply wp_mono; [apply law_fork|].
  intros pid s1 [Ho [[Hp Hk]|(Hp & Hk & Hl)]].
  - rewrite (proj2 (Z.ltb_lt _ _)) by done. wp_step. rewrite Ho, Hk. split_and!; [done|lia..].
  - rewrite (proj2 (Z.ltb_ge _ _)) by lia. eapply wp_mono; [apply IH; lia|]. intros r s2 (Ho2 & -> & Hr). rewrite Ho2, Ho.
    split_and!; [done|lia..].
Qed.

Lemma wp_wait_loop n : ∀ s, kids s = n → wp (wait_loop n) (λ ok s', ok = true ∧ out s' 1 = out s 1 ∧ kids s' = 0%nat) s.
Proof.
  induction n as [|n IH]; intros s Hk; cbn [wait_loop]; [by wp_step|]. wp_step. eapply wp_mono; [apply law_wait|].
  intros pid s1 [Ho Hw]. rewrite Hk in Hw. destruct Hw as [Hp Hk1]. rewrite (proj2 (Z.ltb_ge _ _)) by done.
  eapply wp_mono; [by apply IH|]. intros ok s2 (-> & Ho2 & Hk2). by rewrite Ho2, Ho.
Qed.

(** On a system with fewer than 1000 processes, where every child can be waited
    for exactly once, forktest prints that the test is passed. *)
Theorem forktest_passes s : kids s = 0%nat → Z.of_nat (slots s) < FORKTEST_N →
  wp forktest_main (λ _ s', out s' 1 = out s 1 ++ lit "fork test" ++ lf ++ lit "fork test OK" ++ lf) s.
Proof.
  intros Hk Hs. unfold forktest_main. wp_step. eapply wp_mono; [apply wp_ft_printf|]. intros [] s1 (Ho1 & Hk1 & Hl1). wp_step.
  eapply wp_mono; [apply (wp_fork_loop (Z.to_nat FORKTEST_N) 0); lia|]. intros n s2 (Ho2 & -> & Hr).
  rewrite (proj2 (Z.eqb_neq _ _)) by lia. wp_step. eapply wp_mono; [apply wp_wait_loop; lia|]. intros ok s3 (-> & Ho3 & Hk3). cbn [negb].
  wp_step. eapply wp_mono; [apply law_wait|]. intros pid s4 [Ho4 Hp]. rewrite Hk3 in Hp. subst pid. rewrite Z.eqb_refl. cbn [negb].
  eapply wp_mono; [apply wp_ft_printf|]. intros [] s5 (Ho5 & _). rewrite Ho5, Ho4, Ho3, Ho2, Ho1, <- !app_assoc. done.
Qed.
End forktest.

(** ** gets *)

(** The line [gets] takes from its input: up to the end of a line, [k] bytes
    at most; and what it leaves. *)
Definition eol (c : Z) : bool := (c =? 10) || (c =? 13).
Fixpoint line_of (k : nat) (l : list Z) : list Z * list Z :=
  match k, l with
  | Datatypes.S k', c :: l' =>
      if eol c then ([c], l') else let '(a, b) := line_of k' l' in (c :: a, b)
  | _, _ => ([], l)
  end.

Lemma line_of_line l rest k : Forall (λ c, eol c = false) l → (length l < k)%nat → line_of k (l ++ 10 :: rest) = (l ++ [10], rest).
Proof.
  intros Hl. revert k. induction Hl as [|c l Hc _ IH]; intros k Hk; (destruct k as [|k]; [simpl in Hk; lia|]); simpl; [done|].
  rewrite Hc, IH; [done|simpl in Hk; lia].
Qed.

(** Over any system that gives the bytes of an input one by one and keeps
    the invariant [inv]. *)
Section gets_spec.
Context {S : Type} {HU : UserOS S} (inp : S → list Z) (inv : S → Prop).
Context (Hread : ∀ s, inv s → wp (u_read 0 1) (λ r s', inv s' ∧
  match inp s with
  | [] => r = (0, []) ∧ inp s' = []
  | c :: rest => r = (1, [c]) ∧ inp s' = rest
  end) s).

Lemma wp_gets_from max k : ∀ fuel i s, inv s → i + 1 + Z.of_nat k = max → (k < fuel)%nat →
  wp (gets_from fuel i max) (λ r s', inv s' ∧ (r, inp s') = line_of k (inp s)) s.
Proof.
  induction k as [|k IH]; intros fuel i s Hs Hk Hf; (destruct fuel as [|f]; [lia|]); cbn [gets_from].
  { rewrite (proj2 (Z.ltb_ge _ _)) by lia. by wp_step. }
  rewrite (proj2 (Z.ltb_lt _ _)) by lia. wp_step. eapply wp_mono; [by apply Hread|]. cbn [line_of].
  intros [n b] s1 [Hs1 Hin]. destruct (inp s) as [|c rest]; destruct Hin as [[= -> ->] Hi1].
  - change (0 <? 1) with true. cbn match. wp_step. by rewrite Hi1.
  - change (1 <? 1) with false. cbn match. change ([c] !!! 0%nat) with c. fold (eol c). destruct (eol c); [wp_step; by rewrite Hi1|].
    wp_step. eapply wp_mono; [apply (IH f (i + 1) s1 Hs1); lia|]. intros r s2 [Hs2 E]. wp_step. rewrite Hi1 in E. by rewrite <- E.
Qed.

Lemma wp_ugets max s : 0 < max → inv s →
  wp (ugets max) (λ r s', inv s' ∧ ∃ l, r = l ++ [0] ∧ (l, inp s') = line_of (Z.to_nat (max - 1)) (inp s)) s.
Proof.
  intros Hm Hs0. unfold ugets. wp_step. eapply wp_mono; [apply (wp_gets_from max (Z.to_nat (max - 1))); [done|lia|lia]|].
  intros r s' [Hs E]. wp_step. split; [done|]. by exists r.
Qed.
End gets_spec.

(** A system with two files, which gives at most three bytes per read. *)
Definition demo_file (path : list Z) : option (list Z) :=
  if bool_decide (path = lit "a") then Some (lit "one two" ++ lf ++ lit " three" ++ lf)
  else if bool_decide (path = lit "b") then Some [] else None.
Record demo_os := DemoOs { do_fd : Z → option (list Z); do_out : Z → list Z; do_next : nat; do_room : nat }.

#[global] Instance demo_user_os : UserOS demo_os := {
  u_open path _ s :=
    match demo_file path, do_room s with
    | Some c, Datatypes.S r => Ok (Z.of_nat (do_next s))
        (DemoOs (λ fd, if fd =? Z.of_nat (do_next s) then Some c else do_fd s fd) (do_out s) (Datatypes.S (do_next s)) r)
    | _, _ => Ok (-1) s
    end;
  u_read fd n s :=
    match do_fd s fd with
    | Some c => let k := Nat.min 3 (Z.to_nat n) in
        Ok (Z.of_nat (length (take k c)), take k c)
          (DemoOs (λ fd', if fd' =? fd then Some (drop k c) else do_fd s fd') (do_out s) (do_next s) (do_room s))
    | None => Ok (-1, []) s
    end;
  u_write fd bytes s := Ok (Z.of_nat (length bytes))
    (DemoOs (do_fd s) (λ fd', if fd' =? fd then do_out s fd ++ bytes else do_out s fd') (do_next s) (do_room s));
  u_close fd s := Ok 0 (DemoOs (do_fd s) (do_out s) (do_next s) (Datatypes.S (do_room s)));
  u_fstat fd s := Ok (-1, no_stat) s;
  u_unlink _ s := Ok (-1) s;
  u_mkdir _ s := Ok (-1) s;
  u_link _ _ s := Ok (-1) s;
  u_kill _ s := Ok (-1) s
}.
#[global] Program Instance demo_user_laws : UserLaws demo_os := {|
  f_content := demo_file;
  stream := do_fd;
  out := do_out;
  room := do_room
|}.
Next Obligation.
  intros path [fds o nx r] Hr. unfold wp. cbn [u_open demo_user_os do_room]. simpl in Hr.
  destruct (demo_file path) as [c|]; [|split; [done|lia]]. destruct r as [|r]; [lia|]. simpl.
  split; [done|]. rewrite Z.eqb_refl. split_and!; [lia|done|done].
Qed.
Next Obligation.
  intros fd n c [fds o nx r] Hs Hn. unfold wp. cbn [u_read demo_user_os do_fd stream] in *. rewrite Hs. cbv zeta. cbn [fst snd do_fd do_out do_room stream out room].
  set (k := Nat.min 3 (Z.to_nat n)). exists (drop k c). rewrite take_drop, Z.eqb_refl.
  split_and!; try done; [rewrite length_take; unfold k; lia|].
  intros Hc E. destruct c as [|x c]; [done|]. destruct k eqn:Ek; [unfold k in Ek; lia|done].
Qed.
Next Obligation. intros fd bytes [fds o nx r] _. by unfold wp. Qed.
Next Obligation. intros fd c [fds o nx r] _ _. by unfold wp. Qed.

Lemma wc_correct_witness :
  wp (wc_main 100 [lit "a"; lit "b"; lit "c"]) (λ _ s',
    out s' 1 = lit "2 3 15 a" ++ lf ++ lit "0 0 0 b" ++ lf ++ lit "wc: cannot open c" ++ lf)
    (DemoOs (λ _, None) (λ _, []) 3 13).
Proof.
  eapply wp_mono.
  - apply (wc_correct 100 (lit "a") [lit "b"; lit "c"] (DemoOs (λ _, None) (λ _, []) 3 13)).
    + simpl. lia.
    + apply Nat.ltb_lt. by vm_compute.
    + by vm_compute.
  - intros [] s' ->. by vm_compute.
Defined.
