(* ===== verification/Tui.v ===== *)
(** * The text interface and init (tui.c, init.c)

    The menu that the system starts with, and the first user process.  A child
    made by [fork] runs up to its [exit] before the parent goes on, since all
    that the parents do next is to wait for it. *)

From S2P Require Import Prelude Words Params CString Format Printf Fs Uprog UprogSpec.

(** ** Escape sequences *)

Definition ESC : Z := 27.
Definition csi (s : string) : list Z := ESC :: lit "[" ++ lit s.
Definition CLS : list Z := csi "2J" ++ csi "H".
Definition RESET : list Z := csi "0m".
Definition TEXT_WHITE : list Z := csi "37;1m".
Definition BG_BLUE : list Z := csi "44m".
Definition BG_CYAN : list Z := csi "46m".
Definition TEXT_YELLOW : list Z := csi "33;1m".

Section tui.
Context {S : Type} `{UserOS S, ProcOS S}.

Definition say (text : list Z) : M S unit := uprintf 1 text [].
Definition GOTO (l c : Z) : M S unit := uprintf 1 (csi "%d;%dH") [PInt l; PInt c].

Definition desenhar_moldura : M S unit :=
  say (BG_BLUE ++ TEXT_WHITE ++ CLS) ;;
  GOTO 1 1 ;;
  say (lit "┌") ;;
  for_loop 78 2 (λ _, say (lit "─")) ;;
  say (lit "┐") ;;
  for_loop 23 2 (λ i,
    GOTO i 1 ;; say (lit "│") ;;
    GOTO i 80 ;; say (lit "│")) ;;
  GOTO 25 1 ;;
  say (lit "└") ;;
  for_loop 78 2 (λ _, say (lit "─")) ;;
  say (lit "┘").

(** A line of the menu. *)
Definition opcao (key text : string) : list Z :=
  lit "│  " ++ TEXT_YELLOW ++ lit key ++ TEXT_WHITE ++ lit text.

Definition desenhar_menu : M S unit :=
  desenhar_moldura ;;
  GOTO 2 33 ;;
  say (TEXT_YELLOW ++ lit "BOSS-OS INTERFACE" ++ TEXT_WHITE) ;;
  GOTO 3 2 ;;
  for_loop 78 2 (λ _, say (lit "═")) ;;
  GOTO 6 20 ;; say (lit "┌────────────────────────────────────────┐") ;;
  GOTO 7 20 ;; say (lit "│          Selecione uma opcao:          │") ;;
  GOTO 8 20 ;; say (lit "├────────────────────────────────────────┤") ;;
  GOTO 9 20 ;; say (opcao "[1]" " Abrir o Terminal (Shell)          │") ;;
  GOTO 10 20 ;; say (opcao "[2]" " Informacoes de Hardware           │") ;;
  GOTO 11 20 ;; say (opcao "[3]" " Listar Arquivos no Disco (ls)     │") ;;
  GOTO 12 20 ;; say (opcao "[4]" " Executar um Programa do Sistema   │") ;;
  GOTO 13 20 ;; say (opcao "[5]" " Sair e voltar ao Boot Splash      │") ;;
  GOTO 14 20 ;; say (lit "└────────────────────────────────────────┘") ;;
  GOTO 24 2 ;;
  say (BG_CYAN ++ TEXT_WHITE ++ lit " Atalhos: Pressione 1, 2, 3, 4 ou 5 no seu teclado.                    " ++ BG_BLUE) ;;
  GOTO 16 30 ;;
  say (lit "Digite sua opcao: ").

(** [pid = fork(); if(pid == 0){ child; exit(); }] in the parent. *)
Definition spawn (child : M S unit) : M S Z :=
  pid ← u_fork;
  whenM (0 <? pid) child ;;
  ret pid.
Definition exec_only (path : list Z) : M S unit := _ ← u_exec path [path]; ret tt.

Definition tui_shell : M S unit :=
  say (CLS ++ RESET) ;;
  _ ← spawn (exec_only (lit "sh"));
  _ ← u_wait;
  ret tt.

Definition press_enter : M S unit := _ ← ugets 16; ret tt.

Definition tui_hardware : M S unit :=
  say (CLS ++ RESET) ;;
  say (lit "=== BOSS-OS HARDWARE INFO ===" ++ lf ++ lf) ;;
  say (lit "Processador: Intel Core i3 (x86 Emulated)" ++ lf) ;;
  say (lit "Memoria RAM: 8GB (DDR3 Configured)" ++ lf) ;;
  say (lit "Armazenamento: 128GB SSD (Virtual IDE Drive)" ++ lf) ;;
  say (lit "Kernel Base: xv6-public Unix" ++ lf ++ lf) ;;
  say (lit "Pressione ENTER para voltar ao menu...") ;;
  press_enter.

Definition tui_files : M S unit :=
  say (CLS ++ RESET) ;;
  say (lit "=== ARQUIVOS NO DISCO ===" ++ lf ++ lf) ;;
  _ ← spawn (exec_only (lit "ls"));
  _ ← u_wait;
  say (lf ++ lit "Pressione ENTER para voltar ao menu...") ;;
  press_enter.

(** The string without a newline at its end. *)
Definition chomp (name : list Z) : list Z :=
  let len := length name in
  if (0 <? len)%nat && (name !!! (len - 1)%nat =? 10) then take (len - 1) name else name.

Definition tui_program : M S unit :=
  say (CLS ++ RESET) ;;
  say (lit "=== EXECUTAR PROGRAMA ===" ++ lf ++ lf) ;;
  say (lit "Digite o nome do programa (ex: wc, grep, echo, hello): ") ;;
  b ← ugets 32;
  let prog_name := chomp (cpre (ptr_of b) (length b)) in
  uprintf 1 (lf ++ lit "Iniciando %s..." ++ lf ++ lf) [arg_str prog_name] ;;
  _ ← spawn (
    ok ← u_exec prog_name [prog_name];
    whenM (negb ok) (uprintf 1 (lit "Erro: Nao foi possivel rodar o programa '%s'" ++ lf) [arg_str prog_name]));
  _ ← u_wait;
  say (lf ++ lit "Programa finalizado. Pressione ENTER para voltar ao menu...") ;;
  press_enter.

Fixpoint tui_loop (fuel : nat) : M S unit :=
  match fuel with
  | O => fault
  | Datatypes.S f =>
      desenhar_menu ;;
      buf ← ugets 16;
      let c := buf !!! 0%nat in
      if c =? 49 then tui_shell ;; tui_loop f
      else if c =? 50 then tui_hardware ;; tui_loop f
      else if c =? 51 then tui_files ;; tui_loop f
      else if c =? 52 then tui_program ;; tui_loop f
      else if c =? 53 then ret tt
      else tui_loop f
  end.

Definition tui_main (fuel : nat) : M S unit := tui_loop fuel ;; say (CLS ++ RESET).

(** ** init.c *)

(** [write(1, s, n)] of a literal. *)
Definition write_n (s : list Z) (n : nat) : M S unit := _ ← u_write 1 (take n s); ret tt.

Definition init_open : M S unit :=
  fd ← u_open (lit "console") O_RDWR;
  whenM (fd <? 0) (
    _ ← u_mknod (lit "console") 1 1;
    _ ← u_open (lit "console") O_RDWR;
    ret tt) ;;
  _ ← u_dup 0;
  _ ← u_dup 0;
  ret tt.

Definition splash : M S unit :=
  write_n (csi "44m" ++ csi "37;1m" ++ csi "2J" ++ csi "H") 16 ;;
  write_n (csi "12;33H") 8 ;;
  write_n (lit "B O S S - O S") 13 ;;
  write_n (csi "13;31H") 8 ;;
  write_n (lit "=================") 17 ;;
  _ ← u_sleep 200;
  write_n (csi "0m" ++ csi "2J" ++ csi "H") 11.

(** [while((wpid=wait()) >= 0 && wpid != pid)] *)
Fixpoint wait_for (fuel : nat) (pid : Z) : M S unit :=
  match fuel with
  | O => fault
  | Datatypes.S f =>
      wpid ← u_wait;
      if (0 <=? wpid) && negb (wpid =? pid) then say (lit "zombie!" ++ lf) ;; wait_for f pid else ret tt
  end.

(** One turn of the loop; false when init exits. *)
Definition init_turn (fuel : nat) : M S bool :=
  say (lit "BOSS-OS: Iniciando a Interface Grafica..." ++ lf) ;;
  pid ← spawn (
    ok ← u_exec (lit "tui") [lit "tui"];
    whenM (negb ok) (say (lit "init: falha ao iniciar a interface TUI" ++ lf)));
  if pid <? 0 then say (lit "init: fork failed" ++ lf) ;; ret false else
  wait_for fuel pid ;;
  ret true.

(** The first [n] turns of the loop, which has no other end. *)
Fixpoint init_turns (fuel n : nat) : M S unit :=
  match n with
  | O => ret tt
  | Datatypes.S n' =>
      go ← init_turn fuel;
      if go : bool then init_turns fuel n' else ret tt
  end.
Definition init_main (fuel n : nat) : M S unit := init_open ;; splash ;; init_turns fuel n.

End tui.
