(* ===== verification/TuiSpec.v ===== *)
(** * What the text interface does

    The programs it starts for the choices typed, and the menu as it appears
    on an ANSI terminal. *)

From S2P Require Import Prelude Words Params CString Format Printf Fs Uprog UprogSpec Tui.

(** ** The system *)

Class TuiView (S : Type) := {
  t_in : S → list Z;
  t_out : S → list Z;
  t_started : S → list (list (list Z));         (* the arguments of [exec] so far *)
  reads : list (list Z) → list Z → Prop         (* what a program takes from the input *)
}.
Class TuiLaws (S : Type) {HU : UserOS S} {HP : ProcOS S} {HV : TuiView S} := {
  tl_read s : wp (u_read 0 1) (λ r s', t_out s' = t_out s ∧ t_started s' = t_started s ∧
    match t_in s with
    | [] => r = (0, []) ∧ t_in s' = []
    | c :: rest => r = (1, [c]) ∧ t_in s' = rest
    end) s;
  tl_write bytes s : wp (u_write 1 bytes) (λ _ s', t_out s' = t_out s ++ bytes ∧ t_in s' = t_in s ∧ t_started s' = t_started s) s;
  tl_fork s : wp u_fork (λ pid s', 0 < pid ∧ t_in s' = t_in s ∧ t_started s' = t_started s) s;
  tl_exec path argv typed rest s : reads argv typed → t_in s = typed ++ rest →
    wp (u_exec path argv) (λ _ s', t_in s' = rest ∧ t_started s' = t_started s ++ [argv]) s;
  tl_wait s : wp u_wait (λ _ s', t_in s' = t_in s ∧ t_started s' = t_started s) s
}.

Section tui_spec.
Context {S : Type} {HU : UserOS S} {HP : ProcOS S} {HV : TuiView S} {HL : TuiLaws S}.
Implicit Types s : S.

(** ** Printing *)

Definition prints (b : list Z) (c : M S unit) : Prop := ∀ s,
  wp c (λ _ s', t_out s' = t_out s ++ b ∧ t_in s' = t_in s ∧ t_started s' = t_started s) s.

Lemma prints_seq a b c d : prints a c → prints b d → prints (a ++ b) (c ;; d).
Proof.
  intros Hc Hd s. wp_step. eapply wp_mono; [apply Hc|]. intros [] s1 (Ho1 & Hi1 & Hs1).
  eapply wp_mono; [apply Hd|]. intros [] s2 (Ho2 & Hi2 & Hs2). rewrite app_assoc. split_and!; congruence.
Qed.
Lemma prints_put_all b : prints b (put_all 1 b).
Proof.
  induction b as [|x b IH]; intros s; cbn [put_all]; [wp_step; by rewrite app_nil_r|].
  wp_step. eapply wp_mono; [apply tl_write|]. intros k s1 (Ho1 & Hi1 & Hs1). eapply wp_mono; [apply IH|].
  intros [] s2 (Ho2 & Hi2 & Hs2). rewrite Ho2, Ho1, <- app_assoc. split_and!; [done|congruence..].
Qed.
Lemma prints_printf fmt args b : printf fmt args = Some b → prints b (uprintf 1 fmt args).
Proof. intros Hp. unfold uprintf. rewrite Hp. apply prints_put_all. Qed.
Lemma prints_say text b : printf text [] = Some b → prints b (say text).
Proof. apply prints_printf. Qed.
Lemma prints_for n : ∀ i (f : Z → list Z) body, (∀ j, i ≤ j < i + Z.of_nat n → prints (f j) (body j)) →
  prints (concat (f <$> seqZ i (Z.of_nat n))) (for_loop n i body).
Proof.
  induction n as [|n IH]; intros i f body Hb; cbn [for_loop].
  - intros s. wp_step. cbn. by rewrite app_nil_r.
  - rewrite seqZ_cons by lia. replace (Z.pred (Z.of_nat (Datatypes.S n))) with (Z.of_nat n) by lia.
    rewrite fmap_cons, concat_cons. apply prints_seq; [apply Hb; lia|]. rewrite <- Z.add_1_r. apply IH. intros j Hj. apply Hb. lia.
Qed.

(** [GOTO] writes the position in decimal. *)
Definition goto_seq (l c : Z) : list Z := csi "" ++ uprintint l 10 true ++ lit ";" ++ uprintint c 10 true ++ lit "H".
Lemma prints_GOTO l c : is_i32 l → is_i32 c → prints (goto_seq l c) (GOTO l c).
Proof.
  intros Hl Hc. apply prints_printf. change (csi "%d;%dH") with (csi "" ++ (37 :: 100 :: lit ";" ++ (37 :: 100 :: lit "H"))).
  apply printf_lit; [by repeat constructor|]. rewrite printf_dec with (bytes := lit ";" ++ uprintint c 10 true ++ lit "H"); [by rewrite (i32_id l)|].
  apply printf_lit; [by repeat constructor|]. rewrite printf_dec with (bytes := lit "H"); [by rewrite (i32_id c)|]. done.
Qed.

(** ** The menu as bytes *)

Definition rows (f : Z → list Z) (i n : Z) : list Z := concat (f <$> seqZ i n).
Definition moldura_bytes : list Z :=
  (BG_BLUE ++ TEXT_WHITE ++ CLS) ++ goto_seq 1 1 ++ lit "┌" ++ rows (λ _, lit "─") 2 78 ++ lit "┐" ++
  rows (λ i, goto_seq i 1 ++ lit "│" ++ goto_seq i 80 ++ lit "│") 2 23 ++
  goto_seq 25 1 ++ lit "└" ++ rows (λ _, lit "─") 2 78 ++ lit "┘".

Ltac prints_all := repeat
  lazymatch goal with
  | |- prints (_ ++ _) (bind _ _) => apply prints_seq
  | |- prints _ (GOTO _ _) => apply prints_GOTO; unfold is_i32; lia
  | |- prints _ (say _) => apply prints_say; vm_compute; reflexivity
  | |- prints (rows ?f ?i _) (for_loop ?n _ _) => apply (prints_for n i f); intros ? ?; cbv beta
  end.

Lemma prints_moldura : prints moldura_bytes desenhar_moldura.
Proof.
  unfold moldura_bytes, desenhar_moldura. prints_all.
Qed.

Definition menu_bytes : list Z :=
  moldura_bytes ++ goto_seq 2 33 ++ (TEXT_YELLOW ++ lit "BOSS-OS INTERFACE" ++ TEXT_WHITE) ++
  goto_seq 3 2 ++ rows (λ _, lit "═") 2 78 ++
  goto_seq 6 20 ++ lit "┌────────────────────────────────────────┐" ++
  goto_seq 7 20 ++ lit "│          Selecione uma opcao:          │" ++
  goto_seq 8 20 ++ lit "├────────────────────────────────────────┤" ++
  goto_seq 9 20 ++ opcao "[1]" " Abrir o Terminal (Shell)          │" ++
  goto_seq 10 20 ++ opcao "[2]" " Informacoes de Hardware           │" ++
  goto_seq 11 20 ++ opcao "[3]" " Listar Arquivos no Disco (ls)     │" ++
  goto_seq 12 20 ++ opcao "[4]" " Executar um Programa do Sistema   │" ++
  goto_seq 13 20 ++ opcao "[5]" " Sair e voltar ao Boot Splash      │" ++
  goto_seq 14 20 ++ lit "└────────────────────────────────────────┘" ++
  goto_seq 24 2 ++
  (BG_CYAN ++ TEXT_WHITE ++ lit " Atalhos: Pressione 1, 2, 3, 4 ou 5 no seu teclado.                    " ++ BG_BLUE) ++
  goto_seq 16 30 ++ lit "Digite sua opcao: ".

Lemma prints_menu : prints menu_bytes desenhar_menu.
Proof. unfold menu_bytes, desenhar_menu. apply prints_seq; [apply prints_moldura|]. prints_all. Qed.
End tui_spec.

(** ** An ANSI terminal *)

(** A terminal of 25 lines and 80 columns takes bytes one by one; [ready]
    when it is not inside a sequence. *)
Class AnsiTerm (T : Type) := {
  feed1 : T → Z → T;
  ready : T → Prop;
  cell : T → Z → Z → list Z;        (* the bytes of the character shown *)
  cursor : T → Z * Z
}.
Definition feed {T : Type} {HT : AnsiTerm T} (t : T) (b : list Z) : T := foldl feed1 t b.

Definition on_screen (r c : Z) : Prop := 1 ≤ r ≤ 25 ∧ 1 ≤ c ≤ 80.
(** Printable ASCII, or a character of the box drawing block in UTF-8. *)
Definition glyph (g : list Z) : bool :=
  match g with
  | [b] => (32 <=? b) && (b <? 127)
  | [a; b; c] => (a =? 226) && ((b =? 148) || (b =? 149)) && (128 <=? c) && (c <? 192)
  | _ => false
  end.
Definition colours : list (list Z) := [RESET; TEXT_WHITE; BG_BLUE; BG_CYAN; TEXT_YELLOW].

(** What the sequences of ECMA-48 that the program uses do. *)
Class AnsiLaws (T : Type) {HT : AnsiTerm T} := {
  term_colour seq t : ready t → seq ∈ colours →
    ready (feed t seq) ∧ cursor (feed t seq) = cursor t ∧ ∀ r c, cell (feed t seq) r c = cell t r c;
  term_clear t : ready t →
    ready (feed t (csi "2J")) ∧ cursor (feed t (csi "2J")) = cursor t ∧ ∀ r c, on_screen r c → cell (feed t (csi "2J")) r c = [32];
  term_home t : ready t →
    ready (feed t (csi "H")) ∧ cursor (feed t (csi "H")) = (1, 1) ∧ ∀ r c, cell (feed t (csi "H")) r c = cell t r c;
  term_goto l k t : ready t → on_screen l k →
    ready (feed t (goto_seq l k)) ∧ cursor (feed t (goto_seq l k)) = (l, k) ∧ ∀ r c, cell (feed t (goto_seq l k)) r c = cell t r c;
  term_glyph g l k t : ready t → glyph g = true → cursor t = (l, k) → on_screen l k →
    ready (feed t g) ∧ (k < 80 → cursor (feed t g) = (l, k + 1)) ∧
    ∀ r c, on_screen r c → cell (feed t g) r c = if decide (r = l ∧ c = k) then g else cell t r c
}.

(** ** Drawing *)

Inductive op := Colour (seq : list Z) | Clear | Home | Goto (l k : Z) | Glyph (g : list Z).
#[global] Instance op_eq_dec : EqDecision op.
Proof. solve_decision. Defined.
Definition op_bytes (o : op) : list Z :=
  match o with
  | Colour seq => seq
  | Clear => csi "2J"
  | Home => csi "H"
  | Goto l k => goto_seq l k
  | Glyph g => g
  end.

(** A screen as far as it is known: its rows, and the position of the cursor. *)
Notation grid := (list (list (list Z))) (only parsing).
Definition at_ (g : grid) (r c : Z) : list Z := (g !!! Z.to_nat (r - 1)) !!! Z.to_nat (c - 1).
Definition blank_grid : grid := replicate 25 (replicate 80 [32]).
Notation drawing := (option grid * option (Z * Z))%type (only parsing).

Definition in_screen (l k : Z) : bool := (1 <=? l) && (l <=? 25) && (1 <=? k) && (k <=? 80).
Definition set_cell (l k : Z) (x : list Z) (g : grid) : grid := alter (<[Z.to_nat (k - 1) := x]>) (Z.to_nat (l - 1)) g.
(** [None]: the program relies on something that is not promised. *)
Definition draw1 (d : drawing) (o : op) : option drawing :=
  match o with
  | Colour seq => if bool_decide (seq ∈ colours) then Some d else None
  | Clear => Some (Some blank_grid, d.2)
  | Home => Some (d.1, Some (1, 1))
  | Goto l k => if in_screen l k then Some (d.1, Some (l, k)) else None
  | Glyph g =>
      match d.2 with
      | Some (l, k) =>
          if glyph g && in_screen l k then
            Some (set_cell l k g <$> d.1, if k <? 80 then Some (l, k + 1) else None)
          else None
      | None => None
      end
  end.
Definition draw (ops : list op) (d : drawing) : option drawing := foldl (λ d o, d ← d; draw1 d o)%stdpp (Some d) ops.

(** The bytes as operations; any reading will do that gives the bytes again. *)
Fixpoint number (n : Z) (l : list Z) : Z * list Z :=
  match l with
  | b :: l' => if (48 <=? b) && (b <=? 57) then number (10 * n + (b - 48)) l' else (n, l)
  | [] => (n, [])
  end.
Fixpoint decode (fuel : nat) (l : list Z) : list op :=
  match fuel with
  | O => []
  | S f =>
      match l with
      | [] => []
      | 27 :: 91 :: 50 :: 74 :: l' => Clear :: decode f l'
      | 27 :: 91 :: 72 :: l' => Home :: decode f l'
      | 27 :: 91 :: l' =>
          match list_find (λ seq, seq `prefix_of` l) colours with
          | Some (_, seq) => Colour seq :: decode f (drop (length seq) l)
          | None =>
              let '(a, l1) := number 0 l' in
              let '(b, l2) := number 0 (drop 1 l1) in
              Goto a b :: decode f (drop 1 l2)
          end
      | 226 :: b :: c :: l' => Glyph [226; b; c] :: decode f l'
      | b :: l' => Glyph [b] :: decode f l'
      end
  end.

(** The menu as it should be. *)
Definition picture_rows : list string := [
   "┌──────────────────────────────────────────────────────────────────────────────┐";
   "│                               BOSS-OS INTERFACE                              │";
   "│══════════════════════════════════════════════════════════════════════════════│";
   "│                                                                              │";
   "│                                                                              │";
   "│                  ┌────────────────────────────────────────┐                  │";
   "│                  │          Selecione uma opcao:          │                  │";
   "│                  ├────────────────────────────────────────┤                  │";
   "│                  │  [1] Abrir o Terminal (Shell)          │                  │";
   "│                  │  [2] Informacoes de Hardware           │                  │";
   "│                  │  [3] Listar Arquivos no Disco (ls)     │                  │";
   "│                  │  [4] Executar um Programa do Sistema   │                  │";
   "│                  │  [5] Sair e voltar ao Boot Splash      │                  │";
   "│                  └────────────────────────────────────────┘                  │";
   "│                                                                              │";
   "│                            Digite sua opcao:                                 │";
   "│                                                                              │";
   "│                                                                              │";
   "│                                                                              │";
   "│                                                                              │";
   "│                                                                              │";
   "│                                                                              │";
   "│                                                                              │";
   "│ Atalhos: Pressione 1, 2, 3, 4 ou 5 no seu teclado.                           │";
   "└──────────────────────────────────────────────────────────────────────────────┘"].
Fixpoint glyphs (fuel : nat) (l : list Z) : list (list Z) :=
  match fuel, l with
  | S f, 226 :: b :: c :: l' => [226; b; c] :: glyphs f l'
  | S f, b :: l' => [b] :: glyphs f l'
  | _, _ => []
  end.
Definition picture : grid := (λ row, glyphs 80 (lit row)) <$> picture_rows.

Section drawing_sound.
Context {T : Type} {HT : AnsiTerm T} {HA : AnsiLaws T}.
Implicit Types t : T.

Definition full (g : grid) : Prop := length g = 25%nat ∧ Forall (λ row, length row = 80%nat) g.
Record shows (t : T) (d : drawing) : Prop := {
  sh_ready : ready t;
  sh_cells g : d.1 = Some g → full g ∧ ∀ r c, on_screen r c → cell t r c = at_ g r c;
  sh_cursor p : d.2 = Some p → cursor t = p
}.

Lemma in_screen_spec l k : in_screen l k = true → on_screen l k.
Proof. unfold in_screen, on_screen. intros H. bool_props. lia. Qed.

Lemma set_cell_full l k x g : full g → full (set_cell l k x g).
Proof.
  intros [Hg Hr]. split; [by unfold set_cell; rewrite length_alter|]. apply Forall_alter; [done|].
  intros row _ Hlen. by rewrite length_insert.
Qed.
Lemma at_set_cell l k x g r c : full g → on_screen l k → on_screen r c →
  at_ (set_cell l k x g) r c = if decide (r = l ∧ c = k) then x else at_ g r c.
Proof.
  intros [Hg Hr] [Hl Hk] [Hrr Hc]. unfold at_, set_cell.
  destruct (lookup_lt_is_Some_2 g (Z.to_nat (r - 1))) as [row Hrow]; [lia|].
  assert (Hlen : length row = 80%nat) by exact (Forall_lookup_1 _ _ _ _ Hr Hrow).
  destruct (decide (r = l)) as [->|Hne].
  - rewrite (list_lookup_total_correct _ _ (<[Z.to_nat (k - 1) := x]> row)) by (by rewrite list_lookup_alter_eq, Hrow).
    rewrite (list_lookup_total_correct g _ row) by done. destruct (decide (c = k)) as [->|Hne].
    + rewrite decide_True by done. apply list_lookup_total_insert_eq. lia.
    + rewrite decide_False by naive_solver. apply list_lookup_total_insert_ne. lia.
  - rewrite decide_False by naive_solver.
    rewrite (list_lookup_total_correct _ _ row) by (rewrite list_lookup_alter_ne by lia; done).
    by rewrite (list_lookup_total_correct g _ row).
Qed.
Lemma blank_at r c : on_screen r c → at_ blank_grid r c = [32].
Proof. intros [Hr Hc]. unfold at_, blank_grid. rewrite !lookup_total_replicate_2 by lia. done. Qed.

Lemma draw1_sound t d o d' : shows t d → draw1 d o = Some d' → shows (feed t (op_bytes o)) d'.
Proof.
  intros [Hr Hc Hp] Hd. destruct o as [seq| | |l k|g]; cbn [draw1 op_bytes] in *.
  - case_bool_decide; [|done]. injection Hd as <-. destruct (term_colour seq t) as (R & C & E); [done..|].
    split; [done| |intros; rewrite C; auto]. intros g Hg. destruct (Hc g Hg) as [? H']. split; [done|]. intros. rewrite E. auto.
  - injection Hd as <-. destruct (term_clear t) as (R & C & E); [done|]. split; [done| |intros; rewrite C; auto].
    intros g [= <-]. split; [split; [done|by apply Forall_replicate]|]. intros. rewrite E, blank_at; done.
  - injection Hd as <-. destruct (term_home t) as (R & C & E); [done|].
    split; [done| |by intros p [= <-]]. intros g Hg. destruct (Hc g Hg) as [? H']. split; [done|]. intros. rewrite E. auto.
  - destruct (in_screen l k) eqn:Hs; [|done]. injection Hd as <-. apply in_screen_spec in Hs.
    destruct (term_goto l k t) as (R & C & E); [done..|]. split; [done| |by intros p [= <-]].
    intros g Hg. destruct (Hc g Hg) as [? H']. split; [done|]. intros. rewrite E. auto.
  - destruct d as [g0 [[l k]|]]; [|done]. cbn [fst snd] in *. destruct (glyph g) eqn:Hgl; [|done].
    destruct (in_screen l k) eqn:Hs; [|done]. injection Hd as <-. apply in_screen_spec in Hs.
    destruct (term_glyph g l k t) as (R & C & E); [done|done|by apply Hp|done|]. split; [done| |]; cbn [fst snd].
    + intros g' Hg'. destruct g0 as [g0|]; [|done]. injection Hg' as <-. destruct (Hc g0 eq_refl) as [Hf H']. split; [by apply set_cell_full|].
      intros r c Hrc. rewrite E, at_set_cell by done. case_decide; [done|]. auto.
    + intros p Hp'. destruct (Z.ltb_spec k 80); [|done]. injection Hp' as <-. auto.
Qed.

Lemma draw_sound ops : ∀ t d d', shows t d → draw ops d = Some d' → shows (feed t (concat (op_bytes <$> ops))) d'.
Proof.
  induction ops as [|o ops IH]; intros t d d' Hs Hd; [injection Hd as <-; done|].
  rewrite fmap_cons, concat_cons. unfold feed. rewrite foldl_app. unfold draw in Hd. cbn [foldl] in Hd.
  change (Some d ≫= λ d0, draw1 d0 o) with (draw1 d o) in Hd. destruct (draw1 d o) as [d1|] eqn:E1.
  - apply (IH (feed t (op_bytes o)) d1); [by eapply draw1_sound|done].
  - exfalso. clear -Hd. induction ops as [|o' ops IH]; [done|]. by apply IH.
Qed.

(** The menu's bytes draw the picture on any terminal. *)
Lemma menu_draws t : ready t → shows (feed t menu_bytes) (Some picture, Some (16, 48)).
Proof.
  intros Ht. assert (E : concat (op_bytes <$> decode 5000 menu_bytes) = menu_bytes).
  { apply (bool_decide_eq_true_1 _). vm_compute. reflexivity. }
  rewrite <- E. apply (draw_sound _ t (None, None)); [by split|].
  apply (bool_decide_eq_true_1 _). vm_compute. reflexivity.
Qed.
End drawing_sound.

(** ** The choices of a user *)

(** What is typed at the menu; [typed] is what the program started reads. *)
Inductive choice :=
| Terminal (typed : list Z)
| Hardware (enter : list Z)
| Files (typed enter : list Z)
| Program (name typed enter : list Z)
| Other (line : list Z).

Definition choice_text (c : choice) : list Z :=
  match c with
  | Terminal typed => lit "1" ++ lf ++ typed
  | Hardware enter => lit "2" ++ lf ++ enter ++ lf
  | Files typed enter => lit "3" ++ lf ++ typed ++ enter ++ lf
  | Program name typed enter => lit "4" ++ lf ++ name ++ lf ++ typed ++ enter ++ lf
  | Other line => line ++ lf
  end.
Definition choice_starts (c : choice) : list (list (list Z)) :=
  match c with
  | Terminal _ => [[lit "sh"]]
  | Files _ _ => [[lit "ls"]]
  | Program name _ _ => [[name]]
  | Hardware _ | Other _ => []
  end.

(** The lines fit the buffers of 16 and 32 bytes. *)
Definition short (n : nat) (l : list Z) : Prop := (length l ≤ n)%nat ∧ Forall (λ c, eol c = false) l.
Definition choice_ok {S : Type} {HV : TuiView S} (c : choice) : Prop :=
  match c with
  | Terminal typed => reads [lit "sh"] typed
  | Hardware enter => short 14 enter
  | Files typed enter => reads [lit "ls"] typed ∧ short 14 enter
  | Program name typed enter => short 30 name ∧ Forall (λ c, c ≠ 0) name ∧ reads [name] typed ∧ short 14 enter
  | Other line => short 14 line ∧ match line with c :: _ => negb ((49 <=? c) && (c <=? 53)) = true | [] => True end
  end.

Section runs.
Context {S : Type} {HU : UserOS S} {HP : ProcOS S} {HV : TuiView S} {HL : TuiLaws S}.
Implicit Types s : S.

(** The input and the programs started, [prints] aside. *)
Definition sees s (i : list Z) (st : list (list (list Z))) : Prop := t_in s = i ∧ t_started s = st.

Lemma sees_prints b c s i st : prints b c → sees s i st → wp c (λ _ s', sees s' i st) s.
Proof. intros Hc [Hi Hs]. eapply wp_mono; [apply Hc|]. intros [] s' (_ & Hi' & Hs'). split; congruence. Qed.

Lemma wp_line max l rest s st : short (Z.to_nat (max - 2)) l → 2 ≤ max → sees s (l ++ lf ++ rest) st →
  wp (ugets max) (λ b s', b = (l ++ lf) ++ [0] ∧ sees s' rest st) s.
Proof.
  intros [Hlen Hl] Hm [Hi Hs].
  eapply wp_mono; [apply (wp_ugets t_in (λ s', t_started s' = st)); [|lia|done]|].
  { intros s1 Hs1. eapply wp_mono; [apply tl_read|]. intros r s2 (_ & Hs2 & Hr). split; [congruence|done]. }
  intros b s1 (Hs1 & b' & -> & E). rewrite Hi in E. unfold lf in E. simpl app in E. rewrite line_of_line in E by (done || lia).
  injection E as -> E. by split.
Qed.

Lemma wp_press_enter enter rest s st : short 14 enter → sees s (enter ++ lf ++ rest) st → wp press_enter (λ _ s', sees s' rest st) s.
Proof.
  intros He Hs. unfold press_enter. wp_step. eapply wp_mono; [by apply (wp_line 16 enter rest)|]. intros b s' [_ Hs']. by wp_step.
Qed.

Lemma wp_spawn child s i st (Q : S → Prop) : sees s i st → (∀ s', sees s' i st → wp child (λ _, Q) s') → wp (spawn child) (λ _, Q) s.
Proof.
  intros [Hi Hs] Hc. unfold spawn. wp_step. eapply wp_mono; [apply tl_fork|]. intros pid s1 (Hp & Hi1 & Hs1).
  rewrite (proj2 (Z.ltb_lt _ _)) by done. unfold whenM. wp_step. eapply wp_mono; [apply Hc; split; congruence|]. intros [] s2 HQ. by wp_step.
Qed.
Lemma wp_wait s i st : sees s i st → wp u_wait (λ _ s', sees s' i st) s.
Proof. intros [Hi Hs]. eapply wp_mono; [apply tl_wait|]. intros k s' [Hi' Hs']. split; congruence. Qed.

Lemma wp_exec_only path typed rest s st : reads [path] typed → sees s (typed ++ rest) st →
  wp (spawn (exec_only path)) (λ _ s', sees s' rest (st ++ [[path]])) s.
Proof.
  intros Hr Hs. eapply wp_spawn; [done|]. intros s1 [Hi Hs1]. unfold exec_only. wp_step.
  eapply wp_mono; [by apply (tl_exec path [path] typed rest)|]. intros ok s2 [Hi2 Hs2]. wp_step. split; congruence.
Qed.

Ltac say_step := cbv beta in *; wp_step; eapply wp_mono; [eapply sees_prints; [apply prints_say; vm_compute; reflexivity|eassumption]|]; intros [] ? ?.

Lemma wp_tui_shell typed rest s st : reads [lit "sh"] typed → sees s (typed ++ rest) st →
  wp tui_shell (λ _ s', sees s' rest (st ++ [[lit "sh"]])) s.
Proof.
  intros Hr Hs. unfold tui_shell. say_step. wp_step. eapply wp_mono; [eapply wp_exec_only; eassumption|]. intros pid s2 Hs2.
  wp_step. eapply wp_mono; [exact (wp_wait _ _ _ Hs2)|]. intros k s3 Hs3. by wp_step.
Qed.
Lemma wp_tui_hardware enter rest s st : short 14 enter → sees s (enter ++ lf ++ rest) st → wp tui_hardware (λ _ s', sees s' rest st) s.
Proof. intros He Hs. unfold tui_hardware. do 7 say_step. eapply wp_press_enter; eassumption. Qed.
Lemma wp_tui_files typed enter rest s st : reads [lit "ls"] typed → short 14 enter → sees s (typed ++ enter ++ lf ++ rest) st →
  wp tui_files (λ _ s', sees s' rest (st ++ [[lit "ls"]])) s.
Proof.
  intros Hr He Hs. unfold tui_files. do 2 say_step. wp_step. eapply wp_mono; [eapply wp_exec_only; eassumption|]. intros pid s2 Hs2.
  wp_step. eapply wp_mono; [exact (wp_wait _ _ _ Hs2)|]. intros k s3 Hs3. say_step. eapply wp_press_enter; eassumption.
Qed.

Lemma chomp_line name : chomp (name ++ lf) = name.
Proof.
  unfold chomp. rewrite length_app. cbn [length lf]. rewrite Nat.add_sub. rewrite (proj2 (Nat.ltb_lt _ _)) by lia.
  rewrite lookup_total_app_r, Nat.sub_diag by lia. simpl. apply take_app_length.
Qed.

Lemma wp_tui_program name typed enter rest s st : short 30 name → Forall (λ c, c ≠ 0) name → reads [name] typed → short 14 enter →
  sees s (name ++ lf ++ typed ++ enter ++ lf ++ rest) st →
  wp tui_program (λ _ s', sees s' rest (st ++ [[name]])) s.
Proof.
  intros Hn Hz Hr He Hs. unfold tui_program. do 3 say_step. wp_step. eapply wp_mono; [by apply (wp_line 32 name (typed ++ enter ++ lf ++ rest))|].
  intros b s2 [-> Hs2]. rewrite cpre_ptr_of, chomp_line; [| |rewrite !length_app; simpl; lia|by right; left].
  2: { apply Forall_app. split; [done|by repeat constructor]. }
  wp_step. eapply wp_mono; [eapply (sees_prints (lf ++ lit "Iniciando " ++ name ++ lit "..." ++ lf ++ lf)); [apply prints_printf|exact Hs2]|].
  { change (lf ++ lit "Iniciando %s..." ++ lf ++ lf) with ((lf ++ lit "Iniciando ") ++ (37 :: 115 :: lit "..." ++ lf ++ lf)).
    rewrite (app_assoc lf). apply printf_lit; [by repeat constructor|]. by apply printf_str. }
  intros [] s3 Hs3. wp_step. eapply wp_mono; [eapply (wp_spawn _ _ _ _ (λ s', sees s' (enter ++ lf ++ rest) (st ++ [[name]]))); [exact Hs3|]|].
  { intros s4 [Hi4 Hs4]. wp_step. eapply wp_mono; [by apply (tl_exec name [name] typed (enter ++ lf ++ rest))|]. intros ok s5 [Hi5 Hs5].
    unfold whenM. destruct (negb ok); [|wp_step; split; congruence].
    eapply (sees_prints (lit "Erro: Nao foi possivel rodar o programa '" ++ name ++ lit "'" ++ lf)); [apply prints_printf|split; congruence].
    change (lit "Erro: Nao foi possivel rodar o programa '%s'" ++ lf) with (lit "Erro: Nao foi possivel rodar o programa '" ++ (37 :: 115 :: lit "'" ++ lf)).
    apply printf_lit; [by repeat constructor|]. by apply printf_str. }
  intros pid s4 Hs4. wp_step. eapply wp_mono; [exact (wp_wait _ _ _ Hs4)|]. intros k s5 Hs5. say_step. eapply wp_press_enter; eassumption.
Qed.

(** What the menu does with the first byte of the line typed. *)
Lemma wp_tui_turn l c rest f s st (Q : S → Prop) : ((l ++ lf) ++ [0]) !!! 0%nat = c → short 14 l → sees s (l ++ lf ++ rest) st →
  (∀ s', sees s' rest st → wp (
      if c =? 49 then tui_shell ;; tui_loop f
      else if c =? 50 then tui_hardware ;; tui_loop f
      else if c =? 51 then tui_files ;; tui_loop f
      else if c =? 52 then tui_program ;; tui_loop f
      else if c =? 53 then ret tt
      else tui_loop f) (λ _, Q) s') →
  wp (tui_loop (Datatypes.S f)) (λ _, Q) s.
Proof.
  intros Hc Hl Hs HQ. cbn [tui_loop]. wp_step. eapply wp_mono; [eapply sees_prints; [apply prints_menu|exact Hs]|]. intros [] s1 Hs1. cbv beta in Hs1.
  wp_step. eapply wp_mono; [by apply (wp_line 16 l rest)|]. intros b s2 [-> Hs2]. rewrite Hc. by apply HQ.
Qed.

Lemma other_key c (A : Type) (a1 a2 a3 a4 a5 a6 : A) : negb ((49 <=? c) && (c <=? 53)) = true →
  (if c =? 49 then a1 else if c =? 50 then a2 else if c =? 51 then a3 else if c =? 52 then a4 else if c =? 53 then a5 else a6) = a6.
Proof.
  intros Hc. assert (c < 49 ∨ 53 < c) by lia.
  by rewrite (proj2 (Z.eqb_neq c 49)), (proj2 (Z.eqb_neq c 50)), (proj2 (Z.eqb_neq c 51)), (proj2 (Z.eqb_neq c 52)), (proj2 (Z.eqb_neq c 53)) by lia.
Qed.

Lemma wp_tui_choice c rest f s st (Q : S → Prop) : choice_ok c → sees s (choice_text c ++ rest) st →
  (∀ s', sees s' rest (st ++ choice_starts c) → wp (tui_loop f) (λ _, Q) s') →
  wp (tui_loop (Datatypes.S f)) (λ _, Q) s.
Proof.
  intros Hok Hs HQ. destruct c as [typed|enter|typed enter|name typed enter|line]; cbn [choice_ok choice_text choice_starts] in *; rewrite <- ?app_assoc in Hs.
  5: { destruct Hok as [Hl Hk]. rewrite app_nil_r in HQ. eapply (wp_tui_turn line _ rest f s st); [reflexivity|done|done|]. intros s1 Hs1.
       rewrite other_key; [by apply HQ|]. by destruct line. }
  1: apply (wp_tui_turn (lit "1") 49 (typed ++ rest) f s st); [done|by repeat constructor; simpl; lia|done|].
  2: apply (wp_tui_turn (lit "2") 50 (enter ++ lf ++ rest) f s st); [done|by repeat constructor; simpl; lia|done|].
  3: apply (wp_tui_turn (lit "3") 51 (typed ++ enter ++ lf ++ rest) f s st); [done|by repeat constructor; simpl; lia|done|].
  4: apply (wp_tui_turn (lit "4") 52 (name ++ lf ++ typed ++ enter ++ lf ++ rest) f s st); [done|by repeat constructor; simpl; lia|done|].
  all: intros s1 Hs1; cbn [Z.eqb Pos.eqb]; cbn match; wp_step; eapply wp_mono.
  - by apply (wp_tui_shell typed rest _ st).
  - intros [] s2 Hs2. by apply HQ.
  - by apply (wp_tui_hardware enter rest _ st).
  - intros [] s2 Hs2. apply HQ. by rewrite app_nil_r.
  - destruct Hok as [Hr He]. by apply (wp_tui_files typed enter rest _ st).
  - intros [] s2 Hs2. by apply HQ.
  - destruct Hok as (Hn & Hz & Hr & He). by apply (wp_tui_program name typed enter rest _ st).
  - intros [] s2 Hs2. by apply HQ.
Qed.


(** C40: The menu looks as intended.  On any terminal of 25 lines and 80 columns
    that follows ECMA-48, whatever it shows and wherever its cursor is, what
    [desenhar_menu] prints draws exactly the picture of the menu, every cell of
    it, and leaves the cursor behind the prompt. *)
Theorem menu_drawn {T : Type} {HT : AnsiTerm T} {HA : AnsiLaws T} s (t : T) : ready t →
  wp desenhar_menu (λ _ s', ∃ b, t_out s' = t_out s ++ b ∧ t_in s' = t_in s ∧
    cursor (feed t b) = (16, 48) ∧ ∀ r c, on_screen r c → cell (feed t b) r c = at_ picture r c) s.
Proof.
  intros Ht. eapply wp_mono; [apply prints_menu|]. intros [] s' (Ho & Hi & _). exists menu_bytes.
  destruct (menu_draws t Ht) as [_ Hc Hp]. split_and!; [done|done|by apply Hp|]. by apply (Hc picture).
Qed.
End runs.

(** ** init *)

(** The processes [wait] reports to init: orphans that have exited, at most as
    many as the table has slots, and then the child. *)
Class InitView (S : Type) := {
  child_pid : S → Z;
  orphans : S → nat
}.
Class InitLaws (S : Type) {HU : UserOS S} {HP : ProcOS S} {HV : TuiView S} {HI : InitView S} := {
  il_open path mode s : wp (u_open path mode) (λ _ s', t_in s' = t_in s ∧ t_started s' = t_started s) s;
  il_mknod path a b s : wp (u_mknod path a b) (λ _ s', t_in s' = t_in s ∧ t_started s' = t_started s) s;
  il_dup fd s : wp (u_dup fd) (λ _ s', t_in s' = t_in s ∧ t_started s' = t_started s) s;
  il_sleep n s : wp (u_sleep n) (λ _ s', t_in s' = t_in s ∧ t_started s' = t_started s) s;
  il_orphans s : (Z.of_nat (orphans s) < NPROC);
  il_write bytes s : wp (u_write 1 bytes) (λ _ s', child_pid s' = child_pid s ∧ orphans s' = orphans s) s;
  il_fork s : wp u_fork (λ pid s', child_pid s' = pid) s;
  il_exec path argv s : wp (u_exec path argv) (λ _ s', child_pid s' = child_pid s) s;
  il_wait s : wp u_wait (λ wpid s', child_pid s' = child_pid s ∧
    match orphans s with
    | O => wpid = child_pid s
    | S k => 0 < wpid ∧ orphans s' = k
    end) s
}.

Section init_spec.
Context {S : Type} {HU : UserOS S} {HP : ProcOS S} {HV : TuiView S} {HL : TuiLaws S} {HI : InitView S} {HIL : InitLaws S}.
Implicit Types s : S.

Lemma wp_and {A} (c : M S A) (P Q : A → S → Prop) s : wp c P s → wp c Q s → wp c (λ a s', P a s' ∧ Q a s') s.
Proof. unfold wp. by destruct (c s). Qed.

Lemma put_all_pid b s : wp (put_all 1 b) (λ _ s', child_pid s' = child_pid s ∧ orphans s' = orphans s) s.
Proof.
  revert s. induction b as [|x b IH]; intros s; cbn [put_all]; [by wp_step|]. wp_step. eapply wp_mono; [apply il_write|].
  intros k s1 [Hp Ho]. eapply wp_mono; [apply IH|]. intros [] s2 [Hp2 Ho2]. split; congruence.
Qed.

(** Init waits for its child, whatever else exits in the meantime. *)
Lemma wp_wait_for fuel : ∀ s i st, (orphans s < fuel)%nat → sees s i st →
  wp (wait_for fuel (child_pid s)) (λ _ s', sees s' i st) s.
Proof.
  induction fuel as [|f IH]; intros s i st Hf Hs; [lia|]. cbn [wait_for]. wp_step.
  eapply wp_mono; [exact (wp_and _ _ _ _ (wp_wait s i st Hs) (il_wait s))|].
  intros wpid s1 [Hs1 [Hp1 Hw]]. destruct (orphans s) as [|k].
  - subst wpid. rewrite Z.eqb_refl, andb_false_r. by wp_step.
  - destruct Hw as [Hpos Ho]. destruct ((0 <=? wpid) && _); [|by wp_step]. wp_step.
    assert (Hz : printf (lit "zombie!" ++ lf) [] = Some (lit "zombie!" ++ lf)) by (by vm_compute).
    eapply wp_mono; [apply wp_and; [eapply sees_prints; [apply prints_say, Hz|exact Hs1]|]|].
    { unfold say, uprintf. rewrite Hz. apply put_all_pid. }
    intros [] s2 [Hs2 [Hp2 Ho2]]. rewrite <- Hp1, <- Hp2. apply IH; [lia|done].
Qed.

(** A turn of the loop starts the interface, which reads its part of the input. *)
Lemma wp_init_turn fuel typed rest s st : (64 ≤ fuel)%nat → reads [lit "tui"] typed → sees s (typed ++ rest) st →
  wp (init_turn fuel) (λ go s', go = true ∧ sees s' rest (st ++ [[lit "tui"]])) s.
Proof.
  intros Hf Hr Hs. unfold init_turn, spawn. wp_step.
  eapply wp_mono; [eapply sees_prints; [apply prints_say; vm_compute; reflexivity|exact Hs]|]. intros [] s1 [Hi1 Hs1].
  wp_step. wp_step. eapply wp_mono; [exact (wp_and _ _ _ _ (tl_fork s1) (il_fork s1))|]. intros pid s2 [(Hp & Hi2 & Hs2) Hc2].
  rewrite (proj2 (Z.ltb_lt _ _)) by done. unfold whenM at 1. wp_step. wp_step.
  eapply wp_mono; [apply wp_and; [apply (tl_exec (lit "tui") [lit "tui"] typed rest s2); [done|congruence]|apply il_exec]|].
  intros ok s3 [[Hi3 Hs3] Hc3]. cbv beta.
  assert (Hz : printf (lit "init: falha ao iniciar a interface TUI" ++ lf) [] = Some (lit "init: falha ao iniciar a interface TUI" ++ lf)) by (by vm_compute).
  assert (H3 : sees s3 rest (st ++ [[lit "tui"]])) by (split; congruence).
  assert (Hm : wp (whenM (negb ok) (say (lit "init: falha ao iniciar a interface TUI" ++ lf))) (λ _ s', sees s' rest (st ++ [[lit "tui"]]) ∧ child_pid s' = pid) s3).
  { unfold whenM. destruct (negb ok); [|wp_step; split; [done|congruence]].
    apply wp_and; [eapply sees_prints; [apply prints_say, Hz|done]|]. unfold say, uprintf. rewrite Hz.
    eapply wp_mono; [apply put_all_pid|]. intros [] s4 [-> _]. congruence. }
  eapply wp_mono; [exact Hm|]. intros [] s4 [Hs4 Hc4]. wp_step. rewrite (proj2 (Z.ltb_ge _ _)) by lia. wp_step.
  rewrite <- Hc4. eapply wp_mono; [apply wp_wait_for; [|exact Hs4]|].
  { pose proof (il_orphans s4) as Ho. change NPROC with 64 in Ho. lia. }
  intros [] s5 Hs5. by wp_step.
Qed.

Lemma sees_write_n b n s i st : sees s i st → wp (write_n b n) (λ _ s', sees s' i st) s.
Proof. intros [Hi Hs]. unfold write_n. wp_step. eapply wp_mono; [apply tl_write|]. intros k s' (_ & Hi' & Hs'). wp_step. split; congruence. Qed.

(** Init starts the interface again each time it ends. *)
Theorem init_restarts parts rest fuel s : (64 ≤ fuel)%nat → Forall (reads [lit "tui"]) parts → t_in s = concat parts ++ rest →
  wp (init_main fuel (length parts)) (λ _ s', t_in s' = rest ∧ t_started s' = t_started s ++ replicate (length parts) [lit "tui"]) s.
Proof.
  intros Hf Hp Hi. remember (t_started s) as st eqn:Est. assert (Hs : sees s (concat parts ++ rest) st) by done. clear Hi Est.
  unfold init_main. wp_step. apply wp_mono with (P := λ _ s', sees s' (concat parts ++ rest) st).
  { unfold init_open. destruct Hs as [Hi Hs]. repeat first
      [ progress wp_step
      | eapply wp_mono; [first [apply il_open|apply il_mknod|apply il_dup]|intros ? ? [? ?]]
      | split; congruence ]. }
  intros [] s1 Hs1. wp_step. apply wp_mono with (P := λ _ s', sees s' (concat parts ++ rest) st).
  { unfold splash. do 5 (wp_step; eapply wp_mono; [apply sees_write_n; eassumption|intros [] ? ?]).
    wp_step. eapply wp_mono; [apply il_sleep|]. intros k s7 [Hi7 Hs7]. apply sees_write_n.
    match goal with H : sees _ _ _ |- _ => destruct H; split; congruence end. }
  clear s s1 Hs Hs1. intros [] s Hs. revert s st Hs. induction Hp as [|typed parts Ht _ IH]; intros s st Hs; cbn [length init_turns replicate].
  - wp_step. rewrite app_nil_r. by destruct Hs.
  - rewrite concat_cons, <- app_assoc in Hs. wp_step. eapply wp_mono; [by apply (wp_init_turn fuel typed (concat parts ++ rest) s st)|].
    intros go s1 [-> Hs1]. cbn match. rewrite cons_middle, app_assoc. by apply IH.
Qed.
End init_spec.

(** ** A system and a terminal *)

(** The shell reads one byte here, every other program none. *)
Record demo_tui := DemoTui { dm_in : list Z; dm_out : list Z; dm_started : list (list (list Z)) }.
Definition demo_takes (argv : list (list Z)) : nat := if bool_decide (argv = [lit "sh"]) then 1%nat else 0%nat.

#[global] Instance demo_tui_user : UserOS demo_tui := {
  u_open _ _ s := Ok (-1) s;
  u_read _ _ s :=
    match dm_in s with
    | [] => Ok (0, []) s
    | c :: l => Ok (1, [c]) (DemoTui l (dm_out s) (dm_started s))
    end;
  u_write _ bytes s := Ok (Z.of_nat (length bytes)) (DemoTui (dm_in s) (dm_out s ++ bytes) (dm_started s));
  u_close _ s := Ok 0 s;
  u_fstat _ s := Ok (-1, no_stat) s;
  u_unlink _ s := Ok (-1) s;
  u_mkdir _ s := Ok (-1) s;
  u_link _ _ s := Ok (-1) s;
  u_kill _ s := Ok (-1) s
}.
#[global] Instance demo_tui_proc : ProcOS demo_tui := {
  u_fork s := Ok 7 s;
  u_exec _ argv s := Ok (bool_decide (argv ≠ [lit "hello"]))
    (DemoTui (drop (demo_takes argv) (dm_in s)) (dm_out s) (dm_started s ++ [argv]));
  u_wait s := Ok 7 s;
  u_sleep _ s := Ok 0 s;
  u_mknod _ _ _ s := Ok 0 s;
  u_dup _ s := Ok 1 s;
  u_chdir _ s := Ok (-1) s
}.
#[global] Instance demo_tui_view : TuiView demo_tui :=
  { t_in := dm_in; t_out := dm_out; t_started := dm_started; reads argv typed := length typed = demo_takes argv }.
#[global] Program Instance demo_tui_laws : TuiLaws demo_tui := {}.
Next Obligation. by intros [[|c l] o st]. Qed.
Next Obligation. by intros bytes [l o st]. Qed.
Next Obligation. by intros [l o st]. Qed.
Next Obligation.
  intros path argv typed rest [l o st] Hr Hi. simpl in *. unfold wp. cbn [u_exec demo_tui_proc dm_in dm_started]. rewrite Hi, <- Hr.
  split; [apply drop_app_length|done].
Qed.
Next Obligation. by intros [l o st]. Qed.

Definition demo_choices : list choice :=
  [Terminal (lit "x"); Other []; Hardware []; Files [] (lit "ok"); Other (lit "9"); Program (lit "hello") [] []].


(** A terminal that collects a sequence until it is complete. *)
Record demo_term := DemoTerm { dt_pending : list Z; dt_pos : Z * Z; dt_cell : Z → Z → list Z }.

Definition complete (p : list Z) : option op :=
  match p with
  | [b] => if (b =? 27) || (b =? 226) then None else Some (Glyph p)
  | a :: b :: l =>
      if a =? 226 then match l with [_] => Some (Glyph p) | _ => None end
      else match last l with
      | Some e =>
          if e =? 109 then Some (Colour p)
          else if e =? 74 then Some Clear
          else if e =? 72 then
            match l with
            | [_] => Some Home
            | _ => let '(r, l1) := number 0 l in Some (Goto r (number 0 (drop 1 l1)).1)
            end
          else None
      | None => None
      end
  | [] => None
  end.
Definition perform (t : demo_term) (o : op) : demo_term :=
  match o with
  | Colour _ => DemoTerm [] (dt_pos t) (dt_cell t)
  | Clear => DemoTerm [] (dt_pos t) (λ _ _, [32])
  | Home => DemoTerm [] (1, 1) (dt_cell t)
  | Goto l k => DemoTerm [] (l, k) (dt_cell t)
  | Glyph g => let '(l, k) := dt_pos t in
      DemoTerm [] (l, if k <? 80 then k + 1 else k) (λ r c, if decide (r = l ∧ c = k) then g else dt_cell t r c)
  end.
#[global] Instance demo_ansi : AnsiTerm demo_term := {
  feed1 t b :=
    match complete (dt_pending t ++ [b]) with
    | Some o => perform t o
    | None => DemoTerm (dt_pending t ++ [b]) (dt_pos t) (dt_cell t)
    end;
  ready t := dt_pending t = [];
  cell := dt_cell;
  cursor := dt_pos
}.

(** A sequence that becomes complete with its last byte. *)
Fixpoint scans (p l : list Z) (o : op) : bool :=
  match l with
  | [] => false
  | [b] => bool_decide (complete (p ++ [b]) = Some o)
  | b :: l' => bool_decide (complete (p ++ [b]) = None) && scans (p ++ [b]) l' o
  end.

Lemma feed_scans l o : ∀ p pos cells, scans p l o = true →
  feed (DemoTerm p pos cells) l = perform (DemoTerm [] pos cells) o.
Proof.
  induction l as [|b l IH]; intros p pos cells Hs; [done|]. unfold feed. cbn [foldl feed1 demo_ansi dt_pending dt_pos dt_cell].
  destruct l as [|b' l]; cbn [scans] in Hs.
  - case_bool_decide as E; [|done]. rewrite E. by destruct o, pos.
  - apply andb_true_iff in Hs as [E Hs]. apply bool_decide_eq_true_1 in E. rewrite E. by apply (IH (p ++ [b])).
Qed.

Lemma scans_goto l k : on_screen l k → scans [] (goto_seq l k) (Goto l k) = true.
Proof.
  intros [Hl Hk].
  assert (A : forallb (λ l, forallb (λ k, scans [] (goto_seq l k) (Goto l k)) (seqZ 1 80)) (seqZ 1 25) = true) by (vm_compute; reflexivity).
  assert (Hl' : l ∈ seqZ 1 25) by (apply elem_of_seqZ; lia). assert (Hk' : k ∈ seqZ 1 80) by (apply elem_of_seqZ; lia).
  rewrite forallb_forall in A. apply list_elem_of_In, A in Hl'. rewrite forallb_forall in Hl'. by apply list_elem_of_In, Hl' in Hk'.
Qed.
Lemma scans_glyph g : glyph g = true → scans [] g (Glyph g) = true.
Proof.
  destruct g as [|a [|b [|c [|]]]]; try done; cbn [glyph scans app complete].
  - intros Hg. rewrite (proj2 (Z.eqb_neq a 27)), (proj2 (Z.eqb_neq a 226)) by lia. by apply bool_decide_eq_true.
  - intros Hg. assert (a = 226) as -> by lia. repeat (apply andb_true_iff; split); by apply bool_decide_eq_true.
Qed.

#[global] Program Instance demo_ansi_laws : AnsiLaws demo_term := {}.
Next Obligation.
  intros seq [p pos cells] Hr Hs. cbn in Hr. subst p. rewrite (feed_scans seq (Colour seq)); [done|].
  repeat (apply elem_of_cons in Hs as [->|Hs]; [by vm_compute|]). by apply not_elem_of_nil in Hs.
Qed.
Next Obligation. intros [p pos cells] Hr. cbn in Hr. subst p. by rewrite (feed_scans (csi "2J") Clear). Qed.
Next Obligation. intros [p pos cells] Hr. cbn in Hr. subst p. by rewrite (feed_scans (csi "H") Home). Qed.
Next Obligation. intros l k [p pos cells] Hr Hs. cbn in Hr. subst p. by rewrite (feed_scans _ (Goto l k)) by (by apply scans_goto). Qed.
Next Obligation.
  intros g l k [p pos cells] Hr Hg Hp Hs. cbn in Hr, Hp. subst p pos. rewrite (feed_scans _ (Glyph g)) by (by apply scans_glyph).
  cbn. split_and!; [done| |done]. intros Hk. by rewrite (proj2 (Z.ltb_lt _ _)).
Qed.

Lemma menu_drawn_witness :
  wp desenhar_menu (λ _ s', cell (feed (DemoTerm [] (13, 7) (λ _ _, [63])) (t_out s')) 9 24 = [49]) (DemoTui [] [] []).
Proof.
  eapply wp_mono.
  - apply (menu_drawn (DemoTui [] [] []) (DemoTerm [] (13, 7) (λ _ _, [63]))). reflexivity.
  - intros [] s' (b & -> & _ & _ & Hc). rewrite Hc by (unfold on_screen; lia). vm_compute. reflexivity.
Defined.
