(* ===== verification/Umalloc.v ===== *)
(** * The user memory allocator (umalloc.c)

    The circular free list of Kernighan and Ritchie.  A header is known by its
    address; [hp_ptr] and [hp_size] are the two fields of the headers, which never
    overlap in a well-formed heap.  [base] is the address of the static header,
    below the heap.  [sbrk] is what growproc does with the size of the process;
    whether the kernel has memory to grow is a parameter.  The loops go around the list,
    which has at most one block for each unit of the heap, and that bounds them:
    [malloc] walks around it at most once before and once after it asks for more
    memory. *)

From S2P Require Import Prelude Words Params.

Record heap := Heap {
  hp_ptr : Z → Z;
  hp_size : Z → Z;
  hp_freep : Z;
  hp_brk : Z
}.

Definition set_ptr (a v : Z) (h : heap) : heap := Heap (λ x, if x =? a then v else hp_ptr h x) (hp_size h) (hp_freep h) (hp_brk h).
Definition set_size (a v : Z) (h : heap) : heap := Heap (hp_ptr h) (λ x, if x =? a then v else hp_size h x) (hp_freep h) (hp_brk h).
Definition set_freep (v : Z) (h : heap) : heap := Heap (hp_ptr h) (hp_size h) v (hp_brk h).
Definition set_brk (v : Z) (h : heap) : heap := Heap (hp_ptr h) (hp_size h) (hp_freep h) v.

Definition get_ptr (a : Z) : M heap Z := gets (λ h, hp_ptr h a).
Definition get_size (a : Z) : M heap Z := gets (λ h, hp_size h a).

Definition sizeof_Header : Z := 8.
(** [p + n] for a pointer to a header. *)
Definition hplus (p n : Z) : Z := u32 (p + sizeof_Header * n).

(** More turns than any walk around the list takes. *)
Definition heap_fuel (h : heap) : nat := Z.to_nat (hp_brk h / sizeof_Header) + 2.

(** The loop of [free]: where the block belongs. *)
Fixpoint free_find (fuel : nat) (bp p : Z) : M heap Z :=
  match fuel with
  | O => fault
  | S f =>
      nx ← get_ptr p;
      if (p <? bp) && (bp <? nx) then ret p
      else if (nx <=? p) && ((p <? bp) || (bp <? nx)) then ret p
      else free_find f bp nx
  end.

Definition free (ap : Z) : M heap unit :=
  let bp := u32 (ap - sizeof_Header) in
  h ← getS;
  p ← free_find (heap_fuel h) bp (hp_freep h);
  nx ← get_ptr p;
  sz ← get_size bp;
  (if hplus bp sz =? nx then
     nsz ← get_size nx;
     modify (set_size bp (u32 (sz + nsz))) ;;
     nnx ← get_ptr nx;
     modify (set_ptr bp nnx)
   else modify (set_ptr bp nx)) ;;
  psz ← get_size p;
  (if hplus p psz =? bp then
     bsz ← get_size bp;
     modify (set_size p (u32 (psz + bsz))) ;;
     bnx ← get_ptr bp;
     modify (set_ptr p bnx)
   else modify (set_ptr p bp)) ;;
  modify (set_freep p).

Section malloc.
Context (base : Z) (grow : Z → Z → bool).

(** [sbrk(n)]: the old size, or -1. *)
Definition sbrk (n : Z) : M heap Z :=
  brk ← gets hp_brk;
  let nb := u32 (brk + n) in
  if 0 <? n then
    if (KERNBASE <=? nb) || negb (grow brk n) then ret (-1)
    else whenM (brk <=? nb) (modify (set_brk nb)) ;; ret brk
  else if n <? 0 then
    if nb =? 0 then ret (-1)
    else whenM (nb <? brk) (modify (set_brk nb)) ;; ret brk
  else ret brk.

Definition morecore (nu : Z) : M heap Z :=
  let nu := if nu <? 4096 then 4096 else nu in
  p ← sbrk (i32 (nu * sizeof_Header));
  if p =? -1 then ret 0
  else
    modify (set_size p nu) ;;
    free (hplus p 1) ;;
    gets hp_freep.

Fixpoint malloc_loop (fuel : nat) (nunits prevp p : Z) : M heap Z :=
  match fuel with
  | O => fault
  | S f =>
      sz ← get_size p;
      if nunits <=? sz then
        p ← (if sz =? nunits then nx ← get_ptr p; modify (set_ptr prevp nx) ;; ret p
             else
               modify (set_size p (u32 (sz - nunits))) ;;
               let p := hplus p (u32 (sz - nunits)) in
               modify (set_size p nunits) ;;
               ret p);
        modify (set_freep prevp) ;;
        ret (hplus p 1)
      else
        freep ← gets hp_freep;
        if p =? freep then
          p ← morecore nunits;
          if p =? 0 then ret 0
          else nx ← get_ptr p; malloc_loop f nunits p nx
        else nx ← get_ptr p; malloc_loop f nunits p nx
  end.

Definition units (nbytes : Z) : Z := u32 (nbytes + sizeof_Header - 1) / sizeof_Header + 1.

Definition malloc (nbytes : Z) : M heap Z :=
  let nunits := units nbytes in
  freep ← gets hp_freep;
  prevp ← (if freep =? 0 then
             modify (set_freep base) ;; modify (set_ptr base base) ;; modify (set_size base 0) ;; ret base
           else ret freep);
  h ← getS;
  p ← get_ptr prevp;
  malloc_loop (4 * heap_fuel h + 8) nunits prevp p.

End malloc.
