(* ===== verification/UmallocInv.v ===== *)
(** * The heap of the user allocator: invariant and walks (umalloc.c) *)

From Stdlib Require Import Sorted.
From S2P Require Import Prelude Words Params Umalloc.

(** ** Blocks *)

(** The address of the header and the size in units. *)
Definition block : Type := Z * Z.
Definition bend (b : block) : Z := b.1 + sizeof_Header * b.2.
(** [b] starts behind the end of [a]: they could not be joined. *)
Definition before (a b : block) : Prop := bend a < b.1.
Definition apart (a b : block) : Prop := bend a ≤ b.1 ∨ bend b ≤ a.1.

(** The nodes of a list point to one another, the last one to [e]. *)
Fixpoint chain (nxt : Z → Z) (l : list Z) (e : Z) : Prop :=
  match l with
  | [] => True
  | a :: l' => nxt a = hd e l' ∧ chain nxt l' e
  end.

Lemma chain_app nxt l1 l2 e : chain nxt (l1 ++ l2) e ↔ chain nxt l1 (hd e l2) ∧ chain nxt l2 e.
Proof. induction l1 as [|a l1 IH]; simpl; [tauto|]. rewrite IH. destruct l1; simpl; tauto. Qed.

Lemma chain_same nxt nxt' l e : (∀ a, a ∈ l → nxt' a = nxt a) → chain nxt l e → chain nxt' l e.
Proof.
  induction l as [|a l IH]; simpl; [done|]. intros Hl [Ha Hc]. split; [rewrite Hl; [done|by left]|]. apply IH; [|done]. intros x Hx. apply Hl. by right.
Qed.

Lemma hd_in {A} (e : A) l : hd e l ∈ e :: l.
Proof. destruct l; set_solver. Qed.

(** The circle is closed under following the links. *)
Lemma chain_next nxt l e a : chain nxt l e → a ∈ l → nxt a ∈ e :: l.
Proof.
  intros Hc (l1 & l2 & ->)%list_elem_of_split. apply chain_app in Hc as [_ [E _]]. rewrite E.
  pose proof (hd_in e l2). set_solver.
Qed.

(** Who points to a node that is not the first one. *)
Lemma chain_pred nxt g1 pr c g2 e x : chain nxt (g1 ++ pr :: c :: g2) e → NoDup (g1 ++ pr :: c :: g2) → c ≠ e →
  x ∈ g1 ++ pr :: c :: g2 → nxt x = c → x = pr.
Proof.
  intros Hc Hn Hce (l1 & l2 & E)%list_elem_of_split Hx. rewrite E in Hc. apply chain_app in Hc as [_ [Ex _]]. rewrite Hx in Ex.
  destruct l2 as [|c' l2]; [done|]. simpl in Ex. subst c'. rewrite E in Hn.
  assert (E' : (l1 ++ [x]) ++ c :: l2 = (g1 ++ [pr]) ++ c :: g2) by by rewrite <- !app_assoc.
  assert (Hnd : NoDup ((l1 ++ [x]) ++ c :: l2)) by by rewrite <- app_assoc. clear E Hn Hx.
  assert (G : l1 ++ [x] = g1 ++ [pr]).
  { revert E' Hnd. generalize (l1 ++ [x]) (g1 ++ [pr]). intros u. induction u as [|y u IH]; intros [|z v] E Hnd; simpl in *; [done| | |].
    - injection E as <- E. exfalso. apply NoDup_cons in Hnd as [Hnd _]. apply Hnd. rewrite E. set_solver.
    - injection E as -> E. exfalso. apply NoDup_cons in Hnd as [Hnd _]. apply Hnd. set_solver.
    - injection E as -> E. apply NoDup_cons in Hnd as [_ Hnd]. f_equal. by apply IH. }
  by apply app_inj_tail in G as [].
Qed.

(** Following the links leads from any node to any other. *)
Lemma walk_to nxt l2 : ∀ p l1 e f, chain nxt (p :: l1 ++ f :: l2) e → Nat.iter (S (length l1)) nxt p = f.
Proof.
  intros p l1. revert p. induction l1 as [|a l1 IH]; intros p e f [Ha Hc]; simpl in Ha.
  - by simpl.
  - change (Nat.iter (S (S (length l1))) nxt p = f). rewrite Nat.iter_succ_r, Ha. by apply (IH a e f).
Qed.

Lemma walk_end nxt : ∀ l p e, chain nxt (p :: l) e → Nat.iter (S (length l)) nxt p = e.
Proof.
  induction l as [|a l IH]; intros p e [Ha Hc]; simpl in Ha; [by simpl|]. change (Nat.iter (S (S (length l))) nxt p = e).
  rewrite Nat.iter_succ_r, Ha. by apply IH.
Qed.

Lemma reach nxt b l p f : chain nxt (b :: l) b → p ∈ b :: l → f ∈ b :: l → ∃ k, (k ≤ 2 * S (length l))%nat ∧ Nat.iter k nxt p = f.
Proof.
  intros Hc Hp Hf. assert (H1 : ∃ k, (k ≤ S (length l))%nat ∧ Nat.iter k nxt p = b).
  { apply list_elem_of_split in Hp as (l1 & l2 & E). assert (Hl : (length l2 ≤ length l)%nat).
    { apply (f_equal length) in E. rewrite length_app in E. simpl in E. lia. }
    rewrite E in Hc. apply chain_app in Hc as [_ Hc]. exists (S (length l2)). split; [lia|]. by apply walk_end. }
  assert (H2 : ∃ k, (k ≤ S (length l))%nat ∧ Nat.iter k nxt b = f).
  { apply elem_of_cons in Hf as [->|Hf]; [exists 0%nat; split; [lia|done]|]. apply list_elem_of_split in Hf as (l1 & l2 & ->).
    exists (S (length l1)). split; [rewrite length_app; simpl; lia|]. by eapply walk_to. }
  destruct H1 as (k1 & ? & E1), H2 as (k2 & ? & E2). exists (k2 + k1)%nat. split; [lia|]. by rewrite Nat.iter_add, E1.
Qed.

(** ** Sorted lists of blocks *)

Lemma sorted_app {A} (R : A → A → Prop) l1 l2 :
  StronglySorted R (l1 ++ l2) ↔ StronglySorted R l1 ∧ StronglySorted R l2 ∧ ∀ x y, x ∈ l1 → y ∈ l2 → R x y.
Proof.
  induction l1 as [|a l1 IH]; simpl.
  - split; [|by intros (_ & ? & _)]. intros H. split_and!; [constructor|done|]. intros x y Hx. by apply elem_of_nil in Hx.
  - split.
    + inversion_clear 1 as [|?? Hs Hf]. apply IH in Hs as (Hs1 & Hs2 & Hr). apply Forall_app in Hf as [Hf1 Hf2]. split_and!; [by constructor|done|].
      intros x y [->|Hx]%elem_of_cons Hy; [|by apply Hr]. rewrite Forall_forall in Hf2. by apply Hf2.
    + intros (Hs1 & Hs2 & Hr). inversion_clear Hs1 as [|?? Hs Hf]. constructor.
      * apply IH. split_and!; [done|done|]. intros x y Hx Hy. apply Hr; [by right|done].
      * apply Forall_app. split; [done|]. apply Forall_forall. intros y Hy. apply Hr; [by left|done].
Qed.

Lemma sorted_starts l : Forall (λ b : block, 0 ≤ b.2) l → StronglySorted before l → StronglySorted Z.lt l.*1.
Proof.
  intros Hp. induction 1 as [|b l Hs IH Hb]; simpl; [constructor|]. inversion_clear Hp as [|?? Hb0 Hp']. constructor; [by apply IH|].
  apply Forall_fmap. eapply Forall_impl; [exact Hb|]. intros c Hc. unfold before, bend, sizeof_Header in Hc. simpl. lia.
Qed.

Lemma sorted_nodup l : StronglySorted Z.lt l → NoDup l.
Proof.
  induction 1 as [|a l Hs IH Ha]; constructor; [|done]. intros Hin. rewrite Forall_forall in Ha. specialize (Ha a Hin). lia.
Qed.

(** ** The search of free *)

Lemma wp_free_find_fwd bp b h l2 (Q : Z → heap → Prop) : b < bp → Forall (λ a, bp < a) l2 →
  ∀ l1 fuel p p0, (∃ l, p :: l1 = l ++ [p0]) → chain (hp_ptr h) (p :: l1 ++ l2) b → Forall (λ a, a < bp) (p :: l1) →
  StronglySorted Z.lt (p :: l1) → b ≤ p → (length l1 < fuel)%nat → Q p0 h → wp (free_find fuel bp p) Q h.
Proof.
  intros Hb H2. induction l1 as [|a l1 IH]; intros fuel p p0 [l El] Hc H1 Hs Hbp Hf HQ; (destruct fuel as [|f]; [simpl in Hf; lia|]); cbn [free_find];
    inversion_clear H1 as [|?? Hp H1']; unfold get_ptr; wp_step; wp_step; destruct Hc as [-> Hc].
  - symmetry in El. apply app_eq_unit in El as [[-> [= ->]]|[_ ?]]; [|done]. rewrite (proj2 (Z.ltb_lt p bp)) by lia. simpl. destruct l2 as [|c l2]; simpl.
    + rewrite (proj2 (Z.ltb_ge bp b)), (proj2 (Z.leb_le b p)) by lia. by wp_step.
    + inversion_clear H2. rewrite (proj2 (Z.ltb_lt bp c)) by lia. by wp_step.
  - simpl hd. assert (Ha : a < bp) by by inversion_clear H1'. inversion Hs as [|?? Hs' Hpa]; subst. inversion Hpa; subst.
    rewrite (proj2 (Z.ltb_ge bp a)), (proj2 (Z.leb_gt a p)) by lia. rewrite andb_false_r. simpl.
    destruct l as [|? l]; [done|]. injection El as -> El. apply (IH f a p0); [by exists l|done|done|done|lia|simpl in Hf; lia|done].
Qed.

Lemma wp_free_find_high bp b h (Q : Z → heap → Prop) : b < bp →
  ∀ l fuel p, chain (hp_ptr h) (p :: l) b → bp < p → StronglySorted Z.lt (p :: l) →
  wp (free_find fuel bp b) Q h → wp (free_find (S (length l) + fuel) bp p) Q h.
Proof.
  intros Hb. induction l as [|a l IH]; intros fuel p [E Hc] Hp Hs HQ; cbn [free_find Nat.add length]; unfold get_ptr; wp_step; wp_step; rewrite E; simpl hd;
    rewrite (proj2 (Z.ltb_ge p bp)) by lia; simpl.
  - rewrite (proj2 (Z.ltb_ge bp b)) by lia. by rewrite andb_false_r.
  - inversion_clear Hs as [|?? Hs' Hpa]. inversion Hpa; subst. rewrite (proj2 (Z.leb_gt a p)) by lia. simpl. apply IH; [done|lia|done|done].
Qed.

(** From any node the search ends at the last one before the block. *)
Lemma wp_free_find bp b n1 p0 n2 h p fuel (Q : Z → heap → Prop) :
  hd b (n1 ++ [p0]) = b → chain (hp_ptr h) (n1 ++ p0 :: n2) b → StronglySorted Z.lt (n1 ++ p0 :: n2) →
  Forall (λ a, a < bp) (n1 ++ [p0]) → Forall (λ a, bp < a) n2 → p ∈ n1 ++ p0 :: n2 → (length (n1 ++ p0 :: n2) < fuel)%nat →
  Q p0 h → wp (free_find fuel bp p) Q h.
Proof.
  intros Hb Hc Hs H1 H2 Hp Hf HQ. assert (Eapp : n1 ++ p0 :: n2 = (n1 ++ [p0]) ++ n2) by by rewrite <- app_assoc. rewrite Eapp in *.
  assert (Hfwd : ∀ l1 q l2 f, n1 ++ [p0] = l1 ++ q :: l2 → (length l2 < f)%nat → wp (free_find f bp q) Q h).
  { intros l1 q l2 f E Hlf. rewrite E in *. rewrite <- app_assoc in *. apply chain_app in Hc as [_ Hc]. apply sorted_app in Hs as (_ & Hs & Hord).
    apply Forall_app in H1 as [H1a H1]. assert (Hbq : b ≤ q).
    { destruct l1 as [|x l1]; simpl in Hb; [subst; lia|]. subst x. specialize (Hord b q ltac:(by left) ltac:(by left)). lia. }
    apply sorted_app in Hs as (Hs & _ & _).
    apply (wp_free_find_fwd bp b h n2 Q) with l2 p0; try done.
    - inversion_clear H1. lia.
    - destruct (exists_last (l := q :: l2)) as (l & y & El); [done|]. exists l. rewrite El in E. rewrite app_assoc in E. apply app_inj_tail in E as [_ ->]. done. }
  apply elem_of_app in Hp as [Hp|Hp].
  - apply list_elem_of_split in Hp as (l1 & l2 & E). apply (Hfwd l1 p l2 fuel E). rewrite E in Hf. rewrite !length_app in Hf. simpl in Hf. lia.
  - pose proof Hp as Hbp. rewrite Forall_forall in H2. apply H2 in Hbp. rewrite <- Forall_forall in H2.
    apply list_elem_of_split in Hp as (l1 & l2 & ->). rewrite app_assoc in Hc, Hs. apply chain_app in Hc as [_ Hc]. apply sorted_app in Hs as (_ & Hs & _).
    replace fuel with (S (length l2) + (fuel - S (length l2)))%nat by (rewrite !length_app in Hf; simpl in Hf; lia).
    assert (Eb : ∃ l, n1 ++ [p0] = b :: l) by (destruct (n1 ++ [p0]) as [|x l] eqn:E; [by destruct n1|]; simpl in Hb; subst; by eexists).
    destruct Eb as [l Eb]. apply (wp_free_find_high bp b); [|done|done|done|].
    + rewrite Eb in H1. by inversion_clear H1.
    + apply (Hfwd [] b l); [done|]. apply (f_equal length) in Eb. rewrite !length_app in Hf. rewrite !length_app in Eb. simpl in Hf, Eb. lia.
Qed.

(** ** The invariant *)

Definition in_block (x : Z) (b : block) : Prop := b.1 ≤ x < bend b.
Definition covers (F : list block) (x : Z) : Prop := ∃ b, b ∈ F ∧ in_block x b.

Section heap.
Context (base : Z).

(** A node of the free list: the static header, which is empty, or a free block. *)
Definition node (brk : Z) (b : block) : Prop :=
  b = (base, 0) ∨ (0 < b.2 ∧ base + sizeof_Header ≤ b.1 ∧ bend b ≤ brk).

(** [F] is the free list in the order of addresses, from the static header on;
    [al] holds the blocks in use. *)
Record wf (h : heap) (F : list block) (al : gmap Z Z) : Prop := {
  wf_base : 0 < base;
  wf_brk : base + sizeof_Header ≤ hp_brk h < KERNBASE;
  wf_head : head F = Some (base, 0);
  wf_chain : chain (hp_ptr h) F.*1 base;
  wf_sizes : Forall (λ b, hp_size h b.1 = b.2) F;
  wf_freep : hp_freep h ∈ F.*1;
  wf_sorted : StronglySorted before F;
  wf_nodes : Forall (node (hp_brk h)) F;
  wf_alloc : ∀ a s, al !! a = Some s →
    hp_size h a = s ∧ 0 < s ∧ base + sizeof_Header ≤ a ∧ bend (a, s) ≤ hp_brk h ∧ Forall (apart (a, s)) F;
  wf_alone : ∀ a s b t, al !! a = Some s → al !! b = Some t → a ≠ b → apart (a, s) (b, t)
}.

(** The headers inside the blocks in use are as they were. *)
Definition untouched (al : gmap Z Z) (h h' : heap) : Prop :=
  ∀ a s x, al !! a = Some s → in_block x (a, s) → hp_ptr h' x = hp_ptr h x ∧ hp_size h' x = hp_size h x.

Lemma untouched_trans al h h1 h2 : untouched al h h1 → untouched al h1 h2 → untouched al h h2.
Proof. intros H1 H2 a s x Ha Hx. destruct (H1 a s x Ha Hx), (H2 a s x Ha Hx). split; congruence. Qed.

Lemma node_outside brk b a s : node brk b → 0 < s → base + sizeof_Header ≤ a → apart (a, s) b → ¬ in_block b.1 (a, s).
Proof.
  unfold node, apart, in_block, bend, sizeof_Header. intros [->|(Hb & Hlo & Hhi)] Hs Ha Hap; simpl in *; lia.
Qed.

(** A block in use lies behind some nodes and before the others. *)
Lemma split_nodes bp s F brk : StronglySorted before F → Forall (node brk) F → Forall (apart (bp, s)) F → 0 < s → base + sizeof_Header ≤ bp →
  head F = Some (base, 0) → ∃ F1 c F2, F = F1 ++ c :: F2 ∧ Forall (λ b, b.1 < bp) (F1 ++ [c]) ∧ bend c ≤ bp ∧ Forall (λ b, bp + sizeof_Header * s ≤ b.1) F2.
Proof.
  intros Hs Hn Ha Hpos Hlo Hhd. destruct F as [|c0 F]; [done|]. simpl in Hhd. injection Hhd as ->.
  assert (Hc0 : (base, 0).1 < bp) by (unfold sizeof_Header in Hlo; simpl; lia). revert Hc0 Hs Hn Ha. generalize (base, 0) as c. clear - Hpos Hlo.
  induction F as [|d F IH]; intros c Hc Hs Hn Ha.
  - exists [], c, []. inversion_clear Ha as [|?? Hac _]. split_and!; [done|by constructor| |done]. unfold apart, bend, sizeof_Header in *. simpl in *. lia.
  - inversion Hs as [|?? Hs' Hcd]; subst. inversion Hn as [|?? Hnc Hn']; subst. inversion Ha as [|?? Hac Ha']; subst. inversion Ha' as [|?? Had Ha'']; subst.
    inversion Hn' as [|?? Hnd Hn'']; subst. destruct (Z_lt_le_dec d.1 bp) as [Hd|Hd].
    + destruct (IH d Hd Hs' Hn' Ha') as (F1 & e & F2 & E & H1 & H2 & H3). exists (c :: F1), e, F2. rewrite E. split_and!; [done| |done|done]. by constructor.
    + exists [], c, (d :: F). split_and!; [done|by constructor| |].
      * unfold apart, bend, sizeof_Header in *. simpl in *. lia.
      * assert (Hd' : bp + sizeof_Header * s ≤ d.1).
        { destruct Had as [Had|Had]; [exact Had|]. destruct Hnd as [->|(Hp & _ & _)]; unfold bend, sizeof_Header in *; simpl in *; lia. }
        constructor; [done|]. inversion Hs' as [|?? _ Hdf]; subst. clear - Hd' Hdf Hn'' Hnd Hd Hc Hlo. apply Forall_forall. intros x Hx.
        rewrite Forall_forall in Hdf. specialize (Hdf x Hx). unfold before, bend, sizeof_Header in *.
        destruct Hnd as [->|(Hp & _ & _)]; simpl in *; lia.
Qed.

(** ** Giving a block back *)

(** Between the two halves of [free]: the block [bp] is joined to what follows it,
    and [c] is the node before it. *)
Record mid (h : heap) (F1 : list block) (c : block) (F2 : list block) (bp s : Z) (al : gmap Z Z) : Prop := {
  md_base : 0 < base;
  md_brk : base + sizeof_Header ≤ hp_brk h < KERNBASE;
  md_head : head (F1 ++ c :: F2) = Some (base, 0);
  md_chain1 : chain (hp_ptr h) F1.*1 c.1;
  md_ptr : hp_ptr h bp = hd base F2.*1;
  md_chain2 : chain (hp_ptr h) F2.*1 base;
  md_size : hp_size h bp = s;
  md_sizes : Forall (λ b, hp_size h b.1 = b.2) (F1 ++ c :: F2);
  md_sorted : StronglySorted before (F1 ++ c :: F2);
  md_nodes : Forall (node (hp_brk h)) (F1 ++ c :: F2);
  md_left : bend c ≤ bp;
  md_right : Forall (before (bp, s)) F2;
  md_block : 0 < s ∧ base + sizeof_Header ≤ bp ∧ bend (bp, s) ≤ hp_brk h;
  md_alloc : ∀ a t, al !! a = Some t →
    hp_size h a = t ∧ 0 < t ∧ base + sizeof_Header ≤ a ∧ bend (a, t) ≤ hp_brk h ∧ Forall (apart (a, t)) (F1 ++ c :: F2) ∧ apart (a, t) (bp, s);
  md_alone : ∀ a t b u, al !! a = Some t → al !! b = Some u → a ≠ b → apart (a, t) (b, u)
}.

(** The headers other than that of [x] are the same. *)
Definition only (x : Z) (h h' : heap) : Prop :=
  hp_brk h' = hp_brk h ∧ ∀ y, y ≠ x → hp_ptr h' y = hp_ptr h y ∧ hp_size h' y = hp_size h y.

Lemma only_untouched al x h h' : only x h h' → (∀ a s, al !! a = Some s → ¬ in_block x (a, s)) → untouched al h h'.
Proof. intros [_ Ho] Hx a s y Ha Hy. apply Ho. intros ->. by apply (Hx a s). Qed.

Lemma hplus_exact p n : 0 ≤ p → 0 ≤ n → p + sizeof_Header * n < KERNBASE → hplus p n = p + sizeof_Header * n.
Proof. intros Hp Hn Hk. unfold hplus. apply u32_id. unfold is_u32, sizeof_Header, KERNBASE in *. lia. Qed.

Lemma sizes_only x h h' F : only x h h' → Forall (λ b : block, b.1 ≠ x) F → Forall (λ b, hp_size h b.1 = b.2) F → Forall (λ b, hp_size h' b.1 = b.2) F.
Proof.
  intros [_ Ho] Hx HF. apply Forall_forall. intros b Hb. rewrite Forall_forall in Hx, HF. rewrite (proj2 (Ho b.1 (Hx b Hb))). by apply HF.
Qed.

Lemma chain_only x h h' F e : only x h h' → Forall (λ b : block, b.1 ≠ x) F → chain (hp_ptr h) F.*1 e → chain (hp_ptr h') F.*1 e.
Proof.
  intros [_ Ho] Hx. apply chain_same. intros a (b & -> & Hb)%list_elem_of_fmap. rewrite Forall_forall in Hx. apply Ho. by apply Hx.
Qed.

Section free.
Context (h : heap) (F1 : list block) (c : block) (F2 : list block) (al : gmap Z Z) (bp s : Z).
Context (Hwf : wf h (F1 ++ c :: F2) al) (Hbp : al !! bp = Some s).
Context (H1 : Forall (λ b, b.1 < bp) (F1 ++ [c])) (Hc : bend c ≤ bp) (H2 : Forall (λ b, bp + sizeof_Header * s ≤ b.1) F2).

Lemma bp_ne : Forall (λ b : block, b.1 ≠ bp) (F1 ++ c :: F2).
Proof.
  destruct (wf_alloc _ _ _ Hwf _ _ Hbp) as (_ & Hs & _). apply Forall_app in H1 as [Ha Hb]. inversion_clear Hb. apply Forall_app. split; [|constructor].
  - eapply Forall_impl; [exact Ha|]. simpl. lia.
  - lia.
  - eapply Forall_impl; [exact H2|]. unfold sizeof_Header. simpl. lia.
Qed.

(** The first half, when the block is not next to the following one. *)
Lemma mid_apart : Forall (before (bp, s)) F2 → mid (set_ptr bp (hd base F2.*1) h) F1 c F2 bp s (delete bp al).
Proof.
  intros Hr. pose proof bp_ne as Hne. destruct Hwf as [Hb Hk Hh Hch Hsz Hf Hso Hno Hal Hone].
  assert (Ho : only bp h (set_ptr bp (hd base F2.*1) h)).
  { split; [done|]. intros y Hy. simpl. by rewrite (proj2 (Z.eqb_neq y bp)). }
  rewrite fmap_app in Hch. apply chain_app in Hch as [Hch1 [Hcc Hch2]]. apply Forall_app in Hne as Hne'. destruct Hne' as [Hne1 Hne2]. inversion_clear Hne2.
  destruct (Hal _ _ Hbp) as (Es & Hs & Hlo & Hhi & Hap). split; try done.
  - by eapply chain_only.
  - simpl. by rewrite Z.eqb_refl.
  - by eapply chain_only.
  - intros a t Ha. apply lookup_delete_Some in Ha as [Hab Ha]. destruct (Hal _ _ Ha) as (? & ? & ? & ? & ?). split_and!; try done. by eapply Hone.
  - intros a t b u Ha Hb'. apply lookup_delete_Some in Ha as [_ Ha], Hb' as [_ Hb']. by apply Hone.
Qed.

(** The first half, when it is joined to the following block. *)
Lemma mid_joined t F2' : F2 = (bend (bp, s), t) :: F2' →
  mid (set_ptr bp (hd base F2'.*1) (set_size bp (s + t) h)) F1 c F2' bp (s + t) (delete bp al).
Proof.
  intros E. pose proof bp_ne as Hne. rewrite E in *. destruct Hwf as [Hb Hk Hh Hch Hsz Hf Hso Hno Hal Hone].
  assert (Ho : only bp h (set_ptr bp (hd base F2'.*1) (set_size bp (s + t) h))).
  { split; [done|]. intros y Hy. simpl. by rewrite (proj2 (Z.eqb_neq y bp)). }
  rewrite fmap_app in Hch. apply chain_app in Hch as [Hch1 [Hcc [Hcn Hch2]]]. apply Forall_app in Hne as [Hne1 Hne2]. inversion Hne2 as [|?? Hnc Hne3]; subst. inversion Hne3 as [|?? Hnn Hne4]; subst.
  destruct (Hal _ _ Hbp) as (Es & Hs & Hlo & Hhi & Hap). apply Forall_app in Hno as [Hno1 Hno2]. inversion Hno2 as [|?? Hnoc Hno3]; subst. inversion Hno3 as [|?? Hnon Hno4]; subst.
  apply Forall_app in Hsz as [Hsz1 Hsz2]. inversion Hsz2 as [|?? Hszc Hsz3]; subst. inversion Hsz3 as [|?? Hszn Hsz4]; subst.
  apply sorted_app in Hso as (Hso1 & Hso2 & Hso3). inversion Hso2 as [|?? Hso4 Hcb]; subst. inversion Hso4 as [|?? Hso5 Hnb]; subst. inversion Hcb as [|?? Hcn' Hcb']; subst.
  assert (Ht : 0 < t ∧ bend (bend (bp, hp_size h bp), t) ≤ hp_brk h).
  { destruct Hnon as [[= E1 ->]|(Ht & _ & Hb')]; [|done]. unfold bend, sizeof_Header in *. simpl in *. lia. }
  assert (Hj : bend (bp, hp_size h bp + t) = bend (bend (bp, hp_size h bp), t)) by (unfold bend; simpl; lia).
  split; try done.
  - by destruct F1.
  - by eapply chain_only.
  - simpl. by rewrite Z.eqb_refl.
  - by eapply chain_only.
  - simpl. by rewrite Z.eqb_refl.
  - eapply sizes_only; [done| |]; apply Forall_app; (split; [done|by constructor]).
  - apply sorted_app. split_and!; [done|by constructor|]. intros x y Hx Hy. apply Hso3; [done|]. set_solver.
  - apply Forall_app. split; [done|by constructor].
  - eapply Forall_impl; [exact Hnb|]. unfold before. intros x. by rewrite Hj.
  - split_and!; [lia|done|]. rewrite Hj. tauto.
  - intros a u Ha. apply lookup_delete_Some in Ha as [Hab Ha]. destruct (Hal _ _ Ha) as (Ea & Hu & Hal1 & Hal2 & Hal3).
    apply Forall_app in Hal3 as [Hal4 Hal5]. inversion Hal5 as [|?? Hal6 Hal7]; subst. inversion Hal7 as [|?? Hal8 Hal9]; subst. pose proof (Hone _ _ _ _ Ha Hbp ltac:(done)) as Hx.
    split_and!; try done; [simpl; by rewrite (proj2 (Z.eqb_neq a bp))|apply Forall_app; split; [done|by constructor]|].
    unfold apart in *. rewrite Hj. unfold bend, sizeof_Header in *. simpl in *. lia.
  - intros a u b v Ha Hb'. apply lookup_delete_Some in Ha as [_ Ha], Hb' as [_ Hb']. by apply Hone.
Qed.

End free.

Section link.
Context (h : heap) (F1 : list block) (c : block) (F2 : list block) (bp s : Z) (al : gmap Z Z).
Context (Hm : mid h F1 c F2 bp s al).

(** No other node has the header of [c]. *)
Lemma c_ne : Forall (λ b : block, b.1 ≠ c.1) (F1 ++ F2) ∧ c.1 < bp.
Proof.
  pose proof (md_left _ _ _ _ _ _ _ Hm) as Hl. destruct (md_block _ _ _ _ _ _ _ Hm) as (Hs & Hlo & _). pose proof (md_nodes _ _ _ _ _ _ _ Hm) as Hn.
  assert (Hc0 : 0 ≤ c.2 ∧ (c.2 = 0 → c.1 = base)).
  { apply Forall_app in Hn as [_ Hn]. inversion_clear Hn as [|?? [->|Hp] _]; simpl; [lia|]. lia. }
  assert (Hss : StronglySorted Z.lt (F1 ++ c :: F2).*1).
  { apply sorted_starts; [|apply (md_sorted _ _ _ _ _ _ _ Hm)]. eapply Forall_impl; [exact Hn|]. intros b [->|Hp]; simpl; lia. }
  apply sorted_nodup in Hss. rewrite fmap_app in Hss. simpl in Hss. apply NoDup_app in Hss as (_ & Hd & Hnd). apply NoDup_cons in Hnd as [Hnd _]. split.
  - apply Forall_app. split; apply Forall_forall; intros b Hb E.
    + apply (Hd b.1); [by apply list_elem_of_fmap_2|]. rewrite E. by left.
    + apply Hnd. rewrite <- E. by apply list_elem_of_fmap_2.
  - unfold bend, sizeof_Header in *. lia.
Qed.

(** The second half, when the block is not next to the one before it. *)
Lemma wf_linked : bend c < bp → wf (set_freep c.1 (set_ptr c.1 bp h)) (F1 ++ c :: (bp, s) :: F2) al.
Proof.
  intros Hlt. destruct c_ne as [Hne Hcb]. apply Forall_app in Hne as [Hne1 Hne2]. destruct Hm as [Hb Hk Hh Hch1 Hpt Hch2 Hsz0 Hsz Hso Hno Hle Hri Hbl Hal Hone].
  assert (Ho : only c.1 h (set_freep c.1 (set_ptr c.1 bp h))).
  { split; [done|]. intros y Hy. simpl. by rewrite (proj2 (Z.eqb_neq y c.1)). }
  apply Forall_app in Hsz as [Hsz1 Hsz2]. inversion Hsz2 as [|?? Hszc Hsz3]; subst. apply Forall_app in Hno as [Hno1 Hno2]. inversion Hno2 as [|?? Hnoc Hno3]; subst.
  apply sorted_app in Hso as (Hso1 & Hso2 & Hso3). inversion Hso2 as [|?? Hso4 Hcb']; subst. destruct Hbl as (Hs & Hlo & Hhi). split; try done.
  - by destruct F1.
  - rewrite fmap_app. apply chain_app. split; [by eapply chain_only|]. simpl. rewrite Z.eqb_refl, (proj2 (Z.eqb_neq bp c.1)) by lia. split_and!; [done|done|exact (chain_only _ _ _ _ _ Ho Hne2 Hch2)].
  - apply Forall_app. split; [done|]. constructor; [done|]. by constructor.
  - rewrite fmap_app. simpl. set_solver.
  - assert (Hc1 : ∀ x, x ∈ F1 → before x (bp, hp_size h bp)).
    { intros x Hx. specialize (Hso3 x c Hx ltac:(by left)). unfold before, bend in *. simpl in *. rewrite Forall_forall in Hno1.
      destruct Hnoc as [->|(Hc & _)]; simpl in *; unfold sizeof_Header in *; lia. }
    apply sorted_app. split_and!; [done| |].
    + constructor; [by constructor|]. constructor; [done|done].
    + intros x y Hx [->|[->|Hy]%elem_of_cons]%elem_of_cons; [apply Hso3; [done|by left]|by apply Hc1|apply Hso3; [done|by right]].
  - apply Forall_app. split; [done|]. constructor; [done|]. constructor; [by right|done].
  - intros a t Ha. destruct (Hal _ _ Ha) as (? & ? & ? & ? & Hap & Hapb). split_and!; try done. apply Forall_app in Hap as [Hap1 Hap2]. inversion Hap2; subst.
    apply Forall_app. split; [done|]. constructor; [done|]. by constructor.
Qed.

(** The second half, when it is joined to the one before it. *)
Lemma wf_joined : bend c = bp → wf (set_freep c.1 (set_ptr c.1 (hp_ptr h bp) (set_size c.1 (c.2 + s) h))) (F1 ++ (c.1, c.2 + s) :: F2) al.
Proof.
  intros Ej. destruct c_ne as [Hne Hcb]. apply Forall_app in Hne as [Hne1 Hne2]. destruct Hm as [Hb Hk Hh Hch1 Hpt Hch2 Hsz0 Hsz Hso Hno Hle Hri Hbl Hal Hone].
  assert (Ho : only c.1 h (set_freep c.1 (set_ptr c.1 (hp_ptr h bp) (set_size c.1 (c.2 + s) h)))).
  { split; [done|]. intros y Hy. simpl. by rewrite (proj2 (Z.eqb_neq y c.1)). }
  apply Forall_app in Hsz as [Hsz1 Hsz2]. inversion Hsz2 as [|?? Hszc Hsz3]; subst. apply Forall_app in Hno as [Hno1 Hno2]. inversion Hno2 as [|?? Hnoc Hno3]; subst.
  apply sorted_app in Hso as (Hso1 & Hso2 & Hso3). inversion Hso2 as [|?? Hso4 Hcb']; subst. destruct Hbl as (Hs & Hlo & Hhi).
  assert (Hcp : 0 < c.2 ∧ base + sizeof_Header ≤ c.1).
  { destruct Hnoc as [->|(Hc & Hc' & _)]; [|done]. unfold bend, sizeof_Header in *. simpl in *. lia. }
  assert (Hbe : bend (c.1, c.2 + hp_size h (bend c)) = bend (bend c, hp_size h (bend c))) by (unfold bend; simpl; lia). split; try done.
  - destruct F1; [|done]. simpl in *. injection Hh as ->. simpl in Hcp. lia.
  - rewrite fmap_app. apply chain_app. split; [by eapply chain_only|]. simpl. rewrite Z.eqb_refl. split; [done|exact (chain_only _ _ _ _ _ Ho Hne2 Hch2)].
  - apply Forall_app. split; [by eapply sizes_only|]. constructor; [simpl; by rewrite Z.eqb_refl|by eapply sizes_only].
  - rewrite fmap_app. simpl. set_solver.
  - apply sorted_app. split_and!; [done| |].
    + constructor; [done|]. eapply Forall_impl; [exact Hri|]. unfold before. intros x. by rewrite Hbe.
    + intros x y Hx [->|Hy]%elem_of_cons; [exact (Hso3 x c Hx ltac:(by left))|apply Hso3; [done|by right]].
  - apply Forall_app. split; [done|]. constructor; [|done]. right. split_and!; [simpl; lia|simpl; tauto|by rewrite Hbe].
  - intros a t Ha. destruct (Hal _ _ Ha) as (Ha1 & Ha2 & Ha3 & Ha4 & Hap & Hapb). apply Forall_app in Hap as [Hap1 Hap2]. inversion Hap2 as [|?? Hap3 Hap4]; subst.
    split_and!; try done.
    + simpl. destruct (Z.eqb_spec a c.1) as [->|]; [|done]. exfalso. unfold apart, bend, sizeof_Header in Hap3. simpl in *. lia.
    + apply Forall_app. split; [done|]. constructor; [|done]. unfold apart in *. rewrite Hbe. unfold bend, sizeof_Header in *. simpl in *. lia.
Qed.

End link.

(** ** The list is short enough for the loops *)

Lemma blocks_fit hi l : ∀ lo, Forall (λ b : block, lo ≤ b.1 ∧ 0 < b.2 ∧ bend b ≤ hi) l → StronglySorted before l → lo ≤ hi →
  lo + sizeof_Header * Z.of_nat (length l) ≤ hi.
Proof.
  induction l as [|b l IH]; intros lo Hl Hs Hlo; [unfold sizeof_Header; simpl; lia|]. inversion_clear Hl as [|?? (Hb1 & Hb2 & Hb3) Hl']. inversion_clear Hs as [|?? Hs' Hbl].
  assert (Hr : bend b + sizeof_Header * Z.of_nat (length l) ≤ hi).
  { apply IH; [|done|done]. apply Forall_forall. intros y Hy. rewrite Forall_forall in Hl', Hbl. destruct (Hl' y Hy) as (_ & ? & ?).
    specialize (Hbl y Hy). unfold before in Hbl. split_and!; [lia|done|done]. }
  unfold bend, sizeof_Header in *. simpl length. lia.
Qed.

Lemma wf_length h F al : wf h F al → (length F < heap_fuel h)%nat.
Proof.
  intros Hwf. destruct Hwf as [Hb [Hlo _] Hh _ _ _ Hs Hn _ _]. destruct F as [|b F]; [done|]. simpl in Hh. injection Hh as ->.
  inversion_clear Hs as [|?? Hs' Hf]. inversion_clear Hn as [|?? _ Hn'].
  assert (Hc : base + sizeof_Header + sizeof_Header * Z.of_nat (length F) ≤ hp_brk h).
  { apply blocks_fit; [|done|done]. apply Forall_forall. intros y Hy. rewrite Forall_forall in Hn', Hf. specialize (Hf y Hy).
    destruct (Hn' y Hy) as [->|(? & ? & ?)]; [|done]. unfold before, bend, sizeof_Header in Hf. simpl in Hf. lia. }
  unfold heap_fuel, sizeof_Header in *. simpl length. assert (Z.of_nat (length F) ≤ hp_brk h / 8) by (apply Z.div_le_lower_bound; lia). lia.
Qed.

(** ** free *)

Lemma covers_app F1 F2 x : covers (F1 ++ F2) x ↔ covers F1 x ∨ covers F2 x.
Proof. unfold covers. setoid_rewrite elem_of_app. naive_solver. Qed.
Lemma covers_cons b F x : covers (b :: F) x ↔ in_block x b ∨ covers F x.
Proof. unfold covers. setoid_rewrite elem_of_cons. naive_solver. Qed.

(** What [free] of the block [bp] of [s] units leaves. *)
Definition freed (h : heap) (F : list block) (al : gmap Z Z) (bp s : Z) (h' : heap) : Prop :=
  ∃ F', wf h' F' al ∧ untouched al h h' ∧ hp_brk h' = hp_brk h ∧ (∀ x, covers F' x ↔ covers F x ∨ in_block x (bp, s)) ∧
    (s ≤ hp_size h' (hp_freep h') ∨ s ≤ hp_size h' (hp_ptr h' (hp_freep h'))) ∧ (length F' ≤ S (length F))%nat.

Lemma bp_outside (al : gmap Z Z) bp s a t : (∀ a s, al !! a = Some s → 0 < s) → (∀ a s b t, al !! a = Some s → al !! b = Some t → a ≠ b → apart (a, s) (b, t)) →
  al !! bp = Some s → delete bp al !! a = Some t → ¬ in_block bp (a, t).
Proof.
  intros Hpos Hone Hbp [Hne Ha]%lookup_delete_Some. pose proof (Hone _ _ _ _ Hbp Ha Hne) as Hap. pose proof (Hpos _ _ Hbp). pose proof (Hpos _ _ Ha).
  unfold apart, in_block, bend, sizeof_Header in *. simpl in *. lia.
Qed.

(** The second half of [free]. *)
Lemma wp_free_link h h0 F F1 c F2 bp s s0 al (Q : unit → heap → Prop) : mid h F1 c F2 bp s al → untouched al h0 h → hp_brk h = hp_brk h0 → s0 ≤ s →
  (∀ x, covers (F1 ++ c :: F2) x ∨ in_block x (bp, s) ↔ covers F x ∨ in_block x (bp, s0)) → (length (F1 ++ c :: F2) ≤ length F)%nat →
  (∀ h', freed h0 F al bp s0 h' → Q tt h') →
  wp (psz ← get_size c.1;
      (if hplus c.1 psz =? bp then
         bsz ← get_size bp; modify (set_size c.1 (u32 (psz + bsz))) ;; bnx ← get_ptr bp; modify (set_ptr c.1 bnx)
       else modify (set_ptr c.1 bp)) ;;
      modify (set_freep c.1)) Q h.
Proof.
  intros Hm Hu Hbrk Hs0 Hcov Hlen HQ. destruct (c_ne _ _ _ _ _ _ _ Hm) as [_ Hcb]. pose proof Hm as [Hb Hk Hh Hch1 Hpt Hch2 Hsz0 Hsz Hso Hno Hle Hri Hbl Hal Hone].
  assert (Hc : hp_size h c.1 = c.2 ∧ node (hp_brk h) c).
  { apply Forall_app in Hsz as [_ Hsz], Hno as [_ Hno]. inversion_clear Hsz. by inversion_clear Hno. }
  destruct Hc as [Hcs Hcn]. assert (Hc0 : 0 ≤ c.2 ∧ 0 ≤ c.1) by (destruct Hcn as [->|(? & ? & _)]; unfold sizeof_Header in *; simpl; lia).
  assert (Hend : bend c < KERNBASE) by (destruct Hbl as (? & ? & ?); unfold bend, sizeof_Header in *; simpl in *; lia).
  assert (Hout : ∀ a t, al !! a = Some t → ¬ in_block c.1 (a, t)).
  { intros a t Ha. destruct (Hal _ _ Ha) as (_ & ? & ? & _ & Hap & _). apply Forall_app in Hap as [_ Hap]. inversion_clear Hap. by eapply node_outside. }
  unfold get_size, get_ptr. wp_step. wp_step. rewrite Hcs. rewrite hplus_exact by (done || apply Hc0). change (c.1 + sizeof_Header * c.2) with (bend c). wp_step.
  destruct (bend c =? bp) eqn:Ej.
  - apply Z.eqb_eq in Ej. wp_step. wp_step. rewrite Hsz0. wp_step. wp_step.
    assert (Eu : u32 (c.2 + s) = c.2 + s).
    { apply u32_id. destruct Hbl as (? & ? & ?). unfold is_u32, bend, sizeof_Header, KERNBASE in *. simpl in *. lia. }
    rewrite Eu. wp_step. wp_step. wp_step. wp_step. apply HQ.
    change (hp_ptr (set_size c.1 (c.2 + s) h) bp) with (hp_ptr h bp). exists (F1 ++ (c.1, c.2 + s) :: F2). split; [by apply wf_joined with (1 := Hm)|].
    split; [|split; [done|split; [|split]]].
    + eapply untouched_trans; [done|]. apply (only_untouched _ c.1); [|done]. split; [done|]. intros y Hy. simpl. by rewrite (proj2 (Z.eqb_neq y c.1)).
    + intros x. rewrite <- Hcov, !covers_app, !covers_cons. unfold in_block, bend, sizeof_Header in *. simpl in *.
      destruct Hbl. assert (c.1 ≤ x < c.1 + 8 * (c.2 + s) ↔ c.1 ≤ x < c.1 + 8 * c.2 ∨ bp ≤ x < bp + 8 * s) by lia. tauto.
    + left. simpl. rewrite Z.eqb_refl. lia.
    + rewrite !length_app in *. simpl in *. lia.
  - apply Z.eqb_neq in Ej. wp_step. wp_step. apply HQ. exists (F1 ++ c :: (bp, s) :: F2). split; [by apply wf_linked with (1 := Hm); lia|].
    split; [|split; [done|split; [|split]]].
    + eapply untouched_trans; [done|]. apply (only_untouched _ c.1); [|done]. split; [done|]. intros y Hy. simpl. by rewrite (proj2 (Z.eqb_neq y c.1)).
    + intros x. rewrite <- Hcov, !covers_app, !covers_cons. tauto.
    + right. simpl. rewrite Z.eqb_refl. by rewrite Hsz0.
    + rewrite !length_app in *. simpl in *. lia.
Qed.

(** A block that does not end where the next one starts ends before it. *)
Lemma not_next h F1 c F2 al bp s : wf h (F1 ++ c :: F2) al → Forall (λ b, bp + sizeof_Header * s ≤ b.1) F2 → bp + sizeof_Header * s ≠ hd base F2.*1 →
  Forall (before (bp, s)) F2.
Proof.
  intros Hwf H2 Ej. destruct F2 as [|d F2]; [constructor|]. simpl in Ej. pose proof (wf_sorted _ _ _ Hwf) as Hso. apply sorted_app in Hso as (_ & Hso & _).
  inversion_clear Hso as [|?? Hso' _]. inversion_clear Hso' as [|?? _ Hdb]. inversion H2 as [|?? Hd H2']; subst. constructor; [unfold before, bend; simpl; lia|].
  pose proof (wf_nodes _ _ _ Hwf) as Hno. apply Forall_app in Hno as [_ Hno]. inversion_clear Hno as [|?? _ Hno']. inversion_clear Hno' as [|?? Hnd _].
  eapply Forall_impl; [exact Hdb|]. intros y Hy. unfold before, bend, sizeof_Header in *. simpl in *. destruct Hnd as [->|(? & _)]; simpl in *; lia.
Qed.

Lemma wp_free h F al bp s (Q : unit → heap → Prop) : wf h F al → al !! bp = Some s →
  (∀ h', freed h F (delete bp al) bp s h' → Q tt h') → wp (free (bp + sizeof_Header)) Q h.
Proof.
  intros Hwf Hbp HQ. destruct (wf_alloc _ _ _ Hwf _ _ Hbp) as (Hsz & Hs & Hlo & Hhi & Hap). pose proof (wf_base _ _ _ Hwf) as Hb. pose proof (wf_brk _ _ _ Hwf) as Hk.
  destruct (split_nodes bp s F _ (wf_sorted _ _ _ Hwf) (wf_nodes _ _ _ Hwf) Hap Hs Hlo (wf_head _ _ _ Hwf)) as (F1 & c & F2 & -> & H1 & Hc & H2).
  unfold free. replace (u32 (bp + sizeof_Header - sizeof_Header)) with bp.
  2: { replace (bp + sizeof_Header - sizeof_Header) with bp by lia. symmetry. apply u32_id. unfold is_u32, bend, sizeof_Header, KERNBASE in *. simpl in *. lia. }
  wp_step. wp_step. wp_step. pose proof (wf_length _ _ _ Hwf) as Hlen.
  assert (Hss : StronglySorted Z.lt (F1 ++ c :: F2).*1).
  { apply sorted_starts; [|apply (wf_sorted _ _ _ Hwf)]. eapply Forall_impl; [apply (wf_nodes _ _ _ Hwf)|]. intros b [->|Hp]; simpl; lia. }
  pose proof (wf_chain _ _ _ Hwf) as Hch. pose proof (wf_freep _ _ _ Hwf) as Hfp. rewrite fmap_app, fmap_cons in Hss. rewrite fmap_app, fmap_cons in Hch. rewrite fmap_app, fmap_cons in Hfp.
  apply (wp_free_find bp base F1.*1 c.1 F2.*1); try done.
  { pose proof (wf_head _ _ _ Hwf) as Hh. destruct F1; simpl in *; injection Hh as ->; done. }
  { change [c.1] with ([c].*1). rewrite <- fmap_app. by apply Forall_fmap. }
  { apply Forall_fmap. eapply Forall_impl; [exact H2|]. unfold sizeof_Header. simpl. lia. }
  { rewrite length_app in *. simpl in *. rewrite !length_fmap. exact Hlen. }
  apply chain_app in Hch as [_ [Hcn _]]. unfold get_ptr at 1, get_size at 1. wp_step. wp_step. wp_step. wp_step. rewrite Hcn, Hsz, hplus_exact by (unfold bend, sizeof_Header in *; simpl in *; lia).
  assert (Hout : ∀ a t, delete bp al !! a = Some t → ¬ in_block bp (a, t)).
  { intros a t Ha. eapply bp_outside; [|apply (wf_alone _ _ _ Hwf)|done|done]. intros a' s' Ha'. by destruct (wf_alloc _ _ _ Hwf _ _ Ha') as (_ & ? & _). }
  wp_step. destruct (bp + sizeof_Header * s =? hd base F2.*1) eqn:Ej.
  - apply Z.eqb_eq in Ej. destruct F2 as [|[b t] F2]; [unfold sizeof_Header in *; simpl in *; lia|]. simpl in Ej. subst b.
    pose proof (wf_sizes _ _ _ Hwf) as Hszs. apply Forall_app in Hszs as [_ Hszs]. inversion_clear Hszs as [|?? _ Hszs']. inversion_clear Hszs' as [|?? Ht _].
    pose proof (mid_joined h F1 c _ al bp s Hwf Hbp H1 Hc H2 t F2 eq_refl) as Hm. destruct (md_block _ _ _ _ _ _ _ Hm) as (Hst & _ & Hhi').
    pose proof (wf_chain _ _ _ Hwf) as Hch. rewrite fmap_app, !fmap_cons in Hch. apply chain_app in Hch as [_ (_ & Hcn2 & _)]. change (hp_ptr h (bp + sizeof_Header * s) = hd base F2.*1) in Hcn2.
    pose proof (wf_nodes _ _ _ Hwf) as Hno. apply Forall_app in Hno as [_ Hno]. inversion_clear Hno as [|?? _ Hno']. inversion_clear Hno' as [|?? Hnt _].
    assert (Ht0 : 0 < t) by (destruct Hnt as [[= E ->]|(? & _)]; [unfold sizeof_Header in *; lia|done]).
    unfold get_size at 1, get_ptr at 1. change (hd base ((bp + sizeof_Header * s, t) :: F2).*1) with (bp + sizeof_Header * s). simpl in Ht. wp_step. wp_step. rewrite Ht. wp_step. wp_step. wp_step. wp_step. cbn [hp_ptr set_size]. rewrite Hcn2.
    replace (u32 (s + t)) with (s + t) by (symmetry; apply u32_id; unfold is_u32, bend, sizeof_Header, KERNBASE in *; simpl in *; lia). wp_step.
    apply (wp_free_link _ h (F1 ++ c :: (bp + sizeof_Header * s, t) :: F2) F1 c F2 bp (s + t) s (delete bp al)); try done.
    + apply (only_untouched _ bp); [|done]. split; [done|]. intros y Hy. simpl. by rewrite (proj2 (Z.eqb_neq y bp)).
    + lia.
    + intros x. rewrite !covers_app, !covers_cons. unfold in_block, bend, sizeof_Header in *. simpl in *.
      assert (bp ≤ x < bp + 8 * (s + t) ↔ bp ≤ x < bp + 8 * s ∨ bp + 8 * s ≤ x < bp + 8 * s + 8 * t) by lia. tauto.
    + rewrite !length_app. simpl. lia.
  - apply Z.eqb_neq in Ej. wp_step.
    pose proof (not_next _ _ _ _ _ _ _ Hwf H2 Ej) as Hr.
    pose proof (mid_apart h F1 c F2 al bp s Hwf Hbp H1 Hc H2 Hr) as Hm.
    apply (wp_free_link _ h (F1 ++ c :: F2) F1 c F2 bp s s (delete bp al)); try done.
    apply (only_untouched _ bp); [|done]. split; [done|]. intros y Hy. simpl. by rewrite (proj2 (Z.eqb_neq y bp)).
Qed.

(** ** Taking a block *)

(** What taking the block [q] of [n] units leaves. *)
Definition taken (h : heap) (F : list block) (al : gmap Z Z) (q n : Z) (h' : heap) : Prop :=
  ∃ F', wf h' F' (<[q := n]> al) ∧ al !! q = None ∧ untouched al h h' ∧ hp_brk h' = hp_brk h ∧
    (∀ x, covers F x ↔ covers F' x ∨ in_block x (q, n)).

Section take.
Context (h : heap) (G1 : list block) (pr c : block) (G2 : list block) (al : gmap Z Z) (n : Z).
Context (Hwf : wf h (G1 ++ pr :: c :: G2) al) (Hn : 0 < n ≤ c.2).

Definition tail_of : Z := c.1 + sizeof_Header * (c.2 - n).

(** The facts about the neighbours. *)
Lemma take_facts : 0 < c.2 ∧ base + sizeof_Header ≤ c.1 ∧ bend c ≤ hp_brk h ∧ hp_size h c.1 = c.2 ∧
  (∀ x, x ∈ G1 ++ [pr] → before x c) ∧ (∀ y, y ∈ G2 → before c y) ∧ (∀ x y, x ∈ G1 ++ [pr] → y ∈ G2 → before x y) ∧
  StronglySorted before (G1 ++ [pr]) ∧ StronglySorted before G2.
Proof.
  pose proof (wf_nodes _ _ _ Hwf) as Hno. pose proof (wf_sizes _ _ _ Hwf) as Hsz. pose proof (wf_sorted _ _ _ Hwf) as Hso.
  apply Forall_app in Hno as [_ Hno]. inversion_clear Hno as [|?? _ Hno']. inversion_clear Hno' as [|?? Hc _].
  apply Forall_app in Hsz as [_ Hsz]. inversion_clear Hsz as [|?? _ Hsz']. inversion_clear Hsz' as [|?? Hcs _].
  change (pr :: c :: G2) with ([pr] ++ c :: G2) in Hso. rewrite app_assoc in Hso. apply sorted_app in Hso as (Hs1 & Hs2 & Hs3). inversion_clear Hs2 as [|?? Hs4 Hs5].
  rewrite Forall_forall in Hs5. destruct Hc as [->|(? & ? & ?)]; [simpl in Hn; lia|]. split_and!; try done.
  - intros x Hx. apply Hs3; [done|by left].
  - intros x y Hx Hy. apply Hs3; [done|by right].
Qed.

(** No block in use meets [c]. *)
Lemma take_apart a s : al !! a = Some s → apart (a, s) c ∧ 0 < s ∧ a ≠ tail_of.
Proof.
  intros Ha. destruct take_facts as (Hc0 & _). destruct (wf_alloc _ _ _ Hwf _ _ Ha) as (_ & Hs & _ & _ & Hap). apply Forall_app in Hap as [_ Hap].
  inversion_clear Hap as [|?? _ Hap']. inversion_clear Hap' as [|?? Hc _]. split_and!; [done|done|]. unfold tail_of, apart, bend, sizeof_Header in *. simpl in *. lia.
Qed.

Lemma take_free : al !! tail_of = None.
Proof. destruct (al !! tail_of) as [s|] eqn:E; [|done]. by destruct (take_apart _ _ E) as (_ & _ & ?). Qed.

Lemma bend_tail : bend (tail_of, n) = bend c.
Proof. unfold tail_of, bend. simpl. lia. Qed.

Lemma c_new : Forall (λ b : block, b.1 ≠ c.1 ∧ b.1 ≠ tail_of) (G1 ++ pr :: G2).
Proof.
  destruct take_facts as (Hc0 & Hlo & _ & _ & H1 & H2 & _). apply Forall_forall. intros b Hb. pose proof (wf_nodes _ _ _ Hwf) as Hno. rewrite Forall_forall in Hno.
  assert (Hnb : node (hp_brk h) b) by (apply Hno; set_solver). assert (Hcase : before b c ∨ before c b).
  { apply elem_of_app in Hb as [Hb|[->|Hb]%elem_of_cons]; [left; apply H1; set_solver|left; apply H1; set_solver|right; by apply H2]. }
  unfold before, tail_of, bend, sizeof_Header in *. destruct Hnb as [->|(? & _)]; simpl in *; lia.
Qed.

(** The new block and the nodes that stay. *)
Lemma tail_apart b : b ∈ G1 ++ pr :: G2 → apart (tail_of, n) b.
Proof.
  intros Hb. destruct take_facts as (Hc0 & Hlo & _ & _ & H1 & H2 & _). unfold apart. rewrite bend_tail. assert (Hcase : before b c ∨ before c b).
  { apply elem_of_app in Hb as [Hb|[->|Hb]%elem_of_cons]; [left; apply H1; set_solver|left; apply H1; set_solver|right; by apply H2]. }
  unfold before, tail_of, bend, sizeof_Header in *. simpl. lia.
Qed.

Lemma tail_alone a s : al !! a = Some s → apart (a, s) (tail_of, n).
Proof.
  intros Ha. destruct (take_apart _ _ Ha) as (Hap & _). unfold apart in *. rewrite bend_tail. unfold tail_of, bend, sizeof_Header in *. simpl in *. lia.
Qed.

(** An exact fit: the block leaves the list. *)
Lemma take_all : c.2 = n → taken h (G1 ++ pr :: c :: G2) al tail_of n (set_freep pr.1 (set_ptr pr.1 (hp_ptr h c.1) h)).
Proof.
  intros En. destruct take_facts as (Hc0 & Hlo & Hhi & Hcs & Hb1 & Hb2 & Hb3 & Hs1 & Hs2). assert (Et : tail_of = c.1) by (unfold tail_of; lia).
  pose proof tail_apart as Hta. pose proof tail_alone as Htl. pose proof take_free as Htf. pose proof take_apart as Htp. pose proof c_new as Hcn.
  pose proof Hwf as [Hb Hk Hh Hch Hsz Hf Hso Hno Hal Hone].
  set (h' := set_freep pr.1 (set_ptr pr.1 (hp_ptr h c.1) h)).
  assert (Ho : only pr.1 h h') by (split; [done|]; intros y Hy; simpl; by rewrite (proj2 (Z.eqb_neq y pr.1))).
  assert (Hss : NoDup (G1 ++ pr :: c :: G2).*1).
  { apply sorted_nodup, sorted_starts; [|done]. eapply Forall_impl; [exact Hno|]. intros b [->|Hp]; simpl; lia. }
  rewrite fmap_app, fmap_cons in Hss. apply NoDup_app in Hss as (_ & Hd & Hnd). apply NoDup_cons in Hnd as [Hnd _].
  assert (Hn1 : Forall (λ b : block, b.1 ≠ pr.1) G1).
  { apply Forall_forall. intros b Hb' E. apply (Hd b.1); [by apply list_elem_of_fmap_2|]. rewrite E. by left. }
  assert (Hn2 : Forall (λ b : block, b.1 ≠ pr.1) (c :: G2)).
  { apply Forall_forall. intros b Hb' E. apply Hnd. rewrite <- E. by apply list_elem_of_fmap_2. }
  inversion_clear Hn2 as [|?? Hnc Hn3]. rewrite fmap_app, !fmap_cons in Hch. apply chain_app in Hch as [Hch1 (Hcp & Hcc & Hch2)].
  assert (Hsub : ∀ P : block → Prop, Forall P (G1 ++ pr :: c :: G2) → Forall P (G1 ++ pr :: G2)).
  { intros P. rewrite !Forall_app, !Forall_cons. tauto. }
  exists (G1 ++ pr :: G2). rewrite Et in *. split; [|split_and!; [done| |done|]].
  - split; try done.
    + by destruct G1.
    + rewrite fmap_app, fmap_cons. apply chain_app. split; [by eapply chain_only|]. split; [|by eapply chain_only]. simpl. by rewrite Z.eqb_refl.
    + by apply Hsub.
    + simpl. rewrite fmap_app, fmap_cons. set_solver.
    + change (pr :: G2) with ([pr] ++ G2). rewrite app_assoc. apply sorted_app. by split_and!.
    + by apply Hsub.
    + intros a s. destruct (decide (a = c.1)) as [->|Hne].
      * rewrite lookup_insert_eq. intros [= <-]. change (bend (c.1, n)) with (bend (c.1, n)). rewrite <- En. change (bend (c.1, c.2)) with (bend c).
        split_and!; [done|done|done|done|]. apply Forall_forall. intros b Hb'. rewrite En. by apply Hta.
      * rewrite lookup_insert_ne by done. intros Ha. destruct (Hal _ _ Ha) as (? & ? & ? & ? & ?). split_and!; try done. by apply Hsub.
    + intros a s b t Ha Hb' Hab. apply lookup_insert_Some in Ha as [[<- <-]|[_ Ha]], Hb' as [[<- <-]|[_ Hb']]; [done| | |by apply Hone].
      * destruct (Htl _ _ Hb') as [?|?]; [by right|by left].
      * by apply Htl.
  - apply (only_untouched _ pr.1); [done|]. intros a s Ha. destruct (Hal _ _ Ha) as (_ & ? & ? & _ & Hap). apply Forall_app in Hap as [_ Hap].
    inversion_clear Hap. apply Forall_app in Hno as [_ Hno]. inversion_clear Hno. by eapply node_outside.
  - intros x. rewrite !covers_app, !covers_cons. assert (E : in_block x (c.1, n) ↔ in_block x c) by (unfold in_block, bend; simpl; rewrite En; done). tauto.
Qed.

(** A larger block keeps its head and gives its tail away. *)
Lemma take_tail prevp : n < c.2 → prevp ∈ (G1 ++ pr :: c :: G2).*1 →
  taken h (G1 ++ pr :: c :: G2) al tail_of n (set_freep prevp (set_size tail_of n (set_size c.1 (c.2 - n) h))).
Proof.
  intros En Hpr. destruct take_facts as (Hc0 & Hlo & Hhi & Hcs & Hb1 & Hb2 & Hb3 & Hs1 & Hs2). assert (Et : c.1 < tail_of) by (unfold tail_of, sizeof_Header; lia).
  pose proof tail_apart as Hta. pose proof tail_alone as Htl. pose proof take_free as Htf. pose proof take_apart as Htp. pose proof c_new as Hcn. pose proof bend_tail as Hbt.
  pose proof Hwf as [Hb Hk Hh Hch Hsz Hf Hso Hno Hal Hone].
  assert (Hbc : bend (c.1, c.2 - n) = tail_of) by done. set (c' := (c.1, c.2 - n)) in *.
  assert (Hrep : ∀ P : block → Prop, P c' → Forall P (G1 ++ pr :: c :: G2) → Forall P (G1 ++ pr :: c' :: G2)).
  { intros P. rewrite !Forall_app, !Forall_cons. tauto. }
  exists (G1 ++ pr :: c' :: G2). split; [|split_and!; [done| |done|]].
  - split; try done.
    + by destruct G1.
    + rewrite fmap_app, !fmap_cons in *. done.
    + apply Forall_forall. intros b Hb'. simpl. apply elem_of_app in Hb' as [Hb'|[->|[->|Hb']%elem_of_cons]%elem_of_cons].
      1,2,4: rewrite Forall_forall in Hcn, Hsz; destruct (Hcn b ltac:(set_solver)) as [N1 N2] || destruct (Hcn pr ltac:(set_solver)) as [N1 N2];
        rewrite (proj2 (Z.eqb_neq _ _) N2), (proj2 (Z.eqb_neq _ _) N1); apply Hsz; set_solver.
      simpl. rewrite (proj2 (Z.eqb_neq c.1 tail_of)), Z.eqb_refl by lia. done.
    + simpl. rewrite fmap_app, !fmap_cons in *. done.
    + change (pr :: c' :: G2) with ([pr] ++ c' :: G2). rewrite app_assoc. apply sorted_app. split_and!; [done| |].
      * constructor; [done|]. apply Forall_forall. intros y Hy. specialize (Hb2 y Hy). unfold before in *. rewrite Hbc. rewrite <- Hbt in Hb2. unfold bend, sizeof_Header in Hb2. simpl in Hb2. lia.
      * intros x y Hx [->|Hy]%elem_of_cons; [exact (Hb1 x Hx)|by apply Hb3].
    + apply Hrep; [|done]. right. split_and!; [simpl; lia|done|]. rewrite Hbc. simpl. rewrite <- Hbt in Hhi. unfold bend, sizeof_Header in Hhi. simpl in Hhi. lia.
    + intros a s. destruct (decide (a = tail_of)) as [->|Hne].
      * rewrite lookup_insert_eq. intros [= <-]. rewrite Hbt. split_and!; [simpl; by rewrite Z.eqb_refl|lia|lia|done|].
        apply Forall_forall. intros b Hb'. destruct (decide (b = c')) as [->|Hbc']; [right; by rewrite Hbc|]. apply Hta. set_solver.
      * rewrite lookup_insert_ne by done. intros Ha. destruct (Hal _ _ Ha) as (Has & Hs & Hal1 & Hal2 & Hap). destruct (Htp _ _ Ha) as (Hac & _ & _). split_and!; try done.
        -- simpl. rewrite (proj2 (Z.eqb_neq a tail_of)) by done. rewrite (proj2 (Z.eqb_neq a c.1)); [done|]. intros ->. unfold apart, bend, sizeof_Header in Hac. simpl in *. lia.
        -- apply Hrep; [|done]. unfold apart in *. rewrite Hbc. rewrite <- Hbt in Hac. unfold bend, sizeof_Header in *. simpl in *. lia.
    + intros a s b t Ha Hb' Hab. apply lookup_insert_Some in Ha as [[<- <-]|[_ Ha]], Hb' as [[<- <-]|[_ Hb']]; [done| | |by apply Hone].
      * destruct (Htl _ _ Hb') as [?|?]; [by right|by left].
      * by apply Htl.
  - intros a s x Ha Hx. simpl. destruct (Htp _ _ Ha) as (Hac & Hs & _). split; [done|].
    assert (Hx' : x ≠ tail_of ∧ x ≠ c.1).
    { unfold apart in Hac. rewrite <- Hbt in Hac. unfold in_block, bend, sizeof_Header in *. simpl in *. lia. }
    destruct Hx'. by rewrite (proj2 (Z.eqb_neq x tail_of)), (proj2 (Z.eqb_neq x c.1)).
  - intros x. rewrite !covers_app, !covers_cons. assert (E : in_block x c ↔ in_block x c' ∨ in_block x (tail_of, n)).
    { unfold in_block. rewrite Hbc, Hbt. simpl. rewrite <- Hbt. unfold bend, sizeof_Header. simpl. lia. } tauto.
Qed.

End take.

(** The branch of [malloc] that takes a block, at a node [c] reached from [prevp]. *)
Lemma wp_take h F al n c prevp (Q : Z → heap → Prop) : wf h F al → c ∈ F → 0 < n ≤ c.2 → prevp ∈ F.*1 → hp_ptr h prevp = c.1 →
  (∀ q h', taken h F al q n h' → Q (q + sizeof_Header) h') →
  wp (p ← (if hp_size h c.1 =? n then nx ← get_ptr c.1; modify (set_ptr prevp nx) ;; ret c.1
           else
             modify (set_size c.1 (u32 (hp_size h c.1 - n))) ;;
             let p := hplus c.1 (u32 (hp_size h c.1 - n)) in
             modify (set_size p n) ;;
             ret p);
      modify (set_freep prevp) ;;
      ret (hplus p 1)) Q h.
Proof.
  intros Hwf Hc Hn Hpr Hpc HQ. pose proof (wf_head _ _ _ Hwf) as Hh. pose proof (wf_base _ _ _ Hwf) as Hb.
  assert (Hsplit : ∃ G1 pr G2, F = G1 ++ pr :: c :: G2).
  { apply list_elem_of_split in Hc as (l1 & l2 & ->). destruct l1 as [|x l1 _] using rev_ind; [simpl in Hh; injection Hh as ->; simpl in Hn; lia|].
    exists l1, x, l2. by rewrite <- app_assoc. }
  destruct Hsplit as (G1 & pr & G2 & ->). destruct (take_facts h G1 pr c G2 al n Hwf Hn) as (Hc0 & Hlo & Hhi & Hcs & _). pose proof (wf_brk _ _ _ Hwf) as Hk.
  assert (Epr : prevp = pr.1).
  { rewrite fmap_app, !fmap_cons in Hpr. pose proof (wf_chain _ _ _ Hwf) as Hch. rewrite fmap_app, !fmap_cons in Hch.
    eapply chain_pred; [exact Hch| |unfold sizeof_Header in Hlo; lia|exact Hpr|exact Hpc]. rewrite <- !fmap_cons, <- fmap_app. apply sorted_nodup, sorted_starts; [|apply (wf_sorted _ _ _ Hwf)].
    eapply Forall_impl; [apply (wf_nodes _ _ _ Hwf)|]. intros b [->|Hp]; simpl; lia. }
  assert (Hplus : ∀ m, 0 ≤ m ≤ c.2 → hplus c.1 m = c.1 + sizeof_Header * m).
  { intros m Hm. apply hplus_exact; unfold bend, sizeof_Header in *; lia. }
  assert (Hlast : ∀ m, 0 ≤ m < c.2 → hplus (c.1 + sizeof_Header * m) 1 = c.1 + sizeof_Header * m + sizeof_Header).
  { intros m Hm. rewrite hplus_exact; unfold bend, sizeof_Header in *; lia. }
  rewrite Hcs. wp_step. destruct (c.2 =? n) eqn:En.
  - apply Z.eqb_eq in En. unfold get_ptr. wp_step. wp_step. wp_step. wp_step. wp_step. wp_step. wp_step. wp_step. subst prevp.
    replace (hplus c.1 1) with (tail_of c n + sizeof_Header).
    + apply HQ. by apply take_all.
    + rewrite Hplus by lia. unfold tail_of. lia.
  - apply Z.eqb_neq in En. replace (u32 (c.2 - n)) with (c.2 - n) by (symmetry; apply u32_id; unfold is_u32, bend, sizeof_Header, KERNBASE in *; lia).
    wp_step. wp_step. cbv zeta. rewrite Hplus by lia. wp_step. wp_step. wp_step. wp_step. wp_step. wp_step. rewrite Hlast by lia. fold (tail_of c n).
    apply HQ. apply take_tail; [done|done|lia|done].
Qed.

End heap.
