(* ===== verification/UmallocProps.v ===== *)
(** * malloc and free (umalloc.c)

    [malloc] returns memory that nothing else uses, [free] makes it available
    again, and neither touches a block in use. *)

From S2P Require Import Prelude Words Params Umalloc UmallocInv.

Section malloc.
Context (base : Z).

(** ** Growing the heap *)

(** The largest request [sbrk] understands: its argument is an [int]. *)
Definition max_units : Z := 2 ^ 28.

(** The new piece of the heap as a block in use. *)
Lemma wf_grown h F al n : wf base h F al → 0 < n → hp_brk h + sizeof_Header * n < KERNBASE →
  wf base (set_size (hp_brk h) n (set_brk (hp_brk h + sizeof_Header * n) h)) F (<[hp_brk h := n]> al) ∧ al !! hp_brk h = None.
Proof.
  intros Hwf Hn Hk. destruct Hwf as [Hb [Hlo Hk'] Hh Hch Hsz Hf Hso Hno Hal Hone].
  assert (Hnone : al !! hp_brk h = None).
  { destruct (al !! hp_brk h) as [s|] eqn:E; [|done]. destruct (Hal _ _ E) as (_ & ? & _ & ? & _). unfold bend, sizeof_Header in *. simpl in *. lia. }
  assert (Hend : ∀ b, b ∈ F → bend b ≤ hp_brk h ∧ b.1 < hp_brk h).
  { intros b Hb'. rewrite Forall_forall in Hno. destruct (Hno b Hb') as [->|(? & ? & ?)]; unfold bend, sizeof_Header in *; simpl in *; lia. }
  split; [|done]. split; try done; cbn [hp_brk set_size set_brk hp_size hp_ptr].
  - unfold sizeof_Header in *. lia.
  - apply Forall_forall. intros b Hb'. rewrite (proj2 (Z.eqb_neq b.1 _)) by (destruct (Hend b Hb'); lia). rewrite Forall_forall in Hsz. by apply Hsz.
  - eapply Forall_impl; [exact Hno|]. intros b [->|(? & ? & ?)]; [by left|right]. unfold sizeof_Header in *. split_and!; lia.
  - intros a s. destruct (decide (a = hp_brk h)) as [->|Hne].
    + rewrite lookup_insert_eq, Z.eqb_refl. intros [= <-]. split_and!; [done|done|done|done|]. apply Forall_forall. intros b Hb'. right. simpl. by destruct (Hend b Hb').
    + rewrite lookup_insert_ne by done. intros Ha. rewrite (proj2 (Z.eqb_neq a _)) by done. destruct (Hal _ _ Ha) as (? & ? & ? & ? & ?).
      split_and!; try done. unfold sizeof_Header in *. lia.
  - assert (Hap : ∀ a s, al !! a = Some s → bend (a, s) ≤ hp_brk h) by (intros a s Ha; by destruct (Hal _ _ Ha) as (_ & _ & _ & ? & _)).
    intros a s b t Ha Hb' Hab. apply lookup_insert_Some in Ha as [[<- <-]|[_ Ha]], Hb' as [[<- <-]|[_ Hb']]; [done| | |by apply Hone].
    + right. by apply (Hap _ _ Hb').
    + left. by apply (Hap _ _ Ha).
Qed.

(** The heap has been extended by free space. *)
Definition extended (h : heap) (F : list block) (al : gmap Z Z) (n : Z) (h' : heap) : Prop :=
  ∃ F', wf base h' F' al ∧ untouched al h h' ∧ hp_brk h ≤ hp_brk h' ∧
    (∀ x, covers F' x ↔ covers F x ∨ hp_brk h ≤ x < hp_brk h') ∧
    (n ≤ hp_size h' (hp_freep h') ∨ n ≤ hp_size h' (hp_ptr h' (hp_freep h'))) ∧ (length F' ≤ S (length F))%nat.

(** What [malloc] leaves when it returns [r]: the block is new, or there is no memory. *)
Definition result (h : heap) (F : list block) (al : gmap Z Z) (n r : Z) (h' : heap) : Prop :=
  (r = 0 ∧ ∃ F', wf base h' F' al ∧ untouched al h h' ∧ hp_brk h ≤ hp_brk h' ∧ ∀ x, covers F' x ↔ covers F x ∨ hp_brk h ≤ x < hp_brk h') ∨
  (∃ q F', r = q + sizeof_Header ∧ al !! q = None ∧ wf base h' F' (<[q := n]> al) ∧ untouched al h h' ∧ hp_brk h ≤ hp_brk h' ∧
    ∀ x, covers F' x ∨ in_block x (q, n) ↔ covers F x ∨ hp_brk h ≤ x < hp_brk h').

(** A heap between calls: [F] and [al] tile it from [lo] on, or nothing has been
    allocated yet. *)
Definition tiled (lo : Z) (h : heap) (F : list block) (al : gmap Z Z) : Prop :=
  ∀ x, lo ≤ x < hp_brk h ↔ covers F x ∨ ∃ a s, al !! a = Some s ∧ in_block x (a, s).

Definition heap_ok (lo : Z) (h : heap) (al : gmap Z Z) : Prop :=
  lo ≤ hp_brk h ∧
  ((∃ F, wf base h F al ∧ tiled lo h F al) ∨
   (hp_freep h = 0 ∧ al = ∅ ∧ hp_brk h = lo ∧ 0 < base ∧ base + sizeof_Header ≤ lo < KERNBASE)).

(** The static header alone on the list. *)
Lemma wf_initial h : 0 < base → base + sizeof_Header ≤ hp_brk h < KERNBASE → wf base (set_size base 0 (set_ptr base base (set_freep base h))) [(base, 0)] ∅.
Proof.
  intros Hb Hk. split; try done; simpl.
  - by rewrite Z.eqb_refl.
  - constructor; [|done]. simpl. by rewrite Z.eqb_refl.
  - by left.
  - by repeat constructor.
  - constructor; [by left|done].
Qed.

Lemma units_exact n : 0 ≤ n < 2 ^ 31 - sizeof_Header * 2 → 0 < units n < max_units ∧ n ≤ sizeof_Header * (units n - 1) < n + sizeof_Header.
Proof.
  intros Hn. unfold units, max_units, sizeof_Header in *. rewrite u32_id by (unfold is_u32; lia).
  pose proof (Z.div_mod (n + 8 - 1) 8 ltac:(done)). pose proof (Z.mod_pos_bound (n + 8 - 1) 8 ltac:(done)). lia.
Qed.

Section search.
Context (grow : Z → Z → bool).

Lemma wp_morecore h F al n (Q : Z → heap → Prop) : wf base h F al → 0 < n < max_units →
  Q 0 h → (∀ h', extended h F al n h' → Q (hp_freep h') h') → wp (morecore grow n) Q h.
Proof.
  intros Hwf Hn Hfail Hok. unfold morecore. set (nu := if n <? 4096 then 4096 else n).
  assert (Hnu : n ≤ nu < max_units) by (unfold nu, max_units in *; destruct (Z.ltb_spec n 4096); lia). pose proof (wf_brk _ _ _ _ Hwf) as [Hlo Hk]. pose proof (wf_base _ _ _ _ Hwf) as Hb.
  assert (Ei : i32 (nu * sizeof_Header) = nu * sizeof_Header) by (apply i32_id; unfold is_i32, sizeof_Header, max_units in *; lia). rewrite Ei.
  unfold sbrk. wp_step. wp_step. wp_step. rewrite (proj2 (Z.ltb_lt 0 _)) by (unfold sizeof_Header; lia).
  rewrite u32_id by (unfold is_u32, sizeof_Header, max_units, KERNBASE in *; lia).
  destruct ((KERNBASE <=? hp_brk h + nu * sizeof_Header) || negb (grow (hp_brk h) (nu * sizeof_Header))) eqn:Eg; [wp_step; simpl; by wp_step|].
  apply orb_false_iff in Eg as [Eg _]. apply Z.leb_gt in Eg. wp_step. rewrite (proj2 (Z.leb_le (hp_brk h) _)) by (unfold sizeof_Header; lia). simpl whenM. wp_step. wp_step.
  rewrite (proj2 (Z.eqb_neq (hp_brk h) (-1))) by (unfold sizeof_Header in *; lia). wp_step. wp_step. wp_step. rewrite (Z.mul_comm nu).
  destruct (wf_grown h F al nu Hwf ltac:(lia) ltac:(lia)) as [Hg Hnone]. rewrite hplus_exact by (unfold sizeof_Header in *; lia). rewrite Z.mul_1_r.
  apply (wp_free base _ F (<[hp_brk h := nu]> al) (hp_brk h) nu); [exact Hg|apply lookup_insert_eq|]. rewrite delete_insert_id by done.
  intros h' (F' & Hwf' & Hu & Hbrk & Hcov & Hfound & Hlen). wp_step. apply Hok. cbn [hp_brk set_size set_brk] in Hbrk. exists F'. split_and!; try done.
  - intros a s x Ha Hx. destruct (Hu a s x Ha Hx) as [-> ->]. cbn [hp_ptr hp_size set_size set_brk]. split; [done|].
    destruct (wf_alloc _ _ _ _ Hwf _ _ Ha) as (_ & _ & _ & ? & _). rewrite (proj2 (Z.eqb_neq x _)); [done|]. unfold in_block in Hx. lia.
  - unfold sizeof_Header in *. lia.
  - intros x. rewrite Hcov, Hbrk. unfold in_block, bend. simpl. tauto.
  - lia.
Qed.

(** ** The search of malloc *)

(** One turn at a block that is large enough. *)
Lemma wp_found f h F al n prevp p (Q : Z → heap → Prop) : wf base h F al → p ∈ F.*1 → prevp ∈ F.*1 → hp_ptr h prevp = p → 0 < n ≤ hp_size h p →
  (∀ q h', taken base h F al q n h' → Q (q + sizeof_Header) h') → wp (malloc_loop grow (S f) n prevp p) Q h.
Proof.
  intros Hwf Hp Hpr Hpp Hn HQ. apply list_elem_of_fmap in Hp as (c & -> & Hc). pose proof (wf_sizes _ _ _ _ Hwf) as Hsz. rewrite Forall_forall in Hsz.
  cbn [malloc_loop]. unfold get_size at 1. wp_step. wp_step. rewrite (proj2 (Z.leb_le n _)) by lia. apply (wp_take base h F al); try done. by rewrite <- Hsz.
Qed.

Lemma next_in h F al p : wf base h F al → p ∈ F.*1 → hp_ptr h p ∈ F.*1.
Proof.
  intros Hwf Hp. pose proof (chain_next _ _ _ _ (wf_chain _ _ _ _ Hwf) Hp) as Hx. pose proof (wf_head _ _ _ _ Hwf) as Hh.
  apply elem_of_cons in Hx as [->|Hx]; [|done]. destruct F as [|b F]; [done|]. simpl in Hh. injection Hh as ->. simpl. by left.
Qed.

(** After [morecore]: there is a block that fits, at the next node or at the end of
    the round. *)
Lemma wp_second_round k : ∀ fuel h F al n prevp p (Q : Z → heap → Prop), wf base h F al → p ∈ F.*1 → prevp ∈ F.*1 → hp_ptr h prevp = p →
  Nat.iter k (hp_ptr h) p = hp_freep h → 0 < n → n ≤ hp_size h (hp_freep h) ∨ n ≤ hp_size h p → (k < fuel)%nat →
  (∀ q h', taken base h F al q n h' → Q (q + sizeof_Header) h') → wp (malloc_loop grow fuel n prevp p) Q h.
Proof.
  induction k as [|k IH]; intros fuel h F al n prevp p Q Hwf Hp Hpr Hpp Hk Hn Hfit Hf HQ; (destruct fuel as [|f]; [lia|]);
    (destruct (Z_le_gt_dec n (hp_size h p)) as [Hle|Hgt]; [by apply (wp_found f h F al)|]).
  - simpl in Hk. rewrite <- Hk in Hfit. lia.
  - destruct Hfit as [Hfit|]; [|lia]. cbn [malloc_loop]. unfold get_size at 1. wp_step. wp_step. rewrite (proj2 (Z.leb_gt n _)) by lia. wp_step. wp_step.
    destruct (Z.eqb_spec p (hp_freep h)) as [E|E]; [rewrite E in Hgt; lia|]. unfold get_ptr at 1. wp_step. wp_step.
    apply (IH f h F al); try done; [by eapply next_in| |by left|lia]. by rewrite <- Nat.iter_succ_r.
Qed.

Lemma circle h F al : wf base h F al → ∃ l, F.*1 = base :: l ∧ S (length l) = length F.
Proof.
  intros Hwf. pose proof (wf_head _ _ _ _ Hwf) as Hh. destruct F as [|b F]; [done|]. simpl in Hh. injection Hh as ->. exists F.*1. simpl. by rewrite length_fmap.
Qed.

Lemma reach_freep h F al p : wf base h F al → p ∈ F.*1 → ∃ k, (k ≤ 2 * length F)%nat ∧ Nat.iter k (hp_ptr h) p = hp_freep h.
Proof.
  intros Hwf Hp. destruct (circle _ _ _ Hwf) as (l & E & El). pose proof (wf_chain _ _ _ _ Hwf) as Hc. pose proof (wf_freep _ _ _ _ Hwf) as Hf. rewrite E in *.
  rewrite <- El. by eapply reach.
Qed.

Lemma taken_result h F al h1 F1 n q h' : wf base h1 F1 al → untouched al h h1 → hp_brk h ≤ hp_brk h1 → (∀ x, covers F1 x ↔ covers F x ∨ hp_brk h ≤ x < hp_brk h1) →
  taken base h1 F1 al q n h' → result h F al n (q + sizeof_Header) h'.
Proof.
  intros Hwf Hu Hb Hcov (F' & Hwf' & Hq & Hu' & Hbrk & Hcov'). right. exists q, F'. split_and!; try done; [by eapply untouched_trans|lia|].
  intros x. rewrite <- Hcov', Hcov, Hbrk. done.
Qed.

(** Asking for more memory and searching again. *)
Lemma wp_retry f h F al n : wf base h F al → 0 < n < max_units → (2 * length F + 2 < f)%nat →
  wp (p ← morecore grow n; if p =? 0 then ret 0 else nx ← get_ptr p; malloc_loop grow f n p nx) (result h F al n) h.
Proof.
  intros Hwf Hn Hf. wp_step. apply (wp_morecore h F al); [done|done| |].
  { simpl. wp_step. left. split; [done|]. exists F. split_and!; [done|done|lia|intros x; intuition lia]. }
  intros h' (F' & Hwf' & Hu & Hb & Hcov & Hfit & Hlen). pose proof (wf_freep _ _ _ _ Hwf') as Hf'. pose proof (wf_base _ _ _ _ Hwf') as Hbase.
  rewrite (proj2 (Z.eqb_neq (hp_freep h') 0)).
  2: { apply list_elem_of_fmap in Hf' as (b & -> & Hb'). pose proof (wf_nodes _ _ _ _ Hwf') as Hno. rewrite Forall_forall in Hno.
       destruct (Hno b Hb') as [->|(_ & ? & _)]; unfold sizeof_Header in *; simpl; lia. }
  unfold get_ptr at 1. wp_step. wp_step. pose proof (next_in _ _ _ _ Hwf' Hf') as Hnx. destruct (reach_freep _ _ _ _ Hwf' Hnx) as (k & Hk & Ek).
  apply (wp_second_round k f h' F' al); try done; [lia|lia|]. intros q h2 Ht. by eapply taken_result.
Qed.

Lemma wp_first_round k : ∀ fuel h F al n prevp p, wf base h F al → p ∈ F.*1 → prevp ∈ F.*1 → hp_ptr h prevp = p →
  Nat.iter k (hp_ptr h) p = hp_freep h → 0 < n < max_units → (k + 2 * length F + 3 < fuel)%nat →
  wp (malloc_loop grow fuel n prevp p) (result h F al n) h.
Proof.
  induction k as [|k IH]; intros fuel h F al n prevp p Hwf Hp Hpr Hpp Hk Hn Hf; (destruct fuel as [|f]; [lia|]);
    (destruct (Z_le_gt_dec n (hp_size h p)) as [Hle|Hgt];
     [apply (wp_found f h F al); try done; [lia|]; intros q h' Ht; eapply taken_result; try done; intros x; intuition lia|]);
    cbn [malloc_loop]; unfold get_size at 1; wp_step; wp_step; rewrite (proj2 (Z.leb_gt n _)) by lia; wp_step; wp_step;
    (destruct (Z.eqb_spec p (hp_freep h)) as [E|E]; [apply wp_retry; [done|done|lia]|]).
  - by simpl in Hk.
  - unfold get_ptr at 1. wp_step. wp_step. apply IH; try done; [by eapply next_in| |lia]. by rewrite <- Nat.iter_succ_r.
Qed.

(** ** malloc *)

Lemma wp_malloc_wf h F al nbytes : wf base h F al → 0 ≤ nbytes < 2 ^ 31 - sizeof_Header * 2 →
  wp (h' ← getS; p ← get_ptr (hp_freep h); malloc_loop grow (4 * heap_fuel h' + 8) (units nbytes) (hp_freep h) p) (result h F al (units nbytes)) h.
Proof.
  intros Hwf Hn. destruct (units_exact nbytes Hn) as [Hu _]. unfold get_ptr. wp_step. wp_step. wp_step. wp_step. pose proof (wf_freep _ _ _ _ Hwf) as Hf.
  pose proof (next_in _ _ _ _ Hwf Hf) as Hnx. destruct (reach_freep _ _ _ _ Hwf Hnx) as (k & Hk & Ek). pose proof (wf_length _ _ _ _ Hwf) as Hlen.
  apply (wp_first_round k); try done. lia.
Qed.

End search.

(** ** What the callers rely on *)

Lemma tiled_grow lo h F al h' F' : lo ≤ hp_brk h → hp_brk h ≤ hp_brk h' → tiled lo h F al →
  (∀ x, covers F' x ↔ covers F x ∨ hp_brk h ≤ x < hp_brk h') → tiled lo h' F' al.
Proof. intros Hlo Hb Ht Hcov x. rewrite Hcov. specialize (Ht x). assert (lo ≤ x < hp_brk h' ↔ lo ≤ x < hp_brk h ∨ hp_brk h ≤ x < hp_brk h') by lia. tauto. Qed.

Lemma in_use_insert (al : gmap Z Z) q n x : al !! q = None →
  (∃ a s, <[q := n]> al !! a = Some s ∧ in_block x (a, s)) ↔ in_block x (q, n) ∨ ∃ a s, al !! a = Some s ∧ in_block x (a, s).
Proof.
  intros Hq. split.
  - intros (a & s & [[<- <-]|[_ Ha]]%lookup_insert_Some & Hx); [by left|right; eauto].
  - intros [Hx|(a & s & Ha & Hx)]; [exists q, n; by rewrite lookup_insert_eq|]. exists a, s. rewrite lookup_insert_ne; [done|]. congruence.
Qed.

Lemma tiled_take lo h F al h' F' q n : lo ≤ hp_brk h → hp_brk h ≤ hp_brk h' → tiled lo h F al → al !! q = None →
  (∀ x, covers F' x ∨ in_block x (q, n) ↔ covers F x ∨ hp_brk h ≤ x < hp_brk h') → tiled lo h' F' (<[q := n]> al).
Proof.
  intros Hlo Hb Ht Hq Hcov x. rewrite in_use_insert by done. specialize (Ht x). specialize (Hcov x).
  assert (lo ≤ x < hp_brk h' ↔ lo ≤ x < hp_brk h ∨ hp_brk h ≤ x < hp_brk h') by lia. tauto.
Qed.

(** A block of [s] units at [q] that is part of the heap and meets no block in use. *)
Definition fresh_block (lo : Z) (h : heap) (al : gmap Z Z) (q s : Z) : Prop :=
  lo ≤ q ∧ bend (q, s) ≤ hp_brk h ∧ al !! q = None ∧ ∀ a t, al !! a = Some t → apart (q, s) (a, t).

Definition malloc_post (lo : Z) (h : heap) (al : gmap Z Z) (nbytes r : Z) (h' : heap) : Prop :=
  untouched al h h' ∧
  ((r = 0 ∧ heap_ok lo h' al) ∨
   (∃ q s, r = q + sizeof_Header ∧ nbytes ≤ sizeof_Header * (s - 1) ∧ fresh_block lo h' al q s ∧ heap_ok lo h' (<[q := s]> al))).

Lemma result_post lo h F al nbytes r h' : 0 ≤ nbytes < 2 ^ 31 - sizeof_Header * 2 → lo ≤ hp_brk h → tiled lo h F al → result h F al (units nbytes) r h' →
  malloc_post lo h al nbytes r h'.
Proof.
  intros Hn Hlo Ht. destruct (units_exact nbytes Hn) as [Hu Hle]. intros [(-> & F' & Hwf & Hun & Hb & Hcov)|(q & F' & -> & Hq & Hwf & Hun & Hb & Hcov)]; (split; [done|]).
  - left. split; [done|]. split; [lia|]. left. exists F'. split; [done|]. by eapply tiled_grow.
  - right. exists q, (units nbytes). pose proof (tiled_take _ _ _ _ _ _ _ _ Hlo Hb Ht Hq Hcov) as Ht'. split_and!; [done|lia| |].
    + destruct (wf_alloc _ _ _ _ Hwf q (units nbytes) (lookup_insert_eq _ _ _)) as (_ & ? & _ & ? & _). split_and!; try done.
      * apply (Ht' q). right. exists q, (units nbytes). rewrite lookup_insert_eq. split; [done|]. unfold in_block, bend, sizeof_Header in *. simpl. lia.
      * intros a t Ha. apply (wf_alone _ _ _ _ Hwf); [by rewrite lookup_insert_eq|rewrite lookup_insert_ne; [done|congruence]|congruence].
    + split; [lia|]. left. exists F'. done.
Qed.


(** C24: [free] gives the block back: on a consistent heap, for a block in use, it
    terminates, the heap is consistent without that block, its memory can be used again
    (joined to the free blocks next to it), and no other block in use is touched. *)
Theorem free_correct lo h al q s : heap_ok lo h al → al !! q = Some s →
  wp (free (q + sizeof_Header)) (λ _ h', heap_ok lo h' (delete q al) ∧ untouched (delete q al) h h' ∧ hp_brk h' = hp_brk h) h.
Proof.
  intros [Hlo [(F & Hwf & Ht)|(_ & -> & _)]] Hq; [|by rewrite lookup_empty in Hq]. apply (wp_free base h F al q s); [done|done|].
  intros h' (F' & Hwf' & Hu & Hb & Hcov & _). split_and!; [|done|done]. split; [lia|]. left. exists F'. split; [done|]. intros x. rewrite Hb, (Ht x), Hcov.
  pose proof (in_use_insert (delete q al) q s x (lookup_delete_eq _ _)) as Hi. rewrite insert_delete_id in Hi by done. tauto.
Qed.

End malloc.

(** ** An example, and requests that are too large *)

(** A process of two pages with its static header at 4096. *)
Definition heap0 : heap := Heap (λ _, 0) (λ _, 0) 0 8192.
Definition always (brk n : Z) : bool := true.

Lemma heap0_ok : heap_ok 4096 8192 heap0 ∅.
Proof. split; [done|]. by right. Qed.


(** The heap after [malloc(100)]. *)
Definition heap1 : heap := exec (malloc 4096 always 100) heap0.

Lemma heap1_ok : heap_ok 4096 8192 heap1 {[ 40848 := 14 ]}.
Proof.
  split; [vm_compute; discriminate|]. left. exists [(4096, 0); (8192, 4082)]. split.
  - split; try done.
    + by repeat constructor.
    + vm_compute. by left.
    + by repeat constructor.
    + constructor; [by left|]. constructor; [by right|done].
    + intros a s [<- <-]%lookup_singleton_Some. split_and!; try done. constructor; [by right|]. constructor; [by right|done].
    + intros a s b t [<- <-]%lookup_singleton_Some [<- <-]%lookup_singleton_Some. done.
  - intros x. change (hp_brk heap1) with 40960. rewrite !covers_cons. unfold in_block, bend, sizeof_Header. simpl. split.
    + intros Hx. destruct (Z_lt_le_dec x 40848); [left; right; left; lia|]. right. exists 40848, 14. split; [done|lia].
    + intros [[?|[?|(b & Hb & _)]]|(a & s & [<- <-]%lookup_singleton_Some & Hx)]; [lia|lia|by apply elem_of_nil in Hb|lia].
Qed.

Lemma free_correct_witness :
  wp (free (40848 + sizeof_Header)) (λ _ h', heap_ok 4096 8192 h' (delete 40848 {[ 40848 := 14 ]}) ∧ untouched (delete 40848 {[ 40848 := 14 ]}) heap1 h' ∧ hp_brk h' = hp_brk heap1) heap1.
Proof. apply (free_correct 4096 8192 heap1 {[ 40848 := 14 ]} 40848 14 heap1_ok). reflexivity. Defined.

(** A request of 2 GiB turns the argument of [sbrk] negative: the heap does not
    grow, and [malloc] returns a block that is not there. *)
Lemma malloc_too_large : ∃ r h', malloc 4096 always (2 ^ 31) heap0 = Ok r h' ∧ r ≠ 0 ∧ hp_brk h' = hp_brk heap0 ∧ hp_brk h' < r + 2 ^ 31.
Proof. eexists _, _. split; [vm_compute; reflexivity|]. vm_compute. split_and!; [discriminate|reflexivity|reflexivity]. Qed.

(** A request of 4 GiB less one byte wraps around: [malloc] returns a block without
    any room. *)
Lemma malloc_wraps : units (2 ^ 32 - 1) = 1.
Proof. reflexivity. Qed.
