(* ===== verification/Shell.v ===== *)
(** * The shell's parser (sh.c)

    A pointer into the command line is the rest of the line from it on, up to the
    end [es]; the NUL behind the line is the empty rest.  The parser is a
    computation on the pointer [*ps], and [panic] ends the process.  A parsed word
    is the pair of pointers (q, eq) the code keeps; [nulterminate] stores a NUL at
    each [eq].  The node of an [execcmd] is filled in while redirections are
    already wrapped around it, so [parseexec] collects the redirections and wraps
    them around the finished node. *)

From S2P Require Import Prelude Words Params.

Definition ptr := list Z.

(** ** Characters *)

Definition ch_lt : Z := 60.
Definition ch_gt : Z := 62.
Definition ch_bar : Z := 124.
Definition ch_amp : Z := 38.
Definition ch_semi : Z := 59.
Definition ch_open : Z := 40.
Definition ch_close : Z := 41.
Definition tok_word : Z := 97.
Definition tok_append : Z := 43.

Definition whitespace : list Z := [32; 9; 13; 10; 11].
Definition symbols : list Z := [ch_lt; ch_bar; ch_gt; ch_amp; ch_semi; ch_open; ch_close].

(** [strchr(l, c)] as a truth value, for a character of the line. *)
Definition one_of (c : Z) (l : list Z) : bool := existsb (Z.eqb c) l.
Definition is_word (c : Z) : bool := negb (one_of c whitespace) && negb (one_of c symbols).
#[global] Arguments one_of : simpl never.
#[global] Arguments is_word : simpl never.

(** ** Commands *)

Definition token : Type := ptr * ptr.
Record redir := Redir { rd_file : token; rd_mode : Z; rd_fd : Z }.

Inductive cmd :=
| EXEC (argv : list token)
| REDIR (c : cmd) (r : redir)
| PIPE (left right : cmd)
| LIST (left right : cmd)
| BACK (c : cmd).

Definition MAXARGS : nat := 10.

(** ** Tokens *)

Fixpoint skip_ws (s : ptr) : ptr :=
  match s with
  | c :: s' => if one_of c whitespace then skip_ws s' else s
  | [] => []
  end.

Fixpoint skip_word (s : ptr) : ptr :=
  match s with
  | c :: s' => if is_word c then skip_word s' else s
  | [] => []
  end.

(** The switch of [gettoken]: its value and the pointer behind the token. *)
Definition scan_token (s : ptr) : Z * ptr :=
  match s with
  | [] => (0, [])
  | c :: s' =>
      if one_of c [ch_bar; ch_open; ch_close; ch_semi; ch_amp; ch_lt] then (c, s')
      else if c =? ch_gt then
        match s' with
        | d :: s'' => if d =? ch_gt then (tok_append, s'') else (c, s')
        | [] => (c, s')
        end
      else (tok_word, skip_word s)
  end.

Definition gettoken : M ptr (Z * token) := λ s,
  let q := skip_ws s in
  let '(tok, eq) := scan_token q in
  Ok (tok, (q, eq)) (skip_ws eq).

Definition peek (toks : list Z) : M ptr bool := λ s,
  let s := skip_ws s in
  Ok (match s with c :: _ => one_of c toks | [] => false end) s.

(** ** The parser *)

Definition redircmd (tok : Z) (w : token) : redir :=
  if tok =? ch_lt then Redir w O_RDONLY 0 else Redir w (Z.lor O_WRONLY O_CREATE) 1.

Fixpoint parseredirs_from (fuel : nat) : M ptr (list redir) :=
  match fuel with
  | O => fault
  | S f =>
      b ← peek [ch_lt; ch_gt];
      if b : bool then
        t ← gettoken;
        w ← gettoken;
        if negb (w.1 =? tok_word) then panic "missing file for redirection" else
        l ← parseredirs_from f;
        ret (redircmd t.1 w.2 :: l)
      else ret []
  end.

(** The loops of the parser run at most once for each character that is left. *)
Definition parseredirs : M ptr (list redir) := λ s, parseredirs_from (S (length s)) s.

(** The redirections around a command, the first one innermost. *)
Definition redirs (l : list redir) (c : cmd) : cmd := fold_left REDIR l c.

(** The loop of [parseexec]: [argc] arguments so far. *)
Fixpoint parseargs_from (fuel argc : nat) : M ptr (list token * list redir) :=
  match fuel with
  | O => fault
  | S f =>
      b ← peek [ch_bar; ch_close; ch_amp; ch_semi];
      if b : bool then ret ([], []) else
      t ← gettoken;
      if t.1 =? 0 then ret ([], []) else
      if negb (t.1 =? tok_word) then panic "syntax" else
      if (MAXARGS <=? S argc)%nat then panic "too many args" else
      l ← parseredirs;
      r ← parseargs_from f (S argc);
      ret (t.2 :: r.1, l ++ r.2)
  end.

Definition parseargs : M ptr (list token * list redir) := λ s, parseargs_from (S (length s)) 0 s.

Fixpoint back_loop (fuel : nat) (c : cmd) : M ptr cmd :=
  match fuel with
  | O => fault
  | S f =>
      b ← peek [ch_amp];
      if b : bool then gettoken ;; back_loop f (BACK c) else ret c
  end.

Definition parsebacks (c : cmd) : M ptr cmd := λ s, back_loop (S (length s)) c s.

Fixpoint parseline (fuel : nat) : M ptr cmd :=
  match fuel with
  | O => fault
  | S f =>
      c ← parsepipe f;
      c ← parsebacks c;
      b ← peek [ch_semi];
      if b : bool then
        gettoken ;;
        r ← parseline f;
        ret (LIST c r)
      else ret c
  end
with parsepipe (fuel : nat) : M ptr cmd :=
  match fuel with
  | O => fault
  | S f =>
      c ← parseexec f;
      b ← peek [ch_bar];
      if b : bool then
        gettoken ;;
        r ← parsepipe f;
        ret (PIPE c r)
      else ret c
  end
with parseexec (fuel : nat) : M ptr cmd :=
  match fuel with
  | O => fault
  | S f =>
      b ← peek [ch_open];
      if b : bool then parseblock f else
      l ← parseredirs;
      r ← parseargs;
      ret (redirs (l ++ r.2) (EXEC r.1))
  end
with parseblock (fuel : nat) : M ptr cmd :=
  match fuel with
  | O => fault
  | S f =>
      b ← peek [ch_open];
      if negb b then panic "parseblock" else
      gettoken ;;
      c ← parseline f;
      b ← peek [ch_close];
      if negb b then panic "syntax - missing )" else
      gettoken ;;
      l ← parseredirs;
      ret (redirs l c)
  end.

(** Enough fuel: four calls for each character, since every cycle of calls
    consumes a parenthesis, a bar or a semicolon. *)
Definition parse_fuel (s : ptr) : nat := 4 * length s + 4.

(** [parsecmd] on the [strlen(s)] bytes of the line, before [nulterminate]. *)
Definition parse : M ptr cmd :=
  s ← getS;
  c ← parseline (parse_fuel s);
  peek [] ;;
  s ← getS;
  match s with
  | [] => ret c
  | _ => panic "syntax"
  end.

(** ** nulterminate *)

(** The index in [buf] a pointer denotes. *)
Definition index (buf : list Z) (p : ptr) : nat := length buf - length p.

Definition nul (buf : list Z) (line : list Z) (w : token) : list Z := <[index buf w.2 := 0]> line.

(** [nulterminate(cmd)]; [buf] is the line as parsed and [line] the array it is
    in, with its NUL. *)
Fixpoint nulterminate (buf : list Z) (c : cmd) (line : list Z) : list Z :=
  match c with
  | EXEC argv => fold_left (nul buf) argv line
  | REDIR c r => nul buf (nulterminate buf c line) (rd_file r)
  | PIPE l r | LIST l r => nulterminate buf r (nulterminate buf l line)
  | BACK c => nulterminate buf c line
  end.

(** [parsecmd]: the command and the line with its words terminated. *)
Definition parsecmd (buf : list Z) : outcome ptr (cmd * list Z) :=
  (c ← parse; ret (c, nulterminate buf c (buf ++ [0]))) buf.

(** ** Computations that return or panic *)

Definition safe {A} (c : M ptr A) (Q : A → ptr → Prop) (s : ptr) : Prop :=
  match c s with
  | Ok a s' => Q a s'
  | Panic _ => True
  | _ => False
  end.

Lemma safe_bind {A B} (c : M ptr A) (f : A → M ptr B) Q s : safe c (λ a, safe (f a) Q) s → safe (bind c f) Q s.
Proof. unfold safe, bind. by destruct (c s). Qed.

Lemma safe_mono {A} (c : M ptr A) (P Q : A → ptr → Prop) s : safe c P s → (∀ a s', P a s' → Q a s') → safe c Q s.
Proof. unfold safe. destruct (c s); eauto. Qed.

Lemma safe_ret {A} (a : A) (Q : A → ptr → Prop) s : Q a s → safe (ret a) Q s.
Proof. done. Qed.

Lemma safe_panic {A} msg (Q : A → ptr → Prop) s : safe (panic msg) Q s.
Proof. done. Qed.

Ltac safe_step :=
  lazymatch goal with
  | |- safe (bind _ _) _ _ => apply safe_bind
  | |- safe (ret _) _ _ => apply safe_ret
  | |- safe (panic _) _ _ => apply safe_panic
  | |- safe (if ?b then _ else _) _ _ => destruct b eqn:?
  end; cbn beta.

(** ** Tokens are words of the line *)

(** A token is a maximal word: its characters are word characters and the one
    behind it is not. *)
Record token_ok (buf : list Z) (w : token) : Prop := {
  tk_in : w.1 `suffix_of` buf;
  tk_split : ∃ l, l ≠ [] ∧ w.1 = l ++ w.2 ∧ forallb is_word l = true;
  tk_end : match w.2 with c :: _ => is_word c = false | [] => True end
}.

Fixpoint tokens (c : cmd) : list token :=
  match c with
  | EXEC argv => argv
  | REDIR c r => tokens c ++ [rd_file r]
  | PIPE l r | LIST l r => tokens l ++ tokens r
  | BACK c => tokens c
  end.

(** No command has more than nine arguments. *)
Fixpoint args_fit (c : cmd) : Prop :=
  match c with
  | EXEC argv => (length argv < MAXARGS)%nat
  | REDIR c _ | BACK c => args_fit c
  | PIPE l r | LIST l r => args_fit l ∧ args_fit r
  end.

Lemma skip_ws_suffix s : skip_ws s `suffix_of` s.
Proof. induction s as [|c s IH]; simpl; [done|]. destruct (one_of c whitespace); [by apply suffix_cons_r|done]. Qed.

Lemma skip_word_suffix s : skip_word s `suffix_of` s.
Proof. induction s as [|c s IH]; simpl; [done|]. destruct (is_word c); [by apply suffix_cons_r|done]. Qed.

Lemma skip_word_split s : ∃ l, s = l ++ skip_word s ∧ forallb is_word l = true ∧ match skip_word s with c :: _ => is_word c = false | [] => True end.
Proof.
  induction s as [|c s (l & E & Hl & He)]; simpl; [by exists []|]. destruct (is_word c) eqn:Ec; [|exists []; by rewrite Ec].
  exists (c :: l). simpl. rewrite Ec, Hl. rewrite <- E. done.
Qed.

Lemma skip_ws_head s c s' : skip_ws s = c :: s' → one_of c whitespace = false.
Proof. induction s as [|d s IH]; simpl; [done|]. destruct (one_of d whitespace) eqn:E; [done|]. intros [= -> ->]. done. Qed.

(** What [gettoken] finds at a pointer that is not at whitespace. *)
Lemma scan_token_spec q tok eq : scan_token q = (tok, eq) → (∀ c s, q = c :: s → one_of c whitespace = false) →
  eq `suffix_of` q ∧ (q = [] ∨ length eq < length q)%nat ∧ (q = [] ↔ tok = 0) ∧
  (tok = tok_word → ∃ l, l ≠ [] ∧ q = l ++ eq ∧ forallb is_word l = true ∧ match eq with c :: _ => is_word c = false | [] => True end).
Proof.
  destruct q as [|c s]; simpl; [intros [= <- <-] _; split_and!; [done|by left|done|done]|]. intros E Hws. specialize (Hws c s eq_refl).
  destruct (one_of c _) eqn:Em.
  { injection E as <- <-. unfold one_of in Em. simpl in Em. split_and!; [by apply suffix_cons_r|simpl; lia| |]; unfold tok_word, ch_bar, ch_open, ch_close, ch_semi, ch_amp, ch_lt in *.
    - split; [done|lia].
    - intros ->. discriminate Em. }
  destruct (c =? ch_gt) eqn:Eg.
  { apply Z.eqb_eq in Eg. subst c. destruct s as [|d s'].
    { injection E as <- <-. split_and!; [by apply suffix_cons_r|simpl; lia|done|done]. }
    destruct (d =? ch_gt); injection E as <- <-; (split_and!; [first [by apply suffix_cons_r|by do 2 apply suffix_cons_r]|simpl; lia|done|done]). }
  assert (Hw : is_word c = true).
  { unfold is_word. rewrite Hws. unfold one_of, symbols in *. simpl in *. rewrite Eg. destruct (c =? ch_lt), (c =? ch_bar), (c =? ch_amp), (c =? ch_semi), (c =? ch_open), (c =? ch_close); done. }
  rewrite Hw in E. injection E as <- <-. destruct (skip_word_split s) as (l & El & Hl & He). pose proof (skip_word_suffix s) as Hs.
  split_and!; [by apply suffix_cons_r|apply suffix_length in Hs; simpl; lia|done|].
  intros _. exists (c :: l). simpl. rewrite Hw, Hl, <- El. done.
Qed.

(** ** Every computation of the parser moves forward in the line *)

(** The pointer is at a symbol. *)
Definition at_symbol (s : ptr) : Prop := ∃ c t, s = c :: t ∧ one_of c symbols = true.

Lemma one_of_true c l : one_of c l = true ↔ c ∈ l.
Proof. unfold one_of. rewrite existsb_exists. setoid_rewrite Z.eqb_eq. rewrite list_elem_of_In. split; [by intros (? & ? & <-)|eauto]. Qed.

Lemma symbol_facts c : one_of c symbols = true → one_of c whitespace = false ∧ c ≠ 0.
Proof. rewrite one_of_true. unfold symbols. rewrite !elem_of_cons, elem_of_nil. intros H. by decompose [or] H; subst. Qed.

Lemma safe_peek toks s (Q : bool → ptr → Prop) : (∀ c, one_of c toks = true → one_of c symbols = true) →
  (∀ b s', s' `suffix_of` s → (b = true → at_symbol s') → Q b s') → safe (peek toks) Q s.
Proof.
  intros Ht HQ. unfold safe, peek. apply HQ; [apply skip_ws_suffix|]. destruct (skip_ws s) as [|c t]; [done|]. intros E. exists c, t. auto.
Qed.

Ltac sub_symbols := let c := fresh in intros c; rewrite !one_of_true; unfold symbols; rewrite ?elem_of_cons, ?elem_of_nil; tauto.

Section parser.
Context (buf : list Z).

(** A token read at [s] and where the pointer is then. *)
Lemma safe_gettoken s (Q : Z * token → ptr → Prop) : s `suffix_of` buf →
  (∀ t s', s' `suffix_of` s → (length s' < length s)%nat ∨ t.1 = 0 → (t.1 = tok_word → token_ok buf t.2) → Q t s') →
  safe gettoken Q s.
Proof.
  intros Hs HQ. unfold safe, gettoken. pose proof (skip_ws_suffix s) as Hq. pose proof (skip_ws_head s) as Hh.
  destruct (scan_token (skip_ws s)) as [tok eq] eqn:E. destruct (scan_token_spec _ _ _ E Hh) as (He & Hl & H0 & Hw).
  pose proof (skip_ws_suffix eq) as Hq'. apply HQ.
  - by etrans; [etrans|].
  - simpl. destruct Hl as [Hl|Hl]; [right; by apply H0|left]. apply suffix_length in Hq, Hq'. lia.
  - simpl. intros Et. destruct (Hw Et) as (l & Hne & Eq & Hall & Hend). split; [by etrans|by exists l|done].
Qed.

(** A token read where a [peek] has seen one. *)
Lemma safe_gettoken_seen s (Q : Z * token → ptr → Prop) : at_symbol s →
  (∀ t s', s' `suffix_of` s → (length s' < length s)%nat → Q t s') → safe gettoken Q s.
Proof.
  intros (c & t & -> & Hm) HQ. apply symbol_facts in Hm as [Hw Hz]. unfold safe, gettoken. simpl skip_ws. rewrite Hw.
  destruct (scan_token (c :: t)) as [tok eq] eqn:E. destruct (scan_token_spec _ _ _ E) as (He & Hl & _ & _).
  { by intros ?? [= <- <-]. }
  destruct Hl as [Hl|Hl]; [done|]. pose proof (skip_ws_suffix eq) as Hq'. apply HQ; [by etrans|]. apply suffix_length in Hq'. lia.
Qed.

(** Redirections: their files are words of the line. *)
Definition redir_ok (r : redir) : Prop := token_ok buf (rd_file r).
Definition cmd_ok (c : cmd) : Prop := Forall (token_ok buf) (tokens c) ∧ args_fit c.

Lemma redirs_ok l : ∀ c, Forall redir_ok l → cmd_ok c → cmd_ok (redirs l c).
Proof.
  induction l as [|r l IH]; intros c Hl [Hc Ha]; [done|]. inversion Hl; subst. simpl. apply IH; [done|]. split; [|done].
  simpl. apply Forall_app. split; [done|by constructor].
Qed.

(** [mv] is what every routine of the parser does with the pointer. *)
Definition mv {A} (P : A → Prop) (s : ptr) : A → ptr → Prop := λ a s', s' `suffix_of` s ∧ P a.

Lemma safe_parseredirs_from fuel : ∀ s, s `suffix_of` buf → (length s < fuel)%nat → safe (parseredirs_from fuel) (mv (Forall redir_ok) s) s.
Proof.
  induction fuel as [|f IH]; intros s Hs Hf; [lia|]. simpl. safe_step. apply safe_peek; [sub_symbols|]. intros [|] s1 H1 Hb.
  2: { safe_step. split; [done|constructor]. }
  safe_step. apply safe_gettoken_seen; [by apply Hb|]. intros t s2 H2 Hl2. safe_step. apply safe_gettoken; [by do 2 (etrans; [done|])|].
  intros w s3 H3 _ Hw. destruct (w.1 =? tok_word) eqn:Ew; simpl negb; cbv iota; [|safe_step]. apply Z.eqb_eq in Ew.
  assert (s3 `suffix_of` s) by (by do 2 (etrans; [done|])). safe_step.
  eapply safe_mono; [apply IH; [by etrans|apply suffix_length in H1, H2, H3; lia]|].
  intros l s4 [H4 Hl]. safe_step. split; [by etrans|]. constructor; [|done]. unfold redir_ok, redircmd. destruct (t.1 =? ch_lt); by apply Hw.
Qed.

Lemma safe_parseredirs s : s `suffix_of` buf → safe parseredirs (mv (Forall redir_ok) s) s.
Proof. intros Hs. apply safe_parseredirs_from; [done|lia]. Qed.

Lemma safe_parseargs_from fuel : ∀ argc s, s `suffix_of` buf → (length s < fuel)%nat →
  safe (parseargs_from fuel argc) (mv (λ r, Forall (token_ok buf) r.1 ∧ Forall redir_ok r.2 ∧ (argc < MAXARGS → length r.1 + argc < MAXARGS)%nat) s) s.
Proof.
  induction fuel as [|f IH]; intros argc s Hs Hf; [lia|]. cbn [parseargs_from]. safe_step. apply safe_peek; [sub_symbols|]. intros [|] s1 H1 _.
  { safe_step. split; [done|]. simpl. by split_and!. }
  safe_step. apply safe_gettoken; [by etrans|]. intros t s2 H2 Hl2 Ht. destruct (t.1 =? 0) eqn:E0.
  { safe_step. split; [by etrans|]. simpl. by split_and!. }
  apply Z.eqb_neq in E0. destruct Hl2 as [Hl2|]; [|done]. destruct (t.1 =? tok_word) eqn:Ew; simpl negb; cbv iota; [|safe_step]. apply Z.eqb_eq in Ew.
  destruct (MAXARGS <=? S argc)%nat eqn:Em; [safe_step|]. apply Nat.leb_gt in Em. assert (s2 `suffix_of` s) by by etrans. safe_step.
  eapply safe_mono; [apply safe_parseredirs; by etrans|]. intros l s3 [H3 Hl]. safe_step. assert (s3 `suffix_of` s) by by etrans.
  eapply safe_mono; [apply (IH (S argc)); [by etrans|apply suffix_length in H1, H3; lia]|]. intros r s4 (H4 & Hr1 & Hr2 & Hr3). safe_step.
  split; [by etrans|]. simpl. split_and!; [by constructor; [apply Ht|]|by apply Forall_app|intros; specialize (Hr3 Em); lia].
Qed.

Lemma safe_parseargs s : s `suffix_of` buf →
  safe parseargs (mv (λ r, Forall (token_ok buf) r.1 ∧ Forall redir_ok r.2 ∧ (length r.1 < MAXARGS)%nat) s) s.
Proof.
  intros Hs. eapply safe_mono; [apply (safe_parseargs_from _ 0 s Hs); lia|]. intros r s' (H1 & H2 & H3 & H4). split_and!; try done.
  unfold MAXARGS in *. lia.
Qed.

Lemma safe_back_loop fuel : ∀ c s, s `suffix_of` buf → (length s < fuel)%nat → cmd_ok c → safe (back_loop fuel c) (mv cmd_ok s) s.
Proof.
  induction fuel as [|f IH]; intros c s Hs Hf Hc; [lia|]. simpl. safe_step. apply safe_peek; [sub_symbols|]. intros [|] s1 H1 Hb; [|by safe_step].
  safe_step. apply safe_gettoken_seen; [by apply Hb|]. intros _ s2 H2 Hl2. assert (s2 `suffix_of` s) by by etrans.
  eapply safe_mono; [apply IH; [by etrans|apply suffix_length in H1; lia|done]|]. intros c' s3 [H3 Hc']. split; [by etrans|done].
Qed.

(** The parser proper: enough fuel for each routine. *)
Definition parses (p : M ptr cmd) (s : ptr) : Prop := safe p (mv cmd_ok s) s.

Lemma parser_safe n : (∀ s, s `suffix_of` buf → (4 * length s + 4 ≤ n)%nat → parses (parseline n) s) ∧
  (∀ s, s `suffix_of` buf → (4 * length s + 3 ≤ n)%nat → parses (parsepipe n) s) ∧
  (∀ s, s `suffix_of` buf → (4 * length s + 2 ≤ n)%nat → parses (parseexec n) s) ∧
  (∀ s, s `suffix_of` buf → (4 * length s + 1 ≤ n)%nat → parses (parseblock n) s).
Proof.
  unfold parses. induction n as [|n (IHl & IHp & IHe & IHb)]; [split_and!; intros; lia|]. split_and!; intros s Hs Hn; simpl.
  - safe_step. eapply safe_mono; [apply IHp; [done|lia]|]. intros c s1 [H1 Hc]. safe_step.
    eapply safe_mono; [apply safe_back_loop; [by etrans|lia|done]|]. intros c' s2 [H2 Hc']. safe_step.
    apply safe_peek; [sub_symbols|]. assert (Ks2 : s2 `suffix_of` s) by by etrans. intros [|] s3 H3 Hb; [|safe_step; split; [by etrans|done]].
    safe_step. apply safe_gettoken_seen; [by apply Hb|]. intros _ s4 H4 Hl4. assert (Ks4 : s4 `suffix_of` s) by (by do 2 (etrans; [done|])). safe_step.
    eapply safe_mono; [apply IHl; [by etrans|apply suffix_length in Ks2, H3; lia]|]. intros r s5 [H5 Hr]. safe_step. split; [by etrans|].
    destruct Hc', Hr. split; [by apply Forall_app|done].
  - safe_step. eapply safe_mono; [apply IHe; [done|lia]|]. intros c s1 [H1 Hc]. safe_step. apply safe_peek; [sub_symbols|].
    intros [|] s3 H3 Hb; [|safe_step; split; [by etrans|done]]. assert (Ks3 : s3 `suffix_of` s) by by etrans.
    safe_step. apply safe_gettoken_seen; [by apply Hb|]. intros _ s4 H4 Hl4. assert (Ks4 : s4 `suffix_of` s) by by etrans. safe_step.
    eapply safe_mono; [apply IHp; [by etrans|apply suffix_length in Ks3; lia]|]. intros r s5 [H5 Hr]. safe_step. split; [by etrans|].
    destruct Hc, Hr. split; [by apply Forall_app|done].
  - safe_step. apply safe_peek; [sub_symbols|]. intros [|] s1 H1 Hb.
    { eapply safe_mono; [apply IHb; [by etrans|apply suffix_length in H1; lia]|]. intros c s2 [H2 Hc]. split; [by etrans|done]. }
    safe_step. eapply safe_mono; [apply safe_parseredirs; by etrans|]. intros l s2 [H2 Hl]. safe_step. assert (Ks2 : s2 `suffix_of` s) by by etrans.
    eapply safe_mono; [apply safe_parseargs; by etrans|]. intros r s3 (H3 & Hr1 & Hr2 & Hr3). safe_step. split; [by etrans|].
    apply redirs_ok; [by apply Forall_app|done].
  - safe_step. apply safe_peek; [sub_symbols|]. intros [|] s1 H1 Hb; simpl negb; cbv iota; [|safe_step].
    safe_step. apply safe_gettoken_seen; [by apply Hb|]. intros _ s2 H2 Hl2. assert (Ks2 : s2 `suffix_of` s) by by etrans. safe_step.
    eapply safe_mono; [apply IHl; [by etrans|apply suffix_length in H1; lia]|]. intros c s3 [H3 Hc]. assert (Ks3 : s3 `suffix_of` s) by by etrans. safe_step.
    apply safe_peek; [sub_symbols|]. intros [|] s4 H4 Hb4; simpl negb; cbv iota; [|safe_step]. assert (Ks4 : s4 `suffix_of` s) by by etrans.
    safe_step. apply safe_gettoken_seen; [by apply Hb4|]. intros _ s5 H5 Hl5. assert (Ks5 : s5 `suffix_of` s) by by etrans. safe_step.
    eapply safe_mono; [apply safe_parseredirs; by etrans|]. intros l s6 [H6 Hl]. safe_step. split; [by etrans|by apply redirs_ok].
Qed.

End parser.

(** ** The words after nulterminate *)

(** The C string at the start of an array. *)
Fixpoint cstr (l : list Z) : list Z :=
  match l with
  | [] => []
  | c :: l' => if c =? 0 then [] else c :: cstr l'
  end.

Definition word (w : token) : list Z := take (length w.1 - length w.2) w.1.

Lemma cstr_app l rest : Forall (λ c, c ≠ 0) l → cstr (l ++ 0 :: rest) = l.
Proof. induction 1 as [|c l Hc Hl IH]; simpl; [done|]. rewrite (proj2 (Z.eqb_neq c 0)) by done. by rewrite IH. Qed.

(** [nulterminate] stores a NUL behind each word, and nothing else. *)
Lemma nulterminate_tokens buf c : ∀ line, nulterminate buf c line = fold_left (nul buf) (tokens c) line.
Proof.
  induction c as [argv|c IH r|l IHl r IHr|l IHl r IHr|c IH]; intros line; simpl; [done|..|done].
  - by rewrite fold_left_app, IH.
  - by rewrite fold_left_app, IHr, IHl.
  - by rewrite fold_left_app, IHr, IHl.
Qed.

Lemma length_nuls buf ts : ∀ line, length (fold_left (nul buf) ts line) = length line.
Proof. induction ts as [|w ts IH]; intros line; simpl; [done|]. rewrite IH. apply length_insert. Qed.

Lemma nuls_other buf ts i : ∀ line, Forall (λ w : token, index buf w.2 ≠ i) ts → fold_left (nul buf) ts line !! i = line !! i.
Proof. induction ts as [|w ts IH]; intros line Hts; simpl; [done|]. inversion Hts; subst. rewrite IH by done. by apply list_lookup_insert_ne. Qed.

Lemma nul_stays buf ts i : ∀ line, line !! i = Some 0 → fold_left (nul buf) ts line !! i = Some 0.
Proof.
  induction ts as [|w ts IH]; intros line Hi; simpl; [done|]. apply IH. unfold nul. destruct (decide (index buf w.2 = i)) as [E|E].
  - rewrite E. apply list_lookup_insert_eq. by eapply lookup_lt_Some.
  - by rewrite list_lookup_insert_ne.
Qed.

Lemma nuls_end buf ts w : ∀ line, w ∈ ts → (index buf w.2 < length line)%nat → fold_left (nul buf) ts line !! index buf w.2 = Some 0.
Proof.
  induction ts as [|v ts IH]; intros line Hw Hi; [by apply elem_of_nil in Hw|]. simpl. apply elem_of_cons in Hw as [->|Hw].
  - apply nul_stays. unfold nul. by apply list_lookup_insert_eq.
  - apply IH; [done|]. unfold nul. by rewrite length_insert.
Qed.

(** Where a token lies in the line. *)
Lemma token_place buf w : token_ok buf w → ∃ pre, buf = pre ++ word w ++ w.2 ∧ word w ≠ [] ∧ forallb is_word (word w) = true ∧
  index buf w.1 = length pre ∧ index buf w.2 = (length pre + length (word w))%nat.
Proof.
  intros [[pre Hin] (l & Hne & E & Hall) _]. assert (Ew : word w = l).
  { unfold word. rewrite E, length_app, Nat.add_sub. apply take_app_length. }
  exists pre. unfold index. rewrite Ew, Hin, E, !length_app. split_and!; try done; lia.
Qed.

(** The end of one word is never inside another. *)
Lemma ends_outside buf v w k : token_ok buf v → token_ok buf w → (k < length (word v))%nat → index buf w.2 ≠ (index buf v.1 + k)%nat.
Proof.
  intros Hv Hw Hk E. destruct (token_place _ _ Hv) as (p & Ev & _ & Hall & Iv & _). destruct (token_place _ _ Hw) as (p' & Ew & _ & _ & _ & Iw).
  destruct (lookup_lt_is_Some_2 _ _ Hk) as [c Hc].
  assert (Hb : buf !! (length p + k)%nat = Some c) by (rewrite Ev, lookup_app_r, Nat.add_sub' by lia; by apply lookup_app_l_Some).
  assert (Hb' : buf !! (length p + k)%nat = w.2 !! 0%nat).
  { rewrite <- Iv, <- E, Iw, Ew, app_assoc, <- length_app. rewrite lookup_app_r by lia. by rewrite Nat.sub_diag. }
  rewrite Hb in Hb'. pose proof (tk_end _ _ Hw) as Hend. destruct (w.2) as [|d t]; [done|]. injection Hb' as ->.
  rewrite forallb_forall in Hall. rewrite Hall in Hend; [done|]. apply list_elem_of_In. by eapply list_elem_of_lookup_2.
Qed.

Lemma word_terminated buf ts w : Forall (λ c, c ≠ 0) buf → Forall (token_ok buf) ts → w ∈ ts →
  cstr (drop (index buf w.1) (fold_left (nul buf) ts (buf ++ [0]))) = word w.
Proof.
  intros Hz Hts Hw. pose proof (proj1 (Forall_forall _ _) Hts) as Hok. destruct (token_place _ _ (Hok w Hw)) as (pre & E & Hne & Hall & I1 & I2).
  set (line := fold_left _ _ _). assert (Hlen : length line = (length buf + 1)%nat) by (unfold line; by rewrite length_nuls, length_app).
  assert (Hb : length buf = (length pre + (length (word w) + length w.2))%nat) by (rewrite E at 1; by rewrite !length_app).
  assert (Hd : take (S (length (word w))) (drop (index buf w.1) line) = word w ++ [0]).
  { apply list_eq_same_length with (S (length (word w))).
    - rewrite length_app. simpl. lia.
    - rewrite length_take, length_drop. lia.
    - intros k x y Hk Hx Hy. rewrite lookup_take_lt, lookup_drop in Hx by done. destruct (decide (k < length (word w))%nat) as [Hlt|Hge].
      + unfold line in Hx. rewrite nuls_other in Hx.
        * rewrite I1, E, <- app_assoc, lookup_app_r, Nat.add_sub', <- app_assoc, lookup_app_l in Hx by lia. rewrite lookup_app_l in Hy by done. congruence.
        * apply Forall_forall. intros v Hv. by apply ends_outside; [apply Hok..|].
      + assert (k = length (word w)) as -> by lia. rewrite list_lookup_middle in Hy by done. rewrite I1, <- I2 in Hx.
        unfold line in Hx. rewrite nuls_end in Hx; [congruence|done|]. rewrite length_app. simpl. lia. }
  rewrite <- (take_drop (S (length (word w))) (drop (index buf w.1) line)), Hd, <- app_assoc. apply cstr_app.
  rewrite E in Hz. apply Forall_app in Hz as [_ Hz]. by apply Forall_app in Hz as [].
Qed.

Lemma safe_parse buf : safe parse (λ c s', cmd_ok buf c ∧ s' = []) buf.
Proof.
  unfold parse. safe_step. change (safe (bind (parseline (parse_fuel buf)) (λ c, peek [] ;; s ← getS; match s with [] => ret c | _ => panic "syntax" end)) (λ c s', cmd_ok buf c ∧ s' = []) buf).
  safe_step. eapply safe_mono; [apply (parser_safe buf); [done|by unfold parse_fuel]|]. intros c s1 [H1 Hc]. safe_step.
  apply safe_peek; [sub_symbols|]. intros b s2 H2 _. unfold safe, bind, getS. by destruct s2.
Qed.

(** C26: The parser of the shell always finishes: on every command line
    [parsecmd] returns a command or ends the process with a syntax message; it
    never loops and never runs out of the calls the line's length allows. *)
Theorem parsecmd_terminates buf : (∃ c line, parsecmd buf = Ok (c, line) []) ∨ (∃ msg, parsecmd buf = Panic msg).
Proof.
  pose proof (safe_parse buf) as H. unfold safe in H. unfold parsecmd, bind. destruct (parse buf) as [c s|msg| |]; try done; [|by right; eexists].
  destruct H as [_ ->]. left. by eexists _, _.
Qed.

(** Parsed words are safe and exact.  When [parsecmd] returns a command, each
    of its commands has fewer than MAXARGS arguments, every NUL that
    [nulterminate] stores falls inside the line's array, and the C string that
    each argument and file name points to afterwards is the whole word of the line at
    that place, not cut short by the NUL of any other word. *)
Theorem parsecmd_words buf c line s : Forall (λ c, c ≠ 0) buf → parsecmd buf = Ok (c, line) s →
  args_fit c ∧ length line = S (length buf) ∧
  Forall (λ w, (index buf w.2 < length line)%nat ∧ cstr (drop (index buf w.1) line) = word w ∧ token_ok buf w) (tokens c).
Proof.
  intros Hz E. pose proof (safe_parse buf) as H. unfold safe in H. unfold parsecmd, bind in E. destruct (parse buf) as [c' s'|msg| |]; try done.
  injection E as -> <- _. destruct H as [[Hts Ha] _]. rewrite nulterminate_tokens. rewrite length_nuls, length_app. split_and!; [done|simpl; lia|].
  apply Forall_forall. intros w Hw. pose proof (proj1 (Forall_forall _ _) Hts w Hw) as Hok. split_and!; [|by apply word_terminated|done].
  destruct (token_place _ _ Hok) as (pre & Eb & _ & _ & _ & ->). apply (f_equal length) in Eb. rewrite !length_app in Eb. simpl. lia.
Qed.

(** The line [echo hi>f;ls|wc&] with its newline. *)
Definition demo_line : list Z :=
  [101; 99; 104; 111; 32; 104; 105; 62; 102; 59; 108; 115; 124; 119; 99; 38; 10].
Definition demo_cmd : cmd * list Z :=
  match parsecmd demo_line with Ok r _ => r | _ => (EXEC [], []) end.

Lemma parsecmd_words_witness :
  args_fit demo_cmd.1 ∧ length demo_cmd.2 = S (length demo_line) ∧
  Forall (λ w, (index demo_line w.2 < length demo_cmd.2)%nat ∧ cstr (drop (index demo_line w.1) demo_cmd.2) = word w ∧ token_ok demo_line w) (tokens demo_cmd.1)
  ∧ word <$> tokens demo_cmd.1 = [[101; 99; 104; 111]; [104; 105]; [102]; [108; 115]; [119; 99]].
Proof.
  assert (E : args_fit demo_cmd.1 ∧ length demo_cmd.2 = S (length demo_line) ∧
    Forall (λ w, (index demo_line w.2 < length demo_cmd.2)%nat ∧ cstr (drop (index demo_line w.1) demo_cmd.2) = word w ∧ token_ok demo_line w) (tokens demo_cmd.1)).
  { apply (parsecmd_words demo_line demo_cmd.1 demo_cmd.2 []); [repeat constructor; discriminate|vm_compute; reflexivity]. }
  destruct E as (E1 & E2 & E3). split; [exact E1|]. split; [exact E2|]. split; [exact E3|]. vm_compute. reflexivity.
Defined.
