(* ===== verification/ShellGrammar.v ===== *)
(** * The grammar of the shell (sh.c)

    The parser accepts what the grammar generates: the text of a command line,
    with its tokens separated by whitespace, parses to the command it denotes. *)

From S2P Require Import Prelude Words Params Shell.

(** ** Abstract syntax *)

Inductive rop := RIn | ROut | RAppend.
Definition rd : Type := rop * list Z.

Inductive line :=
| LEnd (p : pipeline) (bg : nat)
| LSeq (p : pipeline) (bg : nat) (l : line)
with pipeline :=
| PEnd (e : simple)
| PBar (e : simple) (p : pipeline)
with simple :=
| SExec (lead : list rd) (words : list (list Z * list rd))
| SBlock (l : line) (rs : list rd).

(** What a command means: the parsed command with strings for its words. *)
Inductive acmd :=
| AExec (argv : list (list Z))
| ARedir (c : acmd) (file : list Z) (mode fd : Z)
| APipe (left right : acmd)
| AList (left right : acmd)
| ABack (c : acmd).

Fixpoint strip (c : cmd) : acmd :=
  match c with
  | EXEC argv => AExec (word <$> argv)
  | REDIR c r => ARedir (strip c) (word (rd_file r)) (rd_mode r) (rd_fd r)
  | PIPE l r => APipe (strip l) (strip r)
  | LIST l r => AList (strip l) (strip r)
  | BACK c => ABack (strip c)
  end.

Definition aredir (c : acmd) (r : rd) : acmd :=
  match r.1 with
  | RIn => ARedir c r.2 O_RDONLY 0
  | ROut | RAppend => ARedir c r.2 (Z.lor O_WRONLY O_CREATE) 1
  end.
Definition aredirs (rs : list rd) (c : acmd) : acmd := fold_left aredir rs c.

Fixpoint denote_line (l : line) : acmd :=
  match l with
  | LEnd p bg => Nat.iter bg ABack (denote_pipe p)
  | LSeq p bg l' => AList (Nat.iter bg ABack (denote_pipe p)) (denote_line l')
  end
with denote_pipe (p : pipeline) : acmd :=
  match p with
  | PEnd e => denote_simple e
  | PBar e p' => APipe (denote_simple e) (denote_pipe p')
  end
with denote_simple (e : simple) : acmd :=
  match e with
  | SExec lead words => aredirs (lead ++ concat words.*2) (AExec words.*1)
  | SBlock l rs => aredirs rs (denote_line l)
  end.

(** ** Text *)

Section text.
(** The whitespace behind each token. *)
Context (sp : list Z).

Definition sym (c : Z) : list Z := c :: sp.
Definition op_text (o : rop) : list Z :=
  match o with RIn => sym ch_lt | ROut => sym ch_gt | RAppend => ch_gt :: sym ch_gt end.
Definition word_text (w : list Z) : list Z := w ++ sp.
Definition rd_text (r : rd) : list Z := op_text r.1 ++ word_text r.2.
Definition rds_text (rs : list rd) : list Z := concat (rd_text <$> rs).
Definition arg_text (a : list Z * list rd) : list Z := word_text a.1 ++ rds_text a.2.
Definition args_text (l : list (list Z * list rd)) : list Z := concat (arg_text <$> l).
Definition bg_text (bg : nat) : list Z := concat (replicate bg (sym ch_amp)).

Fixpoint line_text (l : line) : list Z :=
  match l with
  | LEnd p bg => pipe_text p ++ bg_text bg
  | LSeq p bg l' => pipe_text p ++ bg_text bg ++ sym ch_semi ++ line_text l'
  end
with pipe_text (p : pipeline) : list Z :=
  match p with
  | PEnd e => simple_text e
  | PBar e p' => simple_text e ++ sym ch_bar ++ pipe_text p'
  end
with simple_text (e : simple) : list Z :=
  match e with
  | SExec lead words => rds_text lead ++ args_text words
  | SBlock l rs => sym ch_open ++ line_text l ++ sym ch_close ++ rds_text rs
  end.

End text.

(** ** Well-formed syntax *)

Definition word_ok (w : list Z) : Prop := w ≠ [] ∧ forallb is_word w = true.
Definition rds_ok (rs : list rd) : Prop := Forall (λ r, word_ok r.2) rs.
Definition args_ok (l : list (list Z * list rd)) : Prop := Forall (λ a, word_ok a.1 ∧ rds_ok a.2) l.

Fixpoint line_ok (l : line) : Prop :=
  match l with
  | LEnd p _ => pipeline_ok p
  | LSeq p _ l' => pipeline_ok p ∧ line_ok l'
  end
with pipeline_ok (p : pipeline) : Prop :=
  match p with
  | PEnd e => simple_ok e
  | PBar e p' => simple_ok e ∧ pipeline_ok p'
  end
with simple_ok (e : simple) : Prop :=
  match e with
  | SExec lead words => rds_ok lead ∧ args_ok words ∧ (length words < MAXARGS)%nat
  | SBlock l rs => line_ok l ∧ rds_ok rs
  end.

(** ** Reading tokens back *)

Section parse_text.
Context (sp : list Z) (Hsp : sp ≠ []) (Hws : forallb (λ c, one_of c whitespace) sp = true).

(** The rest of a line that starts with a token or is empty. *)
Definition clean (s : ptr) : Prop := match s with c :: _ => one_of c whitespace = false | [] => True end.

Lemma skip_ws_clean s : clean s → skip_ws s = s.
Proof. destruct s as [|c s]; simpl; [done|]. by intros ->. Qed.

Lemma skip_sp s : clean s → skip_ws (sp ++ s) = s.
Proof.
  intros Hs. clear Hsp. induction sp as [|c l IH]; simpl in *; [by apply skip_ws_clean|]. apply andb_true_iff in Hws as [-> Hl]. by apply IH.
Qed.

Lemma sp_head : ∃ c l, sp = c :: l ∧ one_of c whitespace = true.
Proof. destruct sp as [|c l]; [done|]. simpl in Hws. apply andb_true_iff in Hws as [? ?]. by exists c, l. Qed.

Lemma wp_peek toks s (Q : bool → ptr → Prop) : clean s → Q (match s with c :: _ => one_of c toks | [] => false end) s → wp (peek toks) Q s.
Proof. intros Hs HQ. unfold wp, peek. by rewrite skip_ws_clean. Qed.

Lemma wp_gettoken_sym c s (Q : Z * token → ptr → Prop) : one_of c symbols = true → clean s →
  (∀ w, Q (c, w) s) → wp gettoken Q (sym sp c ++ s).
Proof.
  intros Hc Hs HQ. destruct (symbol_facts c Hc) as [Hw _]. unfold wp, gettoken, sym. simpl. rewrite Hw. simpl.
  destruct (one_of c [_; _; _; _; _; _]) eqn:Em; [by rewrite skip_sp|]. destruct (c =? ch_gt) eqn:Eg.
  - destruct sp_head as (d & l & E & Hd). rewrite E. simpl. replace (d =? ch_gt) with false.
    + rewrite app_comm_cons, <- E, skip_sp by done. done.
    + symmetry. apply Z.eqb_neq. intros ->. done.
  - exfalso. revert Hc Em Eg. unfold one_of, symbols. simpl. destruct (c =? ch_lt), (c =? ch_bar), (c =? ch_gt), (c =? ch_amp), (c =? ch_semi), (c =? ch_open), (c =? ch_close); done.
Qed.

Lemma wp_gettoken_append s (Q : Z * token → ptr → Prop) : clean s → (∀ w, Q (tok_append, w) s) → wp gettoken Q (ch_gt :: sym sp ch_gt ++ s).
Proof. intros Hs HQ. unfold wp, gettoken, sym. simpl. by rewrite skip_sp. Qed.

Lemma skip_word_text w s : forallb is_word w = true → skip_word (w ++ sp ++ s) = sp ++ s.
Proof.
  intros Hw. induction w as [|c w IH]; simpl in *.
  - destruct sp_head as (d & l & E & Hd). rewrite E. simpl. unfold is_word. by rewrite Hd.
  - apply andb_true_iff in Hw as [-> Hw]. by apply IH.
Qed.

(** A word is not a symbol. *)
Lemma word_facts c : is_word c = true → one_of c whitespace = false ∧ one_of c symbols = false.
Proof. unfold is_word. intros [?%negb_true_iff ?%negb_true_iff]%andb_true_iff. done. Qed.

Lemma one_of_sub c l l' : one_of c l = false → (∀ x, x ∈ l' → x ∈ l) → one_of c l' = false.
Proof.
  intros Hl Hsub. apply not_true_iff_false. rewrite one_of_true. intros Hc%Hsub. rewrite <- one_of_true in Hc. congruence.
Qed.

Lemma wp_gettoken_word w s (Q : Z * token → ptr → Prop) : word_ok w → clean s →
  (∀ t, word t = w → Q (tok_word, t) s) → wp gettoken Q (word_text sp w ++ s).
Proof.
  intros [Hne Hw] Hs HQ. unfold word_text. rewrite <- app_assoc. pose proof (skip_word_text w s Hw) as Hsk. destruct w as [|c w]; [done|].
  pose proof Hw as Hc. simpl in Hc. apply andb_true_iff in Hc as [Hc _]. destruct (word_facts c Hc) as [Hcw Hcs].
  unfold wp, gettoken. replace (skip_ws ((c :: w) ++ sp ++ s)) with ((c :: w) ++ sp ++ s) by (simpl; by rewrite Hcw).
  replace (scan_token ((c :: w) ++ sp ++ s)) with (tok_word, sp ++ s).
  - rewrite skip_sp by done. apply HQ. unfold word. cbn [fst snd]. rewrite length_app, Nat.add_sub. apply take_app_length.
  - unfold scan_token. rewrite <- app_comm_cons. rewrite (one_of_sub c symbols) by (done || (intros x; unfold symbols; rewrite !elem_of_cons, elem_of_nil; tauto)).
    replace (c =? ch_gt) with false; [by rewrite app_comm_cons, Hsk|]. symmetry. apply Z.eqb_neq. intros ->. done.
Qed.

Lemma length_sym c : length (sym sp c) = S (length sp).
Proof. done. Qed.

(** ** What may follow a phrase *)

Definition follow (l : list Z) (s : ptr) : Prop := match s with c :: _ => c ∈ l | [] => True end.

Lemma follow_clean l s : l ⊆ symbols → follow l s → clean s.
Proof. destruct s as [|c s]; simpl; [done|]. intros Hl Hc. apply symbol_facts, one_of_true. by apply Hl. Qed.

Lemma follow_weaken l l' s : l ⊆ l' → follow l s → follow l' s.
Proof. destruct s; simpl; [done|]. intros Hl Hc. by apply Hl. Qed.

Lemma wp_peek_no l toks s (Q : bool → ptr → Prop) : follow l s → l ⊆ symbols → forallb (λ c, negb (one_of c toks)) l = true →
  Q false s → wp (peek toks) Q s.
Proof.
  intros Hf Hl Ht HQ. apply wp_peek; [by eapply follow_clean|]. destruct s as [|c s]; [done|]. simpl in Hf.
  rewrite forallb_forall in Ht. apply list_elem_of_In, Ht, negb_true_iff in Hf. by rewrite Hf.
Qed.

Lemma wp_peek_sym c toks s (Q : bool → ptr → Prop) : one_of c symbols = true → Q (one_of c toks) (sym sp c ++ s) → wp (peek toks) Q (sym sp c ++ s).
Proof. intros Hc HQ. apply wp_peek; [|done]. simpl. by apply symbol_facts. Qed.

Definition after_line : list Z := [ch_close].
Definition after_pipe : list Z := [ch_close; ch_amp; ch_semi].
Definition after_simple : list Z := [ch_close; ch_amp; ch_semi; ch_bar].

(** ** Redirections *)

Lemma rds_text_cons o w rs s : rds_text sp ((o, w) :: rs) ++ s = op_text sp o ++ word_text sp w ++ rds_text sp rs ++ s.
Proof. unfold rds_text. rewrite fmap_cons, concat_cons. unfold rd_text at 1. by rewrite <- !app_assoc. Qed.

Lemma args_text_cons w rs l s : args_text sp ((w, rs) :: l) ++ s = word_text sp w ++ rds_text sp rs ++ args_text sp l ++ s.
Proof. unfold args_text. rewrite fmap_cons, concat_cons. unfold arg_text at 1. by rewrite <- !app_assoc. Qed.

Lemma op_text_peek o s : wp (peek [ch_lt; ch_gt]) (λ b s', b = true ∧ s' = op_text sp o ++ s) (op_text sp o ++ s).
Proof. by destruct o; apply wp_peek. Qed.

Lemma wp_gettoken_op o s : clean s →
  wp gettoken (λ t s', s' = s ∧ ∀ w c, strip (REDIR c (redircmd t.1 w)) = aredir (strip c) (o, word w)) (op_text sp o ++ s).
Proof.
  intros Hs. destruct o; [apply wp_gettoken_sym|apply wp_gettoken_sym|apply wp_gettoken_append]; done.
Qed.

(** The text of words and redirections starts with a word character or a symbol. *)
Lemma clean_word w s : word_ok w → clean (word_text sp w ++ s).
Proof. intros [Hne Hw]. destruct w as [|c w]; [done|]. simpl in *. apply andb_true_iff in Hw as [Hc _]. by apply word_facts. Qed.

Lemma clean_rds rs s : clean s → clean (rds_text sp rs ++ s).
Proof. destruct rs as [|[[] w] rs]; done. Qed.

Lemma clean_args l s : args_ok l → clean s → clean (args_text sp l ++ s).
Proof.
  destruct l as [|[w rs] l]; [done|]. intros Hl Hs. inversion Hl as [|?? [Hw _] _]; subst. rewrite args_text_cons. by apply clean_word.
Qed.

Definition no_redir (s : ptr) : Prop := match s with c :: _ => one_of c [ch_lt; ch_gt] = false | [] => True end.

Definition reads_redirs (rs : list rd) (s : ptr) : list redir → ptr → Prop :=
  λ l s', s' = s ∧ ∀ c, strip (redirs l c) = aredirs rs (strip c).

Lemma wp_parseredirs_from rs : ∀ fuel s, rds_ok rs → clean s → no_redir s → (length (rds_text sp rs ++ s) < fuel)%nat →
  wp (parseredirs_from fuel) (reads_redirs rs s) (rds_text sp rs ++ s).
Proof.
  induction rs as [|[o w] rs IH]; intros fuel s Hok Hs Hn Hf; (destruct fuel as [|f]; [simpl in Hf; lia|]); cbn [parseredirs_from].
  - wp_step. apply wp_peek; [done|]. simpl. destruct s as [|c s]; [by wp_step|]. simpl in Hn. rewrite Hn. by wp_step.
  - inversion Hok as [|?? Hw Hok']; subst. simpl in Hw. rewrite rds_text_cons in *. wp_step. eapply wp_mono; [apply op_text_peek|]. intros b s' [-> ->].
    wp_step. eapply wp_mono; [apply wp_gettoken_op; by apply clean_word|]. intros t s' [-> Ht]. wp_step.
    apply wp_gettoken_word; [done|by apply clean_rds|]. intros t' Et'. cbn [fst snd]. rewrite Z.eqb_refl. simpl negb. cbv iota. wp_step.
    eapply wp_mono; [apply IH; [done..|]|].
    + rewrite !length_app in *. destruct Hw as [Hw _]. destruct w; [done|]. simpl in Hf. lia.
    + intros l s' [-> Hl]. wp_step. split; [done|]. intros c. simpl. rewrite Hl. f_equal. rewrite <- Et'. apply Ht.
Qed.

Lemma wp_parseredirs rs s : rds_ok rs → clean s → no_redir s → wp parseredirs (reads_redirs rs s) (rds_text sp rs ++ s).
Proof. intros. apply wp_parseredirs_from; try done. lia. Qed.

(** ** Arguments *)

Lemma no_redir_args l s : args_ok l → follow after_simple s → no_redir (args_text sp l ++ s).
Proof.
  destruct l as [|[w rs] l].
  - intros _. destruct s as [|c s]; [done|]. simpl. unfold after_simple. rewrite !elem_of_cons, elem_of_nil. intros H. by decompose [or] H; subst.
  - intros Hl _. inversion Hl as [|?? [[Hne Hw] _] _]; subst. destruct w as [|c w]; [done|]. simpl in *. apply andb_true_iff in Hw as [Hc _].
    apply word_facts in Hc as [_ Hc]. apply (one_of_sub _ _ _ Hc). intros x. unfold symbols. rewrite !elem_of_cons, elem_of_nil. tauto.
Qed.

Lemma after_simple_symbols : after_simple ⊆ symbols.
Proof. intros x. unfold symbols, after_simple. rewrite !elem_of_cons, elem_of_nil. tauto. Qed.

Definition reads_args (l : list (list Z * list rd)) (s : ptr) : list token * list redir → ptr → Prop :=
  λ r s', s' = s ∧ word <$> r.1 = l.*1 ∧ ∀ c, strip (redirs r.2 c) = aredirs (concat l.*2) (strip c).

Lemma wp_parseargs_from l : ∀ fuel argc s, args_ok l → follow after_simple s → (length (args_text sp l ++ s) < fuel)%nat →
  (length l + argc < MAXARGS)%nat → wp (parseargs_from fuel argc) (reads_args l s) (args_text sp l ++ s).
Proof.
  induction l as [|[w rs] l IH]; intros fuel argc s Hok Hs Hf Hm; (destruct fuel as [|f]; [simpl in Hf; lia|]); cbn [parseargs_from].
  - wp_step. apply wp_peek; [apply (follow_clean _ _ after_simple_symbols Hs)|]. destruct s as [|c s]; simpl.
    + exact (conj eq_refl (conj eq_refl (λ c, eq_refl))).
    + simpl in Hs. unfold after_simple in Hs. rewrite !elem_of_cons, elem_of_nil in Hs. by decompose [or] Hs; subst; wp_step.
  - inversion Hok as [|?? [Hw Hr] Hok']; subst. cbn [fst snd] in *. pose proof (follow_clean _ _ after_simple_symbols Hs) as Hc.
    pose proof (clean_args _ _ Hok' Hc) as Hca. rewrite args_text_cons in *. wp_step. apply wp_peek; [by apply clean_word|].
    assert (Hp : match word_text sp w ++ rds_text sp rs ++ args_text sp l ++ s with c :: _ => one_of c [ch_bar; ch_close; ch_amp; ch_semi] | [] => false end = false).
    { destruct Hw as [Hne Hw]. destruct w as [|c w]; [done|]. simpl in *. apply andb_true_iff in Hw as [Hcw _]. apply word_facts in Hcw as [_ Hcw].
      apply (one_of_sub _ _ _ Hcw). intros x. unfold symbols. rewrite !elem_of_cons, elem_of_nil. tauto. }
    rewrite Hp. wp_step. apply wp_gettoken_word; [done|by apply clean_rds|]. intros t Et. cbn [fst snd].
    change (tok_word =? 0) with false. rewrite Z.eqb_refl. simpl negb. cbv iota. rewrite (proj2 (Nat.leb_gt _ _)) by (simpl in Hm; lia). wp_step.
    eapply wp_mono; [apply wp_parseredirs; [done|done|by apply no_redir_args]|]. intros lr s' [-> Hlr]. wp_step.
    eapply wp_mono; [apply (IH f (S argc)); [done|done| |simpl in Hm; lia]|].
    + rewrite !length_app in *. destruct Hw as [Hw _]. destruct w; [done|]. simpl in Hf. lia.
    + intros r s' (-> & Hr1 & Hr2). wp_step. split; [done|]. cbn [fst snd]. rewrite !fmap_cons, Hr1, Et. split; [done|].
      intros c. unfold redirs, aredirs. rewrite concat_cons, !fold_left_app. fold (redirs lr c). unfold redirs in Hr2 at 1. rewrite Hr2. unfold aredirs.
      f_equal. apply Hlr.
Qed.

(** ** Whole lines *)

Lemma wp_back_loop bg : ∀ fuel c s, follow [ch_close; ch_semi] s → (length (bg_text sp bg ++ s) < fuel)%nat →
  wp (back_loop fuel c) (λ c' s', s' = s ∧ strip c' = Nat.iter bg ABack (strip c)) (bg_text sp bg ++ s).
Proof.
  assert (Hsub : [ch_close; ch_semi] ⊆ symbols) by (intros x; unfold symbols; rewrite !elem_of_cons, elem_of_nil; tauto).
  induction bg as [|bg IH]; intros fuel c s Hs Hf; (destruct fuel as [|f]; [lia|]); cbn [back_loop].
  - wp_step. by eapply wp_peek_no.
  - unfold bg_text in *. simpl replicate in *. rewrite concat_cons, <- app_assoc in *. wp_step. apply wp_peek_sym; [done|]. change (one_of ch_amp [ch_amp]) with true. cbv iota.
    wp_step. apply wp_gettoken_sym; [done| |intros _].
    { destruct bg; [exact (follow_clean _ _ Hsub Hs)|done]. }
    rewrite Nat.iter_succ_r. change (ABack (strip c)) with (strip (BACK c)). apply IH; [done|]. simpl in Hf. rewrite length_app in Hf. lia.
Qed.

Definition parses_to (p : M ptr cmd) (a : acmd) (text s : ptr) : Prop := wp p (λ c s', s' = s ∧ strip c = a) (text ++ s).

Definition line_parses (l : line) : Prop := ∀ n s, line_ok l → follow after_line s → (4 * length (line_text sp l ++ s) + 4 ≤ n)%nat →
  parses_to (parseline n) (denote_line l) (line_text sp l) s.
Definition pipe_parses (p : pipeline) : Prop := ∀ n s, pipeline_ok p → follow after_pipe s → (4 * length (pipe_text sp p ++ s) + 3 ≤ n)%nat →
  parses_to (parsepipe n) (denote_pipe p) (pipe_text sp p) s.
Definition simple_parses (e : simple) : Prop := ∀ n s, simple_ok e → follow after_simple s → (4 * length (simple_text sp e ++ s) + 2 ≤ n)%nat →
  parses_to (parseexec n) (denote_simple e) (simple_text sp e) s.

Lemma follow_no_redir s : follow after_simple s → no_redir s.
Proof. intros Hs. apply (no_redir_args [] s); [constructor|done]. Qed.

Lemma clean_simple e s : simple_ok e → clean s → clean (simple_text sp e ++ s).
Proof.
  destruct e as [lead words|l rs]; simpl; [|done]. intros (_ & Hw & _) Hs. rewrite <- app_assoc. by apply clean_rds, clean_args.
Qed.
Lemma clean_pipe p s : pipeline_ok p → clean s → clean (pipe_text sp p ++ s).
Proof.
  destruct p as [e|e p]; simpl; [by apply clean_simple|]. intros [He _] Hs. rewrite <- app_assoc. by apply clean_simple.
Qed.
Lemma clean_line l s : line_ok l → clean s → clean (line_text sp l ++ s).
Proof.
  destruct l as [p bg|p bg l]; simpl; intros Hl Hs; rewrite <- app_assoc.
  - apply clean_pipe; [done|]. by destruct bg.
  - apply clean_pipe; [by destruct Hl|]. by destruct bg.
Qed.

(** A simple command that does not start with a parenthesis. *)
Lemma simple_exec lead words : simple_parses (SExec lead words).
Proof.
  intros n s (Hlead & Hwords & Hm) Hs Hn. destruct n as [|n]; [lia|]. unfold parses_to. cbn [simple_text] in *. rewrite <- app_assoc in *.
  pose proof (follow_clean _ _ after_simple_symbols Hs) as Hc. cbn [parseexec]. wp_step. apply wp_peek; [by apply clean_rds, clean_args|].
  assert (Hp : match rds_text sp lead ++ args_text sp words ++ s with c :: _ => one_of c [ch_open] | [] => false end = false).
  { destruct lead as [|[[] w] rs]; [|done..]. destruct words as [|[w rs] words].
    - destruct s as [|c s]; [done|]. simpl in *. unfold after_simple in Hs. rewrite !elem_of_cons, elem_of_nil in Hs. by decompose [or] Hs; subst.
    - inversion Hwords as [|?? [[Hne Hw] _] _]; subst. destruct w as [|c w]; [done|]. simpl in *. apply andb_true_iff in Hw as [Hw _].
      apply word_facts in Hw as [_ Hw]. apply (one_of_sub _ _ _ Hw). intros x. unfold symbols. rewrite !elem_of_cons, elem_of_nil. tauto. }
  rewrite Hp. wp_step. eapply wp_mono; [apply wp_parseredirs; [done|by apply clean_args|by apply no_redir_args]|]. intros l s' [-> Hl]. wp_step.
  eapply wp_mono; [apply (wp_parseargs_from words _ 0 s); [done|done|lia|lia]|]. intros r s' (-> & Hr1 & Hr2). wp_step. split; [done|].
  unfold redirs. rewrite fold_left_app. fold (redirs l (EXEC r.1)). change (strip (redirs r.2 (redirs l (EXEC r.1))) = denote_simple (SExec lead words)).
  rewrite Hr2, Hl. simpl. unfold aredirs. by rewrite fold_left_app, Hr1.
Qed.

Lemma simple_block l rs : line_parses l → simple_parses (SBlock l rs).
Proof.
  intros IH n s [Hl Hrs] Hs Hn. destruct n as [|[|n]]; [lia..|]. unfold parses_to. cbn [simple_text] in *. rewrite <- app_assoc in *.
  pose proof (follow_clean _ _ after_simple_symbols Hs) as Hc. cbn [parseexec parseblock]. wp_step. apply (wp_peek_sym ch_open); [done|].
  change (one_of ch_open [ch_open]) with true. cbv iota. wp_step. apply (wp_peek_sym ch_open); [done|]. change (one_of ch_open [ch_open]) with true. simpl negb. cbv iota.
  wp_step. rewrite <- !app_assoc in *. apply wp_gettoken_sym; [done|by apply clean_line|]. intros _. wp_step.
  eapply wp_mono; [apply IH; [done|simpl; set_solver|]|].
  { rewrite !length_app, ?length_sym in *. lia. }
  intros c s' [-> Ec]. wp_step. apply (wp_peek_sym ch_close); [done|]. change (one_of ch_close [ch_close]) with true. simpl negb. cbv iota.
  wp_step. apply wp_gettoken_sym; [done|by apply clean_rds|]. intros _. wp_step.
  eapply wp_mono; [apply wp_parseredirs; [done|done|by apply follow_no_redir]|]. intros lr s' [-> Hlr]. wp_step. split; [done|]. by rewrite Hlr, Ec.
Qed.

Lemma after_pipe_simple s : follow after_pipe s → follow after_simple s.
Proof. apply follow_weaken. intros x. unfold after_pipe, after_simple. rewrite !elem_of_cons, elem_of_nil. tauto. Qed.

Lemma pipe_end e : simple_parses e → pipe_parses (PEnd e).
Proof.
  intros IH n s He Hs Hn. destruct n as [|n]; [lia|]. unfold parses_to. cbn [parsepipe]. wp_step.
  eapply wp_mono; [apply IH; [done|by apply after_pipe_simple|simpl in Hn; lia]|]. intros c s' [-> Ec]. wp_step.
  apply (wp_peek_no after_pipe); [done| |done|by wp_step]. intros x. unfold after_pipe, symbols. rewrite !elem_of_cons, elem_of_nil. tauto.
Qed.

Lemma pipe_bar e p : simple_parses e → pipe_parses p → pipe_parses (PBar e p).
Proof.
  intros IHe IHp n s [He Hp] Hs Hn. destruct n as [|n]; [lia|]. unfold parses_to. cbn [parsepipe]. cbn [pipe_text] in *. rewrite <- !app_assoc in *. wp_step.
  eapply wp_mono; [apply IHe; [done|simpl; set_solver|lia]|]. intros c s' [-> Ec]. wp_step. apply (wp_peek_sym ch_bar); [done|].
  change (one_of ch_bar [ch_bar]) with true. cbv iota. pose proof (follow_clean _ _ after_simple_symbols (after_pipe_simple _ Hs)) as Hc. wp_step.
  apply wp_gettoken_sym; [done|by apply clean_pipe|]. intros _. wp_step.
  eapply wp_mono; [apply IHp; [done|done|rewrite !length_app, ?length_sym in *; lia]|].
  intros r s' [-> Er]. wp_step. split; [done|]. simpl. by rewrite Ec, Er.
Qed.

Lemma after_line_pipe s : follow after_line s → follow after_pipe s.
Proof. apply follow_weaken. intros x. unfold after_line, after_pipe. rewrite !elem_of_cons, elem_of_nil. tauto. Qed.

Lemma follow_bg bg s : follow [ch_close; ch_semi] s → follow after_pipe (bg_text sp bg ++ s).
Proof.
  destruct bg; simpl; [|intros _; set_solver]. apply follow_weaken. intros x. unfold after_pipe. rewrite !elem_of_cons, elem_of_nil. tauto.
Qed.

(** A pipe line with its ampersands, before a semicolon or the end. *)
Lemma wp_pipe_bg p bg n s (Q : cmd → ptr → Prop) : pipe_parses p → pipeline_ok p → follow [ch_close; ch_semi] s →
  (4 * length (pipe_text sp p ++ bg_text sp bg ++ s) + 3 ≤ n)%nat →
  (∀ c, strip c = Nat.iter bg ABack (denote_pipe p) → Q c s) →
  wp (c ← parsepipe n; parsebacks c) Q (pipe_text sp p ++ bg_text sp bg ++ s).
Proof.
  intros IH Hp Hs Hn HQ. wp_step. eapply wp_mono; [apply IH; [done|by apply follow_bg|done]|]. intros c s' [-> Ec].
  eapply wp_mono; [apply (wp_back_loop bg); [done|lia]|]. intros c' s' [-> Ec']. apply HQ. by rewrite Ec', Ec.
Qed.

Lemma line_end p bg : pipe_parses p → line_parses (LEnd p bg).
Proof.
  intros IH n s Hp Hs Hn. destruct n as [|n]; [lia|]. unfold parses_to. cbn [parseline]. cbn [line_text] in *. rewrite <- !app_assoc in *.
  assert (Hs' : follow [ch_close; ch_semi] s) by (revert Hs; apply follow_weaken; set_solver).
  eapply wp_eq; [symmetry; apply bind_assoc|]. wp_step. apply wp_pipe_bg; [done|done|done|lia|]. intros c Ec. wp_step.
  apply (wp_peek_no after_line); [done| |done|by wp_step]. intros x. unfold after_line, symbols. rewrite !elem_of_cons, elem_of_nil. tauto.
Qed.

Lemma line_seq p bg l : pipe_parses p → line_parses l → line_parses (LSeq p bg l).
Proof.
  intros IHp IHl n s [Hp Hl] Hs Hn. destruct n as [|n]; [lia|]. unfold parses_to. cbn [parseline]. cbn [line_text] in *. rewrite <- !app_assoc in *.
  pose proof (follow_clean _ _ after_simple_symbols (after_pipe_simple _ (after_line_pipe _ Hs))) as Hc.
  eapply wp_eq; [symmetry; apply bind_assoc|]. wp_step. apply wp_pipe_bg; [done|done|simpl; set_solver|lia|]. intros c Ec. wp_step.
  apply (wp_peek_sym ch_semi); [done|]. change (one_of ch_semi [ch_semi]) with true. cbv iota. wp_step.
  apply wp_gettoken_sym; [done|by apply clean_line|]. intros _. wp_step.
  eapply wp_mono; [apply IHl; [done|done|rewrite !length_app, ?length_sym in *; lia]|].
  intros r s' [-> Er]. wp_step. split; [done|]. simpl. by rewrite Ec, Er.
Qed.

Fixpoint parse_line_ok (l : line) : line_parses l :=
  match l with
  | LEnd p bg => line_end p bg (parse_pipe_ok p)
  | LSeq p bg l => line_seq p bg l (parse_pipe_ok p) (parse_line_ok l)
  end
with parse_pipe_ok (p : pipeline) : pipe_parses p :=
  match p with
  | PEnd e => pipe_end e (parse_simple_ok e)
  | PBar e p => pipe_bar e p (parse_simple_ok e) (parse_pipe_ok p)
  end
with parse_simple_ok (e : simple) : simple_parses e :=
  match e with
  | SExec lead words => simple_exec lead words
  | SBlock l rs => simple_block l rs (parse_line_ok l)
  end.

End parse_text.

(** The parser on the text of a line. *)
Lemma parsecmd_text sp l : sp ≠ [] → forallb (λ c, one_of c whitespace) sp = true → line_ok l →
  ∃ c line, parsecmd (line_text sp l) = Ok (c, line) [] ∧ strip c = denote_line l.
Proof.
  intros Hsp Hws Hl. assert (H : wp parse (λ c s, s = [] ∧ strip c = denote_line l) (line_text sp l)).
  { unfold parse. wp_step. wp_step. wp_step. pose proof (parse_line_ok sp Hsp Hws l (parse_fuel (line_text sp l)) []) as Hp.
    unfold parses_to in Hp. rewrite app_nil_r in Hp. eapply wp_mono; [apply Hp; [done|done|by unfold parse_fuel]|].
    intros c s [-> Ec]. wp_step. apply wp_peek; [done|]. wp_step. by wp_step. }
  apply wp_ok in H as (c & s & E & -> & Ec). exists c, (nulterminate (line_text sp l) c (line_text sp l ++ [0])). split; [|done].
  unfold parsecmd, bind. by rewrite E.
Qed.

(** The shell understands its grammar.  The text of any well-formed command
    line (lists, pipelines, background commands, parenthesised blocks, words and
    redirections, up to nine arguments to a command), with any whitespace between
    the tokens, is parsed without an error, to exactly the command it denotes. *)
Theorem parsecmd_render sp l : sp ≠ [] → forallb (λ c, one_of c whitespace) sp = true → line_ok l →
  ∃ c line, parsecmd (line_text sp l) = Ok (c, line) [] ∧ strip c = denote_line l.
Proof. apply parsecmd_text. Qed.

(** [ (ls < f ; wc) >> g | cat & ] *)
Definition demo_syntax : line :=
  LEnd (PBar (SBlock (LSeq (PEnd (SExec [] [([108; 115], [(RIn, [102])])])) 0 (LEnd (PEnd (SExec [] [([119; 99], [])])) 0)) [(RAppend, [103])])
    (PEnd (SExec [] [([99; 97; 116], [])]))) 1.

Lemma parsecmd_render_witness : ∃ c line, parsecmd (line_text [32] demo_syntax) = Ok (c, line) [] ∧ strip c = denote_line demo_syntax.
Proof.
  apply (parsecmd_render [32] demo_syntax); [discriminate|reflexivity|]. repeat split; repeat constructor; discriminate.
Defined.
