(* ===== verification/ShellRun.v ===== *)
(** * Running commands (sh.c)

    [runcmd] as the system calls it makes: every process has its own table of
    descriptors, a fork copies it, and each [exec] is recorded with the table the
    program starts with.  Which files can be opened, and whether a fork, a pipe or
    an exec succeeds, is up to the kernel: parameters of the model.  [runcmd]
    never returns, so its result is what happened until the process and the
    children it forked have exited. *)

From S2P Require Import Prelude Words Params Shell ShellGrammar.

(** ** Descriptors *)

Inductive obj :=
| OConsole
| OFile (path : list Z) (mode : Z)
| OPipeRead (id : nat)
| OPipeWrite (id : nat).

Definition fdtable := list (option obj).

Definition close (t : fdtable) (fd : nat) : fdtable := <[fd := None]> t.
(** Install an object at the first free descriptor. *)
Definition install (t : fdtable) (o : obj) : option (nat * fdtable) :=
  (λ fd, (fd, <[fd := Some o]> t)) <$> free_fd t 0.
Definition dup (t : fdtable) (fd : nat) : fdtable :=
  match mjoin (t !! fd) with
  | Some o => match install t o with Some (_, t') => t' | None => t end
  | None => t
  end.

(** ** The effects of a run *)

Inductive event :=
| Execs (argv : list (list Z)) (t : fdtable)
| Message (m : string) (arg : list Z).

Record run := Run { rn_events : list event; rn_pipes : nat; rn_forks : nat }.

Definition emit (e : event) (r : run) : run := Run (rn_events r ++ [e]) (rn_pipes r) (rn_forks r).

Section runcmd.
(** Whether [open(path, mode)], the n-th fork, the n-th pipe and [exec(path)] succeed. *)
Context (can_open : list Z → Z → bool) (can_fork can_pipe : nat → bool) (can_exec : list Z → bool).

(** [fork1] : the child, then the rest of the parent, unless the fork fails. *)
Definition fork1 (child parent : run → run) (r : run) : run :=
  let r' := Run (rn_events r) (rn_pipes r) (S (rn_forks r)) in
  if can_fork (rn_forks r) then parent (child r') else emit (Message "fork" []) r'.

(** [pipe(p)]: the two descriptors and the table with them. *)
Definition pipe_call (t : fdtable) (id : nat) : option (nat * nat * fdtable) :=
  if can_pipe id then
    match install t (OPipeRead id) with
    | Some (p0, t1) =>
        match install t1 (OPipeWrite id) with
        | Some (p1, t2) => Some (p0, p1, t2)
        | None => None
        end
    | None => None
    end
  else None.

Definition next_pipe (r : run) : run := Run (rn_events r) (S (rn_pipes r)) (rn_forks r).

Fixpoint runcmd (c : acmd) (t : fdtable) (r : run) : run :=
  match c with
  | AExec argv =>
      match argv with
      | [] => r
      | path :: _ =>
          let r := emit (Execs argv t) r in
          if can_exec path then r else emit (Message "exec %s failed" path) r
      end
  | ARedir c file mode fd =>
      let t := close t (Z.to_nat fd) in
      match (if can_open file mode then install t (OFile file mode) else None) with
      | None => emit (Message "open %s failed" file) r
      | Some (_, t) => runcmd c t r
      end
  | AList lc rc => fork1 (runcmd lc t) (runcmd rc t) r
  | APipe lc rc =>
      match pipe_call t (rn_pipes r) with
      | None => emit (Message "pipe" []) r
      | Some (p0, p1, t) =>
          fork1 (runcmd lc (close (close (dup (close t 1) p1) p0) p1))
            (fork1 (runcmd rc (close (close (dup (close t 0) p0) p0) p1)) (λ r, r))
            (next_pipe r)
      end
  | ABack c => fork1 (runcmd c t) (λ r, r) r
  end.

End runcmd.

(** ** What a command should do *)

(** Redirect a descriptor: the table with the object there instead. *)
Definition redirect (fd : nat) (o : obj) (t : fdtable) : fdtable := <[fd := Some o]> t.

(** The programs a command starts, with the descriptors each of them gets, and the next
    pipe. *)
Fixpoint programs (c : acmd) (t : fdtable) (id : nat) : list event * nat :=
  match c with
  | AExec [] => ([], id)
  | AExec argv => ([Execs argv t], id)
  | ARedir c file mode fd => programs c (redirect (Z.to_nat fd) (OFile file mode) t) id
  | AList lc rc =>
      let '(el, id1) := programs lc t id in
      let '(er, id2) := programs rc t id1 in (el ++ er, id2)
  | APipe lc rc =>
      let '(el, id1) := programs lc (redirect 1 (OPipeWrite id) t) (S id) in
      let '(er, id2) := programs rc (redirect 0 (OPipeRead id) t) id1 in (el ++ er, id2)
  | ABack c => programs c t id
  end.

(** The first [k] descriptors are open and two more are free. *)
Record std (t : fdtable) : Prop := {
  sd_open : ∃ a b k, t = Some a :: Some b :: k;
  sd_free : ∃ p k l, t = p ++ None :: k ++ None :: l ∧ Forall is_Some p ∧ Forall is_Some k
}.

(** The redirections the parser makes: standard input or output. *)
Fixpoint io_redirs (c : acmd) : Prop :=
  match c with
  | AExec _ => True
  | ARedir c _ _ fd => (fd = 0 ∨ fd = 1) ∧ io_redirs c
  | AList l r | APipe l r => io_redirs l ∧ io_redirs r
  | ABack c => io_redirs c
  end.

(** Redirecting one of the first two descriptors keeps the rest. *)
Lemma std_shape t : std t → ∃ a b p k l, t = Some a :: Some b :: p ++ None :: k ++ None :: l ∧ Forall is_Some p ∧ Forall is_Some k.
Proof.
  intros [(a & b & q & E) (p & k & l & E' & Hp & Hk)]. rewrite E in E'. destruct p as [|x p]; [done|]. destruct p as [|y p]; [by destruct k|].
  injection E' as <- <- ->. inversion Hp as [|?? _ Hp']; subst. inversion Hp'; subst. by exists a, b, p, k, l.
Qed.

Lemma std_redirect fd o t : (fd < 2)%nat → std t → std (redirect fd o t).
Proof.
  intros Hfd (a & b & p & k & l & -> & Hp & Hk)%std_shape.
  assert (G : ∀ x y, std (Some x :: Some y :: p ++ None :: k ++ None :: l)).
  { intros x y. split; [by eexists _, _, _|]. exists (Some x :: Some y :: p), k, l. split_and!; [done| |done]. by repeat constructor. }
  unfold redirect. destruct fd as [|[|fd]]; [apply G|apply G|lia].
Qed.

(** Close a standard descriptor and open something: it takes its place. *)
Lemma reopen fd o t : (fd < 2)%nat → std t → install (close t fd) o = Some (fd, redirect fd o t).
Proof. intros Hfd (a & b & p & k & l & -> & _ & _)%std_shape. destruct fd as [|[|fd]]; [done|done|lia]. Qed.

(** The pipe's two descriptors are the first two free ones. *)
Lemma pipe_shape a b p k l id : Forall is_Some p → Forall is_Some k →
  pipe_call (λ _, true) (Some a :: Some b :: p ++ None :: k ++ None :: l) id =
  Some (2 + length p, 3 + length p + length k,
    Some a :: Some b :: p ++ Some (OPipeRead id) :: k ++ Some (OPipeWrite id) :: l)%nat.
Proof.
  intros Hp Hk. unfold pipe_call, install. set (t := _ :: _ :: p ++ _).
  assert (E : free_fd t 0 = Some (2 + length p)%nat) by (apply (free_fd_app (Some a :: Some b :: p)); by repeat constructor).
  rewrite E. simpl. rewrite insert_app_r_alt, Nat.sub_diag by lia. simpl.
  pose proof (free_fd_app (p ++ Some (OPipeRead id) :: k) l 2) as E2. rewrite <- app_assoc in E2. simpl in E2. rewrite E2.
  - simpl. rewrite length_app. simpl. rewrite insert_app_r_alt by lia. replace (length p + S (length k) - length p)%nat with (S (length k)) by lia.
    simpl. rewrite insert_app_r_alt, Nat.sub_diag by lia. simpl. do 4 f_equal. lia.
  - apply Forall_app. split; [done|]. by constructor.
Qed.

(** Closing them again. *)
Lemma close_pipe x y p k l u v : close (close (x :: y :: p ++ Some u :: k ++ Some v :: l) (2 + length p)) (3 + length p + length k) = x :: y :: p ++ None :: k ++ None :: l.
Proof.
  unfold close. simpl. rewrite insert_app_r_alt, Nat.sub_diag by lia. simpl. do 2 f_equal. rewrite insert_app_r_alt by lia.
  replace (S (length p + length k) - length p)%nat with (S (length k)) by lia. simpl. rewrite insert_app_r_alt, Nat.sub_diag by lia. done.
Qed.

Lemma pipe_children t id : std t → ∃ p0 p1 t', pipe_call (λ _, true) t id = Some (p0, p1, t') ∧
  close (close (dup (close t' 1) p1) p0) p1 = redirect 1 (OPipeWrite id) t ∧
  close (close (dup (close t' 0) p0) p0) p1 = redirect 0 (OPipeRead id) t.
Proof.
  intros (a & b & p & k & l & -> & Hp & Hk)%std_shape. eexists _, _, _. split; [by apply pipe_shape|].
  assert (E1 : ∀ x y, dup (x :: y :: p ++ Some (OPipeRead id) :: k ++ Some (OPipeWrite id) :: l) (3 + length p + length k) =
     match install (x :: y :: p ++ Some (OPipeRead id) :: k ++ Some (OPipeWrite id) :: l) (OPipeWrite id) with Some (_, t') => t' | None => x :: y :: p ++ Some (OPipeRead id) :: k ++ Some (OPipeWrite id) :: l end).
  { intros x y. unfold dup. simpl. rewrite lookup_app_r by lia. replace (S (length p + length k) - length p)%nat with (S (length k)) by lia. simpl.
    by rewrite list_lookup_middle. }
  assert (E0 : ∀ x y, dup (x :: y :: p ++ Some (OPipeRead id) :: k ++ Some (OPipeWrite id) :: l) (2 + length p) =
     match install (x :: y :: p ++ Some (OPipeRead id) :: k ++ Some (OPipeWrite id) :: l) (OPipeRead id) with Some (_, t') => t' | None => x :: y :: p ++ Some (OPipeRead id) :: k ++ Some (OPipeWrite id) :: l end).
  { intros x y. unfold dup. simpl. by rewrite list_lookup_middle. }
  split; [change (close ?t 1) with (Some a :: None :: p ++ Some (OPipeRead id) :: k ++ Some (OPipeWrite id) :: l); rewrite E1
         |change (close ?t 0) with (None :: Some b :: p ++ Some (OPipeRead id) :: k ++ Some (OPipeWrite id) :: l); rewrite E0]; apply close_pipe.
Qed.

(** ** Running a command starts its programs *)

Definition is_exec (e : event) : bool := match e with Execs _ _ => true | Message _ _ => false end.
Definition execs (r : run) : list event := List.filter is_exec (rn_events r).

Lemma execs_emit_exec argv t r : execs (emit (Execs argv t) r) = execs r ++ [Execs argv t].
Proof. unfold execs. simpl. by rewrite List.filter_app. Qed.
Lemma execs_emit_message m arg r : execs (emit (Message m arg) r) = execs r.
Proof. unfold execs. simpl. rewrite List.filter_app. by rewrite app_nil_r. Qed.

(** [f] starts the programs [p] lists, given the next pipe. *)
Definition starts (f : run → run) (p : nat → list event * nat) : Prop :=
  ∀ r, execs (f r) = execs r ++ (p (rn_pipes r)).1 ∧ rn_pipes (f r) = (p (rn_pipes r)).2.

Lemma starts_nothing : starts (λ r, r) (λ id, ([], id)).
Proof. intros r. by rewrite app_nil_r. Qed.

Lemma starts_fork f g p q : starts f p → starts g q →
  starts (fork1 (λ _, true) f g) (λ id, let '(el, id1) := p id in let '(er, id2) := q id1 in (el ++ er, id2)).
Proof.
  intros Hf Hg r. unfold fork1. set (r' := Run _ _ _). destruct (Hf r') as [Ef If]. destruct (Hg (f r')) as [Eg Ig].
  rewrite Eg, Ig, Ef, If. change (rn_pipes r') with (rn_pipes r). change (execs r') with (execs r).
  destruct (p (rn_pipes r)) as [el id1]. simpl. destruct (q id1) as [er id2]. simpl. by rewrite app_assoc.
Qed.

(** [runcmd] starts the programs of the command. *)
Lemma runcmd_starts can_exec c : ∀ t, std t → io_redirs c →
  starts (runcmd (λ _ _, true) (λ _, true) (λ _, true) can_exec c t) (programs c t).
Proof.
  induction c as [argv|c IH file mode fd|lc IHl rc IHr|lc IHl rc IHr|c IH]; intros t Ht Hc.
  - intros r. cbn [runcmd programs]. destruct argv as [|path argv]; [apply starts_nothing|].
    destruct (can_exec path); rewrite ?execs_emit_message, execs_emit_exec; done.
  - destruct Hc as [Hfd Hc]. assert (Z.to_nat fd < 2)%nat by lia. intros r. cbn [runcmd programs].
    rewrite (reopen (Z.to_nat fd) (OFile file mode) t) by done. by apply IH; [apply std_redirect|].
  - destruct Hc as [Hl Hr]. intros r. cbn [runcmd programs]. destruct (pipe_children t (rn_pipes r) Ht) as (p0 & p1 & t' & -> & -> & ->).
    pose proof (IHl _ (std_redirect 1 (OPipeWrite (rn_pipes r)) t ltac:(lia) Ht) Hl) as Sl.
    pose proof (starts_fork _ _ _ _ (IHr _ (std_redirect 0 (OPipeRead (rn_pipes r)) t ltac:(lia) Ht) Hr) starts_nothing) as Sr.
    destruct (starts_fork _ _ _ _ Sl Sr (next_pipe r)) as [-> ->]. cbn [next_pipe rn_pipes]. change (execs (next_pipe r)) with (execs r).
    destruct (programs lc _ _) as [el id1]. destruct (programs rc _ _) as [er id2]. cbn [fst snd]. by rewrite app_nil_r.
  - destruct Hc as [Hl Hr]. exact (starts_fork _ _ _ _ (IHl t Ht Hl) (IHr t Ht Hr)).
  - intros r. cbn [runcmd programs]. destruct (starts_fork _ _ _ _ (IH t Ht Hc) starts_nothing r) as [-> ->].
    destruct (programs c t _) as [e id]. simpl. by rewrite app_nil_r.
Qed.

(** A command runs its programs with the right descriptors.  When files open,
    forks and pipes succeed, [runcmd] starts exactly the programs of the command,
    in order.  A redirection replaces standard input or output and nothing else;
    the two sides of a pipe get its write end as descriptor 1 and its read end as
    descriptor 0 and no other descriptor of the pipe, so that the reader sees the
    end of file when the writer exits; and nothing of one command leaks into the next. *)
Theorem runcmd_programs can_exec c : ∀ t, std t → io_redirs c →
  starts (runcmd (λ _ _, true) (λ _, true) (λ _, true) can_exec c t) (programs c t).
Proof. apply runcmd_starts. Qed.

(** The commands of the parser only redirect standard input and output. *)
Lemma aredirs_io rs : ∀ c, io_redirs c → io_redirs (aredirs rs c).
Proof. induction rs as [|[[] w] rs IH]; intros c Hc; simpl; [done|..]; apply IH; simpl; auto. Qed.

Lemma back_io bg c : io_redirs c → io_redirs (Nat.iter bg ABack c).
Proof. intros Hc. by induction bg. Qed.

Fixpoint line_io (l : line) : io_redirs (denote_line l) :=
  match l with
  | LEnd p bg => back_io bg _ (pipe_io p)
  | LSeq p bg l => conj (back_io bg _ (pipe_io p)) (line_io l)
  end
with pipe_io (p : pipeline) : io_redirs (denote_pipe p) :=
  match p with
  | PEnd e => simple_io e
  | PBar e p => conj (simple_io e) (pipe_io p)
  end
with simple_io (e : simple) : io_redirs (denote_simple e) :=
  match e with
  | SExec lead words => aredirs_io _ (AExec words.*1) I
  | SBlock l rs => aredirs_io rs _ (line_io l)
  end.

(** [ls < f | wc] on a console. *)
Definition demo_fds : fdtable := [Some OConsole; Some OConsole; Some OConsole] ++ replicate 13 None.
Definition demo_pipe : acmd := APipe (ARedir (AExec [[108; 115]]) [102] O_RDONLY 0) (AExec [[119; 99]]).

Lemma runcmd_programs_witness :
  starts (runcmd (λ _ _, true) (λ _, true) (λ _, true) (λ _, true) demo_pipe demo_fds) (programs demo_pipe demo_fds)
  ∧ programs demo_pipe demo_fds 7 =
    ([Execs [[108; 115]] ([Some (OFile [102] 0); Some (OPipeWrite 7); Some OConsole] ++ replicate 13 None);
      Execs [[119; 99]] ([Some (OPipeRead 7); Some OConsole; Some OConsole] ++ replicate 13 None)], 8%nat).
Proof.
  split; [|reflexivity]. apply (runcmd_programs (λ _, true) demo_pipe demo_fds).
  - split; [by eexists _, _, _|]. exists [Some OConsole; Some OConsole; Some OConsole], [], (replicate 11 None).
    split; [reflexivity|]. split; repeat constructor; eexists; reflexivity.
  - simpl. tauto.
Defined.
