(* ===== verification/ShellMain.v ===== *)
(** * The command loop of the shell (sh.c: getcmd, main)

    The shell reads lines with [gets] and gives each to a child that parses
    and runs it; [cd] it does itself.  The system calls are those of Uprog.v;
    the children's effects are the events of ShellRun.v.  The
    session theorem composes the reader, the parser and [runcmd]. *)

From S2P Require Import Prelude Words Params CString Format Printf Fs Uprog UprogSpec.
From S2P Require Import Shell ShellGrammar ShellRun.

Record shst (S : Type) := ShSt { sh_os : S; sh_run : run }.
Arguments ShSt {S}.
Arguments sh_os {S}.
Arguments sh_run {S}.

Section shell_main.
Context {S : Type} `{UserOS S, ProcOS S}.
(** As for [runcmd]; [fds] are the descriptors of the shell. *)
Context (can_open : list Z → Z → bool) (can_fork can_pipe : nat → bool) (can_exec : list Z → bool).
Context (fds : fdtable).

Definition on_os {A} (c : M S A) : M (shst S) A := zoom sh_os (λ x s, ShSt x (sh_run s)) c.

(** The line without its NUL; [None] for the result -1. *)
Definition getcmd (nbuf : Z) : M (shst S) (option (list Z)) :=
  on_os (uprintf 2 (lit "$ ") []) ;;
  buf ← on_os (ugets nbuf);
  let line := cpre (ptr_of buf) (length buf) in
  match line with
  | [] => ret None
  | _ => ret (Some line)
  end.

(** Ensure that three file descriptors are open. *)
Fixpoint open_console (fuel : nat) : M (shst S) unit :=
  match fuel with
  | O => fault
  | Datatypes.S f =>
      fd ← on_os (u_open (lit "console") O_RDWR);
      if 0 <=? fd then
        if 3 <=? fd then _ ← on_os (u_close fd); ret tt else open_console f
      else ret tt
  end.

Definition is_cd (line : list Z) : bool :=
  match line with
  | c0 :: c1 :: c2 :: _ => (c0 =? 99) && (c1 =? 100) && (c2 =? 32)
  | _ => false
  end.
(** [buf[strlen(buf)-1] = 0], then [chdir(buf+3)]. *)
Definition run_cd (line : list Z) : M (shst S) unit :=
  let dir := drop 3 (take (length line - 1) line) in
  r ← on_os (u_chdir dir);
  whenM (r <? 0) (on_os (uprintf 2 (lit "cannot cd %s" ++ lf) [arg_str dir])).

(** [runcmd(parsecmd(buf))] in the child; a syntax error is a message. *)
Definition child (line : list Z) (r : run) : run :=
  match parsecmd line with
  | Ok (c, _) _ => runcmd can_open can_fork can_pipe can_exec (strip c) fds r
  | Panic msg => emit (Message msg []) r
  | _ => r
  end.
(** [if(fork1() == 0) ...; wait();]: false when the fork failed, which ends
    the shell. *)
Definition run_line (line : list Z) : M (shst S) bool :=
  s ← getS;
  putS (ShSt (sh_os s) (fork1 can_fork (child line) (λ r, r) (sh_run s))) ;;
  if can_fork (rn_forks (sh_run s)) then _ ← on_os u_wait; ret true else ret false.

Fixpoint sh_loop (fuel : nat) : M (shst S) unit :=
  match fuel with
  | O => fault
  | Datatypes.S f =>
      c ← getcmd 100;
      match c with
      | None => ret tt
      | Some line =>
          if is_cd line then run_cd line ;; sh_loop f else
          go ← run_line line;
          if go : bool then sh_loop f else ret tt
      end
  end.

Definition sh_main (fuel : nat) : M (shst S) unit := open_console fuel ;; sh_loop fuel.
End shell_main.

(** ** Whitespace at the end of a line *)

(** Every line the shell parses ends in its newline.  The parser on a line
    with whitespace behind it does what it does on the line. *)
Section trailing.
Context (tail : list Z) (Htail : forallb (λ c, one_of c whitespace) tail = true).

Definition ends (s s' : ptr) : Prop := s' = s ++ tail ∨ (s = [] ∧ s' = []).

(** The first computation faults, or the second does the same. *)
Definition sim {A} (RA : A → A → Prop) (c c' : M ptr A) : Prop := ∀ s s', ends s s' →
  match c s, c' s' with
  | Ok a t, Ok a' t' => RA a a' ∧ ends t t'
  | Panic m, Panic m' => m = m'
  | Fault, _ => True
  | _, _ => False
  end.

Lemma sim_bind {A B} (RA : A → A → Prop) (RB : B → B → Prop) c c' (f f' : A → M ptr B) :
  sim RA c c' → (∀ a a', RA a a' → sim RB (f a) (f' a')) → sim RB (bind c f) (bind c' f').
Proof.
  intros Hc Hf s s' Hs. specialize (Hc s s' Hs). unfold bind. destruct (c s), (c' s'); try done.
  destruct Hc as [HA Ht]. by apply Hf.
Qed.
Lemma sim_ret {A} (RA : A → A → Prop) a a' : RA a a' → sim RA (ret a) (ret a').
Proof. by intros HA s s' Hs. Qed.
Lemma sim_panic {A} (RA : A → A → Prop) msg : sim RA (panic msg) (panic msg).
Proof. by intros s s' Hs. Qed.
Lemma sim_fault {A} (RA : A → A → Prop) c : sim RA fault c.
Proof. by intros s s' Hs. Qed.
Lemma sim_length {A} (RA : A → A → Prop) (c : nat → M ptr A) :
  (∀ n n', (n ≤ n')%nat → sim RA (c n) (c n')) → sim RA (λ s, c (Datatypes.S (length s)) s) (λ s, c (Datatypes.S (length s)) s).
Proof.
  intros Hc s s' Hs. apply Hc; [|done]. destruct Hs as [->|[-> ->]]; [rewrite length_app; lia|done].
Qed.

Lemma skip_ws_tail s : skip_ws s = [] ∧ skip_ws (s ++ tail) = [] ∨ skip_ws s ≠ [] ∧ skip_ws (s ++ tail) = skip_ws s ++ tail.
Proof.
  induction s as [|c s IH]; simpl.
  - left. split; [done|]. clear -Htail. induction tail as [|c l IH]; simpl in *; [done|]. apply andb_true_iff in Htail as [-> Hl]. by apply IH.
  - destruct (one_of c whitespace); [done|by right].
Qed.

Lemma skip_ws_ends s s' : ends s s' → skip_ws s = [] ∧ skip_ws s' = [] ∨ skip_ws s ≠ [] ∧ skip_ws s' = skip_ws s ++ tail.
Proof. intros [->|[-> ->]]; [apply skip_ws_tail|by left]. Qed.
Lemma ends_skip s s' : ends s s' → ends (skip_ws s) (skip_ws s').
Proof. intros [?|[_ ->]]%skip_ws_ends; [by right|by left]. Qed.

Lemma skip_word_tail s : skip_word (s ++ tail) = skip_word s ++ tail.
Proof.
  induction s as [|c s IH]; simpl; [|by destruct (is_word c)].
  destruct tail as [|c l]; [done|]. simpl in *. apply andb_true_iff in Htail as [Hc _]. unfold is_word. by rewrite Hc.
Qed.

Lemma tail_not_gt c l : tail = c :: l → (c =? ch_gt) = false.
Proof. intros E. rewrite E in Htail. simpl in Htail. apply andb_true_iff in Htail as [Hc _]. apply Z.eqb_neq. by intros ->. Qed.

Lemma scan_tail c s : let '(tok, e) := scan_token (c :: s) in scan_token ((c :: s) ++ tail) = (tok, e ++ tail).
Proof.
  pose proof (skip_word_tail (c :: s)) as Hw. pose proof tail_not_gt as Hgt. unfold scan_token. cbn [app]. destruct (one_of c _); [done|]. destruct (c =? ch_gt).
  - destruct s as [|d s]; cbn [app]; [|by destruct (d =? ch_gt)]. destruct tail as [|d l]; [done|]. by rewrite (Hgt d l eq_refl).
  - f_equal. exact Hw.
Qed.

Definition same_word (w w' : token) : Prop := word w = word w'.

Lemma word_tail q e : word (q ++ tail, e ++ tail) = word (q, e).
Proof.
  unfold word. cbn [fst snd]. rewrite !length_app. replace (length q + length tail - (length e + length tail))%nat with (length q - length e)%nat by lia.
  by rewrite take_app_le by lia.
Qed.

Lemma sim_gettoken : sim (λ t t', t.1 = t'.1 ∧ same_word t.2 t'.2) gettoken gettoken.
Proof.
  intros s s' Hs. unfold gettoken. destruct (skip_ws_ends s s' Hs) as [[-> ->]|[Hne ->]].
  - simpl. split; [done|by right].
  - destruct (skip_ws s) as [|c q]; [done|]. pose proof (scan_tail c q) as Hsc. destruct (scan_token (c :: q)) as [tok e].
    rewrite Hsc. cbn [fst snd]. split; [split; [done|]|apply ends_skip; by left]. unfold same_word. by rewrite word_tail.
Qed.

Lemma sim_peek toks : sim eq (peek toks) (peek toks).
Proof.
  intros s s' Hs. unfold peek. split; [|by apply ends_skip].
  destruct (skip_ws_ends s s' Hs) as [[-> ->]|[Hne ->]]; [done|]. by destruct (skip_ws s).
Qed.

Definition same_redir (r r' : redir) : Prop := same_word (rd_file r) (rd_file r') ∧ rd_mode r = rd_mode r' ∧ rd_fd r = rd_fd r'.
Definition same_cmd (c c' : cmd) : Prop := strip c = strip c'.

Lemma same_redircmd tok w w' : same_word w w' → same_redir (redircmd tok w) (redircmd tok w').
Proof. intros Hw. unfold redircmd. by destruct (tok =? ch_lt). Qed.
Lemma same_redirs l l' : Forall2 same_redir l l' → ∀ c c', same_cmd c c' → same_cmd (redirs l c) (redirs l' c').
Proof.
  induction 1 as [|r r' l l' (Hf & Hm & Hd) _ IH]; intros c c' Hc; [done|]. apply IH. unfold same_cmd, same_word in *. simpl. congruence.
Qed.

Ltac sim_step := first [apply sim_ret | apply sim_panic | apply sim_fault
  | eapply sim_bind; [apply sim_peek|intros ? b ->; destruct b]
  | eapply sim_bind; [apply sim_gettoken|intros [? ?] [? ?] [? ?]; cbn [fst snd] in *; subst] ].

Lemma sim_parseredirs_from n : ∀ n', (n ≤ n')%nat → sim (Forall2 same_redir) (parseredirs_from n) (parseredirs_from n').
Proof.
  induction n as [|n IH]; intros n' Hn; [apply sim_fault|]. destruct n' as [|n']; [lia|]. cbn [parseredirs_from].
  sim_step; [|sim_step; constructor]. do 2 sim_step. destruct (negb _); [sim_step|].
  eapply sim_bind; [apply IH; lia|]. intros l l' Hl. sim_step. constructor; [by apply same_redircmd|done].
Qed.
Lemma sim_parseredirs : sim (Forall2 same_redir) parseredirs parseredirs.
Proof. apply (sim_length _ parseredirs_from). exact sim_parseredirs_from. Qed.

Definition same_args (r r' : list token * list redir) : Prop := Forall2 same_word r.1 r'.1 ∧ Forall2 same_redir r.2 r'.2.

Lemma sim_parseargs_from n : ∀ n' argc, (n ≤ n')%nat → sim same_args (parseargs_from n argc) (parseargs_from n' argc).
Proof.
  induction n as [|n IH]; intros n' argc Hn; [apply sim_fault|]. destruct n' as [|n']; [lia|]. cbn [parseargs_from].
  sim_step; [sim_step; by split; constructor|]. sim_step. destruct (_ =? 0); [sim_step; by split; constructor|].
  destruct (negb _); [sim_step|]. destruct (MAXARGS <=? Datatypes.S argc)%nat; [sim_step|].
  eapply sim_bind; [apply sim_parseredirs|]. intros l l' Hl. eapply sim_bind; [apply IH; lia|]. intros r r' [H1 H2]. sim_step.
  split; [by constructor|by apply Forall2_app].
Qed.
Lemma sim_parseargs : sim same_args parseargs parseargs.
Proof. apply (sim_length _ (λ n, parseargs_from n 0)). intros n n'. by apply sim_parseargs_from. Qed.

Lemma sim_back_loop n : ∀ n' c c', (n ≤ n')%nat → same_cmd c c' → sim same_cmd (back_loop n c) (back_loop n' c').
Proof.
  induction n as [|n IH]; intros n' c c' Hn Hc; [apply sim_fault|]. destruct n' as [|n']; [lia|]. cbn [back_loop].
  sim_step; [|by sim_step]. sim_step. apply IH; [lia|]. unfold same_cmd in *. simpl. by f_equal.
Qed.
Lemma sim_parsebacks c c' : same_cmd c c' → sim same_cmd (parsebacks c) (parsebacks c').
Proof.
  intros Hc s s' Hs. unfold parsebacks. apply sim_back_loop; [|done|done]. destruct Hs as [->|[-> ->]]; [rewrite length_app; lia|done].
Qed.

Lemma same_exec argv argv' : Forall2 same_word argv argv' → same_cmd (EXEC argv) (EXEC argv').
Proof. intros Ha. unfold same_cmd. simpl. f_equal. induction Ha; [done|]. rewrite !fmap_cons. by f_equal. Qed.

Lemma sim_parsers n : ∀ n', (n ≤ n')%nat →
  sim same_cmd (parseline n) (parseline n') ∧ sim same_cmd (parsepipe n) (parsepipe n') ∧
  sim same_cmd (parseexec n) (parseexec n') ∧ sim same_cmd (parseblock n) (parseblock n').
Proof.
  induction n as [|n IH]; intros n' Hn; [split_and!; apply sim_fault|]. destruct n' as [|n']; [lia|].
  destruct (IH n') as (Hl & Hp & He & Hb); [lia|]. split_and!; cbn [parseline parsepipe parseexec parseblock].
  - eapply sim_bind; [exact Hp|]. intros c c' Hc. eapply sim_bind; [by apply sim_parsebacks|]. clear c c' Hc. intros c c' Hc.
    sim_step; [|by sim_step]. sim_step. eapply sim_bind; [exact Hl|]. intros r r' Hr. sim_step. unfold same_cmd in *. simpl. congruence.
  - eapply sim_bind; [exact He|]. intros c c' Hc. sim_step; [|by sim_step]. sim_step. eapply sim_bind; [exact Hp|].
    intros r r' Hr. sim_step. unfold same_cmd in *. simpl. congruence.
  - sim_step; [exact Hb|]. eapply sim_bind; [apply sim_parseredirs|]. intros l l' Hls. eapply sim_bind; [apply sim_parseargs|].
    intros r r' [H1 H2]. sim_step. apply same_redirs; [by apply Forall2_app|by apply same_exec].
  - sim_step; cbn [negb]; [|sim_step]. sim_step. eapply sim_bind; [exact Hl|]. intros c c' Hc. sim_step; cbn [negb]; [|sim_step]. sim_step.
    eapply sim_bind; [apply sim_parseredirs|]. intros l l' Hls. sim_step. by apply same_redirs.
Qed.

(** Whitespace behind a line makes no difference to its command. *)
Lemma parsecmd_trailing buf c line : parsecmd buf = Ok (c, line) [] →
  ∃ c' line', parsecmd (buf ++ tail) = Ok (c', line') [] ∧ strip c' = strip c.
Proof.
  intros E. destruct (sim_parsers (parse_fuel buf) (parse_fuel (buf ++ tail))) as [Hl _]; [unfold parse_fuel; rewrite length_app; lia|].
  specialize (Hl buf (buf ++ tail) (or_introl eq_refl)). unfold parsecmd, parse, getS, bind, peek in *.
  destruct (parseline (parse_fuel buf) buf) as [a t| | |]; try done.
  destruct (parseline (parse_fuel (buf ++ tail)) (buf ++ tail)) as [a' t'| | |]; try done.
  destruct Hl as [Ha Ht]. destruct (skip_ws_ends t t' Ht) as [[E1 E2]|[Hne _]].
  - rewrite E1 in E. rewrite E2. injection E as -> _. by eexists _, _.
  - by destruct (skip_ws t).
Qed.
End trailing.

(** ** A session *)

(** What the shell sees of the system. *)
Class ShellView (S : Type) := {
  input : S → list Z;
  cds : S → list (list Z);          (* the arguments of [chdir] so far *)
  nfds : S → Z                      (* the descriptors in use are 0 to nfds - 1 *)
}.
Definition same_os {S : Type} {HV : ShellView S} (s s' : S) : Prop :=
  input s' = input s ∧ cds s' = cds s ∧ nfds s' = nfds s.

(** What the shell relies on: descriptor 0 gives the input byte by byte,
    messages can be written, [open] takes the next descriptor, and the
    children that [wait] lets run do not read the shell's input. *)
Class ShellLaws (S : Type) {HU : UserOS S} {HS : ProcOS S} {HV : ShellView S} := {
  sl_read s : 0 < nfds s → wp (u_read 0 1) (λ r s', cds s' = cds s ∧ nfds s' = nfds s ∧
    match input s with
    | [] => r = (0, []) ∧ input s' = []
    | c :: rest => r = (1, [c]) ∧ input s' = rest
    end) s;
  sl_write bytes s : wp (u_write 2 bytes) (λ _ s', same_os s s') s;
  sl_chdir dir s : wp (u_chdir dir) (λ _ s', cds s' = cds s ++ [dir] ∧ input s' = input s ∧ nfds s' = nfds s) s;
  sl_wait s : wp u_wait (λ _ s', same_os s s') s;
  sl_open s : 0 < nfds s → wp (u_open (lit "console") O_RDWR) (λ fd s',
    fd = nfds s ∧ nfds s' = nfds s + 1 ∧ input s' = input s ∧ cds s' = cds s) s;
  sl_close s : 1 < nfds s → wp (u_close (nfds s - 1)) (λ _ s',
    nfds s' = nfds s - 1 ∧ input s' = input s ∧ cds s' = cds s) s
}.

(** What is typed: command lines of the grammar and changes of directory. *)
Inductive item := Cmd (l : line) | Cd (dir : list Z).
Definition item_line (sp : list Z) (i : item) : list Z :=
  match i with
  | Cmd l => line_text sp l
  | Cd dir => [99; 100; 32] ++ dir
  end.
Definition item_text (sp : list Z) (i : item) : list Z := item_line sp i ++ [10].

(** It fits the buffer of 100 bytes, newline and NUL included. *)
Definition plain (c : Z) : Prop := c ≠ 0 ∧ c ≠ 10 ∧ c ≠ 13.
Definition item_ok (sp : list Z) (i : item) : Prop :=
  (length (item_line sp i) ≤ 98)%nat ∧ Forall plain (item_line sp i) ∧
  match i with
  | Cmd l => line_ok l ∧ is_cd (item_text sp (Cmd l)) = false
  | Cd _ => True
  end.

(** The programs a session starts, and the directories it changes to. *)
Fixpoint session (t : fdtable) (l : list item) (id : nat) : list event :=
  match l with
  | [] => []
  | Cmd c :: l' => let '(e, id') := programs (denote_line c) t id in e ++ session t l' id'
  | Cd _ :: l' => session t l' id
  end.
Definition dirs (l : list item) : list (list Z) := omap (λ i, match i with Cd d => Some d | Cmd _ => None end) l.

Section session.
Context {S : Type} {HU : UserOS S} {HS : ProcOS S} {HV : ShellView S} {HL : ShellLaws S}.
Implicit Types s : S.

Lemma same_os_trans s1 s2 s3 : same_os s1 s2 → same_os s2 s3 → same_os s1 s3.
Proof. intros (? & ? & ?) (? & ? & ?). split_and!; congruence. Qed.

Lemma wp_put_all2 bytes s : wp (put_all 2 bytes) (λ _ s', same_os s s') s.
Proof.
  revert s. induction bytes as [|c bytes IH]; intros s; cbn [put_all]; [by wp_step|].
  wp_step. eapply wp_mono; [apply sl_write|]. intros k s1 H1. eapply wp_mono; [apply IH|]. intros [] s2 H2. exact (same_os_trans _ _ _ H1 H2).
Qed.
Lemma wp_message fmt args bytes s : printf fmt args = Some bytes → wp (uprintf 2 fmt args) (λ _ s', same_os s s') s.
Proof. intros Hp. unfold uprintf. rewrite Hp. apply wp_put_all2. Qed.

Lemma wp_sh_gets s : 0 < nfds s →
  wp (ugets 100) (λ r s', (cds s' = cds s ∧ nfds s' = nfds s) ∧ ∃ l, r = l ++ [0] ∧ (l, input s') = line_of 99 (input s)) s.
Proof.
  intros Hn. apply (wp_ugets input (λ s', cds s' = cds s ∧ nfds s' = nfds s)); [|done|done].
  intros s1 [Hc1 Hn1]. eapply wp_mono; [apply sl_read; lia|]. intros r s2 (Hc2 & Hn2 & Hi). split; [split; congruence|done].
Qed.

Lemma plain_eol l : Forall plain l → Forall (λ c, eol c = false) l.
Proof. intros Hl. eapply Forall_impl; [exact Hl|]. intros c (_ & ? & ?). unfold eol. by rewrite !(proj2 (Z.eqb_neq _ _)). Qed.

Lemma wp_on_os {A} (c : M S A) (Q : A → S → Prop) r s : wp c Q s →
  wp (on_os c) (λ a x, Q a (sh_os x) ∧ sh_run x = r) (ShSt s r).
Proof. intros Hc. apply wp_zoom. eapply wp_mono; [exact Hc|]. by intros a s' HQ. Qed.

(** [getcmd] returns the next line. *)
Lemma wp_getcmd_line l rest s r : 0 < nfds s → input s = (l ++ [10]) ++ rest → Forall plain l → (length l ≤ 98)%nat →
  wp (getcmd 100) (λ c x, c = Some (l ++ [10]) ∧ sh_run x = r ∧
    input (sh_os x) = rest ∧ cds (sh_os x) = cds s ∧ nfds (sh_os x) = nfds s) (ShSt s r).
Proof.
  intros Hn Hs Hl Hlen. rewrite <- app_assoc in Hs. unfold getcmd. wp_step.
  eapply wp_mono; [by eapply wp_on_os, wp_message|]. intros [] [s1 r1] [(Hi1 & Hc1 & Hn1) Hr1]. simpl in *. subst r1.
  wp_step. eapply wp_mono; [apply wp_on_os, wp_sh_gets; lia|].
  intros b [s2 r2] [((Hc2 & Hn2) & b' & -> & Eb) Hr2]. cbn [sh_os sh_run] in *. subst r2.
  rewrite Hi1, Hs, (line_of_line l rest 99) in Eb; [|by apply plain_eol|lia]. injection Eb as -> Hi2.
  rewrite cpre_ptr_of; [| |rewrite !length_app; simpl; lia|by right; left].
  - destruct (l ++ [10]) eqn:E; [by destruct l|]. wp_step. cbn [sh_os sh_run]. split_and!; [done|done|congruence..].
  - apply Forall_app. split; [|by repeat constructor]. eapply Forall_impl; [exact Hl|]. by intros c [? _].
Qed.

Lemma wp_getcmd_eof s r : 0 < nfds s → input s = [] →
  wp (getcmd 100) (λ c x, c = None ∧ sh_run x = r ∧ cds (sh_os x) = cds s) (ShSt s r).
Proof.
  intros Hn Hs. unfold getcmd. wp_step. eapply wp_mono; [by eapply wp_on_os, wp_message|].
  intros [] [s1 r1] [(Hi1 & Hc1 & Hn1) Hr1]. simpl in *. subst r1. wp_step.
  eapply wp_mono; [apply wp_on_os, wp_sh_gets; lia|]. intros b [s2 r2] [((Hc2 & Hn2) & b' & -> & Eb) Hr2]. cbn [sh_os sh_run] in *.
  rewrite Hi1, Hs in Eb. injection Eb as -> _. change (cpre (ptr_of ([] ++ [0])) (length ([] ++ [0]))) with (@nil Z). cbn match. wp_step. change (@None (list Z) = None ∧ r2 = r ∧ cds s2 = cds s); split_and!; congruence.
Qed.

(** [cd] is done by the shell itself. *)
Lemma wp_run_cd dir s r :
  wp (run_cd (item_text [] (Cd dir))) (λ _ x, sh_run x = r ∧ cds (sh_os x) = cds s ++ [dir] ∧
    input (sh_os x) = input s ∧ nfds (sh_os x) = nfds s) (ShSt s r).
Proof.
  assert (E : drop 3 (take (length (item_text [] (Cd dir)) - 1) (item_text [] (Cd dir))) = dir).
  { unfold item_text. rewrite length_app. cbn [length]. rewrite Nat.add_sub, take_app_length. done. }
  unfold run_cd. rewrite E. wp_step. eapply wp_mono; [apply wp_on_os, sl_chdir|].
  intros k [s1 r1] [(Hc1 & Hi1 & Hn1) Hr1]. cbn [sh_os sh_run] in *. subst r1. unfold whenM. destruct (k <? 0); [|by wp_step].
  eapply wp_mono; [eapply wp_on_os, (wp_message _ _ (lit "cannot cd " ++ dir ++ lf))|].
  - change (lit "cannot cd %s" ++ lf) with (lit "cannot cd " ++ (37 :: 115 :: lf)).
    apply printf_lit; [by repeat constructor|]. by apply printf_str.
  - intros [] [s2 r2] [(Hi2 & Hc2 & Hn2) Hr2]. simpl in *. split_and!; congruence.
Qed.

Section loop.
Context (can_exec : list Z → bool) (fds : fdtable) (Hfds : std fds).
Context (sp : list Z) (Hsp : sp ≠ []) (Hws : forallb (λ c, one_of c whitespace) sp = true).

Notation yes1 := (λ _, true).
Notation yes2 := (λ _ _, true).

(** The child of a command line starts the programs of its command. *)
Lemma child_starts l : line_ok l →
  starts (child yes2 yes1 yes1 can_exec fds (item_text sp (Cmd l))) (programs (denote_line l) fds).
Proof.
  intros Hl. destruct (parsecmd_text sp l Hsp Hws Hl) as (c & t & E & Ec).
  destruct (parsecmd_trailing [10] eq_refl _ _ _ E) as (c' & t' & E' & Ec').
  intros r. unfold child. change (item_text sp (Cmd l)) with (line_text sp l ++ [10]). rewrite E', Ec', Ec. apply runcmd_starts; [done|apply line_io].
Qed.

Lemma wp_run_line l s r : line_ok l →
  wp (run_line yes2 yes1 yes1 can_exec fds (item_text sp (Cmd l))) (λ go x, go = true ∧ same_os s (sh_os x) ∧
    execs (sh_run x) = execs r ++ (programs (denote_line l) fds (rn_pipes r)).1 ∧
    rn_pipes (sh_run x) = (programs (denote_line l) fds (rn_pipes r)).2) (ShSt s r).
Proof.
  intros Hl. unfold run_line. wp_step. wp_step. wp_step. cbn [sh_os sh_run]. unfold putS, wp at 1. cbn match. wp_step.
  eapply wp_mono; [apply wp_on_os, sl_wait|]. intros k [s1 r1] [Hs Hr]. simpl in Hs, Hr. wp_step. cbn [sh_os sh_run]. subst r1.
  destruct (starts_fork _ _ _ _ (child_starts l Hl) starts_nothing r) as [E1 E2]. rewrite E1, E2.
  destruct (programs (denote_line l) fds (rn_pipes r)) as [e id]. simpl. by rewrite app_nil_r.
Qed.

Lemma wp_sh_loop items : ∀ fuel s r, 0 < nfds s → input s = concat (item_text sp <$> items) → Forall (item_ok sp) items →
  (length items < fuel)%nat →
  wp (sh_loop yes2 yes1 yes1 can_exec fds fuel) (λ _ x,
    execs (sh_run x) = execs r ++ session fds items (rn_pipes r) ∧ cds (sh_os x) = cds s ++ dirs items) (ShSt s r).
Proof.
  induction items as [|i items IH]; intros fuel s r Hn Hi Hok Hf; (destruct fuel as [|f]; [simpl in Hf; lia|]); cbn [sh_loop].
  - wp_step. eapply wp_mono; [by apply wp_getcmd_eof|]. intros c [s1 r1] (-> & Hr1 & Hc1). simpl in *. subst r1. wp_step.
    by rewrite !app_nil_r.
  - apply Forall_cons in Hok as [(Hlen & Hpl & Hit) Hok]. rewrite fmap_cons, concat_cons in Hi. cbn [length] in Hf.
    wp_step. eapply wp_mono; [by apply (wp_getcmd_line (item_line sp i) _ s r Hn Hi)|].
    intros c [s1 r1] (-> & Hr1 & Hi1 & Hc1 & Hn1). simpl in Hr1, Hi1, Hc1, Hn1. subst r1. destruct i as [l|dir].
    + destruct Hit as [Hl Hcd]. change (item_line sp (Cmd l) ++ [10]) with (item_text sp (Cmd l)). rewrite Hcd.
      wp_step. eapply wp_mono; [by apply wp_run_line|]. intros go [s2 r2] (-> & (Hi2 & Hc2 & Hn2) & He & Hp). simpl in *.
      eapply wp_mono; [apply IH; [lia|congruence|done|lia]|]. intros _ [s3 r3] [He3 Hc3]. simpl in *. rewrite He3, Hc3, He, Hp, Hc2, Hc1.
      destruct (programs (denote_line l) fds (rn_pipes r)) as [e id]. simpl. by rewrite app_assoc.
    + change (item_line sp (Cd dir) ++ [10]) with (item_text [] (Cd dir)). change (is_cd (item_text [] (Cd dir))) with true. cbn match.
      wp_step. eapply wp_mono; [apply wp_run_cd|]. intros [] [s2 r2] (Hr2 & Hc2 & Hi2 & Hn2). simpl in *. subst r2.
      eapply wp_mono; [apply IH; [lia|congruence|done|lia]|]. intros _ [s3 r3] [He3 Hc3]. simpl in *.
      split; [done|]. by rewrite Hc3, Hc2, Hc1, <- app_assoc.
Qed.

(** The console is opened until three descriptors are in use. *)
Lemma wp_open_console fuel : ∀ s r, 0 < nfds s → 4 - Z.min 3 (nfds s) ≤ Z.of_nat fuel →
  wp (open_console fuel) (λ _ x, sh_run x = r ∧ nfds (sh_os x) = Z.max 3 (nfds s) ∧
    input (sh_os x) = input s ∧ cds (sh_os x) = cds s) (ShSt s r).
Proof.
  induction fuel as [|f IH]; intros s r Hn Hf; [lia|]. cbn [open_console]. wp_step.
  eapply wp_mono; [by apply wp_on_os, sl_open|]. intros fd [s1 r1] [(-> & Hn1 & Hi1 & Hc1) Hr1]. cbn [sh_os sh_run] in *. subst r1.
  rewrite (proj2 (Z.leb_le _ _)) by lia. destruct (Z.leb_spec 3 (nfds s)).
  - wp_step. replace (nfds s) with (nfds s1 - 1) at 1 by lia. eapply wp_mono; [apply wp_on_os, sl_close; lia|].
    intros k [s2 r2] [(Hn2 & Hi2 & Hc2) Hr2]. cbn [sh_os sh_run] in *. wp_step. cbn [sh_os sh_run]. split_and!; [done|lia|congruence..].
  - eapply wp_mono; [apply IH; lia|]. intros [] [s2 r2] (Hr2 & Hn2 & Hi2 & Hc2). cbn [sh_os sh_run] in *. split_and!; [done|lia|congruence..].
Qed.

End loop.
End session.

(** ** A system with a script as its input *)

Record demo_sh := DemoSh { ds_in : list Z; ds_cds : list (list Z); ds_n : Z }.

#[global] Instance demo_sh_user : UserOS demo_sh := {
  u_open _ _ s := Ok (ds_n s) (DemoSh (ds_in s) (ds_cds s) (ds_n s + 1));
  u_read _ _ s :=
    match ds_in s with
    | [] => Ok (0, []) s
    | c :: l => Ok (1, [c]) (DemoSh l (ds_cds s) (ds_n s))
    end;
  u_write _ bytes s := Ok (Z.of_nat (length bytes)) s;
  u_close _ s := Ok 0 (DemoSh (ds_in s) (ds_cds s) (ds_n s - 1));
  u_fstat _ s := Ok (-1, no_stat) s;
  u_unlink _ s := Ok (-1) s;
  u_mkdir _ s := Ok (-1) s;
  u_link _ _ s := Ok (-1) s;
  u_kill _ s := Ok (-1) s
}.
#[global] Instance demo_sh_os : ProcOS demo_sh := {
  u_fork s := Ok (-1) s;
  u_exec _ _ s := Ok false s;
  u_sleep _ s := Ok 0 s;
  u_mknod _ _ _ s := Ok (-1) s;
  u_dup _ s := Ok (-1) s;
  u_chdir dir s := Ok (if bool_decide (dir = [100]) then 0 else -1) (DemoSh (ds_in s) (ds_cds s ++ [dir]) (ds_n s));
  u_wait s := Ok 4 s
}.
#[global] Instance demo_sh_view : ShellView demo_sh := { input := ds_in; cds := ds_cds; nfds := ds_n }.
#[global] Program Instance demo_sh_laws : ShellLaws demo_sh := {}.
Next Obligation. intros [[|c l] d n] _; done. Qed.
Next Obligation. by intros bytes [l d n]. Qed.
Next Obligation. by intros dir [l d n]. Qed.
Next Obligation. by intros [l d n]. Qed.
Next Obligation. by intros [l d n] _. Qed.
Next Obligation. by intros [l d n] _. Qed.

(** [cd d], [ls | wc], [cd x], [wc &] *)
Definition demo_items : list item :=
  [Cd [100]; Cmd (LEnd (PBar (SExec [] [([108; 115], [])]) (PEnd (SExec [] [([119; 99], [])]))) 0);
   Cd [120]; Cmd (LEnd (PEnd (SExec [] [([119; 99], [])])) 1)].

