(* ===== verification/Grep.v ===== *)
(** * grep (grep.c)

    A C string is the list of the bytes before its NUL.  The pattern matcher
    is compared with a denotational semantics of patterns; the line loop with
    the filter on the lines of the input. *)

From S2P Require Import Prelude Words CString Params Format Printf Fs Uprog UprogSpec.

Definition caret : Z := 94.
Definition star : Z := 42.
Definition dollar : Z := 36.
Definition dot : Z := 46.
Definition newline : Z := 10.

(** ** The matcher *)

(** [matchstar(c, re, text)], with [here] standing for [matchhere(re, .)]. *)
Fixpoint matchstar (c : Z) (here : list Z → bool) (text : list Z) : bool :=
  if here text then true
  else match text with
       | [] => false
       | t :: text' => if (t =? c) || (c =? dot) then matchstar c here text' else false
       end.

Fixpoint matchhere (re text : list Z) : bool :=
  match re with
  | [] => true
  | c :: re' =>
      match re' with
      | d :: re'' =>
          if d =? star then matchstar c (matchhere re'') text
          else match text with
               | t :: text' => if (c =? dot) || (c =? t) then matchhere re' text' else false
               | [] => false
               end
      | [] =>
          if c =? dollar then match text with [] => true | _ => false end
          else match text with
               | t :: text' => if (c =? dot) || (c =? t) then matchhere re' text' else false
               | [] => false
               end
      end
  end.

(** The do-while loop of [match]. *)
Fixpoint match_from (re text : list Z) : bool :=
  if matchhere re text then true
  else match text with [] => false | _ :: text' => match_from re text' end.

Definition match_ (re text : list Z) : bool :=
  match re with
  | c :: re' => if c =? caret then matchhere re' text else match_from re text
  | [] => match_from re text
  end.

(** ** The line loop *)

Definition BUFSZ : nat := 1024.

(** The inner loop on the bytes [p .. buf+m): [strchr] finds the next newline
    before the first NUL; the output and what is left of the buffer. *)
Fixpoint next_line (p : list Z) : option (list Z * list Z) :=
  match p with
  | [] => None
  | c :: p' =>
      if c =? newline then Some ([], p')
      else if c =? 0 then None
      else match next_line p' with
           | Some (l, rest) => Some (c :: l, rest)
           | None => None
           end
  end.

Fixpoint grep_lines (fuel : nat) (pattern p : list Z) : list Z * list Z :=
  match fuel with
  | O => ([], p)
  | S f =>
      match next_line p with
      | None => ([], p)
      | Some (l, rest) =>
          let (out, p') := grep_lines f pattern rest in
          ((if match_ pattern l then l ++ [newline] else []) ++ out, p')
      end
  end.

(** [read(fd, buf, n)] on a descriptor whose data arrives in chunks: a read
    returns at most what the first chunk has. *)
Definition read_fd (fd : list (list Z)) (n : nat) : list Z * list (list Z) :=
  match fd with
  | [] => ([], [])
  | c :: fd' => (take n c, if (length c <=? n)%nat then fd' else drop n c :: fd')
  end.

Fixpoint grep_loop (fuel : nat) (pattern : list Z) (fd : list (list Z)) (buf : list Z) : option (list Z) :=
  match fuel with
  | O => None
  | S f =>
      let (got, fd') := read_fd fd (BUFSZ - length buf - 1) in
      match got with
      | [] => Some []
      | _ =>
          let buf := buf ++ got in
          let (out, p) := grep_lines (S (length buf)) pattern buf in
          let buf := if (length p =? length buf)%nat then [] else p in
          match grep_loop f pattern fd' buf with
          | Some out' => Some (out ++ out')
          | None => None
          end
      end
  end.

Definition grep_fuel (fd : list (list Z)) : nat := S (length (concat fd) + length fd).

(** What [grep] writes to descriptor 1. *)
Definition grep (pattern : list Z) (fd : list (list Z)) : option (list Z) :=
  grep_loop (grep_fuel fd) pattern fd [].

(** ** Reference semantics of patterns *)

Inductive item := Lit (c : Z) | Rep (c : Z) | AtEnd.

Fixpoint items (re : list Z) : list item :=
  match re with
  | [] => []
  | c :: re' =>
      match re' with
      | d :: re'' => if d =? star then Rep c :: items re'' else Lit c :: items re'
      | [] => if c =? dollar then [AtEnd] else [Lit c]
      end
  end.

(** A pattern character against a text character. *)
Definition accepts (c t : Z) : Prop := c = dot ∨ c = t.

(** [denotes its s rest]: the items match the text [s] when [rest] follows it. *)
Inductive denotes : list item → list Z → list Z → Prop :=
| d_nil rest : denotes [] [] rest
| d_lit c t its s rest : accepts c t → denotes its s rest → denotes (Lit c :: its) (t :: s) rest
| d_rep c s1 its s2 rest :
    Forall (accepts c) s1 → denotes its s2 rest → denotes (Rep c :: its) (s1 ++ s2) rest
| d_end : denotes [AtEnd] [] [].

(** Some prefix of the text matches. *)
Definition prefix_matches (its : list item) (text : list Z) : Prop :=
  ∃ s rest, text = s ++ rest ∧ denotes its s rest.

Lemma accepts_true c t : ((c =? dot) || (c =? t)) = true ↔ accepts c t.
Proof. unfold accepts. rewrite orb_true_iff, !Z.eqb_eq. done. Qed.

Lemma accepts_true' c t : ((t =? c) || (c =? dot)) = true ↔ accepts c t.
Proof. unfold accepts. rewrite orb_true_iff, !Z.eqb_eq. naive_solver. Qed.

Lemma prefix_lit c its t text :
  prefix_matches (Lit c :: its) (t :: text) ↔ accepts c t ∧ prefix_matches its text.
Proof.
  split.
  - intros (s & rest & E & Hd). inversion Hd; subst. simplify_eq/=. split; [done|]. by eexists _, _.
  - intros [Ha (s & rest & -> & Hd)]. exists (t :: s), rest. split; [done|by constructor].
Qed.

Lemma prefix_lit_nil c its : ¬ prefix_matches (Lit c :: its) [].
Proof. intros (s & rest & E & Hd). inversion Hd; subst. done. Qed.

Lemma prefix_end text : prefix_matches [AtEnd] text ↔ text = [].
Proof.
  split.
  - intros (s & rest & -> & Hd). by inversion Hd.
  - intros ->. exists [], []. split; [done|constructor].
Qed.

Lemma prefix_rep c its text :
  prefix_matches (Rep c :: its) text ↔
  ∃ s1 text', text = s1 ++ text' ∧ Forall (accepts c) s1 ∧ prefix_matches its text'.
Proof.
  split.
  - intros (s & rest & -> & Hd). inversion Hd; subst.
    eexists _, (s2 ++ rest). split; [by rewrite (assoc_L (++))|]. split; [done|]. by eexists _, _.
  - intros (s1 & text' & -> & Hf & s2 & rest & -> & Hd).
    exists (s1 ++ s2), rest. split; [by rewrite (assoc_L (++))|by constructor].
Qed.

Lemma matchstar_iff c here (P : list Z → Prop) text :
  (∀ t, here t = true ↔ P t) →
  matchstar c here text = true ↔ ∃ s1 text', text = s1 ++ text' ∧ Forall (accepts c) s1 ∧ P text'.
Proof.
  intros Hh. induction text as [|t text IH]; cbn [matchstar].
  - destruct (here []) eqn:E.
    + split; [|done]. intros _. exists [], []. by rewrite <- Hh.
    + split; [done|]. intros (s1 & t' & E' & _ & HP). symmetry in E'.
      apply app_eq_nil in E' as [-> ->]. apply Hh in HP. congruence.
  - destruct (here (t :: text)) eqn:E.
    { split; [|done]. intros _. exists [], (t :: text). by rewrite <- Hh. }
    destruct ((t =? c) || (c =? dot)) eqn:Ea.
    + apply accepts_true' in Ea. rewrite IH. split.
      * intros (s1 & t' & -> & Hf & HP). exists (t :: s1), t'. split_and!; [done|by constructor|done].
      * intros ([|x s1] & t' & E' & Hf & HP); simplify_eq/=.
        -- apply Hh in HP. congruence.
        -- inversion Hf; subst. by exists s1, t'.
    + split; [done|]. intros ([|x s1] & t' & E' & Hf & HP); simplify_eq/=.
      * apply Hh in HP. congruence.
      * inversion Hf; subst. apply accepts_true' in H1. congruence.
Qed.

Lemma matchhere_iff re text : matchhere re text = true ↔ prefix_matches (items re) text.
Proof.
  remember (length re) as n eqn:Hn. revert re text Hn.
  induction (lt_wf n) as [n _ IH]. intros [|c re] text ->.
  { split; [|done]. intros _. exists [], text. split; [done|constructor]. }
  assert (Hone : ∀ its, (∀ t, matchhere re t = true ↔ prefix_matches its t) →
    match text with
    | t :: text' => if (c =? dot) || (c =? t) then matchhere re text' else false
    | [] => false
    end = true ↔ prefix_matches (Lit c :: its) text).
  { intros its Hre. destruct text as [|t text].
    - split; [done|]. intros Hp. by apply prefix_lit_nil in Hp.
    - rewrite prefix_lit, <- Hre. destruct ((c =? dot) || (c =? t)) eqn:Ea.
      + apply accepts_true in Ea. naive_solver.
      + split; [done|]. intros [Ha _]. apply accepts_true in Ha. congruence. }
  destruct re as [|d re]; cbn [matchhere items].
  - destruct (c =? dollar).
    + rewrite prefix_end. by destruct text.
    + apply Hone. intros t. by apply (IH 0%nat); [simpl; lia|].
  - destruct (d =? star).
    + rewrite prefix_rep. apply matchstar_iff. intros t. apply (IH (length re)); simpl; lia.
    + apply Hone. intros t. by apply (IH (length (d :: re))); [simpl; lia|].
Qed.

Lemma match_from_iff re text :
  match_from re text = true ↔ ∃ pre suf, text = pre ++ suf ∧ matchhere re suf = true.
Proof.
  induction text as [|t text IH]; cbn [match_from].
  - destruct (matchhere re []) eqn:E.
    + split; [|done]. intros _. by exists [], [].
    + split; [done|]. intros (pre & suf & E' & Hm). symmetry in E'.
      apply app_eq_nil in E' as [-> ->]. congruence.
  - destruct (matchhere re (t :: text)) eqn:E.
    { split; [|done]. intros _. by exists [], (t :: text). }
    rewrite IH. split.
    + intros (pre & suf & -> & Hm). by exists (t :: pre), suf.
    + intros ([|x pre] & suf & E' & Hm); simplify_eq/=; [congruence|]. by exists pre, suf.
Qed.

(** C27: [match] decides the language of its pattern: with a leading caret it
    answers 1 exactly when some prefix of the text is matched by the rest of
    the pattern, and otherwise exactly when some infix is. *)
Theorem match_correct re text :
  match_ re text = true ↔
  match re with
  | c :: re' => if c =? caret then prefix_matches (items re') text
                else ∃ pre suf, text = pre ++ suf ∧ prefix_matches (items re) suf
  | [] => True
  end.
Proof.
  destruct re as [|c re]; cbn [match_].
  - rewrite match_from_iff. split; [done|]. intros _. by exists [], text.
  - destruct (c =? caret); [apply matchhere_iff|].
    rewrite match_from_iff. by setoid_rewrite matchhere_iff.
Qed.

(** ** The line loop against the lines of the file *)

Definition flat (ls : list (list Z)) : list Z := concat ((λ l, l ++ [newline]) <$> ls).
Definition plain (l : list Z) : Prop := Forall (λ c, c ≠ newline ∧ c ≠ 0) l.
Definition selected (pattern : list Z) (ls : list (list Z)) : list Z :=
  flat (filter (λ l, match_ pattern l = true) ls).

Lemma next_line_plain l rest : plain l → next_line (l ++ newline :: rest) = Some (l, rest).
Proof.
  induction 1 as [|c l [Hn Hz] _ IH]; cbn [next_line app]; [done|].
  by rewrite (proj2 (Z.eqb_neq _ _) Hn), (proj2 (Z.eqb_neq _ _) Hz), IH.
Qed.

Lemma next_line_none l : plain l → next_line l = None.
Proof.
  induction 1 as [|c l [Hn Hz] _ IH]; cbn [next_line]; [done|].
  by rewrite (proj2 (Z.eqb_neq _ _) Hn), (proj2 (Z.eqb_neq _ _) Hz), IH.
Qed.

Lemma flat_cons l ls : flat (l :: ls) = l ++ newline :: flat ls.
Proof. unfold flat. rewrite fmap_cons. cbn [concat]. by rewrite <- (assoc_L (++)). Qed.

Lemma grep_lines_flat pattern ls t fuel :
  Forall plain ls → plain t → (length ls < fuel)%nat →
  grep_lines fuel pattern (flat ls ++ t) = (selected pattern ls, t).
Proof.
  intros Hls Ht. revert fuel. induction Hls as [|l ls Hl _ IH]; intros [|f] Hf; simpl in Hf; try lia.
  - cbn [grep_lines]. change (flat [] ++ t) with t. by rewrite next_line_none.
  - cbn [grep_lines]. rewrite flat_cons, <- (assoc_L (++)). cbn [app].
    rewrite next_line_plain, IH by (done || lia). unfold selected. rewrite filter_cons.
    destruct (match_ pattern l); simpl; [|done]. rewrite flat_cons, <- (assoc_L (++)). done.
Qed.

(** Cutting the text after some bytes cuts its lines. *)
Lemma cut_lines ls tail pre post :
  Forall plain ls → plain tail → pre ++ post = flat ls ++ tail →
  ∃ ls1 ls2 t, ls = ls1 ++ ls2 ∧ pre = flat ls1 ++ t ∧ plain t ∧ t ++ post = flat ls2 ++ tail.
Proof.
  intros Hls. revert pre. induction Hls as [|l ls Hl Hls IH]; intros pre Ht E.
  - exists [], [], pre. split_and!; try done. change (flat [] ++ tail) with tail in E.
    subst tail. by apply Forall_app in Ht as [? _].
  - rewrite flat_cons, <- (assoc_L (++)) in E. cbn [app] in E.
    destruct (decide (length l < length pre)%nat) as [Hlt|Hge].
    + assert (Ep : pre = l ++ newline :: drop (S (length l)) pre).
      { apply (f_equal (take (S (length l)))) in E.
        rewrite take_app_le in E by lia.
        replace (S (length l)) with (length l + 1)%nat in E at 2 by lia. rewrite take_app_add in E.
        change (take 1 (newline :: flat ls ++ tail)) with [newline] in E.
        etrans; [symmetry; apply (take_drop (S (length l)))|]. rewrite E, <- (assoc_L (++)). done. }
      rewrite Ep, <- (assoc_L (++)) in E. apply app_inv_head in E. cbn [app] in E.
      injection E as E. destruct (IH _ Ht E) as (ls1 & ls2 & t & -> & Ed & Hpt & Et).
      exists (l :: ls1), ls2, t. split_and!; try done. rewrite flat_cons, Ep, Ed.
      by rewrite <- (assoc_L (++)).
    + exists [], (l :: ls), pre. split_and!; try done.
      * assert (pre = take (length pre) l) as ->.
        { apply (f_equal (take (length pre))) in E. rewrite take_app_length in E.
          by rewrite take_app_le in E by lia. }
        by apply Forall_take.
      * rewrite E, flat_cons, <- (assoc_L (++)). done.
Qed.

Definition fd_of (rem : list Z) : list (list Z) := match rem with [] => [] | _ => [rem] end.

Lemma read_fd_of rem n :
  read_fd (fd_of rem) n = (take n rem, fd_of (drop n rem)).
Proof.
  destruct rem as [|c rem]; [by rewrite take_nil, drop_nil|]. cbn [fd_of read_fd].
  destruct (length (c :: rem) <=? n)%nat eqn:E.
  - apply Nat.leb_le in E. by rewrite drop_ge by done.
  - apply Nat.leb_gt in E. destruct (drop n (c :: rem)) eqn:Ed; [|done].
    apply (f_equal length) in Ed. rewrite length_drop in Ed. simpl in *. lia.
Qed.

Lemma plain_newline t ls tail post l :
  plain t → t ++ post = flat (l :: ls) ++ tail → (length t ≤ length l)%nat.
Proof.
  intros Ht E. rewrite flat_cons, <- (assoc_L (++)) in E. cbn [app] in E.
  destruct (decide (length t ≤ length l)%nat); [done|].
  assert (t !! length l = Some newline) as Hl.
  { apply (f_equal (lookup (length l))) in E. rewrite lookup_app_l in E by lia.
    rewrite E, lookup_app_r, Nat.sub_diag by lia. done. }
  by apply (Forall_lookup_1 _ _ _ _ Ht) in Hl as [? _].
Qed.

Lemma selected_app pattern ls1 ls2 :
  selected pattern (ls1 ++ ls2) = selected pattern ls1 ++ selected pattern ls2.
Proof. unfold selected, flat. by rewrite filter_app, fmap_app, concat_app. Qed.

Lemma length_flat ls : (length ls ≤ length (flat ls))%nat.
Proof. induction ls; [done|]. rewrite flat_cons, length_app. simpl. lia. Qed.

Lemma grep_loop_lines pattern fuel ls tail buf rem :
  Forall plain ls → Forall (λ l, (length l + 1 < BUFSZ)%nat) ls → plain tail →
  buf ++ rem = flat ls ++ tail → plain buf → (length buf + 1 < BUFSZ)%nat →
  (length rem < fuel)%nat →
  grep_loop fuel pattern (fd_of rem) buf = Some (selected pattern ls).
Proof.
  revert ls tail buf rem. induction fuel as [|f IH]; intros ls tail buf rem Hls Hsh Ht E Hb Hlen Hf; [lia|].
  cbn [grep_loop]. rewrite read_fd_of. set (k := (BUFSZ - length buf - 1)%nat).
  destruct rem as [|c rem].
  { rewrite take_nil. destruct ls as [|l ls]; [done|exfalso].
    rewrite app_nil_r, flat_cons in E. subst buf. rewrite <- (assoc_L (++)) in Hb.
    apply Forall_app in Hb as [_ Hb]. by inversion Hb as [|? ? [? _]]. }
  assert (k = S (k - 1)) as Hk by lia. rewrite Hk. cbn [take]. rewrite <- Hk.
  change (c :: take (k - 1) rem) with (take (S (k - 1)) (c :: rem)). rewrite <- Hk.
  set (buf' := buf ++ take k (c :: rem)).
  assert (E' : buf' ++ drop k (c :: rem) = flat ls ++ tail).
  { unfold buf'. by rewrite <- (assoc_L (++)), take_drop. }
  destruct (cut_lines ls tail buf' _ Hls Ht E') as (ls1 & ls2 & t & -> & Eb & Hpt & Et).
  apply Forall_app in Hls as [Hls1 Hls2]. apply Forall_app in Hsh as [Hsh1 Hsh2].
  assert (Hfl : (length ls1 < S (length buf'))%nat).
  { rewrite Eb, length_app. pose proof (length_flat ls1). lia. }
  rewrite Eb at 2. rewrite grep_lines_flat by done. rewrite selected_app.
  assert (Hbl : (length buf' ≤ BUFSZ - 1)%nat).
  { unfold buf'. rewrite length_app, length_take. lia. }
  assert (Hr : (length (drop k (c :: rem)) < f)%nat) by (rewrite length_drop; simpl in *; lia).
  destruct (length t =? length buf')%nat eqn:Elen.
  - apply Nat.eqb_eq in Elen. destruct ls2 as [|l ls2].
    + change (flat [] ++ tail) with tail in Et. rewrite <- Et in Ht. apply Forall_app in Ht as [_ Hd].
      rewrite (IH [] (drop k (c :: rem)) [] (drop k (c :: rem))); try done; [by constructor|]. unfold BUFSZ; simpl; lia.
    + exfalso. pose proof (plain_newline _ _ _ _ _ Hpt Et) as Hle.
      inversion Hsh2 as [|? ? Hl' _]; subst. unfold BUFSZ in *.
      assert (length rem + 1 ≤ k)%nat as Hall.
      { unfold buf' in Elen. rewrite length_app, length_take in Elen. simpl in Elen. lia. }
      rewrite drop_ge, app_nil_r in Et by (simpl; lia). subst t.
      rewrite flat_cons, !length_app in Hle. simpl in Hle. lia.
  - apply Nat.eqb_neq in Elen. rewrite (IH ls2 tail t); try done.
    assert (length t < length buf')%nat; [|lia]. rewrite Eb, length_app in *. lia.
Qed.

(** [grep] on a file prints exactly the matching lines, each with its
    newline and in order, whatever the file's length: the buffer of 1024 bytes
    loses nothing as long as every line fits in it.  A last line without a
    newline is not printed. *)
Theorem grep_correct pattern ls tail :
  Forall plain ls → Forall (λ l, (length l + 1 < BUFSZ)%nat) ls → plain tail →
  grep pattern [flat ls ++ tail] = Some (selected pattern ls).
Proof.
  intros Hls Hsh Ht. unfold grep, grep_fuel. cbn [concat length]. rewrite app_nil_r.
  destruct (flat ls ++ tail) as [|c rem] eqn:E.
  - destruct ls as [|l ls]; [done|]. rewrite flat_cons in E. by destruct l.
  - rewrite <- E. replace [flat ls ++ tail] with (fd_of (flat ls ++ tail)) by by rewrite E.
    apply (grep_loop_lines _ _ ls tail); try done; [by constructor|unfold BUFSZ; simpl; lia|rewrite E; simpl; lia].
Qed.

Lemma grep_correct_witness :
  grep [97; 46; 42; 99] [flat [[97; 98; 99]; [120]; [99; 97; 99]] ++ [97; 99]] =
  Some [97; 98; 99; 10; 99; 97; 99; 10].
Proof.
  rewrite (grep_correct [97; 46; 42; 99] [[97; 98; 99]; [120]; [99; 97; 99]] [97; 99]).
  - reflexivity.
  - repeat constructor; done.
  - repeat constructor; unfold BUFSZ; simpl; lia.
  - repeat constructor; done.
Defined.

(** A line that arrives in two reads is lost: without a newline in the buffer
    the loop drops what it has. *)
Theorem grep_short_read :
  grep [97; 98] [[97; 98]; [99; 10]] = Some [] ∧
  grep [97; 98] [[97; 98; 99; 10]] = Some [97; 98; 99; 10].
Proof. split; reflexivity. Qed.

(** ** The program over its system calls

    The line loop with its writes, and [main]. *)

Section program.
Context {S : Type} `{!UserOS S}.

(** The inner loop: it writes the lines that match, and what is left of the
    buffer is its result. *)
Fixpoint write_lines (fuel : nat) (pattern p : list Z) : M S (list Z) :=
  match fuel with
  | O => ret p
  | Datatypes.S f =>
      match next_line p with
      | None => ret p
      | Some (l, rest) =>
          (if match_ pattern l then _ ← u_write 1 (l ++ [newline]); ret tt else ret tt) ;;
          write_lines f pattern rest
      end
  end.

Fixpoint ugrep_from (fuel : nat) (pattern : list Z) (fd : Z) (buf : list Z) : M S unit :=
  match fuel with
  | O => fault
  | Datatypes.S f =>
      r ← u_read fd (Z.of_nat (BUFSZ - length buf - 1));
      let '(n, got) := r in
      if 0 <? n then
        let buf := buf ++ got in
        p ← write_lines (Datatypes.S (length buf)) pattern buf;
        ugrep_from f pattern fd (if (length p =? length buf)%nat then [] else p)
      else ret tt
  end.
Definition ugrep (fuel : nat) (pattern : list Z) (fd : Z) : M S unit := ugrep_from fuel pattern fd [].

(** [argv] without the name of the program. *)
Definition grep_main (fuel : nat) (argv : list (list Z)) : M S unit :=
  match argv with
  | [] => uprintf 2 (lit "usage: grep pattern [file ...]" ++ lf) []
  | [pattern] => ugrep fuel pattern 0
  | pattern :: files => each_file (lit "grep") (λ fd _, ugrep fuel pattern fd ;; ret true) files
  end.

(** Files, unlike pipes, give a read all it asks for, up to the end. *)
Class FullReads `{!UserLaws S} := {
  law_full fd n c s : stream s fd = Some c → 0 < n → wp (u_read fd n) (λ r _, r.2 = take (Z.to_nat n) c) s
}.

Context `{!UserLaws S, !FullReads}.
Implicit Types s : S.

Lemma wp_write_lines fuel pattern : ∀ p s,
  wp (write_lines fuel pattern p) (λ r s', r = (grep_lines fuel pattern p).2 ∧ wrote (grep_lines fuel pattern p).1 s s') s.
Proof.
  induction fuel as [|f IH]; intros p s; cbn [write_lines grep_lines].
  { wp_step. split; [done|]. split; [by rewrite app_nil_r|done]. }
  destruct (next_line p) as [[l rest]|]; [|wp_step; split; [done|]; split; [by rewrite app_nil_r|done]].
  specialize (IH rest). destruct (grep_lines f pattern rest) as [o q] eqn:E. cbn [fst snd] in *. wp_step.
  destruct (match_ pattern l).
  - wp_step. eapply wp_mono; [apply wp_write1|]. intros k s1 [_ H1]. wp_step.
    eapply wp_mono; [apply IH|]. intros r s2 [-> H2]. split; [done|]. exact (wrote_trans _ _ _ _ _ H1 H2).
  - wp_step. eapply wp_mono; [apply IH|]. intros r s2 [-> H2]. by split.
Qed.

Lemma next_line_shorter p l rest : next_line p = Some (l, rest) → (length rest < length p)%nat.
Proof.
  revert l rest. induction p as [|c p IH]; intros l rest; cbn [next_line]; [done|]. destruct (c =? newline); [intros [= <- <-]; simpl; lia|].
  destruct (c =? 0); [done|]. destruct (next_line p) as [[l' r']|]; [|done]. intros [= <- <-]. specialize (IH _ _ eq_refl). simpl. lia.
Qed.
Lemma grep_lines_le fuel pattern p : (length (grep_lines fuel pattern p).2 ≤ length p)%nat.
Proof.
  revert p. induction fuel as [|f IH]; intros p; cbn [grep_lines]; [done|]. destruct (next_line p) as [[l rest]|] eqn:E; [|done].
  specialize (IH rest). apply next_line_shorter in E. destruct (grep_lines f pattern rest). simpl in *. lia.
Qed.

(** The program writes what [grep_loop] computes. *)
Lemma wp_ugrep_from fuel pattern fd : ∀ buf rem o s,
  (length buf + 1 < BUFSZ)%nat → stream s fd = Some rem → grep_loop fuel pattern (fd_of rem) buf = Some o →
  wp (ugrep_from fuel pattern fd buf) (λ _ s', out s' 1 = out s 1 ++ o ∧ is_Some (stream s' fd) ∧ room s' = room s) s.
Proof.
  induction fuel as [|f IH]; intros buf rem o s Hb Hs Ho; [done|]. cbn [grep_loop] in Ho. rewrite read_fd_of in Ho.
  cbn [ugrep_from]. set (k := (BUFSZ - length buf - 1)%nat) in *. wp_step.
  eapply wp_mono; [apply wp_both; [by apply (law_read fd (Z.of_nat k) rem); [|lia]|by apply (law_full fd (Z.of_nat k) rem); [|lia]]|].
  intros [n got] s1 [(rest & Hc & Hn & _ & _ & Hs1 & Ho1 & Hr1) Hg]. simpl in Hc, Hn, Hg. rewrite Nat2Z.id in Hg. cbv beta iota. subst n.
  assert (rest = drop k rem) as ->.
  { rewrite Hg in Hc. rewrite <- (take_drop k rem) in Hc at 1. by apply app_inv_head in Hc. }
  rewrite <- Hg in Ho. destruct got as [|c got].
  - injection Ho as <-. change (0 <? Z.of_nat (length [])) with false. cbn match. wp_step.
    split_and!; [by rewrite Ho1, app_nil_r|by eexists|done].
  - rewrite (proj2 (Z.ltb_lt _ _)) by (simpl; lia). set (buf' := buf ++ c :: got) in *. wp_step.
    eapply wp_mono; [apply wp_write_lines|]. intros p s2 [-> (Ho2 & Hs2 & Hr2)].
    pose proof (grep_lines_le (Datatypes.S (length buf')) pattern buf') as Hle.
    destruct (grep_lines (Datatypes.S (length buf')) pattern buf') as [o1 p]. cbn [fst snd] in *.
    destruct (grep_loop f pattern _ _) as [o2|] eqn:E2; [|done]. injection Ho as <-.
    eapply wp_mono; [apply (IH _ (drop k rem) o2)|].
    + assert (length buf' ≤ BUFSZ - 1)%nat by (unfold buf'; rewrite Hg, length_app, length_take; lia).
      destruct (length p =? length buf')%nat eqn:El; [unfold BUFSZ; simpl; lia|]. apply Nat.eqb_neq in El. lia.
    + by rewrite Hs2.
    + done.
    + intros [] s3 (Ho3 & Hs3 & Hr3). split_and!; [by rewrite Ho3, Ho2, Ho1, app_assoc|done|congruence].
Qed.

(** The lines of a file: its text cut at every newline; the last one is not
    printed when it has no newline. *)
Fixpoint cut (cur : list Z) (l : list Z) : list (list Z) :=
  match l with
  | [] => []
  | c :: l' => if c =? newline then cur :: cut [] l' else cut (cur ++ [c]) l'
  end.
Fixpoint after_last (cur : list Z) (l : list Z) : list Z :=
  match l with
  | [] => cur
  | c :: l' => after_last (if c =? newline then [] else cur ++ [c]) l'
  end.

Lemma cut_flat l : ∀ cur, flat (cut cur l) ++ after_last cur l = cur ++ l.
Proof.
  induction l as [|c l IH]; intros cur; cbn [cut after_last]; [by rewrite app_nil_r|].
  destruct (Z.eqb_spec c newline) as [->|Hc].
  - rewrite flat_cons, <- (assoc_L (++)). cbn [app]. by rewrite IH.
  - by rewrite IH, <- (assoc_L (++)).
Qed.
Lemma cut_plain l : ∀ cur, plain cur → Forall (λ c, c ≠ 0) l → Forall plain (cut cur l) ∧ plain (after_last cur l).
Proof.
  induction l as [|c l IH]; intros cur Hcur Hl; cbn [cut after_last]; [by split|]. inversion Hl as [|? ? Hc Hl']; subst.
  destruct (Z.eqb_spec c newline) as [->|Hn].
  - destruct (IH [] ltac:(constructor) Hl') as [H1 H2]. split; [by constructor|done].
  - apply IH; [|done]. apply Forall_app. split; [done|]. by repeat constructor.
Qed.

(** A text file: no NUL, and lines that fit the buffer. *)
Definition text_file (c : list Z) : Prop :=
  Forall (λ b, b ≠ 0) c ∧ Forall (λ l, (length l + 1 < BUFSZ)%nat) (cut [] c).

End program.

(** A system with two files whose reads are complete. *)
Definition full_file (path : list Z) : option (list Z) :=
  if bool_decide (path = lit "a") then Some (lit "abc" ++ lf ++ lit "x" ++ lf ++ lit "cac" ++ lf ++ lit "ac")
  else if bool_decide (path = lit "b") then Some [] else None.
Record full_os := FullOs { fo_fd : Z → option (list Z); fo_out : Z → list Z; fo_next : nat; fo_room : nat }.

#[global] Instance full_user_os : UserOS full_os := {
  u_open path _ s :=
    match full_file path, fo_room s with
    | Some c, Datatypes.S r => Ok (Z.of_nat (fo_next s))
        (FullOs (λ fd, if fd =? Z.of_nat (fo_next s) then Some c else fo_fd s fd) (fo_out s) (Datatypes.S (fo_next s)) r)
    | _, _ => Ok (-1) s
    end;
  u_read fd n s :=
    match fo_fd s fd with
    | Some c => let k := Z.to_nat n in
        Ok (Z.of_nat (length (take k c)), take k c)
          (FullOs (λ fd', if fd' =? fd then Some (drop k c) else fo_fd s fd') (fo_out s) (fo_next s) (fo_room s))
    | None => Ok (-1, []) s
    end;
  u_write fd bytes s := Ok (Z.of_nat (length bytes))
    (FullOs (fo_fd s) (λ fd', if fd' =? fd then fo_out s fd ++ bytes else fo_out s fd') (fo_next s) (fo_room s));
  u_close fd s := Ok 0 (FullOs (fo_fd s) (fo_out s) (fo_next s) (Datatypes.S (fo_room s)));
  u_fstat fd s := Ok (-1, no_stat) s;
  u_unlink _ s := Ok (-1) s;
  u_mkdir _ s := Ok (-1) s;
  u_link _ _ s := Ok (-1) s;
  u_kill _ s := Ok (-1) s
}.
#[global] Program Instance full_user_laws : UserLaws full_os := {|
  f_content := full_file;
  stream := fo_fd;
  out := fo_out;
  room := fo_room
|}.
Next Obligation.
  intros path [fds o nx r] Hr. unfold wp. cbn [u_open full_user_os fo_room]. simpl in Hr.
  destruct (full_file path) as [c|]; [|split; [done|lia]]. destruct r as [|r]; [lia|]. simpl.
  split; [done|]. rewrite Z.eqb_refl. split_and!; [lia|done|done].
Qed.
Next Obligation.
  intros fd n c [fds o nx r] Hs Hn. unfold wp. cbn [u_read full_user_os fo_fd stream] in *. rewrite Hs. cbv zeta. cbn [fst snd fo_fd fo_out fo_room stream out room].
  exists (drop (Z.to_nat n) c). rewrite take_drop, Z.eqb_refl. split_and!; try done; [rewrite length_take; lia|].
  intros Hc E. destruct c as [|x c]; [done|]. destruct (Z.to_nat n) eqn:Ek; [lia|done].
Qed.
Next Obligation. intros fd bytes [fds o nx r] _. by unfold wp. Qed.
Next Obligation. intros fd c [fds o nx r] _ _. by unfold wp. Qed.
#[global] Instance full_reads : FullReads.
Proof. split. intros fd n c [fds o nx r] Hs Hn. unfold wp. cbn in *. by rewrite Hs. Qed.

